(* ===== verification/_CoqProject ===== *)
-Q . S2P
Prelude.v
Effects.v
Common.v
Shards.v
StockRepository.v
MemoryRepo.v
Sql.v
GoText.v
OrderStore.v
InventoryKitex.v
OrderLifecycle.v
OrderPayment.v
PaymentRecovery.v
OrderRefund.v
OrderCreate.v
PreDeduct.v
OrderSystem.v
OrderSteps.v
RedisScripts.v
RedisStock.v
RedisBooks.v
RedisMySQL.v
RedisRepo.v
FinalDeduct.v
EndToEnd.v
Scenarios.v
AuthTokens.v
AuthData.v
AuthMemory.v
AuthMemorySafety.v
AuthSessions.v
AuthSQL.v
AuthStoresAgree.v
AuthDivergence.v
Outbox.v
OutboxSteps.v
OutboxLeader.v
OutboxWork.v
OutboxDelivery.v
OutboxGuarantees.v
PaidProjection.v
ExistenceFilter.v
ExistenceSteps.v
ExistenceSafety.v
ExistencePublication.v
ExistenceRuns.v
ExistenceGuarantees.v
Alipay.v
AlipayAuthenticity.v
ProductStore.v
Promotion.v
PromotionRules.v
ProductCards.v
ProductCardRules.v
ProductCommand.v
Showcase.v
ShowcaseRules.v
Catalog.v
CatalogScenarios.v
ProductStock.v
AuthRisk.v
AuthRequests.v
AuthRequestRules.v
AuthAccess.v
AuthRequestScenarios.v
Cache.v
CacheSafety.v
CacheFlow.v
CacheGuarantees.v
CacheProgress.v
CacheScan.v
CacheScenarios.v
Programs.v
EntryOrders.v
CloseOrder.v
CloseSafety.v
CloseQueue.v
CloseProgress.v
EntryRetries.v
EntryScenarios.v
