(* ===== verification/Prelude.v ===== *)
(** * Flash Mall: a verified model of its back-end services

    The repository is a flash-sale shop made of Go services over MySQL, Redis and
    RabbitMQ.  This development translates the services that carry its logic
    (under src/app) into Rocq definitions and proves what makes them correct.
    Names of definitions are those of the code wherever possible.

    ** How the code is represented

    [Prelude] holds notation, automation and lemmas about lists, options and
    integers, [Effects] the monad in which handlers are written: an environment
    with a database that transactions roll back, an external part that they do
    not, a clock, and a schedule of faults.  Each statement and each call takes
    the next fault of the schedule: it succeeds, fails without effect, or takes
    effect while its caller sees an error (a lost reply).  Theorems quantify over
    schedules, so they hold whatever fails and whenever; the empty schedule is
    the run without failures.  [Sql] has tables as finite maps or lists and UPDATE
    with its count of affected rows, [GoText] the text functions of Go's library
    and its SHA-256, [Common] the status codes and error codes of app/common.
    64-bit integers are [Z] with [int64] written where the code can wrap around.
    A method that holds a mutex, a Redis script and a SQL statement are one
    step each; where several processes interleave (outbox, existence filter, order
    database) a step relation cuts the code at every statement.

    ** Inventory service (app/inventory)

    [Shards]: shard keys, split and start index.  [StockRepository]: the interface
    [Repository] with its laws, and service.go proved against it.  [MemoryRepo]:
    memory.go with its invariant, an abstract ledger of reservations and the
    refinement of one by the other.  [RedisScripts]: the Lua scripts on a
    keyspace with types and expiry; [RedisStock], [RedisBooks]: the books they
    keep.  [RedisMySQL]: the production repository, [RedisRepo]: it conserves
    stock under all faults, [FinalDeduct]: the deduction in MySQL and its log.
    [InventoryKitex]: handler and client.

    ** Order service (app/order/rpc)

    [OrderStore]: tables and clients.  [OrderLifecycle], [OrderPayment],
    [OrderRefund], [OrderCreate], [PreDeduct], [PaymentRecovery]: the handlers and
    the recovery job.  [OrderSystem]: the order database as a transition system
    with its integrity invariant; [OrderSteps]: all handlers, under all faults,
    take only steps of it.  [EndToEnd]: the service over any inventory that keeps
    its laws, and on a concrete deployment; [Scenarios]: runs.
    [Outbox], [OutboxSteps], [OutboxLeader], [OutboxWork],
    [OutboxDelivery], [OutboxGuarantees]: the outbox publisher
    (job/outbox_publisher.go, rabbit_publisher.go).  [PaidProjection]: the consumer
    of paid events.  [Alipay], [AlipayAuthenticity]: the payment
    provider client (paymentprovider/).

    ** Auth service (app/auth/api)

    [AuthTokens]: refresh tokens.  [AuthData]: data and interface of the stores.
    [AuthMemory] with [AuthMemorySafety] and [AuthSessions]: the in-memory store and
    its properties.  [AuthSQL]: the MySQL store; [AuthStoresAgree]: the two do the
    same; [AuthDivergence]: runs, among them those where the stores
    part.

    ** Gateway (app/gateway/hertz)

    [ExistenceFilter], [ExistenceSteps], [ExistenceSafety], [ExistencePublication],
    [ExistenceRuns], [ExistenceGuarantees]: the product
    existence filter (existencefilter/).  [ProductStore]: the product tables.
    [Promotion], [PromotionRules], [CatalogScenarios]: promotion rules
    (application/promotion, adapters/productmysql/promotion*.go).

    ** Products (app/product/rpc, app/gateway/hertz, app/entry/api/job)

    [ProductCards]: reading one or many product cards (getproductcardlogic.go,
    listproductslogic.go), the snapshots they are read from
    (adapters/productmysql/snapshot.go) and the job that refreshes them
    (job/product_card_snapshot.go); [ProductCardRules]: what a current snapshot is
    and that the job keeps snapshots current.  [ProductCommand]: products
    (application/productcommand), suppliers (application/supplier) and the inventory
    of a new product (adapters/productmysql/inventory_seed.go).  [Showcase],
    [ShowcaseRules]: the homepage showcase and the ranking of its candidates
    (application/showcase, adapters/productmysql/showcase*.go,
    handler/showcase_recommendation.go).  [Catalog], [CatalogScenarios]: all of
    these services together on one database.  [ProductStock]:
    the stock mutations of the product service that a switch turns off
    (deductLogic.go, deductRollbackLogic.go, revertstocklogic.go, stock_bucket.go,
    svc/serviceContext.go).  [ProductStore] relates what a handler reads to what it
    writes.  The inventory service behind a new product and the sales of the last
    seven days, which come from the order schema, are arguments.

    ** Auth requests (app/auth/api/internal/logic, risk, audit)

    [AuthRisk]: the counters of attempts (risk/limiter.go) and the log of security
    events (audit/events.go), each in memory and in Redis, with the laws that both
    satisfy.  [AuthRequests]: every logic class, over any store, limiter and
    recorder, the administrator handlers and the defaults of the configuration;
    goroutines are jobs that run whenever it comes to that.  [AuthRequestRules]: any
    requests served one after another, and how often a password can be guessed.
    [AuthAccess]: from a request of the auth service to the access check of the
    entry service, through Redis.  [AuthRequestScenarios]: runs.  Decoding of HTTP
    requests, cookies and the address of the client behind trusted proxies are left
    out.

    ** The read cache of the gateway (app/gateway/hertz/internal/cache)

    [Cache]: the configuration, the local cache (l1.go), the entries of Redis and
    their lifetimes (coordinator.go), keys and the invalidations a change calls for
    (handler/cache_helpers.go); and at work: any number of instances with their
    requests, refreshes, single flights, invalidations and messages, cut at each call
    to Redis or the origin, with crashes and a clock.  [CacheSafety]: the shape of its
    states.  [CacheFlow]: where a value may flow, as laws on what each holder may
    hold, and that every step keeps to them.  [CacheGuarantees], [CacheProgress],
    [CacheScan]: what follows.  [CacheScenarios]: runs.  Values are texts; an origin
    answers anything or fails.

    ** Orders of the entry API (app/entry/api)

    [Programs]: a handler as a tree of the calls it makes, a system of processes
    that run such trees one call at a time, and a logic of roles: a rule on the calls
    a process may make and the answers it may count on.  [EntryOrders]: the requests
    on orders (createorderlogic.go, orderstatuspolllogic.go, payorderlogic.go,
    shiporderlogic.go, confirmreceiptlogic.go, refundorderlogic.go, the handlers of
    cancellations, administrators and merchants, orderhelpers.go), their tables
    (model/ordersmodel*.go) and the keys of Redis they use.  [CloseOrder]: the job
    that closes unpaid orders (job/closeorder.go), and the system of all of these
    beside the order service.  [CloseSafety]: an order only moves forward.
    [CloseQueue]: an order scheduled for closing is not forgotten while it is open.
    [CloseProgress]: the turns of the job.  [EntryRetries]: requests repeated with
    one request id.  [EntryScenarios]: a shop that keeps the laws, and runs.  What
    the calls of other services do is given by the laws [EntryLaws], [Answering] and
    [RequestLaws]; among them that the order service itself closes no order, and
    that a turn of the job ends before its back-off does.

    ** What the theorems show

    - Orders: any sequence of requests and recovery runs changes the database only
      by life-cycle steps (refinement); orders, payments, refunds and the status
      log agree in every reachable state; an order is paid and refunded at most
      once; each handler implements its specification or changes nothing.
    - Stock: both repositories and the saga branch conserve stock under all
      faults, the memory repository refines the ledger, nothing is oversold.
    - Outbox and projection: published means accepted by the broker, due events get
      published, turns end, one leader per lease, paid orders are counted once.
    - Sessions: refresh tokens work once, replays end their family, ended sessions
      stay ended, refreshing never stops for its owner, the two stores agree.
    - Filter: a published product is never called absent, within the stated bounds
      on batch size, lock time and lost replies; runs outside them show why.
    - Alipay: an order becomes paid by a notification only if Alipay signed a paid
      status for it and its amount; printed amounts parse back.
    - Promotions: at any instant at most one rule lowers a price, and lawfully.
    - Catalogue: prices, statuses, suppliers and the showcase stay consistent under
      all requests and faults; the refresh job keeps cards current; a listing holds
      the cards that are answered one by one; a publication of the showcase is all
      or nothing, and a draft made on an older version is refused.
    - Legacy stock: deductions, rollbacks and reverts keep buckets non-negative and
      products in step with them.
    - Access: a token that a login, a registration or a refresh answers passes the
      access check; after a global logout, a password reset or a disabling, the
      earlier ones are refused; guesses at a password are limited per account key.
    - Read cache: an answer is at most the configured lifetimes old; after an
      invalidation only newer values are answered; a scan deletes every key it is
      meant for; a request fails only when the origin does, and none is stuck; a
      local cache keeps within its size.
    - Entry orders: under any interleaving, faults and crashes, an order only moves
      forward, and a scheduled order stays on a queue while it is pending, or closed
      with its stock still out.  Without faults, as many turns of the close job as
      there are due orders close them all.  The successful answers to one request id,
      repeated one after another under any faults, name one order.

    ** Fuel and bounds

    Loops that the code bounds by data are structural.  The others take fuel: the
    rounds of a rebuild of the filter ([ExistenceRuns]: more rounds than
    products are enough), the turns of the publisher ([OutboxWork]: bounded by the
    work found), each with the theorem that the fuel is enough.  The close job is
    shown to need no more turns than there are due orders ([CloseProgress]).

    ** Not modelled, and why

    Metrics, logs, traces and context deadlines do not change state.  Cryptography
    (RSA, bcrypt, JWT signing), JSON, xxhash and the time layouts are parameters
    with their documented laws, since their code is not in the repository; the
    broker is given by the laws of the AMQP confirm mode, the DTM barrier by an
    argument that says whether a branch runs.  Not represented of MySQL: column
    widths and collation (except where stated), reuse of AUTO_INCREMENT values,
    isolation anomalies inside one transaction.  All services of a run share one
    clock.  The sizing of the filter in floating point is a configuration value.
    The Kitex and protobuf output is generated, the front end, launcher, benchmarks
    and deployment files are in other languages.  The HTTP handlers of the gateway
    and of the entry service decode requests, call the services above and encode
    answers; those not listed above are left out.
*)

From Stdlib Require Export ZArith Lia.
From stdpp Require Export base gmap strings list pretty.

#[export] Set Default Goal Selector "!".
Open Scope Z_scope.

Create HintDb mall.

(** * Results

    A Go function returning [(T, error)] is a value of [res E T]: [Ok] when the
    error is nil, [Err] with the error otherwise. *)

Inductive res (E A : Type) : Type :=
| Ok (a : A)
| Err (e : E).
Arguments Ok {E A} a.
Arguments Err {E A} e.

#[export] Instance res_eq_dec {E A} `{EqDecision E} `{EqDecision A} : EqDecision (res E A).
Proof. solve_decision. Defined.

Definition is_ok {E A} (r : res E A) : bool :=
  match r with Ok _ => true | Err _ => false end.

Declare Scope mall_scope.
Delimit Scope mall_scope with mall.
Open Scope mall_scope.

(** Early return on error: [if err != nil { return err }]. *)
Notation "'let?' x ':=' m 'in' k" :=
  (match m with Ok x => k | Err e => Err e end)
  (at level 10, x pattern, k at level 200, only parsing) : mall_scope.

(** Guard clauses: [if bad { return err }]. *)
Notation "'fail_if' b 'with' e ;; k" :=
  (if b then Err e else k)
  (at level 10, b at level 99, e at level 99, k at level 200, only parsing) : mall_scope.

(** * Machine integers

    Go's [int64] (and [int] on the 64-bit targets the project is built for)
    wraps around modulo [2^64]. *)

Definition int64_min : Z := - 2 ^ 63.
Definition int64_max : Z := 2 ^ 63 - 1.
Definition int64 (z : Z) : Z := (z + 2 ^ 63) mod 2 ^ 64 - 2 ^ 63.
Definition in_int64 (z : Z) : Prop := int64_min <= z <= int64_max.

Lemma int64_id z : in_int64 z -> int64 z = z.
Proof.
  unfold in_int64, int64_min, int64_max, int64. intros H.
  rewrite Z.mod_small; lia.
Qed.

Lemma int64_range z : in_int64 (int64 z).
Proof.
  unfold in_int64, int64_min, int64_max, int64.
  pose proof (Z.mod_pos_bound (z + 2 ^ 63) (2 ^ 64)). lia.
Qed.

(** A sum of two non-negative [int64] values that leaves the range becomes
    negative: the property the stock adjustment guard relies on. *)
Lemma int64_add_overflow a b :
  0 <= a <= int64_max -> 0 <= b <= int64_max -> int64_max < a + b -> int64 (a + b) < 0.
Proof.
  unfold int64_max, int64. intros Ha Hb Hab.
  replace (a + b + 2 ^ 63) with (a + b - 2 ^ 63 + 1 * 2 ^ 64) by lia.
  rewrite Z.mod_add by lia. rewrite Z.mod_small by lia. lia.
Qed.

Ltac unfold_int64 := unfold in_int64, int64_min, int64_max in *.

#[export] Hint Resolve int64_id int64_range : mall.

(** * Strings

    [strings.TrimSpace] and [strings.ToLower]/[strings.ToUpper], on ASCII text. *)

Definition is_space (c : Ascii.ascii) : bool :=
  match Ascii.nat_of_ascii c with
  | 9%nat | 10%nat | 11%nat | 12%nat | 13%nat | 32%nat => true
  | _ => false
  end.

Fixpoint trim_left (s : string) : string :=
  match s with
  | EmptyString => EmptyString
  | String c s' => if is_space c then trim_left s' else s
  end.

Fixpoint string_snoc (s : string) (c : Ascii.ascii) : string :=
  match s with
  | EmptyString => String c EmptyString
  | String d s' => String d (string_snoc s' c)
  end.

Fixpoint string_reverse (s : string) : string :=
  match s with
  | EmptyString => EmptyString
  | String c s' => string_snoc (string_reverse s') c
  end.

Definition trim_space (s : string) : string :=
  string_reverse (trim_left (string_reverse (trim_left s))).

Definition lower_ascii (c : Ascii.ascii) : Ascii.ascii :=
  let n := Ascii.nat_of_ascii c in
  if ((65 <=? n) && (n <=? 90))%nat then Ascii.ascii_of_nat (n + 32) else c.

Definition upper_ascii (c : Ascii.ascii) : Ascii.ascii :=
  let n := Ascii.nat_of_ascii c in
  if ((97 <=? n) && (n <=? 122))%nat then Ascii.ascii_of_nat (n - 32) else c.

Fixpoint string_map (f : Ascii.ascii -> Ascii.ascii) (s : string) : string :=
  match s with
  | EmptyString => EmptyString
  | String c s' => String (f c) (string_map f s')
  end.

Definition to_lower : string -> string := string_map lower_ascii.
Definition to_upper : string -> string := string_map upper_ascii.

(** [s[:n]] for a string of at least [n] bytes. *)
Definition truncate_at (n : nat) (s : string) : string :=
  if (n <? String.length s)%nat then String.substring 0 n s else s.

Definition str_eqb (a b : string) : bool := bool_decide (a = b).
Definition is_empty (s : string) : bool := str_eqb s "".

Lemma str_eqb_eq a b : str_eqb a b = true <-> a = b.
Proof. unfold str_eqb. by rewrite bool_decide_eq_true. Qed.

Lemma str_eqb_neq a b : str_eqb a b = false <-> a <> b.
Proof. unfold str_eqb. by rewrite bool_decide_eq_false. Qed.

Lemma str_eqb_refl a : str_eqb a a = true.
Proof. by apply str_eqb_eq. Qed.

(** Decimal formatting, Go's [%d]. *)
Definition itoa (z : Z) : string := pretty z.

Lemma itoa_inj a b : itoa a = itoa b -> a = b.
Proof. apply (inj pretty). Qed.

(** * Lists *)

Definition sumZ {A} (f : A -> Z) (l : list A) : Z := foldr (fun x acc => f x + acc) 0 l.

Lemma sumZ_app {A} (f : A -> Z) l1 l2 : sumZ f (l1 ++ l2) = sumZ f l1 + sumZ f l2.
Proof. induction l1 as [|x l1 IH]; simpl; lia. Qed.

Lemma sumZ_nonneg {A} (f : A -> Z) l : Forall (fun x => 0 <= f x) l -> 0 <= sumZ f l.
Proof. induction 1; simpl; lia. Qed.

Lemma sumZ_ext {A} (f g : A -> Z) l : Forall (fun x => f x = g x) l -> sumZ f l = sumZ g l.
Proof. induction 1; simpl; lia. Qed.

Lemma sumZ_perm {A} (f : A -> Z) l1 l2 : l1 ≡ₚ l2 -> sumZ f l1 = sumZ f l2.
Proof. induction 1; simpl; lia. Qed.

Lemma sumZ_insert (l : list Z) (i : nat) x y :
  l !! i = Some x -> sumZ id (<[i := y]> l) = sumZ id l - x + y.
Proof.
  revert i. induction l as [|z l IH]; intros [|i] H; simplify_eq/=.
  - lia.
  - rewrite (IH _ H). lia.
Qed.

(** * Sums over finite maps *)

Definition map_sumZ {K V} `{Countable K} (f : K -> V -> Z) (m : gmap K V) : Z :=
  map_fold (fun k v acc => f k v + acc) 0 m.

Section map_sum.
Context {K V : Type} `{Countable K}.
Implicit Types (m : gmap K V) (f : K -> V -> Z).

Lemma map_sumZ_empty f : map_sumZ f ∅ = 0.
Proof. unfold map_sumZ. by rewrite map_fold_empty. Qed.

Lemma map_sumZ_insert f m k v :
  m !! k = None -> map_sumZ f (<[k := v]> m) = f k v + map_sumZ f m.
Proof.
  intros Hk. unfold map_sumZ. rewrite map_fold_insert_L; [done| |done].
  intros. lia.
Qed.

Lemma map_sumZ_delete f m k v :
  m !! k = Some v -> map_sumZ f (delete k m) = map_sumZ f m - f k v.
Proof.
  intros Hk. rewrite <- (insert_delete_id m k v Hk) at 2.
  rewrite map_sumZ_insert by apply lookup_delete_eq. lia.
Qed.

Lemma map_sumZ_update f m k v w :
  m !! k = Some v -> map_sumZ f (<[k := w]> m) = map_sumZ f m - f k v + f k w.
Proof.
  intros Hk. rewrite <- insert_delete_eq.
  rewrite map_sumZ_insert by apply lookup_delete_eq.
  rewrite (map_sumZ_delete f m k v Hk). lia.
Qed.

Lemma map_sumZ_ext f g m :
  (forall k v, m !! k = Some v -> f k v = g k v) -> map_sumZ f m = map_sumZ g m.
Proof.
  induction m as [|k v m Hk IH] using map_ind; intros Hfg.
  - by rewrite !map_sumZ_empty.
  - rewrite !map_sumZ_insert by done. rewrite IH, Hfg; [done| |].
    + by rewrite lookup_insert_eq.
    + intros k' v' Hk'. apply Hfg. rewrite lookup_insert_ne; congruence.
Qed.

Lemma map_sumZ_nonneg f m :
  (forall k v, m !! k = Some v -> 0 <= f k v) -> 0 <= map_sumZ f m.
Proof.
  induction m as [|k v m Hk IH] using map_ind; intros Hf.
  - by rewrite map_sumZ_empty.
  - rewrite map_sumZ_insert by done.
    assert (0 <= f k v) by (apply Hf, lookup_insert_eq).
    assert (0 <= map_sumZ f m); [|lia].
    apply IH. intros k' v' Hk'. apply Hf. rewrite lookup_insert_ne; congruence.
Qed.
End map_sum.

(** * Automation *)

(** Case analysis on the tests of a guard-clause function. *)
Ltac split_test :=
  match goal with
  | |- context [if ?b then _ else _] => destruct b eqn:?
  | |- context [match ?x with _ => _ end] => destruct x eqn:?
  end.

Ltac split_test_in H :=
  match type of H with
  | context [if ?b then _ else _] => destruct b eqn:?
  | context [match ?x with _ => _ end] => destruct x eqn:?
  end.

(** Turn boolean comparisons in the context into propositions. *)
Ltac bools :=
  repeat match goal with
  | H : (_ && _) = true |- _ => apply andb_true_iff in H as [? ?]
  | H : (_ || _) = false |- _ => apply orb_false_iff in H as [? ?]
  | H : negb _ = true |- _ => apply negb_true_iff in H
  | H : negb _ = false |- _ => apply negb_false_iff in H
  | H : (_ <? _) = true |- _ => apply Z.ltb_lt in H
  | H : (_ <? _) = false |- _ => apply Z.ltb_ge in H
  | H : (_ <=? _) = true |- _ => apply Z.leb_le in H
  | H : (_ <=? _) = false |- _ => apply Z.leb_gt in H
  | H : (_ =? _) = true |- _ => apply Z.eqb_eq in H
  | H : (_ =? _) = false |- _ => apply Z.eqb_neq in H
  | H : str_eqb _ _ = true |- _ => apply str_eqb_eq in H
  | H : str_eqb _ _ = false |- _ => apply str_eqb_neq in H
  | H : is_empty _ = true |- _ => apply str_eqb_eq in H
  | H : is_empty _ = false |- _ => apply str_eqb_neq in H
  | H : bool_decide _ = true |- _ => apply bool_decide_eq_true in H
  | H : bool_decide _ = false |- _ => apply bool_decide_eq_false in H
  end.
