(* ===== verification/Effects.v ===== *)
(** Effects of the services: a state and error monad over an environment that
    holds the database, the other external systems, the clock and the schedule
    of faults of external calls; external calls and SQL transactions. *)

From S2P Require Import Prelude.

(** * Environment

    Every call to MySQL, Redis, the inventory service or a payment provider may
    fail.  A fault schedule decides, call by call, whether the call succeeds
    ([NoFault]), fails without effect ([FailBefore]), or takes effect while the
    caller sees an error, as when the reply is lost ([FailAfter]).  The empty
    schedule is the run without faults; theorems quantify over schedules. *)

Inductive fault := NoFault | FailBefore | FailAfter.

#[export] Instance fault_eq_dec : EqDecision fault.
Proof. solve_decision. Defined.

Record env (D X : Type) := mkEnv {
  db : D;              (* rolled back with a transaction *)
  ext : X;             (* never rolled back *)
  now : Z;             (* unix seconds *)
  faults : list fault
}.
Arguments mkEnv {D X} _ _ _ _.
Arguments db {D X} _.
Arguments ext {D X} _.
Arguments now {D X} _.
Arguments faults {D X} _.

Definition M (D X E A : Type) : Type := env D X -> env D X * res E A.

Section monad.
Context {D X E : Type}.

Definition ret {A} (a : A) : M D X E A := fun s => (s, Ok a).
Definition throw {A} (e : E) : M D X E A := fun s => (s, Err e).

Definition bind {A B} (m : M D X E A) (f : A -> M D X E B) : M D X E B := fun s =>
  let '(s', r) := m s in
  match r with Ok a => f a s' | Err e => (s', Err e) end.

(** Run a call and hand its result, error included, to the continuation. *)
Definition attempt {A} (m : M D X E A) : M D X E (res E A) := fun s =>
  let '(s', r) := m s in (s', Ok r).

(** [_ = f()]: the error is dropped. *)
Definition ignore {A} (m : M D X E A) : M D X E unit := fun s =>
  let '(s', _) := m s in (s', Ok tt).

Definition require (b : bool) (e : E) : M D X E unit := if b then ret tt else throw e.

(** Return a computed result. *)
Definition of_res {A} (r : res E A) : M D X E A := fun s => (s, r).

Definition get_now : M D X E Z := fun s => (s, Ok (now s)).

Definition pop_fault (s : env D X) : fault * env D X :=
  match faults s with
  | [] => (NoFault, s)
  | f :: fs => (f, mkEnv (db s) (ext s) (now s) fs)
  end.

Definition set_db (d : D) (s : env D X) : env D X := mkEnv d (ext s) (now s) (faults s).
Definition set_ext (x : X) (s : env D X) : env D X := mkEnv (db s) x (now s) (faults s).

(** One SQL statement (or one autocommitted statement outside a transaction):
    [op] gives the new database and the answer, [e] is the error returned when
    the call fails. *)
Definition sql {A} (op : D -> D * A) (e : E) : M D X E A := fun s =>
  match pop_fault s with
  | (NoFault, s') => let '(d, a) := op (db s') in (set_db d s', Ok a)
  | (FailBefore, s') => (s', Err e)
  | (FailAfter, s') => (set_db (op (db s')).1 s', Err e)
  end.

(** One call to an external system; its answer may itself be an error. *)
Definition call {A} (op : X -> X * res E A) (e : E) : M D X E A := fun s =>
  match pop_fault s with
  | (NoFault, s') => let '(x, r) := op (ext s') in (set_ext x s', r)
  | (FailBefore, s') => (s', Err e)
  | (FailAfter, s') => (set_ext (op (ext s')).1 s', Err e)
  end.

(** * Transactions

    [BeginTx], a body, and [Commit] or the deferred [Rollback].  The body says
    how the transaction ends and what is returned afterwards; a body that
    returns an error is rolled back.  Rolling back restores the database and
    nothing else. *)
Inductive txend (A : Type) :=
| Commit (e : E) (a : A)
| Rollback (a : A).
Arguments Commit {A} e a.
Arguments Rollback {A} a.

(** [e_begin] is returned when the transaction cannot start, the error of
    [Commit] when the commit fails. *)
Definition run_tx {A} (e_begin : E) (body : M D X E (txend A)) : M D X E A := fun s0 =>
  match pop_fault s0 with
  | (NoFault, s) =>
      let '(s', r) := body s in
      match r with
      | Ok (Commit e a) =>
          match pop_fault s' with
          | (NoFault, s'') => (s'', Ok a)
          | (FailBefore, s'') => (set_db (db s) s'', Err e)
          | (FailAfter, s'') => (s'', Err e)
          end
      | Ok (Rollback a) => (set_db (db s) s', Ok a)
      | Err e => (set_db (db s) s', Err e)
      end
  | (_, s) => (s, Err e_begin)
  end.
End monad.

Arguments txend E A : clear implicits.
Arguments Commit {E A} e a.
Arguments Rollback {E A} a.

Declare Scope eff_scope.
Delimit Scope eff_scope with eff.
Notation "x <- m ;; k" := (bind m (fun x => k))
  (at level 20, m at level 99, k at level 200, only parsing) : eff_scope.
Notation "' p <- m ;; k" := (bind m (fun x => match x with p => k end))
  (at level 20, p pattern, m at level 99, k at level 200, only parsing) : eff_scope.
Notation "m ;;; k" := (bind m (fun _ => k))
  (at level 100, k at level 200, right associativity, only parsing) : eff_scope.
Open Scope eff_scope.

(** A loop over a slice. *)
Fixpoint for_each {D X E A} (f : A -> M D X E unit) (l : list A) : M D X E unit :=
  match l with
  | [] => ret tt
  | x :: l' => f x ;;; for_each f l'
  end.

(** * Reasoning

    A state predicate on the database preserved by a computation whatever the
    faults: the shape of the invariant theorems. *)
Section preserve.
Context {D X E : Type}.
Implicit Types (P : D -> Prop).

Definition preserves {A} P (m : M D X E A) : Prop :=
  forall s, P (db s) -> P (db (m s).1).

Lemma preserves_ret {A} P (a : A) : preserves P (ret a).
Proof. by intros s. Qed.

Lemma preserves_throw {A} P (e : E) : preserves P (throw (A := A) e).
Proof. by intros s. Qed.

Lemma preserves_require P b (e : E) : preserves P (require b e).
Proof. by destruct b; intros s. Qed.

Lemma preserves_of_res {A} P (r : res E A) : preserves P (of_res r).
Proof. by intros s. Qed.

Lemma preserves_get_now P : preserves P get_now.
Proof. by intros s. Qed.

Lemma preserves_bind {A B} P (m : M D X E A) (f : A -> M D X E B) :
  preserves P m -> (forall a, preserves P (f a)) -> preserves P (bind m f).
Proof.
  intros Hm Hf s Hs. unfold bind. specialize (Hm s Hs).
  destruct (m s) as [s' [a|e]]; simpl in *; [by apply Hf|done].
Qed.

Lemma preserves_attempt {A} P (m : M D X E A) : preserves P m -> preserves P (attempt m).
Proof. intros Hm s Hs. unfold attempt. specialize (Hm s Hs). by destruct (m s). Qed.

Lemma preserves_ignore {A} P (m : M D X E A) : preserves P m -> preserves P (ignore m).
Proof. intros Hm s Hs. unfold ignore. specialize (Hm s Hs). by destruct (m s). Qed.

Lemma db_pop_fault (s : env D X) : db (pop_fault s).2 = db s.
Proof. unfold pop_fault. by destruct (faults s). Qed.

Lemma ext_pop_fault (s : env D X) : ext (pop_fault s).2 = ext s.
Proof. unfold pop_fault. by destruct (faults s). Qed.

Lemma preserves_sql {A} P (op : D -> D * A) (e : E) :
  (forall d, P d -> P (op d).1) -> preserves P (sql op e).
Proof.
  intros Hop s Hs. unfold sql. pose proof (db_pop_fault s) as Hdb.
  destruct (pop_fault s) as [[] s']; simpl in *; rewrite ?Hdb; auto.
  specialize (Hop _ Hs). by destruct (op (db s)).
Qed.

Lemma preserves_call {A} P (op : X -> X * res E A) (e : E) : preserves P (call op e).
Proof.
  intros s Hs. unfold call. pose proof (db_pop_fault s) as Hdb.
  destruct (pop_fault s) as [[] s']; simpl in *; rewrite ?Hdb; auto.
  destruct (op (ext s')); simpl. by rewrite Hdb.
Qed.

Lemma preserves_for_each {A} P (f : A -> M D X E unit) l :
  (forall x, x ∈ l -> preserves P (f x)) -> preserves P (for_each f l).
Proof.
  induction l as [|x l IH]; intros Hf; simpl; [apply preserves_ret|].
  apply preserves_bind; [apply Hf; by left|]. intros _. apply IH. intros y Hy. apply Hf. by right.
Qed.

(** A transaction preserves [P] when its body preserves it {e at commit}: the
    intermediate states of the body are not visible. *)
Lemma preserves_run_tx {A} P (eb : E) (body : M D X E (txend E A)) :
  (forall s e a, P (db s) -> (body s).2 = Ok (Commit e a) -> P (db (body s).1)) ->
  preserves P (run_tx eb body).
Proof.
  intros Hb s Hs. unfold run_tx. pose proof (db_pop_fault s) as Hdb.
  destruct (pop_fault s) as [[] s1]; simpl in *; [|by rewrite Hdb..].
  specialize (Hb s1). destruct (body s1) as [s2 [[ec a|a]|e]]; simpl in *; [|by rewrite Hdb..].
  pose proof (db_pop_fault s2) as Hdb2.
  rewrite Hdb in Hb. specialize (Hb ec a Hs eq_refl).
  destruct (pop_fault s2) as [[] s3]; simpl in *; rewrite ?Hdb2, ?Hdb; auto.
Qed.

(** A transaction whose body never leaves [P]. *)
Lemma preserves_run_tx_body {A} P (eb : E) (body : M D X E (txend E A)) :
  preserves P body -> preserves P (run_tx eb body).
Proof. intros Hb. apply preserves_run_tx. intros s e a Hs _. by apply Hb. Qed.

(** ** Invariants of the external systems *)

Definition keeps {A} (I : X -> Prop) (m : M D X E A) : Prop :=
  forall s, I (ext s) -> I (ext (m s).1).

Lemma keeps_ret {A} I (a : A) : keeps I (ret a).
Proof. by intros s. Qed.

Lemma keeps_throw {A} I (e : E) : keeps I (throw (A := A) e).
Proof. by intros s. Qed.

Lemma keeps_require I b (e : E) : keeps I (require b e).
Proof. by destruct b; intros s. Qed.

Lemma keeps_of_res {A} I (r : res E A) : keeps I (of_res r).
Proof. by intros s. Qed.

Lemma keeps_get_now I : keeps I get_now.
Proof. by intros s. Qed.

Lemma keeps_bind {A B} I (m : M D X E A) (f : A -> M D X E B) :
  keeps I m -> (forall a, keeps I (f a)) -> keeps I (bind m f).
Proof.
  intros Hm Hf s Hs. unfold bind. specialize (Hm s Hs).
  destruct (m s) as [s' [a|e]]; simpl in *; [by apply Hf|done].
Qed.

Lemma keeps_attempt {A} I (m : M D X E A) : keeps I m -> keeps I (attempt m).
Proof. intros Hm s Hs. unfold attempt. specialize (Hm s Hs). by destruct (m s). Qed.

Lemma keeps_ignore {A} I (m : M D X E A) : keeps I m -> keeps I (ignore m).
Proof. intros Hm s Hs. unfold ignore. specialize (Hm s Hs). by destruct (m s). Qed.

Lemma keeps_sql {A} I (op : D -> D * A) (e : E) : keeps I (sql op e).
Proof.
  intros s Hs. unfold sql. pose proof (ext_pop_fault s) as Hx.
  destruct (pop_fault s) as [[] s']; simpl in *; rewrite ?Hx; auto.
  destruct (op (db s')); simpl. by rewrite Hx.
Qed.

Lemma keeps_call {A} I (op : X -> X * res E A) (e : E) :
  (forall x, I x -> I (op x).1) -> keeps I (call op e).
Proof.
  intros Hop s Hs. unfold call. pose proof (ext_pop_fault s) as Hx.
  destruct (pop_fault s) as [[] s']; simpl in *; rewrite ?Hx; auto.
  specialize (Hop _ Hs). by destruct (op (ext s)).
Qed.

Lemma keeps_run_tx {A} I (eb : E) (body : M D X E (txend E A)) :
  keeps I body -> keeps I (run_tx eb body).
Proof.
  intros Hb s Hs. unfold run_tx. pose proof (ext_pop_fault s) as Hx.
  destruct (pop_fault s) as [[] s1]; simpl in *; [|by rewrite Hx..].
  specialize (Hb s1). rewrite Hx in Hb. specialize (Hb Hs).
  destruct (body s1) as [s2 [[ec a|a]|e]]; simpl in *; [|done..].
  pose proof (ext_pop_fault s2) as Hx2.
  destruct (pop_fault s2) as [[] s3]; simpl in *; by rewrite Hx2.
Qed.

Lemma keeps_for_each {A} I (f : A -> M D X E unit) l :
  (forall x, x ∈ l -> keeps I (f x)) -> keeps I (for_each f l).
Proof.
  induction l as [|x l IH]; intros Hf; simpl; [apply keeps_ret|].
  apply keeps_bind; [apply Hf; by left|]. intros _. apply IH. intros y Hy. apply Hf. by right.
Qed.

(** ** The run without faults *)
Definition no_faults (s : env D X) : Prop := faults s = [].

Lemma pop_no_faults (s : env D X) : no_faults s -> pop_fault s = (NoFault, s).
Proof. unfold no_faults, pop_fault. by intros ->. Qed.

Lemma sql_no_faults {A} (op : D -> D * A) (e : E) s :
  no_faults s -> sql op e s = (set_db (op (db s)).1 s, Ok (op (db s)).2).
Proof. intros H. unfold sql. rewrite pop_no_faults by done. by destruct (op (db s)). Qed.

Lemma call_no_faults {A} (op : X -> X * res E A) (e : E) s :
  no_faults s -> call op e s = (set_ext (op (ext s)).1 s, (op (ext s)).2).
Proof. intros H. unfold call. rewrite pop_no_faults by done. by destruct (op (ext s)). Qed.

Lemma no_faults_set_db d (s : env D X) : no_faults s -> no_faults (set_db d s).
Proof. done. Qed.

Lemma no_faults_set_ext x (s : env D X) : no_faults s -> no_faults (set_ext x s).
Proof. done. Qed.
End preserve.

(** * Triples

    From an assertion on the environment to an assertion on the environment for
    each result, and one for errors. *)
Section triples.
Context {D X E : Type}.
Implicit Types (P R : env D X -> Prop).

Definition triple {A} (P : env D X -> Prop) (m : M D X E A) (Q : A -> env D X -> Prop)
  (R : env D X -> Prop) : Prop :=
  forall s, P s -> match (m s).2 with Ok a => Q a (m s).1 | Err _ => R (m s).1 end.

(** An assertion that a computation never leaves. *)
Definition maintains {A} (P : env D X -> Prop) (m : M D X E A) : Prop :=
  triple P m (fun _ => P) P.

Lemma triple_bind {A B} P (m : M D X E A) (f : A -> M D X E B) Q1 Q R :
  triple P m Q1 R -> (forall a, triple (Q1 a) (f a) Q R) -> triple P (bind m f) Q R.
Proof.
  intros Hm Hf s Hs. unfold bind. specialize (Hm s Hs).
  destruct (m s) as [s' [a|e]]; simpl in *; [by apply Hf|done].
Qed.

Lemma triple_weaken {A} (P P' : env D X -> Prop) (m : M D X E A) Q Q' (R R' : env D X -> Prop) :
  (forall s, P s -> P' s) -> (forall a s, Q' a s -> Q a s) -> (forall s, R' s -> R s) ->
  triple P' m Q' R' -> triple P m Q R.
Proof.
  intros HP HQ HR Hm s Hs. specialize (Hm s (HP _ Hs)). destruct (m s).2; auto.
Qed.

Lemma triple_pre {A} (P P' : env D X -> Prop) (m : M D X E A) Q R :
  (forall s, P s -> P' s) -> triple P' m Q R -> triple P m Q R.
Proof. intros HP Hm s Hs. by apply Hm, HP. Qed.

Lemma triple_exists {A T} (P : T -> env D X -> Prop) (m : M D X E A) Q R :
  (forall x, triple (P x) m Q R) -> triple (fun s => exists x, P x s) m Q R.
Proof. intros Hm s [x Hs]. by apply (Hm x). Qed.

Lemma triple_ret {A} (P : env D X -> Prop) (a : A) (Q : A -> env D X -> Prop) R :
  (forall s, P s -> Q a s) -> triple P (ret a) Q R.
Proof. intros H s Hs. by apply H. Qed.

Lemma triple_throw {A} (P : env D X -> Prop) (e : E) (Q : A -> env D X -> Prop) (R : env D X -> Prop) :
  (forall s, P s -> R s) -> triple P (throw e) Q R.
Proof. intros H s Hs. by apply H. Qed.

Lemma triple_require (P : env D X -> Prop) b (e : E) :
  triple P (require b e) (fun _ s => b = true /\ P s) P.
Proof. intros s Hs. by destruct b. Qed.

Lemma triple_attempt {A} P (m : M D X E A) Q (R : env D X -> Prop) R' :
  triple P m Q R ->
  triple P (attempt m) (fun r s => match r with Ok a => Q a s | Err _ => R s end) R'.
Proof.
  intros Hm s Hs. unfold attempt. specialize (Hm s Hs). destruct (m s) as [s' r]. simpl in *. done.
Qed.

Lemma triple_get_now P (R : env D X -> Prop) :
  triple P get_now (fun t s => P s /\ t = now s) R.
Proof. intros s Hs. done. Qed.

Lemma maintains_ret {A} P (a : A) : maintains P (ret a).
Proof. by intros s. Qed.
Lemma maintains_throw {A} P (e : E) : maintains P (throw (A := A) e).
Proof. by intros s. Qed.
Lemma maintains_of_res {A} P (r : res E A) : maintains P (of_res r).
Proof. intros s Hs. by destruct r. Qed.
Lemma maintains_get_now P : maintains P get_now.
Proof. by intros s. Qed.
Lemma maintains_require P b (e : E) : maintains P (require b e).
Proof. intros s Hs. by destruct b. Qed.
Lemma maintains_bind {A B} P (m : M D X E A) (f : A -> M D X E B) :
  maintains P m -> (forall a, maintains P (f a)) -> maintains P (bind m f).
Proof. intros Hm Hf. by eapply triple_bind. Qed.
Lemma maintains_attempt {A} P (m : M D X E A) : maintains P m -> maintains P (attempt m).
Proof.
  intros Hm s Hs. specialize (Hm s Hs). unfold attempt. destruct (m s) as [s' []]; done.
Qed.
Lemma maintains_ignore {A} P (m : M D X E A) : maintains P m -> maintains P (ignore m).
Proof.
  intros Hm s Hs. specialize (Hm s Hs). unfold ignore. destruct (m s) as [s' []]; done.
Qed.
Lemma maintains_for_each {A} P (f : A -> M D X E unit) l :
  (forall x, x ∈ l -> maintains P (f x)) -> maintains P (for_each f l).
Proof.
  induction l as [|x l IH]; intros Hf; simpl; [apply maintains_ret|].
  apply maintains_bind; [apply Hf; by left|]. intros _. apply IH. intros y Hy. apply Hf. by right.
Qed.

(** Assertions on the database, the external state and the clock. *)
Definition on_state (P : D -> X -> Z -> Prop) : env D X -> Prop :=
  fun s => P (db s) (ext s) (now s).

Lemma triple_sql {A} (P : D -> X -> Z -> Prop) (op : D -> D * A) (e : E) (Q : A -> D -> X -> Z -> Prop) (R : D -> X -> Z -> Prop) :
  (forall d x t, P d x t -> Q (op d).2 (op d).1 x t /\ R (op d).1 x t /\ R d x t) ->
  triple (on_state P) (sql op e) (fun a => on_state (Q a)) (on_state R).
Proof.
  intros Hop [d x t fs] Hs. unfold on_state in *. simpl in *.
  destruct (Hop _ _ _ Hs) as (H1&H2&H3). unfold sql, pop_fault. simpl.
  destruct fs as [|[] fs]; simpl; try done; destruct (op d); done.
Qed.

Lemma maintains_sql {A} (P : D -> X -> Z -> Prop) (op : D -> D * A) (e : E) :
  (forall d x t, P d x t -> P (op d).1 x t) -> maintains (on_state P) (sql op e).
Proof. intros Hop. apply triple_sql. auto. Qed.

Lemma triple_call {A} (P : D -> X -> Z -> Prop) (op : X -> X * res E A) (e : E) (Q : A -> D -> X -> Z -> Prop) (R : D -> X -> Z -> Prop) :
  (forall d x t, P d x t ->
     match (op x).2 with Ok a => Q a d (op x).1 t | Err _ => True end /\
     R d (op x).1 t /\ R d x t) ->
  triple (on_state P) (call op e) (fun a => on_state (Q a)) (on_state R).
Proof.
  intros Hop [d x t fs] Hs. unfold on_state in *. simpl in *.
  destruct (Hop _ _ _ Hs) as (H1&H2&H3). unfold call, pop_fault. simpl.
  destruct fs as [|[] fs]; simpl; try done; destruct (op x) as [x' []]; done.
Qed.

(** A transaction whose statements keep an assertion that a rollback cannot
    break. *)
Lemma maintains_run_tx {A} (P : D -> X -> Z -> Prop) (eb : E) (body : M D X E (txend E A)) :
  (forall d x t d' x' t', P d x t -> P d' x' t' -> P d x' t') ->
  maintains (on_state P) body -> maintains (on_state P) (run_tx eb body).
Proof.
  intros Hroll Hb [d x t fs] Hs. unfold on_state in *. simpl in *. unfold run_tx.
  assert (forall fs', P (db (body (mkEnv d x t fs')).1) (ext (body (mkEnv d x t fs')).1)
                        (now (body (mkEnv d x t fs')).1)) as Hb'.
  { intros fs'. specialize (Hb (mkEnv d x t fs') Hs). by destruct (body _) as [s' []]. }
  unfold pop_fault at 1. simpl.
  destruct fs as [|[] fs]; simpl; try done.
  - specialize (Hb' []). destruct (body (mkEnv d x t [])) as [[d' x' t' fs'] [[ec a|a]|e]]; simpl in *;
      [|by eapply Hroll..].
    unfold pop_fault. simpl. destruct fs' as [|[] fs']; simpl; try done. by eapply Hroll.
  - specialize (Hb' fs). destruct (body (mkEnv d x t fs)) as [[d' x' t' fs'] [[ec a|a]|e]]; simpl in *;
      [|by eapply Hroll..].
    unfold pop_fault. simpl. destruct fs' as [|[] fs']; simpl; try done. by eapply Hroll.
Qed.

End triples.

(** * Faults inside a transaction

    A body whose statements all propagate their errors behaves, under any fault
    schedule, either as it does without faults or fails: [faithful].  For such a
    body a transaction is all or nothing. *)
Section faithful.
Context {D X E : Type}.

Definition clear (s : env D X) : env D X := mkEnv (db s) (ext s) (now s) [].

Definition faithful {A} (m : M D X E A) : Prop :=
  forall s, is_ok (m s).2 = false \/
            (clear (m s).1 = (m (clear s)).1 /\ (m s).2 = (m (clear s)).2).

Lemma faithful_ret {A} (a : A) : faithful (ret a).
Proof. intros s. by right. Qed.

Lemma faithful_throw {A} (e : E) : faithful (throw (A := A) e).
Proof. intros s. by left. Qed.

Lemma faithful_require b (e : E) : faithful (require b e).
Proof. destruct b; intros s; [by right|by left]. Qed.

Lemma faithful_of_res {A} (r : res E A) : faithful (of_res r).
Proof. intros s. by right. Qed.

Lemma faithful_get_now : faithful get_now.
Proof. intros s. by right. Qed.

Lemma faithful_bind {A B} (m : M D X E A) (f : A -> M D X E B) :
  faithful m -> (forall a, faithful (f a)) -> faithful (bind m f).
Proof.
  intros Hm Hf s. unfold bind. destruct (Hm s) as [Hl|[Hc Hr]].
  - destruct (m s) as [s' [a|e]]; simpl in *; [done|by left].
  - destruct (m s) as [s' r], (m (clear s)) as [s2 r2]; simpl in *. subst s2 r2.
    destruct r as [a|e]; [apply Hf|by left].
Qed.

Lemma faithful_sql {A} (op : D -> D * A) (e : E) : faithful (sql op e).
Proof.
  intros s. unfold sql, pop_fault. simpl. destruct (faults s) as [|[] fs]; simpl.
  - right. by destruct (op (db s)).
  - right. by destruct (op (db s)).
  - by left.
  - by left.
Qed.

Lemma faithful_call {A} (op : X -> X * res E A) (e : E) : faithful (call op e).
Proof.
  intros s. unfold call, pop_fault. simpl. destruct (faults s) as [|[] fs]; simpl.
  - right. by destruct (op (ext s)).
  - right. by destruct (op (ext s)).
  - by left.
  - by left.
Qed.

(** All or nothing: a transaction leaves the database as it was and fails, or
    leaves it as the run without faults does, then giving that run's result
    unless the reply of the commit is lost. *)
Lemma run_tx_atomic {A} (eb : E) (body : M D X E (txend E A)) s :
  faithful body ->
  (db (run_tx eb body s).1 = db s /\ is_ok (run_tx eb body s).2 = false) \/
  (db (run_tx eb body s).1 = db (run_tx eb body (clear s)).1 /\
   ((run_tx eb body s).2 = (run_tx eb body (clear s)).2 \/ is_ok (run_tx eb body s).2 = false)).
Proof.
  intros Hb. unfold run_tx. change (pop_fault (clear s)) with (NoFault, clear s).
  pose proof (db_pop_fault s) as Hdb. pose proof (ext_pop_fault s) as Hext.
  assert (clear (pop_fault s).2 = clear s) as Hcl.
  { unfold clear. rewrite Hdb, Hext. f_equal. unfold pop_fault. by destruct (faults s). }
  destruct (pop_fault s) as [[] s1]; simpl in *; [|by left..].
  destruct (Hb s1) as [Hl|[Hc Hr]].
  - left. destruct (body s1) as [s2 [[]|]]; simpl in *; done.
  - rewrite Hcl in Hc, Hr.
    destruct (body s1) as [s2 r], (body (clear s)) as [s3 r3]; simpl in *. subst s3 r3.
    destruct r as [[ec a|a]|e]; simpl; [|right; rewrite Hdb; auto..].
    unfold pop_fault. destruct (faults s2) as [|[] fs]; simpl; rewrite ?Hdb; auto.
Qed.

Lemma run_tx_faults {A} (eb : E) (body : M D X E (txend E A)) (P : D -> Prop) :
  faithful body ->
  (forall s, no_faults s -> P (db s) -> P (db (run_tx eb body s).1)) ->
  preserves P (run_tx eb body).
Proof.
  intros Hb HP s Hs. destruct (run_tx_atomic eb body s Hb) as [[-> _]|[-> _]]; [done|].
  by apply HP.
Qed.

(** A body that leaves the external systems alone, whose run without faults is
    known. *)
Lemma run_tx_spec {A} (eb : E) (body : M D X E (txend E A)) s d' r' :
  faithful body ->
  (forall x, run_tx eb body (mkEnv (db s) x (now s) []) = (mkEnv d' x (now s) [], r')) ->
  let '(s', r) := run_tx eb body s in
  ((db s' = db s /\ is_ok r = false) \/ (db s' = d' /\ (r = r' \/ is_ok r = false))) /\
  (no_faults s -> s' = set_db d' s /\ r = r').
Proof.
  intros Hb Hrun. pose proof (run_tx_atomic eb body s Hb) as Ha.
  unfold clear in Ha. rewrite (Hrun (ext s)) in Ha.
  destruct (run_tx eb body s) as [s' r] eqn:Hr. split; [done|].
  intros Hnf. destruct s as [d x t fs]. unfold no_faults in Hnf. simpl in *. subst fs.
  rewrite Hrun in Hr. by simplify_eq.
Qed.
End faithful.

Create HintDb faithful.
#[export] Hint Resolve faithful_ret faithful_throw faithful_require faithful_of_res
  faithful_get_now faithful_bind faithful_sql faithful_call : faithful.

(** Every path of a program made of propagating statements. *)
Ltac faithful_step :=
  match goal with
  | |- faithful (bind _ _) => apply faithful_bind; [|intros ?]
  | |- faithful (match ?x with _ => _ end) => destruct x
  | |- faithful _ => first [solve [eauto with faithful] | progress autounfold with faithful]
  end.
Ltac faithful := repeat faithful_step.

Create HintDb preserves.
#[export] Hint Resolve preserves_ret preserves_throw preserves_require preserves_of_res
  preserves_get_now preserves_bind preserves_attempt preserves_ignore preserves_call
  preserves_sql preserves_run_tx_body : preserves.
#[export] Hint Resolve no_faults_set_db no_faults_set_ext : mall.

(** Walk through a monadic program, leaving the SQL statements. *)
Ltac preserve_step :=
  match goal with
  | |- preserves _ (bind _ _) => apply preserves_bind; [|intros ?]
  | |- preserves _ (ret _) => apply preserves_ret
  | |- preserves _ (throw _) => apply preserves_throw
  | |- preserves _ (require _ _) => apply preserves_require
  | |- preserves _ (of_res _) => apply preserves_of_res
  | |- preserves _ get_now => apply preserves_get_now
  | |- preserves _ (attempt _) => apply preserves_attempt
  | |- preserves _ (ignore _) => apply preserves_ignore
  | |- preserves _ (call _ _) => apply preserves_call
  | |- preserves _ (match ?x with _ => _ end) => destruct x eqn:?
  | |- preserves _ (let '_ := ?x in _) => destruct x eqn:?
  end.
Ltac preserve := repeat preserve_step.

Ltac keep_step :=
  match goal with
  | |- keeps _ (bind _ _) => apply keeps_bind; [|intros ?]
  | |- keeps _ (ret _) => apply keeps_ret
  | |- keeps _ (throw _) => apply keeps_throw
  | |- keeps _ (require _ _) => apply keeps_require
  | |- keeps _ (of_res _) => apply keeps_of_res
  | |- keeps _ get_now => apply keeps_get_now
  | |- keeps _ (attempt _) => apply keeps_attempt
  | |- keeps _ (ignore _) => apply keeps_ignore
  | |- keeps _ (sql _ _) => apply keeps_sql
  | |- keeps _ (run_tx _ _) => apply keeps_run_tx
  | |- keeps _ (for_each _ _) => apply keeps_for_each; intros ? _
  | |- keeps _ (match ?x with _ => _ end) => destruct x eqn:?
  | |- keeps _ (let '_ := ?x in _) => destruct x eqn:?
  end.
Ltac keep := repeat keep_step.

Ltac maintain_step :=
  match goal with
  | |- maintains _ (bind _ _) => apply maintains_bind; [|intros ?]
  | |- maintains _ (ret _) => apply maintains_ret
  | |- maintains _ (throw _) => apply maintains_throw
  | |- maintains _ (require _ _) => apply maintains_require
  | |- maintains _ (of_res _) => apply maintains_of_res
  | |- maintains _ get_now => apply maintains_get_now
  | |- maintains _ (attempt _) => apply maintains_attempt
  | |- maintains _ (ignore _) => apply maintains_ignore
  | |- maintains _ (match ?x with _ => _ end) => destruct x eqn:?
  | |- maintains _ (let '_ := ?x in _) => destruct x eqn:?
  end.
Ltac maintain := repeat maintain_step.
