(* ===== verification/Common.v ===== *)
(** The shared vocabulary of the services: order, payment and refund status
  codes (app/common/orderstatus, paymentstatus, refundstatus) and business
  error codes (app/common/apperror). *)

From S2P Require Import Prelude.

Module orderstatus.
Definition PendingPayment : Z := 0.
Definition Paid : Z := 1.
Definition Closed : Z := 2.
Definition Shipped : Z := 3.
Definition Completed : Z := 4.
Definition RefundRequested : Z := 5.
Definition Refunded : Z := 6.

Definition Text (statusCode : Z) : string :=
  if statusCode =? PendingPayment then "pending_payment"
  else if statusCode =? Paid then "paid"
  else if statusCode =? Closed then "closed"
  else if statusCode =? Shipped then "shipped"
  else if statusCode =? Completed then "completed"
  else if statusCode =? RefundRequested then "refund_requested"
  else if statusCode =? Refunded then "refunded"
  else "unknown".

Definition CanPay (statusCode : Z) : bool := statusCode =? PendingPayment.
Definition CanShip (statusCode : Z) : bool := statusCode =? Paid.
Definition CanConfirmReceipt (statusCode : Z) : bool := statusCode =? Shipped.
Definition CanRequestRefund (statusCode : Z) : bool :=
  (statusCode =? Paid) || (statusCode =? Shipped).
Definition CanAuditRefund (statusCode : Z) : bool := statusCode =? RefundRequested.

(** The status codes of the [orders.status] column. *)
Definition valid (s : Z) : Prop := 0 <= s <= 6.

(** The moves of an order between statuses: the life cycle the handlers of the
    order service are meant to implement. *)
Inductive move : Z -> Z -> Prop :=
| move_pay : move PendingPayment Paid
| move_close : move PendingPayment Closed
| move_ship : move Paid Shipped
| move_receive : move Shipped Completed
| move_request_paid : move Paid RefundRequested
| move_request_shipped : move Shipped RefundRequested
| move_refund : move RefundRequested Refunded
| move_reject_paid : move RefundRequested Paid
| move_reject_shipped : move RefundRequested Shipped.

Lemma move_valid a b : move a b -> valid a /\ valid b.
Proof.
  unfold valid. destruct 1; unfold PendingPayment, Paid, Closed, Shipped, Completed,
    RefundRequested, Refunded; lia.
Qed.

Lemma move_not_from_final a b : move a b -> a <> Closed /\ a <> Completed /\ a <> Refunded.
Proof. destruct 1; done. Qed.
End orderstatus.

#[export] Hint Constructors orderstatus.move : mall.

Module paymentstatus.
Definition Init : Z := 0.
Definition Success : Z := 1.
Definition Failed : Z := 2.
Definition Closed : Z := 3.

Definition Text (statusCode : Z) : string :=
  if statusCode =? Init then "INIT"
  else if statusCode =? Success then "SUCCESS"
  else if statusCode =? Failed then "FAILED"
  else if statusCode =? Closed then "CLOSED"
  else "UNKNOWN".
End paymentstatus.

Module refundstatus.
Definition Requested : Z := 0.
Definition Approved : Z := 1.
Definition Success : Z := 2.
Definition Rejected : Z := 3.
Definition Failed : Z := 4.

Definition Text (statusCode : Z) : string :=
  if statusCode =? Requested then "requested"
  else if statusCode =? Approved then "approved"
  else if statusCode =? Success then "success"
  else if statusCode =? Rejected then "rejected"
  else if statusCode =? Failed then "failed"
  else "unknown".
End refundstatus.

(** * Business errors *)
Module apperror.
Inductive Code :=
| CodeOK | CodeInvalidArgument | CodeUnauthorized | CodeForbidden | CodeNotFound
| CodeConflict | CodeTooManyRequests | CodeInternal
| CodeProductNotFound | CodeProductOffShelf
| CodeStockNotFound | CodeStockInsufficient | CodeStockReserveFailed | CodeStockReconcileFailed
| CodeOrderNotFound | CodeOrderStatusInvalid | CodeOrderCreateFailed | CodeOrderAlreadyPaid
| CodePaymentStatusInvalid | CodePaymentFailed
| CodeRefundNotAllowed | CodeRefundNotFound | CodeRefundStatusInvalid
| CodeMerchantNotFound | CodeMerchantNotBound | CodeMerchantApplyPending
| CodeMerchantApplyRejected.

#[export] Instance Code_eq_dec : EqDecision Code.
Proof. solve_decision. Defined.

(** [Error]: the code and message of the outermost business error; the wrapped
    cause is kept as its text. *)
Record Error := mkError { err_code : Code; err_message : string; err_cause : option string }.

#[export] Instance Error_eq_dec : EqDecision Error.
Proof. solve_decision. Defined.

Definition DefaultMessage (code : Code) : string :=
  match code with
  | CodeOK => "success"
  | CodeInvalidArgument => "invalid argument"
  | CodeUnauthorized => "unauthorized"
  | CodeForbidden => "forbidden"
  | CodeNotFound => "not found"
  | CodeConflict => "conflict"
  | CodeTooManyRequests => "too many requests"
  | CodeInternal => "internal error"
  | CodeProductNotFound => "product not found"
  | CodeProductOffShelf => "product is off shelf"
  | CodeStockNotFound => "stock not found"
  | CodeStockInsufficient => "stock insufficient"
  | CodeStockReserveFailed => "stock reserve failed"
  | CodeStockReconcileFailed => "stock reconcile failed"
  | CodeOrderNotFound => "order not found"
  | CodeOrderStatusInvalid => "order status invalid"
  | CodeOrderCreateFailed => "order create failed"
  | CodeOrderAlreadyPaid => "order already paid"
  | CodePaymentStatusInvalid => "payment status invalid"
  | CodePaymentFailed => "payment failed"
  | CodeRefundNotAllowed => "refund not allowed"
  | CodeRefundNotFound => "refund not found"
  | CodeRefundStatusInvalid => "refund status invalid"
  | CodeMerchantNotFound => "merchant not found"
  | CodeMerchantNotBound => "merchant not bound"
  | CodeMerchantApplyPending => "merchant application pending"
  | CodeMerchantApplyRejected => "merchant application rejected"
  end.

Definition New (code : Code) (message : string) : Error :=
  mkError code (if is_empty message then DefaultMessage code else message) None.

Definition Wrap (code : Code) (message : string) (cause : string) : Error :=
  mkError code (if is_empty message then DefaultMessage code else message) (Some cause).
End apperror.

(** * Inventory domain (app/inventory/domain) *)
Module domain.
Import apperror.

Definition ErrProductIDRequired := New CodeInvalidArgument "product_id is required".
Definition ErrOrderIDRequired := New CodeInvalidArgument "order_id is required".
Definition ErrQuantityInvalid := New CodeInvalidArgument "quantity must be positive".
Definition ErrStockNotFound := New CodeStockNotFound "stock not found".
Definition ErrStockInsufficient := New CodeStockInsufficient "stock insufficient".
Definition ErrReservationConflict :=
  New CodeConflict "order already has a different stock reservation".

Record StockChangeMeta := mkMeta {
  meta_OrderID : string; meta_Reason : string; meta_RequestID : string; meta_TraceID : string;
  meta_UserID : Z; meta_MerchantID : Z; meta_Role : string
}.

Inductive ReservationStatus :=
| ReservationReserved | ReservationConfirmed | ReservationReleased.

#[export] Instance ReservationStatus_eq_dec : EqDecision ReservationStatus.
Proof. solve_decision. Defined.

Definition status_eqb (a b : ReservationStatus) : bool := bool_decide (a = b).

Record Reservation := mkReservation {
  OrderID : string; ProductID : Z; Quantity : Z; Status : ReservationStatus
}.

Record ReservationStats := mkStats {
  Active : Z; Expired : Z; Processing : Z; DeadLetter : Z
}.

Record Stock := mkStock {
  Stock_ProductID : Z; Available : Z; Reserved : Z; Total : Z
}.

(** Go's zero value, returned with errors and read from absent map keys. *)
Definition zeroStock : Stock := mkStock 0 0 0 0.

Record RuntimeRecoveryReport := mkReport {
  Products : Z; ReservedReservations : Z; ConfirmedReservations : Z
}.

Definition NewStock (productID total : Z) : Stock :=
  let total := if total <? 0 then 0 else total in
  mkStock productID total 0 total.

Definition CanReserve (s : Stock) (quantity : Z) : bool :=
  (0 <? quantity) && (quantity <=? Available s).

#[export] Instance Stock_eq_dec : EqDecision Stock.
Proof. solve_decision. Defined.
#[export] Instance Reservation_eq_dec : EqDecision Reservation.
Proof. solve_decision. Defined.
End domain.
