(* ===== verification/Shards.v ===== *)
(** Stock sharding (app/inventory/repository/shard.go and its copy
    app/order/rpc/internal/logic/stock_shard.go): shard counts, the split of a
    total across shards, the start shard of an order (CRC-32), Redis key names. *)

From S2P Require Import Prelude.

Definition NormalizeShardCount (configured : Z) : Z :=
  if configured <=? 0 then 1 else configured.

(** [stockShardCount] of the order service. *)
Definition stockShardCount (configured : Z) : Z :=
  if configured <=? 0 then 1 else configured.

(** [fmt.Sprintf("stock:%d:%d", productID, i)]. *)
Definition stock_key (productID i : Z) : string :=
  "stock:" +:+ itoa productID +:+ ":" +:+ itoa i.

Definition StockShardKeys (productID shardCount : Z) : list string :=
  let shardCount := NormalizeShardCount shardCount in
  (fun i => stock_key productID (Z.of_nat i)) <$> seq 0 (Z.to_nat shardCount).

Definition SplitStockAcrossShards (total shardCount : Z) : list Z :=
  let shardCount := NormalizeShardCount shardCount in
  let total := if total <? 0 then 0 else total in
  let per := Z.quot total shardCount in
  let remain := Z.rem total shardCount in
  (fun i => if (i =? 0)%nat then per + remain else per) <$> seq 0 (Z.to_nat shardCount).

(** [splitStockAcrossShards] of the order service, which clamps the shard count
    but not the total. *)
Definition splitStockAcrossShards (total shardCount : Z) : list Z :=
  let shardCount := if shardCount <=? 0 then 1 else shardCount in
  let per := Z.quot total shardCount in
  let remain := Z.rem total shardCount in
  (fun i => if (i =? 0)%nat then per + remain else per) <$> seq 0 (Z.to_nat shardCount).

(** * [hash/crc32.ChecksumIEEE]

    The reflected CRC-32 with polynomial [0xEDB88320], bit by bit. *)
Fixpoint crc32_bits (n : nat) (crc : Z) : Z :=
  match n with
  | O => crc
  | S n' =>
      let shifted := Z.shiftr crc 1 in
      crc32_bits n' (if Z.testbit crc 0 then Z.lxor shifted 0xEDB88320 else shifted)
  end.

Fixpoint crc32_update (crc : Z) (s : string) : Z :=
  match s with
  | EmptyString => crc
  | String c s' =>
      crc32_update (crc32_bits 8 (Z.lxor crc (Z.of_nat (Ascii.nat_of_ascii c)))) s'
  end.

Definition ChecksumIEEE (s : string) : Z := Z.lxor (crc32_update 0xFFFFFFFF s) 0xFFFFFFFF.

Definition StockShardStartIndex (orderID : string) (shardCount : Z) : Z :=
  let shardCount := NormalizeShardCount shardCount in
  if shardCount <=? 1 then 0 else ChecksumIEEE orderID mod (shardCount mod 2 ^ 32).

(** [stockShardStartIndex] of the order service. *)
Definition stockShardStartIndex (orderID : string) (shardCount : Z) : Z :=
  if shardCount <=? 1 then 0 else ChecksumIEEE orderID mod (shardCount mod 2 ^ 32).

(** The published check value of CRC-32/ISO-HDLC. *)
Example crc32_check : ChecksumIEEE "123456789" = 0xCBF43926.
Proof. reflexivity. Qed.

Lemma NormalizeShardCount_pos c : 1 <= NormalizeShardCount c.
Proof. unfold NormalizeShardCount. destruct (c <=? 0) eqn:?; bools; lia. Qed.

Lemma NormalizeShardCount_id c : 1 <= c -> NormalizeShardCount c = c.
Proof. unfold NormalizeShardCount. intros. destruct (c <=? 0) eqn:?; bools; lia. Qed.

#[export] Hint Resolve NormalizeShardCount_pos : mall.

Lemma length_StockShardKeys p c :
  Z.of_nat (length (StockShardKeys p c)) = NormalizeShardCount c.
Proof.
  unfold StockShardKeys. rewrite length_fmap, length_seq.
  pose proof (NormalizeShardCount_pos c). lia.
Qed.

Lemma length_SplitStockAcrossShards t c :
  Z.of_nat (length (SplitStockAcrossShards t c)) = NormalizeShardCount c.
Proof.
  unfold SplitStockAcrossShards. rewrite length_fmap, length_seq.
  pose proof (NormalizeShardCount_pos c). lia.
Qed.

(** A split is a head of [per + remain] and [n] copies of [per]. *)
Lemma split_shape (per remain : Z) (n : nat) :
  ((fun i => if (i =? 0)%nat then per + remain else per) <$> seq 0 (S n)) =
  (per + remain) :: replicate n per.
Proof.
  assert (forall k, ((fun i => if (i =? 0)%nat then per + remain else per) <$> seq (S k) n)
                    = replicate n per) as Hk; [|simpl; f_equal; apply (Hk 0%nat)].
  induction n as [|n IH]; intros k; [done|].
  change (seq (S k) (S n)) with (S k :: seq (S (S k)) n). rewrite fmap_cons, IH. done.
Qed.

Lemma sumZ_replicate (n : nat) (x : Z) : sumZ id (replicate n x) = Z.of_nat n * x.
Proof.
  induction n as [|n IH]; [done|].
  cbn [replicate]. unfold sumZ in *. cbn [foldr]. rewrite IH. unfold id. lia.
Qed.

(** Both copies of the split agree on non-negative totals. *)
Lemma split_agree t c : 0 <= t -> splitStockAcrossShards t c = SplitStockAcrossShards t c.
Proof.
  intros Ht. unfold splitStockAcrossShards, SplitStockAcrossShards.
  fold (NormalizeShardCount c). destruct (t <? 0) eqn:?; bools; [lia|done].
Qed.

(** ** The properties *)

(** Splitting a total across shards conserves it: the values add up to the
    total (clamped at zero), there is one per shard and none is negative,
    whatever the configured shard count. *)
Theorem split_conserves total shardCount :
  sumZ id (SplitStockAcrossShards total shardCount) = Z.max 0 total /\
  Z.of_nat (length (SplitStockAcrossShards total shardCount)) = NormalizeShardCount shardCount /\
  Forall (fun v => 0 <= v) (SplitStockAcrossShards total shardCount).
Proof.
  split; [|split; [apply length_SplitStockAcrossShards|]];
    unfold SplitStockAcrossShards; pose proof (NormalizeShardCount_pos shardCount) as Hc;
    set (c := NormalizeShardCount shardCount) in *;
    set (t := if total <? 0 then 0 else total);
    assert (t = Z.max 0 total) as Ht by (unfold t; destruct (total <? 0) eqn:?; bools; lia);
    destruct (Z.to_nat c) as [|n] eqn:Hn; try lia; rewrite split_shape;
    pose proof (Z.quot_rem' t c); pose proof (Z.rem_bound_pos t c);
    pose proof (Z.quot_pos t c).
  - simpl. change (foldr _ 0 ?l) with (sumZ id l). rewrite sumZ_replicate. unfold id. nia.
  - constructor; [lia|]. apply Forall_replicate. lia.
Qed.

Lemma lxor_range n a b :
  0 <= n -> 0 <= a < 2 ^ n -> 0 <= b < 2 ^ n -> 0 <= Z.lxor a b < 2 ^ n.
Proof.
  intros Hn Ha Hb.
  assert (0 <= Z.lxor a b) as Hpos by (apply Z.lxor_nonneg; lia).
  split; [done|].
  destruct (Z.eq_dec (Z.lxor a b) 0) as [->|Hne]; [lia|].
  destruct (Z.eq_dec a 0) as [->|Ha0]; [rewrite Z.lxor_0_l in *; lia|].
  destruct (Z.eq_dec b 0) as [->|Hb0]; [rewrite Z.lxor_0_r in *; lia|].
  apply Z.log2_lt_pow2; [lia|].
  eapply Z.le_lt_trans; [apply Z.log2_lxor; lia|].
  apply Z.max_lub_lt; apply Z.log2_lt_pow2; lia.
Qed.

Lemma crc32_bits_range n crc : 0 <= crc < 2 ^ 32 -> 0 <= crc32_bits n crc < 2 ^ 32.
Proof.
  revert crc. induction n as [|n IH]; intros crc H; [done|]. cbn [crc32_bits]. apply IH.
  assert (0 <= Z.shiftr crc 1 < 2 ^ 32) as Hs.
  { rewrite Z.shiftr_div_pow2 by lia. split; [apply Z.div_pos; lia|].
    apply Z.div_lt_upper_bound; lia. }
  destruct (Z.testbit crc 0); [|done]. by apply lxor_range.
Qed.

Lemma byte_range c : 0 <= Z.of_nat (Ascii.nat_of_ascii c) < 256.
Proof. pose proof (Ascii.nat_ascii_bounded c). lia. Qed.

Lemma crc32_update_range s crc : 0 <= crc < 2 ^ 32 -> 0 <= crc32_update crc s < 2 ^ 32.
Proof.
  revert crc. induction s as [|c s IH]; intros crc H; cbn [crc32_update]; [done|].
  apply IH, crc32_bits_range, lxor_range; [done|done|].
  pose proof (byte_range c). lia.
Qed.

Lemma ChecksumIEEE_range s : 0 <= ChecksumIEEE s < 2 ^ 32.
Proof. apply lxor_range; [done| |done]. by apply crc32_update_range. Qed.

(** The start shard of an order is a shard: it lies in
    [[0, NormalizeShardCount n)] for every order id and every configured count
    that fits 32 bits. *)
Theorem StockShardStartIndex_range orderID shardCount :
  shardCount < 2 ^ 32 ->
  0 <= StockShardStartIndex orderID shardCount < NormalizeShardCount shardCount.
Proof.
  intros Hc. unfold StockShardStartIndex. pose proof (NormalizeShardCount_pos shardCount).
  destruct (NormalizeShardCount shardCount <=? 1) eqn:H1; bools; [lia|].
  assert (NormalizeShardCount shardCount < 2 ^ 32).
  { unfold NormalizeShardCount in *. destruct (shardCount <=? 0) eqn:?; bools; lia. }
  rewrite (Z.mod_small (NormalizeShardCount _)) by lia. apply Z.mod_pos_bound. lia.
Qed.

Example StockShardStartIndex_range_witness :
  4 < 2 ^ 32 /\ 0 <= StockShardStartIndex "order-1" 4 < NormalizeShardCount 4.
Proof. split; [done | apply (StockShardStartIndex_range "order-1" 4); done]. Defined.
