(* ===== verification/StockRepository.v ===== *)
(** The interface between the inventory service and its storage
    (app/inventory/repository/repository.go), and the validating service in front
    of it (app/inventory/service/service.go), proved against the interface. *)

From S2P Require Import Prelude Common Shards.
Import apperror domain.

(** An implementation over the state [S]: every method is a state transformer. *)
Class StockRepository (S : Type) := {
  repo_CheckRuntime : S -> S * res Error unit;
  repo_RecoverRuntime : S -> S * res Error RuntimeRecoveryReport;
  repo_GetStock : Z -> S -> S * res Error Stock;
  repo_BatchGetStock : list Z -> S -> S * res Error (list Stock);
  repo_SeedStock : Z -> Z -> Z -> S -> S * res Error unit;
  repo_AdjustStock : Z -> Z -> Z -> StockChangeMeta -> S -> S * res Error (Stock * Stock);
  repo_ReserveStock : string -> Z -> Z -> StockChangeMeta -> S -> S * res Error unit;
  repo_ConfirmDeduct : string -> StockChangeMeta -> S -> S * res Error unit;
  repo_ReleaseStock : string -> StockChangeMeta -> S -> S * res Error unit;
  repo_ReleaseExpiredReservations : Z -> StockChangeMeta -> S -> S * res Error Z;
  repo_ReservationStats : S -> S * res Error ReservationStats;
  repo_ReconcileStock : Z -> StockChangeMeta -> S -> S * res Error (Stock * Stock * bool)
}.

(** What a repository promises: an invariant that the order-driven operations
    keep when their arguments satisfy the service's checks. *)
Class StockRepositoryLaws (S : Type) `{StockRepository S} (inv : S -> Prop) := {
  law_reserve orderID productID quantity meta s :
    orderID <> "" -> 0 < productID -> 0 < quantity <= int64_max ->
    inv s -> inv (repo_ReserveStock orderID productID quantity meta s).1;
  law_confirm orderID meta s :
    orderID <> "" -> inv s -> inv (repo_ConfirmDeduct orderID meta s).1;
  law_release orderID meta s :
    orderID <> "" -> inv s -> inv (repo_ReleaseStock orderID meta s).1;
  law_read productID s : inv s -> inv (repo_GetStock productID s).1
}.

Module service.

Record RuntimeState := mkRuntimeState {
  FinalDeductEnabled : bool; RedisConfigured : bool; MySQLConfigured : bool;
  ShardCount : Z; ReservationLedgerMode : string
}.

(** [Service], without the repository it holds: the repository is the instance
    and the state [S] is passed through. *)
Record Service := mkService { defaultShardCount : Z; runtimeState : RuntimeState }.

Definition New (shardCount : Z) : Service :=
  let shardCount := NormalizeShardCount shardCount in
  mkService shardCount (mkRuntimeState false false false shardCount "off").

Definition GetRuntimeState (s : Service) : RuntimeState := runtimeState s.

Definition WithRuntimeState (s : Service) (state : RuntimeState) : Service :=
  let sc := if ShardCount state <=? 0 then defaultShardCount s else ShardCount state in
  let mode := if is_empty (ReservationLedgerMode state) then "off"
              else ReservationLedgerMode state in
  mkService (defaultShardCount s)
    (mkRuntimeState (FinalDeductEnabled state) (RedisConfigured state) (MySQLConfigured state)
       sc mode).

Definition with_OrderID (orderID : string) (m : StockChangeMeta) : StockChangeMeta :=
  mkMeta orderID (meta_Reason m) (meta_RequestID m) (meta_TraceID m) (meta_UserID m)
    (meta_MerchantID m) (meta_Role m).

Definition with_Reason (reason : string) (m : StockChangeMeta) : StockChangeMeta :=
  mkMeta (meta_OrderID m) reason (meta_RequestID m) (meta_TraceID m) (meta_UserID m)
    (meta_MerchantID m) (meta_Role m).

Section operations.
Context {S : Type} `{StockRepository S}.
Implicit Types (svc : Service) (st : S).

Definition CheckRuntime svc st : S * res Error unit := repo_CheckRuntime st.
Definition RecoverRuntime svc st : S * res Error RuntimeRecoveryReport := repo_RecoverRuntime st.

Definition GetStock svc (productID : Z) st : S * res Error Stock :=
  if productID <=? 0 then (st, Err ErrProductIDRequired)
  else repo_GetStock productID st.

Definition BatchGetStock svc (productIDs : list Z) st : S * res Error (list Stock) :=
  match productIDs with
  | [] => (st, Ok [])
  | _ => if existsb (fun p => p <=? 0) productIDs then (st, Err ErrProductIDRequired)
         else repo_BatchGetStock productIDs st
  end.

Definition SeedStock svc (productID total shardCount : Z) st : S * res Error unit :=
  if productID <=? 0 then (st, Err ErrProductIDRequired)
  else if total <? 0 then (st, Err ErrQuantityInvalid)
  else repo_SeedStock productID total
         (if shardCount <=? 0 then defaultShardCount svc else shardCount) st.

Definition AdjustStock svc (productID delta bucketIdx : Z) (meta : StockChangeMeta) st
  : S * res Error (Stock * Stock) :=
  if productID <=? 0 then (st, Err ErrProductIDRequired)
  else if delta =? 0 then (st, Err ErrQuantityInvalid)
  else if bucketIdx <? 0 then (st, Err ErrQuantityInvalid)
  else repo_AdjustStock productID delta bucketIdx meta st.

Definition ReserveStock svc (orderID : string) (productID quantity : Z) (meta : StockChangeMeta) st
  : S * res Error unit :=
  if is_empty orderID then (st, Err ErrOrderIDRequired)
  else if productID <=? 0 then (st, Err ErrProductIDRequired)
  else if quantity <=? 0 then (st, Err ErrQuantityInvalid)
  else repo_ReserveStock orderID productID quantity (with_OrderID orderID meta) st.

Definition ConfirmDeduct svc (orderID : string) (meta : StockChangeMeta) st : S * res Error unit :=
  if is_empty orderID then (st, Err ErrOrderIDRequired)
  else repo_ConfirmDeduct orderID (with_OrderID orderID meta) st.

Definition ReleaseStock svc (orderID reason : string) (meta : StockChangeMeta) st
  : S * res Error unit :=
  if is_empty orderID then (st, Err ErrOrderIDRequired)
  else
    let meta := with_OrderID orderID meta in
    let meta := if is_empty (meta_Reason meta) then with_Reason reason meta else meta in
    repo_ReleaseStock orderID meta st.

Definition ReleaseExpiredReservations svc (limit : Z) (meta : StockChangeMeta) st
  : S * res Error Z := repo_ReleaseExpiredReservations limit meta st.

Definition ReservationStats svc st : S * res Error domain.ReservationStats :=
  repo_ReservationStats st.

Definition ReconcileStock svc (productID : Z) (meta : StockChangeMeta) st
  : S * res Error (Stock * Stock * bool) :=
  if productID <=? 0 then (st, Err ErrProductIDRequired)
  else repo_ReconcileStock productID meta st.
End operations.

(** ** What the service guarantees of any repository that keeps its laws *)

(** The calls an order makes on the service, with arbitrary arguments. *)
Inductive order_call :=
| CallReserve (orderID : string) (productID quantity : Z) (meta : StockChangeMeta)
| CallConfirm (orderID : string) (meta : StockChangeMeta)
| CallRelease (orderID reason : string) (meta : StockChangeMeta)
| CallGet (productID : Z).

Definition run_call {S} `{StockRepository S} (svc : Service) (c : order_call) (st : S) : S :=
  match c with
  | CallReserve o p q m => (ReserveStock svc o p q m st).1
  | CallConfirm o m => (ConfirmDeduct svc o m st).1
  | CallRelease o r m => (ReleaseStock svc o r m st).1
  | CallGet p => (GetStock svc p st).1
  end.

Section laws.
Context {S : Type} `{StockRepository S} {inv : S -> Prop} `{!StockRepositoryLaws S inv}.

Lemma run_call_inv svc c st :
  match c with CallReserve _ _ q _ => in_int64 q | _ => True end ->
  inv st -> inv (run_call svc c st).
Proof.
  intros Hc Hi. destruct c; cbn [run_call];
    unfold ReserveStock, ConfirmDeduct, ReleaseStock, GetStock; repeat split_test; bools;
    try done; first [apply law_reserve | apply law_confirm | apply law_release | apply law_read];
    auto; unfold_int64; lia.
Qed.
End laws.

End service.
