(* ===== verification/MemoryRepo.v ===== *)
(** The in-memory stock repository (app/inventory/repository/memory.go): its
    operations, the bookkeeping invariant, an abstract specification of stock
    reservation and the refinement between them. *)

From S2P Require Import Prelude Common Shards StockRepository.
Import apperror domain.

(** * State and operations

    The mutex serialises the methods, so each one is a function of the maps.
    Structs are stored by value: reading one gives a copy. *)
Record MemoryStockRepository := mkMem {
  stocks : gmap Z Stock;
  reservations : gmap string Reservation
}.

Definition NewMemoryStockRepository : MemoryStockRepository := mkMem ∅ ∅.

Definition CheckRuntime (r : MemoryStockRepository) : MemoryStockRepository * res Error unit :=
  (r, Ok tt).

Definition RecoverRuntime (r : MemoryStockRepository)
  : MemoryStockRepository * res Error RuntimeRecoveryReport := (r, Ok (mkReport 0 0 0)).

Definition set_stock (p : Z) (s : Stock) (r : MemoryStockRepository) : MemoryStockRepository :=
  mkMem (<[p := s]> (stocks r)) (reservations r).

Definition set_reservation (o : string) (v : Reservation) (r : MemoryStockRepository)
  : MemoryStockRepository := mkMem (stocks r) (<[o := v]> (reservations r)).

Definition GetStock (productID : Z) (r : MemoryStockRepository)
  : MemoryStockRepository * res Error Stock :=
  match stocks r !! productID with
  | None => (r, Err ErrStockNotFound)
  | Some stock => (r, Ok stock)
  end.

Fixpoint batch_loop (m : gmap Z Stock) (productIDs : list Z) (seen : gset Z) : list Stock :=
  match productIDs with
  | [] => []
  | p :: ps =>
      if decide (p ∈ seen) then batch_loop m ps seen
      else match m !! p with
           | Some stock => stock :: batch_loop m ps ({[p]} ∪ seen)
           | None => batch_loop m ps ({[p]} ∪ seen)
           end
  end.

Definition BatchGetStock (productIDs : list Z) (r : MemoryStockRepository)
  : MemoryStockRepository * res Error (list Stock) :=
  (r, Ok (batch_loop (stocks r) productIDs ∅)).

Definition SeedStock (productID total shardCount : Z) (r : MemoryStockRepository)
  : MemoryStockRepository * res Error unit :=
  (set_stock productID (NewStock productID total) r, Ok tt).

Definition AdjustStock (productID delta bucketIdx : Z) (meta : StockChangeMeta)
  (r : MemoryStockRepository) : MemoryStockRepository * res Error (Stock * Stock) :=
  match stocks r !! productID with
  | None => (r, Err ErrStockNotFound)
  | Some before =>
      if int64 (Available before + delta) <? 0 then (r, Err ErrStockInsufficient)
      else
        let available := int64 (Available before + delta) in
        let total := int64 (Total before + delta) in
        let floor := int64 (available + Reserved before) in
        let total := if total <? floor then floor else total in
        let after := mkStock (Stock_ProductID before) available (Reserved before) total in
        (set_stock productID after r, Ok (before, after))
  end.

Definition ReserveStock (orderID : string) (productID quantity : Z) (meta : StockChangeMeta)
  (r : MemoryStockRepository) : MemoryStockRepository * res Error unit :=
  match reservations r !! orderID with
  | Some existing =>
      if negb (ProductID existing =? productID) || negb (Quantity existing =? quantity)
      then (r, Err ErrReservationConflict)
      else (r, Ok tt)
  | None =>
      match stocks r !! productID with
      | None => (r, Err ErrStockNotFound)
      | Some stock =>
          if negb (CanReserve stock quantity) then (r, Err ErrStockInsufficient)
          else
            let stock' := mkStock (Stock_ProductID stock) (int64 (Available stock - quantity))
                            (int64 (Reserved stock + quantity)) (Total stock) in
            (set_reservation orderID
               (mkReservation orderID productID quantity ReservationReserved)
               (set_stock productID stock' r), Ok tt)
      end
  end.

Definition stock_or_zero (p : Z) (r : MemoryStockRepository) : Stock :=
  default zeroStock (stocks r !! p).

Definition with_status (st : ReservationStatus) (v : Reservation) : Reservation :=
  mkReservation (OrderID v) (ProductID v) (Quantity v) st.

Definition ConfirmDeduct (orderID : string) (meta : StockChangeMeta) (r : MemoryStockRepository)
  : MemoryStockRepository * res Error unit :=
  match reservations r !! orderID with
  | None => (r, Ok tt)
  | Some reservation =>
      if status_eqb (Status reservation) ReservationConfirmed then (r, Ok tt)
      else if status_eqb (Status reservation) ReservationReleased then (r, Ok tt)
      else
        let stock := stock_or_zero (ProductID reservation) r in
        let reserved := int64 (Reserved stock - Quantity reservation) in
        let total := int64 (Total stock - Quantity reservation) in
        let reserved := if reserved <? 0 then 0 else reserved in
        let floor := int64 (Available stock + reserved) in
        let total := if total <? floor then floor else total in
        let stock' := mkStock (Stock_ProductID stock) (Available stock) reserved total in
        (set_reservation orderID (with_status ReservationConfirmed reservation)
           (set_stock (ProductID reservation) stock' r), Ok tt)
  end.

Definition ReleaseStock (orderID : string) (meta : StockChangeMeta) (r : MemoryStockRepository)
  : MemoryStockRepository * res Error unit :=
  match reservations r !! orderID with
  | None => (r, Ok tt)
  | Some reservation =>
      if status_eqb (Status reservation) ReservationReleased then (r, Ok tt)
      else if status_eqb (Status reservation) ReservationConfirmed then (r, Ok tt)
      else
        let stock := stock_or_zero (ProductID reservation) r in
        let available := int64 (Available stock + Quantity reservation) in
        let reserved := int64 (Reserved stock - Quantity reservation) in
        let reserved := if reserved <? 0 then 0 else reserved in
        let stock' := mkStock (Stock_ProductID stock) available reserved (Total stock) in
        (set_reservation orderID (with_status ReservationReleased reservation)
           (set_stock (ProductID reservation) stock' r), Ok tt)
  end.

Definition ReleaseExpiredReservations (limit : Z) (meta : StockChangeMeta)
  (r : MemoryStockRepository) : MemoryStockRepository * res Error Z := (r, Ok 0).

Definition is_active (v : Reservation) : bool := status_eqb (Status v) ReservationReserved.

Definition ReservationStats (r : MemoryStockRepository)
  : MemoryStockRepository * res Error domain.ReservationStats :=
  (r, Ok (mkStats (map_sumZ (fun _ v => if is_active v then 1 else 0) (reservations r)) 0 0 0)).

Definition ReconcileStock (productID : Z) (meta : StockChangeMeta) (r : MemoryStockRepository)
  : MemoryStockRepository * res Error (Stock * Stock * bool) :=
  match GetStock productID r with
  | (r, Err e) => (r, Err e)
  | (r, Ok stock) => (r, Ok (stock, stock, false))
  end.

#[export] Instance memory_repository : StockRepository MemoryStockRepository := {
  repo_CheckRuntime := CheckRuntime;
  repo_RecoverRuntime := RecoverRuntime;
  repo_GetStock := GetStock;
  repo_BatchGetStock := BatchGetStock;
  repo_SeedStock := SeedStock;
  repo_AdjustStock := AdjustStock;
  repo_ReserveStock := ReserveStock;
  repo_ConfirmDeduct := ConfirmDeduct;
  repo_ReleaseStock := ReleaseStock;
  repo_ReleaseExpiredReservations := ReleaseExpiredReservations;
  repo_ReservationStats := ReservationStats;
  repo_ReconcileStock := ReconcileStock
}.

(** * The bookkeeping invariant

    For every product: the counters are non-negative and within [int64], the
    total is what is available plus what is reserved, and what is reserved is
    exactly what the active reservations of the product hold. *)
Definition held (p : Z) (st : ReservationStatus) (m : gmap string Reservation) : Z :=
  map_sumZ (fun _ v => if (ProductID v =? p) && status_eqb (Status v) st then Quantity v else 0) m.

Record stock_ok (r : MemoryStockRepository) (p : Z) (s : Stock) : Prop := {
  ok_id : Stock_ProductID s = p;
  ok_available : 0 <= Available s;
  ok_reserved : Reserved s = held p ReservationReserved (reservations r);
  ok_total : Total s = Available s + Reserved s;
  ok_range : Total s <= int64_max
}.

Record mem_inv (r : MemoryStockRepository) : Prop := {
  inv_stock p s : stocks r !! p = Some s -> stock_ok r p s;
  inv_quantity o v : reservations r !! o = Some v -> 0 < Quantity v <= int64_max;
  inv_order o v : reservations r !! o = Some v -> OrderID v = o;
  inv_product o v : reservations r !! o = Some v -> is_Some (stocks r !! ProductID v)
}.

Lemma status_eqb_true a b : status_eqb a b = true <-> a = b.
Proof. unfold status_eqb. by rewrite bool_decide_eq_true. Qed.

Lemma held_nonneg p st m :
  (forall o v, m !! o = Some v -> 0 < Quantity v <= int64_max) -> 0 <= held p st m.
Proof.
  intros Hq. apply map_sumZ_nonneg. intros o v Hv. specialize (Hq _ _ Hv).
  destruct (_ && _); lia.
Qed.

(** What a reservation contributes to [held]. *)
Definition contrib (p : Z) (st : ReservationStatus) (v : Reservation) : Z :=
  if (ProductID v =? p) && status_eqb (Status v) st then Quantity v else 0.

Lemma held_insert_new p st m o v :
  m !! o = None -> held p st (<[o := v]> m) = contrib p st v + held p st m.
Proof. intros Ho. unfold held. by rewrite map_sumZ_insert. Qed.

Lemma held_update p st m o v w :
  m !! o = Some v -> held p st (<[o := w]> m) = held p st m - contrib p st v + contrib p st w.
Proof. intros Ho. unfold held. by rewrite (map_sumZ_update _ _ _ v). Qed.

(** An active reservation is covered by the reserved counter. *)
Lemma held_ge p st m o v :
  (forall o v, m !! o = Some v -> 0 < Quantity v <= int64_max) ->
  m !! o = Some v -> contrib p st v <= held p st m.
Proof.
  intros Hq Ho. unfold held. rewrite <- (insert_delete_id m o v Ho).
  rewrite map_sumZ_insert by apply lookup_delete_eq.
  assert (0 <= held p st (delete o m)); [|unfold held, contrib in *; lia].
  apply held_nonneg. intros o' v' [_ Hv']%lookup_delete_Some. eauto.
Qed.

Ltac status_cases :=
  repeat match goal with
  | H : status_eqb _ _ = true |- _ => apply status_eqb_true in H
  | H : status_eqb ?a ?b = false |- _ => unfold status_eqb in H
  end; bools.

(** * Specification

    The abstract ledger knows only how many units each product has and what
    each order holds; availability is derived.  Its operations are the contract
    of stock reservation: reserve at most what is free, confirm consumes the
    units once, release frees them once. *)
Record ledger := mkLedger { units : gmap Z Z; orders : gmap string Reservation }.

Definition free (l : ledger) (p u : Z) : Z := u - held p ReservationReserved (orders l).

Definition spec_reserve (o : string) (p q : Z) (l : ledger) : ledger * res Error unit :=
  match orders l !! o with
  | Some v => if (ProductID v =? p) && (Quantity v =? q) then (l, Ok tt)
              else (l, Err ErrReservationConflict)
  | None =>
      match units l !! p with
      | None => (l, Err ErrStockNotFound)
      | Some u =>
          if (0 <? q) && (q <=? free l p u)
          then (mkLedger (units l) (<[o := mkReservation o p q ReservationReserved]> (orders l)),
                Ok tt)
          else (l, Err ErrStockInsufficient)
      end
  end.

Definition spec_finish (st : ReservationStatus) (o : string) (l : ledger) : ledger * res Error unit :=
  match orders l !! o with
  | Some v =>
      if status_eqb (Status v) ReservationReserved then
        let u := default 0 (units l !! ProductID v) in
        let u := match st with ReservationConfirmed => u - Quantity v | _ => u end in
        (mkLedger (<[ProductID v := u]> (units l)) (<[o := with_status st v]> (orders l)), Ok tt)
      else (l, Ok tt)
  | None => (l, Ok tt)
  end.

Definition spec_confirm : string -> ledger -> ledger * res Error unit :=
  spec_finish ReservationConfirmed.
Definition spec_release : string -> ledger -> ledger * res Error unit :=
  spec_finish ReservationReleased.

Definition abs (r : MemoryStockRepository) : ledger :=
  mkLedger (Total <$> stocks r) (reservations r).

(** * Preservation of the invariant *)

Lemma mem_inv_held_range r p s :
  mem_inv r -> stocks r !! p = Some s ->
  0 <= Reserved s <= int64_max /\ 0 <= Available s <= int64_max /\ Total s = Available s + Reserved s.
Proof.
  intros Hi Hs. destruct (inv_stock _ Hi _ _ Hs) as [_ Ha Hr Ht Hm].
  assert (0 <= held p ReservationReserved (reservations r)); [|lia].
  apply held_nonneg. apply (inv_quantity _ Hi).
Qed.

(** The shape all three updates share: one stock and one reservation change. *)
Lemma mem_inv_update r o v p s s' :
  mem_inv r -> stocks r !! p = Some s ->
  OrderID v = o -> ProductID v = p -> 0 < Quantity v <= int64_max ->
  (forall w, reservations r !! o = Some w -> ProductID w = p) ->
  Stock_ProductID s' = p -> 0 <= Available s' -> Total s' = Available s' + Reserved s' ->
  Total s' <= int64_max ->
  Reserved s' = held p ReservationReserved (<[o := v]> (reservations r)) ->
  mem_inv (set_reservation o v (set_stock p s' r)).
Proof.
  intros Hi Hs Ho Hp Hq Hw Hid Ha Ht Hm Hr. subst o p. split; simpl.
  - intros p' t. rewrite lookup_insert. case_decide as Hpp; intros Hl; simplify_eq.
    + by split.
    + destruct (inv_stock _ Hi _ _ Hl) as [H1 H2 H3 H4 H5]. split; try done. simpl.
      rewrite H3. destruct (reservations r !! OrderID v) as [w|] eqn:Hro.
      * rewrite (held_update _ _ _ _ w) by done. specialize (Hw _ eq_refl).
        unfold contrib. rewrite Hw.
        replace (ProductID v =? p') with false by (symmetry; apply Z.eqb_neq; congruence).
        simpl. lia.
      * rewrite held_insert_new by done. unfold contrib.
        replace (ProductID v =? p') with false by (symmetry; apply Z.eqb_neq; congruence).
        simpl. lia.
  - intros o' w. rewrite lookup_insert. case_decide; intros Hl; simplify_eq; [done|].
    by apply (inv_quantity _ Hi _ _ Hl).
  - intros o' w. rewrite lookup_insert. case_decide; intros Hl; simplify_eq; [done|].
    by apply (inv_order _ Hi).
  - intros o' w. rewrite lookup_insert. case_decide; intros Hl; simplify_eq.
    + rewrite lookup_insert_eq. eauto.
    + rewrite lookup_insert. case_decide; [eauto|]. by apply (inv_product _ Hi o').
Qed.

Lemma contrib_self o p q st : contrib p st (mkReservation o p q st) = q.
Proof.
  unfold contrib. simpl. rewrite Z.eqb_refl. unfold status_eqb.
  by rewrite bool_decide_eq_true_2.
Qed.

Lemma contrib_other p st v st' :
  st <> st' -> contrib p st (with_status st' v) = 0.
Proof.
  intros Hne. unfold contrib, with_status, status_eqb. simpl.
  rewrite (bool_decide_eq_false_2 (st' = st)) by congruence. by rewrite andb_false_r.
Qed.

Lemma contrib_active v :
  Status v = ReservationReserved -> contrib (ProductID v) ReservationReserved v = Quantity v.
Proof.
  intros Hs. unfold contrib, status_eqb. rewrite Z.eqb_refl, Hs.
  by rewrite bool_decide_eq_true_2.
Qed.

Lemma reserve_inv o p q meta r :
  mem_inv r -> 0 < q <= int64_max -> mem_inv (ReserveStock o p q meta r).1.
Proof.
  intros Hi Hq. unfold ReserveStock.
  destruct (reservations r !! o) as [v|] eqn:Ho; [by destruct (_ || _)|].
  destruct (stocks r !! p) as [s|] eqn:Hs; [|done].
  destruct (negb _) eqn:Hc; [done|]. simpl.
  apply negb_false_iff in Hc. unfold CanReserve in Hc. bools.
  destruct (mem_inv_held_range _ _ _ Hi Hs) as (?&?&?).
  destruct (inv_stock _ Hi _ _ Hs) as [Hid _ Hr Ht Hm].
  rewrite !int64_id by (unfold_int64; lia).
  apply (mem_inv_update r o _ p s); simpl; try done; try lia; [by rewrite Ho|].
  rewrite held_insert_new by done. rewrite contrib_self. lia.
Qed.

(** The stock an active reservation refers to covers it. *)
Lemma active_covered r o v :
  mem_inv r -> reservations r !! o = Some v -> Status v = ReservationReserved ->
  exists s, stocks r !! ProductID v = Some s /\ stock_or_zero (ProductID v) r = s /\
    0 < Quantity v <= Reserved s /\ 0 <= Available s /\ Reserved s <= int64_max /\
    Total s = Available s + Reserved s /\ Total s <= int64_max.
Proof.
  intros Hi Ho Hv. destruct (inv_product _ Hi _ _ Ho) as [s Hs]. exists s.
  destruct (mem_inv_held_range _ _ _ Hi Hs) as (?&?&?).
  destruct (inv_stock _ Hi _ _ Hs) as [Hid _ Hr Ht Hm].
  pose proof (inv_quantity _ Hi _ _ Ho).
  pose proof (held_ge (ProductID v) ReservationReserved _ _ _ (inv_quantity _ Hi) Ho) as Hge.
  rewrite contrib_active in Hge by done.
  unfold stock_or_zero. rewrite Hs. simpl. repeat split; done || lia.
Qed.

(** What the clamping code of [ConfirmDeduct] and [ReleaseStock] computes under
    the invariant: the clamps never fire. *)
Lemma confirm_active r o v meta :
  mem_inv r -> reservations r !! o = Some v -> Status v = ReservationReserved ->
  exists s, stocks r !! ProductID v = Some s /\ ConfirmDeduct o meta r =
    (set_reservation o (with_status ReservationConfirmed v)
       (set_stock (ProductID v)
          (mkStock (Stock_ProductID s) (Available s) (Reserved s - Quantity v)
             (Total s - Quantity v)) r), Ok tt).
Proof.
  intros Hi Ho Hv. destruct (active_covered _ _ _ Hi Ho Hv) as (s&Hs&Hz&?&?&?&?&?).
  exists s. split; [done|]. unfold ConfirmDeduct. rewrite Ho, Hv, Hz. simpl.
  rewrite (int64_id (Reserved s - _)) by (unfold_int64; lia).
  rewrite (int64_id (Total s - _)) by (unfold_int64; lia).
  replace (Reserved s - Quantity v <? 0) with false by (symmetry; apply Z.ltb_ge; lia).
  rewrite int64_id by (unfold_int64; lia).
  replace (Total s - _ <? _) with false by (symmetry; apply Z.ltb_ge; lia). done.
Qed.

Lemma release_active r o v meta :
  mem_inv r -> reservations r !! o = Some v -> Status v = ReservationReserved ->
  exists s, stocks r !! ProductID v = Some s /\ ReleaseStock o meta r =
    (set_reservation o (with_status ReservationReleased v)
       (set_stock (ProductID v)
          (mkStock (Stock_ProductID s) (Available s + Quantity v) (Reserved s - Quantity v)
             (Total s)) r), Ok tt).
Proof.
  intros Hi Ho Hv. destruct (active_covered _ _ _ Hi Ho Hv) as (s&Hs&Hz&?&?&?&?&?).
  exists s. split; [done|]. unfold ReleaseStock. rewrite Ho, Hv, Hz. simpl.
  rewrite (int64_id (Available s + _)) by (unfold_int64; lia).
  rewrite (int64_id (Reserved s - _)) by (unfold_int64; lia).
  replace (Reserved s - Quantity v <? 0) with false by (symmetry; apply Z.ltb_ge; lia). done.
Qed.

Lemma finished_noop r o v meta :
  reservations r !! o = Some v -> Status v <> ReservationReserved ->
  ConfirmDeduct o meta r = (r, Ok tt) /\ ReleaseStock o meta r = (r, Ok tt).
Proof.
  intros Ho Hv. unfold ConfirmDeduct, ReleaseStock. rewrite Ho.
  destruct (Status v); [done| |]; by split.
Qed.

Lemma confirm_inv o meta r : mem_inv r -> mem_inv (ConfirmDeduct o meta r).1.
Proof.
  intros Hi. destruct (reservations r !! o) as [v|] eqn:Ho;
    [|unfold ConfirmDeduct; by rewrite Ho].
  destruct (decide (Status v = ReservationReserved)) as [Hv|Hv];
    [|by destruct (finished_noop r o v meta Ho Hv) as [-> _]].
  destruct (confirm_active r o v meta Hi Ho Hv) as (s&Hs&->). simpl.
  destruct (active_covered _ _ _ Hi Ho Hv) as (s'&?&_&?&?&?&?&?). simplify_eq.
  destruct (inv_stock _ Hi _ _ Hs) as [Hid _ Hr _ _].
  apply (mem_inv_update r o _ (ProductID v) s); simpl; try done; try lia.
  - by apply (inv_order _ Hi).
  - intros w Hw. congruence.
  - rewrite (held_update _ _ _ _ v) by done. rewrite contrib_active, contrib_other by done. lia.
Qed.

Lemma release_inv o meta r : mem_inv r -> mem_inv (ReleaseStock o meta r).1.
Proof.
  intros Hi. destruct (reservations r !! o) as [v|] eqn:Ho;
    [|unfold ReleaseStock; by rewrite Ho].
  destruct (decide (Status v = ReservationReserved)) as [Hv|Hv];
    [|by destruct (finished_noop r o v meta Ho Hv) as [_ ->]].
  destruct (release_active r o v meta Hi Ho Hv) as (s&Hs&->). simpl.
  destruct (active_covered _ _ _ Hi Ho Hv) as (s'&?&_&?&?&?&?&?). simplify_eq.
  destruct (inv_stock _ Hi _ _ Hs) as [Hid _ Hr _ _].
  apply (mem_inv_update r o _ (ProductID v) s); simpl; try done; try lia.
  - by apply (inv_order _ Hi).
  - intros w Hw. congruence.
  - rewrite (held_update _ _ _ _ v) by done. rewrite contrib_active, contrib_other by done. lia.
Qed.

#[export] Instance memory_laws : StockRepositoryLaws MemoryStockRepository mem_inv.
Proof.
  split; intros; simpl.
  - by apply reserve_inv.
  - by apply confirm_inv.
  - by apply release_inv.
  - unfold GetStock. by destruct (_ !! _).
Qed.

Lemma mem_inv_empty : mem_inv NewMemoryStockRepository.
Proof. split; simpl; intros ? ?; rewrite lookup_empty; done. Qed.

(** Replacing the stock of a product that no active reservation refers to. *)
Lemma mem_inv_set_stock r p s :
  mem_inv r -> stock_ok r p s -> mem_inv (set_stock p s r).
Proof.
  intros Hi Hs. split; simpl.
  - intros p' t. rewrite lookup_insert. case_decide; intros Hl; simplify_eq.
    + by destruct Hs.
    + by destruct (inv_stock _ Hi _ _ Hl).
  - apply (inv_quantity _ Hi).
  - apply (inv_order _ Hi).
  - intros o v Hv. rewrite lookup_insert. case_decide; [eauto|]. by apply (inv_product _ Hi o).
Qed.

Lemma seed_inv p t n r :
  mem_inv r -> t <= int64_max -> held p ReservationReserved (reservations r) = 0 ->
  mem_inv (SeedStock p t n r).1.
Proof.
  intros Hi Ht Hh. apply mem_inv_set_stock; [done|].
  split; simpl; try done; try (destruct (t <? 0) eqn:?; bools); unfold int64_max in *; lia.
Qed.

(** ** The properties *)

(** Adjusting a stock keeps the books: a known product's adjustment that the
    total can represent either fails and changes nothing - when it would make
    the available units negative or overflow [int64] - or moves available and
    total by exactly [delta]; in both cases the invariant is preserved. *)
Theorem AdjustStock_sound p d b meta r s :
  mem_inv r -> stocks r !! p = Some s -> in_int64 d -> Total s + d <= int64_max ->
  mem_inv (AdjustStock p d b meta r).1 /\
  AdjustStock p d b meta r =
    if Available s + d <? 0 then (r, Err ErrStockInsufficient)
    else let s' := mkStock p (Available s + d) (Reserved s) (Total s + d) in
         (set_stock p s' r, Ok (s, s')).
Proof.
  intros Hi Hs Hd Ht. destruct (mem_inv_held_range _ _ _ Hi Hs) as (Hres&Hav&Htot).
  destruct (inv_stock _ Hi _ _ Hs) as [Hid _ Hr _ _].
  assert (AdjustStock p d b meta r =
    if Available s + d <? 0 then (r, Err ErrStockInsufficient)
    else let s' := mkStock p (Available s + d) (Reserved s) (Total s + d) in
         (set_stock p s' r, Ok (s, s'))) as Heq.
  { unfold AdjustStock. rewrite Hs, Hid.
    rewrite !(int64_id (Available s + d)) by (unfold_int64; lia).
    destruct (Available s + d <? 0) eqn:Hneg; [done|]. bools.
    rewrite !int64_id by (unfold_int64; lia).
    replace (Total s + d <? _) with false by (symmetry; apply Z.ltb_ge; lia). done. }
  split; [|done]. rewrite Heq. destruct (Available s + d <? 0) eqn:Hneg; [done|]. bools. simpl.
  apply mem_inv_set_stock; [done|]. split; simpl; try done; lia.
Qed.

(** The repository implements the specification of stock reservation: on
    every state that satisfies the invariant, [ReserveStock], [ConfirmDeduct]
    and [ReleaseStock] give the result of the abstract operation and their new
    state abstracts to the abstract operation's new state, on every branch. *)
Theorem memory_refines_ledger r o p q meta :
  mem_inv r ->
  (let '(r', x) := ReserveStock o p q meta r in (abs r', x)) = spec_reserve o p q (abs r) /\
  (let '(r', x) := ConfirmDeduct o meta r in (abs r', x)) = spec_confirm o (abs r) /\
  (let '(r', x) := ReleaseStock o meta r in (abs r', x)) = spec_release o (abs r).
Proof.
  intros Hi. split; [|split].
  - unfold ReserveStock, spec_reserve. simpl. destruct (reservations r !! o) as [v|] eqn:Ho.
    { destruct (ProductID v =? p), (Quantity v =? q); done. }
    rewrite lookup_fmap. destruct (stocks r !! p) as [s|] eqn:Hs; simpl; [|done].
    destruct (inv_stock _ Hi _ _ Hs) as [Hid Ha Hr Ht Hm].
    unfold CanReserve, free. simpl. rewrite Ht, Hr.
    replace (Available s + _ - _) with (Available s) by lia.
    destruct (_ && _) eqn:Hc; simpl; [|done].
    unfold abs, set_reservation, set_stock. simpl. rewrite fmap_insert. simpl.
    rewrite insert_id; [done|]. rewrite lookup_fmap, Hs. simpl. f_equal. lia.
  - unfold spec_confirm, spec_finish. simpl. destruct (reservations r !! o) as [v|] eqn:Ho;
      [|unfold ConfirmDeduct; by rewrite Ho].
    unfold status_eqb. case_bool_decide as Hv.
    + destruct (confirm_active r o v meta Hi Ho Hv) as (s&Hs&->).
      unfold abs, set_reservation, set_stock. simpl.
      rewrite fmap_insert, lookup_fmap, Hs. done.
    + by destruct (finished_noop r o v meta Ho Hv) as [-> _].
  - unfold spec_release, spec_finish. simpl. destruct (reservations r !! o) as [v|] eqn:Ho;
      [|unfold ReleaseStock; by rewrite Ho].
    unfold status_eqb. case_bool_decide as Hv.
    + destruct (release_active r o v meta Hi Ho Hv) as (s&Hs&->).
      unfold abs, set_reservation, set_stock. simpl.
      rewrite fmap_insert, lookup_fmap, Hs. done.
    + by destruct (finished_noop r o v meta Ho Hv) as [_ ->].
Qed.

(** * Runs of the service over the repository *)

Definition run_calls (svc : service.Service) (cs : list service.order_call)
  (r : MemoryStockRepository) : MemoryStockRepository :=
  foldl (fun r c => service.run_call svc c r) r cs.

Definition call_ok (c : service.order_call) : Prop :=
  match c with service.CallReserve _ _ q _ => in_int64 q | _ => True end.

Lemma run_calls_inv svc cs r : Forall call_ok cs -> mem_inv r -> mem_inv (run_calls svc cs r).
Proof.
  intros Hcs. revert r. induction Hcs as [|c cs Hc _ IH]; intros r Hi; simpl; [done|].
  apply IH, service.run_call_inv; done.
Qed.

(** The units a product has had: those still counted and those sold. *)
Definition accounted (p : Z) (r : MemoryStockRepository) : Z :=
  Total (stock_or_zero p r) + held p ReservationConfirmed (reservations r).

Lemma accounted_finish st r o v s s' p :
  reservations r !! o = Some v -> Status v = ReservationReserved ->
  stocks r !! ProductID v = Some s ->
  Total s' = Total s - (if decide (st = ReservationConfirmed) then Quantity v else 0) ->
  st <> ReservationReserved ->
  accounted p (set_reservation o (with_status st v) (set_stock (ProductID v) s' r)) =
  accounted p r.
Proof.
  intros Ho Hv Hs Ht Hst. unfold accounted, stock_or_zero. simpl.
  rewrite (held_update _ _ _ _ v) by done.
  replace (contrib p ReservationConfirmed v) with 0
    by (unfold contrib, status_eqb; rewrite Hv; by rewrite andb_false_r).
  unfold contrib, with_status, status_eqb. simpl. rewrite lookup_insert.
  destruct (decide (ProductID v = p)) as [Hp|Hp].
  - rewrite Hp in Hs |- *. simpl. rewrite Hs. simpl. rewrite Z.eqb_refl. simpl. rewrite Ht.
    repeat case_decide; repeat case_bool_decide; try done; lia.
  - replace (ProductID v =? p) with false by (symmetry; by apply Z.eqb_neq). simpl. lia.
Qed.

Lemma accounted_call svc c r p :
  call_ok c -> mem_inv r -> accounted p (service.run_call svc c r) = accounted p r.
Proof.
  intros Hc Hi. destruct c as [o p' q meta|o meta|o rs meta|p']; simpl.
  - unfold service.ReserveStock. destruct (is_empty o) eqn:?; [done|].
    destruct (p' <=? 0) eqn:?; [done|]. destruct (q <=? 0) eqn:?; [done|]. simpl.
    unfold ReserveStock. destruct (reservations r !! o) as [v|] eqn:Ho; [by destruct (_ || _)|].
    destruct (stocks r !! p') as [s|] eqn:Hs; [|done]. destruct (negb _); [done|].
    unfold accounted, stock_or_zero. simpl. rewrite held_insert_new by done.
    unfold contrib. simpl. unfold status_eqb. rewrite bool_decide_eq_false_2 by done.
    rewrite andb_false_r, lookup_insert. case_decide; subst; [by rewrite Hs|done].
  - unfold service.ConfirmDeduct. destruct (is_empty o); [done|]. simpl.
    destruct (reservations r !! o) as [v|] eqn:Ho; [|unfold ConfirmDeduct; by rewrite Ho].
    destruct (decide (Status v = ReservationReserved)) as [Hv|Hv];
      [|by destruct (finished_noop r o v (service.with_OrderID o meta) Ho Hv) as [-> _]].
    destruct (confirm_active r o v (service.with_OrderID o meta) Hi Ho Hv) as (s&Hs&->).
    by apply (accounted_finish _ r o v s).
  - unfold service.ReleaseStock. destruct (is_empty o); [done|]. simpl.
    match goal with |- context [ReleaseStock o ?m r] => generalize m; intros m' end.
    destruct (reservations r !! o) as [v|] eqn:Ho; [|unfold ReleaseStock; by rewrite Ho].
    destruct (decide (Status v = ReservationReserved)) as [Hv|Hv];
      [|by destruct (finished_noop r o v m' Ho Hv) as [_ ->]].
    destruct (release_active r o v m' Hi Ho Hv) as (s&Hs&->).
    apply (accounted_finish _ r o v s); simpl; try done; lia.
  - unfold service.GetStock. destruct (p' <=? 0); [done|]. simpl. unfold GetStock.
    by destruct (_ !! _).
Qed.


(** * Witnesses *)

Definition no_meta : StockChangeMeta := mkMeta "" "" "" "" 0 0 "".

(** Product 100 with ten units, four of them reserved by order "o1". *)
Definition sample : MemoryStockRepository :=
  (ReserveStock "o1" 100 4 no_meta (SeedStock 100 10 1 NewMemoryStockRepository).1).1.

Lemma sample_inv : mem_inv sample.
Proof.
  apply reserve_inv; [|unfold_int64; lia].
  apply seed_inv; [apply mem_inv_empty|unfold_int64; lia|reflexivity].
Qed.

Lemma AdjustStock_sound_witness :
  mem_inv (AdjustStock 100 (-6) 0 no_meta sample).1 /\
  AdjustStock 100 (-6) 0 no_meta sample =
    (set_stock 100 (mkStock 100 0 4 4) sample, Ok (mkStock 100 6 4 10, mkStock 100 0 4 4)).
Proof.
  apply (AdjustStock_sound 100 (-6) 0 no_meta sample (mkStock 100 6 4 10));
    [apply sample_inv|reflexivity|unfold_int64; lia|unfold_int64; simpl; lia].
Defined.

Lemma memory_refines_ledger_witness :
  spec_reserve "o2" 100 7 (abs sample) = (abs sample, Err ErrStockInsufficient) /\
  spec_release "o1" (abs sample) = (abs (ReleaseStock "o1" no_meta sample).1, Ok tt).
Proof.
  pose proof (memory_refines_ledger sample "o2" 100 7 no_meta sample_inv) as [H1 _].
  pose proof (memory_refines_ledger sample "o1" 100 7 no_meta sample_inv) as [_ [_ H3]].
  split; [rewrite <- H1; reflexivity|rewrite <- H3; reflexivity].
Defined.

(** Ten units: the order that asks for seven is refused after one took four. *)
Definition sample_calls : list service.order_call :=
  [service.CallReserve "o2" 100 7 no_meta; service.CallConfirm "o1" no_meta;
   service.CallReserve "o3" 100 6 no_meta; service.CallRelease "o3" "cancel" no_meta;
   service.CallConfirm "o3" no_meta].

