(* ===== verification/Sql.v ===== *)
(** Tables and the SQL statements the services issue on them, and the error
    values of the services (gRPC status errors and plain errors).

    A table with a primary key is a finite map from the key to the row; a table
    with an auto-increment key that nothing refers to is the list of its rows in
    insertion order.  [affected] counts the rows an UPDATE changes, which is what
    the MySQL driver reports without the found-rows option: a matched row that
    already has the new values does not count.  String columns are compared
    exactly and are not truncated. *)

From S2P Require Import Prelude.

(** * Errors *)

Inductive code :=
| InvalidArgument | NotFound | PermissionDenied | FailedPrecondition | Aborted
| Internal | Unavailable | Unauthenticated | ResourceExhausted | AlreadyExists.

#[export] Instance code_eq_dec : EqDecision code.
Proof. solve_decision. Defined.

(** [status.Error(c, msg)], an error of the database driver, or another error. *)
Inductive error :=
| StatusError (c : code) (msg : string)
| DbError
| OtherError (msg : string).

#[export] Instance error_eq_dec : EqDecision error.
Proof. solve_decision. Defined.

Definition code_String (c : code) : string :=
  match c with
  | InvalidArgument => "InvalidArgument"
  | NotFound => "NotFound"
  | PermissionDenied => "PermissionDenied"
  | FailedPrecondition => "FailedPrecondition"
  | Aborted => "Aborted"
  | Internal => "Internal"
  | Unavailable => "Unavailable"
  | Unauthenticated => "Unauthenticated"
  | ResourceExhausted => "ResourceExhausted"
  | AlreadyExists => "AlreadyExists"
  end.

(** [err.Error()]. *)
Definition error_text (e : error) : string :=
  match e with
  | StatusError c msg => "rpc error: code = " +:+ code_String c +:+ " desc = " +:+ msg
  | DbError => "database error"
  | OtherError msg => msg
  end.

(** * Statements on keyed tables *)

Section table.
Context {K R : Type} `{Countable K, EqDecision R}.
Implicit Types (m : gmap K R) (p : K -> R -> bool) (f : R -> R).

(** [UPDATE ... SET f WHERE p]. *)
Definition upd p f m : gmap K R :=
  map_imap (fun k r => Some (if p k r then f r else r)) m.

Definition affected p f m : Z :=
  map_sumZ (fun k r => if p k r && negb (bool_decide (f r = r)) then 1 else 0) m.

(** [SELECT ... WHERE p] and [... LIMIT 1] (no ORDER BY: any matching row). *)
Definition select_all p m : list (K * R) :=
  filter (fun kr => p kr.1 kr.2 = true) (map_to_list m).

Definition select p m : option (K * R) := head (select_all p m).

(** [INSERT IGNORE]: nothing happens when the primary key or a unique key, which
    [clash] decides, is taken. *)
Definition insert_ignore (clash : R -> bool) (k : K) (r : R) m : gmap K R :=
  match m !! k with
  | Some _ => m
  | None => match select (fun _ r' => clash r') m with
            | Some _ => m
            | None => <[k := r]> m
            end
  end.

(** [INSERT]: [None] is the duplicate-key error. *)
Definition insert_row (clash : R -> bool) (k : K) (r : R) m : option (gmap K R) :=
  match m !! k with
  | Some _ => None
  | None => match select (fun _ r' => clash r') m with
            | Some _ => None
            | None => Some (<[k := r]> m)
            end
  end.

Lemma lookup_upd p f m k :
  upd p f m !! k = (fun r => if p k r then f r else r) <$> m !! k.
Proof. unfold upd. rewrite map_lookup_imap. by destruct (m !! k). Qed.

Lemma lookup_upd_Some p f m k r :
  upd p f m !! k = Some r <-> exists r0, m !! k = Some r0 /\ r = if p k r0 then f r0 else r0.
Proof. rewrite lookup_upd, fmap_Some. naive_solver. Qed.

Lemma upd_ne p f m k : (forall r, m !! k = Some r -> p k r = false) -> upd p f m !! k = m !! k.
Proof. intros Hp. rewrite lookup_upd. destruct (m !! k) as [r|]; simpl; [|done]. by rewrite Hp. Qed.

Lemma affected_nonneg p f m : 0 <= affected p f m.
Proof. apply map_sumZ_nonneg. intros. destruct (_ && _); lia. Qed.

Lemma affected_0 p f m :
  affected p f m = 0 <-> forall k r, m !! k = Some r -> p k r = true -> f r = r.
Proof.
  unfold affected. induction m as [|k r m Hk IH] using map_ind.
  { rewrite map_sumZ_empty. setoid_rewrite lookup_empty. naive_solver. }
  rewrite map_sumZ_insert by done. pose proof (affected_nonneg p f m) as Hn. unfold affected in Hn.
  split.
  - intros Hs k' r'. destruct (p k r) eqn:Hp; simpl in Hs.
    + case_bool_decide; simpl in Hs; [|lia]. rewrite lookup_insert_Some.
      intros [[-> ->]|[_ Hl]]; [done|]. apply IH; [lia|done].
    + rewrite lookup_insert_Some. intros [[-> ->]|[_ Hl]]; [congruence|]. apply IH; [lia|done].
  - intros Hall. rewrite (proj2 IH).
    + destruct (p k r) eqn:Hp; simpl; [|done].
      rewrite (Hall k r); [by rewrite bool_decide_eq_true_2|by rewrite lookup_insert_eq|done].
    + intros k' r' Hl. apply Hall. rewrite lookup_insert_ne; congruence.
Qed.

Lemma affected_0_upd p f m : affected p f m = 0 -> upd p f m = m.
Proof.
  rewrite affected_0. intros Hall. apply map_eq. intros k. rewrite lookup_upd.
  destruct (m !! k) as [r|] eqn:Hk; simpl; [|done].
  destruct (p k r) eqn:Hp; [by rewrite (Hall k r)|done].
Qed.

(** Statements whose WHERE clause fixes the primary key. *)
Definition at_key (k : K) (c : R -> bool) : K -> R -> bool := fun k' r => bool_decide (k' = k) && c r.

Lemma upd_at_key k c f m :
  upd (at_key k c) f m = match m !! k with
                         | Some r => if c r then <[k := f r]> m else m
                         | None => m
                         end.
Proof.
  apply map_eq. intros k'. rewrite lookup_upd. unfold at_key.
  destruct (m !! k) as [r|] eqn:Hk.
  - destruct (decide (k' = k)) as [->|Hne].
    + rewrite Hk. simpl. rewrite bool_decide_eq_true_2 by done. simpl.
      destruct (c r); [by rewrite lookup_insert_eq|done].
    + rewrite bool_decide_eq_false_2 by done. simpl.
      destruct (c r); rewrite ?lookup_insert_ne by done; by destruct (m !! k').
  - destruct (m !! k') as [r'|] eqn:Hk'; simpl; [|done].
    rewrite bool_decide_eq_false_2 by congruence. done.
Qed.

Lemma affected_at_key k c f m :
  affected (at_key k c) f m = match m !! k with
                              | Some r => if c r && negb (bool_decide (f r = r)) then 1 else 0
                              | None => 0
                              end.
Proof.
  destruct (m !! k) as [r|] eqn:Hk.
  - rewrite <- (insert_delete_id m k r Hk). unfold affected.
    rewrite map_sumZ_insert by apply lookup_delete_eq.
    unfold at_key at 1. rewrite bool_decide_eq_true_2 by done. simpl.
    cut (affected (at_key k c) f (delete k m) = 0); [unfold affected; lia|].
    apply affected_0. intros k' r' [Hne _]%lookup_delete_Some. unfold at_key.
    by rewrite bool_decide_eq_false_2.
  - apply affected_0. intros k' r' Hl. unfold at_key.
    rewrite bool_decide_eq_false_2 by congruence. done.
Qed.

Lemma elem_of_select_all p m k r :
  (k, r) ∈ select_all p m <-> m !! k = Some r /\ p k r = true.
Proof.
  unfold select_all. rewrite list_elem_of_filter, elem_of_map_to_list. simpl. naive_solver.
Qed.

Lemma select_Some p m k r : select p m = Some (k, r) -> m !! k = Some r /\ p k r = true.
Proof.
  unfold select. intros Hs. apply elem_of_select_all.
  destruct (select_all p m) as [|x l]; simplify_eq/=. by left.
Qed.

Lemma select_None p m : select p m = None <-> forall k r, m !! k = Some r -> p k r = false.
Proof.
  unfold select. split.
  - intros Hs k r Hk. destruct (p k r) eqn:Hp; [|done].
    assert ((k, r) ∈ select_all p m) as Hin by by apply elem_of_select_all.
    destruct (select_all p m); [by apply elem_of_nil in Hin|done].
  - intros Hall. destruct (select_all p m) as [|[k r] l] eqn:Hl; [done|].
    assert ((k, r) ∈ select_all p m) as Hin by (rewrite Hl; by left).
    apply elem_of_select_all in Hin as [Hk Hp]. rewrite (Hall _ _ Hk) in Hp. done.
Qed.

(** A condition that at most one row satisfies. *)
Lemma select_unique p m k r :
  m !! k = Some r -> p k r = true ->
  (forall k' r', m !! k' = Some r' -> p k' r' = true -> k' = k) ->
  select p m = Some (k, r).
Proof.
  intros Hk Hp Hu. destruct (select p m) as [[k' r']|] eqn:Hs.
  - apply select_Some in Hs as [Hk' Hp']. rewrite (Hu _ _ Hk' Hp') in Hk' |- *. congruence.
  - rewrite select_None in Hs. rewrite (Hs _ _ Hk) in Hp. done.
Qed.

Lemma select_at_key k c m :
  select (at_key k c) m = match m !! k with
                          | Some r => if c r then Some (k, r) else None
                          | None => None
                          end.
Proof.
  assert (forall k' r', at_key k c k' r' = true -> k' = k) as Hk.
  { unfold at_key. intros k' r' Hb. bools. done. }
  destruct (m !! k) as [r|] eqn:Hm; [destruct (c r) eqn:Hc|].
  - apply select_unique; [done| |naive_solver]. unfold at_key. rewrite Hc.
    by rewrite bool_decide_eq_true_2.
  - apply select_None. intros k' r' Hr'. unfold at_key.
    destruct (bool_decide (k' = k)) eqn:Hb; bools; [|done]. simpl. congruence.
  - apply select_None. intros k' r' Hr'. unfold at_key.
    rewrite bool_decide_eq_false_2 by congruence. done.
Qed.

Lemma insert_ignore_lookup clash k r m k' :
  insert_ignore clash k r m !! k' = m !! k' \/
  (k' = k /\ m !! k = None /\ insert_ignore clash k r m !! k' = Some r /\
   forall k0 r0, m !! k0 = Some r0 -> clash r0 = false).
Proof.
  unfold insert_ignore. destruct (m !! k) eqn:Hk; [by left|].
  destruct (select _ m) eqn:Hs; [by left|]. rewrite select_None in Hs.
  destruct (decide (k' = k)) as [->|Hne].
  - right. rewrite lookup_insert_eq. eauto.
  - left. by rewrite lookup_insert_ne.
Qed.

Lemma insert_row_Some clash k r m m' :
  insert_row clash k r m = Some m' ->
  m !! k = None /\ m' = <[k := r]> m /\ forall k0 r0, m !! k0 = Some r0 -> clash r0 = false.
Proof.
  unfold insert_row. destruct (m !! k) eqn:Hk; [done|].
  destruct (select _ m) eqn:Hs; [done|]. rewrite select_None in Hs. naive_solver.
Qed.
End table.

(** * Statements on lists of rows *)

Section rows.
Context {R : Type} `{EqDecision R}.
Implicit Types (t : list R).

(** [INSERT IGNORE] on a table with a unique key. *)
Definition append_ignore (clash : R -> bool) (r : R) t : list R :=
  if existsb clash t then t else t ++ [r].

Definition update_rows (p : R -> bool) (f : R -> R) t : list R :=
  map (fun r => if p r then f r else r) t.

Definition affected_rows (p : R -> bool) (f : R -> R) t : Z :=
  sumZ (fun r => if p r && negb (bool_decide (f r = r)) then 1 else 0) t.
End rows.
