(* ===== verification/GoText.v ===== *)
(** Text functions of Go's standard library that several components use:
    [strconv.ParseInt], [strings.Cut], [strings.TrimPrefix], [strings.Contains],
    [strings.EqualFold] and [base64.RawURLEncoding], with their round trips; and
    [crypto/sha256] with lower-case hexadecimal, from which trade, refund and token
    numbers are derived. *)

From Stdlib Require Import Ascii.
From S2P Require Import Prelude.
Close Scope char_scope.

(** * Characters *)

(** [c] does not occur in [s]. *)
Fixpoint free_of (c : Ascii.ascii) (s : string) : bool :=
  match s with
  | EmptyString => true
  | String d s' => negb (bool_decide (d = c)) && free_of c s'
  end.

Lemma string_app_cons c a b : String c a +:+ b = String c (a +:+ b).
Proof. done. Qed.

Lemma free_of_app c a b : free_of c (a +:+ b) = free_of c a && free_of c b.
Proof.
  induction a as [|d a IH]; [done|]. rewrite string_app_cons. cbn [free_of].
  rewrite IH. by rewrite andb_assoc.
Qed.

(** * strings.Cut

    Around the first occurrence of a one-character separator. *)
Fixpoint cut (sep : Ascii.ascii) (s : string) : option (string * string) :=
  match s with
  | EmptyString => None
  | String c s' =>
      if bool_decide (c = sep) then Some (EmptyString, s')
      else match cut sep s' with
           | Some (before, after) => Some (String c before, after)
           | None => None
           end
  end.

Lemma cut_app sep a b :
  free_of sep a = true -> cut sep (a +:+ String sep b) = Some (a, b).
Proof.
  induction a as [|c a IH]; intros Ha; rewrite ?string_app_cons; cbn [cut free_of] in *.
  - change ("" +:+ String sep b) with (String sep b). cbn [cut]. by rewrite bool_decide_eq_true_2.
  - apply andb_true_iff in Ha as [Hc Ha]. apply negb_true_iff in Hc.
    by rewrite Hc, (IH Ha).
Qed.

Lemma cut_Some sep s a b : cut sep s = Some (a, b) -> s = a +:+ String sep b /\ free_of sep a = true.
Proof.
  revert a b. induction s as [|c s IH]; intros a b; cbn [cut]; [done|].
  destruct (bool_decide (c = sep)) eqn:Hc.
  - intros [= <- <-]. bools. by subst.
  - destruct (cut sep s) as [[x y]|]; [|done]. intros [= <- <-].
    destruct (IH x y eq_refl) as [-> Hf]. rewrite string_app_cons. cbn [free_of]. by rewrite Hc, Hf.
Qed.

Lemma cut_None sep s : free_of sep s = true -> cut sep s = None.
Proof.
  induction s as [|c s IH]; cbn [cut free_of]; [done|]. intros Hs.
  apply andb_true_iff in Hs as [Hc Hs]. apply negb_true_iff in Hc. by rewrite Hc, (IH Hs).
Qed.

(** [strings.TrimPrefix], [strings.HasPrefix], [strings.Contains]. *)
Fixpoint strip_prefix (p s : string) : option string :=
  match p, s with
  | EmptyString, _ => Some s
  | String a p', String b s' => if bool_decide (a = b) then strip_prefix p' s' else None
  | _, _ => None
  end.

Definition has_prefix (s p : string) : bool := bool_decide (is_Some (strip_prefix p s)).
Definition trim_prefix (s p : string) : string := default s (strip_prefix p s).

Fixpoint contains (s sub : string) : bool :=
  has_prefix s sub || match s with EmptyString => false | String _ s' => contains s' sub end.

(** [strings.EqualFold], on ASCII text. *)
Definition equal_fold (a b : string) : bool := str_eqb (to_lower a) (to_lower b).

Lemma strip_prefix_app p s : strip_prefix p (p +:+ s) = Some s.
Proof.
  induction p as [|c p IH]; [done|]. rewrite string_app_cons. cbn [strip_prefix].
  by rewrite bool_decide_eq_true_2.
Qed.

Lemma trim_prefix_app p s : trim_prefix (p +:+ s) p = s.
Proof. unfold trim_prefix. by rewrite strip_prefix_app. Qed.

(** * strconv.ParseInt(s, 10, 64)

    An optional sign and decimal digits, in the range of [int64]; underscores are
    not accepted in an explicit base. *)
Definition digit_value (c : Ascii.ascii) : option Z :=
  let n := Z.of_nat (Ascii.nat_of_ascii c) in
  if (48 <=? n) && (n <=? 57) then Some (n - 48) else None.

Fixpoint digits (s : string) (acc : Z) : option Z :=
  match s with
  | EmptyString => Some acc
  | String c s' => match digit_value c with Some d => digits s' (acc * 10 + d) | None => None end
  end.

Definition unsigned_digits (s : string) : option Z :=
  if is_empty s then None else digits s 0.

Definition in_int64b (z : Z) : bool := (int64_min <=? z) && (z <=? int64_max).

Definition ParseInt (s : string) : option Z :=
  let v :=
    match s with
    | String "-"%char s' => Z.opp <$> unsigned_digits s'
    | String "+"%char s' => unsigned_digits s'
    | _ => unsigned_digits s
    end in
  match v with Some z => if in_int64b z then Some z else None | None => None end.

Lemma in_int64b_true z : in_int64b z = true <-> in_int64 z.
Proof. unfold in_int64b, in_int64. rewrite andb_true_iff, !Z.leb_le. done. Qed.

Lemma ParseInt_range s z : ParseInt s = Some z -> in_int64 z.
Proof.
  unfold ParseInt. destruct (match s with EmptyString => _ | _ => _ end) as [v|]; [|done].
  destruct (in_int64b v) eqn:Hv; [|done]. intros [= <-]. by apply in_int64b_true.
Qed.

(** ** Printing and parsing back *)

(** A property of the ten digits, by evaluation. *)
Lemma digit_cases (P : N -> Prop) `{forall n, Decision (P n)} :
  forallb (fun k => bool_decide (P (N.of_nat k))) (seq 0 10) = true ->
  forall n : N, (n < 10)%N -> P n.
Proof.
  intros Hall n Hn. apply forallb_forall with (x := N.to_nat n) in Hall.
  - apply bool_decide_eq_true in Hall. by rewrite N2Nat.id in Hall.
  - apply in_seq. lia.
Qed.

Lemma digit_value_char (n : N) : (n < 10)%N -> digit_value (pretty_N_char n) = Some (Z.of_N n).
Proof.
  revert n. by refine (digit_cases _ _).
Qed.

Lemma digits_pretty_go (x : N) s : digits (pretty_N_go x s) 0 = digits s (Z.of_N x).
Proof.
  revert s. induction (N.lt_wf_0 x) as [x _ IH]; intros s.
  destruct (decide (0 < x)%N) as [Hx|Hx].
  - rewrite pretty_N_go_step by done.
    rewrite IH by (apply N.div_lt; lia). cbn [digits].
    rewrite digit_value_char by (apply N.mod_lt; lia).
    f_equal. rewrite N2Z.inj_div, N2Z.inj_mod. pose proof (Z.div_mod (Z.of_N x) 10). lia.
  - assert (x = 0)%N as -> by lia. by rewrite pretty_N_go_0.
Qed.

Lemma free_of_pretty_go c (x : N) s :
  (forall n, (n < 10)%N -> bool_decide (pretty_N_char n = c) = false) ->
  free_of c s = true -> free_of c (pretty_N_go x s) = true.
Proof.
  intros Hc. revert s. induction (N.lt_wf_0 x) as [x _ IH]; intros s Hs.
  destruct (decide (0 < x)%N) as [Hx|Hx].
  - rewrite pretty_N_go_step by done. apply IH; [apply N.div_lt; lia|]. cbn [free_of].
    rewrite Hc by (apply N.mod_lt; lia). done.
  - assert (x = 0)%N as -> by lia. by rewrite pretty_N_go_0.
Qed.

Lemma pretty_N_digits (x : N) : unsigned_digits (pretty x) = Some (Z.of_N x).
Proof.
  unfold unsigned_digits. unfold pretty, pretty_N. destruct (decide (x = 0)%N) as [-> |Hx]; [done|].
  rewrite digits_pretty_go. cbn [digits].
  destruct (is_empty (pretty_N_go x "")) eqn:He; [|done].
  apply str_eqb_eq in He. exfalso.
  pose proof (digits_pretty_go x "") as Hd. rewrite He in Hd. cbn in Hd. injection Hd. lia.
Qed.

Lemma unsigned_digits_head c s v :
  unsigned_digits (String c s) = Some v -> is_Some (digit_value c).
Proof. unfold unsigned_digits. cbn. destruct (digit_value c); [by eexists|done]. Qed.

Lemma ParseInt_unsigned s v :
  unsigned_digits s = Some v ->
  ParseInt s = if in_int64b v then Some v else None.
Proof.
  intros Hs. unfold ParseInt.
  destruct s as [|c s]; [done|]. pose proof (unsigned_digits_head c s v Hs) as [d Hd].
  destruct (decide (c = "-"%char)) as [-> |Hm]; [done|].
  destruct (decide (c = "+"%char)) as [-> |Hp]; [done|].
  replace (match c with "-"%char => _ | _ => _ end) with (unsigned_digits (String c s)).
  - by rewrite Hs.
  - destruct c as [[] [] [] [] [] [] [] []]; try done; by exfalso.
Qed.

(** [strconv.ParseInt(fmt.Sprintf("%d", z), 10, 64)] gives [z] back. *)
Lemma ParseInt_itoa z : in_int64 z -> ParseInt (itoa z) = Some z.
Proof.
  intros Hz. apply in_int64b_true in Hz. unfold itoa. destruct z as [|p|p].
  - done.
  - change (pretty (Z.pos p)) with (pretty (N.pos p)).
    rewrite (ParseInt_unsigned _ (Z.pos p)) by apply (pretty_N_digits (N.pos p)). by rewrite Hz.
  - change (pretty (Z.neg p)) with (String "-"%char (pretty (N.pos p))). unfold ParseInt.
    rewrite (pretty_N_digits (N.pos p)). cbn [fmap option_fmap option_map].
    change (- Z.of_N (N.pos p)) with (Z.neg p). by rewrite Hz.
Qed.

Lemma free_of_itoa c z :
  (forall n, (n < 10)%N -> bool_decide (pretty_N_char n = c) = false) ->
  bool_decide ("-"%char = c) = false -> free_of c (itoa z) = true.
Proof.
  intros Hc Hm. assert (forall x : N, free_of c (pretty x) = true) as HN.
  { intros x. unfold pretty, pretty_N. destruct (decide (x = 0)%N).
    - cbn [free_of]. pose proof (Hc 0%N eq_refl) as H0. cbn [pretty_N_char] in H0. by rewrite H0.
    - by apply free_of_pretty_go. }
  unfold itoa. destruct z as [|p|p]; [apply (HN 0%N)|apply (HN (N.pos p))|].
  change (pretty (Z.neg p)) with (String "-"%char (pretty (N.pos p))). cbn [free_of].
  by rewrite Hm, (HN (N.pos p)).
Qed.

Lemma itoa_no_dot z : free_of "."%char (itoa z) = true.
Proof.
  apply free_of_itoa; [|done]. by refine (digit_cases _ _).
Qed.

Lemma itoa_not_empty z : itoa z <> "".
Proof.
  unfold itoa. assert (forall x : N, pretty x <> ""%string) as HN.
  { intros x Hx. pose proof (pretty_N_digits x) as H. by rewrite Hx in H. }
  destruct z as [|p|p]; [done|apply (HN (N.pos p))|done].
Qed.

(** * base64.RawURLEncoding *)

Definition base64_char (n : Z) : Ascii.ascii :=
  let code :=
    if n <? 26 then 65 + n else if n <? 52 then 71 + n else if n <? 62 then n - 4
    else if n =? 62 then 45 else 95 in
  Ascii.ascii_of_nat (Z.to_nat code).

(** Three bytes to four characters; a rest of one or two bytes to two or three. *)
Fixpoint base64_url (l : list Z) : string :=
  let six n := base64_char (Z.land n 63) in
  match l with
  | a :: b :: c :: l' =>
      String (six (Z.shiftr a 2)) (String (six (Z.lor (Z.shiftl a 4) (Z.shiftr b 4)))
        (String (six (Z.lor (Z.shiftl b 2) (Z.shiftr c 6))) (String (six c) (base64_url l'))))
  | [a; b] =>
      String (six (Z.shiftr a 2)) (String (six (Z.lor (Z.shiftl a 4) (Z.shiftr b 4)))
        (String (six (Z.shiftl b 2)) EmptyString))
  | [a] => String (six (Z.shiftr a 2)) (String (six (Z.shiftl a 4)) EmptyString)
  | [] => EmptyString
  end.

Lemma base64_char_no_dot n : 0 <= n < 64 -> base64_char n <> "."%char.
Proof.
  intros Hn. assert (forallb (fun k => negb (bool_decide (base64_char (Z.of_nat k) = "."%char)))
    (seq 0 64) = true) as Hall by (vm_compute; reflexivity).
  rewrite forallb_forall in Hall. specialize (Hall (Z.to_nat n)).
  rewrite in_seq, Z2Nat.id in Hall by lia. intros Hc.
  rewrite bool_decide_eq_true_2 in Hall by done. assert (false = true); [apply Hall; lia|done].
Qed.

Lemma land_63 n : 0 <= Z.land n 63 < 64.
Proof. change 63 with (Z.ones 6). rewrite Z.land_ones by lia. apply Z.mod_pos_bound. lia. Qed.

Lemma base64_no_dot l : free_of "."%char (base64_url l) = true.
Proof.
  assert (forall n, negb (bool_decide (base64_char (Z.land n 63) = "."%char)) = true) as Hd.
  { intros n. apply negb_true_iff, bool_decide_eq_false, base64_char_no_dot, land_63. }
  induction l as [l IH] using (induction_ltof1 _ (@length Z)).
  destruct l as [|a [|b [|c l]]]; cbn [base64_url free_of]; rewrite ?Hd; cbn [andb]; [done..|].
  apply IH. unfold ltof. simpl. lia.
Qed.

Lemma base64_not_empty l : l <> [] -> base64_url l <> "".
Proof. by destruct l as [|a [|b [|c l]]]. Qed.

Example base64_vectors :
  (base64_url <$> [[]; [102]; [102; 111]; [102; 111; 111]; [255; 239; 190]]) =
  [""; "Zg"; "Zm8"; "Zm9v"; "_---"].
Proof. vm_compute. reflexivity. Qed.

Example ParseInt_vectors :
  (ParseInt <$> ["42"; "+7"; "-3"; "007"; ""; "-"; "1_0"; "9223372036854775808"]) =
  [Some 42; Some 7; Some (-3); Some 7; None; None; None; None].
Proof. vm_compute. reflexivity. Qed.

(** * SHA-256 *)

Definition w32 (z : Z) : Z := Z.land z 0xFFFFFFFF.
Definition rotr (n z : Z) : Z := w32 (Z.lor (Z.shiftr z n) (Z.shiftl z (32 - n))).

(** FIPS 180 defines its constants rather than choosing them: the first 32 bits
    of the fractional parts of the cube roots of the first 64 primes, and of the
    square roots of the first eight. *)
Fixpoint primes_from (fuel : nat) (n : Z) (found : list Z) : list Z :=
  match fuel with
  | O => reverse found
  | S fuel' =>
      if forallb (fun p => negb (n mod p =? 0)) found
      then primes_from fuel' (n + 1) (n :: found) else primes_from fuel' (n + 1) found
  end.

(** The largest [x] below [acc + 2 ^ bits] with [x ^ 3 <= n], bit by bit. *)
Fixpoint cube_root (bits : nat) (acc n : Z) : Z :=
  match bits with
  | O => acc
  | S bits' =>
      let x := acc + 2 ^ Z.of_nat bits' in
      cube_root bits' (if x ^ 3 <=? n then x else acc) n
  end.

Definition K256 : list Z :=
  Eval vm_compute in (fun p => w32 (cube_root 36 0 (p * 2 ^ 96))) <$> primes_from 310 2 [].

Definition H256 : list Z :=
  Eval vm_compute in (fun p => w32 (Z.sqrt (p * 2 ^ 64))) <$> primes_from 18 2 [].

Example sha256_constants :
  length K256 = 64%nat /\ nth 63 K256 0 = 0xc67178f2 /\ length H256 = 8%nat.
Proof. vm_compute. repeat split; reflexivity. Qed.

Definition bytes_of_string (s : string) : list Z :=
  (fun c => Z.of_nat (Ascii.nat_of_ascii c)) <$> String.list_ascii_of_string s.

(** Big-endian bytes of [z], [n] of them. *)
Fixpoint be_bytes (n : nat) (z : Z) : list Z :=
  match n with
  | O => []
  | S n' => Z.land (Z.shiftr z (8 * Z.of_nat n')) 255 :: be_bytes n' z
  end.

(** The message, a one bit, zeros, and the bit length in the last eight bytes of
    a 64-byte block. *)
Definition pad (m : list Z) : list Z :=
  let n := length m in
  m ++ 128 :: replicate ((119 - n mod 64) mod 64)%nat 0 ++ be_bytes 8 (8 * Z.of_nat n).

Definition word (l : list Z) : Z := foldl (fun acc b => Z.lor (Z.shiftl acc 8) b) 0 l.

Fixpoint chunks {A} (fuel n : nat) (l : list A) : list (list A) :=
  match fuel, l with
  | S fuel', _ :: _ => take n l :: chunks fuel' n (drop n l)
  | _, _ => []
  end.

(** The message schedule, newest word first: the next one is computed from the
    words 16, 15, 7 and 2 places back. *)
Fixpoint schedule (n : nat) (w : list Z) : list Z :=
  match n with
  | O => w
  | S n' =>
      let w2 := nth 1 w 0 in let w7 := nth 6 w 0 in
      let w15 := nth 14 w 0 in let w16 := nth 15 w 0 in
      let s0 := Z.lxor (Z.lxor (rotr 7 w15) (rotr 18 w15)) (Z.shiftr w15 3) in
      let s1 := Z.lxor (Z.lxor (rotr 17 w2) (rotr 19 w2)) (Z.shiftr w2 10) in
      schedule n' (w32 (s1 + w7 + s0 + w16) :: w)
  end.

Definition round (st : list Z) (kw : Z * Z) : list Z :=
  match st with
  | [a; b; c; d; e; f; g; h] =>
      let S1 := Z.lxor (Z.lxor (rotr 6 e) (rotr 11 e)) (rotr 25 e) in
      let ch := Z.lxor (Z.land e f) (Z.land (Z.lxor e 0xFFFFFFFF) g) in
      let t1 := h + S1 + ch + kw.1 + kw.2 in
      let S0 := Z.lxor (Z.lxor (rotr 2 a) (rotr 13 a)) (rotr 22 a) in
      let maj := Z.lxor (Z.lxor (Z.land a b) (Z.land a c)) (Z.land b c) in
      [w32 (t1 + (S0 + maj)); a; b; c; w32 (d + t1); e; f; g]
  | _ => st
  end.

Definition compress (st block : list Z) : list Z :=
  let w := reverse (schedule 48 (reverse (word <$> chunks 16 4 block))) in
  zip_with (fun a b => w32 (a + b)) st (foldl round st (zip K256 w)).

Definition sha256_bytes (m : list Z) : list Z :=
  let p := pad m in
  foldl compress H256 (chunks (length p) 64 p) ≫= be_bytes 4.

Definition hex_digit (n : Z) : Ascii.ascii :=
  Ascii.ascii_of_nat (Z.to_nat (if n <? 10 then 48 + n else 87 + n)).

Fixpoint hex (l : list Z) : string :=
  match l with
  | [] => EmptyString
  | b :: l' => String (hex_digit (Z.shiftr b 4)) (String (hex_digit (Z.land b 15)) (hex l'))
  end.

(** [sha256.Sum256([]byte(s))] in hexadecimal. *)
Definition sha256_hex (s : string) : string := hex (sha256_bytes (bytes_of_string s)).

(** The test vector of FIPS 180-2. *)
Example sha256_abc :
  sha256_hex "abc" = "ba7816bf8f01cfea414140de5dae2223b00361a396177a9cb410ff61f20015ad".
Proof. vm_compute. reflexivity. Qed.

Example sha256_empty :
  sha256_hex "" = "e3b0c44298fc1c149afbf4c8996fb92427ae41e4649b934ca495991b7852b855".
Proof. vm_compute. reflexivity. Qed.
