(* ===== verification/OrderStore.v ===== *)
(** The order service's storage (scripts/k8s/sql/10-order.sql), its service
    context and the clients it calls (app/order/rpc/internal/svc,
    inventoryclient, paymentprovider), and the SQL statements shared by its
    handlers (refundstate.go, the outbox inserts of job/outbox_publisher.go). *)

From S2P Require Import Prelude Effects Sql Common.

(** * Tables *)

(** [orders], keyed by [id]. *)
Record Order := mkOrder {
  o_request_id : string; o_user_id : Z; o_merchant_id : Z; o_product_id : Z; o_amount : Z;
  o_status : Z; shipped_at : option Z; completed_at : option Z;
  refund_requested_at : option Z; refunded_at : option Z; o_update_time : Z
}.

(** [order_price_snapshot], keyed by [order_id]. *)
Record PriceSnapshot := mkSnapshot {
  s_product_id : Z; s_merchant_id : Z; s_supplier_id : Z; s_product_name : string;
  s_product_image_url : string; s_amount : Z; s_origin_unit_price_fen : Z;
  s_sale_unit_price_fen : Z; s_payable_amount_fen : Z; s_discount_amount_fen : Z;
  s_promotion_type : string; s_promotion_tag : string
}.

(** The decoded JSON body of a paid callback (markorderpaidlogic.go). *)
Record paymentCallbackPayload := mkPayload {
  TradeStatus : string; Provider : string; EventID : string; PaidAmountFen : Z;
  ProviderTradeNo : string
}.

(** A [callback_body] string up to JSON decoding: empty, text that does not
    decode, or a document with these fields. *)
Inductive callback_body :=
| NoBody
| BadJSON
| JSONBody (p : paymentCallbackPayload).

(** The channel columns and the two inventory follow-up groups of
    [payment_order]: finalize (after payment) and release (after closing). *)
Record channel := mkChannel {
  provider : string; provider_trade_no : string; provider_qr_url : string;
  provider_status : string; expires_at : option Z
}.

Record follow_up := mkFollowUp {
  fu_status : Z; fu_attempts : Z; fu_error : string; fu_at : option Z
}.

(** [payment_order], keyed by [id]; unique [order_id] and [out_trade_no]. *)
Record PaymentOrder := mkPayment {
  p_order_id : string; p_user_id : Z; p_payable_amount_fen : Z; p_status : Z;
  p_out_trade_no : string; p_channel : channel; p_paid_at : option Z;
  p_callback_payload : callback_body; p_finalize : follow_up; p_release : follow_up;
  p_update_time : Z
}.

(** [refund_order], keyed by [id]; unique [order_id]. *)
Record RefundOrder := mkRefund {
  r_order_id : string; r_payment_order_id : string; r_user_id : Z; r_merchant_id : Z;
  r_product_id : Z; r_refund_amount_fen : Z; r_status : Z; r_reason : string;
  r_audit_remark : string; r_operator_id : Z; r_provider : string;
  r_provider_refund_id : string; r_provider_status : string; r_provider_error : string;
  r_audit_time : option Z; r_finish_time : option Z
}.

(** [order_status_log], oldest first. *)
Record StatusLog := mkLog {
  l_order_id : string; l_from_status : Z; l_to_status : Z; l_operator_id : Z; l_remark : string
}.

(** A JSON object with scalar members. *)
Inductive jval := JString (s : string) | JNumber (z : Z).
Definition json_object := gmap string jval.

(** [order_outbox], oldest first: the row's [id] is its position; unique
    [event_id]. *)
Record OutboxRow := mkOutbox {
  event_id : string; event_type : string; aggregate_id : string; ob_payload : json_object;
  ob_status : Z; attempt_count : Z; next_retry_at : Z; published_at : option Z;
  last_error : string; ob_update_time : Z
}.

(** [payment_callback_event], oldest first; unique [(provider, event_id)]. *)
Record CallbackEvent := mkEvent {
  ev_provider : string; ev_event_id : string; ev_payment_order_id : string;
  ev_order_id : string; ev_out_trade_no : string; ev_paid_amount_fen : Z;
  ev_process_status : string; ev_error_message : string; ev_raw_payload : callback_body
}.

#[export] Instance Order_eq_dec : EqDecision Order.
Proof. solve_decision. Defined.
#[export] Instance paymentCallbackPayload_eq_dec : EqDecision paymentCallbackPayload.
Proof. solve_decision. Defined.
#[export] Instance callback_body_eq_dec : EqDecision callback_body.
Proof. solve_decision. Defined.
#[export] Instance channel_eq_dec : EqDecision channel.
Proof. solve_decision. Defined.
#[export] Instance follow_up_eq_dec : EqDecision follow_up.
Proof. solve_decision. Defined.
#[export] Instance PaymentOrder_eq_dec : EqDecision PaymentOrder.
Proof. solve_decision. Defined.
#[export] Instance RefundOrder_eq_dec : EqDecision RefundOrder.
Proof. solve_decision. Defined.
#[export] Instance jval_eq_dec : EqDecision jval.
Proof. solve_decision. Defined.
#[export] Instance PriceSnapshot_eq_dec : EqDecision PriceSnapshot.
Proof. solve_decision. Defined.

(** The database; [product_merchant] is [mall_product.product.merchant_id]. *)
Record DB := mkDB {
  orders : gmap string Order;
  snapshots : gmap string PriceSnapshot;
  payments : gmap string PaymentOrder;
  refunds : gmap string RefundOrder;
  status_log : list StatusLog;
  outbox : list OutboxRow;
  callback_events : list CallbackEvent;
  product_merchant : gmap Z (option Z)
}.

Definition empty_db : DB := mkDB ∅ ∅ ∅ ∅ [] [] [] ∅.

Definition with_orders (t : gmap string Order) (d : DB) : DB :=
  mkDB t (snapshots d) (payments d) (refunds d) (status_log d) (outbox d) (callback_events d)
    (product_merchant d).
Definition with_snapshots (t : gmap string PriceSnapshot) (d : DB) : DB :=
  mkDB (orders d) t (payments d) (refunds d) (status_log d) (outbox d) (callback_events d)
    (product_merchant d).
Definition with_payments (t : gmap string PaymentOrder) (d : DB) : DB :=
  mkDB (orders d) (snapshots d) t (refunds d) (status_log d) (outbox d) (callback_events d)
    (product_merchant d).
Definition with_refunds (t : gmap string RefundOrder) (d : DB) : DB :=
  mkDB (orders d) (snapshots d) (payments d) t (status_log d) (outbox d) (callback_events d)
    (product_merchant d).
Definition with_status_log (t : list StatusLog) (d : DB) : DB :=
  mkDB (orders d) (snapshots d) (payments d) (refunds d) t (outbox d) (callback_events d)
    (product_merchant d).
Definition with_outbox (t : list OutboxRow) (d : DB) : DB :=
  mkDB (orders d) (snapshots d) (payments d) (refunds d) (status_log d) t (callback_events d)
    (product_merchant d).
Definition with_callback_events (t : list CallbackEvent) (d : DB) : DB :=
  mkDB (orders d) (snapshots d) (payments d) (refunds d) (status_log d) (outbox d) t
    (product_merchant d).

Definition with_product_merchant (t : gmap Z (option Z)) (d : DB) : DB :=
  mkDB (orders d) (snapshots d) (payments d) (refunds d) (status_log d) (outbox d)
    (callback_events d) t.

(** * Clients *)

(** [inventoryclient.Client]. *)
Class InventoryClient (X : Type) := {
  inv_ReserveStock : string -> Z -> Z -> X -> X * res error unit;
  inv_ConfirmDeduct : string -> X -> X * res error unit;
  inv_ReleaseStock : string -> string -> X -> X * res error unit
}.

Definition NameLocalSandbox : string := "local_sandbox".
Definition NameAlipaySandbox : string := "alipay_sandbox".

Record PrecreateRequest := mkPrecreate {
  pr_OutTradeNo : string; pr_Subject : string; pr_AmountFen : Z; pr_ExpireMinutes : Z
}.
Record QueryResult := mkQuery { q_TradeNo : string; q_Status : string; q_AmountFen : Z }.
Record RefundRequest := mkRefundReq {
  rr_OutTradeNo : string; rr_RefundID : string; rr_AmountFen : Z; rr_Reason : string
}.
Record Notification := mkNotification {
  n_EventID : string; n_OutTradeNo : string; n_TradeNo : string; n_TradeStatus : string;
  n_AmountFen : Z
}.

(** [paymentprovider.Provider]: the QR code of a precreate, the status of a
    refund.  [VerifyNotification] checks a notification's form values. *)
Class PaymentProvider (X : Type) := {
  pp_Name : string;
  pp_Precreate : PrecreateRequest -> X -> X * res error string;
  pp_Query : string -> X -> X * res error QueryResult;
  pp_Close : string -> X -> X * res error unit;
  pp_Refund : RefundRequest -> X -> X * res error string;
  pp_VerifyNotification : list (string * string) -> res error Notification
}.

(** [svc.ServiceContext]: which optional clients are configured, and the
    configuration the handlers read. *)
Record ServiceContext := mkSvc {
  has_sql : bool; has_inventory : bool; has_provider : bool; has_product_rpc : bool;
  RequireInventoryReserve : bool; PaymentExpireMinutes : Z; PaymentFinalizeBatchSize : Z;
  StockShardCount : Z
}.

(** The error of a remote call whose reply does not arrive. *)
Definition call_failed : error := OtherError "context deadline exceeded".

(** * Statements *)

Section statements.
Context {X : Type}.

Definition raw_db (e : error) : M DB X error unit := sql (fun d => (d, tt)) e.

(** A query: the database is unchanged. *)
Definition query {A} (f : DB -> A) (e : error) : M DB X error A := sql (fun d => (d, f d)) e.

Definition exec_orders (p : string -> Order -> bool) (f : Z -> Order -> Order) (e : error)
  : M DB X error Z :=
  t <- get_now ;;
  sql (fun d => (with_orders (upd p (f t) (orders d)) d, affected p (f t) (orders d))) e.

Definition exec_payments (p : string -> PaymentOrder -> bool)
  (f : Z -> PaymentOrder -> PaymentOrder) (e : error) : M DB X error Z :=
  t <- get_now ;;
  sql (fun d => (with_payments (upd p (f t) (payments d)) d, affected p (f t) (payments d))) e.

Definition exec_refunds (p : string -> RefundOrder -> bool)
  (f : Z -> RefundOrder -> RefundOrder) (e : error) : M DB X error Z :=
  t <- get_now ;;
  sql (fun d => (with_refunds (upd p (f t) (refunds d)) d, affected p (f t) (refunds d))) e.

Definition insert_log (r : StatusLog) (e : error) : M DB X error unit :=
  sql (fun d => (with_status_log (status_log d ++ [r]) d, tt)) e.

(** [if rows, err := result.RowsAffected(); err != nil || rows != 1 { return ... }]. *)
Definition one_row (rows : Z) (e : error) : M DB X error unit := require (rows =? 1) e.

(** The connection is there and nothing has changed, or the call fails. *)
Lemma raw_db_cases (e : error) (s : env DB X) :
  exists s1 r, raw_db e s = (s1, r) /\ db s1 = db s /\ now s1 = now s /\ ext s1 = ext s /\
    (r = Ok tt \/ r = Err e) /\ (no_faults s -> s1 = s /\ r = Ok tt).
Proof.
  destruct s as [d x t fs]. unfold raw_db, sql, pop_fault, no_faults. simpl.
  destruct fs as [|[] fs]; simpl; do 2 eexists; (split; [reflexivity|]); repeat split; auto;
    by intros.
Qed.

(** ** refundstate.go *)

Definition insertRefundStatusLog (orderID : string) (fromStatus toStatus operatorID : Z)
  (remark : string) : M DB X error unit :=
  insert_log (mkLog orderID fromStatus toStatus operatorID remark) DbError.

(** [INSERT ... ON DUPLICATE KEY UPDATE status=0, next_retry_at=NOW(), last_error='']. *)
Definition requeue (now : Z) (r : OutboxRow) : OutboxRow :=
  mkOutbox (event_id r) (event_type r) (aggregate_id r) (ob_payload r) 0 (attempt_count r)
    now (published_at r) "" now.

Definition upsert_outbox (row : OutboxRow) (d : DB) : DB :=
  let same := fun r => str_eqb (event_id r) (event_id row) in
  if existsb same (outbox d)
  then with_outbox (update_rows same (requeue (next_retry_at row)) (outbox d)) d
  else with_outbox (outbox d ++ [row]) d.

Definition insertRefundOutbox (eventType refundID orderID : string) (payload : json_object)
  : M DB X error unit :=
  let eventID := eventType +:+ ":" +:+ refundID in
  let payload := <["event_id" := JString eventID]> (<["event_type" := JString eventType]>
    (<["refund_id" := JString refundID]> (<["order_id" := JString orderID]> payload))) in
  t <- get_now ;;
  sql (fun d => (upsert_outbox (mkOutbox eventID eventType orderID payload 0 0 t None "" t) d, tt))
    DbError.

(** ** Outbox inserts of job/outbox_publisher.go *)

Definition order_paid_event_id (orderID : string) : string := "order.paid:" +:+ orderID.
Definition order_created_event_id (orderID : string) : string := "order.created:" +:+ orderID.

Definition insert_outbox_ignore (r : OutboxRow) (d : DB) : DB :=
  with_outbox (append_ignore (fun r' => str_eqb (event_id r') (event_id r)) r (outbox d)) d.

Definition InsertOrderCreatedOutbox (orderID : string) (payload : json_object)
  : M DB X error unit :=
  t <- get_now ;;
  sql (fun d => (insert_outbox_ignore (mkOutbox (order_created_event_id orderID) "order.created"
    orderID payload 0 0 t None "" t) d, tt)) DbError.

Definition InsertOrderPaidOutbox (orderID : string) (e : error) : M DB X error unit :=
  let payload : json_object := <["event_id" := JString (order_paid_event_id orderID)]>
    (<["event_type" := JString "order.paid"]> (<["order_id" := JString orderID]> ∅)) in
  t <- get_now ;;
  sql (fun d => (insert_outbox_ignore (mkOutbox (order_paid_event_id orderID) "order.paid"
    orderID payload 0 0 t None "" t) d, tt)) e.
End statements.

(** ** Row updates used by several handlers *)

Definition set_status (st now : Z) (o : Order) : Order :=
  mkOrder (o_request_id o) (o_user_id o) (o_merchant_id o) (o_product_id o) (o_amount o) st
    (shipped_at o) (completed_at o) (refund_requested_at o) (refunded_at o) now.

Definition set_refund_requested_at (v : option Z) (o : Order) : Order :=
  mkOrder (o_request_id o) (o_user_id o) (o_merchant_id o) (o_product_id o) (o_amount o)
    (o_status o) (shipped_at o) (completed_at o) v (refunded_at o) (o_update_time o).

Definition set_refunded_at (v : option Z) (o : Order) : Order :=
  mkOrder (o_request_id o) (o_user_id o) (o_merchant_id o) (o_product_id o) (o_amount o)
    (o_status o) (shipped_at o) (completed_at o) (refund_requested_at o) v (o_update_time o).

Definition with_channel (c : channel) (now : Z) (p : PaymentOrder) : PaymentOrder :=
  mkPayment (p_order_id p) (p_user_id p) (p_payable_amount_fen p) (p_status p)
    (p_out_trade_no p) c (p_paid_at p) (p_callback_payload p) (p_finalize p) (p_release p) now.

Definition set_p_status (st : Z) (p : PaymentOrder) : PaymentOrder :=
  mkPayment (p_order_id p) (p_user_id p) (p_payable_amount_fen p) st
    (p_out_trade_no p) (p_channel p) (p_paid_at p) (p_callback_payload p) (p_finalize p)
    (p_release p) (p_update_time p).

Definition set_provider_status (v : string) (c : channel) : channel :=
  mkChannel (provider c) (provider_trade_no c) (provider_qr_url c) v (expires_at c).

(** [status=closed, provider_status=CASE WHEN provider='alipay_sandbox' ...]. *)
Definition close_payment (now : Z) (p : PaymentOrder) : PaymentOrder :=
  let st := if str_eqb (provider (p_channel p)) "alipay_sandbox" then "TRADE_CLOSED"
            else "CLOSED" in
  set_p_status paymentstatus.Closed (with_channel (set_provider_status st (p_channel p)) now p).

(** [x_status=2, x_attempts=x_attempts+1, x_error=msg] and
    [x_status=1, x_attempts=x_attempts+1, x_error='', x_at=NOW()]. *)
Definition follow_up_failed (msg : string) (u : follow_up) : follow_up :=
  mkFollowUp 2 (fu_attempts u + 1) msg (fu_at u).
Definition follow_up_done (now : Z) (u : follow_up) : follow_up :=
  mkFollowUp 1 (fu_attempts u + 1) "" (Some now).

Definition set_finalize (g : follow_up -> follow_up) (now : Z) (p : PaymentOrder) : PaymentOrder :=
  mkPayment (p_order_id p) (p_user_id p) (p_payable_amount_fen p) (p_status p)
    (p_out_trade_no p) (p_channel p) (p_paid_at p) (p_callback_payload p) (g (p_finalize p))
    (p_release p) now.
Definition set_release (g : follow_up -> follow_up) (now : Z) (p : PaymentOrder) : PaymentOrder :=
  mkPayment (p_order_id p) (p_user_id p) (p_payable_amount_fen p) (p_status p)
    (p_out_trade_no p) (p_channel p) (p_paid_at p) (p_callback_payload p) (p_finalize p)
    (g (p_release p)) now.

Definition for_order (orderID : string) : string -> PaymentOrder -> bool :=
  fun _ p => str_eqb (p_order_id p) orderID.

Definition refundIDForOrder (orderID : string) : string := "rf:" +:+ orderID.

(** [trimRefundError], [shortRecoveryError]: the trimmed text, at most 255 bytes. *)
Definition trimRefundError (e : error) : string := truncate_at 255 (trim_space (error_text e)).
Definition shortRecoveryError (e : error) : string := truncate_at 255 (trim_space (error_text e)).
(** [shortPaymentError]: not trimmed. *)
Definition shortPaymentError (e : error) : string := truncate_at 255 (error_text e).

#[export] Hint Unfold raw_db query exec_orders exec_payments exec_refunds insert_log one_row
  insertRefundStatusLog insertRefundOutbox InsertOrderCreatedOutbox InsertOrderPaidOutbox
  : faithful.
