(* ===== verification/InventoryKitex.v ===== *)
(** The inventory service's remote interface: the Kitex handler
    (app/inventory/kitex/handler.go) in front of the domain service, and the
    order service's client of it (app/order/rpc/internal/inventoryclient), which
    give the order service an [InventoryClient] over any stock repository. *)

From S2P Require Import Prelude Common StockRepository Effects Sql OrderStore.
Import apperror domain.

(** * Business exceptions *)

(** [common.ErrorCode] of the IDL. *)
Definition ErrorCode_INVALID_ARGUMENT : Z := 1001.
Definition ErrorCode_INTERNAL : Z := 1007.
Definition ErrorCode_STOCK_NOT_FOUND : Z := 3001.
Definition ErrorCode_STOCK_INSUFFICIENT : Z := 3002.

Definition toIDLCode (code : Code) : Z :=
  match code with
  | CodeInvalidArgument => ErrorCode_INVALID_ARGUMENT
  | CodeUnauthorized => 1002
  | CodeForbidden => 1003
  | CodeNotFound => 1004
  | CodeConflict => 1005
  | CodeTooManyRequests => 1006
  | CodeProductNotFound => 2001
  | CodeProductOffShelf => 2002
  | CodeStockNotFound => ErrorCode_STOCK_NOT_FOUND
  | CodeStockInsufficient => ErrorCode_STOCK_INSUFFICIENT
  | CodeStockReserveFailed => 3003
  | CodeStockReconcileFailed => 3004
  | CodeOrderNotFound => 4001
  | CodeOrderStatusInvalid => 4002
  | CodeOrderCreateFailed => 4003
  | CodeOrderAlreadyPaid => 4004
  | CodePaymentStatusInvalid => 5001
  | CodePaymentFailed => 5002
  | CodeRefundNotAllowed => 6001
  | CodeRefundNotFound => 6002
  | CodeRefundStatusInvalid => 6003
  | CodeMerchantNotFound => 7001
  | CodeMerchantNotBound => 7002
  | CodeMerchantApplyPending => 7003
  | CodeMerchantApplyRejected => 7004
  | _ => ErrorCode_INTERNAL
  end.

Record BizException := mkBiz { biz_Code : Z; biz_Message : string; biz_RequestId : option string }.

(** [common.RequestMeta]; its fields are optional. *)
Record RequestMeta := mkRequestMeta {
  rm_RequestId : option string; rm_TraceId : option string; rm_UserId : option Z;
  rm_MerchantId : option Z; rm_Role : option string
}.

Definition toBizException (err : Error) (meta : option RequestMeta) : BizException :=
  mkBiz (toIDLCode (err_code err)) (err_message err)
    (match meta with Some m => rm_RequestId m | None => None end).

Definition stockChangeMeta (meta : option RequestMeta) (reason : string) : StockChangeMeta :=
  match meta with
  | None => mkMeta "" reason "" "" 0 0 ""
  | Some m => mkMeta "" reason (default "" (rm_RequestId m)) (default "" (rm_TraceId m))
                (default 0 (rm_UserId m)) (default 0 (rm_MerchantId m)) (default "" (rm_Role m))
  end.

(** * The handler *)

Definition to_biz {S A} (meta : option RequestMeta) (r : S * res Error A) : S * res BizException A :=
  let '(s, x) := r in (s, match x with Ok a => Ok a | Err e => Err (toBizException e meta) end).

Section handler.
Context {S : Type} `{StockRepository S} (svc : service.Service).

Definition GetStock (meta : option RequestMeta) (productID : Z) (s : S) : S * res BizException Stock :=
  to_biz meta (service.GetStock svc productID s).

Definition BatchGetStock (meta : option RequestMeta) (productIDs : list Z) (s : S)
  : S * res BizException (list Stock) := to_biz meta (service.BatchGetStock svc productIDs s).

Definition SeedStock (meta : option RequestMeta) (productID total shardCount : Z) (s : S)
  : S * res BizException unit := to_biz meta (service.SeedStock svc productID total shardCount s).

Definition AdjustStock (meta : option RequestMeta) (productID delta bucketIdx : Z)
  (reason : string) (s : S) : S * res BizException (Stock * Stock) :=
  to_biz meta (service.AdjustStock svc productID delta bucketIdx (stockChangeMeta meta reason) s).

Definition ReserveStock (meta : option RequestMeta) (orderID : string) (productID quantity : Z)
  (s : S) : S * res BizException unit :=
  to_biz meta (service.ReserveStock svc orderID productID quantity
                 (stockChangeMeta meta "reserve stock") s).

Definition ConfirmDeduct (meta : option RequestMeta) (orderID : string) (s : S)
  : S * res BizException unit :=
  to_biz meta (service.ConfirmDeduct svc orderID (stockChangeMeta meta "confirm stock deduct") s).

Definition ReleaseStock (meta : option RequestMeta) (orderID : string) (reason : option string)
  (s : S) : S * res BizException unit :=
  let reason := default "" reason in
  to_biz meta (service.ReleaseStock svc orderID reason (stockChangeMeta meta reason) s).

Definition ReconcileStock (meta : option RequestMeta) (productID : Z) (s : S)
  : S * res BizException (Stock * Stock * bool) :=
  to_biz meta (service.ReconcileStock svc productID (stockChangeMeta meta "reconcile stock") s).

Definition GetRuntimeState (s : S) : S * res BizException service.RuntimeState :=
  match service.CheckRuntime svc s with
  | (s, Err e) => (s, Err (toBizException e None))
  | (s, Ok _) => (s, Ok (service.GetRuntimeState svc))
  end.
End handler.

(** * The order service's client *)

Definition toOrderStatusError (biz : BizException) : error :=
  if biz_Code biz =? ErrorCode_INVALID_ARGUMENT then StatusError InvalidArgument (biz_Message biz)
  else if biz_Code biz =? ErrorCode_STOCK_NOT_FOUND then
    StatusError FailedPrecondition (biz_Message biz)
  else if biz_Code biz =? ErrorCode_STOCK_INSUFFICIENT then
    StatusError Aborted (biz_Message biz)
  else StatusError Internal (biz_Message biz).

Definition to_status {S A} (r : S * res BizException A) : S * res error A :=
  let '(s, x) := r in (s, match x with Ok a => Ok a | Err e => Err (toOrderStatusError e) end).

(** [KitexClient] over the handler; [meta] is the metadata [requestMeta] takes
    from the caller's context. *)
Section client.
Context {S : Type} `{StockRepository S} (svc : service.Service) (meta : RequestMeta).

Definition kitex_client : InventoryClient S := {|
  inv_ReserveStock orderID productID quantity s :=
    to_status (ReserveStock svc (Some meta) orderID productID quantity s);
  inv_ConfirmDeduct orderID s := to_status (ConfirmDeduct svc (Some meta) orderID s);
  inv_ReleaseStock orderID reason s :=
    to_status (ReleaseStock svc (Some meta) orderID
                 (if is_empty reason then None else Some reason) s)
|}.
End client.

(** * What the client keeps *)

(** An inventory client promises an invariant of its system: the interface
    against which the order service's effect on the inventory is proved. *)
Class InventoryClientLaws (X : Type) `{InventoryClient X} (inv : X -> Prop) := {
  client_reserve o p q x : in_int64 q -> inv x -> inv (inv_ReserveStock o p q x).1;
  client_confirm o x : inv x -> inv (inv_ConfirmDeduct o x).1;
  client_release o r x : inv x -> inv (inv_ReleaseStock o r x).1
}.

Lemma to_status_biz {S A} meta (r : S * res Error A) : (to_status (to_biz meta r)).1 = r.1.
Proof. by destruct r as [s [a|e]]. Qed.

Lemma kitex_client_laws {S} `{StockRepository S} (inv : S -> Prop) `{!StockRepositoryLaws S inv}
  svc meta : @InventoryClientLaws S (kitex_client svc meta) inv.
Proof.
  split; intros; simpl;
    unfold ReserveStock, ConfirmDeduct, ReleaseStock; rewrite to_status_biz.
  - by apply (service.run_call_inv svc (service.CallReserve o p q _)).
  - by apply (service.run_call_inv svc (service.CallConfirm o _)).
  - by apply (service.run_call_inv svc (service.CallRelease o _ _)).
Qed.

(** Errors keep their meaning across the wire: the order service sees an
    invalid argument, an unknown product and insufficient stock as the three
    distinct gRPC codes the saga distinguishes, with the domain's message, and
    every other business error as an internal one. *)
Theorem error_codes_cross_the_wire code message cause meta :
  let e := toOrderStatusError (toBizException (mkError code message cause) meta) in
  e = StatusError (match code with
                   | CodeInvalidArgument => InvalidArgument
                   | CodeStockNotFound => FailedPrecondition
                   | CodeStockInsufficient => Aborted
                   | _ => Internal
                   end) message.
Proof. by destruct code. Qed.
