(* ===== verification/OrderLifecycle.v ===== *)
(** Order commands (app/order/rpc/internal/logic/orderlifecyclelogic.go): the
    guarded status transition every command runs, cancelling, closing, shipping
    and confirming receipt, and the provider and inventory calls around them. *)

From S2P Require Import Prelude Effects Sql Common OrderStore.

(** * The transition *)

Record lifecycleTransition := mkTransition {
  lt_orderID : string; ownerColumn : string; ownerID : Z; operatorID : Z; fromStatus : Z;
  toStatus : Z; timestampKind : string; lt_remark : string; closePayment : bool
}.

Record lifecycleResult := mkLifecycle { lr_repeated : bool; lr_status : Z }.

(** The SET clause and the extra condition of the UPDATE. *)
Definition lifecycleUpdate (command : lifecycleTransition)
  : res error ((Order -> bool) * (Z -> Order -> Order)) :=
  let? set := (
    if str_eqb (timestampKind command) "" then Ok (set_status (toStatus command))
    else if str_eqb (timestampKind command) "shipped" then
      Ok (fun now o => mkOrder (o_request_id o) (o_user_id o) (o_merchant_id o) (o_product_id o)
            (o_amount o) (toStatus command) (Some now) (completed_at o) (refund_requested_at o)
            (refunded_at o) now)
    else if str_eqb (timestampKind command) "completed" then
      Ok (fun now o => mkOrder (o_request_id o) (o_user_id o) (o_merchant_id o) (o_product_id o)
            (o_amount o) (toStatus command) (shipped_at o) (Some now) (refund_requested_at o)
            (refunded_at o) now)
    else Err (StatusError Internal "invalid order transition timestamp")) in
  let cond := fun o => o_status o =? fromStatus command in
  let cond := if str_eqb (ownerColumn command) "merchant_id"
              then fun o => (o_merchant_id o =? ownerID command) && cond o else cond in
  Ok (cond, set).

(** The condition the ownership scope adds to the SELECT. *)
Definition owner_scope (command : lifecycleTransition) : res error (Order -> bool) :=
  if str_eqb (ownerColumn command) "user_id" then Ok (fun o => o_user_id o =? ownerID command)
  else if str_eqb (ownerColumn command) "merchant_id" then
    Ok (fun o => o_merchant_id o =? ownerID command)
  else if str_eqb (ownerColumn command) "" then Ok (fun _ => true)
  else Err (StatusError Internal "invalid order ownership scope").

Section lifecycle.
Context {X : Type} `{InventoryClient X} `{PaymentProvider X}.
Abbreviation M := (M DB X error).

Definition lifecycle_body (command : lifecycleTransition) : M (txend error lifecycleResult) :=
  scope <- of_res (owner_scope command) ;;
  row <- query (fun d => select (at_key (lt_orderID command) scope) (orders d))
           (StatusError Internal "query order status failed") ;;
  match row with
  | None => throw (StatusError NotFound "order not found")
  | Some (_, o) =>
      let currentStatus := o_status o in
      if currentStatus =? toStatus command then
        ret (Commit (StatusError Internal "commit repeated order command failed")
               (mkLifecycle true currentStatus))
      else if negb (currentStatus =? fromStatus command) then
        throw (StatusError FailedPrecondition "order status does not allow this command")
      else
        ' (cond, set) <- of_res (lifecycleUpdate command) ;;
        rows <- exec_orders (at_key (lt_orderID command) cond) set
                  (StatusError Internal "update order status failed") ;;
        one_row rows (StatusError Aborted "order status changed concurrently") ;;;
        (if closePayment command then
           exec_payments (fun k p => for_order (lt_orderID command) k p &&
                                     (p_status p =? paymentstatus.Init)) close_payment
             (StatusError Internal "close payment order failed") ;;; ret tt
         else ret tt) ;;;
        insert_log (mkLog (lt_orderID command) (fromStatus command) (toStatus command)
                      (operatorID command) (lt_remark command))
          (StatusError Internal "insert order status log failed") ;;;
        ret (Commit (StatusError Internal "commit order command failed")
               (mkLifecycle false (toStatus command)))
  end.

Definition executeLifecycleTransition (svcCtx : ServiceContext) (command : lifecycleTransition)
  : M lifecycleResult :=
  require (has_sql svcCtx) (StatusError Unavailable "order datasource is not configured") ;;;
  raw_db (StatusError Unavailable "order datasource is unavailable") ;;;
  run_tx (StatusError Internal "begin order transaction failed") (lifecycle_body command).

(** * Calls around the transition *)

Definition releaseClosedOrder (svcCtx : ServiceContext) (orderID reason : string) : M unit :=
  require (has_inventory svcCtx)
    (StatusError Unavailable "inventory client is not configured") ;;;
  r <- attempt (call (inv_ReleaseStock orderID reason) call_failed) ;;
  match r with
  | Err err =>
      ignore (exec_payments (for_order orderID)
                (set_release (follow_up_failed (trimRefundError err))) DbError) ;;;
      throw (StatusError Unavailable "release order stock failed; retry the same command")
  | Ok _ =>
      exec_payments (for_order orderID) (fun now => set_release (follow_up_done now) now)
        (StatusError Internal "record inventory release success failed") ;;; ret tt
  end.

Definition closeProviderPayment (svcCtx : ServiceContext) (orderID : string) : M unit :=
  if negb (has_provider svcCtx) then ret tt
  else
    raw_db (StatusError Unavailable "payment datasource is unavailable") ;;;
    row <- query (fun d => select (for_order orderID) (payments d))
             (StatusError Unavailable "query provider payment failed") ;;
    match row with
    | None => throw (StatusError Unavailable "query provider payment failed")
    | Some (_, p) =>
        if negb (str_eqb (provider (p_channel p)) NameAlipaySandbox) ||
           str_eqb (provider_status (p_channel p)) "TRADE_CLOSED" then ret tt
        else
          r <- attempt (call (pp_Close (p_out_trade_no p)) call_failed) ;;
          match r with
          | Err _ => throw (StatusError Unavailable "close provider payment failed")
          | Ok _ => ret tt
          end
    end.

(** * Commands

    The request messages carry their fields; a missing message is [None]. *)
Record CancelUserOrderReq := mkCancelReq {
  cu_OrderId : string; cu_UserId : Z; cu_Reason : string
}.
Record CloseAdminOrderReq := mkCloseReq {
  ca_OrderId : string; ca_OperatorId : Z; ca_Reason : string
}.
Record ShipAdminOrderReq := mkShipAdminReq { sa_OrderId : string; sa_OperatorId : Z }.
Record ShipMerchantOrderReq := mkShipMerchantReq { sm_OrderId : string; sm_MerchantId : Z }.
Record ConfirmReceiptReq := mkConfirmReq { cr_OrderId : string; cr_UserId : Z }.

Record OrderCommandResp := mkCommandResp {
  oc_OrderId : string; oc_OrderStatus : Z; oc_Repeated : bool
}.

Definition lifecycleResponse (orderID : string) (r : lifecycleResult) : OrderCommandResp :=
  mkCommandResp orderID (lr_status r) (lr_repeated r).

Definition missing (orderID : string) (id : Z) : bool :=
  is_empty (trim_space orderID) || (id <=? 0).

Definition cancel_command (orderID : string) (userID : Z) (reason : string)
  : lifecycleTransition :=
  mkTransition orderID "user_id" userID userID orderstatus.PendingPayment orderstatus.Closed ""
    ("user cancelled: " +:+ reason) true.

Definition CancelUserOrder (svcCtx : ServiceContext) (in_ : option CancelUserOrderReq)
  : M OrderCommandResp :=
  let bad := StatusError InvalidArgument "order_id and user_id are required" in
  match in_ with
  | None => throw bad
  | Some in_ =>
      require (negb (missing (cu_OrderId in_) (cu_UserId in_))) bad ;;;
      let reason := trim_space (cu_Reason in_) in
      let reason := if is_empty reason then "user cancel" else reason in
      closeProviderPayment svcCtx (cu_OrderId in_) ;;;
      result <- executeLifecycleTransition svcCtx
                  (cancel_command (cu_OrderId in_) (cu_UserId in_) reason) ;;
      releaseClosedOrder svcCtx (cu_OrderId in_) reason ;;;
      ret (lifecycleResponse (cu_OrderId in_) result)
  end.

Definition close_command (orderID : string) (operatorID : Z) (reason : string)
  : lifecycleTransition :=
  mkTransition orderID "" 0 operatorID orderstatus.PendingPayment orderstatus.Closed ""
    ("admin closed: " +:+ reason) true.

Definition CloseAdminOrder (svcCtx : ServiceContext) (in_ : option CloseAdminOrderReq)
  : M OrderCommandResp :=
  let bad := StatusError InvalidArgument "order_id and operator_id are required" in
  match in_ with
  | None => throw bad
  | Some in_ =>
      require (negb (missing (ca_OrderId in_) (ca_OperatorId in_))) bad ;;;
      let reason := trim_space (ca_Reason in_) in
      let reason := if is_empty reason then "admin close" else reason in
      closeProviderPayment svcCtx (ca_OrderId in_) ;;;
      result <- executeLifecycleTransition svcCtx
                  (close_command (ca_OrderId in_) (ca_OperatorId in_) reason) ;;
      releaseClosedOrder svcCtx (ca_OrderId in_) reason ;;;
      ret (lifecycleResponse (ca_OrderId in_) result)
  end.

Definition ship_admin_command (orderID : string) (operatorID : Z) : lifecycleTransition :=
  mkTransition orderID "" 0 operatorID orderstatus.Paid orderstatus.Shipped "shipped"
    "admin shipped" false.

Definition ShipAdminOrder (svcCtx : ServiceContext) (in_ : option ShipAdminOrderReq)
  : M OrderCommandResp :=
  let bad := StatusError InvalidArgument "order_id and operator_id are required" in
  match in_ with
  | None => throw bad
  | Some in_ =>
      require (negb (missing (sa_OrderId in_) (sa_OperatorId in_))) bad ;;;
      result <- executeLifecycleTransition svcCtx
                  (ship_admin_command (sa_OrderId in_) (sa_OperatorId in_)) ;;
      ret (lifecycleResponse (sa_OrderId in_) result)
  end.

Definition ship_merchant_command (orderID : string) (merchantID : Z) : lifecycleTransition :=
  mkTransition orderID "merchant_id" merchantID merchantID orderstatus.Paid orderstatus.Shipped
    "shipped" "merchant ship order" false.

Definition ShipMerchantOrder (svcCtx : ServiceContext) (in_ : option ShipMerchantOrderReq)
  : M OrderCommandResp :=
  let bad := StatusError InvalidArgument "order_id and merchant_id are required" in
  match in_ with
  | None => throw bad
  | Some in_ =>
      require (negb (missing (sm_OrderId in_) (sm_MerchantId in_))) bad ;;;
      result <- executeLifecycleTransition svcCtx
                  (ship_merchant_command (sm_OrderId in_) (sm_MerchantId in_)) ;;
      ret (lifecycleResponse (sm_OrderId in_) result)
  end.

Definition receipt_command (orderID : string) (userID : Z) : lifecycleTransition :=
  mkTransition orderID "user_id" userID userID orderstatus.Shipped orderstatus.Completed
    "completed" "buyer confirmed receipt" false.

Definition ConfirmReceipt (svcCtx : ServiceContext) (in_ : option ConfirmReceiptReq)
  : M OrderCommandResp :=
  let bad := StatusError InvalidArgument "order_id and user_id are required" in
  match in_ with
  | None => throw bad
  | Some in_ =>
      require (negb (missing (cr_OrderId in_) (cr_UserId in_))) bad ;;;
      result <- executeLifecycleTransition svcCtx
                  (receipt_command (cr_OrderId in_) (cr_UserId in_)) ;;
      ret (lifecycleResponse (cr_OrderId in_) result)
  end.
End lifecycle.

(** * Specification of the transition *)

(** What a transition does to the database when it runs alone: the first
    applicable line decides. *)
Definition lifecycle_spec (c : lifecycleTransition) (now : Z) (d : DB)
  : DB * res error lifecycleResult :=
  match owner_scope c, orders d !! lt_orderID c with
  | Err e, _ => (d, Err e)
  | Ok scope, None => (d, Err (StatusError NotFound "order not found"))
  | Ok scope, Some o =>
      if negb (scope o) then (d, Err (StatusError NotFound "order not found"))
      else if o_status o =? toStatus c then (d, Ok (mkLifecycle true (toStatus c)))
      else if negb (o_status o =? fromStatus c) then
        (d, Err (StatusError FailedPrecondition "order status does not allow this command"))
      else
        match lifecycleUpdate c with
        | Err e => (d, Err e)
        | Ok (_, set) =>
            (with_status_log
               (status_log d ++ [mkLog (lt_orderID c) (fromStatus c) (toStatus c) (operatorID c)
                                   (lt_remark c)])
               (with_payments
                  (if closePayment c
                   then upd (fun k p => for_order (lt_orderID c) k p &&
                                        (p_status p =? paymentstatus.Init))
                          (close_payment now) (payments d)
                   else payments d)
                  (with_orders (<[lt_orderID c := set now o]> (orders d)) d)),
             Ok (mkLifecycle false (toStatus c)))
        end
  end.

(** The SET clauses assign the target status and keep the identity columns. *)
Lemma lifecycleUpdate_set c cond set now o :
  lifecycleUpdate c = Ok (cond, set) ->
  o_status (set now o) = toStatus c /\ o_request_id (set now o) = o_request_id o /\
  o_user_id (set now o) = o_user_id o /\
  o_merchant_id (set now o) = o_merchant_id o /\ o_product_id (set now o) = o_product_id o /\
  o_amount (set now o) = o_amount o.
Proof. unfold lifecycleUpdate. repeat split_test; intros; simplify_eq; done. Qed.

(** A row that passes the SELECT passes the UPDATE. *)
Lemma lifecycleUpdate_cond c cond set scope o :
  lifecycleUpdate c = Ok (cond, set) -> owner_scope c = Ok scope ->
  scope o = true -> o_status o = fromStatus c -> cond o = true.
Proof.
  unfold lifecycleUpdate, owner_scope. intros Hu Hs Ho Hf.
  destruct (str_eqb (ownerColumn c) "merchant_id") eqn:Hm.
  - bools. rewrite Hm in Hs. simpl in Hs. simplify_eq.
    repeat split_test_in Hu; simplify_eq; simpl in *; rewrite Ho, Hf, Z.eqb_refl; done.
  - repeat split_test_in Hu; simplify_eq; rewrite Hf; apply Z.eqb_refl.
Qed.

Section lifecycle_theorems.
Context {X : Type} `{InventoryClient X} `{PaymentProvider X}.
Implicit Types (s : env DB X).

Lemma faithful_lifecycle_body c : faithful (X := X) (lifecycle_body c).
Proof. unfold lifecycle_body. faithful. Qed.

Lemma lifecycle_body_run eb c d (x : X) t :
  run_tx eb (lifecycle_body c) (mkEnv d x t []) =
    let '(d', r) := lifecycle_spec c t d in (mkEnv d' x t [], r).
Proof.
  unfold run_tx, lifecycle_body, lifecycle_spec, bind, of_res. simpl.
  destruct (owner_scope c) as [scope|e] eqn:Hs; simpl; [|done].
  rewrite select_at_key. destruct (orders d !! lt_orderID c) as [o|] eqn:Ho; simpl; [|done].
  destruct (scope o) eqn:Hso; simpl; [|done].
  destruct (o_status o =? toStatus c) eqn:Hto; simpl; [by apply Z.eqb_eq in Hto as ->|].
  destruct (o_status o =? fromStatus c) eqn:Hfrom; simpl; [|done].
  destruct (lifecycleUpdate c) as [[cond set]|e] eqn:Hu; simpl; [|done].
  destruct (lifecycleUpdate_set c cond set t o Hu) as (Hst&_).
  assert (cond o = true) as Hc by (eapply lifecycleUpdate_cond; eauto; by apply Z.eqb_eq).
  unfold exec_orders, bind, get_now, sql, pop_fault. simpl.
  rewrite affected_at_key, upd_at_key, Ho, Hc. simpl.
  rewrite bool_decide_eq_false_2 by (intros Heq; rewrite Heq in Hst; bools; congruence). simpl.
  destruct (closePayment c); done.
Qed.

(** C11 The order transition is all or nothing and its outcome is its
    specification: whatever calls fail, either nothing changes and the command
    fails, or exactly the specified order row, payment row and log entry are
    written, and then any success reported is the specified one; without
    failures the command is its specification. *)
Theorem lifecycle_implements_spec svcCtx c s :
  let '(s', r) := executeLifecycleTransition svcCtx c s in
  let '(d', r') := lifecycle_spec c (now s) (db s) in
  ((db s' = db s /\ is_ok r = false) \/ (db s' = d' /\ (r = r' \/ is_ok r = false))) /\
  (no_faults s -> has_sql svcCtx = true -> db s' = d' /\ r = r').
Proof.
  destruct (lifecycle_spec c (now s) (db s)) as [d' r'] eqn:Hspec.
  unfold executeLifecycleTransition, bind, require.
  destruct (has_sql svcCtx) eqn:Hsql; simpl; [|by repeat split; auto].
  destruct (raw_db_cases (StatusError Unavailable "order datasource is unavailable") s)
    as (s1&r1&Hraw&Hd&Hn&_&Hor&Hnf); rewrite Hraw; destruct Hor as [-> | ->]; [|split; [by auto|by intros [_ ?]%Hnf]].
  pose proof (run_tx_spec (StatusError Internal "begin order transaction failed")
    (lifecycle_body c) s1 d' r' (faithful_lifecycle_body c)) as Hs.
  destruct (run_tx _ _ s1) as [s' r]. destruct Hs as [Hs1 Hs2].
  { intros x. by rewrite lifecycle_body_run, Hd, Hn, Hspec. }
  rewrite Hd in Hs1. split; [done|].
  intros Hf _. destruct (Hnf Hf) as [-> _]. destruct (Hs2 Hf) as [-> ->]. done.
Qed.
End lifecycle_theorems.
