(* ===== verification/OrderPayment.v ===== *)
(** Payments of the order service (app/order/rpc/internal/logic): the paid
    callback (markorderpaidlogic.go), provider notifications
    (handlepaymentnotificationlogic.go) and the payment session of an order
    (createpaymentlogic.go). *)

From S2P Require Import Prelude Effects Sql Common OrderStore.

(** * Messages *)

Record MarkOrderPaidReq := mkMarkPaid {
  mp_OrderId : string; mp_PaymentOrderId : string; mp_OutTradeNo : string;
  mp_CallbackBody : callback_body
}.
Record MarkOrderPaidResp := mkMarkPaidResp { mp_Updated : bool; mp_OrderStatus : string }.

Definition with_Provider (v : string) (p : paymentCallbackPayload) : paymentCallbackPayload :=
  mkPayload (TradeStatus p) v (EventID p) (PaidAmountFen p) (ProviderTradeNo p).

Definition parsePaymentCallbackPayload (body : callback_body)
  : res error paymentCallbackPayload :=
  match body with
  | NoBody => Err (StatusError InvalidArgument "callback_body is required")
  | BadJSON => Err (StatusError InvalidArgument "callback_body is invalid")
  | JSONBody payload =>
      if negb (is_empty (TradeStatus payload)) && negb (str_eqb (TradeStatus payload) "SUCCESS")
      then Err (StatusError FailedPrecondition "payment callback is not successful")
      else if PaidAmountFen payload <=? 0
      then Err (StatusError InvalidArgument "paid_amount_fen is required")
      else Ok (if is_empty (Provider payload) then with_Provider "mock" payload else payload)
  end.

(** How the transaction of a callback ends when it commits. *)
Inductive paid_outcome :=
| AmountMismatch | Idempotent | OrderClosed | NotPayable | PaidNow.

(** The row of [payment_callback_event] for a callback. *)
Definition callback_event (in_ : MarkOrderPaidReq) (payload : paymentCallbackPayload)
  (processStatus errorMessage : string) : CallbackEvent :=
  let eventID := if is_empty (EventID payload)
                 then Provider payload +:+ ":" +:+ mp_PaymentOrderId in_ +:+ ":" +:+ mp_OutTradeNo in_
                 else EventID payload in
  mkEvent (Provider payload) eventID (mp_PaymentOrderId in_) (mp_OrderId in_) (mp_OutTradeNo in_)
    (PaidAmountFen payload) processStatus errorMessage (mp_CallbackBody in_).

(** [INSERT IGNORE] under the unique key [(provider, event_id)]. *)
Definition add_event (e : CallbackEvent) (d : DB) : DB :=
  with_callback_events
    (append_ignore (fun e' => str_eqb (ev_provider e') (ev_provider e) &&
                              str_eqb (ev_event_id e') (ev_event_id e)) e (callback_events d)) d.

(** The row of a successful payment. *)
Definition pay_row (body : callback_body) (tradeNo : string) (now : Z) (p : PaymentOrder)
  : PaymentOrder :=
  let c := p_channel p in
  mkPayment (p_order_id p) (p_user_id p) (p_payable_amount_fen p) paymentstatus.Success
    (p_out_trade_no p)
    (mkChannel (provider c) tradeNo (provider_qr_url c) "TRADE_SUCCESS" (expires_at c))
    (Some now) body (p_finalize p) (p_release p) now.

Definition matches (in_ : MarkOrderPaidReq) (p : PaymentOrder) : bool :=
  str_eqb (p_out_trade_no p) (mp_OutTradeNo in_) && str_eqb (p_order_id p) (mp_OrderId in_).

Section payment.
Context {X : Type} `{InventoryClient X} `{PaymentProvider X}.
Abbreviation M := (M DB X error).

Definition insertPaymentCallbackEvent (in_ : MarkOrderPaidReq) (payload : paymentCallbackPayload)
  (processStatus errorMessage : string) : M unit :=
  sql (fun d => (add_event (callback_event in_ payload processStatus errorMessage) d, tt)) DbError.

(** The joined row the callback reads: order status, payment status, amount. *)
Definition paid_row (in_ : MarkOrderPaidReq) (d : DB) : option (Z * Z * Z) :=
  match select (at_key (mp_PaymentOrderId in_) (matches in_)) (payments d) with
  | None => None
  | Some (_, p) =>
      match orders d !! p_order_id p with
      | None => None
      | Some o => Some (o_status o, p_status p, p_payable_amount_fen p)
      end
  end.

Definition mark_paid_body (in_ : MarkOrderPaidReq) (callback : paymentCallbackPayload)
  : M (txend error paid_outcome) :=
  row <- query (paid_row in_) DbError ;;
  match row with
  | None => throw (StatusError NotFound "payment order not found")
  | Some (orderStatus, paymentStatus, payableAmountFen) =>
      if negb (PaidAmountFen callback =? payableAmountFen) then
        insertPaymentCallbackEvent in_ callback "FAILED_AMOUNT_MISMATCH"
          "paid amount does not match payable amount" ;;;
        ret (Commit DbError AmountMismatch)
      else if (orderStatus =? orderstatus.Paid) || (paymentStatus =? paymentstatus.Success) then
        insertPaymentCallbackEvent in_ callback "IDEMPOTENT" "" ;;;
        ret (Commit DbError Idempotent)
      else if orderStatus =? orderstatus.Closed then
        insertPaymentCallbackEvent in_ callback "CLOSED" "" ;;;
        ret (Commit DbError OrderClosed)
      else
        orderRows <- exec_orders (at_key (mp_OrderId in_)
                       (fun o => o_status o =? orderstatus.PendingPayment))
                       (set_status orderstatus.Paid) DbError ;;
        if orderRows =? 0 then ret (Commit DbError NotPayable)
        else
          paymentRows <- exec_payments (at_key (mp_PaymentOrderId in_)
                           (fun p => matches in_ p && (p_status p =? paymentstatus.Init)))
                           (pay_row (mp_CallbackBody in_) (ProviderTradeNo callback)) DbError ;;
          require (negb (paymentRows =? 0))
            (StatusError FailedPrecondition "payment order is not payable") ;;;
          insert_log (mkLog (mp_OrderId in_) orderstatus.PendingPayment orderstatus.Paid 0
                        "payment callback success") DbError ;;;
          insertPaymentCallbackEvent in_ callback "SUCCESS" "" ;;;
          InsertOrderPaidOutbox (mp_OrderId in_)
            (StatusError Internal "insert paid outbox failed") ;;;
          ret (Commit DbError PaidNow)
  end.

Definition confirmInventoryDeduct (svcCtx : ServiceContext) (orderID : string) : M unit :=
  if has_inventory svcCtx then
    r <- attempt (call (inv_ConfirmDeduct orderID) call_failed) ;;
    match r with
    | Err err =>
        ignore (exec_payments (for_order orderID)
                  (set_finalize (follow_up_failed (shortPaymentError err))) DbError) ;;;
        throw err
    | Ok _ =>
        exec_payments (for_order orderID) (fun now => set_finalize (follow_up_done now) now)
          DbError ;;; ret tt
    end
  else if RequireInventoryReserve svcCtx then
    let err := OtherError "inventory client not configured" in
    ignore (exec_payments (for_order orderID)
              (set_finalize (follow_up_failed (shortPaymentError err))) DbError) ;;;
    throw err
  else ret tt.

Definition MarkPaid (svcCtx : ServiceContext) (in_ : MarkOrderPaidReq) : M MarkOrderPaidResp :=
  require (negb (is_empty (mp_OrderId in_)))
    (StatusError InvalidArgument "order_id is required") ;;;
  require (negb (is_empty (mp_PaymentOrderId in_)))
    (StatusError InvalidArgument "payment_order_id is required") ;;;
  require (negb (is_empty (mp_OutTradeNo in_)))
    (StatusError InvalidArgument "out_trade_no is required") ;;;
  callback <- of_res (parsePaymentCallbackPayload (mp_CallbackBody in_)) ;;
  raw_db (StatusError Internal "db connection failed") ;;;
  outcome <- run_tx (StatusError Internal "begin tx failed") (mark_paid_body in_ callback) ;;
  match outcome with
  | AmountMismatch =>
      throw (StatusError FailedPrecondition "paid amount does not match payable amount")
  | Idempotent =>
      ignore (confirmInventoryDeduct svcCtx (mp_OrderId in_)) ;;;
      ret (mkMarkPaidResp false "PAID")
  | OrderClosed => ret (mkMarkPaidResp false "CLOSED")
  | NotPayable => ret (mkMarkPaidResp false "UNKNOWN")
  | PaidNow =>
      ignore (confirmInventoryDeduct svcCtx (mp_OrderId in_)) ;;;
      ret (mkMarkPaidResp true "PAID")
  end.

(** * Provider notifications *)

(** A raw form body up to [url.ParseQuery]: blank, malformed, or its values. *)
Inductive raw_form := BlankForm | BadForm | FormValues (values : list (string * string)).

Record HandlePaymentNotificationReq := mkNotifyReq { hn_Provider : string; hn_RawBody : raw_form }.
Record HandlePaymentNotificationResp := mkNotifyResp { hn_Accepted : bool; hn_OrderStatus : string }.

Definition isAlipayPaidStatus (value : string) : bool :=
  str_eqb value "TRADE_SUCCESS" || str_eqb value "TRADE_FINISHED".

Definition buildPaidCallback (n : Notification) : callback_body :=
  JSONBody (mkPayload "SUCCESS" NameAlipaySandbox (n_EventID n) (n_AmountFen n) (n_TradeNo n)).

(** [out_trade_no=? AND provider='alipay_sandbox']. *)
Definition for_trade (outTradeNo : string) : string -> PaymentOrder -> bool := fun _ p =>
  str_eqb (p_out_trade_no p) outTradeNo && str_eqb (provider (p_channel p)) NameAlipaySandbox.

Definition HandlePaymentNotification (svcCtx : ServiceContext)
  (in_ : option HandlePaymentNotificationReq) : M HandlePaymentNotificationResp :=
  let bad := StatusError InvalidArgument "alipay provider and raw body are required" in
  match in_ with
  | None => throw bad
  | Some in_ =>
      if negb (str_eqb (trim_space (hn_Provider in_)) NameAlipaySandbox) then throw bad
      else
      match hn_RawBody in_ with
      | BlankForm => throw bad
      | raw =>
          if negb (has_provider svcCtx) || negb (str_eqb pp_Name NameAlipaySandbox) then
            throw (StatusError FailedPrecondition "alipay sandbox is not enabled")
          else
          match raw with
          | BlankForm | BadForm =>
              throw (StatusError InvalidArgument "invalid alipay notification body")
          | FormValues values =>
              match pp_VerifyNotification values with
              | Err _ => throw (StatusError Unauthenticated "invalid alipay notification signature")
              | Ok n =>
                  if negb (isAlipayPaidStatus (n_TradeStatus n)) then
                    ignore (exec_payments (for_trade (n_OutTradeNo n))
                      (fun now p => with_channel
                         (set_provider_status (n_TradeStatus n) (p_channel p)) now p) DbError) ;;;
                    ret (mkNotifyResp true "")
                  else
                    identity <- query (fun d => select (for_trade (n_OutTradeNo n)) (payments d))
                                  (StatusError Internal "query payment identity failed") ;;
                    match identity with
                    | None => throw (StatusError NotFound "payment order not found")
                    | Some (paymentID, p) =>
                        resp <- MarkPaid svcCtx (mkMarkPaid (p_order_id p) paymentID
                                  (n_OutTradeNo n) (buildPaidCallback n)) ;;
                        ret (mkNotifyResp true (mp_OrderStatus resp))
                    end
              end
          end
      end
  end.

(** * Payment sessions *)

Record CreatePaymentReq := mkCreatePayment { cp_OrderId : string; cp_UserId : Z }.

Record CreatePaymentResp := mkCreatePaymentResp {
  cp_Order : string; cp_PaymentOrderId : string; cp_OutTradeNo : string;
  cp_PayableAmountFen : Z; cp_PaymentStatus : string; cp_Provider : string;
  cp_QrUrl : string; cp_ExpiresAt : Z
}.

(** [createPaymentRecord]: the joined row. *)
Definition payment_record (in_ : CreatePaymentReq) (d : DB)
  : option (Z * string * PaymentOrder) :=
  match select (at_key (cp_OrderId in_) (fun o => o_user_id o =? cp_UserId in_)) (orders d) with
  | None => None
  | Some (_, o) =>
      match select (for_order (cp_OrderId in_)) (payments d) with
      | None => None
      | Some (paymentID, p) => Some (o_status o, paymentID, p)
      end
  end.

Definition set_session (prov qr : string) (expire : Z) (now : Z) (p : PaymentOrder) : PaymentOrder :=
  let c := p_channel p in
  with_channel (mkChannel prov (provider_trade_no c) qr "WAIT_BUYER_PAY" (Some (now + expire * 60)))
    now p.

Definition createProviderPayment (resp : CreatePaymentResp) (expireMinutes currentStatus : Z)
  : M CreatePaymentResp :=
  r <- attempt (call (pp_Precreate (mkPrecreate (cp_OutTradeNo resp)
         ("Flash Mall order " +:+ cp_Order resp) (cp_PayableAmountFen resp) expireMinutes))
         call_failed) ;;
  match r with
  | Err _ => throw (StatusError Unavailable "create provider payment failed")
  | Ok qr =>
      t <- get_now ;;
      rows <- exec_payments (fun k p => str_eqb (p_out_trade_no p) (cp_OutTradeNo resp) &&
                               str_eqb k (cp_PaymentOrderId resp) &&
                               (p_status p =? currentStatus))
                (set_session pp_Name qr expireMinutes)
                (StatusError Internal "save provider payment failed") ;;
      one_row rows (StatusError Aborted "payment order changed concurrently") ;;;
      ret (mkCreatePaymentResp (cp_Order resp) (cp_PaymentOrderId resp) (cp_OutTradeNo resp)
             (cp_PayableAmountFen resp) (cp_PaymentStatus resp) pp_Name qr
             (t + expireMinutes * 60))
  end.

Definition CreatePayment (svcCtx : ServiceContext) (in_ : option CreatePaymentReq)
  : M CreatePaymentResp :=
  let bad := StatusError InvalidArgument "order_id and user_id are required" in
  match in_ with
  | None => throw bad
  | Some in_ =>
      require (negb (is_empty (trim_space (cp_OrderId in_)) || (cp_UserId in_ <=? 0))) bad ;;;
      row <- query (payment_record in_) (StatusError Internal "query payment order failed") ;;
      match row with
      | None => throw (StatusError NotFound "payment order not found")
      | Some (orderStatus, paymentID, p) =>
          if negb (orderStatus =? orderstatus.PendingPayment) && negb (orderStatus =? orderstatus.Paid)
          then throw (StatusError FailedPrecondition "order is not payable")
          else
          let resp prov qr ex := mkCreatePaymentResp (cp_OrderId in_) paymentID (p_out_trade_no p)
                (p_payable_amount_fen p) (to_lower (paymentstatus.Text (p_status p))) prov qr ex in
          let c := p_channel p in
          let expiresAtUnix := default 0 (expires_at c) in
          if p_status p =? paymentstatus.Success then ret (resp (provider c) "" 0)
          else
          let expireMinutes := if PaymentExpireMinutes svcCtx <=? 0 then 15
                               else PaymentExpireMinutes svcCtx in
          t <- get_now ;;
          if negb (has_provider svcCtx) then
            if str_eqb (provider c) NameLocalSandbox && (t <? expiresAtUnix) then
              ret (resp NameLocalSandbox "" expiresAtUnix)
            else
              rows <- exec_payments (at_key paymentID (fun p' => p_status p' =? p_status p))
                        (fun now p' => set_session NameLocalSandbox
                           (provider_qr_url (p_channel p')) expireMinutes now p')
                        (StatusError Internal "save local payment expiry failed") ;;
              one_row rows (StatusError Aborted "payment order changed concurrently") ;;;
              ret (resp NameLocalSandbox "" (t + expireMinutes * 60))
          else if str_eqb (provider c) pp_Name && negb (is_empty (provider_qr_url c)) &&
                  (t <? expiresAtUnix) then
            ret (resp (provider c) (provider_qr_url c) expiresAtUnix)
          else createProviderPayment (resp "" "" 0) expireMinutes (p_status p)
      end
  end.
End payment.

(** * Specification of the paid callback *)

(** The database after a payment: order paid, payment successful, one status
    log entry, the callback event, the [order.paid] outbox event. *)
Definition paid_db (in_ : MarkOrderPaidReq) (callback : paymentCallbackPayload) (now : Z)
  (o : Order) (p : PaymentOrder) (d : DB) : DB :=
  let ev := callback_event in_ callback "SUCCESS" "" in
  let payload : json_object := <["event_id" := JString (order_paid_event_id (mp_OrderId in_))]>
    (<["event_type" := JString "order.paid"]> (<["order_id" := JString (mp_OrderId in_)]> ∅)) in
  insert_outbox_ignore (mkOutbox (order_paid_event_id (mp_OrderId in_)) "order.paid"
      (mp_OrderId in_) payload 0 0 now None "" now)
    (add_event ev
      (with_status_log (status_log d ++ [mkLog (mp_OrderId in_) orderstatus.PendingPayment
           orderstatus.Paid 0 "payment callback success"])
        (with_payments (<[mp_PaymentOrderId in_ :=
             pay_row (mp_CallbackBody in_) (ProviderTradeNo callback) now p]> (payments d))
          (with_orders (<[mp_OrderId in_ := set_status orderstatus.Paid now o]> (orders d)) d)))).

Definition paid_spec (in_ : MarkOrderPaidReq) (callback : paymentCallbackPayload) (now : Z)
  (d : DB) : DB * res error paid_outcome :=
  match payments d !! mp_PaymentOrderId in_, orders d !! mp_OrderId in_ with
  | Some p, Some o =>
      if negb (matches in_ p) then (d, Err (StatusError NotFound "payment order not found"))
      else if negb (PaidAmountFen callback =? p_payable_amount_fen p) then
        (add_event (callback_event in_ callback "FAILED_AMOUNT_MISMATCH"
           "paid amount does not match payable amount") d, Ok AmountMismatch)
      else if (o_status o =? orderstatus.Paid) || (p_status p =? paymentstatus.Success) then
        (add_event (callback_event in_ callback "IDEMPOTENT" "") d, Ok Idempotent)
      else if o_status o =? orderstatus.Closed then
        (add_event (callback_event in_ callback "CLOSED" "") d, Ok OrderClosed)
      else if negb (o_status o =? orderstatus.PendingPayment) then (d, Ok NotPayable)
      else if negb (p_status p =? paymentstatus.Init) then
        (d, Err (StatusError FailedPrecondition "payment order is not payable"))
      else (paid_db in_ callback now o p d, Ok PaidNow)
  | _, _ => (d, Err (StatusError NotFound "payment order not found"))
  end.

(** The database up to the inventory follow-up columns of the payments, which
    the calls after the transaction update. *)
Definition core_payment (p : PaymentOrder) : PaymentOrder :=
  mkPayment (p_order_id p) (p_user_id p) (p_payable_amount_fen p) (p_status p)
    (p_out_trade_no p) (p_channel p) (p_paid_at p) (p_callback_payload p)
    (mkFollowUp 0 0 "" None) (mkFollowUp 0 0 "" None) 0.
Definition core (d : DB) : DB := with_payments (core_payment <$> payments d) d.

Definition outcome_response (o : paid_outcome) : res error MarkOrderPaidResp :=
  match o with
  | AmountMismatch =>
      Err (StatusError FailedPrecondition "paid amount does not match payable amount")
  | Idempotent => Ok (mkMarkPaidResp false "PAID")
  | OrderClosed => Ok (mkMarkPaidResp false "CLOSED")
  | NotPayable => Ok (mkMarkPaidResp false "UNKNOWN")
  | PaidNow => Ok (mkMarkPaidResp true "PAID")
  end.

Definition paid_spec_response (in_ : MarkOrderPaidReq) (callback : paymentCallbackPayload)
  (now : Z) (d : DB) : res error MarkOrderPaidResp :=
  let? o := (paid_spec in_ callback now d).2 in outcome_response o.

(** Statements that only touch the follow-up columns keep the core. *)
Lemma core_upd p (f : PaymentOrder -> PaymentOrder) d :
  (forall r, core_payment (f r) = core_payment r) ->
  core (with_payments (upd p f (payments d)) d) = core d.
Proof.
  intros Hf. unfold core, with_payments. simpl. f_equal. apply map_eq. intros k.
  rewrite !lookup_fmap, lookup_upd. destruct (payments d !! k) as [r|]; simpl; [|done].
  destruct (p k r); by rewrite ?Hf.
Qed.

Section payment_theorems.
Context {X : Type} `{InventoryClient X} `{PaymentProvider X}.
Implicit Types (s : env DB X).

Lemma faithful_mark_paid_body in_ cb : faithful (X := X) (mark_paid_body in_ cb).
Proof. unfold mark_paid_body, insertPaymentCallbackEvent. faithful. Qed.

Lemma mark_paid_body_run eb in_ cb d (x : X) t :
  run_tx eb (mark_paid_body in_ cb) (mkEnv d x t []) =
    let '(d', r) := paid_spec in_ cb t d in (mkEnv d' x t [], r).
Proof.
  unfold run_tx, mark_paid_body, paid_spec, paid_row, bind, query. simpl.
  rewrite select_at_key. destruct (payments d !! mp_PaymentOrderId in_) as [p|] eqn:Hp; simpl;
    [|done].
  destruct (matches in_ p) eqn:Hm; simpl; [|by destruct (orders d !! _)].
  assert (p_order_id p = mp_OrderId in_) as -> by (unfold matches in Hm; bools; done).
  destruct (orders d !! mp_OrderId in_) as [o|] eqn:Ho; simpl; [|done].
  destruct (PaidAmountFen cb =? p_payable_amount_fen p) eqn:Ham; simpl; [|done].
  destruct ((o_status o =? orderstatus.Paid) || (p_status p =? paymentstatus.Success)) eqn:Hid;
    simpl; [done|].
  destruct (o_status o =? orderstatus.Closed) eqn:Hcl; simpl; [done|].
  unfold exec_orders, bind, get_now, sql, pop_fault. simpl.
  rewrite affected_at_key, upd_at_key, Ho.
  destruct (o_status o =? orderstatus.PendingPayment) eqn:Hpend; simpl; [|by destruct d].
  rewrite bool_decide_eq_false_2.
  2:{ intros Heq. apply (f_equal o_status) in Heq. simpl in Heq. bools. congruence. }
  simpl. rewrite affected_at_key, upd_at_key, Hp, Hm. simpl.
  destruct (p_status p =? paymentstatus.Init) eqn:Hi; simpl; [|done].
  rewrite bool_decide_eq_false_2.
  2:{ intros Heq. apply (f_equal p_status) in Heq. simpl in Heq. bools.
      unfold paymentstatus.Init, paymentstatus.Success in *. congruence. }
  done.
Qed.

Lemma exec_payments_core p f e s :
  (forall t r, core_payment (f t r) = core_payment r) ->
  core (db (exec_payments p f e s).1) = core (db s).
Proof.
  intros Hf. unfold exec_payments, bind, get_now, sql, pop_fault.
  destruct (faults s) as [|[] fs]; simpl; rewrite ?core_upd by auto; done.
Qed.

Lemma confirmInventoryDeduct_core svcCtx o s :
  core (db (confirmInventoryDeduct svcCtx o s).1) = core (db s).
Proof.
  assert (preserves (fun d => core d = core (db s))
            (confirmInventoryDeduct (X := X) svcCtx o)) as Hp; [|by apply Hp].
  unfold confirmInventoryDeduct. preserve; intros s' Hs'; by rewrite exec_payments_core.
Qed.

Lemma MarkPaid_spec svcCtx in_ callback s :
  mp_OrderId in_ <> "" -> mp_PaymentOrderId in_ <> "" -> mp_OutTradeNo in_ <> "" ->
  parsePaymentCallbackPayload (mp_CallbackBody in_) = Ok callback ->
  let '(s', r) := MarkPaid svcCtx in_ s in
  let d' := (paid_spec in_ callback (now s) (db s)).1 in
  let r' := paid_spec_response in_ callback (now s) (db s) in
  (core (db s') = core (db s) \/ core (db s') = core d') /\
  (is_ok r = true -> core (db s') = core d' /\ r = r') /\
  (no_faults s -> core (db s') = core d' /\ r = r').
Proof.
  intros Ho Hp Ht Hcb. unfold MarkPaid, require, bind at 1 2 3 4, of_res.
  unfold is_empty. rewrite !(proj2 (str_eqb_neq _ _)) by done. simpl. rewrite Hcb.
  unfold bind at 1.
  destruct (raw_db_cases (StatusError Internal "db connection failed") s)
    as (s1&r1&Hraw&Hd&Hn&_&Hor&Hnf); rewrite Hraw; destruct Hor as [-> | ->]; 
    [|rewrite Hd; split; [by left|split; [done|intros Hf; by destruct (Hnf Hf)]]].
  pose proof (run_tx_spec (StatusError Internal "begin tx failed") (mark_paid_body in_ callback) s1
    (paid_spec in_ callback (now s) (db s)).1 (paid_spec in_ callback (now s) (db s)).2
    (faithful_mark_paid_body in_ callback)) as Hs.
  unfold bind at 1, paid_spec_response.
  destruct (run_tx _ _ s1) as [s2 r]. destruct Hs as [Hs1 Hs2].
  { intros x. rewrite mark_paid_body_run, Hd, Hn. by destruct (paid_spec _ _ _ _). }
  rewrite Hd in Hs1. revert Hs1 Hs2.
  generalize (paid_spec in_ callback (now s) (db s)) as p. intros [d' r'] Hs1 Hs2. simpl in *.
  assert (forall o, r = Ok o -> db s2 = d' /\ r' = Ok o) as Hok.
  { intros o ->. destruct Hs1 as [[_ ?]|[? [?|?]]]; done. }
  assert (no_faults s -> r = r') as Hnfr.
  { intros Hf. destruct (Hnf Hf) as [-> _]. by apply Hs2. }
  destruct r as [[]|e]; [..|clear Hok; simpl].
  1-5: destruct (Hok _ eq_refl) as [<- ->]; simpl; unfold ignore, bind;
    try (destruct (confirmInventoryDeduct svcCtx (mp_OrderId in_) s2) as [s3 r3] eqn:Hc;
         apply (f_equal (fun x => core (db x.1))) in Hc; rewrite confirmInventoryDeduct_core in Hc;
         simpl in *; rewrite <- Hc); auto.
  split; [destruct Hs1 as [[-> _]|[-> _]]; auto|split; [done|]].
  intros Hf. rewrite <- (Hnfr Hf). split; [|done].
  destruct Hs1 as [[Heq _]|[-> _]]; [|done].
  destruct (Hnf Hf) as [-> _]. destruct (Hs2 Hf) as [-> _]. done.
Qed.

(** C10 The paid callback implements its specification.  Whatever calls fail,
    the database (inventory follow-up columns aside) is the one before the call,
    or the one the specification gives; a response that reports success is the
    specified response and then the specified state is in place.  Without
    failures the call is its specification. *)
Theorem MarkPaid_implements_spec svcCtx in_ callback s :
  mp_OrderId in_ <> "" -> mp_PaymentOrderId in_ <> "" -> mp_OutTradeNo in_ <> "" ->
  parsePaymentCallbackPayload (mp_CallbackBody in_) = Ok callback ->
  let '(s', r) := MarkPaid svcCtx in_ s in
  let d' := (paid_spec in_ callback (now s) (db s)).1 in
  let r' := paid_spec_response in_ callback (now s) (db s) in
  (core (db s') = core (db s) \/ core (db s') = core d') /\
  (is_ok r = true -> core (db s') = core d' /\ r = r') /\
  (no_faults s -> core (db s') = core d' /\ r = r').
Proof. apply MarkPaid_spec. Qed.
End payment_theorems.
