(* ===== verification/PaymentRecovery.v ===== *)
(** The background recovery of payments (app/order/rpc/internal/job):
    closing expired payments and asking the provider first
    (payment_recovery.go, wired in app/order/rpc/order.go), and retrying the
    inventory confirmations and releases that failed (inventory_recovery.go). *)

From stdpp Require Import sorting.
From S2P Require Import Prelude Effects Sql Common OrderStore OrderPayment.

Record paymentRecoveryItem := mkItem {
  it_OrderID : string; it_PaymentOrderID : string; it_OutTradeNo : string; it_Provider : string
}.

Record ProviderPaidPayment := mkPaidPayment {
  pd_OrderID : string; pd_PaymentOrderID : string; pd_OutTradeNo : string; pd_TradeNo : string;
  pd_AmountFen : Z
}.

Definition key_le (key : PaymentOrder -> Z) (a b : string * PaymentOrder) : Prop :=
  key a.2 <= key b.2.
#[export] Instance key_le_dec key : RelDecision (key_le key).
Proof. intros a b. unfold key_le. apply _. Defined.

(** [ORDER BY key LIMIT n]. *)
Definition order_limit (key : PaymentOrder -> Z) (n : Z) (l : list (string * PaymentOrder))
  : list (string * PaymentOrder) :=
  take (Z.to_nat n) (merge_sort (key_le key) l).

(** The expired pending payments of pending orders, oldest expiry first. *)
Definition expired_items (now : Z) (d : DB) : list paymentRecoveryItem :=
  let due := fun (_ : string) p =>
    (p_status p =? 0) &&
    match orders d !! p_order_id p with Some o => o_status o =? 0 | None => false end &&
    match expires_at (p_channel p) with Some t => t <=? now | None => false end in
  (fun kp => mkItem (p_order_id kp.2) kp.1 (p_out_trade_no kp.2) (provider (p_channel kp.2))) <$>
    order_limit (fun p => default 0 (expires_at (p_channel p))) 20 (select_all due (payments d)).

Definition inventoryFinalizeBatchSize (svcCtx : ServiceContext) : Z :=
  if PaymentFinalizeBatchSize svcCtx <=? 0 then 200 else PaymentFinalizeBatchSize svcCtx.

Definition recoveryOrderIDs (p : PaymentOrder -> bool) (limit : Z) (d : DB) : list string :=
  (fun kp => p_order_id kp.2) <$>
    order_limit p_update_time limit (select_all (fun _ => p) (payments d)).

Section recovery.
Context {X : Type} `{InventoryClient X} `{PaymentProvider X}.
Abbreviation M := (M DB X error).

(** The handler main installs with [OnProviderPaid]. *)
Definition on_provider_paid (svcCtx : ServiceContext) (payment : ProviderPaidPayment) : M unit :=
  MarkPaid svcCtx (mkMarkPaid (pd_OrderID payment) (pd_PaymentOrderID payment)
    (pd_OutTradeNo payment)
    (JSONBody (mkPayload "SUCCESS" "alipay_sandbox" ("reconcile:" +:+ pd_OutTradeNo payment)
                 (pd_AmountFen payment) (pd_TradeNo payment)))) ;;; ret tt.

Definition releaseInventory (svcCtx : ServiceContext) (orderID reason : string) : M unit :=
  require (has_inventory svcCtx) (OtherError "inventory client is not configured") ;;;
  r <- attempt (call (inv_ReleaseStock orderID reason) call_failed) ;;
  match r with
  | Err err =>
      ignore (exec_payments (for_order orderID)
                (set_release (follow_up_failed (shortRecoveryError err))) DbError) ;;;
      throw err
  | Ok _ =>
      exec_payments (for_order orderID) (fun now => set_release (follow_up_done now) now) DbError ;;;
      ret tt
  end.

(** Closing the order and its payment; the result says whether it was open. *)
Definition expire_body (item : paymentRecoveryItem) : M (txend error bool) :=
  changed <- exec_orders (at_key (it_OrderID item) (fun o => o_status o =? 0)) (set_status 2)
               DbError ;;
  if changed =? 0 then ret (Commit DbError false)
  else
    exec_payments (fun k p => for_order (it_OrderID item) k p && (p_status p =? 0)) close_payment
      DbError ;;;
    insert_log (mkLog (it_OrderID item) 0 2 0 "payment expired") DbError ;;;
    ret (Commit DbError true).

Definition set_close_failed (now : Z) (p : PaymentOrder) : PaymentOrder :=
  with_channel (set_provider_status "CLOSE_FAILED" (p_channel p)) now p.

Definition expire_order (svcCtx : ServiceContext) (item : paymentRecoveryItem) : M unit :=
  raw_db DbError ;;;
  changed <- run_tx DbError (expire_body item) ;;
  if (changed : bool) then releaseInventory svcCtx (it_OrderID item) "payment expired"
  else ret tt.

Definition closeExpired (svcCtx : ServiceContext) (item : paymentRecoveryItem) : M unit :=
  if str_eqb (it_Provider item) NameAlipaySandbox && has_provider svcCtx then
    query_result <- attempt (call (pp_Query (it_OutTradeNo item)) call_failed) ;;
    let paid := match query_result with
                | Ok q => str_eqb (q_Status q) "TRADE_SUCCESS" || str_eqb (q_Status q) "TRADE_FINISHED"
                | Err _ => false
                end in
    match query_result, paid with
    | Ok q, true =>
        on_provider_paid svcCtx (mkPaidPayment (it_OrderID item) (it_PaymentOrderID item)
          (it_OutTradeNo item) (q_TradeNo q) (q_AmountFen q))
    | _, _ =>
        closed <- attempt (call (pp_Close (it_OutTradeNo item)) call_failed) ;;
        match closed with
        | Err err =>
            ignore (exec_payments (for_order (it_OrderID item)) set_close_failed DbError) ;;;
            throw err
        | Ok _ => expire_order svcCtx item
        end
    end
  else expire_order svcCtx item.

Definition closeExpiredBatch (svcCtx : ServiceContext) : M unit :=
  raw_db DbError ;;;
  t <- get_now ;;
  items <- query (expired_items t) DbError ;;
  for_each (fun item => ignore (closeExpired svcCtx item)) items.

(** [finalizeInventory] reports only the errors of its own statements; the loop
    keeps the first of them.  The workers take the orders in turn. *)
Definition finalizeInventory (orderID : string) : M unit :=
  r <- attempt (call (inv_ConfirmDeduct orderID) call_failed) ;;
  match r with
  | Err err =>
      exec_payments (for_order orderID)
        (set_finalize (follow_up_failed (shortRecoveryError err))) DbError ;;; ret tt
  | Ok _ =>
      exec_payments (for_order orderID) (fun now => set_finalize (follow_up_done now) now) DbError ;;;
      ret tt
  end.

Fixpoint finalize_all (orderIDs : list string) (first : option error) : M unit :=
  match orderIDs with
  | [] => match first with None => ret tt | Some e => throw e end
  | o :: os =>
      r <- attempt (finalizeInventory o) ;;
      finalize_all os (match first, r with None, Err e => Some e | _, _ => first end)
  end.

Definition retryInventoryFinalizations (svcCtx : ServiceContext) : M unit :=
  if negb (has_inventory svcCtx) then ret tt
  else
    raw_db DbError ;;;
    orderIDs <- query (recoveryOrderIDs (fun p => (p_status p =? 1) &&
                  negb (fu_status (p_finalize p) =? 1)) (inventoryFinalizeBatchSize svcCtx))
                  DbError ;;
    finalize_all orderIDs None.

Definition retryInventoryReleases (svcCtx : ServiceContext) : M unit :=
  if negb (has_inventory svcCtx) then ret tt
  else
    raw_db DbError ;;;
    orderIDs <- query (recoveryOrderIDs (fun p => (p_status p =? 3) &&
                  negb (fu_status (p_release p) =? 1)) (inventoryFinalizeBatchSize svcCtx))
                  DbError ;;
    for_each (fun o => ignore (releaseInventory svcCtx o "closed payment recovery")) orderIDs.

Definition RunOnce (svcCtx : ServiceContext) : M unit :=
  closeExpiredBatch svcCtx ;;;
  retryInventoryFinalizations svcCtx ;;;
  retryInventoryReleases svcCtx.
End recovery.
