(* ===== verification/OrderRefund.v ===== *)
(** Refunds (app/order/rpc/internal/logic): requesting a refund
    (requestrefundlogic.go) and auditing it, on the local sandbox or through the
    external provider (auditrefundlogic.go, refundstate.go). *)

From S2P Require Import Prelude Effects Sql GoText Common OrderStore.

(** * Messages *)

Record RequestRefundReq := mkRequestRefund {
  rq_OrderId : string; rq_RequesterId : Z; rq_RequesterRole : string; rq_Reason : string;
  rq_RequestId : string
}.

Record AuditRefundReq := mkAuditRefund {
  ar_RefundId : string; ar_OperatorId : Z; ar_Approve : bool; ar_Remark : string;
  ar_RequestId : string
}.

(** [RequestRefundResp] and [AuditRefundResp], which have the same fields. *)
Record RefundResp := mkRefundResp {
  rf_RefundId : string; rf_OrderId : string; rf_OrderStatus : Z; rf_RefundStatus : Z;
  rf_Repeated : bool
}.

Definition requestRefundResponse := mkRefundResp.
Definition auditRefundResponse := mkRefundResp.

Definition providerRefundIDFor (refundID : string) : string :=
  "RF" +:+ String.substring 0 40 (sha256_hex refundID).

(** The columns an audit step writes. *)
Definition audited (st : Z) (remark : string) (operatorID : Z) (refundID : string -> string)
  (providerStatus : string -> string) (providerError : string) (finish : Z -> option Z -> option Z)
  (now : Z) (r : RefundOrder) : RefundOrder :=
  mkRefund (r_order_id r) (r_payment_order_id r) (r_user_id r) (r_merchant_id r) (r_product_id r)
    (r_refund_amount_fen r) st (r_reason r) remark operatorID (r_provider r)
    (refundID (r_provider_refund_id r)) (providerStatus (r_provider_status r)) providerError
    (Some now) (finish now (r_finish_time r)).

(** [status IN (requested, approved, failed)]. *)
Definition auditable (r : RefundOrder) : bool :=
  (r_status r =? refundstatus.Requested) || (r_status r =? refundstatus.Approved) ||
  (r_status r =? refundstatus.Failed).

(** [finish_time=NOW()], [finish_time=NULL], and the column left alone. *)
Definition finish_now (now : Z) (_ : option Z) : option Z := Some now.
Definition finish_null (_ : Z) (_ : option Z) : option Z := None.
Definition finish_keep (_ : Z) (v : option Z) : option Z := v.

Definition const_str (s : string) : string -> string := fun _ => s.

(** [externalRefund]: what the provider steps need of the refund row. *)
Record externalRefund := mkExternal {
  ex_RefundID : string; ex_OrderID : string; ex_OutTradeNo : string;
  ex_ProviderRefundID : string; ex_ProviderStatus : string; ex_AmountFen : Z; ex_Reason : string
}.

(** How the first transaction of an audit ends. *)
Inductive audit_outcome :=
| AuditDone (resp : RefundResp)
| CallProvider (refund : externalRefund)
| ProviderDone (refund : externalRefund)
| ReleaseFailed (orderID : string) (cause : error).

Section refund.
Context {X : Type} `{InventoryClient X} `{PaymentProvider X}.
Abbreviation M := (M DB X error).

(** * Requesting *)

(** The joined row: order, and the columns of its payment with their defaults. *)
Definition refund_source (orderID : string) (d : DB)
  : option (Order * (string * Z * Z * string)) :=
  match orders d !! orderID with
  | None => None
  | Some o =>
      Some (o, match select (for_order orderID) (payments d) with
               | None => ("", 0, 0, "local_sandbox")
               | Some (id, p) => (id, p_payable_amount_fen p, p_status p, provider (p_channel p))
               end)
  end.

Definition for_refund_order (orderID : string) : string -> RefundOrder -> bool :=
  fun _ r => str_eqb (r_order_id r) orderID.

Definition insert_refund (id : string) (r : RefundOrder) : M unit :=
  ok <- sql (fun d => match insert_row (fun r' => str_eqb (r_order_id r') (r_order_id r)) id r
                              (refunds d) with
                      | Some t => (with_refunds t d, true)
                      | None => (d, false)
                      end) DbError ;;
  require ok DbError.

Definition request_refund_body (in_ : RequestRefundReq) (orderID role : string)
  : M (txend error RefundResp) :=
  source <- query (refund_source orderID) DbError ;;
  match source with
  | None => throw (StatusError NotFound "order not found")
  | Some (o, (paymentOrderID, refundAmountFen, currentPaymentStatus, prov)) =>
      let currentStatus := o_status o in
      if str_eqb role "user" && negb (o_user_id o =? rq_RequesterId in_) then
        throw (StatusError PermissionDenied "order does not belong to requester")
      else
      existing <- query (fun d => select (for_refund_order orderID) (refunds d)) DbError ;;
      match existing with
      | Some (existingID, r) =>
          if r_status r =? refundstatus.Rejected then
            throw (StatusError FailedPrecondition "refund request was already rejected")
          else ret (Commit DbError
                      (requestRefundResponse existingID orderID currentStatus (r_status r) true))
      | None =>
          if negb (orderstatus.CanRequestRefund currentStatus) || is_empty paymentOrderID ||
             negb (currentPaymentStatus =? paymentstatus.Success) then
            throw (StatusError FailedPrecondition "order is not refundable")
          else
          let refundID := refundIDForOrder orderID in
          rows <- exec_orders (at_key orderID (fun o => o_status o =? currentStatus))
                    (fun now o => set_refund_requested_at (Some now)
                                    (set_status orderstatus.RefundRequested now o)) DbError ;;
          one_row rows (StatusError Aborted "order status changed concurrently") ;;;
          insert_refund refundID
            (mkRefund orderID paymentOrderID (o_user_id o) (o_merchant_id o) (o_product_id o)
               refundAmountFen refundstatus.Requested (rq_Reason in_) "" 0 prov "" "" "" None None) ;;;
          insertRefundStatusLog orderID currentStatus orderstatus.RefundRequested
            (rq_RequesterId in_) ("refund requested: " +:+ rq_Reason in_) ;;;
          insertRefundOutbox "refund.requested" refundID orderID
            (<["requester_id" := JNumber (rq_RequesterId in_)]>
               (<["requester_role" := JString role]>
                  (<["amount_fen" := JNumber refundAmountFen]>
                     (<["request_id" := JString (rq_RequestId in_)]> ∅)))) ;;;
          ret (Commit DbError (requestRefundResponse refundID orderID orderstatus.RefundRequested
                                 refundstatus.Requested false))
      end
  end.

Definition RequestRefund (in_ : RequestRefundReq) : M RefundResp :=
  let orderID := trim_space (rq_OrderId in_) in
  let role := to_lower (trim_space (rq_RequesterRole in_)) in
  require (negb (is_empty orderID || (rq_RequesterId in_ <=? 0) ||
                 (negb (str_eqb role "user") && negb (str_eqb role "admin"))))
    (StatusError InvalidArgument "order_id, requester_id and requester_role are required") ;;;
  raw_db (StatusError Internal "db connection failed") ;;;
  run_tx (StatusError Internal "begin refund transaction failed")
    (request_refund_body in_ orderID role).

(** * Auditing: the steps *)

Definition audit_payload (in_ : AuditRefundReq) : json_object :=
  <["operator_id" := JNumber (ar_OperatorId in_)]>
    (<["remark" := JString (ar_Remark in_)]> (<["request_id" := JString (ar_RequestId in_)]> ∅)).

Definition releaseRefundStock (svcCtx : ServiceContext) (orderID : string) : M unit :=
  require (has_inventory svcCtx) (OtherError "inventory client not configured") ;;;
  call (inv_ReleaseStock orderID "refund approved") call_failed.

(** The end of an approval: the order is refunded, the change is logged, the
    success event is queued. *)
Definition finish_refund (in_ : AuditRefundReq) (refundID orderID : string)
  : M (txend error audit_outcome) :=
  rows <- exec_orders (at_key orderID (fun o => o_status o =? orderstatus.RefundRequested))
            (fun now o => set_refunded_at (Some now) (set_status orderstatus.Refunded now o))
            DbError ;;
  one_row rows (StatusError Aborted "order status changed concurrently") ;;;
  insertRefundStatusLog orderID orderstatus.RefundRequested orderstatus.Refunded
    (ar_OperatorId in_) ("refund approved: " +:+ ar_Remark in_) ;;;
  insertRefundOutbox "refund.succeeded" refundID orderID (audit_payload in_) ;;;
  ret (Commit DbError (AuditDone (auditRefundResponse refundID orderID orderstatus.Refunded
                                    refundstatus.Success false))).

Definition approveRefund (svcCtx : ServiceContext) (in_ : AuditRefundReq)
  (refundID orderID : string) : M (txend error audit_outcome) :=
  released <- attempt (releaseRefundStock svcCtx orderID) ;;
  match released with
  | Err err => ret (Rollback (ReleaseFailed orderID err))
  | Ok _ =>
      rows <- exec_refunds (at_key refundID auditable)
                (audited refundstatus.Success (ar_Remark in_) (ar_OperatorId in_)
                   (const_str (providerRefundIDFor refundID)) (const_str "SUCCESS") ""
                   finish_now) DbError ;;
      one_row rows (StatusError Aborted "refund status changed concurrently") ;;;
      finish_refund in_ refundID orderID
  end.

(** The status before the refund request, from the latest log entry. *)
Definition restore_status (orderID : string) (d : DB) : Z :=
  let entries := filter (fun l => l_order_id l = orderID /\
                                  l_to_status l = orderstatus.RefundRequested) (status_log d) in
  let restoreStatus := match last entries with
                       | Some l => l_from_status l
                       | None => orderstatus.Paid
                       end in
  if negb (restoreStatus =? orderstatus.Paid) && negb (restoreStatus =? orderstatus.Shipped)
  then orderstatus.Paid else restoreStatus.

Definition rejectRefund (in_ : AuditRefundReq) (refundID orderID : string)
  : M (txend error audit_outcome) :=
  restoreStatus <- query (restore_status orderID) DbError ;;
  rows <- exec_refunds (at_key refundID auditable)
            (audited refundstatus.Rejected (ar_Remark in_) (ar_OperatorId in_) id
               (const_str "REJECTED") "" finish_null) DbError ;;
  one_row rows (StatusError Aborted "refund status changed concurrently") ;;;
  rows <- exec_orders (at_key orderID (fun o => o_status o =? orderstatus.RefundRequested))
            (fun now o => set_refund_requested_at None (set_status restoreStatus now o)) DbError ;;
  one_row rows (StatusError Aborted "order status changed concurrently") ;;;
  insertRefundStatusLog orderID orderstatus.RefundRequested restoreStatus (ar_OperatorId in_)
    ("refund rejected: " +:+ ar_Remark in_) ;;;
  insertRefundOutbox "refund.rejected" refundID orderID (audit_payload in_) ;;;
  ret (Commit DbError (AuditDone (auditRefundResponse refundID orderID restoreStatus
                                    refundstatus.Rejected false))).

Definition mark_release_failed_body (in_ : AuditRefundReq) (refundID orderID : string)
  (cause : error) : M (txend error unit) :=
  let message := trimRefundError cause in
  rows <- exec_refunds (at_key refundID auditable)
            (audited refundstatus.Failed message (ar_OperatorId in_) id
               (fun st => if str_eqb st "SUCCESS" then st else "FAILED") message finish_null)
            DbError ;;
  if rows =? 0 then ret (Commit DbError tt)
  else
    insertRefundOutbox "refund.failed" refundID orderID
      (<["operator_id" := JNumber (ar_OperatorId in_)]>
         (<["error_message" := JString message]>
            (<["request_id" := JString (ar_RequestId in_)]> ∅))) ;;;
    ret (Commit DbError tt).

Definition markRefundReleaseFailed (in_ : AuditRefundReq) (refundID orderID : string)
  (cause : error) : M unit :=
  raw_db DbError ;;; run_tx DbError (mark_release_failed_body in_ refundID orderID cause).

Definition markProviderRefundFailed (in_ : AuditRefundReq) (refund : externalRefund)
  (cause : error) : M unit :=
  exec_refunds (at_key (ex_RefundID refund) (fun r => r_status r =? refundstatus.Approved))
    (audited refundstatus.Failed (ar_Remark in_) (ar_OperatorId in_) id (const_str "FAILED")
       (trimRefundError cause) finish_null) DbError ;;; ret tt.

Definition complete_approved_body (in_ : AuditRefundReq) (refundID orderID : string)
  : M (txend error audit_outcome) :=
  rows <- exec_refunds (at_key refundID (fun r =>
              ((r_status r =? refundstatus.Approved) || (r_status r =? refundstatus.Failed)) &&
              str_eqb (r_provider_status r) "SUCCESS"))
            (audited refundstatus.Success (ar_Remark in_) (ar_OperatorId in_) id
               (const_str "SUCCESS") "" finish_now) DbError ;;
  one_row rows (StatusError Aborted "refund status changed concurrently") ;;;
  finish_refund in_ refundID orderID.

Definition completeApprovedRefund (in_ : AuditRefundReq) (refundID orderID : string)
  : M audit_outcome :=
  raw_db DbError ;;; run_tx DbError (complete_approved_body in_ refundID orderID).

(** * Auditing: the provider path *)

(** Inside the first transaction. *)
Definition approve_external_tx (svcCtx : ServiceContext) (in_ : AuditRefundReq)
  (refund : externalRefund) : M (txend error audit_outcome) :=
  require (has_provider svcCtx && str_eqb pp_Name NameAlipaySandbox)
    (StatusError FailedPrecondition "alipay sandbox provider is not configured") ;;;
  let refund := if is_empty (ex_ProviderRefundID refund)
                then mkExternal (ex_RefundID refund) (ex_OrderID refund) (ex_OutTradeNo refund)
                       (providerRefundIDFor (ex_RefundID refund)) (ex_ProviderStatus refund)
                       (ex_AmountFen refund) (ex_Reason refund)
                else refund in
  if negb (str_eqb (ex_ProviderStatus refund) "SUCCESS") then
    rows <- exec_refunds (at_key (ex_RefundID refund) auditable)
              (audited refundstatus.Approved (ar_Remark in_) (ar_OperatorId in_)
                 (const_str (ex_ProviderRefundID refund)) (const_str "PROCESSING") "" finish_keep)
              DbError ;;
    one_row rows (StatusError Aborted "refund status changed concurrently") ;;;
    ret (Commit DbError (CallProvider refund))
  else ret (Commit DbError (ProviderDone refund)).

Definition set_provider_result (st refundID : string) (r : RefundOrder) : RefundOrder :=
  mkRefund (r_order_id r) (r_payment_order_id r) (r_user_id r) (r_merchant_id r) (r_product_id r)
    (r_refund_amount_fen r) (r_status r) (r_reason r) (r_audit_remark r) (r_operator_id r)
    (r_provider r) refundID st "" (r_audit_time r) (r_finish_time r).

(** After it: the provider call and its record. *)
Definition call_provider (in_ : AuditRefundReq) (refund : externalRefund) : M unit :=
  r <- attempt (call (pp_Refund (mkRefundReq (ex_OutTradeNo refund) (ex_ProviderRefundID refund)
         (ex_AmountFen refund) (ex_Reason refund))) call_failed) ;;
  match r with
  | Err err =>
      marked <- attempt (markProviderRefundFailed in_ refund err) ;;
      match marked with
      | Err _ => throw (StatusError Internal "record provider refund failure failed")
      | Ok _ => throw (StatusError Unavailable "provider refund failed")
      end
  | Ok st =>
      exec_refunds (at_key (ex_RefundID refund) (fun r => r_status r =? refundstatus.Approved))
        (fun _ => set_provider_result st (ex_ProviderRefundID refund)) DbError ;;; ret tt
  end.

Definition report_release_failure (in_ : AuditRefundReq) (refundID orderID : string)
  (cause : error) : M RefundResp :=
  marked <- attempt (markRefundReleaseFailed in_ refundID orderID cause) ;;
  match marked with
  | Err _ => throw (StatusError Internal "record inventory release failure failed")
  | Ok _ => throw (StatusError Unavailable "inventory release failed")
  end.

Definition release_and_complete (svcCtx : ServiceContext) (in_ : AuditRefundReq)
  (refund : externalRefund) : M RefundResp :=
  released <- attempt (releaseRefundStock svcCtx (ex_OrderID refund)) ;;
  match released with
  | Err err => report_release_failure in_ (ex_RefundID refund) (ex_OrderID refund) err
  | Ok _ =>
      o <- completeApprovedRefund in_ (ex_RefundID refund) (ex_OrderID refund) ;;
      match o with
      | AuditDone resp => ret resp
      | _ => throw DbError
      end
  end.

(** * The audit *)

Definition audit_row (refundID : string) (d : DB)
  : option (RefundOrder * Z * string) :=
  match refunds d !! refundID with
  | None => None
  | Some r =>
      match orders d !! r_order_id r, payments d !! r_payment_order_id r with
      | Some o, Some p => Some (r, o_status o, p_out_trade_no p)
      | _, _ => None
      end
  end.

Definition audit_body (svcCtx : ServiceContext) (in_ : AuditRefundReq) (refundID : string)
  : M (txend error audit_outcome) :=
  row <- query (audit_row refundID) DbError ;;
  match row with
  | None => throw (StatusError NotFound "refund order not found")
  | Some (r, orderStatus, outTradeNo) =>
      let orderID := r_order_id r in
      let refundStatus := r_status r in
      if refundStatus =? refundstatus.Success then
        require (ar_Approve in_)
          (StatusError FailedPrecondition "refund was already approved") ;;;
        released <- attempt (releaseRefundStock svcCtx orderID) ;;
        match released with
        | Err _ => throw (StatusError Unavailable "inventory release retry failed")
        | Ok _ => ret (Commit DbError (AuditDone (auditRefundResponse refundID orderID
                                orderstatus.Refunded refundstatus.Success true)))
        end
      else if refundStatus =? refundstatus.Rejected then
        require (negb (ar_Approve in_))
          (StatusError FailedPrecondition "refund was already rejected") ;;;
        ret (Commit DbError (AuditDone (auditRefundResponse refundID orderID orderStatus
                                          refundstatus.Rejected true)))
      else if negb (auditable r) then
        throw (StatusError FailedPrecondition "refund status cannot be audited")
      else if negb (orderStatus =? orderstatus.RefundRequested) then
        throw (StatusError FailedPrecondition "order is not waiting for refund audit")
      else if ar_Approve in_ then
        if str_eqb (r_provider r) NameAlipaySandbox then
          approve_external_tx svcCtx in_
            (mkExternal refundID orderID outTradeNo (r_provider_refund_id r)
               (r_provider_status r) (r_refund_amount_fen r) (r_reason r))
        else approveRefund svcCtx in_ refundID orderID
      else if str_eqb (r_provider_status r) "SUCCESS" || (refundStatus =? refundstatus.Approved)
      then throw (StatusError FailedPrecondition "approved provider refund cannot be rejected")
      else rejectRefund in_ refundID orderID
  end.

Definition AuditRefund (svcCtx : ServiceContext) (in_ : AuditRefundReq) : M RefundResp :=
  let refundID := trim_space (ar_RefundId in_) in
  require (negb (is_empty refundID || (ar_OperatorId in_ <=? 0)))
    (StatusError InvalidArgument "refund_id and operator_id are required") ;;;
  raw_db (StatusError Internal "db connection failed") ;;;
  outcome <- run_tx (StatusError Internal "begin refund audit transaction failed")
               (audit_body svcCtx in_ refundID) ;;
  match outcome with
  | AuditDone resp => ret resp
  | ReleaseFailed orderID cause => report_release_failure in_ refundID orderID cause
  | ProviderDone refund => release_and_complete svcCtx in_ refund
  | CallProvider refund => call_provider in_ refund ;;; release_and_complete svcCtx in_ refund
  end.
End refund.
