(* ===== verification/OrderCreate.v ===== *)
(** Creating orders: price quotes (app/order/rpc/internal/pricing/quote.go), the
    order branch of the checkout saga and its compensation
    (createOrderLogic.go, createOrderRollbackLogic.go) and the order detail
    (getorderdetaillogic.go). *)

From S2P Require Import Prelude Effects Sql GoText Common OrderStore.

(** * Quotes *)

(** [productpb.GetProductCardResp], the fields the order service reads. *)
Record ProductCard := mkCard {
  pc_ProductId : Z; pc_Name : string; pc_SupplierId : Z; pc_MerchantId : Z;
  pc_ImageUrl : string; pc_OriginPriceFen : Z; pc_FinalPriceFen : Z;
  pc_PromotionType : string; pc_PromotionTag : string; pc_StockAvailable : Z
}.

Record Quote := mkQuote {
  qt_ProductId : Z; qt_ProductName : string; qt_SupplierId : Z; qt_Amount : Z;
  qt_OriginUnitPriceFen : Z; qt_SaleUnitPriceFen : Z; qt_OriginAmountFen : Z;
  qt_PayableAmountFen : Z; qt_DiscountAmountFen : Z; qt_PromotionType : string;
  qt_PromotionTag : string
}.

Definition BuildQuote (card : option ProductCard) (amount : Z) : res string Quote :=
  match card with
  | None => Err "product card is required"
  | Some card =>
      fail_if amount <=? 0 with "amount must be positive" ;;
      fail_if pc_ProductId card <=? 0 with "product_id is required" ;;
      fail_if pc_OriginPriceFen card <=? 0 with "origin_price_fen must be positive" ;;
      fail_if pc_FinalPriceFen card <=? 0 with "final_price_fen must be positive" ;;
      fail_if pc_OriginPriceFen card <? pc_FinalPriceFen card
        with "final_price_fen cannot exceed origin_price_fen" ;;
      let originAmount := int64 (pc_OriginPriceFen card * amount) in
      let payableAmount := int64 (pc_FinalPriceFen card * amount) in
      Ok (mkQuote (pc_ProductId card) (pc_Name card) (pc_SupplierId card) amount
            (pc_OriginPriceFen card) (pc_FinalPriceFen card) originAmount payableAmount
            (int64 (originAmount - payableAmount)) (pc_PromotionType card)
            (pc_PromotionTag card))
  end.

(** [productclient.Product], the call the order service makes. *)
Class ProductClient (X : Type) := {
  prod_GetProductCard : Z -> X -> X * res error (option ProductCard)
}.

(** * Messages *)

Record CreateOrderReq := mkCreate {
  co_OrderId : string; co_RequestId : string; co_UserId : Z; co_ProductId : Z; co_Amount : Z;
  co_ExpectedPriceFen : Z
}.
Record CreateOrderResp := mkCreateResp {
  co_RespOrderId : string; co_Status : string; co_PayableAmountFen : Z; co_PaymentOrderId : string
}.

Definition orderStatusPendingPayment : string := "pending_payment".
Definition paymentOrderIDFor (orderID : string) : string := "pay:" +:+ orderID.
Definition outTradeNoFor (orderID : string) : string :=
  "FM" +:+ String.substring 0 40 (sha256_hex orderID).

Definition no_follow_up : follow_up := mkFollowUp 0 0 "" None.

(** The rows an order starts with. *)
Definition new_order (in_ : CreateOrderReq) (requestID : string) (merchantID now : Z) : Order :=
  mkOrder requestID (co_UserId in_) merchantID (co_ProductId in_) (co_Amount in_)
    orderstatus.PendingPayment None None None None now.

Definition new_snapshot (quote : Quote) (merchantID : Z) (imageUrl : string) : PriceSnapshot :=
  mkSnapshot (qt_ProductId quote) merchantID (qt_SupplierId quote) (qt_ProductName quote) imageUrl
    (qt_Amount quote) (qt_OriginUnitPriceFen quote) (qt_SaleUnitPriceFen quote)
    (qt_PayableAmountFen quote) (qt_DiscountAmountFen quote) (qt_PromotionType quote)
    (qt_PromotionTag quote).

Definition new_payment (orderID : string) (userID payable now : Z) : PaymentOrder :=
  mkPayment orderID userID payable paymentstatus.Init (outTradeNoFor orderID)
    (mkChannel "local_sandbox" "" "" "" None) None NoBody no_follow_up no_follow_up now.

Definition created_payload (in_ : CreateOrderReq) (requestID : string)
  (merchantID payable now : Z) : json_object :=
  list_to_map
    [("event_id", JString (order_created_event_id (co_OrderId in_)));
     ("event_type", JString "order.created");
     ("order_id", JString (co_OrderId in_));
     ("request_id", JString requestID);
     ("user_id", JNumber (co_UserId in_));
     ("merchant_id", JNumber merchantID);
     ("product_id", JNumber (co_ProductId in_));
     ("amount", JNumber (co_Amount in_));
     ("payable_amount_fen", JNumber payable);
     ("payment_order_id", JString (paymentOrderIDFor (co_OrderId in_)));
     ("created_at", JNumber now)].

(** The three [INSERT IGNORE] statements. *)
Definition insert_order (id : string) (o : Order) (d : DB) : DB :=
  with_orders (insert_ignore (fun o' => str_eqb (o_request_id o') (o_request_id o)) id o
                 (orders d)) d.
Definition insert_snapshot (id : string) (sn : PriceSnapshot) (d : DB) : DB :=
  with_snapshots (insert_ignore (fun _ => false) id sn (snapshots d)) d.
Definition insert_payment (id : string) (p : PaymentOrder) (d : DB) : DB :=
  with_payments (insert_ignore (fun p' => str_eqb (p_order_id p') (p_order_id p) ||
                                          str_eqb (p_out_trade_no p') (p_out_trade_no p)) id p
                   (payments d)) d.

Section create.
Context {X : Type} `{ProductClient X}.
Abbreviation M := (M DB X error).

(** [barrier.CallWithDB(db, body)]: the saga barrier runs the branch in a
    transaction, or finds it done or compensated already and skips it; [runs] is
    its answer, [None] the absence of a barrier in the request. *)
Definition CallWithDB (runs : bool) (body : M unit) : M unit :=
  run_tx DbError (if runs then body ;;; ret (Commit DbError tt) else ret (Commit DbError tt)).

Definition loadProductMerchantID (productID : Z) : M Z :=
  row <- query (fun d => product_merchant d !! productID) DbError ;;
  match row with
  | None => throw (StatusError NotFound "product not found")
  | Some v =>
      let merchantID := default 1000 v in
      ret (if merchantID <=? 0 then 1000 else merchantID)
  end.

Definition create_order_body (in_ : CreateOrderReq) (requestID : string) (merchantID : Z)
  (card : ProductCard) (quote : Quote) : M unit :=
  t <- get_now ;;
  sql (fun d => (insert_order (co_OrderId in_) (new_order in_ requestID merchantID t) d, tt))
    DbError ;;;
  sql (fun d => (insert_snapshot (co_OrderId in_)
                   (new_snapshot quote merchantID (pc_ImageUrl card)) d, tt)) DbError ;;;
  sql (fun d => (insert_payment (paymentOrderIDFor (co_OrderId in_))
                   (new_payment (co_OrderId in_) (co_UserId in_) (qt_PayableAmountFen quote) t) d,
                 tt)) DbError ;;;
  InsertOrderCreatedOutbox (co_OrderId in_)
    (created_payload in_ requestID merchantID (qt_PayableAmountFen quote) t).

Definition CreateOrder (svcCtx : ServiceContext) (barrier : option bool) (in_ : CreateOrderReq)
  : M CreateOrderResp :=
  require (negb (is_empty (co_OrderId in_)))
    (StatusError InvalidArgument "order_id is required") ;;;
  require (0 <? co_ProductId in_) (StatusError InvalidArgument "product_id is required") ;;;
  require (0 <? co_Amount in_) (StatusError InvalidArgument "amount must be positive") ;;;
  require (has_product_rpc svcCtx) (StatusError Internal "product rpc not configured") ;;;
  let requestID := if is_empty (co_RequestId in_) then co_OrderId in_ else co_RequestId in_ in
  loaded <- attempt (call (prod_GetProductCard (co_ProductId in_)) call_failed) ;;
  match loaded with
  | Err _ => throw (StatusError Internal "load product card failed")
  | Ok card =>
      match BuildQuote card (co_Amount in_), card with
      | Err msg, _ => throw (StatusError FailedPrecondition msg)
      | Ok _, None => throw (StatusError FailedPrecondition "product card is required")
      | Ok quote, Some card =>
          require (negb ((0 <? co_ExpectedPriceFen in_) &&
                         negb (co_ExpectedPriceFen in_ =? qt_PayableAmountFen quote)))
            (StatusError FailedPrecondition "price changed, please retry checkout") ;;;
          merchantID <- (if pc_MerchantId card <=? 0 then loadProductMerchantID (co_ProductId in_)
                         else ret (pc_MerchantId card)) ;;
          match barrier with
          | None => throw (StatusError Internal "DTM barrier not found")
          | Some runs =>
              raw_db (StatusError Internal "db connection failed") ;;;
              CallWithDB runs (create_order_body in_ requestID merchantID card quote) ;;;
              ret (mkCreateResp (co_OrderId in_) orderStatusPendingPayment
                     (qt_PayableAmountFen quote) (paymentOrderIDFor (co_OrderId in_)))
          end
      end
  end.

(** * Compensation *)

Definition rollback_body (orderID : string) : M unit :=
  exec_orders (at_key orderID (fun o => o_status o =? orderstatus.PendingPayment))
    (set_status orderstatus.Closed) DbError ;;; ret tt.

Definition CreateOrderRollback (barrier : option bool) (in_ : CreateOrderReq) : M unit :=
  require (negb (is_empty (co_OrderId in_)))
    (StatusError InvalidArgument "order_id is required") ;;;
  match barrier with
  | None => throw (StatusError Internal "DTM barrier not found")
  | Some runs =>
      raw_db (StatusError Internal "db connection failed") ;;;
      CallWithDB runs (rollback_body (co_OrderId in_))
  end.

(** * Order detail *)

Record GetOrderDetailResp := mkDetail {
  gd_OrderId : string; gd_UserId : Z; gd_OrderStatus : string; gd_PayableAmountFen : Z;
  gd_PaymentStatus : string; gd_OriginPriceFen : Z; gd_DiscountAmountFen : Z
}.

Definition orderDetailStatusText (statusCode : Z) : string :=
  if statusCode =? orderstatus.PendingPayment then "PENDING_PAYMENT"
  else if statusCode =? orderstatus.Paid then "PAID"
  else if statusCode =? orderstatus.Closed then "CLOSED"
  else if statusCode =? orderstatus.Shipped then "SHIPPED"
  else if statusCode =? orderstatus.Completed then "COMPLETED"
  else if statusCode =? orderstatus.RefundRequested then "REFUND_REQUESTED"
  else if statusCode =? orderstatus.Refunded then "REFUNDED"
  else "UNKNOWN".

Definition detail_row (orderID : string) (d : DB)
  : option (Order * PriceSnapshot * PaymentOrder) :=
  match orders d !! orderID, snapshots d !! orderID, select (for_order orderID) (payments d) with
  | Some o, Some sn, Some (_, p) => Some (o, sn, p)
  | _, _, _ => None
  end.

Definition GetOrderDetail (orderId : string) : M GetOrderDetailResp :=
  let orderID := trim_space orderId in
  require (negb (is_empty orderID)) (StatusError InvalidArgument "order_id is required") ;;;
  row <- query (detail_row orderID) DbError ;;
  match row with
  | None => throw (StatusError NotFound "order detail not found")
  | Some (o, sn, p) =>
      ret (mkDetail orderID (o_user_id o) (orderDetailStatusText (o_status o))
             (s_payable_amount_fen sn) (paymentstatus.Text (p_status p))
             (int64 (s_origin_unit_price_fen sn * s_amount sn)) (s_discount_amount_fen sn))
  end.
End create.

(** * Quotes are exact *)

(** A quote never charges more than the original price: when the original amount
    fits in [int64], every amount is the exact product, what is paid and what is
    discounted add up to the original amount, and both are in range. *)
Theorem BuildQuote_exact card amount q :
  BuildQuote (Some card) amount = Ok q ->
  pc_OriginPriceFen card * amount <= int64_max ->
  qt_OriginAmountFen q = pc_OriginPriceFen card * amount /\
  qt_PayableAmountFen q = pc_FinalPriceFen card * amount /\
  qt_PayableAmountFen q + qt_DiscountAmountFen q = qt_OriginAmountFen q /\
  0 < qt_PayableAmountFen q <= qt_OriginAmountFen q.
Proof.
  unfold BuildQuote. repeat (split_test; [done|]). intros [= <-] Hmax. bools. simpl.
  assert (0 < pc_FinalPriceFen card * amount <= pc_OriginPriceFen card * amount) by nia.
  assert (0 < pc_OriginPriceFen card * amount) by lia.
  rewrite !int64_id by (unfold_int64; rewrite ?int64_id by (unfold_int64; lia); lia). lia.
Qed.

(** What a quote refuses: no card, no units, no product, no price, or a sale price
    above the original one. *)
Theorem BuildQuote_total card amount :
  is_ok (BuildQuote card amount) = true <->
  exists c, card = Some c /\ 0 < amount /\ 0 < pc_ProductId c /\
    0 < pc_FinalPriceFen c <= pc_OriginPriceFen c.
Proof.
  unfold BuildQuote. destruct card as [c|]; [|by split; [|intros (c&?&_)]].
  split.
  - repeat (split_test; [done|]). intros _. bools. exists c. split; [done|]. lia.
  - intros (c'&[= <-]&H). repeat (split_test; [exfalso; bools; lia|]). done.
Qed.

Lemma BuildQuote_exact_witness :
  let card := mkCard 100 "tea" 5 9 "" 1200 1000 "flash" "sale" 10 in
  exists q, BuildQuote (Some card) 2 = Ok q /\ qt_PayableAmountFen q = 2000 /\
    qt_PayableAmountFen q + qt_DiscountAmountFen q = qt_OriginAmountFen q.
Proof.
  cbv zeta. eexists. split; [reflexivity|].
  destruct (BuildQuote_exact (mkCard 100 "tea" 5 9 "" 1200 1000 "flash" "sale" 10) 2 _ eq_refl)
    as (_&H1&H2&_); [vm_compute; congruence|]. split; [exact H1|exact H2].
Defined.
