(* ===== verification/PreDeduct.v ===== *)
(** The stock branch of the checkout saga
    (app/order/rpc/internal/logic/preDeductLogic.go, preDeductRollbackLogic.go):
    through the inventory service, or by Lua scripts on sharded Redis counters.

    The Redis keys of this branch hold integers (stock counters, the shard an
    order took from, a rollback mark).  A script runs atomically.  The marks
    expire a day later; the model follows an order within that day.  Lua numbers
    are exact up to [2^53]. *)

From S2P Require Import Prelude Effects Sql Common Shards OrderStore OrderCreate.

Abbreviation redis := (gmap string Z).

Definition try_key (orderID : string) : string := "order:pre_deduct:try:" +:+ orderID.
Definition rollback_key (orderID : string) : string := "order:pre_deduct:rollback:" +:+ orderID.

(** [KEYS[idx]] of a script, 1-based. *)
Definition KEYS (keys : list string) (idx : Z) : option string :=
  if idx <? 1 then None else keys !! Z.to_nat (idx - 1).

Definition has_key (k : option string) (r : redis) : bool :=
  match k with Some k => bool_decide (is_Some (r !! k)) | None => false end.

(** [preDeductLuaScript]: the loop from offset [i] over the remaining shards. *)
Fixpoint take_shard (keys : list string) (shardCount start amount : Z) (tryKey : option string)
  (n : nat) (i : Z) (hasStockKey : bool) (r : redis) : redis * Z :=
  match n with
  | O => (r, if hasStockKey then -2 else -1)
  | S n' =>
      let idx := (start + i) mod shardCount + 1 in
      match KEYS keys idx with
      | None => take_shard keys shardCount start amount tryKey n' (i + 1) hasStockKey r
      | Some stockKey =>
          match r !! stockKey with
          | None => take_shard keys shardCount start amount tryKey n' (i + 1) hasStockKey r
          | Some stock =>
              if amount <=? stock then
                let r := <[stockKey := stock - amount]> r in
                let r := match tryKey with Some k => <[k := idx]> r | None => r end in
                (r, stock - amount)
              else take_shard keys shardCount start amount tryKey n' (i + 1) true r
          end
      end
  end.

Definition preDeductLuaScript (keys : list string) (amount shardCount start : Z) (r : redis)
  : redis * Z :=
  let tryKey := KEYS keys (shardCount + 1) in
  let rollbackKey := KEYS keys (shardCount + 2) in
  if has_key rollbackKey r then (r, 1)
  else if has_key tryKey r then (r, 1)
  else take_shard keys shardCount start amount tryKey (Z.to_nat shardCount) 0 false r.

(** The rollback script. *)
Definition rollbackLuaScript (keys : list string) (amount shardCount : Z) (r : redis) : redis * Z :=
  let tryKey := KEYS keys (shardCount + 1) in
  let rollbackKey := KEYS keys (shardCount + 2) in
  let mark r := match rollbackKey with Some k => <[k := 1]> r | None => r end in
  if has_key rollbackKey r then (r, 1)
  else
    match (match tryKey with Some k => r !! k | None => None end) with
    | None => (mark r, 1)
    | Some shardIndex =>
        let r := match KEYS keys shardIndex with
                 | Some stockKey => <[stockKey := default 0 (r !! stockKey) + amount]> r
                 | None => r
                 end in
        (mark r, 1)
    end.

(** The self-heal script: [setnx] of every shard. *)
Fixpoint seedLuaScript (keys : list string) (values : list Z) (r : redis) : redis :=
  match keys, values with
  | k :: keys', v :: values' =>
      seedLuaScript keys' values' (match r !! k with Some _ => r | None => <[k := v]> r end)
  | _, _ => r
  end.

(** The part of the external state the scripts run on. *)
Class HasRedis (X : Type) := {
  get_redis : X -> redis;
  put_redis : redis -> X -> X
}.

Section pre_deduct.
Context {X : Type} `{InventoryClient X} `{ProductClient X} `{HasRedis X}.
Abbreviation M := (M DB X error).

Record PreDeductReq := mkPreDeduct { pd_OrderId : string; pd_ProductId : Z; pd_Amount : Z }.

Definition eval {A} (script : redis -> redis * A) : M A :=
  call (fun x => let '(r, a) := script (get_redis x) in (put_redis r x, Ok a)) call_failed.

Definition order_keys (svcCtx : ServiceContext) (in_ : PreDeductReq) : list string :=
  StockShardKeys (pd_ProductId in_) (StockShardCount svcCtx) ++
    [try_key (pd_OrderId in_); rollback_key (pd_OrderId in_)].

Definition evalPreDeduct (svcCtx : ServiceContext) (in_ : PreDeductReq) : M Z :=
  let shardCount := stockShardCount (StockShardCount svcCtx) in
  eval (preDeductLuaScript (order_keys svcCtx in_) (pd_Amount in_) shardCount
          (stockShardStartIndex (pd_OrderId in_) shardCount)).

Definition ensureRedisStockInitialized (svcCtx : ServiceContext) (productID : Z) : M bool :=
  require (has_product_rpc svcCtx) (OtherError "product rpc not configured") ;;;
  card <- call (prod_GetProductCard productID) call_failed ;;
  let total := match card with Some c => pc_StockAvailable c | None => 0 end in
  let total := if total <? 0 then 0 else total in
  let shardCount := stockShardCount (StockShardCount svcCtx) in
  eval (fun r => (seedLuaScript (StockShardKeys productID (StockShardCount svcCtx))
                    (splitStockAcrossShards total shardCount) r, tt)) ;;;
  ret true.

Definition PreDeduct (svcCtx : ServiceContext) (in_ : PreDeductReq) : M unit :=
  require (negb (is_empty (pd_OrderId in_))) (StatusError InvalidArgument "order_id is required") ;;;
  if has_inventory svcCtx then
    call (inv_ReserveStock (pd_OrderId in_) (pd_ProductId in_) (pd_Amount in_)) call_failed
  else
    let failed := StatusError Internal "redis pre-deduct failed" in
    first <- attempt (evalPreDeduct svcCtx in_) ;;
    match first with
    | Err _ => throw failed
    | Ok ret1 =>
        ret2 <- (if ret1 =? -1 then
                   healed <- attempt (ensureRedisStockInitialized svcCtx (pd_ProductId in_)) ;;
                   match healed with
                   | Ok true =>
                       again <- attempt (evalPreDeduct svcCtx in_) ;;
                       match again with Err _ => throw failed | Ok v => ret v end
                   | _ => ret ret1
                   end
                 else ret ret1) ;;
        if ret2 =? -1 then throw (StatusError FailedPrecondition "stock not initialized")
        else if ret2 =? -2 then throw (StatusError Aborted "insufficient stock")
        else ret tt
    end.

Definition PreDeductRollback (svcCtx : ServiceContext) (in_ : PreDeductReq) : M unit :=
  require (negb (is_empty (pd_OrderId in_))) (StatusError InvalidArgument "order_id is required") ;;;
  if has_inventory svcCtx then
    call (inv_ReleaseStock (pd_OrderId in_) "pre_deduct_rollback") call_failed
  else
    let shardCount := stockShardCount (StockShardCount svcCtx) in
    r <- attempt (eval (rollbackLuaScript (order_keys svcCtx in_) (pd_Amount in_) shardCount)) ;;
    match r with
    | Err _ => throw (StatusError Internal "redis pre-deduct rollback failed")
    | Ok _ => ret tt
    end.
End pre_deduct.

(** * Keys *)

Lemma string_app_inj_l (p a b : string) : p +:+ a = p +:+ b -> a = b.
Proof. induction p as [|c p IH]; simpl; [done|]. intros [= H]. auto. Qed.

Lemma stock_key_inj p i j : stock_key p i = stock_key p j -> i = j.
Proof.
  unfold stock_key. intros H. apply string_app_inj_l, string_app_inj_l, string_app_inj_l in H.
  by apply itoa_inj.
Qed.

Lemma try_key_inj a b : try_key a = try_key b -> a = b.
Proof. apply string_app_inj_l. Qed.

Lemma rollback_key_inj a b : rollback_key a = rollback_key b -> a = b.
Proof. apply string_app_inj_l. Qed.

Lemma stock_try p i o : stock_key p i <> try_key o.
Proof. done. Qed.
Lemma stock_rollback p i o : stock_key p i <> rollback_key o.
Proof. done. Qed.
Lemma try_rollback a b : try_key a <> rollback_key b.
Proof. done. Qed.

Lemma shard_keys_elem p c k :
  k ∈ StockShardKeys p c <-> exists i, 0 <= i < NormalizeShardCount c /\ k = stock_key p i.
Proof.
  unfold StockShardKeys. rewrite list_elem_of_fmap. setoid_rewrite elem_of_seq.
  pose proof (NormalizeShardCount_pos c). split.
  - intros (i&->&Hi). exists (Z.of_nat i). split; [lia|done].
  - intros (i&Hi&->). exists (Z.to_nat i). rewrite Z2Nat.id by lia. split; [done|lia].
Qed.

Lemma shard_keys_NoDup p c : NoDup (StockShardKeys p c).
Proof.
  unfold StockShardKeys. apply NoDup_fmap_2; [|apply NoDup_seq].
  intros i j H. apply stock_key_inj in H. lia.
Qed.

Lemma shard_keys_lookup p c i :
  0 <= i < NormalizeShardCount c -> StockShardKeys p c !! Z.to_nat i = Some (stock_key p i).
Proof.
  intros Hi. unfold StockShardKeys. rewrite list_lookup_fmap, lookup_seq_lt by lia. simpl.
  by rewrite Z2Nat.id by lia.
Qed.

(** ** Sums of counters *)

Definition counters (ks : list string) (r : redis) : Z := sumZ (fun k => default 0 (r !! k)) ks.

Lemma counters_ne ks k v r : k ∉ ks -> counters ks (<[k := v]> r) = counters ks r.
Proof.
  intros Hk. apply sumZ_ext, Forall_forall. intros k' Hk'. cbv beta. rewrite lookup_insert_ne; [done|].
  intros ->. by apply Hk.
Qed.

Lemma counters_insert ks k v r :
  NoDup ks -> k ∈ ks -> counters ks (<[k := v]> r) = counters ks r - default 0 (r !! k) + v.
Proof.
  intros Hnd. induction Hnd as [|k' ks Hk' Hnd IH]; intros Hk; [by apply elem_of_nil in Hk|].
  unfold counters in *. cbn [sumZ foldr]. fold (sumZ (fun k => default 0 (r !! k)) ks).
  fold (sumZ (fun k0 => default 0 (<[k := v]> r !! k0)) ks).
  apply elem_of_cons in Hk as [->|Hk].
  - rewrite lookup_insert_eq. simpl. pose proof (counters_ne ks k' v r Hk') as Hc.
    unfold counters in Hc. rewrite Hc. lia.
  - rewrite lookup_insert_ne by (intros ->; done). rewrite (IH Hk). lia.
Qed.

(** * The scripts on the keys of a product and an order *)

Section conserve.
Context (p c : Z) (amt : string -> Z) (Hamt : forall o, 0 <= amt o).
Abbreviation n := (NormalizeShardCount c).

Definition keys_of (o : string) : list string :=
  StockShardKeys p c ++ [try_key o; rollback_key o].

Definition pre (o : string) (r : redis) : redis :=
  (preDeductLuaScript (keys_of o) (amt o) n (stockShardStartIndex o n) r).1.
Definition back (o : string) (r : redis) : redis :=
  (rollbackLuaScript (keys_of o) (amt o) n r).1.

Lemma KEYS_shard o i : 1 <= i <= n -> KEYS (keys_of o) i = Some (stock_key p (i - 1)).
Proof.
  intros Hi. unfold KEYS. replace (i <? 1) with false by (symmetry; apply Z.ltb_ge; lia).
  unfold keys_of. rewrite lookup_app_l.
  - apply shard_keys_lookup. lia.
  - pose proof (length_StockShardKeys p c). lia.
Qed.

Lemma KEYS_tail o i (k : nat) x :
  i = n + 1 + Z.of_nat k -> [try_key o; rollback_key o] !! k = Some x -> KEYS (keys_of o) i = Some x.
Proof.
  intros -> Hx. pose proof (NormalizeShardCount_pos c). pose proof (length_StockShardKeys p c).
  unfold KEYS. replace (_ <? 1) with false by (symmetry; apply Z.ltb_ge; lia).
  unfold keys_of. rewrite lookup_app_r by lia. rewrite <- Hx. f_equal. lia.
Qed.

Lemma KEYS_try o : KEYS (keys_of o) (n + 1) = Some (try_key o).
Proof. by apply (KEYS_tail o _ 0%nat); [lia|]. Qed.

Lemma KEYS_rollback o : KEYS (keys_of o) (n + 2) = Some (rollback_key o).
Proof. by apply (KEYS_tail o _ 1%nat); [lia|]. Qed.

Lemma has_key_Some k r : has_key (Some k) r = bool_decide (is_Some (r !! k)).
Proof. done. Qed.

(** What the shard loop does: nothing, or a deduction from one shard that
    covers it, recorded under the try key. *)
Lemma take_shard_spec o start m i b r :
  (take_shard (keys_of o) n start (amt o) (Some (try_key o)) m i b r).1 = r \/
  exists j stock, 0 <= j < n /\ r !! stock_key p j = Some stock /\ amt o <= stock /\
    (take_shard (keys_of o) n start (amt o) (Some (try_key o)) m i b r).1 =
      <[try_key o := j + 1]> (<[stock_key p j := stock - amt o]> r).
Proof.
  revert i b. induction m as [|m IH]; intros i b; simpl; [by left|].
  pose proof (NormalizeShardCount_pos c). pose proof (Z.mod_pos_bound (start + i) n ltac:(lia)).
  rewrite KEYS_shard by lia. replace ((start + i) mod n + 1 - 1) with ((start + i) mod n) by lia.
  destruct (r !! stock_key p ((start + i) mod n)) as [stock|] eqn:Hs; [|apply IH].
  destruct (amt o <=? stock) eqn:Ha; [|apply IH]. bools. right.
  exists ((start + i) mod n), stock. done.
Qed.

Definition held (o : string) (r : redis) : bool :=
  has_key (Some (try_key o)) r && negb (has_key (Some (rollback_key o)) r).

Lemma pre_spec o r :
  pre o r = r \/
  (has_key (Some (try_key o)) r = false /\ has_key (Some (rollback_key o)) r = false /\
   exists j stock, 0 <= j < n /\ r !! stock_key p j = Some stock /\ amt o <= stock /\
     pre o r = <[try_key o := j + 1]> (<[stock_key p j := stock - amt o]> r)).
Proof.
  unfold pre, preDeductLuaScript. rewrite KEYS_try, KEYS_rollback.
  destruct (has_key (Some (rollback_key o)) r); [by left|].
  destruct (has_key (Some (try_key o)) r); [by left|].
  match goal with |- context [take_shard _ _ ?st _ _ ?m ?i ?b _] =>
    destruct (take_shard_spec o st m i b r) as [Ht|Ht] end; auto.
Qed.

(** The try keys hold shard numbers. *)
Definition marks_ok (r : redis) : Prop := forall o v, r !! try_key o = Some v -> 1 <= v <= n.

Lemma back_spec o r :
  marks_ok r ->
  (back o r = r /\ has_key (Some (rollback_key o)) r = true) \/
  (has_key (Some (rollback_key o)) r = false /\ has_key (Some (try_key o)) r = false /\
   back o r = <[rollback_key o := 1]> r) \/
  (held o r = true /\ exists j, 0 <= j < n /\
   back o r = <[rollback_key o := 1]>
                (<[stock_key p j := default 0 (r !! stock_key p j) + amt o]> r)).
Proof.
  intros Hm. unfold back, rollbackLuaScript, held. rewrite KEYS_try, KEYS_rollback.
  destruct (has_key (Some (rollback_key o)) r) eqn:Hr; [by left|]. right.
  rewrite has_key_Some. destruct (r !! try_key o) as [v|] eqn:Ht.
  - right. rewrite bool_decide_eq_true_2 by done. split; [done|]. specialize (Hm _ _ Ht).
    exists (v - 1). split; [lia|]. by rewrite KEYS_shard by lia.
  - left. by rewrite bool_decide_eq_false_2 by (by intros [? ?]).
Qed.

Lemma has_key_insert k k' v r :
  has_key (Some k) (<[k' := v]> r) = bool_decide (k' = k) || has_key (Some k) r.
Proof.
  rewrite !has_key_Some. rewrite lookup_insert. case_decide as Hd.
  - rewrite (bool_decide_eq_true_2 (k' = k)) by done. by rewrite bool_decide_eq_true_2.
  - by rewrite (bool_decide_eq_false_2 (k' = k)).
Qed.

Lemma held_stock o i v r : held o (<[stock_key p i := v]> r) = held o r.
Proof.
  unfold held. rewrite !has_key_insert.
  rewrite (bool_decide_eq_false_2 (stock_key p i = try_key o)) by apply stock_try.
  by rewrite (bool_decide_eq_false_2 (stock_key p i = rollback_key o)) by apply stock_rollback.
Qed.

Lemma held_try o o' v r :
  held o (<[try_key o' := v]> r) =
  (bool_decide (o' = o) || has_key (Some (try_key o)) r) && negb (has_key (Some (rollback_key o)) r).
Proof.
  unfold held. rewrite !has_key_insert.
  rewrite (bool_decide_eq_false_2 (try_key o' = rollback_key o)) by apply try_rollback.
  rewrite orb_false_l. by rewrite (bool_decide_ext (try_key o' = try_key o) (o' = o)) by
    (split; [apply try_key_inj|congruence]).
Qed.

Lemma held_rollback o o' v r :
  held o (<[rollback_key o' := v]> r) = negb (bool_decide (o' = o)) && held o r.
Proof.
  unfold held. rewrite !has_key_insert.
  rewrite (bool_decide_eq_false_2 (rollback_key o' = try_key o)) by (intros H; by apply eq_sym in H).
  rewrite orb_false_l.
  rewrite (bool_decide_ext (rollback_key o' = rollback_key o) (o' = o)) by
    (split; [apply rollback_key_inj|congruence]).
  rewrite negb_orb. by destruct (has_key (Some (try_key o)) r), (bool_decide (o' = o)).
Qed.

Definition shards (r : redis) : Z := counters (StockShardKeys p c) r.

Definition held_sum (os : list string) (r : redis) : Z :=
  sumZ (fun o => if held o r then amt o else 0) os.

Lemma shards_stock j v r :
  0 <= j < n -> shards (<[stock_key p j := v]> r) = shards r - default 0 (r !! stock_key p j) + v.
Proof.
  intros Hj. apply counters_insert; [apply shard_keys_NoDup|]. apply shard_keys_elem. eauto.
Qed.

Lemma shards_mark k v r :
  (forall i, stock_key p i <> k) -> shards (<[k := v]> r) = shards r.
Proof.
  intros Hk. apply counters_ne. rewrite shard_keys_elem. intros (i&_&->). by apply (Hk i).
Qed.

(** Changing whether one order holds units. *)
Lemma held_sum_one os o r r' :
  NoDup os -> o ∈ os -> (forall o', o' <> o -> held o' r' = held o' r) ->
  held_sum os r' = held_sum os r - (if held o r then amt o else 0) + (if held o r' then amt o else 0).
Proof.
  intros Hnd. induction Hnd as [|x os Hx Hnd IH]; intros Ho Hne; [by apply elem_of_nil in Ho|].
  unfold held_sum in *. cbn [sumZ foldr].
  fold (sumZ (fun o => if held o r then amt o else 0) os).
  fold (sumZ (fun o => if held o r' then amt o else 0) os).
  apply elem_of_cons in Ho as [->|Ho].
  - rewrite (sumZ_ext _ (fun o => if held o r then amt o else 0) os); [lia|].
    apply Forall_forall. intros y Hy. cbv beta. rewrite Hne; [done|]. intros ->. by apply Hx.
  - rewrite (Hne x) by (intros ->; done). rewrite (IH Ho Hne). lia.
Qed.

Definition counters_ok (r : redis) : Prop :=
  forall j v, 0 <= j < n -> r !! stock_key p j = Some v -> 0 <= v.

(** One script run keeps the books. *)
Lemma script_conserves os o r (b : bool) :
  NoDup os -> o ∈ os -> marks_ok r -> counters_ok r ->
  let r' := if b then pre o r else back o r in
  marks_ok r' /\ counters_ok r' /\ shards r' + held_sum os r' = shards r + held_sum os r.
Proof.
  intros Hnd Ho Hm Hc. destruct b; simpl.
  - destruct (pre_spec o r) as [->|(Ht&Hr&j&stock&Hj&Hs&Ha&->)]; [done|].
    assert (held o r = false) as Hh by (unfold held; by rewrite Ht).
    split; [|split].
    + intros o' v. rewrite lookup_insert. case_decide; [intros [= <-]; lia|].
      rewrite lookup_insert_ne by done. apply Hm.
    + intros j' v Hj'. rewrite lookup_insert_ne by done. rewrite lookup_insert. case_decide.
      * intros [= <-]. lia.
      * by apply Hc.
    + rewrite shards_mark, shards_stock by done. rewrite Hs. simpl.
      rewrite (held_sum_one os o r) by
        (try done; intros o' Hne; rewrite held_try, !has_key_insert;
         rewrite !bool_decide_eq_false_2 by (done || congruence); done).
      rewrite Hh, held_try, !has_key_insert. rewrite (bool_decide_eq_true_2 (o = o)) by done.
      rewrite bool_decide_eq_false_2 by done. rewrite Hr. simpl. lia.
  - destruct (back_spec o r Hm) as [[-> _]|[(Hr&Ht&->)|(Hh&j&Hj&->)]]; [done| |].
    + split; [|split].
      * intros o' v. rewrite lookup_insert_ne by done. apply Hm.
      * intros j' v Hj'. rewrite lookup_insert_ne by done. by apply Hc.
      * rewrite shards_mark by done.
        rewrite (held_sum_one os o r) by
          (try done; intros o' Hne; rewrite held_rollback, bool_decide_eq_false_2 by congruence; done).
        rewrite held_rollback, bool_decide_eq_true_2 by done. simpl.
        unfold held. rewrite Ht. simpl. lia.
    + pose proof (Hamt o). split; [|split].
      * intros o' v. rewrite lookup_insert_ne by done. rewrite lookup_insert_ne by done. apply Hm.
      * intros j' v Hj'. rewrite lookup_insert_ne by done. rewrite lookup_insert. case_decide; [|by apply Hc].
        intros [= <-]. destruct (r !! stock_key p j) as [w|] eqn:Hw; simpl; [|lia].
        specialize (Hc _ _ Hj Hw). lia.
      * rewrite shards_mark, shards_stock by done.
        rewrite (held_sum_one os o r) by
          (try done; intros o' Hne; rewrite held_rollback, held_stock, bool_decide_eq_false_2 by congruence; done).
        rewrite held_rollback, bool_decide_eq_true_2 by done. rewrite Hh. simpl. lia.
Qed.

(** A run of branch calls for orders of this product: [true] is the deduction,
    [false] its compensation. *)
Definition run_scripts (ops : list (bool * string)) (r : redis) : redis :=
  foldl (fun r op => if op.1 : bool then pre op.2 r else back op.2 r) r ops.


Lemma has_key_back o r : marks_ok r -> has_key (Some (rollback_key o)) (back o r) = true.
Proof.
  intros Hm. destruct (back_spec o r Hm) as [[-> ?]|[(_&_&->)|(_&j&_&->)]]; [done|..];
    rewrite has_key_insert, bool_decide_eq_true_2 by done; done.
Qed.

Lemma rolled_back_noop o r :
  has_key (Some (rollback_key o)) r = true -> pre o r = r /\ back o r = r.
Proof.
  intros Hr. unfold pre, back, preDeductLuaScript, rollbackLuaScript.
  by rewrite KEYS_try, KEYS_rollback, Hr.
Qed.

(** The branch is a well-behaved saga step: deducting twice is deducting
    once, compensating twice is compensating once, a deduction that arrives
    after the compensation (even if there was nothing to compensate) does
    nothing, and compensating a fresh order's deduction puts every shard back to
    what it was. *)
Theorem pre_deduct_saga o r :
  marks_ok r ->
  (has_key (Some (try_key o)) (pre o r) = true -> pre o (pre o r) = pre o r) /\
  back o (back o r) = back o r /\ pre o (back o r) = back o r /\
  (has_key (Some (try_key o)) r = false -> has_key (Some (rollback_key o)) r = false ->
   forall j, back o (pre o r) !! stock_key p j = r !! stock_key p j).
Proof.
  intros Hm. pose proof (rolled_back_noop o _ (has_key_back o r Hm)) as [Hp Hb].
  split; [|split; [done|split; [done|]]].
  - intros Ht. unfold pre at 1, preDeductLuaScript. rewrite KEYS_try, KEYS_rollback, Ht.
    destruct (has_key (Some (rollback_key o)) _); reflexivity.
  - intros Ht Hr j. destruct (pre_spec o r) as [->|(_&_&i&stock&Hi&Hs&_&->)].
    + destruct (back_spec o r Hm) as [[-> _]|[(_&_&->)|(Hh&_)]]; [done| |].
      * by rewrite lookup_insert_ne.
      * unfold held in Hh. by rewrite Ht in Hh.
    + unfold back, rollbackLuaScript. rewrite KEYS_try, KEYS_rollback, !has_key_insert, Hr.
      rewrite (bool_decide_eq_false_2 (try_key o = rollback_key o)) by apply try_rollback.
      rewrite (bool_decide_eq_false_2 (stock_key p i = rollback_key o)) by apply stock_rollback.
      cbn [orb]. rewrite lookup_insert_eq. rewrite KEYS_shard by lia.
      replace (i + 1 - 1) with i by lia. cbn [fst].
      rewrite (lookup_insert_ne _ (rollback_key o)) by done.
      rewrite (lookup_insert_ne _ (try_key o) (stock_key p i)) by done. rewrite lookup_insert_eq.
      cbn [default from_option id]. destruct (decide (i = j)) as [->|Hne].
      * rewrite lookup_insert_eq, Hs. f_equal. lia.
      * rewrite !lookup_insert_ne; [done| |done|]; by intros ?%stock_key_inj.
Qed.
End conserve.

(** Two shards of product 7 with 3 and 2 units. *)
Definition sample_redis : redis := <[stock_key 7 0 := 3]> {[stock_key 7 1 := 2]}.
Definition sample_amt (o : string) : Z := if str_eqb o "a" then 2 else 3.

Lemma sample_redis_ok : marks_ok 2 sample_redis /\ counters_ok 7 2 sample_redis.
Proof.
  split.
  - intros o v. unfold sample_redis. by rewrite lookup_insert_ne, lookup_singleton_ne.
  - intros j v Hj. change (NormalizeShardCount 2) with 2 in Hj. assert (j = 0 \/ j = 1) as [-> | ->] by lia.
    + intros Hl. vm_compute in Hl. by simplify_eq.
    + intros Hl. vm_compute in Hl. by simplify_eq.
Qed.

Definition sample_ops : list (bool * string) :=
  [(true, "a"); (true, "b"); (true, "a"); (false, "b"); (true, "b"); (false, "c"); (true, "c")].


Lemma pre_deduct_saga_witness :
  pre 7 2 sample_amt "a" (back 7 2 sample_amt "a" sample_redis) =
    back 7 2 sample_amt "a" sample_redis /\
  back 7 2 sample_amt "a" (pre 7 2 sample_amt "a" sample_redis) !! stock_key 7 0 = Some 3.
Proof.
  pose proof (pre_deduct_saga 7 2 sample_amt "a" sample_redis (proj1 sample_redis_ok))
    as (_&_&H3&H4).
  split; [done|]. rewrite H4; by vm_compute.
Defined.
