(* ===== verification/OrderSystem.v ===== *)
(** The order service as a transition system: the atomic changes its
    transactions make to the database ([step]), the integrity invariant of the
    database and the life-cycle properties that follow.  That the handlers make
    only these changes is proved in OrderSteps.v. *)

From S2P Require Import Prelude Sql Common OrderStore.

(** * Integrity *)

(** The log entries of an order form a path of moves from [s] to [t]. *)
Fixpoint log_path (s : Z) (l : list StatusLog) (t : Z) : Prop :=
  match l with
  | [] => s = t
  | e :: l' => l_from_status e = s /\ orderstatus.move s (l_to_status e) /\
               log_path (l_to_status e) l' t
  end.

Definition log_of (id : string) (log : list StatusLog) : list StatusLog :=
  filter (fun l => l_order_id l = id) log.

(** The log explains the status; the saga compensation closes a pending order
    without writing to the log. *)
Definition log_ok (id : string) (st : Z) (log : list StatusLog) : Prop :=
  log_path orderstatus.PendingPayment (log_of id log) st \/
  (st = orderstatus.Closed /\ log_of id log = []).

(** The statuses of a paid order. *)
Definition settled (st : Z) : bool :=
  (st =? orderstatus.Paid) || (st =? orderstatus.Shipped) || (st =? orderstatus.Completed) ||
  (st =? orderstatus.RefundRequested) || (st =? orderstatus.Refunded).

Definition payment_fits (pst : Z) (ost : option Z) : bool :=
  if pst =? paymentstatus.Success then
    match ost with Some st => settled st | None => false end
  else if pst =? paymentstatus.Closed then
    match ost with Some st => st =? orderstatus.Closed | None => false end
  else if pst =? paymentstatus.Init then
    match ost with
    | Some st => (st =? orderstatus.PendingPayment) || (st =? orderstatus.Closed)
    | None => true
    end
  else false.

Definition refund_open (rst : Z) : bool :=
  (rst =? refundstatus.Requested) || (rst =? refundstatus.Approved) || (rst =? refundstatus.Failed).

Definition refund_fits (rst ost : Z) : bool :=
  if refund_open rst then ost =? orderstatus.RefundRequested
  else if rst =? refundstatus.Success then ost =? orderstatus.Refunded
  else if rst =? refundstatus.Rejected then
    (ost =? orderstatus.Paid) || (ost =? orderstatus.Shipped) || (ost =? orderstatus.Completed)
  else false.

Definition status_of (d : DB) (id : string) : option Z := o_status <$> orders d !! id.

Definition paid_payment (d : DB) (id : string) (k : string) (p : PaymentOrder) : Prop :=
  payments d !! k = Some p /\ p_order_id p = id /\ p_status p = paymentstatus.Success.

Record order_inv (d : DB) : Prop := {
  oi_log id st : status_of d id = Some st -> log_ok id st (status_log d);
  oi_log_none id : status_of d id = None -> log_of id (status_log d) = [];
  oi_pay_unique k1 p1 k2 p2 : payments d !! k1 = Some p1 -> payments d !! k2 = Some p2 ->
    p_order_id p1 = p_order_id p2 -> k1 = k2;
  oi_pay_status k p : payments d !! k = Some p ->
    payment_fits (p_status p) (status_of d (p_order_id p)) = true;
  oi_paid id st : status_of d id = Some st -> settled st = true ->
    exists k p, paid_payment d id k p;
  oi_outbox id k p : paid_payment d id k p ->
    exists e, e ∈ outbox d /\ event_id e = order_paid_event_id id;
  oi_refund_unique k1 r1 k2 r2 : refunds d !! k1 = Some r1 -> refunds d !! k2 = Some r2 ->
    r_order_id r1 = r_order_id r2 -> k1 = k2;
  oi_refund k r : refunds d !! k = Some r ->
    exists st p, status_of d (r_order_id r) = Some st /\ refund_fits (r_status r) st = true /\
      paid_payment d (r_order_id r) (r_payment_order_id r) p /\
      r_refund_amount_fen r = p_payable_amount_fen p;
  oi_refund_exists id st : status_of d id = Some st ->
    st = orderstatus.RefundRequested \/ st = orderstatus.Refunded ->
    exists k r, refunds d !! k = Some r /\ r_order_id r = id
}.

(** * Steps *)

(** What no statement changes of a row. *)
Definition order_identity (o : Order) : string * Z * Z * Z * Z :=
  (o_request_id o, o_user_id o, o_merchant_id o, o_product_id o, o_amount o).
Definition payment_identity (p : PaymentOrder) : string * Z * Z * string :=
  (p_order_id p, p_user_id p, p_payable_amount_fen p, p_out_trade_no p).
Definition refund_identity (r : RefundOrder) : string * string * Z :=
  (r_order_id r, r_payment_order_id r, r_refund_amount_fen r).

Definition set_order (id : string) (o : Order) (d : DB) : DB :=
  with_orders (<[id := o]> (orders d)) d.
Definition set_payment (k : string) (p : PaymentOrder) (d : DB) : DB :=
  with_payments (<[k := p]> (payments d)) d.
Definition set_refund (k : string) (r : RefundOrder) (d : DB) : DB :=
  with_refunds (<[k := r]> (refunds d)) d.
Definition add_log (l : StatusLog) (d : DB) : DB := with_status_log (status_log d ++ [l]) d.

(** Order [id] goes from status [s] to status [t], keeping its identity. *)
Definition order_goes (d : DB) (id : string) (s : Z) (o' : Order) (t : Z) : Prop :=
  exists o, orders d !! id = Some o /\ o_status o = s /\ o_status o' = t /\
            order_identity o' = order_identity o.

Definition log_entry (l : StatusLog) (id : string) (s t : Z) : Prop :=
  l_order_id l = id /\ l_from_status l = s /\ l_to_status l = t.

(** The payments with those of order [id] that wait closed by [f]. *)
Definition close_payments (id : string) (f : PaymentOrder -> PaymentOrder) (d : DB) : DB :=
  with_payments (upd (fun k p => for_order id k p && (p_status p =? paymentstatus.Init)) f
                   (payments d)) d.

Inductive step (d : DB) : DB -> Prop :=
| step_insert_order id o :
    orders d !! id = None -> o_status o = orderstatus.PendingPayment -> step d (set_order id o d)
| step_insert_payment k p :
    payments d !! k = None ->
    (forall k' p', payments d !! k' = Some p' -> p_order_id p' <> p_order_id p) ->
    p_status p = paymentstatus.Init -> step d (set_payment k p d)
| step_snapshots t : step d (with_snapshots t d)
| step_events t : step d (with_callback_events t d)
| step_outbox t :
    (forall e, e ∈ outbox d -> exists e', e' ∈ t /\ event_id e' = event_id e) ->
    step d (with_outbox t d)
| step_payment_columns t :
    (fun p => (payment_identity p, p_status p)) <$> t =
      (fun p => (payment_identity p, p_status p)) <$> payments d ->
    step d (with_payments t d)
| step_refund_columns t :
    (fun r => (refund_identity r, refund_open (r_status r),
               if refund_open (r_status r) then 0 else r_status r)) <$> t =
      (fun r => (refund_identity r, refund_open (r_status r),
                 if refund_open (r_status r) then 0 else r_status r)) <$> refunds d ->
    step d (with_refunds t d)
| step_compensate id o' :
    order_goes d id orderstatus.PendingPayment o' orderstatus.Closed ->
    step d (set_order id o' d)
| step_close id o' f l :
    order_goes d id orderstatus.PendingPayment o' orderstatus.Closed ->
    (forall p, payment_identity (f p) = payment_identity p /\
               p_status (f p) = paymentstatus.Closed) ->
    log_entry l id orderstatus.PendingPayment orderstatus.Closed ->
    step d (add_log l (close_payments id f (set_order id o' d)))
| step_ship id o' l :
    order_goes d id orderstatus.Paid o' orderstatus.Shipped ->
    log_entry l id orderstatus.Paid orderstatus.Shipped ->
    step d (add_log l (set_order id o' d))
| step_receive id o' l :
    order_goes d id orderstatus.Shipped o' orderstatus.Completed ->
    log_entry l id orderstatus.Shipped orderstatus.Completed ->
    step d (add_log l (set_order id o' d))
| step_pay id o' k p p' l t :
    order_goes d id orderstatus.PendingPayment o' orderstatus.Paid ->
    payments d !! k = Some p -> p_order_id p = id -> p_status p = paymentstatus.Init ->
    payment_identity p' = payment_identity p -> p_status p' = paymentstatus.Success ->
    log_entry l id orderstatus.PendingPayment orderstatus.Paid ->
    (forall e, e ∈ outbox d -> e ∈ t) ->
    (exists e, e ∈ t /\ event_id e = order_paid_event_id id) ->
    step d (with_outbox t (add_log l (set_payment k p' (set_order id o' d))))
| step_request id s o' k p rk r l :
    order_goes d id s o' orderstatus.RefundRequested ->
    orderstatus.CanRequestRefund s = true ->
    paid_payment d id k p ->
    refunds d !! rk = None ->
    (forall k' r', refunds d !! k' = Some r' -> r_order_id r' <> id) ->
    refund_identity r = (id, k, p_payable_amount_fen p) ->
    r_status r = refundstatus.Requested ->
    log_entry l id s orderstatus.RefundRequested ->
    step d (add_log l (set_refund rk r (set_order id o' d)))
| step_audit id t o' rk r r' l :
    order_goes d id orderstatus.RefundRequested o' t ->
    refunds d !! rk = Some r -> r_order_id r = id -> refund_open (r_status r) = true ->
    refund_identity r' = refund_identity r ->
    (t = orderstatus.Refunded /\ r_status r' = refundstatus.Success \/
     (t = orderstatus.Paid \/ t = orderstatus.Shipped) /\ r_status r' = refundstatus.Rejected) ->
    log_entry l id orderstatus.RefundRequested t ->
    step d (add_log l (set_order id o' (set_refund rk r' d))).

Definition steps : DB -> DB -> Prop := rtc step.
Definition reachable (d : DB) : Prop := exists t, steps (with_product_merchant t empty_db) d.

(** * Logs *)

Lemma log_of_app id l1 l2 : log_of id (l1 ++ l2) = log_of id l1 ++ log_of id l2.
Proof. apply filter_app. Qed.

Lemma log_of_one id l : log_of id [l] = if decide (l_order_id l = id) then [l] else [].
Proof. unfold log_of. by rewrite filter_cons, filter_nil. Qed.

Lemma log_path_snoc s l t e :
  log_path s l t -> l_from_status e = t -> orderstatus.move t (l_to_status e) ->
  log_path s (l ++ [e]) (l_to_status e).
Proof.
  revert s. induction l as [|e' l IH]; intros s; simpl.
  - intros -> Hf Hm. done.
  - intros (Hf&Hm&Hp) He Hme. auto.
Qed.

Lemma log_ok_snoc id s t l log :
  log_ok id s log -> log_entry l id s t -> orderstatus.move s t -> log_ok id t (log ++ [l]).
Proof.
  intros Hlog (Hid&Hf&Ht) Hm. left. rewrite log_of_app, log_of_one, decide_True by done.
  destruct Hlog as [Hp|[Hs Hn]].
  - rewrite <- Ht. apply (log_path_snoc _ _ s); [done|done|]. by rewrite Ht.
  - subst s. by destruct (orderstatus.move_not_from_final _ _ Hm).
Qed.

Lemma log_of_snoc_ne id l log : l_order_id l <> id -> log_of id (log ++ [l]) = log_of id log.
Proof. intros Hne. rewrite log_of_app, log_of_one, decide_False by done. by rewrite app_nil_r. Qed.

Lemma log_ok_pending id log : log_ok id orderstatus.PendingPayment log -> log_of id log = [].
Proof.
  intros [Hp|[? _]]; [|done]. destruct (log_of id log) as [|e l _] using rev_ind; [done|].
  exfalso. revert Hp. generalize orderstatus.PendingPayment at 1 as s.
  induction l as [|e' l IH]; intros s; simpl.
  - intros (_&Hm&Heq). rewrite Heq in Hm. inversion Hm.
  - intros (_&_&Hp). by apply IH in Hp.
Qed.

(** * Preservation of the integrity invariant *)

Lemma status_of_set_order id o d id' :
  status_of (set_order id o d) id' = if decide (id = id') then Some (o_status o)
                                     else status_of d id'.
Proof. unfold status_of. simpl. rewrite lookup_insert. by case_decide. Qed.

Lemma payment_fits_settled pst s t :
  settled s = true -> payment_fits pst (Some s) = true -> settled t = true ->
  payment_fits pst (Some t) = true.
Proof.
  unfold payment_fits. intros Hs Hf Ht. destruct (pst =? paymentstatus.Success); [done|].
  destruct (pst =? paymentstatus.Closed).
  { bools. by subst s. }
  destruct (pst =? paymentstatus.Init); [|done].
  apply orb_true_iff in Hf as [Hf|Hf]; bools; by subst s.
Qed.

(** Changes of columns that the invariant does not read. *)
Lemma inv_columns d d' :
  order_inv d ->
  (forall id, status_of d' id = status_of d id) -> status_log d' = status_log d ->
  (fun p => (payment_identity p, p_status p)) <$> payments d' =
    (fun p => (payment_identity p, p_status p)) <$> payments d ->
  (forall e, e ∈ outbox d -> exists e', e' ∈ outbox d' /\ event_id e' = event_id e) ->
  (fun r => (refund_identity r, refund_open (r_status r),
             if refund_open (r_status r) then 0 else r_status r)) <$> refunds d' =
    (fun r => (refund_identity r, refund_open (r_status r),
               if refund_open (r_status r) then 0 else r_status r)) <$> refunds d ->
  order_inv d'.
Proof.
  intros Hi Hst Hlog Hpay Hout Href.
  assert (forall k p', payments d' !! k = Some p' -> exists p, payments d !! k = Some p /\
    payment_identity p = payment_identity p' /\ p_status p = p_status p') as Hp.
  { intros k p' Hk. apply (f_equal (.!! k)) in Hpay. rewrite !lookup_fmap, Hk in Hpay.
    destruct (payments d !! k) as [p|]; simpl in Hpay; [|done]. injection Hpay as H1 H2 H3 H4 H5.
    exists p. unfold payment_identity. repeat split; congruence. }
  assert (forall k p, payments d !! k = Some p -> exists p', payments d' !! k = Some p' /\
    payment_identity p = payment_identity p' /\ p_status p = p_status p') as Hp'.
  { intros k p Hk. apply (f_equal (.!! k)) in Hpay. rewrite !lookup_fmap, Hk in Hpay.
    destruct (payments d' !! k) as [p'|]; simpl in Hpay; [|done]. injection Hpay as H1 H2 H3 H4 H5.
    exists p'. unfold payment_identity. repeat split; congruence. }
  assert (forall k r', refunds d' !! k = Some r' -> exists r, refunds d !! k = Some r /\
    refund_identity r = refund_identity r' /\
    forall st, refund_fits (r_status r) st = refund_fits (r_status r') st) as Hr.
  { intros k r' Hk. apply (f_equal (.!! k)) in Href. rewrite !lookup_fmap, Hk in Href.
    destruct (refunds d !! k) as [r|]; simpl in Href; [|done]. injection Href as Hid1 Hid2 Hid3 Hop Hs.
    exists r. split; [done|]. split; [unfold refund_identity; congruence|].
    intros st. unfold refund_fits. rewrite Hop in Hs |- *. destruct (refund_open (r_status r)); [done|].
    by rewrite Hs. }
  assert (forall k r, refunds d !! k = Some r -> exists r', refunds d' !! k = Some r' /\
    r_order_id r = r_order_id r') as Hr'.
  { intros k r Hk. apply (f_equal (.!! k)) in Href. rewrite !lookup_fmap, Hk in Href.
    destruct (refunds d' !! k) as [r'|]; simpl in Href; [|done]. injection Href as Hid1 _ _ _ _. eauto. }
  assert (forall id k p', paid_payment d' id k p' -> exists p, paid_payment d id k p /\
    p_payable_amount_fen p = p_payable_amount_fen p') as Hpp.
  { intros id k p' (Hk&Ho&Hs). destruct (Hp _ _ Hk) as (p&Hk'&Hid&Hs').
    injection Hid as Hid1 Hid2 Hid3 Hid4. exists p. repeat split; congruence. }
  assert (forall id k p, paid_payment d id k p -> exists p', paid_payment d' id k p' /\
    p_payable_amount_fen p = p_payable_amount_fen p') as Hpp'.
  { intros id k p (Hk&Ho&Hs). destruct (Hp' _ _ Hk) as (p'&Hk'&Hid&Hs').
    injection Hid as Hid1 Hid2 Hid3 Hid4. exists p'. repeat split; congruence. }
  split.
  - intros id st. rewrite Hst, Hlog. apply (oi_log _ Hi).
  - intros id. rewrite Hst, Hlog. apply (oi_log_none _ Hi).
  - intros k1 p1 k2 p2 H1 H2 Heq. destruct (Hp _ _ H1) as (q1&?&[= ????]&_), (Hp _ _ H2) as (q2&?&[= ????]&_).
    eapply (oi_pay_unique _ Hi); [done..|congruence].
  - intros k p Hk. destruct (Hp _ _ Hk) as (q&Hq&[= Ho _ _ _]&Hs). rewrite Hst, <- Ho, <- Hs.
    by apply (oi_pay_status _ Hi k).
  - intros id st. rewrite Hst. intros H1 H2. destruct (oi_paid _ Hi id st H1 H2) as (k&p&Hk).
    destruct (Hpp' _ _ _ Hk) as (p'&?&_). eauto.
  - intros id k p' Hk. destruct (Hpp _ _ _ Hk) as (p&Hk'&_).
    destruct (oi_outbox _ Hi id k p Hk') as (e&He&Hid). destruct (Hout _ He) as (e'&?&?). exists e'. split; congruence.
  - intros k1 r1 k2 r2 H1 H2 Heq. destruct (Hr _ _ H1) as (q1&?&[= ???]&_), (Hr _ _ H2) as (q2&?&[= ???]&_).
    eapply (oi_refund_unique _ Hi); [done..|congruence].
  - intros k r Hk. destruct (Hr _ _ Hk) as (q&Hq&[= Ho Hpid Ham]&Hf).
    destruct (oi_refund _ Hi _ _ Hq) as (st&p&Hs&Hft&Hpd&Hamt).
    destruct (Hpp' _ _ _ Hpd) as (p'&Hpd'&Ham'). exists st, p'. rewrite Hst, <- Hf, <- Ho, <- Hpid.
    repeat split; try done; try apply Hpd'. congruence.
  - intros id st. rewrite Hst. intros H1 H2. destruct (oi_refund_exists _ Hi id st H1 H2) as (k&r&Hk&Ho).
    destruct (Hr' _ _ Hk) as (r'&?&?). exists k, r'. split; congruence.
Qed.

(** A step that takes order [id] from [s] to [t]. *)
Lemma inv_status d d' id s t :
  order_inv d -> status_of d id = Some s -> status_of d' id = Some t ->
  (forall id', id' <> id -> status_of d' id' = status_of d id') ->
  log_ok id t (status_log d') ->
  (forall id', id' <> id -> log_of id' (status_log d') = log_of id' (status_log d)) ->
  (forall k p', payments d' !! k = Some p' -> exists p, payments d !! k = Some p /\
     payment_identity p' = payment_identity p /\
     (p_order_id p <> id -> p_status p' = p_status p) /\
     (p_order_id p = id -> payment_fits (p_status p') (Some t) = true)) ->
  (forall k p, payments d !! k = Some p -> exists p', payments d' !! k = Some p' /\
     payment_identity p' = payment_identity p /\ (p_order_id p <> id -> p_status p' = p_status p)) ->
  (settled t = true -> exists k p, paid_payment d' id k p) ->
  (forall e, e ∈ outbox d -> e ∈ outbox d') ->
  (forall k p, paid_payment d' id k p -> exists e, e ∈ outbox d' /\ event_id e = order_paid_event_id id) ->
  (forall k r, r_order_id r <> id -> refunds d' !! k = Some r <-> refunds d !! k = Some r) ->
  (forall k1 r1 k2 r2, refunds d' !! k1 = Some r1 -> refunds d' !! k2 = Some r2 ->
     r_order_id r1 = id -> r_order_id r2 = id -> k1 = k2) ->
  (forall k r, refunds d' !! k = Some r -> r_order_id r = id -> refund_fits (r_status r) t = true /\
     exists p, paid_payment d' id (r_payment_order_id r) p /\
               r_refund_amount_fen r = p_payable_amount_fen p) ->
  (t = orderstatus.RefundRequested \/ t = orderstatus.Refunded ->
     exists k r, refunds d' !! k = Some r /\ r_order_id r = id) ->
  order_inv d'.
Proof.
  intros Hi Hs Ht Hne Hlog Hlogne Hp Hp' Hset Hout Hev Hrne Hru Hr Hrx.
  assert (forall id' k p', id' <> id -> paid_payment d' id' k p' -> exists p, paid_payment d id' k p /\
    p_payable_amount_fen p = p_payable_amount_fen p') as Hpp.
  { intros id' k p' Hn (Hk&Ho&Hst). destruct (Hp _ _ Hk) as (p&Hk'&[= ????]&Hsn&_).
    exists p. repeat split; try congruence. rewrite <- Hsn; congruence. }
  assert (forall id' k p, id' <> id -> paid_payment d id' k p -> exists p', paid_payment d' id' k p' /\
    p_payable_amount_fen p = p_payable_amount_fen p') as Hpp'.
  { intros id' k p Hn (Hk&Ho&Hst). destruct (Hp' _ _ Hk) as (p'&Hk'&[= ????]&Hsn).
    exists p'. repeat split; try congruence. rewrite Hsn; congruence. }
  split.
  - intros id' st. destruct (decide (id' = id)) as [->|Hn].
    + rewrite Ht. by intros [= <-].
    + rewrite Hne by done. unfold log_ok. rewrite Hlogne by done. apply (oi_log _ Hi).
  - intros id'. destruct (decide (id' = id)) as [->|Hn]; [by rewrite Ht|].
    rewrite Hne, Hlogne by done. apply (oi_log_none _ Hi).
  - intros k1 p1 k2 p2 H1 H2 Heq. destruct (Hp _ _ H1) as (q1&?&[= ????]&_), (Hp _ _ H2) as (q2&?&[= ????]&_).
    eapply (oi_pay_unique _ Hi); [done..|congruence].
  - intros k p Hk. destruct (Hp _ _ Hk) as (q&Hq&[= Ho _ _ _]&Hsn&Hsi). rewrite Ho.
    destruct (decide (p_order_id q = id)) as [Heq|Hn].
    + rewrite Heq, Ht. by apply Hsi.
    + rewrite Hne, Hsn by done. by apply (oi_pay_status _ Hi k).
  - intros id' st. destruct (decide (id' = id)) as [->|Hn].
    + rewrite Ht. intros [= <-]. done.
    + rewrite Hne by done. intros H1 H2. destruct (oi_paid _ Hi id' st H1 H2) as (k&p&Hk).
      destruct (Hpp' _ _ _ Hn Hk) as (p'&?&_). eauto.
  - intros id' k p Hk. destruct (decide (id' = id)) as [->|Hn]; [eauto|].
    destruct (Hpp _ _ _ Hn Hk) as (p'&Hk'&_). destruct (oi_outbox _ Hi _ _ _ Hk') as (e&?&?). eauto.
  - intros k1 r1 k2 r2 H1 H2 Heq. destruct (decide (r_order_id r1 = id)) as [He|Hn].
    + apply (Hru k1 r1 k2 r2); congruence.
    + apply Hrne in H1; [|done]. apply Hrne in H2; [|congruence].
      by apply (oi_refund_unique _ Hi k1 r1 k2 r2).
  - intros k r Hk. destruct (decide (r_order_id r = id)) as [He|Hn].
    + destruct (Hr _ _ Hk He) as (Hf&p&Hpd&Ham). exists t, p. rewrite He. done.
    + apply Hrne in Hk; [|done]. destruct (oi_refund _ Hi _ _ Hk) as (st&p&?&?&Hpd&Ham).
      destruct (Hpp' _ _ _ Hn Hpd) as (p'&Hpd'&Ham'). exists st, p'. rewrite Hne by done.
      repeat split; try done; try apply Hpd'. congruence.
  - intros id' st. destruct (decide (id' = id)) as [->|Hn].
    + rewrite Ht. intros [= <-]. done.
    + rewrite Hne by done. intros H1 H2. destruct (oi_refund_exists _ Hi id' st H1 H2) as (k&r&Hk&Ho).
      exists k, r. split; [|done]. apply Hrne; congruence.
Qed.

(** ** The steps *)

Lemma order_goes_status d id s o' t :
  order_goes d id s o' t ->
  status_of d id = Some s /\
  (forall id', status_of (set_order id o' d) id' = if decide (id = id') then Some t else status_of d id').
Proof.
  intros (o&Ho&Hs&Ht&_). unfold status_of at 1. rewrite Ho. simpl. split; [congruence|].
  intros id'. rewrite status_of_set_order. by rewrite Ht.
Qed.

(** No refund can concern an order in a status that no refund fits. *)
Lemma no_refund d id s :
  order_inv d -> status_of d id = Some s -> (forall rst, refund_fits rst s = false) ->
  forall k r, refunds d !! k = Some r -> r_order_id r <> id.
Proof.
  intros Hi Hs Hf k r Hk <-. destruct (oi_refund _ Hi _ _ Hk) as (st&p&Hst&Hft&_).
  rewrite Hs in Hst. simplify_eq. by rewrite Hf in Hft.
Qed.

Lemma refund_fits_unsettled rst s :
  s = orderstatus.PendingPayment \/ s = orderstatus.Closed -> refund_fits rst s = false.
Proof. unfold refund_fits. intros [-> | ->]; repeat split_test; done. Qed.

(** The payments and refunds of the other orders and their rows do not change:
    the hypotheses of [inv_status] for a step that leaves both tables alone. *)
Lemma inv_status_orders_only d id s o' t l :
  order_inv d -> order_goes d id s o' t -> orderstatus.move s t -> log_entry l id s t ->
  settled s = true -> settled t = true ->
  (forall rst, refund_fits rst s = true -> refund_fits rst t = true) ->
  t <> orderstatus.RefundRequested -> t <> orderstatus.Refunded ->
  order_inv (add_log l (set_order id o' d)).
Proof.
  intros Hi Hg Hm Hl Hss Hst Hrf Hn1 Hn2. destruct (order_goes_status _ _ _ _ _ Hg) as [Hs Hs'].
  pose proof Hl as (Hlo&_).
  apply (inv_status d _ id s t); try done.
  - change (status_of (set_order id o' d) id = Some t). rewrite Hs'. by case_decide.
  - intros id' Hne. change (status_of (set_order id o' d) id' = status_of d id'). rewrite Hs'.
    by case_decide.
  - apply (log_ok_snoc id s); [by apply (oi_log _ Hi)|done|done].
  - intros id' Hne. apply log_of_snoc_ne. congruence.
  - intros k p Hk. exists p. repeat split; try done. intros Hpo.
    pose proof (oi_pay_status _ Hi _ _ Hk) as Hf. rewrite Hpo, Hs in Hf.
    by apply (payment_fits_settled _ s).
  - intros k p Hk. eauto.
  - intros _. by apply (oi_paid _ Hi id s).
  - intros k p Hk. by apply (oi_outbox _ Hi id k p).
  - intros k1 r1 k2 r2 H1 H2 E1 E2. eapply (oi_refund_unique _ Hi); [done..|congruence].
  - intros k r Hk Hr. destruct (oi_refund _ Hi _ _ Hk) as (st&p&Hst'&Hft&Hp&Ha).
    rewrite Hr in Hst', Hp. rewrite Hs in Hst'. simplify_eq. split; [by apply Hrf|eauto].
  - by intros [?|?].
Qed.

(** Closing a pending order, with or without its payment and a log entry. *)
Lemma inv_close d id o' d' :
  order_inv d -> order_goes d id orderstatus.PendingPayment o' orderstatus.Closed ->
  (forall id', status_of d' id' = status_of (set_order id o' d) id') ->
  log_ok id orderstatus.Closed (status_log d') ->
  (forall id', id' <> id -> log_of id' (status_log d') = log_of id' (status_log d)) ->
  (forall k, payments d' !! k = (fun p =>
     if str_eqb (p_order_id p) id && (p_status p =? paymentstatus.Init)
     then default p (payments d' !! k) else p) <$> payments d !! k) ->
  (forall k p p', payments d !! k = Some p -> payments d' !! k = Some p' ->
     payment_identity p' = payment_identity p /\
     (p_status p' = p_status p \/ p_status p' = paymentstatus.Closed)) ->
  outbox d' = outbox d -> refunds d' = refunds d -> order_inv d'.
Proof.
  intros Hi Hg Hst Hlog Hlogne Hpay Hpay' Hout Href.
  destruct (order_goes_status _ _ _ _ _ Hg) as [Hs Hs'].
  pose proof (no_refund _ _ _ Hi Hs) as Hnr.
  specialize (Hnr (fun rst => refund_fits_unsettled rst _ (or_introl eq_refl))).
  assert (forall k p, payments d !! k = Some p -> p_order_id p = id ->
            p_status p = paymentstatus.Init) as Hinit.
  { intros k p Hk Hpo. pose proof (oi_pay_status _ Hi _ _ Hk) as Hf. rewrite Hpo, Hs in Hf.
    unfold payment_fits in Hf. repeat split_test_in Hf; bools; done. }
  assert (forall k p', payments d' !! k = Some p' -> exists p, payments d !! k = Some p /\
     payment_identity p' = payment_identity p /\
     (p_order_id p <> id -> p_status p' = p_status p) /\
     (p_order_id p = id -> p_status p' = paymentstatus.Init \/ p_status p' = paymentstatus.Closed))
    as Hp.
  { intros k p' Hk. pose proof (Hpay k) as Hk'. destruct (payments d !! k) as [p|] eqn:Hkd;
      [|rewrite Hk in Hk'; done].
    exists p. destruct (Hpay' _ _ _ Hkd Hk) as [Hid Hor]. split; [done|]. split; [done|]. split.
    - intros Hne. rewrite Hk in Hk'. simpl in Hk'.
      rewrite (proj2 (str_eqb_neq _ _) Hne) in Hk'. simpl in Hk'. congruence.
    - intros Heq. rewrite <- (Hinit _ _ Hkd Heq). done. }
  apply (inv_status d _ id orderstatus.PendingPayment orderstatus.Closed); try done.
  - rewrite Hst, Hs'. by case_decide.
  - intros id' Hne. rewrite Hst, Hs'. by case_decide.
  - intros k p' Hk. destruct (Hp _ _ Hk) as (p&?&?&?&Hpo). exists p. repeat split; try done.
    intros Heq. by destruct (Hpo Heq) as [-> | ->].
  - intros k p Hk. pose proof (Hpay k) as Hk'. rewrite Hk in Hk'. simpl in Hk'.
    eexists. split; [exact Hk'|]. destruct (Hpay' _ _ _ Hk Hk') as [Hid _]. split; [done|].
    intros Hne. by rewrite (proj2 (str_eqb_neq _ _) Hne).
  - by rewrite Hout.
  - intros k p (Hk&Hpo&Hps). destruct (Hp _ _ Hk) as (q&?&[= Hq ???]&_&Hq'). exfalso.
    rewrite Hps in Hq'. destruct Hq' as [?|?]; [congruence|done..].
  - by rewrite Href.
  - intros k1 r1 k2 r2 H1 _ E1. rewrite Href in H1. by destruct (Hnr _ _ H1).
  - intros k r Hk E1. rewrite Href in Hk. by destruct (Hnr _ _ Hk).
  - by intros [?|?].
Qed.

Lemma inv_insert_order d id o :
  order_inv d -> orders d !! id = None -> o_status o = orderstatus.PendingPayment ->
  order_inv (set_order id o d).
Proof.
  intros Hi Hn Hp. assert (status_of d id = None) as Hs by (unfold status_of; by rewrite Hn).
  assert (forall k r, refunds d !! k = Some r -> r_order_id r <> id) as Hnr.
  { intros k r Hk <-. destruct (oi_refund _ Hi _ _ Hk) as (st&p&Hst&_). congruence. }
  split.
  - intros id' st. rewrite status_of_set_order. case_decide as Hd; [|apply (oi_log _ Hi)].
    subst id'. rewrite Hp. intros [= <-]. left. simpl. by rewrite (oi_log_none _ Hi).
  - intros id'. rewrite status_of_set_order. case_decide; [done|]. apply (oi_log_none _ Hi).
  - apply (oi_pay_unique _ Hi).
  - intros k p Hk. rewrite status_of_set_order. pose proof (oi_pay_status _ Hi _ _ Hk) as Hf.
    case_decide as Hd; [|done]. rewrite <- Hd, Hs in Hf. rewrite Hp. unfold payment_fits in *.
    repeat split_test_in Hf; done.
  - intros id' st. rewrite status_of_set_order. case_decide as Hd.
    + rewrite Hp. by intros [= <-].
    + apply (oi_paid _ Hi).
  - apply (oi_outbox _ Hi).
  - apply (oi_refund_unique _ Hi).
  - intros k r Hk. rewrite status_of_set_order. rewrite decide_False by (symmetry; by eapply Hnr).
    by apply (oi_refund _ Hi k).
  - intros id' st. rewrite status_of_set_order. case_decide as Hd; [|apply (oi_refund_exists _ Hi)].
    rewrite Hp. intros [= <-]. by intros [?|?].
Qed.

Lemma inv_insert_payment d k p :
  order_inv d -> payments d !! k = None ->
  (forall k' p', payments d !! k' = Some p' -> p_order_id p' <> p_order_id p) ->
  p_status p = paymentstatus.Init -> order_inv (set_payment k p d).
Proof.
  intros Hi Hn Hu Hp.
  assert (forall id k' p', paid_payment (set_payment k p d) id k' p' <-> paid_payment d id k' p') as Hpp.
  { intros id k' p'. unfold paid_payment. simpl. rewrite lookup_insert. case_decide; [|done].
    subst k'. rewrite Hn. split; [intros ([= <-]&_&Hs); by rewrite Hp in Hs|by intros (?&_)]. }
  split.
  - apply (oi_log _ Hi).
  - apply (oi_log_none _ Hi).
  - intros k1 p1 k2 p2. simpl. rewrite !lookup_insert. repeat case_decide; intros; simplify_eq; try done.
    + by destruct (Hu k2 p2).
    + by destruct (Hu k1 p1).
    + by apply (oi_pay_unique _ Hi k1 p1 k2 p2).
  - intros k' p'. simpl. rewrite lookup_insert. case_decide; intros; simplify_eq.
    + change (payment_fits (p_status p') (status_of d (p_order_id p')) = true). rewrite Hp.
      unfold payment_fits. simpl. destruct (status_of d (p_order_id p')) as [st|] eqn:Hs; [|done].
      destruct ((st =? orderstatus.PendingPayment) || (st =? orderstatus.Closed)) eqn:Hc; [done|].
      exfalso. destruct (settled st) eqn:Hset.
      * destruct (oi_paid _ Hi _ _ Hs Hset) as (k0&p0&Hk0&Ho0&_). by destruct (Hu _ _ Hk0).
      * pose proof (oi_log _ Hi _ _ Hs) as Hl. destruct Hl as [Hl|[-> _]]; [|done].
        destruct (log_of (p_order_id p') (status_log d)) as [|e l _] using rev_ind.
        { simpl in Hl. by subst st. }
        clear -Hl Hc Hset. revert Hl. generalize orderstatus.PendingPayment at 1 as s0.
        induction l as [|e' l IH]; intros s0; simpl; [|by intros (_&_&?); eauto].
        intros (_&Hm&<-). revert Hc Hset. by destruct Hm.
    + by apply (oi_pay_status _ Hi k').
  - intros id st Hs Hset. destruct (oi_paid _ Hi id st Hs Hset) as (k'&p'&?). exists k', p'. by apply Hpp.
  - intros id k' p' Hk. apply Hpp in Hk. by apply (oi_outbox _ Hi id k' p').
  - apply (oi_refund_unique _ Hi).
  - intros k' r Hk. destruct (oi_refund _ Hi _ _ Hk) as (st&p'&?&?&?&?). exists st, p'.
    split; [done|]. split; [done|]. split; [by apply Hpp|done].
  - apply (oi_refund_exists _ Hi).
Qed.

Lemma inv_pay d id o' k p p' l t :
  order_inv d -> order_goes d id orderstatus.PendingPayment o' orderstatus.Paid ->
  payments d !! k = Some p -> p_order_id p = id -> p_status p = paymentstatus.Init ->
  payment_identity p' = payment_identity p -> p_status p' = paymentstatus.Success ->
  log_entry l id orderstatus.PendingPayment orderstatus.Paid ->
  (forall e, e ∈ outbox d -> e ∈ t) ->
  (exists e, e ∈ t /\ event_id e = order_paid_event_id id) ->
  order_inv (with_outbox t (add_log l (set_payment k p' (set_order id o' d)))).
Proof.
  intros Hi Hg Hk Hpo Hps Hid Hps' Hl Hout Hev. destruct (order_goes_status _ _ _ _ _ Hg) as [Hs Hs'].
  pose proof Hl as (Hlo&_).
  pose proof (no_refund _ _ _ Hi Hs (fun rst => refund_fits_unsettled rst _ (or_introl eq_refl))) as Hnr.
  assert (p_order_id p' = id) as Hpo' by (injection Hid; congruence).
  apply (inv_status d _ id orderstatus.PendingPayment orderstatus.Paid); try done; simpl.
  - change (status_of (set_order id o' d) id = Some orderstatus.Paid). rewrite Hs'. by case_decide.
  - intros id' Hne. change (status_of (set_order id o' d) id' = status_of d id'). rewrite Hs'.
    by case_decide.
  - apply (log_ok_snoc id orderstatus.PendingPayment); [by apply (oi_log _ Hi)|done|constructor].
  - intros id' Hne. apply log_of_snoc_ne. congruence.
  - intros k' q. rewrite lookup_insert_Some. intros [[<- <-]|[Hne Hq]].
    + exists p. split; [done|]. split; [done|]. split; [congruence|]. intros _. by rewrite Hps'.
    + exists q. split; [done|]. split; [done|]. split; [done|]. intros Heq.
      destruct Hne. apply (oi_pay_unique _ Hi k p k' q); congruence.
  - intros k' q Hq. destruct (decide (k = k')) as [<-|Hne].
    + exists p'. rewrite lookup_insert_eq. assert (q = p) as -> by congruence.
      split; [done|]. split; [done|congruence].
    + exists q. by rewrite lookup_insert_ne.
  - intros _. exists k, p'. repeat split; try done. simpl. by rewrite lookup_insert_eq.
  - intros k1 r1 k2 r2 H1 _ E1. by destruct (Hnr _ _ H1).
  - intros k' r Hr E1. by destruct (Hnr _ _ Hr).
  - by intros [?|?].
Qed.

Lemma inv_request d id s o' k p rk r l :
  order_inv d -> order_goes d id s o' orderstatus.RefundRequested ->
  orderstatus.CanRequestRefund s = true -> paid_payment d id k p -> refunds d !! rk = None ->
  (forall k' r', refunds d !! k' = Some r' -> r_order_id r' <> id) ->
  refund_identity r = (id, k, p_payable_amount_fen p) -> r_status r = refundstatus.Requested ->
  log_entry l id s orderstatus.RefundRequested ->
  order_inv (add_log l (set_refund rk r (set_order id o' d))).
Proof.
  intros Hi Hg Hc Hp Hrk Hnr Hid Hrs Hl. destruct (order_goes_status _ _ _ _ _ Hg) as [Hs Hs'].
  injection Hid as Hro Hrp Hra. pose proof Hl as (Hlo&_).
  assert (s = orderstatus.Paid \/ s = orderstatus.Shipped) as Hor.
  { unfold orderstatus.CanRequestRefund in Hc. apply orb_true_iff in Hc as [?|?]; bools; auto. }
  assert (settled s = true) as Hset by by destruct Hor as [-> | ->].
  apply (inv_status d _ id s orderstatus.RefundRequested); try done; simpl.
  - change (status_of (set_order id o' d) id = Some orderstatus.RefundRequested). rewrite Hs'.
    by case_decide.
  - intros id' Hne. change (status_of (set_order id o' d) id' = status_of d id'). rewrite Hs'.
    by case_decide.
  - apply (log_ok_snoc id s); [by apply (oi_log _ Hi)|done|].
    destruct Hor as [-> | ->]; constructor.
  - intros id' Hne. apply log_of_snoc_ne. congruence.
  - intros k' q Hq. exists q. repeat split; try done. intros Heq.
    pose proof (oi_pay_status _ Hi _ _ Hq) as Hf. rewrite Heq, Hs in Hf.
    by apply (payment_fits_settled _ s).
  - eauto.
  - intros _. by exists k, p.
  - by apply (oi_outbox _ Hi).
  - intros k' r' Hne. rewrite lookup_insert. case_decide; [|done]. subst k'. rewrite Hrk.
    split; congruence.
  - intros k1 r1 k2 r2. rewrite !lookup_insert. repeat case_decide; intros; simplify_eq; try done.
    + by destruct (Hnr k2 r2).
    + by destruct (Hnr k1 r1).
    + by destruct (Hnr k1 r1).
  - intros k' r'. rewrite lookup_insert. case_decide; intros; simplify_eq.
    + rewrite Hrs. split; [done|]. by exists p.
    + by destruct (Hnr k' r').
  - intros _. exists rk, r. by rewrite lookup_insert_eq.
Qed.

Lemma inv_audit d id t o' rk r r' l :
  order_inv d -> order_goes d id orderstatus.RefundRequested o' t ->
  refunds d !! rk = Some r -> r_order_id r = id -> refund_identity r' = refund_identity r ->
  (t = orderstatus.Refunded /\ r_status r' = refundstatus.Success \/
   (t = orderstatus.Paid \/ t = orderstatus.Shipped) /\ r_status r' = refundstatus.Rejected) ->
  log_entry l id orderstatus.RefundRequested t ->
  order_inv (add_log l (set_order id o' (set_refund rk r' d))).
Proof.
  intros Hi Hg Hrk Hro Hid Hcase Hl. destruct (order_goes_status _ _ _ _ _ Hg) as [Hs Hs'].
  injection Hid as Hro' Hrp Hra. pose proof Hl as (Hlo&_).
  destruct (oi_refund _ Hi _ _ Hrk) as (st&p&Hst&Hft&Hp&Ha).
  rewrite Hro in Hst, Hp. rewrite Hs in Hst. injection Hst as <-.
  assert (orderstatus.move orderstatus.RefundRequested t) as Hm
    by (destruct Hcase as [[-> _]|[[-> | ->] _]]; constructor).
  assert (settled t = true) as Hset by by destruct Hcase as [[-> _]|[[-> | ->] _]].
  assert (refund_fits (r_status r') t = true) as Hfits
    by by destruct Hcase as [[-> ->]|[[-> | ->] ->]].
  apply (inv_status d _ id orderstatus.RefundRequested t); try done; simpl.
  - change (status_of (set_order id o' d) id = Some t). rewrite Hs'. by case_decide.
  - intros id' Hne. change (status_of (set_order id o' d) id' = status_of d id'). rewrite Hs'.
    by case_decide.
  - apply (log_ok_snoc id orderstatus.RefundRequested); [by apply (oi_log _ Hi)|done|done].
  - intros id' Hne. apply log_of_snoc_ne. congruence.
  - intros k' q Hq. exists q. repeat split; try done. intros Heq.
    pose proof (oi_pay_status _ Hi _ _ Hq) as Hf. rewrite Heq, Hs in Hf.
    by apply (payment_fits_settled _ orderstatus.RefundRequested).
  - eauto.
  - intros _. by exists (r_payment_order_id r), p.
  - by apply (oi_outbox _ Hi).
  - intros k' q Hne. rewrite lookup_insert. case_decide; [|done]. subst k'. rewrite Hrk.
    split; congruence.
  - intros k1 r1 k2 r2. rewrite !lookup_insert. repeat case_decide; intros; simplify_eq; try done.
    + by apply (oi_refund_unique _ Hi k1 r k2 r2).
    + by apply (oi_refund_unique _ Hi k1 r1 k2 r).
    + apply (oi_refund_unique _ Hi k1 r1 k2 r2); [done..|congruence].
  - intros k' q. rewrite lookup_insert. case_decide; intros; simplify_eq.
    + split; [done|]. exists p. rewrite Hrp, Hra. done.
    + assert (k' = rk); [|congruence]. apply (oi_refund_unique _ Hi k' q rk r); [done..|congruence].
  - intros _. exists rk, r'. rewrite lookup_insert_eq. split; [done|congruence].
Qed.

Lemma step_inv d d' : order_inv d -> step d d' -> order_inv d'.
Proof.
  intros Hi Hst. destruct Hst.
  - by apply inv_insert_order.
  - by apply inv_insert_payment.
  - apply (inv_columns d); eauto.
  - apply (inv_columns d); eauto.
  - apply (inv_columns d); eauto.
  - apply (inv_columns d); eauto.
  - apply (inv_columns d); eauto.
  - apply (inv_close d id o'); try done.
    + destruct (order_goes_status _ _ _ _ _ H) as [Hs _]. right. split; [done|].
      by apply log_ok_pending, (oi_log _ Hi).
    + intros k. simpl. destruct (payments d !! k); simpl; [|done]. by destruct (_ && _).
    + intros k p p' H1 H2. simpl in H2. simplify_eq. auto.
  - apply (inv_close d id o'); try done.
    + destruct (order_goes_status _ _ _ _ _ H) as [Hs _].
      apply (log_ok_snoc id orderstatus.PendingPayment); [by apply (oi_log _ Hi)|done|constructor].
    + intros id' Hne. apply log_of_snoc_ne. destruct H1 as [? _]. congruence.
    + intros k. simpl. rewrite lookup_upd. destruct (payments d !! k) as [p|]; simpl; [|done].
      unfold for_order. by destruct (_ && _).
    + intros k p p' Hk. simpl. rewrite lookup_upd, Hk. simpl. intros [= <-].
      destruct (H0 p) as [? ?]. destruct (_ && _); auto.
  - apply (inv_status_orders_only _ _ orderstatus.Paid _ orderstatus.Shipped); try done.
    constructor.
  - apply (inv_status_orders_only _ _ orderstatus.Shipped _ orderstatus.Completed); try done.
    constructor.
  - by apply (inv_pay d id o' k p).
  - by apply (inv_request d id s o' k p).
  - by apply (inv_audit d id t o' rk r).
Qed.

Lemma steps_inv d d' : order_inv d -> steps d d' -> order_inv d'.
Proof. intros Hi Hs. induction Hs; eauto using step_inv. Qed.

Lemma inv_empty t : order_inv (with_product_merchant t empty_db).
Proof.
  split; unfold status_of, paid_payment; simpl; intros; destruct_and?; simplify_map_eq; done.
Qed.

(** ** The life cycle *)

(** Every order row survives a step with its identity, and its status stays or
    makes a move. *)
Lemma step_moves d d' id o :
  step d d' -> orders d !! id = Some o ->
  exists o', orders d' !! id = Some o' /\ order_identity o' = order_identity o /\
    (o_status o' = o_status o \/ orderstatus.move (o_status o) (o_status o')).
Proof.
  intros Hst Ho.
  assert (forall id' s o' t, order_goes d id' s o' t -> orderstatus.move s t ->
    exists o'', <[id' := o']> (orders d) !! id = Some o'' /\ order_identity o'' = order_identity o /\
      (o_status o'' = o_status o \/ orderstatus.move (o_status o) (o_status o''))) as Hgo.
  { intros id' s o' t (o0&Ho0&Hs&Ht&Hid) Hm. destruct (decide (id' = id)) as [->|Hne].
    - exists o'. rewrite lookup_insert_eq. assert (o0 = o) as -> by congruence.
      split; [done|]. split; [done|]. right. by rewrite Hs, Ht.
    - exists o. rewrite lookup_insert_ne by done. auto. }
  destruct Hst; simpl; eauto using orderstatus.move.
  - exists o. rewrite lookup_insert_ne by congruence. auto.
  - apply (Hgo _ _ _ _ H). unfold orderstatus.CanRequestRefund in H0.
    apply orb_true_iff in H0 as [Hb|Hb]; apply Z.eqb_eq in Hb as ->; constructor.
  - apply (Hgo _ _ _ _ H). destruct H4 as [[-> _]|[[-> | ->] _]]; constructor.
Qed.

Lemma steps_moves d d' id o :
  steps d d' -> orders d !! id = Some o ->
  exists o', orders d' !! id = Some o' /\ order_identity o' = order_identity o /\
    rtc orderstatus.move (o_status o) (o_status o').
Proof.
  intros Hs. revert o. induction Hs as [d|d d1 d' Hst _ IH]; intros o Ho; [exists o; by repeat split|].
  destruct (step_moves _ _ _ _ Hst Ho) as (o1&Ho1&Hid&Hm).
  destruct (IH _ Ho1) as (o'&Ho'&Hid'&Hr). exists o'. split; [done|]. split; [congruence|].
  destruct Hm as [<-|Hm]; [done|]. by eapply rtc_l.
Qed.

Lemma rtc_move_final s t :
  rtc orderstatus.move s t ->
  s = orderstatus.Closed \/ s = orderstatus.Completed \/ s = orderstatus.Refunded -> t = s.
Proof.
  destruct 1 as [|s s1 t Hm _]; [done|]. intros Hf.
  destruct (orderstatus.move_not_from_final _ _ Hm) as (?&?&?). tauto.
Qed.

(** Orders only make the moves of the life cycle: along any run of the order
    service from any state, an order keeps its buyer, merchant, product,
    quantity and request id, its status follows the permitted moves, and an
    order that is closed, completed or refunded stays so. *)
Theorem order_life_cycle d d' id o :
  steps d d' -> orders d !! id = Some o ->
  exists o', orders d' !! id = Some o' /\ order_identity o' = order_identity o /\
    rtc orderstatus.move (o_status o) (o_status o') /\
    (o_status o = orderstatus.Closed \/ o_status o = orderstatus.Completed \/
     o_status o = orderstatus.Refunded -> o_status o' = o_status o).
Proof.
  intros Hs Ho. destruct (steps_moves _ _ _ _ Hs Ho) as (o'&Ho'&Hid&Hr).
  exists o'. repeat split; auto. by apply rtc_move_final.
Qed.


Definition is_payment_entry (l : StatusLog) : Prop :=
  l_from_status l = orderstatus.PendingPayment /\ l_to_status l = orderstatus.Paid.
#[export] Instance is_payment_entry_dec l : Decision (is_payment_entry l).
Proof. unfold is_payment_entry. apply _. Defined.

Lemma log_path_payment_entries s l t :
  log_path s l t ->
  (length (filter is_payment_entry l) <= if (s =? orderstatus.PendingPayment)%Z then 1 else 0)%nat.
Proof.
  revert s. induction l as [|e l IH]; intros s; simpl; [lia|].
  intros (Hf&Hm&Hp). specialize (IH _ Hp). rewrite filter_cons.
  assert ((l_to_status e =? orderstatus.PendingPayment) = false) as Hz
    by (revert Hm; generalize (l_to_status e); by destruct 1).
  rewrite Hz in IH. case_decide as Hd; simpl; [|lia].
  destruct Hd as [Hd _]. rewrite <- Hf, Hd. simpl. lia.
Qed.

