(* ===== verification/OrderSteps.v ===== *)
(** The handlers of the order service refine the transition system of
    OrderSystem.v: whatever calls fail and wherever a handler stops, the changes
    it has made to the database are a sequence of steps. *)

From S2P Require Import Prelude Effects Sql Common OrderStore OrderLifecycle OrderPayment.
From S2P Require Import PaymentRecovery OrderRefund OrderCreate OrderSystem.

(** * Successful runs

    Inversion of a computation that returned normally. *)
Section ok.
Context {D X E : Type}.

Lemma bind_Ok {A B} (m : M D X E A) (f : A -> M D X E B) s s' b :
  bind m f s = (s', Ok b) -> exists s1 a, m s = (s1, Ok a) /\ f a s1 = (s', Ok b).
Proof. unfold bind. destruct (m s) as [s1 [a|e]]; [|done]. eauto. Qed.

Lemma ret_Ok {A} (a a' : A) (s s' : env D X) : ret (E := E) a s = (s', Ok a') -> s' = s /\ a' = a.
Proof. unfold ret. by intros [= -> ->]. Qed.

Lemma require_Ok b (e : E) (s s' : env D X) u : require b e s = (s', Ok u) -> s' = s /\ b = true.
Proof. unfold require, ret, throw. by destruct b; intros [= ->]. Qed.

Lemma of_res_Ok {A} (r : res E A) (s s' : env D X) a : of_res r s = (s', Ok a) -> s' = s /\ r = Ok a.
Proof. unfold of_res. by intros [= -> ->]. Qed.

Lemma throw_Ok {A} (e : E) (s s' : env D X) (a : A) : throw e s = (s', Ok a) -> False.
Proof. done. Qed.

Lemma get_now_Ok (s s' : env D X) t : get_now (E := E) s = (s', Ok t) -> s' = s.
Proof. unfold get_now. by intros [= -> _]. Qed.

Lemma sql_Ok {A} (op : D -> D * A) (e : E) (s s' : env D X) a :
  sql op e s = (s', Ok a) -> op (db s) = (db s', a).
Proof.
  unfold sql. pose proof (db_pop_fault s) as Hdb. destruct (pop_fault s) as [[] s1]; try done.
  simpl in Hdb. rewrite Hdb. destruct (op (db s)) as [d b]. by intros [= <- <-].
Qed.

Lemma attempt_call_Ok {A} (op : X -> X * res E A) (e : E) (s s' : env D X) r :
  attempt (call op e) s = (s', Ok r) -> db s' = db s.
Proof.
  unfold attempt, call. pose proof (db_pop_fault s) as Hdb.
  destruct (pop_fault s) as [[] s1]; simpl in *; [destruct (op (ext s1))|..]; intros [= <- _]; done.
Qed.
End ok.

Section store_ok.
Context {X : Type}.
Implicit Types (s : env DB X).

Lemma query_Ok {A} (f : DB -> A) e s s' a :
  query f e s = (s', Ok a) -> db s' = db s /\ a = f (db s).
Proof. intros Hq. apply sql_Ok in Hq. by simplify_eq. Qed.

Lemma exec_orders_Ok p f e s s' n :
  exec_orders p f e s = (s', Ok n) ->
  exists t, db s' = with_orders (upd p (f t) (orders (db s))) (db s) /\
            n = affected p (f t) (orders (db s)).
Proof.
  unfold exec_orders. intros (s1&t&Ht&Hs)%bind_Ok. apply get_now_Ok in Ht as ->.
  apply sql_Ok in Hs. simplify_eq. eauto.
Qed.

Lemma exec_refunds_Ok p f e s s' n :
  exec_refunds p f e s = (s', Ok n) ->
  exists t, db s' = with_refunds (upd p (f t) (refunds (db s))) (db s) /\
            n = affected p (f t) (refunds (db s)).
Proof.
  unfold exec_refunds. intros (s1&t&Ht&Hs)%bind_Ok. apply get_now_Ok in Ht as ->.
  apply sql_Ok in Hs. simplify_eq. eauto.
Qed.

Lemma insert_log_Ok l e s s' u : insert_log l e s = (s', Ok u) -> db s' = add_log l (db s).
Proof. intros Hs. apply sql_Ok in Hs. by simplify_eq. Qed.

(** The outbox keeps its events. *)
Definition keeps_events (d d' : DB) : Prop :=
  exists t, d' = with_outbox t d /\
    forall e, e ∈ outbox d -> exists e', e' ∈ t /\ event_id e' = event_id e.

Lemma upsert_outbox_keeps row d : keeps_events d (upsert_outbox row d).
Proof.
  unfold upsert_outbox. destruct (existsb _ _); eexists; (split; [reflexivity|]); intros e He.
  - destruct (str_eqb (event_id e) (event_id row)) eqn:Hb.
    + exists (requeue (next_retry_at row) e). split; [|done]. apply list_elem_of_fmap. exists e.
      by rewrite Hb.
    + exists e. split; [|done]. apply list_elem_of_fmap. exists e. by rewrite Hb.
  - exists e. split; [|done]. apply elem_of_app. by left.
Qed.

Lemma insertRefundOutbox_Ok ty rid oid pl s s' u :
  insertRefundOutbox ty rid oid pl s = (s', Ok u) -> keeps_events (db s) (db s').
Proof.
  unfold insertRefundOutbox. intros (s1&t&Ht&Hs)%bind_Ok. apply get_now_Ok in Ht as ->.
  apply sql_Ok in Hs. injection Hs as <-. apply upsert_outbox_keeps.
Qed.

(** An UPDATE by key that changed one row. *)
Lemma one_row_at_key {K R} `{Countable K} `{EqDecision R} (k : K) c (f : R -> R) (m : gmap K R) :
  affected (at_key k c) f m = 1 ->
  exists r, m !! k = Some r /\ c r = true /\ upd (at_key k c) f m = <[k := f r]> m.
Proof.
  rewrite affected_at_key, upd_at_key. destruct (m !! k) as [r|]; [|done].
  destruct (c r) eqn:Hc; [|done]. eauto.
Qed.
End store_ok.

(** Take apart a successful run in the context. *)
Ltac inv_ok :=
  repeat match goal with
  | H : bind _ _ _ = (_, Ok _) |- _ => apply bind_Ok in H as (?&?&?&?)
  | H : ret _ _ = (_, Ok _) |- _ => apply ret_Ok in H as [-> ?]; simplify_eq
  | H : one_row _ _ _ = (_, Ok _) |- _ => unfold one_row in H
  | H : require _ _ _ = (_, Ok _) |- _ => apply require_Ok in H as [-> ?]
  | H : of_res _ _ = (_, Ok _) |- _ => apply of_res_Ok in H as [-> ?]
  | H : throw _ _ = (_, Ok _) |- _ => by apply throw_Ok in H
  end.

(** * Steps of the shared statements *)

Lemma steps_trans_step d0 d d' : steps d0 d -> step d d' -> steps d0 d'.
Proof. apply rtc_r. Qed.

Lemma steps_keeps_events d0 d d' : steps d0 d -> keeps_events d d' -> steps d0 d'.
Proof. intros Hs (t&->&Ht). eapply steps_trans_step; [done|]. by constructor. Qed.

Section handler_steps.
Context {X : Type} `{InventoryClient X} `{PaymentProvider X} `{ProductClient X}.
Implicit Types (s : env DB X).

Lemma steps_exec_payments d0 p f e :
  (forall t r, payment_identity (f t r) = payment_identity r /\ p_status (f t r) = p_status r) ->
  preserves (steps d0) (exec_payments (X := X) p f e).
Proof.
  intros Hf. unfold exec_payments. preserve. apply preserves_sql. intros d Hd. simpl.
  eapply steps_trans_step; [done|]. apply step_payment_columns. apply map_eq. intros k.
  rewrite !lookup_fmap, lookup_upd. destruct (payments d !! k) as [r|]; simpl; [|done].
  destruct (p k r); [|done]. by destruct (Hf a r) as [-> ->].
Qed.

Lemma steps_exec_refunds d0 p f e :
  (forall t k r, p k r = true -> refund_identity (f t r) = refund_identity r /\
     (r_status (f t r) = r_status r \/
      refund_open (r_status r) = true /\ refund_open (r_status (f t r)) = true)) ->
  preserves (steps d0) (exec_refunds (X := X) p f e).
Proof.
  intros Hf. unfold exec_refunds. preserve. apply preserves_sql. intros d Hd. simpl.
  eapply steps_trans_step; [done|]. apply step_refund_columns. apply map_eq. intros k.
  rewrite !lookup_fmap, lookup_upd. destruct (refunds d !! k) as [r|]; simpl; [|done].
  destruct (p k r) eqn:Hp; [|done]. destruct (Hf a k r Hp) as [-> [->|[-> ->]]]; done.
Qed.

Lemma steps_raw_db d0 e : preserves (steps d0) (raw_db (X := X) e).
Proof. apply preserves_sql. done. Qed.

Lemma steps_query {A} d0 (f : DB -> A) e : preserves (steps d0) (query (X := X) f e).
Proof. apply preserves_sql. done. Qed.

(** * Life cycle commands *)

(** The four kinds of transition the commands run. *)
Inductive life_command : lifecycleTransition -> Prop :=
| life_cancel o u r : life_command (cancel_command o u r)
| life_close o u r : life_command (close_command o u r)
| life_ship_admin o u : life_command (ship_admin_command o u)
| life_ship_merchant o m : life_command (ship_merchant_command o m)
| life_receipt o u : life_command (receipt_command o u).

Lemma close_payment_fits t p :
  payment_identity (close_payment t p) = payment_identity p /\
  p_status (close_payment t p) = paymentstatus.Closed.
Proof. done. Qed.

Lemma lifecycle_spec_steps c t d :
  life_command c -> steps d (lifecycle_spec c t d).1.
Proof.
  intros Hc. unfold lifecycle_spec. destruct (owner_scope c) as [scope|e]; [|done].
  destruct (orders d !! lt_orderID c) as [o|] eqn:Ho; [|done].
  destruct (negb (scope o)); [done|]. destruct (o_status o =? toStatus c); [done|].
  destruct (negb (o_status o =? fromStatus c)) eqn:Hf; [done|]. apply negb_false_iff, Z.eqb_eq in Hf.
  destruct (lifecycleUpdate c) as [[cond set]|e] eqn:Hu; [|done]. simpl. apply rtc_once.
  destruct (lifecycleUpdate_set c cond set t o Hu) as (Hst&Hr&Hu1&Hm&Hp&Ha).
  assert (order_goes d (lt_orderID c) (fromStatus c) (set t o) (toStatus c)) as Hg.
  { exists o. unfold order_identity. by rewrite Hr, Hu1, Hm, Hp, Ha. }
  destruct Hc; simpl in *.
  - eapply (step_close d o0 (set t o) (close_payment t)); [done|intros; apply close_payment_fits|].
    by repeat split.
  - eapply (step_close d o0 (set t o) (close_payment t)); [done|intros; apply close_payment_fits|].
    by repeat split.
  - eapply (step_ship d o0 (set t o)); [done|by repeat split].
  - eapply (step_ship d o0 (set t o)); [done|by repeat split].
  - eapply (step_receive d o0 (set t o)); [done|by repeat split].
Qed.

Lemma steps_executeLifecycleTransition d0 svcCtx c :
  life_command c -> preserves (steps d0) (executeLifecycleTransition (X := X) svcCtx c).
Proof.
  intros Hc. unfold executeLifecycleTransition. preserve; [apply steps_raw_db|].
  apply run_tx_faults; [apply faithful_lifecycle_body|].
  intros [d x t fs] Hf Hs. unfold no_faults in Hf. simpl in *. subst fs.
  rewrite lifecycle_body_run. pose proof (lifecycle_spec_steps c t d Hc).
  destruct (lifecycle_spec c t d). simpl in *. by etrans.
Qed.

Lemma steps_releaseClosedOrder d0 svcCtx o r :
  preserves (steps d0) (releaseClosedOrder (X := X) svcCtx o r).
Proof. unfold releaseClosedOrder. preserve; by apply steps_exec_payments. Qed.

Lemma steps_closeProviderPayment d0 svcCtx o :
  preserves (steps d0) (closeProviderPayment (X := X) svcCtx o).
Proof. unfold closeProviderPayment. preserve; [apply steps_raw_db|apply steps_query]. Qed.

(** * Payments *)

Lemma steps_add_event d0 d e : steps d0 d -> steps d0 (add_event e d).
Proof. intros Hs. eapply steps_trans_step; [done|]. constructor. Qed.

Lemma elem_of_append_ignore {R} (clash : R -> bool) r (l : list R) e :
  e ∈ l -> e ∈ append_ignore clash r l.
Proof. unfold append_ignore. destruct (existsb _ _); [done|]. intros. apply elem_of_app. by left. Qed.

Lemma append_ignore_outbox r l :
  exists e, e ∈ append_ignore (fun r' => str_eqb (event_id r') (event_id r)) r l /\
            event_id e = event_id r.
Proof.
  unfold append_ignore. destruct (existsb _ _) eqn:He.
  - apply existsb_exists in He as (e&Hin&Hb). exists e. bools. split; [|done].
    by apply list_elem_of_In.
  - exists r. split; [|done]. apply elem_of_app. right. by left.
Qed.

Lemma paid_spec_steps in_ cb t d : steps d (paid_spec in_ cb t d).1.
Proof.
  unfold paid_spec. destruct (payments d !! mp_PaymentOrderId in_) as [p|] eqn:Hp; [|done].
  destruct (orders d !! mp_OrderId in_) as [o|] eqn:Ho; [|done].
  destruct (matches in_ p) eqn:Hm; simpl; [|done].
  destruct (negb (PaidAmountFen cb =? _)); simpl; [by apply steps_add_event|].
  destruct (_ || _); simpl; [by apply steps_add_event|].
  destruct (o_status o =? orderstatus.Closed); simpl; [by apply steps_add_event|].
  destruct (o_status o =? orderstatus.PendingPayment) eqn:Hs; simpl; [|done].
  destruct (p_status p =? paymentstatus.Init) eqn:Hi; simpl; [|done]. bools.
  unfold matches in Hm. bools. unfold paid_db.
  match goal with |- context [add_event ?e _] => generalize e; intros ev end.
  match goal with |- context [insert_outbox_ignore ?r _] => remember r as row eqn:Hrow end.
  eapply rtc_l.
  - apply (step_pay d (mp_OrderId in_) (set_status orderstatus.Paid t o) (mp_PaymentOrderId in_) p
             (pay_row (mp_CallbackBody in_) (ProviderTradeNo cb) t p)
             (mkLog (mp_OrderId in_) orderstatus.PendingPayment orderstatus.Paid 0
                "payment callback success")
             (append_ignore (fun r' => str_eqb (event_id r') (event_id row)) row (outbox d)));
      try done.
    + exists o. by repeat split.
    + intros e. apply elem_of_append_ignore.
    + destruct (append_ignore_outbox row (outbox d)) as (e&?&He). exists e. split; [done|].
      rewrite He. by subst row.
  - apply rtc_once.
    match goal with |- step ?d1 ?d2 =>
      change d2 with (with_callback_events (callback_events d2) d1) end.
    constructor.
Qed.

Lemma steps_confirmInventoryDeduct d0 svcCtx o :
  preserves (steps d0) (confirmInventoryDeduct (X := X) svcCtx o).
Proof. unfold confirmInventoryDeduct. preserve; by apply steps_exec_payments. Qed.

Lemma steps_MarkPaid d0 svcCtx in_ : preserves (steps d0) (MarkPaid (X := X) svcCtx in_).
Proof.
  unfold MarkPaid. preserve; try apply steps_raw_db; try apply steps_confirmInventoryDeduct.
  apply run_tx_faults; [apply faithful_mark_paid_body|].
  intros [d x t fs] Hf Hs. unfold no_faults in Hf. simpl in *. subst fs.
  rewrite mark_paid_body_run. pose proof (paid_spec_steps in_ a2 t d).
  destruct (paid_spec in_ a2 t d). simpl in *. by etrans.
Qed.
End handler_steps.

Section refund_steps.
Context {X : Type} `{InventoryClient X} `{PaymentProvider X} `{ProductClient X}.
Implicit Types (s : env DB X).

Lemma steps_HandlePaymentNotification d0 svcCtx in_ :
  preserves (steps d0) (HandlePaymentNotification (X := X) svcCtx in_).
Proof.
  unfold HandlePaymentNotification. preserve; first [apply steps_query | apply steps_MarkPaid
    | by apply steps_exec_payments].
Qed.

Lemma steps_CreatePayment d0 svcCtx in_ : preserves (steps d0) (CreatePayment (X := X) svcCtx in_).
Proof.
  unfold CreatePayment, createProviderPayment. preserve; unfold one_row;
    first [apply steps_query | apply preserves_require | by apply steps_exec_payments].
Qed.

(** * Refund requests *)

Lemma select_for_order_Some o d k p :
  select (for_order o) (payments d) = Some (k, p) -> payments d !! k = Some p /\ p_order_id p = o.
Proof. intros [Hk Hp]%select_Some. unfold for_order in Hp. by bools. Qed.

Lemma insert_refund_Ok id r s s' u :
  insert_refund (X := X) id r s = (s', Ok u) ->
  refunds (db s) !! id = None /\
  (forall k' r', refunds (db s) !! k' = Some r' -> r_order_id r' <> r_order_id r) /\
  db s' = set_refund id r (db s).
Proof.
  unfold insert_refund. intros (s1&ok&Hs&Hq)%bind_Ok. apply require_Ok in Hq as [-> ->].
  apply sql_Ok in Hs. destruct (insert_row _ _ _ _) as [t|] eqn:Ht; simplify_eq.
  apply insert_row_Some in Ht as (Hn&->&Hc). split; [done|]. split; [|done].
  intros k' r' Hk Heq. specialize (Hc _ _ Hk). rewrite Heq in Hc. by rewrite str_eqb_refl in Hc.
Qed.

Lemma request_refund_steps in_ oid role s s' e resp :
  request_refund_body (X := X) in_ oid role s = (s', Ok (Commit e resp)) -> steps (db s) (db s').
Proof.
  unfold request_refund_body. intros (s1&src&Hq&Hb)%bind_Ok. apply query_Ok in Hq as [Hd1 ->].
  unfold refund_source in Hb. destruct (orders (db s) !! oid) as [o|] eqn:Ho; [|done].
  destruct (match select (for_order oid) (payments (db s)) with Some _ => _ | None => _ end)
    as [[[pid amt] pst] prov] eqn:Hsrc.
  destruct (str_eqb role "user" && _); [done|].
  apply bind_Ok in Hb as (s2&ex&Hq&Hb). apply query_Ok in Hq as [Hd2 ->].
  destruct (select (for_refund_order oid) (refunds (db s1))) as [[rid r]|] eqn:Hex.
  { destruct (r_status r =? refundstatus.Rejected); [done|]. inv_ok. by rewrite Hd2, Hd1. }
  destruct (negb (orderstatus.CanRequestRefund (o_status o)) || is_empty pid ||
            negb (pst =? paymentstatus.Success)) eqn:Hg; [done|]. bools.
  apply bind_Ok in Hb as (s3&n&Hexec&Hb). apply exec_orders_Ok in Hexec as (t&Hd3&->).
  inv_ok. bools.
  match goal with H : insert_refund _ _ _ = _ |- _ => rename H into Hins end.
  match goal with H : insertRefundStatusLog _ _ _ _ _ _ = _ |- _ => rename H into Hlog end.
  match goal with H : insertRefundOutbox _ _ _ _ _ = _ |- _ => rename H into Hout end.
  match goal with H : affected _ _ _ = 1 |- _ => apply one_row_at_key in H as (o1&Ho1&Hst&Hu) end.
  rewrite Hd2, Hd1 in *. assert (o1 = o) as -> by congruence. rewrite Hu in Hd3.
  apply insert_refund_Ok in Hins as (Hrk&Hrn&Hd4). apply insert_log_Ok in Hlog.
  eapply steps_keeps_events; [|by eapply insertRefundOutbox_Ok].
  rewrite Hlog, Hd4, Hd3. apply rtc_once. rewrite Hd3 in Hrk, Hrn. simpl in Hrk, Hrn.
  destruct (select (for_order oid) (payments (db s))) as [[k p]|] eqn:Hp; [|by simplify_eq].
  injection Hsrc as <- <- Hps _. apply select_for_order_Some in Hp as [Hp Hpo].
  eapply (step_request (db s) oid (o_status o) _ k p); try done.
  - exists o. by repeat split.
Qed.

Lemma steps_RequestRefund d0 in_ : preserves (steps d0) (RequestRefund (X := X) in_).
Proof.
  unfold RequestRefund. preserve; [apply steps_raw_db|]. apply preserves_run_tx.
  intros s e resp Hs Hr.
  match type of Hr with (?m s).2 = _ => destruct (m s) as [s' r] eqn:Hm end. simpl in *. subst r.
  etrans; [done|]. by eapply request_refund_steps.
Qed.

(** * Refund audits *)

Lemma attempt_Ok {A} (m : M DB X error A) s s' r :
  attempt m s = (s', Ok r) -> exists r', m s = (s', r') /\ r = r'.
Proof. unfold attempt. destruct (m s) as [s1 r1]. intros [= <- <-]. eauto. Qed.

Lemma release_db svcCtx o s : db (releaseRefundStock (X := X) svcCtx o s).1 = db s.
Proof.
  assert (preserves (fun d => d = db s) (releaseRefundStock (X := X) svcCtx o)) as Hp;
    [|by apply Hp]. unfold releaseRefundStock. preserve.
Qed.

(** The end of an approval, after the refund row became successful. *)
Lemma finish_refund_steps in_ rid oid s s' e a d r r' :
  finish_refund (X := X) in_ rid oid s = (s', Ok (Commit e a)) ->
  db s = set_refund rid r' d -> refunds d !! rid = Some r -> r_order_id r = oid ->
  refund_open (r_status r) = true -> refund_identity r' = refund_identity r ->
  r_status r' = refundstatus.Success -> steps d (db s').
Proof.
  intros Hb Hd Hr Ho Hop Hid Hst. unfold finish_refund in Hb.
  apply bind_Ok in Hb as (s1&n&Hexec&Hb). apply exec_orders_Ok in Hexec as (t&Hd1&->).
  inv_ok. bools.
  match goal with H : insertRefundStatusLog _ _ _ _ _ _ = _ |- _ => rename H into Hlog end.
  match goal with H : insertRefundOutbox _ _ _ _ _ = _ |- _ => rename H into Hout end.
  match goal with H : affected _ _ _ = 1 |- _ => apply one_row_at_key in H as (o1&Ho1&Hs1&Hu) end.
  rewrite Hu in Hd1. apply insert_log_Ok in Hlog.
  eapply steps_keeps_events; [|by eapply insertRefundOutbox_Ok].
  rewrite Hlog, Hd1, Hd. apply rtc_once. rewrite Hd in Ho1. simpl in Ho1. bools.
  eapply (step_audit d _ orderstatus.Refunded);
    [|exact Hr|done|done|unfold refund_identity; congruence|by left|by repeat split].
  exists o1. by repeat split.
Qed.

Lemma auditable_open r : auditable r = refund_open (r_status r).
Proof. done. Qed.

Lemma approve_refund_steps svcCtx in_ rid oid s s' e a r :
  approveRefund (X := X) svcCtx in_ rid oid s = (s', Ok (Commit e a)) ->
  refunds (db s) !! rid = Some r -> r_order_id r = oid -> steps (db s) (db s').
Proof.
  intros Hb Hr Ho. unfold approveRefund in Hb. apply bind_Ok in Hb as (s1&rel&Hrel&Hb).
  apply attempt_Ok in Hrel as (r0&Hrel&->). pose proof (release_db svcCtx oid s) as Hd.
  rewrite Hrel in Hd. simpl in Hd. destruct r0 as [[]|err]; [|done].
  apply bind_Ok in Hb as (s2&n&Hexec&Hb). apply exec_refunds_Ok in Hexec as (t&Hd1&->).
  inv_ok. bools.
  match goal with H : affected _ _ _ = 1 |- _ => apply one_row_at_key in H as (r1&Hr1&Hop&Hu) end.
  rewrite Hu, Hd in Hd1. rewrite Hd in Hr1. assert (r1 = r) as -> by congruence.
  by eapply finish_refund_steps.
Qed.

Lemma reject_refund_steps in_ rid oid s s' e a r :
  rejectRefund (X := X) in_ rid oid s = (s', Ok (Commit e a)) ->
  refunds (db s) !! rid = Some r -> r_order_id r = oid -> steps (db s) (db s').
Proof.
  intros Hb Hr Ho. unfold rejectRefund in Hb.
  apply bind_Ok in Hb as (s0&st&Hq&Hb). apply query_Ok in Hq as [Hd0 Hst].
  assert (st = orderstatus.Paid \/ st = orderstatus.Shipped) as Hor.
  { rewrite Hst. unfold restore_status. destruct (negb _ && negb _) eqn:Hn; [by left|].
    apply andb_false_iff in Hn as [Hn|Hn]; bools; auto. }
  clear Hst.
  apply bind_Ok in Hb as (s1&n&Hexec&Hb). apply exec_refunds_Ok in Hexec as (t&Hd1&->).
  apply bind_Ok in Hb as (s2&u&Hn&Hb). unfold one_row in Hn. apply require_Ok in Hn as [-> Hn].
  apply Z.eqb_eq, one_row_at_key in Hn as (r1&Hr1&Hop&Hu).
  rewrite Hd0 in *. assert (r1 = r) as -> by congruence. rewrite Hu in Hd1. clear Hu.
  apply bind_Ok in Hb as (s3&n&Hexec&Hb). apply exec_orders_Ok in Hexec as (t'&Hd2&->).
  apply bind_Ok in Hb as (s4&u'&Hn&Hb). unfold one_row in Hn. apply require_Ok in Hn as [-> Hn].
  apply Z.eqb_eq, one_row_at_key in Hn as (o1&Ho1&Hs1&Hu). rewrite Hu in Hd2.
  inv_ok.
  match goal with H : insertRefundStatusLog _ _ _ _ _ _ = _ |- _ => rename H into Hlog end.
  match goal with H : insertRefundOutbox _ _ _ _ _ = _ |- _ => rename H into Hout end.
  apply insert_log_Ok in Hlog. eapply steps_keeps_events; [|by eapply insertRefundOutbox_Ok].
  rewrite Hlog, Hd2, Hd1. apply rtc_once. rewrite Hd1 in Ho1. simpl in Ho1. bools.
  eapply (step_audit (db s) _ st); [|eassumption|done|done|done|right; by split|by repeat split].
  exists o1. by repeat split.
Qed.

Lemma approve_external_steps svcCtx in_ ex s s' e a d0 :
  approve_external_tx (X := X) svcCtx in_ ex s = (s', Ok (Commit e a)) ->
  steps d0 (db s) -> steps d0 (db s').
Proof.
  intros Hb Hs.
  assert (preserves (steps d0) (approve_external_tx (X := X) svcCtx in_ ex)) as Hp.
  { unfold approve_external_tx, one_row. cbv zeta. preserve. apply steps_exec_refunds.
    intros t k r Hk. apply andb_true_iff in Hk as [_ Hk]. rewrite auditable_open in Hk. auto. }
  specialize (Hp s Hs). by rewrite Hb in Hp.
Qed.

Lemma audit_body_steps svcCtx in_ rid s s' e a :
  audit_body (X := X) svcCtx in_ rid s = (s', Ok (Commit e a)) -> steps (db s) (db s').
Proof.
  unfold audit_body. intros (s1&row&Hq&Hb)%bind_Ok. apply query_Ok in Hq as [Hd ->].
  unfold audit_row in Hb. destruct (refunds (db s) !! rid) as [r|] eqn:Hr; [|done].
  destruct (orders (db s) !! r_order_id r) as [o|]; [|done].
  destruct (payments (db s) !! r_payment_order_id r) as [p|]; [|done].
  destruct (r_status r =? refundstatus.Success).
  { apply bind_Ok in Hb as (s2&u&Hn&Hb). apply require_Ok in Hn as [-> _].
    apply bind_Ok in Hb as (s2&rel&Hrel&Hb). apply attempt_Ok in Hrel as (r0&Hrel&->).
    pose proof (release_db svcCtx (r_order_id r) s1) as Hd2. rewrite Hrel in Hd2. simpl in Hd2.
    destruct r0 as [[]|]; [|done]. inv_ok. by rewrite Hd2, Hd. }
  destruct (r_status r =? refundstatus.Rejected); [inv_ok; by rewrite Hd|].
  destruct (negb (auditable r)); [done|]. destruct (negb (o_status o =? _)); [done|].
  rewrite <- Hd in Hr |- *. destruct (ar_Approve in_).
  - destruct (str_eqb (r_provider r) NameAlipaySandbox).
    + by eapply approve_external_steps.
    + by eapply approve_refund_steps.
  - destruct (_ || _); [done|]. by eapply reject_refund_steps.
Qed.

Lemma steps_run_tx {A} d0 eb (body : M DB X error (txend error A)) :
  (forall s s' e a, body s = (s', Ok (Commit e a)) -> steps (db s) (db s')) ->
  preserves (steps d0) (run_tx eb body).
Proof.
  intros Hb. apply preserves_run_tx. intros s e a Hs Hr. etrans; [done|].
  destruct (body s) as [s' r] eqn:Hm. simpl in *. subst r. by eapply Hb.
Qed.

(** A refund row stays with its order. *)
Definition linked (rid oid : string) (d : DB) : Prop :=
  exists r, refunds d !! rid = Some r /\ r_order_id r = oid.

Lemma step_linked rid oid d d' : step d d' -> linked rid oid d -> linked rid oid d'.
Proof.
  intros Hst (r&Hr&Ho). destruct Hst; try (by exists r).
  - assert (Hk := f_equal (.!! rid) H2). rewrite !lookup_fmap, Hr in Hk.
    destruct (t !! rid) as [r'|] eqn:Hr'; [|done]. injection Hk as Hk _ _ _ _. exists r'. simpl.
    split; congruence.
  - destruct (decide (rk = rid)) as [->|Hne]; [congruence|]. exists r. simpl.
    by rewrite lookup_insert_ne.
  - injection H6 as Hoid _ _. destruct (decide (rk = rid)) as [->|Hne].
    + exists r'. simpl. rewrite lookup_insert_eq. split; congruence.
    + exists r. simpl. by rewrite lookup_insert_ne.
Qed.

Lemma steps_linked rid oid d d' : steps d d' -> linked rid oid d -> linked rid oid d'.
Proof. induction 1; eauto using step_linked. Qed.

Lemma complete_approved_steps in_ rid oid d0 :
  linked rid oid d0 -> preserves (steps d0) (completeApprovedRefund (X := X) in_ rid oid).
Proof.
  intros Hl. unfold completeApprovedRefund. preserve; [apply steps_raw_db|]. apply preserves_run_tx.
  intros s e a0 Hs Hr. destruct (steps_linked _ _ _ _ Hs Hl) as (r&Hrk&Ho). etrans; [done|].
  destruct (complete_approved_body in_ rid oid s) as [s' r'] eqn:Hb. simpl in *. subst r'.
  unfold complete_approved_body in Hb. apply bind_Ok in Hb as (s1&n&Hexec&Hb).
  apply exec_refunds_Ok in Hexec as (t&Hd1&->).
  apply bind_Ok in Hb as (s2&u&Hn&Hb). unfold one_row in Hn. apply require_Ok in Hn as [-> Hn].
  apply Z.eqb_eq, one_row_at_key in Hn as (r1&Hr1&Hop&Hu).
  assert (r1 = r) as -> by congruence. rewrite Hu in Hd1. apply andb_true_iff in Hop as [Hop _].
  eapply finish_refund_steps; [done..| |done|done].
  unfold refund_open. apply orb_true_iff in Hop as [-> | ->]; by rewrite ?orb_true_r.
Qed.

Lemma steps_markRefundReleaseFailed d0 in_ rid oid c :
  preserves (steps d0) (markRefundReleaseFailed (X := X) in_ rid oid c).
Proof.
  unfold markRefundReleaseFailed. preserve; [apply steps_raw_db|]. apply preserves_run_tx_body.
  unfold mark_release_failed_body. cbv zeta. preserve.
  - apply steps_exec_refunds. intros t k r Hk. apply andb_true_iff in Hk as [_ Hk].
    rewrite auditable_open in Hk. auto.
  - unfold insertRefundOutbox. preserve. apply preserves_sql. intros d Hd.
    by eapply steps_keeps_events, upsert_outbox_keeps.
Qed.

Lemma steps_report_release_failure d0 in_ rid oid c :
  preserves (steps d0) (report_release_failure (X := X) in_ rid oid c).
Proof. unfold report_release_failure. preserve. apply steps_markRefundReleaseFailed. Qed.

Lemma steps_release_and_complete d0 svcCtx in_ ex :
  linked (ex_RefundID ex) (ex_OrderID ex) d0 ->
  preserves (steps d0) (release_and_complete (X := X) svcCtx in_ ex).
Proof.
  intros Hl. unfold release_and_complete, releaseRefundStock. preserve;
    [by apply complete_approved_steps|apply steps_report_release_failure].
Qed.

Lemma steps_call_provider d0 in_ ex : preserves (steps d0) (call_provider (X := X) in_ ex).
Proof.
  unfold call_provider, markProviderRefundFailed. preserve; apply steps_exec_refunds;
    intros t k r Hk; apply andb_true_iff in Hk as [_ Hk].
  - auto.
  - split; [done|]. right. split; [|done]. unfold refund_open. by rewrite Hk, orb_true_r.
Qed.

(** A transaction that gave a result committed it, or rolled back. *)
Lemma run_tx_Ok {A} eb (body : M DB X error (txend error A)) s s' a :
  run_tx eb body s = (s', Ok a) ->
  exists s1 s2, db s1 = db s /\
    ((exists e, body s1 = (s2, Ok (Commit e a)) /\ db s' = db s2) \/
     (body s1 = (s2, Ok (Rollback a)) /\ db s' = db s)).
Proof.
  unfold run_tx. pose proof (db_pop_fault s) as Hdb. destruct (pop_fault s) as [[] s1]; try done.
  simpl in Hdb. destruct (body s1) as [s2 [[e a'|a']|e]] eqn:Hb; [|intros [= <- <-]|done].
  - pose proof (db_pop_fault s2) as Hdb2. destruct (pop_fault s2) as [[] s3]; try done.
    intros [= <- <-]. exists s1, s2. eauto 10.
  - exists s1, s2. split; [done|]. right. by split.
Qed.

Definition tx_value {E A} (t : txend E A) : A := match t with Commit _ a | Rollback a => a end.

(** The refund an audit hands to the provider path is the one it read. *)
Lemma audit_body_external svcCtx in_ rid s s' te :
  audit_body (X := X) svcCtx in_ rid s = (s', Ok te) ->
  match tx_value te with
  | CallProvider ex | ProviderDone ex => linked (ex_RefundID ex) (ex_OrderID ex) (db s)
  | _ => True
  end.
Proof.
  unfold audit_body. intros (s1&row&Hq&Hb)%bind_Ok. apply query_Ok in Hq as [Hd ->].
  unfold audit_row in Hb. destruct (refunds (db s) !! rid) as [r|] eqn:Hr; [|done].
  destruct (orders (db s) !! r_order_id r) as [o|]; [|done].
  destruct (payments (db s) !! r_payment_order_id r) as [p|]; [|done].
  destruct (r_status r =? refundstatus.Success).
  { apply bind_Ok in Hb as (?&?&_&Hb). apply bind_Ok in Hb as (?&[]&_&Hb); [|done].
    by apply ret_Ok in Hb as [_ ->]. }
  destruct (r_status r =? refundstatus.Rejected).
  { apply bind_Ok in Hb as (?&?&_&Hb). by apply ret_Ok in Hb as [_ ->]. }
  destruct (negb (auditable r)); [done|]. destruct (negb (o_status o =? _)); [done|].
  assert (forall rid' oid' s s' te, finish_refund (X := X) in_ rid' oid' s = (s', Ok te) ->
    exists resp, tx_value te = AuditDone resp) as Hfin.
  { unfold finish_refund. intros ????? Hf. repeat (apply bind_Ok in Hf as (?&?&_&Hf)).
    apply ret_Ok in Hf as [_ ->]. by eexists. }
  destruct (ar_Approve in_).
  - destruct (str_eqb (r_provider r) NameAlipaySandbox).
    + unfold approve_external_tx in Hb. apply bind_Ok in Hb as (?&?&_&Hb).
      revert Hb. cbv zeta. destruct (negb _); intros Hb; repeat (apply bind_Ok in Hb as (?&?&_&Hb));
        apply ret_Ok in Hb as [_ ->]; exists r; simpl; by destruct (is_empty _).
    + unfold approveRefund in Hb. apply bind_Ok in Hb as (?&[[]|]&_&Hb).
      * apply bind_Ok in Hb as (?&?&_&Hb). apply bind_Ok in Hb as (?&?&_&Hb).
        by apply Hfin in Hb as [? ->].
      * by apply ret_Ok in Hb as [_ ->].
  - destruct (_ || _); [done|]. unfold rejectRefund in Hb.
    repeat (apply bind_Ok in Hb as (?&?&_&Hb)). by apply ret_Ok in Hb as [_ ->].
Qed.

Lemma steps_AuditRefund d0 svcCtx in_ : preserves (steps d0) (AuditRefund (X := X) svcCtx in_).
Proof.
  unfold AuditRefund. cbv zeta. apply preserves_bind; [apply preserves_require|intros _].
  apply preserves_bind; [apply steps_raw_db|intros _]. intros s Hs.
  match goal with |- context [run_tx ?eb ?body] =>
    pose proof (steps_run_tx d0 eb body (audit_body_steps svcCtx in_ _) s Hs) as Htx;
    unfold bind at 1; destruct (run_tx eb body s) as [s1 [out|err]] eqn:Hr end; [|done].
  simpl in Htx. apply run_tx_Ok in Hr as (s2&s3&Hd&Hcase).
  assert (steps (db s2) (db s1) /\ match out with
    | CallProvider ex | ProviderDone ex => linked (ex_RefundID ex) (ex_OrderID ex) (db s2)
    | _ => True end) as [Hst Hl].
  { destruct Hcase as [(e&Hb&Hd1)|[Hb Hd1]].
    - split; [rewrite Hd1; by eapply audit_body_steps|]. by apply audit_body_external in Hb.
    - split; [by rewrite Hd1, Hd|]. by apply audit_body_external in Hb. }
  destruct out as [resp|ex|ex|oid c]; simpl; [done|..].
  - apply (steps_linked _ _ _ _ Hst) in Hl.
    assert (preserves (steps (db s1)) (call_provider (X := X) in_ ex ;;;
      release_and_complete svcCtx in_ ex)) as Hp; [|etrans; [done|by apply Hp]].
    apply preserves_bind; [apply steps_call_provider|]. intros _. by apply steps_release_and_complete.
  - apply (steps_linked _ _ _ _ Hst) in Hl. etrans; [done|]. by apply steps_release_and_complete.
  - by apply steps_report_release_failure.
Qed.

End refund_steps.

Section create_steps.
Context {X : Type} `{InventoryClient X} `{PaymentProvider X} `{ProductClient X}.
Implicit Types (s : env DB X).

(** * Creation and compensation *)

Lemma steps_insert_order d0 d id o :
  steps d0 d -> o_status o = orderstatus.PendingPayment -> steps d0 (insert_order id o d).
Proof.
  intros Hs Ho. unfold insert_order, insert_ignore. destruct (orders d !! id) eqn:Hid.
  { by destruct d. }
  destruct (select _ (orders d)); [by destruct d|].
  eapply steps_trans_step; [done|]. by apply step_insert_order.
Qed.

Lemma steps_insert_payment d0 d id p :
  steps d0 d -> p_status p = paymentstatus.Init -> steps d0 (insert_payment id p d).
Proof.
  intros Hs Hp. unfold insert_payment, insert_ignore. destruct (payments d !! id) eqn:Hid.
  { by destruct d. }
  destruct (select _ (payments d)) eqn:Hsel; [by destruct d|]. rewrite select_None in Hsel.
  eapply steps_trans_step; [done|]. apply step_insert_payment; [done| |done].
  intros k' p' Hk Heq. specialize (Hsel _ _ Hk). rewrite Heq, str_eqb_refl in Hsel. done.
Qed.

Lemma steps_insert_outbox d0 d row : steps d0 d -> steps d0 (insert_outbox_ignore row d).
Proof.
  intros Hs. eapply steps_trans_step; [done|]. apply step_outbox. intros e He. exists e.
  split; [|done]. by apply elem_of_append_ignore.
Qed.

Lemma steps_CallWithDB d0 runs (body : M DB X error unit) :
  preserves (steps d0) body -> preserves (steps d0) (CallWithDB runs body).
Proof.
  intros Hb. unfold CallWithDB. apply preserves_run_tx_body. destruct runs; preserve. done.
Qed.

Lemma steps_CreateOrder d0 svcCtx b in_ : preserves (steps d0) (CreateOrder (X := X) svcCtx b in_).
Proof.
  unfold CreateOrder, loadProductMerchantID. preserve; try apply steps_query; try apply steps_raw_db.
  apply steps_CallWithDB. unfold create_order_body, InsertOrderCreatedOutbox. preserve;
    apply preserves_sql; intros d Hd; simpl.
  - by apply steps_insert_order.
  - eapply steps_trans_step; [done|]. constructor.
  - by apply steps_insert_payment.
  - by apply steps_insert_outbox.
Qed.

Lemma steps_compensate d0 d id t :
  steps d0 d ->
  steps d0 (with_orders (upd (at_key id (fun o => o_status o =? orderstatus.PendingPayment))
              (set_status orderstatus.Closed t) (orders d)) d).
Proof.
  intros Hs. rewrite upd_at_key. destruct (orders d !! id) as [o|] eqn:Ho; [|by destruct d].
  destruct (o_status o =? orderstatus.PendingPayment) eqn:Hst; [|by destruct d]. bools.
  eapply steps_trans_step; [done|]. apply step_compensate. exists o. by repeat split.
Qed.

Lemma steps_CreateOrderRollback d0 b in_ :
  preserves (steps d0) (CreateOrderRollback (X := X) b in_).
Proof.
  unfold CreateOrderRollback. preserve; [apply steps_raw_db|]. apply steps_CallWithDB.
  unfold rollback_body, exec_orders. preserve. apply preserves_sql. intros d Hd.
  by apply steps_compensate.
Qed.

(** * Recovery jobs *)

Lemma steps_releaseInventory d0 svcCtx o r :
  preserves (steps d0) (releaseInventory (X := X) svcCtx o r).
Proof. unfold releaseInventory. preserve; by apply steps_exec_payments. Qed.

Lemma expire_steps item s s' e a :
  expire_body (X := X) item s = (s', Ok (Commit e a)) -> steps (db s) (db s').
Proof.
  unfold expire_body. intros (s1&n&Hexec&Hb)%bind_Ok. apply exec_orders_Ok in Hexec as (t&Hd1&->).
  destruct (_ =? 0) eqn:Hz.
  { apply ret_Ok in Hb as [-> _]. apply Z.eqb_eq, affected_0_upd in Hz. rewrite Hz in Hd1.
    rewrite Hd1. by destruct (db s). }
  rewrite affected_at_key in Hz. rewrite upd_at_key in Hd1.
  destruct (orders (db s) !! it_OrderID item) as [o|] eqn:Ho; [|done].
  destruct (o_status o =? 0) eqn:Hst; [|done]. clear Hz. bools.
  apply bind_Ok in Hb as (s2&n&Hexec&Hb).
  unfold exec_payments in Hexec. apply bind_Ok in Hexec as (s2'&t'&Ht'&Hexec).
  apply get_now_Ok in Ht' as ->. apply sql_Ok in Hexec. injection Hexec as Hd2 _.
  apply bind_Ok in Hb as (s3&u&Hlog&Hb). apply insert_log_Ok in Hlog.
  apply ret_Ok in Hb as [-> _]. rewrite Hlog, <- Hd2, Hd1. apply rtc_once.
  eapply (step_close (db s) (it_OrderID item) (set_status 2 t o) (close_payment t')).
  - exists o. by repeat split.
  - intros. apply close_payment_fits.
  - by repeat split.
Qed.

Lemma steps_closeExpired d0 svcCtx item :
  preserves (steps d0) (closeExpired (X := X) svcCtx item).
Proof.
  unfold closeExpired, expire_order, on_provider_paid. preserve;
    first [apply steps_MarkPaid | by apply steps_exec_payments | apply steps_raw_db
          | apply steps_releaseInventory | apply steps_run_tx, expire_steps].
Qed.

Lemma steps_finalize_all d0 l first : preserves (steps d0) (finalize_all (X := X) l first).
Proof.
  revert first. induction l as [|o l IH]; intros first; simpl; [preserve|].
  unfold finalizeInventory. preserve; first [apply IH | by apply steps_exec_payments].
Qed.

Lemma steps_RunOnce d0 svcCtx : preserves (steps d0) (RunOnce (X := X) svcCtx).
Proof.
  unfold RunOnce, closeExpiredBatch, retryInventoryFinalizations, retryInventoryReleases.
  preserve; try apply steps_raw_db; try apply steps_query; try apply steps_finalize_all;
    apply preserves_for_each; intros x _; apply preserves_ignore.
  - apply steps_closeExpired.
  - apply steps_releaseInventory.
Qed.

(** * The service *)

(** A request to the order service, or a run of its recovery job. *)
Inductive request :=
| ReqCreate (barrier : option bool) (in_ : CreateOrderReq)
| ReqRollback (barrier : option bool) (in_ : CreateOrderReq)
| ReqDetail (orderID : string)
| ReqCreatePayment (in_ : option CreatePaymentReq)
| ReqMarkPaid (in_ : MarkOrderPaidReq)
| ReqNotify (in_ : option HandlePaymentNotificationReq)
| ReqCancel (in_ : option CancelUserOrderReq)
| ReqClose (in_ : option CloseAdminOrderReq)
| ReqShipAdmin (in_ : option ShipAdminOrderReq)
| ReqShipMerchant (in_ : option ShipMerchantOrderReq)
| ReqReceipt (in_ : option ConfirmReceiptReq)
| ReqRefund (in_ : RequestRefundReq)
| ReqAudit (in_ : AuditRefundReq)
| ReqRecovery.

Definition handle (svcCtx : ServiceContext) (r : request) : M DB X error unit :=
  match r with
  | ReqCreate b in_ => ignore (CreateOrder svcCtx b in_)
  | ReqRollback b in_ => ignore (CreateOrderRollback b in_)
  | ReqDetail o => ignore (GetOrderDetail o)
  | ReqCreatePayment in_ => ignore (CreatePayment svcCtx in_)
  | ReqMarkPaid in_ => ignore (MarkPaid svcCtx in_)
  | ReqNotify in_ => ignore (HandlePaymentNotification svcCtx in_)
  | ReqCancel in_ => ignore (CancelUserOrder svcCtx in_)
  | ReqClose in_ => ignore (CloseAdminOrder svcCtx in_)
  | ReqShipAdmin in_ => ignore (ShipAdminOrder svcCtx in_)
  | ReqShipMerchant in_ => ignore (ShipMerchantOrder svcCtx in_)
  | ReqReceipt in_ => ignore (ConfirmReceipt svcCtx in_)
  | ReqRefund in_ => ignore (RequestRefund in_)
  | ReqAudit in_ => ignore (AuditRefund svcCtx in_)
  | ReqRecovery => ignore (RunOnce svcCtx)
  end.

Definition serve (svcCtx : ServiceContext) (rs : list request) : M DB X error unit :=
  for_each (handle svcCtx) rs.

Lemma steps_lifecycle_handlers d0 svcCtx :
  (forall in_, preserves (steps d0) (CancelUserOrder (X := X) svcCtx in_)) /\
  (forall in_, preserves (steps d0) (CloseAdminOrder (X := X) svcCtx in_)) /\
  (forall in_, preserves (steps d0) (ShipAdminOrder (X := X) svcCtx in_)) /\
  (forall in_, preserves (steps d0) (ShipMerchantOrder (X := X) svcCtx in_)) /\
  (forall in_, preserves (steps d0) (ConfirmReceipt (X := X) svcCtx in_)).
Proof.
  unfold CancelUserOrder, CloseAdminOrder, ShipAdminOrder, ShipMerchantOrder, ConfirmReceipt.
  repeat split; intros in_; preserve;
    first [apply steps_closeProviderPayment | apply steps_releaseClosedOrder
          | apply steps_executeLifecycleTransition; constructor].
Qed.

Lemma steps_handle d0 svcCtx r : preserves (steps d0) (handle svcCtx r).
Proof.
  destruct (steps_lifecycle_handlers d0 svcCtx) as (Hc&Hcl&Hsa&Hsm&Hr).
  destruct r; apply preserves_ignore; auto.
  - apply steps_CreateOrder.
  - apply steps_CreateOrderRollback.
  - unfold GetOrderDetail. preserve. apply steps_query.
  - apply steps_CreatePayment.
  - apply steps_MarkPaid.
  - apply steps_HandlePaymentNotification.
  - apply steps_RequestRefund.
  - apply steps_AuditRefund.
  - apply steps_RunOnce.
Qed.

Lemma steps_serve svcCtx rs s : steps (db s) (db (serve svcCtx rs s).1).
Proof.
  assert (preserves (steps (db s)) (serve svcCtx rs)) as Hp; [|by apply Hp].
  apply preserves_for_each. intros r _. apply steps_handle.
Qed.

(** C1 The order service refines the transition system: any sequence of
    requests and recovery runs, with any inventory, provider and product
    services behind them and with calls failing before or after their effect
    anywhere, changes the database by steps of the life cycle only; started on
    an empty database it keeps every integrity property of [order_inv]. *)
Theorem service_refines_life_cycle svcCtx rs s :
  steps (db s) (db (serve svcCtx rs s).1) /\
  (order_inv (db s) -> order_inv (db (serve svcCtx rs s).1)).
Proof.
  split; [apply steps_serve|]. intros Hi. eapply steps_inv; [done|apply steps_serve].
Qed.
End create_steps.
