(* ===== verification/RedisScripts.v ===== *)
(** The Lua scripts of the inventory service
    (app/inventory/repository/redis_scripts.go, reservation_reaper.go) over a
    model of the Redis keyspace: typed values, key expiry, [WRONGTYPE] errors.

    A script runs atomically but is not rolled back: an error in the middle keeps
    the writes made before it.  A stored value is a decimal integer or a text;
    Lua numbers are doubles, exact on the integers below [2^53] that the theorems
    assume. *)

From stdpp Require Import sorting.
From S2P Require Import Prelude Effects Shards PreDeduct.

(** * The keyspace *)

(** A field of a hash: a text, or an integer written in decimal. *)
Inductive rfield := FStr (s : string) | FNum (z : Z).

Inductive rvalue :=
| RInt (z : Z)
| RHash (h : gmap string rfield)
| RZset (z : gmap string Z).

#[export] Instance rfield_eq_dec : EqDecision rfield.
Proof. solve_decision. Defined.

(** Each key with the time it expires at, if any. *)
Abbreviation rstore := (gmap string (rvalue * option Z)).
Abbreviation script := (M rstore unit string).

Definition WRONGTYPE : string :=
  "WRONGTYPE Operation against a key holding the wrong kind of value".
Definition NOT_A_STRING : string :=
  "Lua redis lib command arguments must be strings or integers".
Definition OVERFLOW : string := "ERR increment or decrement would overflow".
Definition NIL_ARITH : string := "attempt to perform arithmetic on a nil value".
Definition NIL_COMPARE : string := "attempt to compare nil with number".

Definition live (t : Z) (e : rvalue * option Z) : bool :=
  match e.2 with Some x => t <? x | None => true end.

Definition live_at (t : Z) (k : string) (s : rstore) : option (rvalue * option Z) :=
  match s !! k with Some e => if live t e then Some e else None | None => None end.

(** ** Commands *)

Definition entry (k : string) : script (option (rvalue * option Z)) :=
  fun s => (s, Ok (live_at (now s) k (db s))).

Definition put (k : string) (v : rvalue) (x : option Z) : script unit :=
  fun s => (set_db (<[k := (v, x)]> (db s)) s, Ok tt).

Definition DEL (k : string) : script unit := fun s => (set_db (delete k (db s)) s, Ok tt).

(** An argument [KEYS[i]] that may be [nil]. *)
Definition key_arg (k : option string) : script string :=
  match k with Some k => ret k | None => throw NOT_A_STRING end.

Definition GET (k : string) : script (option Z) :=
  e <- entry k ;;
  match e with
  | None => ret None
  | Some (RInt z, _) => ret (Some z)
  | Some _ => throw WRONGTYPE
  end.

Definition SET (k : string) (z : Z) : script unit := put k (RInt z) None.

Definition INCRBY (k : string) (d : Z) : script unit :=
  e <- entry k ;;
  match e with
  | None => put k (RInt d) None
  | Some (RInt z, x) =>
      if (int64_min <=? z + d) && (z + d <=? int64_max) then put k (RInt (z + d)) x
      else throw OVERFLOW
  | Some _ => throw WRONGTYPE
  end.

Definition DECRBY (k : string) (d : Z) : script unit := INCRBY k (- d).

Definition hash_at (k : string) : script (gmap string rfield * option Z) :=
  e <- entry k ;;
  match e with
  | None => ret (∅, None)
  | Some (RHash h, x) => ret (h, x)
  | Some _ => throw WRONGTYPE
  end.

Definition HGET (k f : string) : script (option rfield) :=
  '(h, _) <- hash_at k ;; ret (h !! f).

(** Later fields win. *)
Definition hset_all (fs : list (string * rfield)) (h : gmap string rfield) : gmap string rfield :=
  foldl (fun h fv => <[fv.1 := fv.2]> h) h fs.

Definition HSET (k : string) (fs : list (string * rfield)) : script unit :=
  '(h, x) <- hash_at k ;; put k (RHash (hset_all fs h)) x.

Definition HDEL (k f : string) : script unit :=
  '(h, x) <- hash_at k ;;
  if decide (delete f h = ∅) then DEL k else put k (RHash (delete f h)) x.

Definition HINCRBY (k f : string) (d : Z) : script Z :=
  '(h, x) <- hash_at k ;;
  match h !! f with
  | Some (FStr _) => throw "ERR hash value is not an integer"
  | v =>
      let n := match v with Some (FNum n) => n | _ => 0 end + d in
      put k (RHash (<[f := FNum n]> h)) x ;;; ret n
  end.

Definition zset_at (k : string) : script (gmap string Z * option Z) :=
  e <- entry k ;;
  match e with
  | None => ret (∅, None)
  | Some (RZset z, x) => ret (z, x)
  | Some _ => throw WRONGTYPE
  end.

Definition ZADD (k : string) (score : Z) (m : string) : script unit :=
  '(z, x) <- zset_at k ;; put k (RZset (<[m := score]> z)) x.

Definition ZREM (k m : string) : script unit :=
  '(z, x) <- zset_at k ;;
  if decide (delete m z = ∅) then DEL k else put k (RZset (delete m z)) x.

Definition ZSCORE (k m : string) : script (option Z) := '(z, _) <- zset_at k ;; ret (z !! m).
Definition ZCARD (k : string) : script Z := '(z, _) <- zset_at k ;; ret (Z.of_nat (size z)).

(** Members with a score up to [now], by score, then by name. *)
Definition zle (a b : string * Z) : Prop :=
  a.2 < b.2 \/ a.2 = b.2 /\ String.leb a.1 b.1 = true.
#[export] Instance zle_dec : RelDecision zle.
Proof. intros a b. unfold zle. apply _. Defined.

Definition zrange_until (now : Z) (z : gmap string Z) : list string :=
  (merge_sort zle (filter (fun kv => kv.2 <= now) (map_to_list z))).*1.

Definition ZRANGEBYSCORE (k : string) (now : Z) : script (list string) :=
  '(z, _) <- zset_at k ;; ret (zrange_until now z).
Definition ZCOUNT (k : string) (now : Z) : script Z :=
  '(z, _) <- zset_at k ;; ret (Z.of_nat (length (zrange_until now z))).

Definition EXPIRE (k : string) (ttl : Z) : script unit :=
  t <- get_now ;;
  e <- entry k ;;
  match e with
  | None => ret tt
  | Some (v, _) => if ttl <=? 0 then DEL k else put k v (Some (t + ttl))
  end.

(** [tonumber] of a hash field. *)
Definition tonumber (f : option rfield) : option Z :=
  match f with Some (FNum z) => Some z | _ => None end.
(** [tonumber(... or "0")]. *)
Definition tonumber_or_0 (f : option rfield) : option Z :=
  match f with None => Some 0 | _ => tonumber f end.

Definition number (v : option Z) (e : string) : script Z :=
  match v with Some z => ret z | None => throw e end.

(** * Keys (redis_codec.go, redis_mysql.go, reservation_reaper.go) *)

Definition reservationKey (orderID : string) : string := "inventory:reservation:" +:+ orderID.
Definition reservedStockKey (productID : Z) : string := "stock_reserved:" +:+ itoa productID.
Definition reservationExpiryIndexKey : string := "inventory:reservation:expirations".
Definition reservationProcessingIndexKey : string := "inventory:reservation:processing".
Definition reservationRetryCountKey : string := "inventory:reservation:retry_count".
Definition reservationDeadLetterIndexKey : string := "inventory:reservation:dead_letter".

Definition reservationExpirySeconds : Z := 24 * 60 * 60.
Definition reservationKeyTTLSeconds : Z := 48 * 60 * 60.
Definition confirmedReservationTTLSeconds : Z := 180 * 24 * 60 * 60.

(** * Stock scripts *)

Definition reserved_s : string := "reserved".
Definition confirmed_s : string := "confirmed".
Definition released_s : string := "released".

Fixpoint seedStockLuaScript (keys : list string) (values : list Z) : script unit :=
  match keys, values with
  | k :: keys', v :: values' => SET k v ;;; seedStockLuaScript keys' values'
  | k :: _, [] => throw NOT_A_STRING
  | [], _ => ret tt
  end.

Definition resetReservedStockLuaScript (key : string) (v : Z) : script unit := SET key v.

Fixpoint sumStockLuaScript (keys : list string) (exists_ : bool) (total : Z) : script (bool * Z) :=
  match keys with
  | [] => ret (exists_, total)
  | k :: keys' =>
      stock <- GET k ;;
      match stock with
      | None => sumStockLuaScript keys' exists_ total
      | Some v => sumStockLuaScript keys' true (total + v)
      end
  end.

Definition getReservedStockLuaScript (key : string) : script Z :=
  v <- GET key ;; ret (default 0 v).

(** One product of the batch: exists, available, reserved. *)
Definition batchStockLuaScript (products : list (Z * list string * string))
  : script (list (Z * bool * Z * Z)) :=
  foldr (fun p rest =>
    let '(productID, shards, reservedKey) := p in
    '(exists_, available) <- sumStockLuaScript shards false 0 ;;
    reserved <- getReservedStockLuaScript reservedKey ;;
    more <- rest ;;
    ret ((productID, exists_, available, reserved) :: more)) (ret []) products.

(** [remain] is threaded through the deduction loop; [true] is the early return. *)
Fixpoint take_from_shards (keys : list string) (shardCount start : Z) (n : nat) (i remain : Z)
  : script bool :=
  match n with
  | O => ret false
  | S n' =>
      let idx := (start - 1 + i) mod shardCount + 1 in
      k <- key_arg (KEYS keys idx) ;;
      v <- GET k ;;
      let stock := default 0 v in
      if 0 <? stock then
        let take := if remain <? stock then remain else stock in
        DECRBY k take ;;;
        if remain - take =? 0 then ret true
        else take_from_shards keys shardCount start n' (i + 1) (remain - take)
      else take_from_shards keys shardCount start n' (i + 1) remain
  end.

Fixpoint sum_shards (keys : list string) (n : nat) (i total : Z) : script Z :=
  match n with
  | O => ret total
  | S n' =>
      k <- key_arg (KEYS keys i) ;;
      v <- GET k ;;
      sum_shards keys n' (i + 1) (total + default 0 v)
  end.

Definition adjustAvailableStockLuaScript (keys : list string) (delta shardCount start : Z)
  : script Z :=
  if 0 <? delta then
    k <- key_arg (KEYS keys start) ;; INCRBY k delta ;;; ret 1
  else
    let amount := - delta in
    total <- sum_shards keys (Z.to_nat shardCount) 1 0 ;;
    if total <? amount then ret (-2)
    else
      done_ <- take_from_shards keys shardCount start (Z.to_nat shardCount) 0 amount ;;
      ret (if done_ : bool then 1 else -2).

(** * Reservation scripts *)

Record reserve_args := mkReserveArgs {
  ra_amount : Z; ra_ttl : Z; ra_shardCount : Z; ra_start : Z; ra_productID : Z;
  ra_orderID : string; ra_expirySeconds : Z
}.

(** The reservation of shard [idx]. *)
Definition reserve_from (a : reserve_args) (stockKey reservationKey : string)
  (reservedKey expiryIndexKey : option string) (idx : Z) : script unit :=
  DECRBY stockKey (ra_amount a) ;;;
  rk <- key_arg reservedKey ;;
  INCRBY rk (ra_amount a) ;;;
  HSET reservationKey [("status", FStr reserved_s); ("product_id", FNum (ra_productID a));
    ("quantity", FNum (ra_amount a)); ("shard_index", FNum idx);
    ("order_id", FStr (ra_orderID a))] ;;;
  if 0 <? ra_ttl a then
    EXPIRE reservationKey (ra_ttl a) ;;;
    t <- get_now ;;
    ek <- key_arg expiryIndexKey ;;
    ZADD ek (t + ra_expirySeconds a) (ra_orderID a)
  else ret tt.

Fixpoint reserve_loop (a : reserve_args) (keys : list string) (reservationKey : string)
  (reservedKey expiryIndexKey : option string) (n : nat) (i : Z) (hasStockKey : bool)
  : script Z :=
  match n with
  | O => ret (if hasStockKey then -2 else -1)
  | S n' =>
      let idx := (ra_start a + i) mod ra_shardCount a + 1 in
      stockKey <- key_arg (KEYS keys idx) ;;
      v <- GET stockKey ;;
      match v with
      | None => reserve_loop a keys reservationKey reservedKey expiryIndexKey n' (i + 1) hasStockKey
      | Some stock =>
          if ra_amount a <=? stock then
            reserve_from a stockKey reservationKey reservedKey expiryIndexKey idx ;;; ret 1
          else reserve_loop a keys reservationKey reservedKey expiryIndexKey n' (i + 1) true
      end
  end.

(** [existingQuantity ~= tonumber(ARGV[1])], a product compared as text. *)
Definition same_reservation (product quantity : option rfield) (a : reserve_args) : bool :=
  bool_decide (product = Some (FNum (ra_productID a))) &&
  bool_decide (tonumber_or_0 quantity = Some (ra_amount a)).

Definition reserveStockLuaScript (keys : list string) (a : reserve_args) : script Z :=
  reservationKey <- key_arg (KEYS keys (ra_shardCount a + 1)) ;;
  let reservedKey := KEYS keys (ra_shardCount a + 2) in
  let expiryIndexKey := KEYS keys (ra_shardCount a + 3) in
  status <- HGET reservationKey "status" ;;
  match status with
  | Some _ =>
      existingProductID <- HGET reservationKey "product_id" ;;
      existingQuantity <- HGET reservationKey "quantity" ;;
      ret (if same_reservation existingProductID existingQuantity a then 1 else -3)
  | None =>
      reserve_loop a keys reservationKey reservedKey expiryIndexKey
        (Z.to_nat (ra_shardCount a)) 0 false
  end.

(** The counter of reserved units goes down, not below zero. *)
Definition lower_reserved (reservedKey : string) (quantity : Z) : script unit :=
  v <- GET reservedKey ;;
  let nextValue := default 0 v - quantity in
  SET reservedKey (if nextValue <? 0 then 0 else nextValue).

(** [".." .. productID] of a hash field. *)
Definition field_text (f : rfield) : string :=
  match f with FStr s => s | FNum z => itoa z end.

Definition confirmDeductLuaScript (reservationKey expiryIndexKey orderID : string)
  (ttl finalDeductEnabled : Z) : script Z :=
  status <- HGET reservationKey "status" ;;
  match status with
  | None => ret 1
  | Some st =>
      if bool_decide (st = FStr released_s) then ret 1
      else
        changed <- (if bool_decide (st = FStr reserved_s) then
                      HSET reservationKey [("status", FStr confirmed_s)] ;;;
                      productID <- HGET reservationKey "product_id" ;;
                      q <- HGET reservationKey "quantity" ;;
                      match productID with
                      | None => ret 1
                      | Some product =>
                          quantity <- number (tonumber_or_0 q) NIL_COMPARE ;;
                          (if 0 <? quantity
                           then lower_reserved ("stock_reserved:" +:+ field_text product) quantity
                           else ret tt) ;;;
                          ret 1
                      end
                    else ret 0) ;;
        (if 0 <? ttl then EXPIRE reservationKey ttl else ret tt) ;;;
        ZREM expiryIndexKey orderID ;;;
        mysqlDeducted <- HGET reservationKey "mysql_deducted" ;;
        ret (if (finalDeductEnabled =? 1) && negb (bool_decide (mysqlDeducted = Some (FNum 1)))
             then 2 else if changed =? 1 then 3 else 1)
  end.

Definition markMySQLDeductedLuaScript (reservationKey : string) (ttl : Z) : script Z :=
  HSET reservationKey [("mysql_deducted", FNum 1)] ;;;
  (if 0 <? ttl then EXPIRE reservationKey ttl else ret tt) ;;;
  ret 1.

(** Product, quantity, shard index; fields that are not numbers do not decode. *)
Definition getReservationLuaScript (reservationKey : string) : script (Z * Z * Z) :=
  productID <- HGET reservationKey "product_id" ;;
  quantity <- HGET reservationKey "quantity" ;;
  match productID, quantity with
  | Some p, Some q =>
      shardIndex <- HGET reservationKey "shard_index" ;;
      match tonumber (Some p), tonumber (Some q), tonumber_or_0 shardIndex with
      | Some p, Some q, Some i => ret (p, q, i)
      | _, _, _ => throw "unexpected reservation result"
      end
  | _, _ => ret (0, 0, 0)
  end.

Definition hydrateReservationLuaScript (reservationKey status : string)
  (productID quantity shardIndex : Z) (orderID : string) (ttl : Z) : script Z :=
  st <- HGET reservationKey "status" ;;
  match st with
  | Some _ => ret 1
  | None =>
      HSET reservationKey [("status", FStr status); ("product_id", FNum productID);
        ("quantity", FNum quantity); ("shard_index", FNum shardIndex);
        ("order_id", FStr orderID)] ;;;
      (if 0 <? ttl then EXPIRE reservationKey ttl else ret tt) ;;;
      ret 1
  end.

Definition releaseStockLuaScript (keys : list string) (ttl shardCount : Z) : script Z :=
  reservationKey <- key_arg (KEYS keys (shardCount + 1)) ;;
  let reservedKey := KEYS keys (shardCount + 2) in
  let expiryIndexKey := KEYS keys (shardCount + 3) in
  status <- HGET reservationKey "status" ;;
  match status with
  | None => ret 1
  | Some st =>
      if bool_decide (st = FStr released_s) then ret 1
      else
        q <- HGET reservationKey "quantity" ;;
        shardIndex <- HGET reservationKey "shard_index" ;;
        let quantity := default 0 (tonumber q) in
        let stockKey := match tonumber shardIndex with Some i => KEYS keys i | None => None end in
        (match stockKey with
         | Some k => if 0 <? quantity then INCRBY k quantity else ret tt
         | None => ret tt
         end) ;;;
        (if bool_decide (st = FStr reserved_s) && (0 <? quantity) then
           rk <- key_arg reservedKey ;; lower_reserved rk quantity
         else ret tt) ;;;
        HSET reservationKey [("status", FStr released_s)] ;;;
        orderID <- HGET reservationKey "order_id" ;;
        (match expiryIndexKey, orderID with
         | Some ek, Some o => ZREM ek (field_text o)
         | _, _ => ret tt
         end) ;;;
        (if 0 <? ttl then EXPIRE reservationKey ttl else ret tt) ;;;
        ret 1
  end.

(** * Recovery scripts *)

(** The Go caller passes one value per shard key, then the reserved counter. *)
Definition restoreProductStockLuaScript (shardKeys : list string) (reservedKey : string)
  (values : list Z) (reserved : Z) : script Z :=
  seedStockLuaScript shardKeys values ;;; SET reservedKey reserved ;;; ret 1.

Fixpoint resetReservationRecoveryIndexesLuaScript (keys : list string) : script Z :=
  match keys with
  | [] => ret 1
  | k :: keys' => DEL k ;;; resetReservationRecoveryIndexesLuaScript keys'
  end.

Definition restoreReservationLuaScript (reservationKey : string) (status : string)
  (productID quantity shardIndex : Z) (orderID : string) (ttl confirmedTTL expiresAt : Z)
  : script Z :=
  DEL reservationKey ;;;
  HSET reservationKey [("status", FStr status); ("product_id", FNum productID);
    ("quantity", FNum quantity); ("shard_index", FNum shardIndex); ("order_id", FStr orderID)] ;;;
  (if str_eqb status confirmed_s then
     HSET reservationKey [("mysql_deducted", FNum 1)] ;;;
     EXPIRE reservationKey confirmedTTL ;;;
     ZREM reservationExpiryIndexKey orderID ;;;
     HDEL reservationRetryCountKey orderID ;;;
     ZREM reservationDeadLetterIndexKey orderID
   else
     EXPIRE reservationKey ttl ;;;
     dead <- ZSCORE reservationDeadLetterIndexKey orderID ;;
     match dead with
     | None => ZADD reservationExpiryIndexKey expiresAt orderID
     | Some _ => ret tt
     end) ;;;
  ZREM reservationProcessingIndexKey orderID ;;;
  ret 1.

(** * Reaper scripts *)

Definition move_member (from to : string) (score : Z) (m : string) : script unit :=
  ZREM from m ;;; ZADD to score m.

(** [LIMIT 0 limit]: a negative limit is no limit. *)
Definition limited (limit : Z) (l : list string) : list string :=
  if limit <? 0 then l else take (Z.to_nat limit) l.

Definition claimExpiredReservationsLuaScript (now limit processingTimeout : Z)
  : script (list string) :=
  abandoned <- ZRANGEBYSCORE reservationProcessingIndexKey now ;;
  for_each (move_member reservationProcessingIndexKey reservationExpiryIndexKey now) abandoned ;;;
  due <- ZRANGEBYSCORE reservationExpiryIndexKey now ;;
  let claimed := limited limit due in
  for_each (move_member reservationExpiryIndexKey reservationProcessingIndexKey
              (now + processingTimeout)) claimed ;;;
  ret claimed.

Definition completeExpiredReservationLuaScript (orderID : string) : script Z :=
  ZREM reservationProcessingIndexKey orderID ;;; HDEL reservationRetryCountKey orderID ;;; ret 1.

Definition retryExpiredReservationLuaScript (orderID : string) (now retryDelay maxRetries : Z)
  : script Z :=
  attempts <- HINCRBY reservationRetryCountKey orderID 1 ;;
  ZREM reservationProcessingIndexKey orderID ;;;
  (if maxRetries <=? attempts
   then ZADD reservationDeadLetterIndexKey now orderID
   else ZADD reservationExpiryIndexKey (now + retryDelay) orderID) ;;;
  ret attempts.

Definition reservationStatsLuaScript (now : Z) : script (Z * Z * Z * Z) :=
  a <- ZCARD reservationExpiryIndexKey ;;
  p <- ZCARD reservationProcessingIndexKey ;;
  d <- ZCARD reservationDeadLetterIndexKey ;;
  e <- ZCOUNT reservationExpiryIndexKey now ;;
  ret (a, p, d, e).

(** A script run by a client at time [t]. *)
Definition run_script {A} (sc : script A) (t : Z) (s : rstore) : rstore * res string A :=
  let '(s', r) := sc (mkEnv s tt t []) in (db s', r).
