(* ===== verification/RedisStock.v ===== *)
(** The bookkeeping of the stock scripts: types and expiry of the keys, the
    conservation of stock, and what each reservation script does to the books. *)

From S2P Require Import Prelude Effects Shards PreDeduct RedisScripts.

(** * Running a script *)

Abbreviation at_ s t := (mkEnv s tt t []).

Section commands.
Implicit Types (s : rstore) (t : Z) (k : string).

Lemma run_bind {A B} (m : script A) (f : A -> script B) s t s' a :
  m (at_ s t) = (at_ s' t, Ok a) -> bind m f (at_ s t) = f a (at_ s' t).
Proof. intros H. unfold bind. by rewrite H. Qed.

(** What a key of integers holds. *)
Definition int_opt k s : option Z := match s !! k with Some (RInt z, _) => Some z | _ => None end.
Definition int_at k s : Z := default 0 (int_opt k s).
Definition int_typed k s : Prop := forall e, s !! k = Some e -> exists z, e = (RInt z, None).

Lemma GET_run k s t : int_typed k s -> GET k (at_ s t) = (at_ s t, Ok (int_opt k s)).
Proof.
  intros Hk. unfold GET, entry, bind, live_at, int_opt. simpl.
  destruct (s !! k) as [e|] eqn:He; [|done]. by destruct (Hk e He) as [z ->].
Qed.

Lemma SET_run k z s t : SET k z (at_ s t) = (at_ (<[k := (RInt z, None)]> s) t, Ok tt).
Proof. done. Qed.

Lemma INCRBY_run k d s t :
  int_typed k s -> in_int64 (int_at k s + d) ->
  INCRBY k d (at_ s t) = (at_ (<[k := (RInt (int_at k s + d), None)]> s) t, Ok tt).
Proof.
  intros Hk Hr. unfold INCRBY, entry, bind, live_at, int_at, int_opt in *. simpl.
  destruct (s !! k) as [e|] eqn:He; [|done]. destruct (Hk e He) as [z ->]. simpl in *.
  unfold in_int64 in Hr. rewrite (proj2 (Z.leb_le _ _)), (proj2 (Z.leb_le _ _)) by lia. done.
Qed.

(** A hash that is there until [x], or absent. *)
Definition hash_opt k s : option (gmap string rfield) :=
  match s !! k with Some (RHash h, _) => Some h | _ => None end.

Lemma hash_at_Some k s t h x :
  s !! k = Some (RHash h, Some x) -> t < x -> hash_at k (at_ s t) = (at_ s t, Ok (h, Some x)).
Proof.
  intros Hk Hx. unfold hash_at, entry, bind, live_at. simpl. rewrite Hk. unfold live. simpl.
  by rewrite (proj2 (Z.ltb_lt _ _)) by done.
Qed.

Lemma hash_at_None k s t : s !! k = None -> hash_at k (at_ s t) = (at_ s t, Ok (∅, None)).
Proof. intros Hk. unfold hash_at, entry, bind, live_at. simpl. by rewrite Hk. Qed.

Lemma hash_at_forever k s t h :
  s !! k = Some (RHash h, None) -> hash_at k (at_ s t) = (at_ s t, Ok (h, None)).
Proof. intros Hk. unfold hash_at, entry, bind, live_at. simpl. by rewrite Hk. Qed.

Lemma HGET_Some k f s t h x :
  s !! k = Some (RHash h, Some x) -> t < x -> HGET k f (at_ s t) = (at_ s t, Ok (h !! f)).
Proof. intros Hk Hx. unfold HGET. by rewrite (run_bind _ _ _ _ _ _ (hash_at_Some _ _ _ _ _ Hk Hx)). Qed.

Lemma HGET_None k f s t : s !! k = None -> HGET k f (at_ s t) = (at_ s t, Ok None).
Proof.
  intros Hk. unfold HGET. rewrite (run_bind _ _ _ _ _ _ (hash_at_None _ _ _ Hk)). unfold ret.
  by rewrite lookup_empty.
Qed.

Lemma HSET_Some k fs s t h x :
  s !! k = Some (RHash h, Some x) -> t < x ->
  HSET k fs (at_ s t) = (at_ (<[k := (RHash (hset_all fs h), Some x)]> s) t, Ok tt).
Proof. intros Hk Hx. unfold HSET. by rewrite (run_bind _ _ _ _ _ _ (hash_at_Some _ _ _ _ _ Hk Hx)). Qed.

Lemma HSET_None k fs s t :
  s !! k = None ->
  HSET k fs (at_ s t) = (at_ (<[k := (RHash (hset_all fs ∅), None)]> s) t, Ok tt).
Proof. intros Hk. unfold HSET. by rewrite (run_bind _ _ _ _ _ _ (hash_at_None _ _ _ Hk)). Qed.

Lemma EXPIRE_run k ttl s t v x :
  s !! k = Some (v, x) -> live t (v, x) = true -> 0 < ttl ->
  EXPIRE k ttl (at_ s t) = (at_ (<[k := (v, Some (t + ttl))]> s) t, Ok tt).
Proof.
  intros Hk Hx Ht. unfold EXPIRE, get_now, entry, bind, live_at. simpl. rewrite Hk, Hx.
  by rewrite (proj2 (Z.leb_gt _ _)) by done.
Qed.

Lemma EXPIRE_Some k ttl s t v x :
  s !! k = Some (v, Some x) -> t < x -> 0 < ttl ->
  EXPIRE k ttl (at_ s t) = (at_ (<[k := (v, Some (t + ttl))]> s) t, Ok tt).
Proof. intros Hk Hx. apply (EXPIRE_run _ _ _ _ _ _ Hk). by apply Z.ltb_lt. Qed.

(** A sorted set that never expires; the empty set is the absent key. *)
Definition zset_of k s : gmap string Z := match s !! k with Some (RZset z, _) => z | _ => ∅ end.
Definition zset_typed k s : Prop := forall e, s !! k = Some e -> exists z, e = (RZset z, None).
Definition zput k (z : gmap string Z) s : rstore :=
  if decide (z = ∅) then delete k s else <[k := (RZset z, None)]> s.

Lemma zset_at_run k s t :
  zset_typed k s -> zset_at k (at_ s t) = (at_ s t, Ok (zset_of k s, None)).
Proof.
  intros Hk. unfold zset_at, entry, bind, live_at, zset_of. simpl.
  destruct (s !! k) as [e|] eqn:He; [|done]. by destruct (Hk e He) as [z ->].
Qed.

Lemma ZADD_run k x m s t :
  zset_typed k s -> ZADD k x m (at_ s t) = (at_ (zput k (<[m := x]> (zset_of k s)) s) t, Ok tt).
Proof.
  intros Hk. unfold ZADD. rewrite (run_bind _ _ _ _ _ _ (zset_at_run _ _ _ Hk)).
  unfold zput. rewrite decide_False; [done|]. apply insert_non_empty.
Qed.

Lemma ZREM_run k m s t :
  zset_typed k s -> ZREM k m (at_ s t) = (at_ (zput k (delete m (zset_of k s)) s) t, Ok tt).
Proof.
  intros Hk. unfold ZREM. rewrite (run_bind _ _ _ _ _ _ (zset_at_run _ _ _ Hk)).
  unfold zput. by case_decide.
Qed.

Lemma lookup_zput_ne k k' z s : k <> k' -> zput k z s !! k' = s !! k'.
Proof. intros H. unfold zput. case_decide; [by rewrite lookup_delete_ne|by rewrite lookup_insert_ne]. Qed.

Lemma zset_of_zput k k' z s :
  zset_of k' (zput k z s) = if decide (k = k') then z else zset_of k' s.
Proof.
  unfold zset_of. case_decide as Hk.
  - subst k'. unfold zput. case_decide as Hz; [by rewrite lookup_delete_eq|by rewrite lookup_insert_eq].
  - by rewrite lookup_zput_ne.
Qed.

Lemma zset_typed_zput k k' z s : zset_typed k' s -> zset_typed k' (zput k z s).
Proof.
  intros Hk e. unfold zput. case_decide.
  - intros [_ He]%lookup_delete_Some. by apply Hk.
  - intros [[-> <-]|[_ He]]%lookup_insert_Some; [eauto|by apply Hk].
Qed.
End commands.

(** * Keys *)

Definition index_keys : list string :=
  [reservationExpiryIndexKey; reservationProcessingIndexKey; reservationDeadLetterIndexKey].

(** Orders whose reservation key is not one of the index keys. *)
Definition order_ok (o : string) : Prop :=
  o <> "expirations" /\ o <> "processing" /\ o <> "dead_letter" /\ o <> "retry_count".

Lemma reservationKey_inj a b : reservationKey a = reservationKey b -> a = b.
Proof. apply string_app_inj_l. Qed.

Lemma order_ok_index o : order_ok o -> (reservationKey o ∉ index_keys) /\ (reservationKey o <> reservationRetryCountKey).
Proof.
  intros (H1&H2&H3&H4). split.
  - unfold index_keys. rewrite !not_elem_of_cons.
    repeat split; [..|by apply not_elem_of_nil]; intros H%(reservationKey_inj _ _); done.
  - by intros H%(reservationKey_inj _ _).
Qed.

Lemma reserved_inj p q : reservedStockKey p = reservedStockKey q -> p = q.
Proof. intros H%string_app_inj_l. by apply itoa_inj. Qed.

(** A decimal has no colon. *)
Fixpoint no_colon (s : string) : bool :=
  match s with
  | EmptyString => true
  | String ch s' => negb (Ascii.eqb ch (Ascii.ascii_of_nat 58)) && no_colon s'
  end.

Lemma no_colon_split a b a' b' :
  no_colon a = true -> no_colon a' = true -> a +:+ ":" +:+ b = a' +:+ ":" +:+ b' -> a = a'.
Proof.
  revert a'. induction a as [|ch a IH]; intros [|ch' a']; simpl; [done|..].
  - intros _ H [= <- _]. discriminate.
  - intros H _ [= -> _]. discriminate.
  - intros H1 H2 [= <- H]. bools. f_equal. by apply IH.
Qed.

Lemma no_colon_pretty_go x s : no_colon s = true -> no_colon (pretty_N_go x s) = true.
Proof.
  revert s. induction (N.lt_wf_0 x) as [x _ IH]. intros s Hs.
  destruct (decide (0 < x)%N) as [Hx|Hx].
  - rewrite pretty_N_go_step by done. apply IH; [apply N.div_lt; lia|].
    simpl. rewrite Hs, andb_true_r. unfold pretty_N_char.
    by repeat match goal with |- context [match ?m with _ => _ end] => destruct m end.
  - replace x with 0%N by lia. by rewrite pretty_N_go_0.
Qed.

Lemma no_colon_itoa z : no_colon (itoa z) = true.
Proof.
  assert (forall x : N, no_colon (pretty x) = true) as Hn.
  { intros x. unfold pretty, pretty_N. case_decide; [done|].
    by apply no_colon_pretty_go. }
  destruct z; [done|apply Hn|]. change (no_colon ("-" +:+ pretty (Npos p)) = true). simpl. apply Hn.
Qed.

Lemma stock_key_product p i q j : stock_key p i = stock_key q j -> p = q.
Proof.
  unfold stock_key. intros H%string_app_inj_l.
  apply itoa_inj. eapply no_colon_split; [apply no_colon_itoa..|]. exact H.
Qed.

Lemma stock_reserved p i q : stock_key p i <> reservedStockKey q.
Proof. done. Qed.
Lemma stock_reservation p i o : stock_key p i <> reservationKey o.
Proof. done. Qed.
Lemma reserved_reservation p o : reservedStockKey p <> reservationKey o.
Proof. done. Qed.
Lemma stock_index p i k : k ∈ index_keys -> stock_key p i <> k.
Proof. unfold index_keys. rewrite !elem_of_cons, elem_of_nil. intros [->|[->|[->|[]]]]; done. Qed.
Lemma reserved_index p k : k ∈ index_keys -> reservedStockKey p <> k.
Proof. unfold index_keys. rewrite !elem_of_cons, elem_of_nil. intros [->|[->|[->|[]]]]; done. Qed.
Lemma retry_index k : k ∈ index_keys -> reservationRetryCountKey <> k.
Proof. unfold index_keys. rewrite !elem_of_cons, elem_of_nil. intros [->|[->|[->|[]]]]; done. Qed.

(** * The books *)

Lemma map_sumZ_put {K V} `{Countable K} (f : K -> V -> Z) (m : gmap K V) k v :
  map_sumZ f (<[k := v]> m) =
  map_sumZ f m - match m !! k with Some w => f k w | None => 0 end + f k v.
Proof.
  destruct (m !! k) as [w|] eqn:Hk; [by apply map_sumZ_update|]. rewrite map_sumZ_insert by done. lia.
Qed.

Lemma map_sumZ_drop {K V} `{Countable K} (f : K -> V -> Z) (m : gmap K V) k :
  map_sumZ f (delete k m) = map_sumZ f m - match m !! k with Some w => f k w | None => 0 end.
Proof.
  destruct (m !! k) as [w|] eqn:Hk; [by apply map_sumZ_delete|]. rewrite delete_id by done. lia.
Qed.

(** What a hash holds of product [p] in reservation status [st]. *)
Definition hash_units (st : string) (p : Z) (h : gmap string rfield) : Z :=
  if bool_decide (h !! "status" = Some (FStr st)) && bool_decide (h !! "product_id" = Some (FNum p))
  then default 0 (tonumber (h !! "quantity")) else 0.

Definition units_of (st : string) (p : Z) (_ : string) (e : rvalue * option Z) : Z :=
  match e.1 with RHash h => hash_units st p h | _ => 0 end.

(** The units of product [p] that orders hold in status [st]. *)
Definition units (st : string) (p : Z) (s : rstore) : Z := map_sumZ (units_of st p) s.

(** A reservation hash. *)
Record reservation_hash (n : Z) (h : gmap string rfield) (o st : string) (p q i : Z) : Prop := {
  rh_status : h !! "status" = Some (FStr st);
  rh_status_ok : st = reserved_s \/ st = confirmed_s \/ st = released_s;
  rh_product : h !! "product_id" = Some (FNum p);
  rh_product_pos : 0 < p;
  rh_quantity : h !! "quantity" = Some (FNum q);
  rh_positive : 0 < q;
  rh_shard : h !! "shard_index" = Some (FNum i);
  rh_shard_ok : 1 <= i <= n;
  rh_order : h !! "order_id" = Some (FStr o)
}.

(** The integers that Lua numbers represent exactly. *)
Definition lua_max : Z := 2 ^ 53.

Section books.
Context (c : Z).
Abbreviation n := (NormalizeShardCount c).

Definition shard_sum (p : Z) (s : rstore) : Z := sumZ (fun k => int_at k s) (StockShardKeys p c).

(** All units of a product: on the shards, reserved, or sold. *)
Definition all_units (p : Z) (s : rstore) : Z :=
  shard_sum p s + units reserved_s p s + units confirmed_s p s.

(** The invariant, with the time before which no reservation expires. *)
Record books (horizon : Z) (s : rstore) : Prop := {
  bk_stock p i e : s !! stock_key p i = Some e -> exists z, e = (RInt z, None) /\ 0 <= z;
  bk_reserved p : int_typed (reservedStockKey p) s;
  bk_reservation o e : order_ok o -> s !! reservationKey o = Some e ->
    exists h x st p q i, e = (RHash h, Some x) /\ horizon <= x /\ reservation_hash n h o st p q i;
  bk_index k : k ∈ index_keys -> zset_typed k s;
  bk_members k m : k ∈ index_keys -> is_Some (zset_of k s !! m) -> order_ok m;
  bk_retry e : s !! reservationRetryCountKey = Some e ->
    exists h, e = (RHash h, None) /\ forall f v, h !! f = Some v -> exists z, v = FNum z;
  bk_units k e st p : s !! k = Some e -> 0 <= units_of st p k e;
  bk_count p : int_at (reservedStockKey p) s = units reserved_s p s;
  bk_bound p : all_units p s <= lua_max
}.

Lemma shard_sum_ne k v p s :
  (forall i, stock_key p i <> k) -> shard_sum p (<[k := v]> s) = shard_sum p s.
Proof.
  intros Hk. apply sumZ_ext, Forall_forall. intros k' [i [_ ->]]%shard_keys_elem. cbv beta.
  unfold int_at, int_opt. rewrite lookup_insert_ne; [done|]. intros ->. by apply (Hk i).
Qed.

Lemma shard_sum_delete k p s :
  (forall i, stock_key p i <> k) -> shard_sum p (delete k s) = shard_sum p s.
Proof.
  intros Hk. apply sumZ_ext, Forall_forall. intros k' [i [_ ->]]%shard_keys_elem. cbv beta.
  unfold int_at, int_opt. rewrite lookup_delete_ne; [done|]. intros ->. by apply (Hk i).
Qed.

Lemma sum_int_insert ks k z x s :
  NoDup ks -> k ∈ ks ->
  sumZ (fun k' => int_at k' (<[k := (RInt z, x)]> s)) ks =
  sumZ (fun k' => int_at k' s) ks - int_at k s + z.
Proof.
  intros Hnd Hk. induction Hnd as [|k' ks Hk' Hnd IH]; [by apply elem_of_nil in Hk|].
  cbn [sumZ foldr]. fold (sumZ (fun k' => int_at k' s) ks).
  fold (sumZ (fun k' => int_at k' (<[k := (RInt z, x)]> s)) ks).
  assert (forall k0, k0 <> k -> int_at k0 (<[k := (RInt z, x)]> s) = int_at k0 s) as Hne.
  { intros k0 H0. unfold int_at, int_opt. by rewrite lookup_insert_ne by congruence. }
  apply elem_of_cons in Hk as [->|Hk].
  - unfold int_at at 1, int_opt. rewrite lookup_insert_eq. simpl.
    rewrite (sumZ_ext _ (fun k' => int_at k' s) ks); [lia|].
    apply Forall_forall. intros y Hy. apply Hne. intros ->. by apply Hk'.
  - rewrite (IH Hk), (Hne k') by (intros ->; done). lia.
Qed.

Lemma shard_sum_stock p i z x s :
  0 <= i < n ->
  shard_sum p (<[stock_key p i := (RInt z, x)]> s) = shard_sum p s - int_at (stock_key p i) s + z.
Proof.
  intros Hi. apply sum_int_insert; [apply shard_keys_NoDup|apply shard_keys_elem; eauto].
Qed.


Lemma shard_sum_other p q i z x s :
  p <> q -> shard_sum p (<[stock_key q i := (RInt z, x)]> s) = shard_sum p s.
Proof. intros Hne. apply shard_sum_ne. intros j H%stock_key_product. done. Qed.

(** ** Units under the writes of the scripts *)

Definition not_hash (v : option (rvalue * option Z)) : Prop :=
  match v with Some (RHash _, _) => False | _ => True end.

Lemma units_put_value st p k v s :
  not_hash (s !! k) -> not_hash (Some v) -> units st p (<[k := v]> s) = units st p s.
Proof.
  intros Hk Hv. unfold units. rewrite map_sumZ_put. unfold units_of.
  destruct v as [[] ?], (s !! k) as [[[] ?]|]; simpl in *; done || lia.
Qed.

Lemma units_drop_value st p k s :
  not_hash (s !! k) -> units st p (delete k s) = units st p s.
Proof.
  intros Hk. unfold units. rewrite map_sumZ_drop. unfold units_of.
  destruct (s !! k) as [[[] ?]|]; simpl in *; done || lia.
Qed.

Definition hash_units_at (st : string) (p : Z) (k : string) (s : rstore) : Z :=
  match hash_opt k s with Some h => hash_units st p h | None => 0 end.

Lemma units_put_hash st p k h x s :
  units st p (<[k := (RHash h, x)]> s) = units st p s - hash_units_at st p k s + hash_units st p h.
Proof.
  unfold units, hash_units_at, hash_opt. rewrite map_sumZ_put. unfold units_of.
  destruct (s !! k) as [[[] ?]|]; simpl; lia.
Qed.

Lemma hash_units_other st p q h :
  h !! "product_id" = Some (FNum q) -> p <> q -> hash_units st p h = 0.
Proof.
  intros Hp Hne. unfold hash_units. rewrite Hp, (bool_decide_eq_false_2 (Some (FNum q) = _)) by congruence.
  by rewrite andb_false_r.
Qed.

Lemma hash_units_reservation h o st p q i st' :
  reservation_hash n h o st p q i -> hash_units st' p h = if decide (st = st') then q else 0.
Proof.
  intros []. unfold hash_units. rewrite rh_status0, rh_product0, rh_quantity0.
  rewrite (bool_decide_eq_true_2 (Some (FNum p) = _)) by done. rewrite andb_true_r.
  case_decide as Hd.
  - subst st'. by rewrite bool_decide_eq_true_2.
  - by rewrite bool_decide_eq_false_2 by congruence.
Qed.

Lemma hash_units_nonneg h o st p q i st' p' :
  reservation_hash n h o st p q i -> 0 <= hash_units st' p' h.
Proof.
  intros Hr. destruct (decide (p' = p)) as [->|Hne].
  - rewrite (hash_units_reservation _ _ _ _ _ _ _ Hr). pose proof (rh_positive _ _ _ _ _ _ _ Hr).
    case_decide; lia.
  - rewrite (hash_units_other _ _ p); [done|apply Hr|done].
Qed.

Lemma units_nonneg hz st p s : books hz s -> 0 <= units st p s.
Proof. intros Hb. apply map_sumZ_nonneg. intros k e He. by eapply (bk_units _ _ Hb). Qed.

(** A reservation is part of the units of its product. *)
Lemma units_ge hz st p k s : books hz s -> hash_units_at st p k s <= units st p s.
Proof.
  intros Hb. unfold hash_units_at, hash_opt. pose proof (units_nonneg hz st p s Hb).
  destruct (s !! k) as [[[] x]|] eqn:Hk; try done.
  assert (0 <= units st p (delete k s)) as Hd.
  { apply map_sumZ_nonneg. intros k' e' [_ He']%lookup_delete_Some. by eapply (bk_units _ _ Hb). }
  unfold units in *. rewrite map_sumZ_drop, Hk in Hd. unfold units_of in Hd at 2. simpl in Hd. lia.
Qed.

Lemma int_opt_stock hz p i s :
  books hz s -> int_typed (stock_key p i) s /\ 0 <= int_at (stock_key p i) s.
Proof.
  intros Hb. split.
  - intros e He. destruct (bk_stock _ _ Hb _ _ _ He) as (z&->&_). eauto.
  - unfold int_at, int_opt. destruct (s !! stock_key p i) as [e|] eqn:He; [|done].
    by destruct (bk_stock _ _ Hb _ _ _ He) as (z&->&?).
Qed.

Lemma shard_sum_nonneg hz p s : books hz s -> 0 <= shard_sum p s.
Proof.
  intros Hb. apply sumZ_nonneg, Forall_forall. intros k [i [_ ->]]%shard_keys_elem.
  by apply (int_opt_stock hz).
Qed.

Lemma shard_le hz p i s : books hz s -> 0 <= i < n -> int_at (stock_key p i) s <= shard_sum p s.
Proof.
  intros Hb Hi. pose proof (shard_sum_stock p i 0 None s Hi) as Hs.
  assert (0 <= shard_sum p (<[stock_key p i := (RInt 0, None)]> s)); [|lia].
  apply sumZ_nonneg, Forall_forall. intros k [j [_ ->]]%shard_keys_elem.
  unfold int_at, int_opt. destruct (decide (stock_key p i = stock_key p j)) as [->|Hne].
  - by rewrite lookup_insert_eq.
  - rewrite lookup_insert_ne by done. by apply (int_opt_stock hz p j s).
Qed.

(** ** The writes on the index keys *)

Lemma not_hash_index hz k s : books hz s -> k ∈ index_keys -> not_hash (s !! k).
Proof.
  intros Hb Hk. unfold not_hash. destruct (s !! k) as [[[] ?]|] eqn:He; try done.
  by destruct (bk_index _ _ Hb _ Hk _ He) as [z ?].
Qed.

Lemma all_units_zput hz k z p s :
  books hz s -> k ∈ index_keys ->
  (forall st, units st p (zput k z s) = units st p s) /\ shard_sum p (zput k z s) = shard_sum p s.
Proof.
  intros Hb Hk. pose proof (not_hash_index _ _ _ Hb Hk). unfold zput. case_decide.
  - split; [intros st; by apply units_drop_value|].
    apply shard_sum_delete. intros i. by apply stock_index.
  - split; [intros st; by apply units_put_value|].
    apply shard_sum_ne. intros i. by apply stock_index.
Qed.

Lemma int_at_ne k (s s' : rstore) : s' !! k = s !! k -> int_at k s' = int_at k s.
Proof. intros H. unfold int_at, int_opt. by rewrite H. Qed.

Lemma zput_books hz k z s :
  books hz s -> k ∈ index_keys -> (forall m, is_Some (z !! m) -> order_ok m) ->
  books hz (zput k z s) /\ forall p, all_units p (zput k z s) = all_units p s.
Proof.
  intros Hb Hk Hz. assert (forall p, all_units p (zput k z s) = all_units p s) as Hall.
  { intros p. unfold all_units. destruct (all_units_zput hz k z p s Hb Hk) as [Hu ->].
    by rewrite !Hu. }
  split; [|done]. split.
  - intros p i e. rewrite lookup_zput_ne by (intros ->; by eapply stock_index). apply (bk_stock _ _ Hb).
  - intros p e. rewrite lookup_zput_ne by (intros ->; by eapply reserved_index). apply (bk_reserved _ _ Hb).
  - intros o e Ho. rewrite lookup_zput_ne; [by apply (bk_reservation _ _ Hb)|].
    intros ->. by destruct (order_ok_index o Ho) as [Hni _].
  - intros k' Hk'. apply zset_typed_zput, (bk_index _ _ Hb _ Hk').
  - intros k' m Hk'. rewrite zset_of_zput. case_decide; [apply Hz|]. by apply (bk_members _ _ Hb).
  - intros e. rewrite lookup_zput_ne by (intros ->; by eapply retry_index). apply (bk_retry _ _ Hb).
  - intros k' e st p. unfold zput. case_decide.
    + intros [_ He]%lookup_delete_Some. by apply (bk_units _ _ Hb).
    + intros [[-> <-]|[_ He]]%lookup_insert_Some; [done|by apply (bk_units _ _ Hb)].
  - intros p. destruct (all_units_zput hz k z p s Hb Hk) as [Hu _]. rewrite Hu, <- (bk_count _ _ Hb).
    unfold int_at, int_opt. by rewrite lookup_zput_ne by (intros ->; by eapply reserved_index).
  - intros p. rewrite Hall. apply (bk_bound _ _ Hb).
Qed.

(** ** The writes on the retry counters *)

Lemma retry_units st p h :
  (forall f v, h !! f = Some v -> exists z, v = FNum z) -> hash_units st p h = 0.
Proof.
  intros Hn. unfold hash_units. destruct (h !! "status") as [v|] eqn:Hv; [|done].
  destruct (Hn _ _ Hv) as [z ->]. done.
Qed.

Lemma retry_books hz s s' :
  books hz s ->
  (forall k, k <> reservationRetryCountKey -> s' !! k = s !! k) ->
  (forall e, s' !! reservationRetryCountKey = Some e ->
     exists h, e = (RHash h, None) /\ forall f v, h !! f = Some v -> exists z, v = FNum z) ->
  (forall st p, units st p s' = units st p s) ->
  books hz s' /\ forall p, all_units p s' = all_units p s.
Proof.
  intros Hb Hne Hr Hu.
  assert (forall p, shard_sum p s' = shard_sum p s) as Hs.
  { intros p. apply sumZ_ext, Forall_forall. intros k [i [_ ->]]%shard_keys_elem.
    apply int_at_ne. by apply Hne. }
  assert (forall p, all_units p s' = all_units p s) as Hall.
  { intros p. unfold all_units. by rewrite Hs, !Hu. }
  split; [|done]. split.
  - intros p i e. rewrite Hne by done. apply (bk_stock _ _ Hb).
  - intros p e. rewrite Hne by done. apply (bk_reserved _ _ Hb).
  - intros o e Ho. rewrite Hne; [by apply (bk_reservation _ _ Hb)|]. by destruct (order_ok_index o Ho).
  - intros k Hk e. rewrite Hne by (intros ->; by eapply retry_index). by apply (bk_index _ _ Hb).
  - intros k m Hk. unfold zset_of. rewrite Hne by (intros ->; by eapply retry_index).
    by apply (bk_members _ _ Hb).
  - done.
  - intros k e st p He. destruct (decide (k = reservationRetryCountKey)) as [->|Hk].
    + destruct (Hr _ He) as (h&->&Hn). unfold units_of. simpl. by rewrite retry_units.
    + rewrite Hne in He by done. by apply (bk_units _ _ Hb).
  - intros p. rewrite Hu, <- (bk_count _ _ Hb). by apply int_at_ne, Hne.
  - intros p. rewrite Hall. apply (bk_bound _ _ Hb).
Qed.

Lemma retry_put_books hz h s :
  books hz s -> (forall f v, h !! f = Some v -> exists z, v = FNum z) ->
  let s' := <[reservationRetryCountKey := (RHash h, None)]> s in
  books hz s' /\ forall p, all_units p s' = all_units p s.
Proof.
  intros Hb Hh. apply retry_books; [done|..].
  - intros k Hk. by rewrite lookup_insert_ne by congruence.
  - intros e. rewrite lookup_insert_eq. intros [= <-]. eauto.
  - intros st p. rewrite units_put_hash, (retry_units _ _ h) by done. unfold hash_units_at, hash_opt.
    destruct (s !! reservationRetryCountKey) as [[v x]|] eqn:He; [|lia].
    destruct (bk_retry _ _ Hb _ He) as (h0&[= -> ->]&Hn). rewrite (retry_units _ _ h0) by done. lia.
Qed.

Lemma retry_delete_books hz s :
  books hz s ->
  let s' := delete reservationRetryCountKey s in
  books hz s' /\ forall p, all_units p s' = all_units p s.
Proof.
  intros Hb. apply retry_books; [done|..].
  - intros k Hk. by rewrite lookup_delete_ne by congruence.
  - intros e. by rewrite lookup_delete_eq.
  - intros st p. unfold units. rewrite map_sumZ_drop. unfold units_of.
    destruct (s !! reservationRetryCountKey) as [[v x]|] eqn:He; [|lia].
    destruct (bk_retry _ _ Hb _ He) as (h0&[= -> ->]&Hn). simpl. rewrite (retry_units _ _ h0) by done. lia.
Qed.

(** ** The writes of the reservation scripts

    A script may change one shard of the product, its reserved counter and the
    reservation of the order. *)
Definition edit_stock (p : Z) (ed : option (Z * Z)) (s : rstore) : rstore :=
  match ed with Some (i, v) => <[stock_key p i := (RInt v, None)]> s | None => s end.
Definition edit_reserved (p : Z) (r : option Z) (s : rstore) : rstore :=
  match r with Some r => <[reservedStockKey p := (RInt r, None)]> s | None => s end.
Definition edit (o : string) (h : gmap string rfield) (x p : Z) (r : option Z)
  (ed : option (Z * Z)) (s : rstore) : rstore :=
  <[reservationKey o := (RHash h, Some x)]> (edit_reserved p r (edit_stock p ed s)).

(** How much the counter and the shard change. *)
Definition change_reserved p (r : option Z) s : Z :=
  match r with Some r => r - int_at (reservedStockKey p) s | None => 0 end.
Definition change_stock p (ed : option (Z * Z)) s : Z :=
  match ed with Some (i, v) => v - int_at (stock_key p i) s | None => 0 end.

Section edit.
Context (hz x p : Z) (o st : string) (q i : Z) (h : gmap string rfield)
  (r : option Z) (ed : option (Z * Z)) (s : rstore).
Context (Hb : books hz s) (Ho : order_ok o) (Hx : hz <= x)
  (Hh : reservation_hash n h o st p q i)
  (Hsame : forall h0, hash_opt (reservationKey o) s = Some h0 -> h0 !! "product_id" = Some (FNum p))
  (Hed : forall j v, ed = Some (j, v) -> 0 <= j < n /\ 0 <= v)
  (Hres : change_reserved p r s =
          hash_units reserved_s p h - hash_units_at reserved_s p (reservationKey o) s)
  (Hall : change_stock p ed s + hash_units reserved_s p h + hash_units confirmed_s p h =
          hash_units_at reserved_s p (reservationKey o) s +
          hash_units_at confirmed_s p (reservationKey o) s).

Abbreviation s' := (edit o h x p r ed s).

Lemma edit_lookup_ne k :
  k <> reservationKey o -> (forall j, k <> stock_key p j) -> k <> reservedStockKey p ->
  s' !! k = s !! k.
Proof.
  intros H1 H2 H3. unfold edit, edit_reserved, edit_stock.
  rewrite lookup_insert_ne by congruence.
  destruct r; rewrite ?lookup_insert_ne by congruence; (destruct ed as [[j v]|]; [|done]);
    by rewrite lookup_insert_ne by (intros <-; by eapply H2).
Qed.

Lemma edit_inner_value k : not_hash (s !! k) -> not_hash (edit_reserved p r (edit_stock p ed s) !! k).
Proof.
  intros H. unfold edit_reserved, edit_stock. destruct r, ed as [[j v]|]; repeat
    match goal with |- context [<[?k0 := _]> _ !! ?k1] =>
      destruct (decide (k0 = k1)) as [->|?]; [rewrite lookup_insert_eq; done
                                             |rewrite lookup_insert_ne by done] end; done.
Qed.

Lemma edit_inner_reservation o' :
  edit_reserved p r (edit_stock p ed s) !! reservationKey o' = s !! reservationKey o'.
Proof.
  unfold edit_reserved, edit_stock. destruct r, ed as [[j v]|];
    rewrite ?lookup_insert_ne by (apply reserved_reservation || apply stock_reservation); done.
Qed.

Lemma not_hash_stock q' j : not_hash (s !! stock_key q' j).
Proof.
  unfold not_hash. destruct (s !! stock_key q' j) as [[[] ?]|] eqn:He; try done.
  by destruct (bk_stock _ _ Hb _ _ _ He) as (z&[= ]&_).
Qed.

Lemma not_hash_reserved q' : not_hash (s !! reservedStockKey q').
Proof.
  unfold not_hash. destruct (s !! reservedStockKey q') as [[[] ?]|] eqn:He; try done.
  by destruct (bk_reserved _ _ Hb _ _ He) as (z&[= ]).
Qed.

Lemma edit_units st' q' :
  units st' q' s' =
  units st' q' s - hash_units_at st' q' (reservationKey o) s + hash_units st' q' h.
Proof.
  unfold edit. rewrite units_put_hash.
  replace (hash_units_at st' q' (reservationKey o) (edit_reserved p r (edit_stock p ed s)))
    with (hash_units_at st' q' (reservationKey o) s)
    by (unfold hash_units_at, hash_opt; by rewrite edit_inner_reservation).
  assert (units st' q' (edit_reserved p r (edit_stock p ed s)) = units st' q' s) as ->; [|done].
  unfold edit_reserved, edit_stock.
  destruct r; [rewrite units_put_value; [| |done]|]; destruct ed as [[j v]|];
    rewrite ?units_put_value by (done || apply not_hash_stock); try done;
    rewrite ?lookup_insert_ne by (apply stock_reserved); apply not_hash_reserved.
Qed.

Lemma edit_shards q' :
  shard_sum q' s' = shard_sum q' s + if decide (p = q') then change_stock p ed s else 0.
Proof.
  unfold edit. rewrite shard_sum_ne by (intros; apply stock_reservation).
  assert (shard_sum q' (edit_reserved p r (edit_stock p ed s)) = shard_sum q' (edit_stock p ed s)) as ->.
  { unfold edit_reserved. destruct r; [|done]. apply shard_sum_ne. intros; apply stock_reserved. }
  unfold edit_stock, change_stock. destruct ed as [[j v]|]; [|case_decide; lia].
  destruct (Hed j v eq_refl) as [Hj _]. case_decide as Hd.
  - subst q'. rewrite shard_sum_stock by done. lia.
  - rewrite shard_sum_other by done. lia.
Qed.

Lemma edit_reserved_at q' :
  int_at (reservedStockKey q') s' =
  int_at (reservedStockKey q') s + if decide (p = q') then change_reserved p r s else 0.
Proof.
  unfold edit, int_at, int_opt. rewrite lookup_insert_ne by (intros H; by eapply reserved_reservation).
  unfold edit_reserved, change_reserved. case_decide as Hd.
  - subst q'. destruct r as [r'|].
    + rewrite lookup_insert_eq. unfold int_at, int_opt. simpl. lia.
    + unfold edit_stock. destruct ed as [[j v]|]; rewrite ?lookup_insert_ne by apply stock_reserved; lia.
  - destruct r as [r'|]; rewrite ?lookup_insert_ne by (intros ?%reserved_inj; done);
      unfold edit_stock; (destruct ed as [[j v]|]; rewrite ?lookup_insert_ne by apply stock_reserved; lia).
Qed.

Lemma edit_other st' q' : p <> q' ->
  hash_units_at st' q' (reservationKey o) s = 0 /\ hash_units st' q' h = 0.
Proof.
  intros Hne. split.
  - unfold hash_units_at. destruct (hash_opt _ s) as [h0|] eqn:H0; [|done].
    apply (hash_units_other _ _ p); [by apply Hsame|done].
  - apply (hash_units_other _ _ p); [apply Hh|done].
Qed.

Lemma edit_all q' : all_units q' s' = all_units q' s.
Proof.
  unfold all_units. rewrite edit_shards, !edit_units. case_decide as Hd.
  - subst q'. lia.
  - destruct (edit_other reserved_s q' Hd) as [-> ->], (edit_other confirmed_s q' Hd) as [-> ->]. lia.
Qed.

(** What a key of the edited store holds. *)
Lemma edit_lookup k e :
  s' !! k = Some e ->
  (k = reservationKey o /\ e = (RHash h, Some x)) \/
  (k = reservedStockKey p /\ exists z, e = (RInt z, None)) \/
  (exists j v, k = stock_key p j /\ 0 <= v /\ e = (RInt v, None)) \/
  (k <> reservationKey o /\ s !! k = Some e).
Proof.
  unfold edit. intros [[<- <-]|[Hk He]]%lookup_insert_Some; [by left|right].
  assert (k = reservedStockKey p /\ (exists z, e = (RInt z, None)) \/
          edit_stock p ed s !! k = Some e) as [H|H].
  { unfold edit_reserved in He. destruct r; [|by right].
    apply lookup_insert_Some in He as [[<- <-]|[_ He]]; eauto. }
  - by left.
  - right. unfold edit_stock in H. destruct ed as [[j v]|] eqn:Hj; [|by right].
    destruct (Hed j v eq_refl) as [_ Hv].
    apply lookup_insert_Some in H as [[<- <-]|[_ H]]; [left; eauto|by right].
Qed.

Lemma edit_books : books hz s' /\ forall q', all_units q' s' = all_units q' s.
Proof.
  split; [|apply edit_all]. split.
  - intros p' i' e [[H _]|[[H _]|[(j&v&_&Hv&->)|[_ H]]]]%edit_lookup; [| |eauto|].
    + by apply stock_reservation in H.
    + by apply stock_reserved in H.
    + by apply (bk_stock _ _ Hb) in H.
  - intros p' e [[H _]|[[_ H]|[(j&v&_&_&->)|[_ H]]]]%edit_lookup; [|done|eauto|].
    + by apply reserved_reservation in H.
    + by apply (bk_reserved _ _ Hb) in H.
  - intros o' e Ho' [[H ->]|[[H _]|[(j&v&H&_)|[_ H]]]]%edit_lookup.
    + apply reservationKey_inj in H as ->. exists h, x, st, p, q, i. done.
    + symmetry in H. by apply reserved_reservation in H.
    + symmetry in H. by apply stock_reservation in H.
    + by apply (bk_reservation _ _ Hb) in H.
  - intros k Hk e [[-> _]|[[-> _]|[(j&v&->&_)|[_ H]]]]%edit_lookup.
    + by destruct (order_ok_index o Ho) as [Hni _].
    + by destruct (reserved_index p _ Hk).
    + by destruct (stock_index p j _ Hk).
    + by apply (bk_index _ _ Hb) in H.
  - intros k m Hk. unfold zset_of. rewrite edit_lookup_ne; [by apply (bk_members _ _ Hb)|..].
    + intros ->. by destruct (order_ok_index o Ho).
    + intros j ->. by destruct (stock_index p j _ Hk).
    + intros ->. by destruct (reserved_index p _ Hk).
  - intros e [[H _]|[[H _]|[(j&v&H&_)|[_ H]]]]%edit_lookup; [|done|done|].
    + by destruct (order_ok_index o Ho) as [_ Hni].
    + by apply (bk_retry _ _ Hb) in H.
  - intros k e st' p' [[_ ->]|[(_&z&->)|[(j&v&_&_&->)|[_ H]]]]%edit_lookup; [|done|done|].
    + eapply hash_units_nonneg, Hh.
    + by apply (bk_units _ _ Hb) with (1 := H).
  - intros p'. rewrite edit_reserved_at, edit_units, (bk_count _ _ Hb). case_decide as Hd.
    + subst p'. lia.
    + destruct (edit_other reserved_s p' Hd) as [-> ->]. lia.
  - intros p'. rewrite edit_all. apply (bk_bound _ _ Hb).
Qed.
End edit.
End books.
