(* ===== verification/RedisBooks.v ===== *)
(** What the reservation scripts do to the books of RedisStock.v: their exact
    effect, and the conservation of stock over any run of them. *)

From S2P Require Import Prelude Effects Shards PreDeduct RedisScripts RedisStock.

Section runs.
Context (c : Z).
Abbreviation n := (NormalizeShardCount c).

(** The keys the repository passes to the reserve and release scripts. *)
Definition stock_script_keys (p : Z) (o : string) : list string :=
  StockShardKeys p c ++ [reservationKey o; reservedStockKey p; reservationExpiryIndexKey].

Lemma script_key_shard p o i :
  1 <= i <= n -> KEYS (stock_script_keys p o) i = Some (stock_key p (i - 1)).
Proof.
  intros Hi. unfold KEYS. replace (i <? 1) with false by (symmetry; apply Z.ltb_ge; lia).
  unfold stock_script_keys. rewrite lookup_app_l.
  - apply shard_keys_lookup. lia.
  - pose proof (length_StockShardKeys p c). lia.
Qed.

Lemma script_key_tail p o i (k : nat) x :
  i = n + 1 + Z.of_nat k ->
  [reservationKey o; reservedStockKey p; reservationExpiryIndexKey] !! k = Some x ->
  KEYS (stock_script_keys p o) i = Some x.
Proof.
  intros -> Hx. pose proof (NormalizeShardCount_pos c). pose proof (length_StockShardKeys p c).
  unfold KEYS. replace (_ <? 1) with false by (symmetry; apply Z.ltb_ge; lia).
  unfold stock_script_keys. rewrite lookup_app_r by lia. rewrite <- Hx. f_equal. lia.
Qed.

Lemma script_keys_end p o :
  KEYS (stock_script_keys p o) (n + 1) = Some (reservationKey o) /\
  KEYS (stock_script_keys p o) (n + 2) = Some (reservedStockKey p) /\
  KEYS (stock_script_keys p o) (n + 3) = Some reservationExpiryIndexKey.
Proof.
  repeat split; [apply (script_key_tail _ _ _ 0%nat)|apply (script_key_tail _ _ _ 1%nat)
                |apply (script_key_tail _ _ _ 2%nat)]; done || lia.
Qed.

(** Every shard is visited from any start. *)
Lemma shard_visited start j : 0 <= j < n -> exists d, 0 <= d < n /\ (start + d) mod n = j.
Proof.
  intros Hj. exists ((j - start) mod n). split; [apply Z.mod_pos_bound; lia|].
  rewrite Zplus_mod_idemp_r. replace (start + (j - start)) with j by lia. apply Z.mod_small. lia.
Qed.

Definition expiry_index : string := reservationExpiryIndexKey.

Lemma expiry_in : expiry_index ∈ index_keys.
Proof. by left. Qed.

(** A change that keeps the books. *)
Definition persists (s s' : rstore) : Prop :=
  forall o, order_ok o -> is_Some (s !! reservationKey o) -> is_Some (s' !! reservationKey o).
Definition keeps_books (hz : Z) (s s' : rstore) : Prop :=
  books c hz s' /\ (forall p, all_units c p s' = all_units c p s) /\ persists s s'.

Lemma keeps_books_refl hz s : books c hz s -> keeps_books hz s s.
Proof. intros Hb. split; [done|]. split; [done|]. by intros o _ Ho. Qed.

Lemma keeps_books_trans hz s1 s2 s3 :
  keeps_books hz s1 s2 -> keeps_books hz s2 s3 -> keeps_books hz s1 s3.
Proof.
  intros (_&H12&P12) (Hb&H23&P23). split; [done|]. split.
  - intros p. by rewrite H23, H12.
  - intros o Ho Hs. auto.
Qed.

Lemma keeps_zput hz k z s :
  books c hz s -> k ∈ index_keys -> (forall m, is_Some (z !! m) -> order_ok m) ->
  keeps_books hz s (zput k z s).
Proof.
  intros Hb Hk Hz. destruct (zput_books c hz k z s Hb Hk Hz) as [H1 H2]. split; [done|]. split; [done|].
  intros o Ho. rewrite lookup_zput_ne; [done|]. intros ->. by destruct (order_ok_index o Ho).
Qed.

Lemma keeps_zdelete hz k m s :
  books c hz s -> k ∈ index_keys -> keeps_books hz s (zput k (delete m (zset_of k s)) s).
Proof.
  intros Hb Hk. apply keeps_zput; [done..|]. intros m' [v [_ Hv]%lookup_delete_Some].
  by apply (bk_members _ _ _ Hb k).
Qed.

Lemma keeps_zinsert hz k m v s :
  books c hz s -> k ∈ index_keys -> order_ok m ->
  keeps_books hz s (zput k (<[m := v]> (zset_of k s)) s).
Proof.
  intros Hb Hk Hm. apply keeps_zput; [done..|]. intros m'. rewrite lookup_insert_is_Some'.
  intros [<-|Hs]; [done|by apply (bk_members _ _ _ Hb k)].
Qed.

Lemma keeps_retry hz s s' :
  (books c hz s' /\ forall p, all_units c p s' = all_units c p s) ->
  (forall k, k <> reservationRetryCountKey -> s' !! k = s !! k) -> keeps_books hz s s'.
Proof.
  intros [H1 H2] Hne. split; [done|]. split; [done|]. intros o Ho.
  rewrite Hne; [done|]. by destruct (order_ok_index o Ho).
Qed.

Lemma keeps_edit hz x p o st q i h r ed s :
  books c hz s -> order_ok o -> hz <= x -> reservation_hash n h o st p q i ->
  (forall h0, hash_opt (reservationKey o) s = Some h0 -> h0 !! "product_id" = Some (FNum p)) ->
  (forall j v, ed = Some (j, v) -> 0 <= j < n /\ 0 <= v) ->
  change_reserved p r s =
    hash_units reserved_s p h - hash_units_at reserved_s p (reservationKey o) s ->
  change_stock p ed s + hash_units reserved_s p h + hash_units confirmed_s p h =
    hash_units_at reserved_s p (reservationKey o) s +
    hash_units_at confirmed_s p (reservationKey o) s ->
  keeps_books hz s (edit o h x p r ed s).
Proof.
  intros Hb Ho Hx Hh Hsame Hed Hr Ha.
  destruct (edit_books c hz x p o st q i h r ed s Hb Ho Hx Hh Hsame Hed Hr Ha) as [H1 H2].
  split; [done|]. split; [done|]. intros o' Ho' Hs. unfold edit.
  destruct (decide (reservationKey o = reservationKey o')) as [->|Hne].
  - by rewrite lookup_insert_eq.
  - rewrite lookup_insert_ne by done. by rewrite (edit_inner_reservation c p o h r ed s Hed Hr Ha).
Qed.

Section reserve.
Context (hz t : Z) (Ht : t < hz) (s : rstore) (Hb : books c hz s).
Context (o : string) (Ho : order_ok o) (p q ttl expiry start : Z) (Hp : 0 < p) (Hq : 0 < q)
  (Httl : 0 < ttl) (Hhz : hz <= t + ttl).

Definition args : reserve_args := mkReserveArgs q ttl n start p o expiry.

(** The hash a reservation starts as. *)
Definition fresh_hash (j : Z) : gmap string rfield :=
  hset_all [("status", FStr reserved_s); ("product_id", FNum p); ("quantity", FNum q);
            ("shard_index", FNum (j + 1)); ("order_id", FStr o)] ∅.

(** The store after a reservation on shard [j] holding [stock] units. *)
Definition reserved_store (j stock : Z) : rstore :=
  let s' := edit o (fresh_hash j) (t + ttl) p (Some (int_at (reservedStockKey p) s + q))
              (Some (j, stock - q)) s in
  zput expiry_index (<[o := t + expiry]> (zset_of expiry_index s')) s'.

Lemma fresh_reservation j : 0 <= j < n -> reservation_hash n (fresh_hash j) o reserved_s p q (j + 1).
Proof. intros Hj. split; try done; auto; lia. Qed.

Lemma int_opt_at k z : int_opt k s = Some z -> int_at k s = z.
Proof. unfold int_at. by intros ->. Qed.

Lemma edit_reserve_books j stock :
  0 <= j < n -> int_opt (stock_key p j) s = Some stock -> q <= stock ->
  s !! reservationKey o = None ->
  keeps_books hz s (edit o (fresh_hash j) (t + ttl) p (Some (int_at (reservedStockKey p) s + q))
                      (Some (j, stock - q)) s).
Proof.
  intros Hj Hs Hle Hnone.
  assert (forall st, hash_units_at st p (reservationKey o) s = 0) as H0.
  { intros st. unfold hash_units_at, hash_opt. by rewrite Hnone. }
  apply (keeps_edit hz (t + ttl) p o reserved_s q (j + 1) (fresh_hash j)); auto.
  - by apply fresh_reservation.
  - intros h0. unfold hash_opt. by rewrite Hnone.
  - intros j' v [= <- <-]. split; [done|lia].
  - simpl. rewrite H0, (hash_units_reservation c _ _ _ _ _ _ _ (fresh_reservation j Hj)).
    rewrite decide_True by done. lia.
  - simpl. rewrite !H0, !(hash_units_reservation c _ _ _ _ _ _ _ (fresh_reservation j Hj)).
    rewrite decide_True, decide_False by done. rewrite (int_opt_at _ _ Hs). lia.
Qed.

(** The bounds that keep [INCRBY] from overflowing. *)
Lemma books_int64 p' i :
  0 <= i < n ->
  0 <= int_at (stock_key p' i) s /\ 0 <= int_at (reservedStockKey p') s /\
  int_at (stock_key p' i) s + int_at (reservedStockKey p') s <= lua_max.
Proof.
  intros Hi. pose proof (bk_bound _ _ _ Hb p') as Hbd. unfold all_units in Hbd.
  pose proof (shard_le c hz p' i s Hb Hi). pose proof (units_nonneg c hz confirmed_s p' s Hb).
  pose proof (units_nonneg c hz reserved_s p' s Hb).
  rewrite (bk_count _ _ _ Hb). destruct (int_opt_stock c hz p' i s Hb). lia.
Qed.

Lemma reserve_from_run j stock :
  0 <= j < n -> int_opt (stock_key p j) s = Some stock -> q <= stock ->
  s !! reservationKey o = None ->
  reserve_from args (stock_key p j) (reservationKey o) (Some (reservedStockKey p))
    (Some expiry_index) (j + 1) (at_ s t) = (at_ (reserved_store j stock) t, Ok tt).
Proof.
  intros Hj Hs Hle Hnone. pose proof (int_opt_at _ _ Hs) as Hat.
  destruct (books_int64 p j Hj) as (Hs0&Hr0&Hmax). unfold lua_max in Hmax. rewrite Hat in *.
  destruct (edit_reserve_books j stock Hj Hs Hle Hnone) as [Hb' _].
  unfold reserve_from, DECRBY, args. cbn [ra_amount ra_productID ra_orderID ra_ttl ra_expirySeconds].
  rewrite (run_bind _ _ _ _ _ _ (INCRBY_run (stock_key p j) (- q) s t
    (proj1 (int_opt_stock c hz p j s Hb)) ltac:(rewrite Hat; unfold_int64; lia))).
  rewrite Hat. set (s1 := <[stock_key p j := _]> s).
  unfold bind at 1, key_arg at 1, ret at 1.
  assert (int_at (reservedStockKey p) s1 = int_at (reservedStockKey p) s) as Hres.
  { apply int_at_ne. subst s1. by rewrite lookup_insert_ne by apply stock_reserved. }
  assert (int_typed (reservedStockKey p) s1) as Hty.
  { intros e. subst s1. rewrite lookup_insert_ne by apply stock_reserved. apply (bk_reserved _ _ _ Hb). }
  rewrite (run_bind _ _ _ _ _ _ (INCRBY_run (reservedStockKey p) q s1 t Hty
    ltac:(rewrite Hres; unfold_int64; lia))).
  rewrite Hres. set (s2 := <[reservedStockKey p := _]> s1).
  assert (s2 !! reservationKey o = None) as Hn2.
  { subst s2 s1. rewrite lookup_insert_ne by apply reserved_reservation.
    by rewrite lookup_insert_ne by apply stock_reservation. }
  rewrite (run_bind _ _ _ _ _ _ (HSET_None _ _ s2 t Hn2)).
  rewrite (proj2 (Z.ltb_lt _ _)) by done.
  rewrite (run_bind _ _ _ _ _ _ (EXPIRE_run (reservationKey o) ttl _ t _ None
    ltac:(apply lookup_insert_eq) eq_refl Httl)).
  rewrite insert_insert_eq. unfold bind at 1, get_now. cbn [now].
  unfold bind at 1, key_arg, ret at 1. replace (stock + - q) with (stock - q) in s1 by lia.
  apply ZADD_run. apply (bk_index _ _ _ Hb' _ expiry_in).
Qed.

Abbreviation loop := (reserve_loop args (stock_script_keys p o) (reservationKey o)
  (Some (reservedStockKey p)) (Some expiry_index)).
Abbreviation take_units j := (bind (reserve_from args (stock_key p j) (reservationKey o)
  (Some (reservedStockKey p)) (Some expiry_index) (j + 1)) (fun _ => ret 1)).

Lemma reserve_loop_step m i hs :
  loop (S m) i hs (at_ s t) =
    match int_opt (stock_key p ((start + i) mod n)) s with
    | None => loop m (i + 1) hs (at_ s t)
    | Some stock => if q <=? stock then take_units ((start + i) mod n) (at_ s t)
                    else loop m (i + 1) true (at_ s t)
    end.
Proof.
  pose proof (NormalizeShardCount_pos c). pose proof (Z.mod_pos_bound (start + i) n ltac:(lia)).
  cbn [reserve_loop]. cbn [args ra_start ra_shardCount ra_amount].
  rewrite script_key_shard by lia. unfold bind at 1, key_arg, ret at 1.
  replace ((start + i) mod n + 1 - 1) with ((start + i) mod n) by lia.
  rewrite (run_bind _ _ _ _ _ _ (GET_run _ s t (proj1 (int_opt_stock c hz p _ s Hb)))).
  destruct (int_opt _ s) as [stock|]; [|done]. by destruct (q <=? stock).
Qed.

Lemma reserve_loop_spec m i hs :
  (exists j stock, 0 <= j < n /\ int_opt (stock_key p j) s = Some stock /\ q <= stock /\
     loop m i hs (at_ s t) = take_units j (at_ s t)) \/
  (exists b : bool,
     loop m i hs (at_ s t) = (at_ s t, Ok (if b then -2 else -1)) /\
     (forall d, i <= d < i + Z.of_nat m -> forall v,
        int_opt (stock_key p ((start + d) mod n)) s = Some v -> v < q /\ b = true) /\
     (hs = true -> b = true) /\
     (b = true -> hs = true \/ exists d, is_Some (int_opt (stock_key p ((start + d) mod n)) s))).
Proof.
  revert i hs. induction m as [|m IH]; intros i hs.
  { right. exists hs. split; [done|]. split; [lia|auto]. }
  pose proof (NormalizeShardCount_pos c). pose proof (Z.mod_pos_bound (start + i) n ltac:(lia)) as Hmod.
  rewrite reserve_loop_step.
  destruct (int_opt (stock_key p ((start + i) mod n)) s) as [stock|] eqn:Hs.
  - destruct (q <=? stock) eqn:Hle; bools.
    + left. exists ((start + i) mod n), stock. done.
    + destruct (IH (i + 1) true) as [H1|(b&Hrun&Hall&Hm&Hex)]; [by left|right].
      exists b. split; [done|]. split; [|split; [by auto|eauto]].
      intros d Hd v Hv. destruct (decide (d = i)) as [->|Hne]; [|apply (Hall d); [lia|done]].
      rewrite Hs in Hv. injection Hv as <-. auto.
  - destruct (IH (i + 1) hs) as [H1|(b&Hrun&Hall&Hm&Hex)]; [by left|right].
    exists b. split; [done|]. split; [|done].
    intros d Hd v Hv. destruct (decide (d = i)) as [->|Hne]; [congruence|]. apply (Hall d); [lia|done].
Qed.

(** How the reserve script can answer. *)
Inductive reserve_outcome : rstore -> Z -> Prop :=
| reserve_repeated h x st i :
    s !! reservationKey o = Some (RHash h, Some x) -> reservation_hash n h o st p q i ->
    reserve_outcome s 1
| reserve_conflict h x st p0 q0 i :
    s !! reservationKey o = Some (RHash h, Some x) -> reservation_hash n h o st p0 q0 i ->
    (p0, q0) <> (p, q) -> reserve_outcome s (-3)
| reserve_done j stock :
    s !! reservationKey o = None -> 0 <= j < n -> int_opt (stock_key p j) s = Some stock ->
    q <= stock -> reserve_outcome (reserved_store j stock) 1
| reserve_short j stock :
    s !! reservationKey o = None -> int_opt (stock_key p j) s = Some stock ->
    (forall j v, 0 <= j < n -> int_opt (stock_key p j) s = Some v -> v < q) ->
    reserve_outcome s (-2)
| reserve_missing :
    s !! reservationKey o = None ->
    (forall j, 0 <= j < n -> int_opt (stock_key p j) s = None) ->
    reserve_outcome s (-1).

Lemma same_reservation_spec h st p0 q0 i :
  reservation_hash n h o st p0 q0 i ->
  same_reservation (h !! "product_id") (h !! "quantity") args = true <-> (p0, q0) = (p, q).
Proof.
  intros Hr. unfold same_reservation, args. cbn [ra_productID ra_amount].
  rewrite (rh_product _ _ _ _ _ _ _ Hr), (rh_quantity _ _ _ _ _ _ _ Hr). unfold tonumber_or_0, tonumber.
  rewrite andb_true_iff, !bool_decide_eq_true. split; [intros [[= ->] [= ->]]|intros [= -> ->]]; done.
Qed.

Lemma reserve_run :
  exists s' r, reserveStockLuaScript (stock_script_keys p o) args (at_ s t) = (at_ s' t, Ok r) /\
    reserve_outcome s' r.
Proof.
  unfold reserveStockLuaScript. cbn [args ra_shardCount].
  destruct (script_keys_end p o) as (->&->&->).
  unfold bind at 1, key_arg at 1, ret at 1.
  destruct (s !! reservationKey o) as [e|] eqn:He.
  - destruct (bk_reservation _ _ _ Hb o e Ho He) as (h&x&st&p0&q0&i&->&Hx&Hr).
    rewrite (run_bind _ _ _ _ _ _ (HGET_Some _ _ s t h x He ltac:(lia))).
    rewrite (rh_status _ _ _ _ _ _ _ Hr).
    rewrite (run_bind _ _ _ _ _ _ (HGET_Some _ _ s t h x He ltac:(lia))).
    rewrite (run_bind _ _ _ _ _ _ (HGET_Some _ _ s t h x He ltac:(lia))).
    destruct (same_reservation _ _ _) eqn:Hsame; do 2 eexists; (split; [reflexivity|]).
    + apply (same_reservation_spec _ _ _ _ _ Hr) in Hsame as [= -> ->]. by eapply reserve_repeated.
    + eapply reserve_conflict; [done..|]. intros Heq.
      apply (same_reservation_spec _ _ _ _ _ Hr) in Heq. unfold args in *. congruence.
  - rewrite (run_bind _ _ _ _ _ _ (HGET_None _ _ s t He)).
    pose proof (NormalizeShardCount_pos c).
    destruct (reserve_loop_spec (Z.to_nat n) 0 false)
      as [(j&stock&Hj&Hs&Hle&Hrun)|(b&Hrun&Hall&_&Hex)]; fold expiry_index; rewrite Hrun.
    + rewrite (run_bind _ _ _ _ _ _ (reserve_from_run j stock Hj Hs Hle He)).
      do 2 eexists. split; [reflexivity|]. by apply reserve_done.
    + assert (forall j v, 0 <= j < n -> int_opt (stock_key p j) s = Some v -> v < q /\ b = true) as Hj.
      { intros j v Hj Hv. destruct (shard_visited start j Hj) as (d&Hd&<-).
        apply (Hall d); [lia|done]. }
      do 2 eexists. split; [reflexivity|]. destruct b.
      * destruct (Hex eq_refl) as [|(d&v&Hv)]; [done|].
        eapply reserve_short; [done|done|]. intros j' v' Hj' Hv'. by eapply Hj.
      * apply reserve_missing; [done|]. intros j' Hj'.
        destruct (int_opt (stock_key p j') s) as [v|] eqn:Hv; [|done].
        by destruct (Hj j' v Hj' Hv).
Qed.

Lemma rk_not_index : reservationKey o <> expiry_index.
Proof. intros H. destruct (order_ok_index o Ho) as [Hn _]. apply Hn. rewrite H. apply expiry_in. Qed.

Lemma reserve_outcome_reserved s' r :
  reserve_outcome s' r -> r = 1 -> is_Some (s' !! reservationKey o).
Proof.
  destruct 1 as [h x st i He _| |j stock| |]; try done; intros _.
  unfold reserved_store.
  rewrite lookup_zput_ne by (intros H'; symmetry in H'; by apply rk_not_index in H').
  unfold edit. rewrite lookup_insert_eq. by eexists.
Qed.

Lemma reserve_outcome_books s' r : reserve_outcome s' r -> keeps_books hz s s'.
Proof.
  destruct 1 as [| |j stock Hn Hj Hs Hle| |]; try by apply keeps_books_refl.
  eapply keeps_books_trans; [by apply (edit_reserve_books j stock)|].
  apply keeps_zinsert; [|apply expiry_in|done]. by destruct (edit_reserve_books j stock Hj Hs Hle Hn).
Qed.
End reserve.

(** ** Confirming and releasing *)

Section settle.
Context (hz t : Z) (Ht : t < hz) (s : rstore) (Hb : books c hz s).
Context (o : string) (Ho : order_ok o) (ttl : Z) (Httl : 0 < ttl) (Hhz : hz <= t + ttl).
Context (h : gmap string rfield) (x : Z) (st : string) (p q i : Z).
Context (He : s !! reservationKey o = Some (RHash h, Some x)) (Hx : hz <= x)
  (Hr : reservation_hash n h o st p q i).

(** A reservation with another status. *)
Definition restatus (st' : string) : gmap string rfield := <["status" := FStr st']> h.

Lemma restatus_reservation st' :
  st' = reserved_s \/ st' = confirmed_s \/ st' = released_s ->
  reservation_hash n (restatus st') o st' p q i.
Proof.
  intros Hst. destruct Hr as [H1 H2 H3 H4 H5 H6 H7 H8 H9]. unfold restatus.
  split; rewrite ?lookup_insert_eq, ?lookup_insert_ne by done; auto.
Qed.

Lemma old_units st' :
  hash_units_at st' p (reservationKey o) s = if decide (st = st') then q else 0.
Proof.
  unfold hash_units_at, hash_opt. rewrite He. by apply (hash_units_reservation c _ o _ _ _ i).
Qed.

Lemma new_units st1 st2 :
  st1 = reserved_s \/ st1 = confirmed_s \/ st1 = released_s ->
  hash_units st2 p (restatus st1) = if decide (st1 = st2) then q else 0.
Proof. intros H1. apply (hash_units_reservation c _ o _ _ _ i). by apply restatus_reservation. Qed.

(** The changes of a settlement keep the books when they balance. *)
Lemma settle_books st' x' r ed :
  st' = confirmed_s \/ st' = released_s -> hz <= x' ->
  (forall j v, ed = Some (j, v) -> 0 <= j < n /\ 0 <= v) ->
  change_reserved p r s = - (if decide (st = reserved_s) then q else 0) ->
  change_stock p ed s + (if decide (st' = confirmed_s) then q else 0) =
    (if decide (st = reserved_s) then q else 0) + (if decide (st = confirmed_s) then q else 0) ->
  keeps_books hz s (edit o (restatus st') x' p r ed s).
Proof.
  intros Hst Hx' Hed Hc Hs.
  apply (keeps_edit hz x' p o st' q i (restatus st')); auto.
  - apply restatus_reservation. auto.
  - intros h0. unfold hash_opt. rewrite He. intros [= <-]. apply Hr.
  - rewrite old_units, new_units, Hc by auto.
    rewrite (decide_False (P := st' = reserved_s)) by (by destruct Hst as [-> | ->]). lia.
  - rewrite !old_units, !new_units by auto. rewrite <- Hs.
    rewrite (decide_False (P := st' = reserved_s)) by (by destruct Hst as [-> | ->]). lia.
Qed.

Lemma reserved_covers : st = reserved_s -> q <= int_at (reservedStockKey p) s.
Proof.
  intros Hst. rewrite (bk_count _ _ _ Hb). pose proof (units_ge c hz reserved_s p (reservationKey o) s Hb).
  rewrite old_units, decide_True in H by done. done.
Qed.

Lemma insert_zput k v k' z (m : rstore) :
  k <> k' -> <[k := v]> (zput k' z m) = zput k' z (<[k := v]> m).
Proof.
  intros Hk. unfold zput. case_decide; [by rewrite delete_insert_ne|by rewrite insert_insert_ne].
Qed.

Lemma rk_index : reservationKey o <> expiry_index.
Proof. intros H. destruct (order_ok_index o Ho) as [Hn _]. apply Hn. rewrite H. apply expiry_in. Qed.

(** The reservation without its expiry entry. *)
Definition unindexed (s' : rstore) : rstore :=
  zput expiry_index (delete o (zset_of expiry_index s')) s'.

Lemma unindexed_books s' : keeps_books hz s s' -> keeps_books hz s (unindexed s').
Proof.
  intros Hk. eapply keeps_books_trans; [done|]. apply keeps_zdelete; [apply Hk|apply expiry_in].
Qed.

Lemma lookup_unindexed s' k : k <> expiry_index -> unindexed s' !! k = s' !! k.
Proof. intros Hk. unfold unindexed. by rewrite lookup_zput_ne. Qed.

Lemma HGET_here f : HGET (reservationKey o) f (at_ s t) = (at_ s t, Ok (h !! f)).
Proof. apply (HGET_Some _ _ _ _ h x); [done|lia]. Qed.

(** [lower_reserved] on a store that has the counter of [s]. *)
Lemma lower_reserved_run s1 :
  s1 !! reservedStockKey p = s !! reservedStockKey p -> st = reserved_s ->
  lower_reserved (reservedStockKey p) q (at_ s1 t) =
    (at_ (<[reservedStockKey p := (RInt (int_at (reservedStockKey p) s - q), None)]> s1) t, Ok tt).
Proof.
  intros Heq Hst. pose proof (reserved_covers Hst) as Hc. unfold lower_reserved.
  rewrite (run_bind _ _ _ _ _ _ (GET_run _ s1 t
    ltac:(intros e; rewrite Heq; apply (bk_reserved _ _ _ Hb)))).
  unfold int_at in *. unfold int_opt in *. rewrite Heq in *.
  rewrite (proj2 (Z.ltb_ge _ 0)) by lia. done.
Qed.

(** The stores after the scripts. *)
Definition confirmed_store : rstore :=
  unindexed (edit o (restatus confirmed_s) (t + ttl) p
    (if decide (st = reserved_s) then Some (int_at (reservedStockKey p) s - q) else None) None s).

Definition released_store : rstore :=
  unindexed (edit o (restatus released_s) (t + ttl) p
    (if decide (st = reserved_s) then Some (int_at (reservedStockKey p) s - q) else None)
    (Some (i - 1, int_at (stock_key p (i - 1)) s + q)) s).

Definition settled_reserved : option Z :=
  if decide (st = reserved_s) then Some (int_at (reservedStockKey p) s - q) else None.

Lemma settled_change :
  change_reserved p settled_reserved s = - (if decide (st = reserved_s) then q else 0).
Proof. unfold settled_reserved. destruct (decide (st = reserved_s)); simpl; lia. Qed.

Lemma confirmed_edit_books :
  st <> released_s ->
  keeps_books hz s (edit o (restatus confirmed_s) (t + ttl) p settled_reserved None s).
Proof.
  intros Hst. apply settle_books; auto; [done|apply settled_change|].
  simpl. destruct (rh_status_ok _ _ _ _ _ _ _ Hr) as [-> |[-> | ->]];
    done || (repeat case_decide; try done; lia).
Qed.

Lemma released_edit_books :
  st <> released_s ->
  keeps_books hz s (edit o (restatus released_s) (t + ttl) p settled_reserved
    (Some (i - 1, int_at (stock_key p (i - 1)) s + q)) s).
Proof.
  intros Hst. pose proof (rh_positive _ _ _ _ _ _ _ Hr). pose proof (rh_shard_ok _ _ _ _ _ _ _ Hr).
  apply settle_books; auto; [|apply settled_change|].
  - intros j v [= <- <-]. destruct (int_opt_stock c hz p (i - 1) s Hb). lia.
  - rewrite (decide_False (P := released_s = confirmed_s)) by done. simpl.
    destruct (rh_status_ok _ _ _ _ _ _ _ Hr) as [-> |[-> | ->]]; done || (repeat case_decide; try done; lia).
Qed.

Definition confirm_answer (finalDeductEnabled : Z) : Z :=
  if (finalDeductEnabled =? 1) && negb (bool_decide (h !! "mysql_deducted" = Some (FNum 1))) then 2
  else if decide (st = reserved_s) then 3 else 1.

Lemma confirm_end s1 (changed fin : Z) :
  edit o (restatus confirmed_s) (t + ttl) p settled_reserved None s =
    <[reservationKey o := (RHash (restatus confirmed_s), Some (t + ttl))]> s1 ->
  s1 !! reservationKey o = Some (RHash (restatus confirmed_s), Some x) ->
  st <> released_s -> changed = (if decide (st = reserved_s) then 1 else 0) ->
  bind (if 0 <? ttl then EXPIRE (reservationKey o) ttl else ret tt) (fun _ =>
  bind (ZREM expiry_index o) (fun _ =>
  bind (HGET (reservationKey o) "mysql_deducted") (fun mysqlDeducted =>
  ret (if (fin =? 1) && negb (bool_decide (mysqlDeducted = Some (FNum 1)))
       then 2 else if changed =? 1 then 3 else 1)))) (at_ s1 t) =
  (at_ confirmed_store t, Ok (confirm_answer fin)).
Proof.
  intros Hs1 Hk Hst ->. rewrite (proj2 (Z.ltb_lt _ _)) by done.
  rewrite (run_bind _ _ _ _ _ _ (EXPIRE_Some (reservationKey o) ttl s1 t _ _ Hk ltac:(lia) Httl)).
  rewrite <- Hs1. destruct (confirmed_edit_books Hst) as [Hb' _].
  rewrite (run_bind _ _ _ _ _ _ (ZREM_run _ _ _ _ (bk_index _ _ _ Hb' _ expiry_in))).
  fold (unindexed (edit o (restatus confirmed_s) (t + ttl) p settled_reserved None s)).
  fold confirmed_store.
  assert (confirmed_store !! reservationKey o = Some (RHash (restatus confirmed_s), Some (t + ttl)))
    as Hk4 by (unfold confirmed_store; rewrite lookup_unindexed by apply rk_index; apply lookup_insert_eq).
  rewrite (run_bind _ _ _ _ _ _ (HGET_Some _ _ _ t _ _ Hk4 ltac:(lia))).
  unfold confirm_answer, restatus. rewrite lookup_insert_ne by done.
  unfold ret. do 2 f_equal. destruct (decide (st = reserved_s)); done.
Qed.

Lemma confirm_run (fin : Z) :
  confirmDeductLuaScript (reservationKey o) expiry_index o ttl fin (at_ s t) =
    if decide (st = released_s) then (at_ s t, Ok 1)
    else (at_ confirmed_store t, Ok (confirm_answer fin)).
Proof.
  unfold confirmDeductLuaScript. rewrite (run_bind _ _ _ _ _ _ (HGET_here "status")).
  rewrite (rh_status _ _ _ _ _ _ _ Hr). destruct (decide (st = released_s)) as [->|Hst].
  { by rewrite bool_decide_eq_true_2. }
  rewrite (bool_decide_eq_false_2 (FStr st = FStr released_s)) by congruence.
  destruct (decide (st = reserved_s)) as [Hres|Hres].
  - rewrite bool_decide_eq_true_2 by congruence.
    set (s1 := <[reservationKey o := (RHash (restatus confirmed_s), Some x)]> s).
    assert (s1 !! reservationKey o = Some (RHash (restatus confirmed_s), Some x)) as H1
      by apply lookup_insert_eq.
    assert (s1 !! reservedStockKey p = s !! reservedStockKey p) as H2.
    { subst s1. apply lookup_insert_ne. intros H. symmetry in H. by apply reserved_reservation in H. }
    pose proof (lower_reserved_run s1 H2 Hres) as Hlow.
    set (s2 := <[reservedStockKey p := _]> s1) in Hlow.
    erewrite (run_bind _ _ s t s2 1).
    { apply (confirm_end s2); [|subst s2; by rewrite lookup_insert_ne by apply reserved_reservation
                              |done|by rewrite decide_True].
      unfold edit, settled_reserved. rewrite decide_True by done. simpl. subst s2 s1.
      rewrite (insert_insert_ne _ (reservedStockKey p) (reservationKey o))
        by apply reserved_reservation.
      by rewrite insert_insert_eq. }
    rewrite (run_bind _ _ _ _ _ _ (HSET_Some (reservationKey o) _ s t h x He ltac:(lia))).
    change (hset_all [("status", FStr confirmed_s)] h) with (restatus confirmed_s). fold s1.
    rewrite (run_bind _ _ _ _ _ _ (HGET_Some _ _ s1 t _ _ H1 ltac:(lia))).
    rewrite (run_bind _ _ _ _ _ _ (HGET_Some _ _ s1 t _ _ H1 ltac:(lia))).
    pose proof (restatus_reservation confirmed_s ltac:(auto)) as Hrc.
    rewrite (rh_product _ _ _ _ _ _ _ Hrc), (rh_quantity _ _ _ _ _ _ _ Hrc).
    unfold tonumber_or_0, tonumber, number, field_text. unfold bind at 1, ret at 1.
    rewrite (proj2 (Z.ltb_lt 0 q)) by apply Hr. change ("stock_reserved:" +:+ itoa p) with (reservedStockKey p).
    by rewrite (run_bind _ _ _ _ _ _ Hlow).
  - rewrite bool_decide_eq_false_2 by congruence. unfold bind at 1, ret at 1.
    assert (st = confirmed_s) as Hc by (destruct (rh_status_ok _ _ _ _ _ _ _ Hr) as [|[|]]; done).
    assert (restatus confirmed_s = h) as Hh.
    { unfold restatus. apply insert_id. rewrite <- Hc. apply Hr. }
    apply (confirm_end s); [|by rewrite Hh|done|by rewrite decide_False].
    unfold edit, settled_reserved. by rewrite decide_False.
Qed.

Lemma release_bound : st <> released_s -> int_at (stock_key p (i - 1)) s + q <= lua_max.
Proof.
  intros Hst. pose proof (rh_shard_ok _ _ _ _ _ _ _ Hr) as Hi.
  pose proof (bk_bound _ _ _ Hb p) as Hbd. unfold all_units in Hbd.
  pose proof (shard_le c hz p (i - 1) s Hb ltac:(lia)).
  pose proof (units_ge c hz reserved_s p (reservationKey o) s Hb) as H1.
  pose proof (units_ge c hz confirmed_s p (reservationKey o) s Hb) as H2.
  pose proof (units_nonneg c hz confirmed_s p s Hb). pose proof (units_nonneg c hz reserved_s p s Hb).
  rewrite old_units in H1, H2. destruct (rh_status_ok _ _ _ _ _ _ _ Hr) as [Hs|[Hs|Hs]]; [..|done].
  - rewrite (decide_True (P := st = reserved_s)) in H1 by done. lia.
  - rewrite (decide_True (P := st = confirmed_s)) in H2 by done. lia.
Qed.

Lemma release_end s2 :
  edit o (restatus released_s) (t + ttl) p settled_reserved
    (Some (i - 1, int_at (stock_key p (i - 1)) s + q)) s =
    <[reservationKey o := (RHash (restatus released_s), Some (t + ttl))]> s2 ->
  s2 !! reservationKey o = Some (RHash h, Some x) ->
  zset_typed expiry_index s2 -> st <> released_s ->
  bind (HSET (reservationKey o) [("status", FStr released_s)]) (fun _ =>
  bind (HGET (reservationKey o) "order_id") (fun orderID =>
  bind (match Some expiry_index, orderID with
        | Some ek, Some f => ZREM ek (field_text f)
        | _, _ => ret tt
        end) (fun _ =>
  bind (if 0 <? ttl then EXPIRE (reservationKey o) ttl else ret tt) (fun _ => ret 1)))) (at_ s2 t) =
  (at_ released_store t, Ok 1).
Proof.
  intros Hs2 Hk Hz Hst.
  rewrite (run_bind _ _ _ _ _ _ (HSET_Some (reservationKey o) _ s2 t h x Hk ltac:(lia))).
  change (hset_all [("status", FStr released_s)] h) with (restatus released_s).
  set (s3 := <[reservationKey o := _]> s2).
  assert (s3 !! reservationKey o = Some (RHash (restatus released_s), Some x)) as H3
    by apply lookup_insert_eq.
  rewrite (run_bind _ _ _ _ _ _ (HGET_Some _ _ s3 t _ _ H3 ltac:(lia))).
  rewrite (rh_order _ _ _ _ _ _ _ (restatus_reservation released_s ltac:(auto))). cbn [field_text].
  assert (zset_typed expiry_index s3) as Hz3.
  { intros e. subst s3. rewrite lookup_insert_ne by apply rk_index. apply Hz. }
  rewrite (run_bind _ _ _ _ _ _ (ZREM_run expiry_index o s3 t Hz3)).
  rewrite (proj2 (Z.ltb_lt _ _)) by done.
  set (s4 := zput _ _ s3).
  assert (s4 !! reservationKey o = Some (RHash (restatus released_s), Some x)) as H4.
  { subst s4. rewrite lookup_zput_ne by (intros H; symmetry in H; by apply rk_index in H). done. }
  rewrite (run_bind _ _ _ _ _ _ (EXPIRE_Some (reservationKey o) ttl s4 t _ _ H4 ltac:(lia) Httl)).
  unfold ret. do 2 f_equal. unfold released_store, unindexed. fold settled_reserved. rewrite Hs2.
  subst s4. rewrite insert_zput by apply rk_index.
  replace (zset_of expiry_index s3) with
    (zset_of expiry_index (<[reservationKey o:=(RHash (restatus released_s), Some (t + ttl))]> s2)).
  - subst s3. by rewrite insert_insert_eq.
  - unfold zset_of. subst s3. by rewrite !lookup_insert_ne by apply rk_index.
Qed.

Lemma release_run :
  releaseStockLuaScript (stock_script_keys p o) ttl n (at_ s t) =
    if decide (st = released_s) then (at_ s t, Ok 1) else (at_ released_store t, Ok 1).
Proof.
  unfold releaseStockLuaScript. destruct (script_keys_end p o) as (->&->&->).
  unfold bind at 1, key_arg at 1, ret at 1. fold expiry_index.
  rewrite (run_bind _ _ _ _ _ _ (HGET_here "status")).
  rewrite (rh_status _ _ _ _ _ _ _ Hr). destruct (decide (st = released_s)) as [->|Hst].
  { by rewrite bool_decide_eq_true_2. }
  rewrite (bool_decide_eq_false_2 (FStr st = FStr released_s)) by congruence.
  rewrite (run_bind _ _ _ _ _ _ (HGET_here "quantity")).
  rewrite (run_bind _ _ _ _ _ _ (HGET_here "shard_index")).
  rewrite (rh_quantity _ _ _ _ _ _ _ Hr), (rh_shard _ _ _ _ _ _ _ Hr).
  cbn [tonumber default from_option id]. rewrite script_key_shard by apply Hr.
  pose proof (rh_positive _ _ _ _ _ _ _ Hr) as Hq. pose proof (rh_shard_ok _ _ _ _ _ _ _ Hr) as Hi.
  rewrite (proj2 (Z.ltb_lt 0 q)) by done. rewrite andb_true_r.
  destruct (int_opt_stock c hz p (i - 1) s Hb) as [Hty Hpos]. pose proof (release_bound Hst) as Hmax.
  unfold lua_max in Hmax.
  rewrite (run_bind _ _ _ _ _ _ (INCRBY_run _ q s t Hty ltac:(unfold_int64; lia))).
  set (s1 := <[stock_key p (i - 1) := _]> s).
  assert (s1 !! reservedStockKey p = s !! reservedStockKey p) as H1
    by (subst s1; apply lookup_insert_ne, stock_reserved).
  assert (s1 !! reservationKey o = Some (RHash h, Some x)) as H2
    by (subst s1; by rewrite lookup_insert_ne by apply stock_reservation).
  assert (s1 !! expiry_index = s !! expiry_index) as H3
    by (subst s1; apply lookup_insert_ne, stock_index, expiry_in).
  destruct (decide (st = reserved_s)) as [Hres|Hres].
  - rewrite bool_decide_eq_true_2 by congruence.
    pose proof (lower_reserved_run s1 H1 Hres) as Hlow. set (s2 := <[reservedStockKey p := _]> s1) in Hlow.
    rewrite (run_bind _ _ s1 t s2 tt) by (unfold bind, key_arg, ret; by rewrite Hlow).
    apply release_end; [..|done].
    + unfold edit, settled_reserved. by rewrite decide_True.
    + subst s2. by rewrite lookup_insert_ne by apply reserved_reservation.
    + intros e. subst s2. rewrite lookup_insert_ne by apply (reserved_index _ _ expiry_in).
      rewrite H3. apply (bk_index _ _ _ Hb _ expiry_in).
  - rewrite bool_decide_eq_false_2 by congruence. unfold bind at 1, ret at 1.
    apply release_end; [..|done].
    + unfold edit, settled_reserved. by rewrite decide_False.
    + done.
    + intros e. rewrite H3. apply (bk_index _ _ _ Hb _ expiry_in).
Qed.

(** Reading the reservation. *)
Lemma getReservation_run :
  getReservationLuaScript (reservationKey o) (at_ s t) = (at_ s t, Ok (p, q, i)).
Proof.
  unfold getReservationLuaScript.
  rewrite (run_bind _ _ _ _ _ _ (HGET_here "product_id")).
  rewrite (run_bind _ _ _ _ _ _ (HGET_here "quantity")).
  rewrite (rh_product _ _ _ _ _ _ _ Hr), (rh_quantity _ _ _ _ _ _ _ Hr).
  rewrite (run_bind _ _ _ _ _ _ (HGET_here "shard_index")).
  by rewrite (rh_shard _ _ _ _ _ _ _ Hr).
Qed.

(** Marking keeps everything but the mark and the expiry. *)
Lemma mark_run :
  let s' := <[reservationKey o := (RHash (<["mysql_deducted" := FNum 1]> h), Some (t + ttl))]> s in
  markMySQLDeductedLuaScript (reservationKey o) ttl (at_ s t) = (at_ s' t, Ok 1) /\
  keeps_books hz s s'.
Proof.
  split.
  - unfold markMySQLDeductedLuaScript.
    rewrite (run_bind _ _ _ _ _ _ (HSET_Some (reservationKey o) _ s t h x He ltac:(lia))).
    rewrite (proj2 (Z.ltb_lt _ _)) by done.
    rewrite (run_bind _ _ _ _ _ _ (EXPIRE_Some (reservationKey o) ttl _ t _ x
      (lookup_insert_eq s (reservationKey o) _) ltac:(lia) Httl)).
    by rewrite insert_insert_eq.
  - assert (reservation_hash n (<["mysql_deducted" := FNum 1]> h) o st p q i) as Hm.
    { destruct Hr as [H1 H2 H3 H4 H5 H6 H7 H8 H9]. split; rewrite ?lookup_insert_ne by done; auto. }
    apply (keeps_edit hz (t + ttl) p o st q i _ None None s); auto.
    + intros h0. unfold hash_opt. rewrite He. intros [= <-]. apply Hr.
    + done.
    + rewrite old_units, (hash_units_reservation c _ _ _ _ _ _ _ Hm). simpl. lia.
    + rewrite !old_units, !(hash_units_reservation c _ _ _ _ _ _ _ Hm). simpl. lia.
Qed.
End settle.
End runs.
