(* ===== verification/RedisMySQL.v ===== *)
(** The production stock repository
    (app/inventory/repository: redis_mysql.go, stock_commands.go,
    stock_persistence.go, reservation_ledger.go, reservation_reaper.go,
    redis_codec.go, schema_readiness.go): Redis scripts for the hot path, MySQL
    buckets for the final deduction, an optional reservation ledger.

    The repository is a program over [env InventoryDB rstore]: Redis is the
    external system, MySQL the transactional database, and every script call and
    statement can fail before or after its effect. *)

From stdpp Require Import sorting.
From S2P Require Import Prelude Effects Sql Common Shards StockRepository PreDeduct.
From S2P Require Import RedisScripts.
Import apperror domain.

(** * Tables *)

(** [product_stock_bucket], keyed by product and bucket; [stock] is an [int]. *)
Record bucket := mkBucket { bucket_stock : Z; bucket_version : Z }.

(** The texts of [stock_log.type]: ["DEDUCT_BUCKET_%d"]
    ([stockDeductBucketLogType], read back with [Sscanf]) and ["REVERT"]. *)
Inductive log_type := DEDUCT_BUCKET (bucketIdx : Z) | REVERT.

#[export] Instance log_type_eq_dec : EqDecision log_type.
Proof. solve_decision. Defined.

(** [stock_log], oldest first; unique [(order_id, type)]. *)
Record stock_log_row := mkStockLog { sl_order_id : string; sl_type : log_type }.

(** [inventory_reservation], keyed by order; the status column holds the upper
    case of the status. *)
Record ledger_row := mkLedger {
  lr_product_id : Z; lr_quantity : Z; lr_shard_index : Z; lr_status : ReservationStatus;
  lr_expires_at : Z; lr_version : Z; lr_request_id : string; lr_trace_id : string
}.

(** [product_stock_snapshot], keyed by product. *)
Record snapshot_row := mkSnapshotRow {
  sn_available : Z; sn_reserved : Z; sn_total : Z; sn_version : Z
}.

(** [inventory_stock_change_log], oldest first. *)
Record change_row := mkChange {
  cl_product_id : Z; cl_order_id : string; cl_type : string; cl_delta : Z; cl_bucket_idx : Z;
  cl_before : Stock; cl_after : Stock; cl_meta : StockChangeMeta
}.

(** [product.stock] and [product.version]. *)
Record product_row := mkProductRow { pr_stock : Z; pr_version : Z }.

#[export] Instance bucket_eq_dec : EqDecision bucket.
Proof. solve_decision. Defined.
#[export] Instance stock_log_row_eq_dec : EqDecision stock_log_row.
Proof. solve_decision. Defined.
#[export] Instance ledger_row_eq_dec : EqDecision ledger_row.
Proof. solve_decision. Defined.

Record InventoryDB := mkInvDB {
  tables : list string;                     (* information_schema.TABLES *)
  products : gmap Z product_row;
  buckets : gmap (Z * Z) bucket;
  stock_log : list stock_log_row;
  ledger : gmap string ledger_row;
  stock_snapshots : gmap Z snapshot_row;
  change_log : list change_row
}.

Definition with_products (t : gmap Z product_row) (d : InventoryDB) : InventoryDB :=
  mkInvDB (tables d) t (buckets d) (stock_log d) (ledger d) (stock_snapshots d) (change_log d).
Definition with_buckets (t : gmap (Z * Z) bucket) (d : InventoryDB) : InventoryDB :=
  mkInvDB (tables d) (products d) t (stock_log d) (ledger d) (stock_snapshots d) (change_log d).
Definition with_stock_log (t : list stock_log_row) (d : InventoryDB) : InventoryDB :=
  mkInvDB (tables d) (products d) (buckets d) t (ledger d) (stock_snapshots d) (change_log d).
Definition with_ledger (t : gmap string ledger_row) (d : InventoryDB) : InventoryDB :=
  mkInvDB (tables d) (products d) (buckets d) (stock_log d) t (stock_snapshots d) (change_log d).
Definition with_stock_snapshots (t : gmap Z snapshot_row) (d : InventoryDB) : InventoryDB :=
  mkInvDB (tables d) (products d) (buckets d) (stock_log d) (ledger d) t (change_log d).
Definition with_change_log (t : list change_row) (d : InventoryDB) : InventoryDB :=
  mkInvDB (tables d) (products d) (buckets d) (stock_log d) (ledger d) (stock_snapshots d) t.

(** * The repository *)

Record RedisMySQLRepository := mkRepo {
  has_db : bool; shardCount : Z; finalDeductEnabled : bool; reservationLedgerMode : string
}.

Definition NewRedisMySQLRepository (has_db : bool) (shardCount : Z) : RedisMySQLRepository :=
  mkRepo has_db (NormalizeShardCount shardCount) false "".
Definition WithFinalDeductEnabled (enabled : bool) (r : RedisMySQLRepository)
  : RedisMySQLRepository :=
  mkRepo (has_db r) (shardCount r) enabled (reservationLedgerMode r).

Inductive ledger_mode := ModeOff | ModeShadow | ModeEnforce.

#[export] Instance ledger_mode_eq_dec : EqDecision ledger_mode.
Proof. solve_decision. Defined.

Definition normalizeReservationLedgerMode (mode : string) : ledger_mode :=
  let m := to_lower (trim_space mode) in
  if str_eqb m "shadow" then ModeShadow else if str_eqb m "enforce" then ModeEnforce else ModeOff.

Definition ledger_mode_text (m : ledger_mode) : string :=
  match m with ModeOff => "off" | ModeShadow => "shadow" | ModeEnforce => "enforce" end.

Definition WithReservationLedgerMode (mode : string) (r : RedisMySQLRepository)
  : RedisMySQLRepository :=
  mkRepo (has_db r) (shardCount r) (finalDeductEnabled r)
    (ledger_mode_text (normalizeReservationLedgerMode mode)).

Abbreviation M := (M InventoryDB rstore Error).

(** An error that is not a business error: its code is [CodeInternal]. *)
Definition raw (e : string) : Error := Wrap CodeInternal "" e.

Definition internal (message : string) (cause : string) : Error := Wrap CodeInternal message cause.

Definition lost : string := "connection lost".

(** [EvalCtx]: a script, with the wrapping of its error. *)
Definition eval {A} (sc : script A) (wrap : string -> Error) : M A :=
  t <- get_now ;;
  call (fun x => let '(x', r) := run_script sc t x in
                 (x', match r with Ok a => Ok a | Err e => Err (wrap e) end)) (wrap lost).

(** One statement; [None] is an error of the server, such as a value out of the
    range of its column. *)
Definition exec {A} (op : InventoryDB -> option (InventoryDB * A)) (message : string) : M A :=
  r <- sql (fun d => match op d with Some (d', a) => (d', Some a) | None => (d, None) end)
         (internal message lost) ;;
  match r with Some a => ret a | None => throw (internal message "Out of range value") end.

Definition query {A} (f : InventoryDB -> A) (message : string) : M A :=
  sql (fun d => (d, f d)) (internal message lost).

(** [v, _ := f()]: on error the zero value. *)
Definition value_or {A} (zero : A) (m : M A) : M A :=
  r <- attempt m ;; ret (match r with Ok a => a | Err _ => zero end).

(** An [int] column. *)
Definition int32_ok (z : Z) : bool := (- 2 ^ 31 <=? z) && (z <=? 2 ^ 31 - 1).

(** ** Pieces of stock_persistence.go *)

Definition redisAvailable (r : RedisMySQLRepository) (productID : Z) (message : string)
  : M (Z * bool) :=
  '(exists_, total) <- eval (sumStockLuaScript (StockShardKeys productID (shardCount r)) false 0)
                         (internal message) ;;
  ret (total, exists_ : bool).

Definition redisReserved (productID : Z) (message : string) : M Z :=
  eval (getReservedStockLuaScript (reservedStockKey productID)) (internal message).

Definition redisBatchStocks (r : RedisMySQLRepository) (productIDs : list Z) : M (list Stock * gset Z) :=
  parts <- eval (batchStockLuaScript
             ((fun p => (p, StockShardKeys p (shardCount r), reservedStockKey p)) <$> productIDs))
             (internal "batch read redis stock failed") ;;
  let present := filter (fun '(_, exists_, _, _) => exists_ = true) parts in
  ret ((fun '(p, _, available, reserved) =>
          mkStock p available reserved (int64 (available + reserved))) <$> present,
       list_to_set ((fun '(p, _, _, _) => p) <$> present)).

(** [SUM(stock), COUNT( * )] of a product's buckets. *)
Definition bucket_rows (productID : Z) (d : InventoryDB) : gmap (Z * Z) bucket :=
  filter (fun kb => kb.1.1 = productID) (buckets d).
Definition bucket_total (productID : Z) (d : InventoryDB) : Z :=
  map_sumZ (fun _ b => bucket_stock b) (bucket_rows productID d).

Definition mysqlBucketTotalTx (productID : Z) : M (Z * bool) :=
  query (fun d => (bucket_total productID d, bool_decide (bucket_rows productID d <> ∅)))
    "read mysql stock bucket failed".

Definition mysqlBucketTotal (r : RedisMySQLRepository) (productID : Z) : M (Z * bool) :=
  if has_db r then mysqlBucketTotalTx productID else ret (0, false).

(** [INSERT ... ON DUPLICATE KEY UPDATE stock = f(stock), version = version + 1];
    one row affected by an insert, two by an update. *)
Definition upsert_bucket (productID bucketIdx stock : Z) (f : Z -> Z) (d : InventoryDB)
  : option (InventoryDB * Z) :=
  let k := (productID, bucketIdx) in
  match buckets d !! k with
  | None =>
      if int32_ok stock && int32_ok bucketIdx
      then Some (with_buckets (<[k := mkBucket stock 0]> (buckets d)) d, 1) else None
  | Some b =>
      if int32_ok (f (bucket_stock b))
      then Some (with_buckets (<[k := mkBucket (f (bucket_stock b)) (bucket_version b + 1)]>
                                 (buckets d)) d, 2)
      else None
  end.

Fixpoint seed_values (productID : Z) (idx : Z) (values : list Z) : M unit :=
  match values with
  | [] => ret tt
  | v :: values' =>
      exec (upsert_bucket productID idx v (fun _ => v)) "seed mysql stock bucket failed" ;;;
      seed_values productID (idx + 1) values'
  end.

Definition seedMySQLBuckets (productID total shardCount : Z) : M unit :=
  run_tx (internal "begin stock seed transaction failed" lost)
    (seed_values productID 0 (SplitStockAcrossShards total shardCount) ;;;
     ret (Commit (internal "commit stock seed transaction failed" lost) tt)).

Definition seedRedisState (productID available reserved shardCount : Z) : M unit :=
  eval (seedStockLuaScript (StockShardKeys productID shardCount)
          (SplitStockAcrossShards available shardCount)) (internal "seed redis stock failed") ;;;
  eval (resetReservedStockLuaScript (reservedStockKey productID) reserved)
    (internal "reset redis reserved stock failed").

Definition seedRedis (productID total shardCount : Z) : M unit :=
  seedRedisState productID total 0 shardCount.

(** The conditional [UPDATE] of one bucket. *)
Definition update_bucket (productID bucketIdx delta : Z) (d : InventoryDB)
  : option (InventoryDB * Z) :=
  match buckets d !! (productID, bucketIdx) with
  | Some b =>
      if 0 <=? bucket_stock b + delta then
        if int32_ok (bucket_stock b + delta)
        then Some (with_buckets (<[(productID, bucketIdx) :=
                     mkBucket (bucket_stock b + delta) (bucket_version b + 1)]> (buckets d)) d, 1)
        else None
      else Some (d, 0)
  | None => Some (d, 0)
  end.

Definition update_product (productID total : Z) (d : InventoryDB) : option (InventoryDB * Z) :=
  match products d !! productID with
  | Some p =>
      if int32_ok total
      then Some (with_products (<[productID := mkProductRow total (pr_version p + 1)]>
                                  (products d)) d, 1)
      else None
  | None => Some (d, 0)
  end.

Definition adjustMySQLStock (productID delta bucketIdx : Z) : M unit :=
  run_tx (internal "begin stock adjust transaction failed" lost)
    (rows <- exec (if 0 <? delta
                   then upsert_bucket productID bucketIdx delta (fun v => v + delta)
                   else update_bucket productID bucketIdx delta)
               "adjust mysql stock bucket failed" ;;
     require (negb (rows =? 0)) ErrStockInsufficient ;;;
     '(total, ok) <- mysqlBucketTotalTx productID ;;
     require ok ErrStockNotFound ;;;
     rows <- exec (update_product productID total) "update product stock total failed" ;;
     require (negb (rows =? 0)) ErrStockNotFound ;;;
     ret (Commit (internal "commit stock adjust transaction failed" lost) tt)).

Definition upsert_snapshot_row (stock : Stock) (d : InventoryDB) : InventoryDB :=
  let v := match stock_snapshots d !! Stock_ProductID stock with
           | Some s => sn_version s + 1 | None => 0 end in
  with_stock_snapshots (<[Stock_ProductID stock :=
    mkSnapshotRow (Available stock) (Reserved stock) (Total stock) v]> (stock_snapshots d)) d.

Definition upsertStockSnapshot (r : RedisMySQLRepository) (stock : Stock) : M unit :=
  if negb (has_db r) || (Stock_ProductID stock <=? 0) then ret tt
  else sql (fun d => (upsert_snapshot_row stock d, tt))
         (internal "upsert stock snapshot failed" lost).

Definition adjustRedisAvailable (r : RedisMySQLRepository) (productID delta bucketIdx : Z) : M unit :=
  let startIndex := bucketIdx + 1 in
  let startIndex := if (startIndex <=? 0) || (shardCount r <? startIndex) then 1 else startIndex in
  ret_ <- eval (adjustAvailableStockLuaScript (StockShardKeys productID (shardCount r)) delta
                  (shardCount r) startIndex) (internal "adjust redis stock failed") ;;
  require (negb (ret_ =? -2)) ErrStockInsufficient ;;;
  require (ret_ =? 1) (New CodeInternal ("unexpected adjust stock result " +:+ itoa ret_)).

Definition insertStockChangeLog (r : RedisMySQLRepository) (changeType : string) (productID : Z)
  (orderID : string) (delta bucketIdx : Z) (before after : Stock) (meta : StockChangeMeta)
  : M unit :=
  if negb (has_db r) then ret tt
  else
    let orderID := if is_empty orderID then meta_OrderID meta else orderID in
    sql (fun d => (with_change_log (change_log d ++
           [mkChange productID orderID changeType delta bucketIdx before after meta]) d, tt))
      (internal "insert stock change log failed" lost).

(** ** The final deduction *)

Definition stockDeductBucketLogType (bucketIdx : Z) : log_type := DEDUCT_BUCKET bucketIdx.

(** The deductions of an order, oldest first. *)
Definition deduct_buckets (orderID : string) (l : list stock_log_row) : list Z :=
  omap (fun row => if str_eqb (sl_order_id row) orderID then
                     match sl_type row with DEDUCT_BUCKET i => Some i | REVERT => None end
                   else None) l.

Definition stockDeductLogExists (orderID : string) : M bool :=
  query (fun d => match deduct_buckets orderID (stock_log d) with [] => false | _ => true end)
    "read stock deduct log failed".

Definition stockDeductBucketFromLog (orderID : string) : M (option Z) :=
  query (fun d => last (deduct_buckets orderID (stock_log d))) "read stock deduct log failed".

(** [INSERT IGNORE INTO stock_log]. *)
Definition insert_stock_log (row : stock_log_row) (d : InventoryDB) : InventoryDB * Z :=
  if decide (row ∈ stock_log d) then (d, 0)
  else (with_stock_log (stock_log d ++ [row]) d, 1).

(** [ORDER BY CASE WHEN bucket_idx = preferred THEN 0 ELSE 1 END, bucket_idx LIMIT 1]. *)
Definition bucket_rank (preferred idx : Z) : Z * Z := (if idx =? preferred then 0 else 1, idx).
Definition rank_le (preferred a b : Z) : Prop :=
  let '(a1, a2) := bucket_rank preferred a in
  let '(b1, b2) := bucket_rank preferred b in a1 < b1 \/ a1 = b1 /\ a2 <= b2.
#[export] Instance rank_le_dec preferred : RelDecision (rank_le preferred).
Proof. intros a b. unfold rank_le, bucket_rank. apply _. Defined.

Definition deductible (productID quantity preferred : Z) (d : InventoryDB) : option Z :=
  head (merge_sort (rank_le preferred)
    ((fun kb => kb.1.2) <$> filter (fun kb => quantity <= bucket_stock kb.2)
                               (map_to_list (bucket_rows productID d)))).

Definition lockDeductibleStockBucket (productID quantity preferred : Z) : M Z :=
  found <- query (deductible productID quantity preferred) "lock mysql stock bucket failed" ;;
  match found with
  | Some bucketIdx => ret bucketIdx
  | None =>
      exists_ <- query (fun d => bool_decide (bucket_rows productID d <> ∅))
                   "read mysql stock bucket failed" ;;
      throw (if exists_ : bool then ErrStockInsufficient else ErrStockNotFound)
  end.

Definition confirm_body (r : RedisMySQLRepository) (orderID : string) (productID quantity : Z)
  : M (txend Error unit) :=
  exists_ <- stockDeductLogExists orderID ;;
  if exists_ : bool then ret (Commit (raw lost) tt)
  else
    bucketIdx <- lockDeductibleStockBucket productID quantity
                   (StockShardStartIndex orderID (shardCount r)) ;;
    affected <- sql (insert_stock_log (mkStockLog orderID (stockDeductBucketLogType bucketIdx)))
                  (internal "insert stock deduct log failed" lost) ;;
    if affected =? 0 then ret (Commit (raw lost) tt)
    else
      exec (fun d => match buckets d !! (productID, bucketIdx) with
                     | Some b => if quantity <=? bucket_stock b
                                 then update_bucket productID bucketIdx (- quantity) d
                                 else Some (d, 0)
                     | None => Some (d, 0)
                     end) "deduct mysql stock bucket failed" ;;;
      ret (Commit (internal "commit stock deduct transaction failed" lost) tt).

Definition confirmMySQLDeduct (r : RedisMySQLRepository) (orderID : string)
  (productID quantity : Z) : M unit :=
  run_tx (internal "begin stock deduct transaction failed" lost)
    (confirm_body r orderID productID quantity).

Definition release_body (orderID : string) (productID quantity : Z) : M (txend Error unit) :=
  found <- stockDeductBucketFromLog orderID ;;
  match found with
  | None => ret (Commit (raw lost) tt)
  | Some bucketIdx =>
      affected <- sql (insert_stock_log (mkStockLog orderID REVERT))
                    (internal "insert stock release log failed" lost) ;;
      if affected =? 0 then ret (Commit (raw lost) tt)
      else
        exec (upsert_bucket productID bucketIdx quantity (fun v => v + quantity))
          "release mysql stock bucket failed" ;;;
        ret (Commit (internal "commit stock release transaction failed" lost) tt)
  end.

Definition releaseMySQLDeduct (orderID : string) (productID quantity : Z) : M unit :=
  run_tx (internal "begin stock release transaction failed" lost)
    (release_body orderID productID quantity).

(** ** The ledger (reservation_ledger.go) *)

Definition mode_of (r : RedisMySQLRepository) : ledger_mode :=
  normalizeReservationLedgerMode (reservationLedgerMode r).

Definition ledger_off (r : RedisMySQLRepository) : bool :=
  negb (has_db r) || bool_decide (mode_of r = ModeOff).

Record reservationLedgerRecord := mkRecord {
  rec_OrderID : string; rec_ProductID : Z; rec_Quantity : Z; rec_ShardIndex : Z;
  rec_Status : ReservationStatus; rec_ExpiresAt : Z; rec_RequestID : string; rec_TraceID : string
}.

(** [INSERT ... ON DUPLICATE KEY UPDATE order_id = VALUES(order_id)]. *)
Definition insert_ledger (record : reservationLedgerRecord) (d : InventoryDB) : InventoryDB * Z :=
  match ledger d !! rec_OrderID record with
  | Some _ => (d, 0)
  | None =>
      (with_ledger (<[rec_OrderID record :=
         mkLedger (rec_ProductID record) (rec_Quantity record) (rec_ShardIndex record)
           (rec_Status record) (rec_ExpiresAt record) 0 (rec_RequestID record)
           (rec_TraceID record)]> (ledger d)) d, 1)
  end.

Definition insertReservationLedger (r : RedisMySQLRepository) (record : reservationLedgerRecord)
  : M unit :=
  if ledger_off r then ret tt
  else
    affected <- sql (insert_ledger record)
                  (internal "write inventory reservation ledger failed" lost) ;;
    if affected =? 0 then
      row <- query (fun d => ledger d !! rec_OrderID record)
               "read inventory reservation ledger identity failed" ;;
      match row with
      | None => throw (internal "read inventory reservation ledger identity failed"
                         "sql: no rows in result set")
      | Some l =>
          require ((lr_product_id l =? rec_ProductID record) && (lr_quantity l =? rec_Quantity record))
            ErrReservationConflict
      end
    else ret tt.

(** In shadow mode a failure of the ledger is only logged. *)
Definition shadowed {A} (r : RedisMySQLRepository) (zero : A) (m : M A) : M A :=
  res <- attempt m ;;
  match res with
  | Ok a => ret a
  | Err e => if bool_decide (mode_of r = ModeShadow) then ret zero else throw e
  end.

Definition recordReservation (r : RedisMySQLRepository) (record : reservationLedgerRecord) : M unit :=
  shadowed r tt (insertReservationLedger r record).

Definition set_ledger_status (target : ReservationStatus) (l : ledger_row) : ledger_row :=
  mkLedger (lr_product_id l) (lr_quantity l) (lr_shard_index l) target (lr_expires_at l)
    (lr_version l + 1) (lr_request_id l) (lr_trace_id l).

Definition transition_ledger (orderID : string) (target : ReservationStatus)
  (allowed : list ReservationStatus) (d : InventoryDB) : InventoryDB :=
  match ledger d !! orderID with
  | Some l => if bool_decide (lr_status l ∈ allowed)
              then with_ledger (<[orderID := set_ledger_status target l]> (ledger d)) d else d
  | None => d
  end.

Definition transitionReservationLedger (r : RedisMySQLRepository) (orderID : string)
  (target : ReservationStatus) (allowed : list ReservationStatus) : M unit :=
  if ledger_off r || is_empty orderID || bool_decide (allowed = []) then ret tt
  else shadowed r tt
         (sql (fun d => (transition_ledger orderID target allowed d, tt))
            (internal "transition inventory reservation ledger failed" lost)).

Definition expectedReserved (redisReserved ledgerReserved : Z) (mode : ledger_mode) : Z :=
  let reserved :=
    match mode with
    | ModeShadow => if redisReserved <? ledgerReserved then ledgerReserved else redisReserved
    | ModeEnforce => ledgerReserved
    | ModeOff => redisReserved
    end in
  if reserved <? 0 then 0 else reserved.

Definition expectedAvailable (mysqlTotal redisReserved ledgerReserved : Z) (mode : ledger_mode) : Z :=
  let available := int64 (mysqlTotal - expectedReserved redisReserved ledgerReserved mode) in
  if available <? 0 then 0 else available.

Definition active_units (productID : Z) (d : InventoryDB) : Z :=
  map_sumZ (fun _ l => if (lr_product_id l =? productID) &&
                          status_eqb (lr_status l) ReservationReserved
                       then lr_quantity l else 0) (ledger d).

Definition activeReservationTotal (r : RedisMySQLRepository) (productID : Z) : M Z :=
  if ledger_off r then ret 0
  else shadowed r 0 (query (active_units productID) "read active inventory reservations failed").

Definition loadReservationLedger (r : RedisMySQLRepository) (orderID : string)
  : M (option reservationLedgerRecord) :=
  if ledger_off r || is_empty orderID then ret None
  else shadowed r None
         (query (fun d =>
            (fun l => mkRecord orderID (lr_product_id l) (lr_quantity l) (lr_shard_index l)
                        (lr_status l) (lr_expires_at l) (lr_request_id l) (lr_trace_id l))
              <$> ledger d !! orderID) "load inventory reservation ledger failed").

(** * The operations (stock_commands.go) *)

Definition redis_reservation : Type := Z * Z * Z.     (* product, quantity, shard index *)

Definition evalReservation (orderID : string) (wrap : string -> Error) : M redis_reservation :=
  eval (getReservationLuaScript (reservationKey orderID)) wrap.

Section operations.
Context (r : RedisMySQLRepository).

Definition GetStock (productID : Z) : M Stock :=
  '(available, exists_) <- redisAvailable r productID "read redis stock failed" ;;
  if exists_ : bool then
    reserved <- redisReserved productID "read redis reserved stock failed" ;;
    ret (mkStock productID available reserved (int64 (available + reserved)))
  else if negb (has_db r) then throw ErrStockNotFound
  else
    '(total, ok) <- mysqlBucketTotal r productID ;;
    require ok ErrStockNotFound ;;;
    ret (mkStock productID total 0 total).

Definition stock_or_zero (productID : Z) : M Stock := value_or zeroStock (GetStock productID).

Fixpoint uniquePositiveProductIDs (productIDs : list Z) (seen : gset Z) : list Z :=
  match productIDs with
  | [] => []
  | p :: ps =>
      if p <=? 0 then uniquePositiveProductIDs ps seen
      else if decide (p ∈ seen) then uniquePositiveProductIDs ps seen
      else p :: uniquePositiveProductIDs ps ({[p]} ∪ seen)
  end.

(** [byID], where a later stock of a product wins. *)
Definition orderStocksByProductIDs (productIDs : list Z) (stocks : list Stock) : list Stock :=
  let byID : gmap Z Stock :=
    foldl (fun m s => <[Stock_ProductID s := s]> m) ∅ stocks in
  omap (fun p => byID !! p) productIDs.

(** The products Redis does not know, read from MySQL. *)
Fixpoint mysql_stocks (productIDs : list Z) (found : gset Z) : M (list Stock) :=
  match productIDs with
  | [] => ret []
  | p :: ps =>
      if decide (p ∈ found) then mysql_stocks ps found
      else
        '(total, ok) <- mysqlBucketTotal r p ;;
        rest <- mysql_stocks ps found ;;
        ret (if ok : bool then mkStock p total 0 total :: rest else rest)
  end.

Definition BatchGetStock (productIDs : list Z) : M (list Stock) :=
  match productIDs with
  | [] => ret []
  | _ =>
      match uniquePositiveProductIDs productIDs ∅ with
      | [] => ret []
      | uniqueIDs =>
          '(stocks, found) <- redisBatchStocks r uniqueIDs ;;
          more <- (if (Z.of_nat (size found) <? Z.of_nat (length uniqueIDs)) && has_db r
                   then mysql_stocks uniqueIDs found else ret []) ;;
          ret (orderStocksByProductIDs uniqueIDs (stocks ++ more))
      end
  end.

Definition refreshStockSnapshot (productID : Z) : M unit :=
  if negb (has_db r) then ret tt
  else stock <- GetStock productID ;; upsertStockSnapshot r stock.

Definition SeedStock (productID total shardCount_ : Z) : M unit :=
  let sc := if shardCount_ <=? 0 then shardCount r else shardCount_ in
  (if has_db r then seedMySQLBuckets productID total sc else ret tt) ;;;
  seedRedis productID total sc ;;;
  refreshStockSnapshot productID.

Definition AdjustStock (productID delta bucketIdx : Z) (meta : StockChangeMeta)
  : M (Stock * Stock) :=
  before <- GetStock productID ;;
  (if has_db r then adjustMySQLStock productID delta bucketIdx else ret tt) ;;;
  adjustRedisAvailable r productID delta bucketIdx ;;;
  after <- GetStock productID ;;
  (if has_db r then
     insertStockChangeLog r "ADJUST" productID (meta_OrderID meta) delta bucketIdx before after meta ;;;
     upsertStockSnapshot r after
   else ret tt) ;;;
  ret (before, after).

(** The keys of the reserve and release scripts. *)
Definition stock_keys (productID : Z) (orderID : string) : list string :=
  StockShardKeys productID (shardCount r) ++
    [reservationKey orderID; reservedStockKey productID; reservationExpiryIndexKey].

(** What follows a successful change: the log and the snapshot, errors ignored. *)
Definition record_change (changeType : string) (productID : Z) (orderID : string) (delta : Z)
  (before : Stock) (meta : StockChangeMeta) : M unit :=
  after <- stock_or_zero productID ;;
  ignore (insertStockChangeLog r changeType productID orderID delta (-1) before after meta) ;;;
  ignore (upsertStockSnapshot r after).

Definition ReserveStock (orderID : string) (productID quantity : Z) (meta : StockChangeMeta)
  : M unit :=
  before <- stock_or_zero productID ;;
  ret_ <- eval (reserveStockLuaScript (stock_keys productID orderID)
                  (mkReserveArgs quantity reservationKeyTTLSeconds (shardCount r)
                     (StockShardStartIndex orderID (shardCount r)) productID orderID
                     reservationExpirySeconds))
            (Wrap CodeStockReserveFailed "reserve stock failed") ;;
  if ret_ =? 1 then
    '(_, _, shardIndex) <- evalReservation orderID
        (Wrap CodeStockReserveFailed "read reserved stock identity failed") ;;
    t <- get_now ;;
    recordReservation r (mkRecord orderID productID quantity shardIndex ReservationReserved
      (t + reservationExpirySeconds) (meta_RequestID meta) (meta_TraceID meta)) ;;;
    record_change "RESERVE" productID orderID (int64 (- quantity)) before meta
  else if ret_ =? -1 then throw ErrStockNotFound
  else if ret_ =? -2 then throw ErrStockInsufficient
  else if ret_ =? -3 then throw ErrReservationConflict
  else throw (New CodeStockReserveFailed ("unexpected reserve result " +:+ itoa ret_)).

(** What follows the script of [ConfirmDeduct]. *)
Definition confirm_tail (orderID : string) (productID quantity : Z) (before : Stock) (ret_ : Z)
  (meta : StockChangeMeta) : M unit :=
  if (ret_ =? 2) && ((productID <=? 0) || (quantity <=? 0)) then ret tt
  else
    (if ret_ =? 2 then
       confirmMySQLDeduct r orderID productID quantity ;;;
       eval (markMySQLDeductedLuaScript (reservationKey orderID) confirmedReservationTTLSeconds)
         (internal "mark mysql stock deduction failed") ;;;
       ret tt
     else ret tt) ;;;
    (if 0 <? productID
     then transitionReservationLedger r orderID ReservationConfirmed [ReservationReserved]
     else ret tt) ;;;
    (if ((ret_ =? 2) || (ret_ =? 3)) && (0 <? productID)
     then record_change "CONFIRM" productID orderID (int64 (- quantity)) before meta
     else ret tt).

(** Up to and with the script: the reservation as it was read, the stock before,
    the script's answer. *)
Definition confirm_head (orderID : string) : M (Z * Z * Stock * Z) :=
  '(productID, quantity, _) <- value_or (0, 0, 0) (evalReservation orderID raw) ;;
  before <- (if 0 <? productID then stock_or_zero productID else ret zeroStock) ;;
  let finalDeductFlag := if finalDeductEnabled r && has_db r then 1 else 0 in
  ret_ <- eval (confirmDeductLuaScript (reservationKey orderID) reservationExpiryIndexKey orderID
                  confirmedReservationTTLSeconds finalDeductFlag)
            (internal "confirm stock deduction failed") ;;
  ret (productID, quantity, before, ret_).

Definition ConfirmDeduct (orderID : string) (meta : StockChangeMeta) : M unit :=
  '(productID, quantity, before, ret_) <- confirm_head orderID ;;
  confirm_tail orderID productID quantity before ret_ meta.

Definition status_text (st : ReservationStatus) : string :=
  match st with
  | ReservationReserved => reserved_s
  | ReservationConfirmed => confirmed_s
  | ReservationReleased => released_s
  end.

(** The second half of [ReleaseStock], once the reservation is known. *)
Definition release_known (orderID : string) (productID quantity : Z) (meta : StockChangeMeta)
  : M unit :=
  before <- stock_or_zero productID ;;
  (if finalDeductEnabled r && has_db r then releaseMySQLDeduct orderID productID quantity
   else ret tt) ;;;
  eval (releaseStockLuaScript (stock_keys productID orderID) confirmedReservationTTLSeconds
          (shardCount r)) (internal "release stock failed") ;;;
  transitionReservationLedger r orderID ReservationReleased
    [ReservationReserved; ReservationConfirmed] ;;;
  record_change "RELEASE" productID orderID quantity before meta.

Definition ReleaseStock (orderID : string) (meta : StockChangeMeta) : M unit :=
  '(productID, quantity, _) <- evalReservation orderID
      (internal "read stock reservation failed") ;;
  if (productID <=? 0) || (quantity <=? 0) then
    ledgerRecord <- loadReservationLedger r orderID ;;
    match ledgerRecord with
    | None => ret tt
    | Some record =>
        if (rec_ProductID record <=? 0) || (rec_Quantity record <=? 0) ||
           status_eqb (rec_Status record) ReservationReleased then ret tt
        else
          eval (hydrateReservationLuaScript (reservationKey orderID)
                  (status_text (rec_Status record)) (rec_ProductID record) (rec_Quantity record)
                  (rec_ShardIndex record) orderID reservationKeyTTLSeconds)
            (internal "restore stock reservation from ledger failed") ;;;
          release_known orderID (rec_ProductID record) (rec_Quantity record) meta
    end
  else release_known orderID productID quantity meta.

Definition ReconcileStock (productID : Z) (meta : StockChangeMeta) : M (Stock * Stock * bool) :=
  read <- attempt (GetStock productID) ;;
  before <- (match read with
             | Err e => if bool_decide (err_code e = CodeStockNotFound) then ret zeroStock
                        else throw e
             | Ok before => ret before
             end) ;;
  if negb (has_db r) then ret (before, before, false)
  else
    '(total, ok) <- mysqlBucketTotal r productID ;;
    require ok ErrStockNotFound ;;;
    ledgerReserved <- activeReservationTotal r productID ;;
    let reserved := expectedReserved (Reserved before) ledgerReserved (mode_of r) in
    let after := mkStock productID
                   (expectedAvailable total (Reserved before) ledgerReserved (mode_of r))
                   reserved total in
    let changed := negb (Available before =? Available after) ||
                   negb (Reserved before =? Reserved after) in
    (if changed then
       seedRedisState productID (Available after) (Reserved after) (shardCount r) ;;;
       ignore (insertStockChangeLog r "RECONCILE" productID ""
                 (int64 (Available after - Available before)) (-1) before after meta) ;;;
       ignore (upsertStockSnapshot r after)
     else ret tt) ;;;
    ret (before, after, changed).

(** * The reaper (reservation_reaper.go) *)

Definition reservationProcessingTimeout : Z := 5 * 60.
Definition reservationRetryDelay : Z := 30.
Definition reservationMaxRecoveryRetries : Z := 3.

(** [if err != nil && firstErr == nil { firstErr = err }]. *)
Definition first_error (first : option Error) (e : Error) : option Error :=
  match first with Some f => Some f | None => Some e end.

Fixpoint release_claimed (orderIDs : list string) (meta : StockChangeMeta) (processed : Z)
  (firstErr : option Error) : M (Z * option Error) :=
  match orderIDs with
  | [] => ret (processed, firstErr)
  | o :: os =>
      released <- attempt (ReleaseStock o meta) ;;
      match released with
      | Err e =>
          t <- get_now ;;
          ignore (eval (retryExpiredReservationLuaScript o t reservationRetryDelay
                          reservationMaxRecoveryRetries) raw) ;;;
          release_claimed os meta processed (first_error firstErr e)
      | Ok _ =>
          done_ <- attempt (eval (completeExpiredReservationLuaScript o)
                             (internal "complete expired reservation recovery failed")) ;;
          release_claimed os meta (processed + 1)
            (match done_ with Err e => first_error firstErr e | Ok _ => firstErr end)
      end
  end.

Definition ReleaseExpiredReservations (limit : Z) (meta : StockChangeMeta) : M Z :=
  let limit := if limit <=? 0 then 100 else limit in
  t <- get_now ;;
  claimed <- eval (claimExpiredReservationsLuaScript t limit reservationProcessingTimeout)
               (internal "claim expired stock reservations failed") ;;
  '(processed, firstErr) <- release_claimed claimed meta 0 None ;;
  match firstErr with Some e => throw e | None => ret processed end.

Definition ReservationStats : M domain.ReservationStats :=
  t <- get_now ;;
  '(active, processing, dead, expired) <- eval (reservationStatsLuaScript t)
      (internal "read reservation stats failed") ;;
  ret (mkStats active expired processing dead).

(** * Readiness (schema_readiness.go) *)

Definition inventoryRequiredTables : list string :=
  ["product"; "stock_log"; "product_stock_bucket"; "product_stock_snapshot";
   "inventory_reservation"; "inventory_stock_change_log"].

Definition checkSchema : M unit :=
  found <- query (fun d => filter (fun t => t ∈ inventoryRequiredTables) (tables d))
             "inspect inventory schema failed" ;;
  let missing := filter (fun t => t ∉ found) inventoryRequiredTables in
  match missing with
  | [] => ret tt
  | _ => throw (New CodeInternal ("inventory schema missing tables: " +:+ String.concat ", " missing))
  end.

Definition CheckRuntime : M unit :=
  eval (ret 1) (internal "inventory redis unavailable") ;;;
  if has_db r then
    query (fun _ => tt) "inventory mysql unavailable" ;;;
    checkSchema
  else ret tt.

(** * Rebuilding Redis from MySQL (runtime_recovery.go) *)

Record recoveryReservation := mkRecovery {
  rv_OrderID : string; rv_ProductID : Z; rv_Quantity : Z; rv_ShardIndex : Z;
  rv_Status : ReservationStatus; rv_ExpiresAt : Z
}.

(** [ORDER BY product_id, bucket_idx]. *)
Definition key_order (a b : (Z * Z) * bucket) : Prop :=
  a.1.1 < b.1.1 \/ a.1.1 = b.1.1 /\ a.1.2 <= b.1.2.
#[export] Instance key_order_dec : RelDecision key_order.
Proof. intros a b. unfold key_order. apply _. Defined.

Definition bucket_list (d : InventoryDB) : list ((Z * Z) * bucket) :=
  merge_sort key_order (map_to_list (buckets d)).

Fixpoint read_buckets (rows : list ((Z * Z) * bucket)) (acc : gmap Z (list Z))
  : res Error (gmap Z (list Z)) :=
  match rows with
  | [] => Ok acc
  | ((p, i), b) :: rows' =>
      if (i <? 0) || (shardCount r <=? i) || (bucket_stock b <? 0) then
        Err (New CodeInternal ("invalid inventory bucket: product_id=" +:+ itoa p))
      else
        let values := default (replicate (Z.to_nat (shardCount r)) 0) (acc !! p) in
        read_buckets rows' (<[p := <[Z.to_nat i := bucket_stock b]> values]> acc)
  end.

Definition loadRecoveryBuckets : M (gmap Z (list Z)) :=
  rows <- query bucket_list "load inventory recovery buckets failed" ;;
  of_res (read_buckets rows ∅).

(** [ORDER BY r.product_id, r.order_id] of the open reservations, each with its
    latest deduction and whether it was reverted. *)
Definition reservation_order (a b : string * ledger_row) : Prop :=
  lr_product_id a.2 < lr_product_id b.2 \/
  lr_product_id a.2 = lr_product_id b.2 /\ String.leb a.1 b.1 = true.
#[export] Instance reservation_order_dec : RelDecision reservation_order.
Proof. intros a b. unfold reservation_order. apply _. Defined.

Definition recovery_rows (d : InventoryDB) : list (string * ledger_row * option Z * bool) :=
  (fun ol => (ol.1, ol.2, last (deduct_buckets ol.1 (stock_log d)),
              bool_decide (mkStockLog ol.1 REVERT ∈ stock_log d))) <$>
    merge_sort reservation_order
      (filter (fun ol => lr_status ol.2 <> ReservationReleased) (map_to_list (ledger d))).

Fixpoint read_reservations (rows : list (string * ledger_row * option Z * bool))
  : res Error (list recoveryReservation) :=
  match rows with
  | [] => Ok []
  | (o, l, deducted, reverted) :: rows' =>
      if reverted : bool then read_reservations rows'
      else
        let item i st := mkRecovery o (lr_product_id l) (lr_quantity l) i st (lr_expires_at l) in
        match deducted with
        | Some i =>
            if (i <? 0) || (shardCount r <=? i) then
              Err (New CodeInternal ("invalid inventory deduct log: order_id=" +:+ o))
            else
              let? rest := read_reservations rows' in Ok (item (i + 1) ReservationConfirmed :: rest)
        | None =>
            if status_eqb (lr_status l) ReservationConfirmed && finalDeductEnabled r then
              Err (New CodeInternal
                ("confirmed inventory reservation is missing deduct log: order_id=" +:+ o))
            else
              let? rest := read_reservations rows' in
              Ok (item (lr_shard_index l) (lr_status l) :: rest)
        end
  end.

Definition loadRecoveryReservations : M (list recoveryReservation) :=
  if bool_decide (mode_of r = ModeOff) then ret []
  else
    rows <- query recovery_rows "load inventory recovery reservations failed" ;;
    of_res (read_reservations rows).

(** Take the active reservations out of the buckets. *)
Fixpoint subtract_reserved (items : list recoveryReservation) (bs : gmap Z (list Z))
  (reserved : gmap Z Z) : res Error (gmap Z (list Z) * gmap Z Z) :=
  match items with
  | [] => Ok (bs, reserved)
  | it :: items' =>
      match bs !! rv_ProductID it with
      | None => Err (New CodeInternal
          ("inventory reservation references missing stock: order_id=" +:+ rv_OrderID it))
      | Some values =>
          if negb (status_eqb (rv_Status it) ReservationReserved)
          then subtract_reserved items' bs reserved
          else
            let bucketIdx := rv_ShardIndex it - 1 in
            if (rv_Quantity it <=? 0) || (bucketIdx <? 0) ||
               (Z.of_nat (length values) <=? bucketIdx) then
              Err (New CodeInternal ("invalid inventory reservation: order_id=" +:+ rv_OrderID it))
            else
              let v := default 0 (values !! Z.to_nat bucketIdx) in
              if v <? rv_Quantity it then
                Err (New CodeInternal ("inventory recovery underflow: order_id=" +:+ rv_OrderID it))
              else
                let p := rv_ProductID it in
                subtract_reserved items'
                  (<[p := <[Z.to_nat bucketIdx := v - rv_Quantity it]> values]> bs)
                  (<[p := default 0 (reserved !! p) + rv_Quantity it]> reserved)
      end
  end.

Definition restoreProductStock (productID : Z) (values : list Z) (reserved : Z) : M unit :=
  eval (restoreProductStockLuaScript (StockShardKeys productID (shardCount r))
          (reservedStockKey productID) values reserved)
    (internal "restore redis product stock failed") ;;; ret tt.

Definition restoreReservation (item : recoveryReservation) : M unit :=
  t <- get_now ;;
  let ttl :=
    if status_eqb (rv_Status item) ReservationReserved then
      let remaining := rv_ExpiresAt item - t in
      (if remaining <? 0 then 0 else remaining) + reservationExpirySeconds
    else confirmedReservationTTLSeconds in
  eval (restoreReservationLuaScript (reservationKey (rv_OrderID item))
          (status_text (rv_Status item)) (rv_ProductID item) (rv_Quantity item)
          (rv_ShardIndex item) (rv_OrderID item) ttl confirmedReservationTTLSeconds
          (rv_ExpiresAt item)) (internal "restore redis reservation failed") ;;; ret tt.

(** The products in the order of [order], Go's map order; the maps have the same
    products in any order. *)
Fixpoint restore_products (order : list (Z * list Z)) (reserved : gmap Z Z) : M unit :=
  match order with
  | [] => ret tt
  | (p, values) :: rest =>
      let res_ := default 0 (reserved !! p) in
      restoreProductStock p values res_ ;;;
      let available := sumZ id values in
      upsertStockSnapshot r (mkStock p available res_ (available + res_)) ;;;
      restore_products rest reserved
  end.

Definition count_status (st : ReservationStatus) (items : list recoveryReservation) : Z :=
  Z.of_nat (length (filter (fun it => rv_Status it = st) items)).

Definition RecoverRuntime : M RuntimeRecoveryReport :=
  if negb (has_db r) then ret (mkReport 0 0 0)
  else
    checkSchema ;;;
    bs <- loadRecoveryBuckets ;;
    items <- loadRecoveryReservations ;;
    '(bs', reserved) <- of_res (subtract_reserved items bs ∅) ;;
    eval (resetReservationRecoveryIndexesLuaScript
            [reservationExpiryIndexKey; reservationProcessingIndexKey])
      (internal "reset inventory recovery indexes failed") ;;;
    restore_products (map_to_list bs') reserved ;;;
    for_each restoreReservation items ;;;
    ret (mkReport (Z.of_nat (size bs'))
           (Z.of_nat (length items) - count_status ReservationConfirmed items)
           (count_status ReservationConfirmed items)).
End operations.

(** The repository behind the service's interface. *)
#[export] Instance redis_mysql_repository (r : RedisMySQLRepository)
  : StockRepository (env InventoryDB rstore) := {
  repo_CheckRuntime := CheckRuntime r;
  repo_RecoverRuntime := RecoverRuntime r;
  repo_GetStock := GetStock r;
  repo_BatchGetStock := BatchGetStock r;
  repo_SeedStock := SeedStock r;
  repo_AdjustStock := AdjustStock r;
  repo_ReserveStock := ReserveStock r;
  repo_ConfirmDeduct := ConfirmDeduct r;
  repo_ReleaseStock := ReleaseStock r;
  repo_ReleaseExpiredReservations := ReleaseExpiredReservations r;
  repo_ReservationStats := ReservationStats;
  repo_ReconcileStock := ReconcileStock r
}.
