(* ===== verification/RedisRepo.v ===== *)
(** The Redis/MySQL repository keeps the books of RedisStock.v: whatever orders
    are reserved, confirmed, released or reaped, and whatever calls to Redis and
    MySQL fail, no stock is lost or invented. *)

From stdpp Require Import sorting.
From S2P Require Import Prelude Effects Common Shards StockRepository PreDeduct RedisScripts.
From S2P Require Import RedisStock RedisBooks RedisMySQL.
Import apperror domain.

(** * Scripts that keep the books *)

Section safe.
Context (c hz t : Z).

Definition safe {A} (sc : script A) (Q : A -> Prop) : Prop :=
  forall s, books c hz s -> exists s' r, sc (at_ s t) = (at_ s' t, r) /\ keeps_books c hz s s' /\
    match r with Ok a => Q a | Err _ => True end.

Lemma safe_ret {A} (a : A) (Q : A -> Prop) : Q a -> safe (ret a) Q.
Proof. intros HQ s Hb. exists s, (Ok a). split; [done|]. split; [by apply keeps_books_refl|done]. Qed.

Lemma safe_throw {A} e (Q : A -> Prop) : safe (throw e) Q.
Proof. intros s Hb. exists s, (Err e). split; [done|]. split; [by apply keeps_books_refl|done]. Qed.

Lemma safe_bind {A B} (m : script A) (f : A -> script B) Q1 Q :
  safe m Q1 -> (forall a, Q1 a -> safe (f a) Q) -> safe (bind m f) Q.
Proof.
  intros Hm Hf s Hb. destruct (Hm s Hb) as (s1&[a|e]&Hrun&Hk&HQ).
  - rewrite (run_bind _ _ _ _ _ _ Hrun). destruct (Hf a HQ s1 (proj1 Hk)) as (s2&r&Hrun2&Hk2&HQ2).
    exists s2, r. split; [done|]. split; [by eapply keeps_books_trans|done].
  - exists s1, (Err e). unfold bind. by rewrite Hrun.
Qed.

(** A script that only reads. *)
Lemma safe_read {A} (sc : script A) :
  (forall s, books c hz s -> exists r, sc (at_ s t) = (at_ s t, r)) -> safe sc (fun _ => True).
Proof.
  intros Hr s Hb. destruct (Hr s Hb) as [r Hrun]. exists s, r.
  split; [done|]. split; [by apply keeps_books_refl|]. by destruct r.
Qed.

Lemma safe_weaken {A} (sc : script A) (Q Q' : A -> Prop) :
  (forall a, Q a -> Q' a) -> safe sc Q -> safe sc Q'.
Proof.
  intros HQ Hs s Hb. destruct (Hs s Hb) as (s'&r&Hrun&Hk&Hr). exists s', r.
  split; [done|]. split; [done|]. destruct r; auto.
Qed.

Lemma safe_for_each {A} (f : A -> script unit) l :
  (forall x, x ∈ l -> safe (f x) (fun _ => True)) -> safe (for_each f l) (fun _ => True).
Proof.
  induction l as [|x l IH]; intros Hf; simpl; [by apply safe_ret|].
  eapply safe_bind; [apply Hf; by left|]. intros _ _. apply IH. intros y Hy. apply Hf. by right.
Qed.

Lemma safe_ZREM k m : k ∈ index_keys -> safe (ZREM k m) (fun _ => True).
Proof.
  intros Hk s Hb. do 2 eexists. split; [apply ZREM_run, (bk_index _ _ _ Hb _ Hk)|].
  split; [by apply keeps_zdelete|done].
Qed.

Lemma safe_ZADD k x m : k ∈ index_keys -> order_ok m -> safe (ZADD k x m) (fun _ => True).
Proof.
  intros Hk Hm s Hb. do 2 eexists. split; [apply ZADD_run, (bk_index _ _ _ Hb _ Hk)|].
  split; [by apply keeps_zinsert|done].
Qed.

Lemma zrange_members now z m : m ∈ zrange_until now z -> is_Some (z !! m).
Proof.
  unfold zrange_until. intros [[m' v] [-> Hm]]%list_elem_of_fmap.
  rewrite (merge_sort_Permutation zle) in Hm.
  apply list_elem_of_filter in Hm as [_ Hm]. apply elem_of_map_to_list in Hm. by exists v.
Qed.

Lemma safe_ZRANGEBYSCORE k now :
  k ∈ index_keys -> safe (ZRANGEBYSCORE k now) (Forall order_ok).
Proof.
  intros Hk s Hb. unfold ZRANGEBYSCORE.
  rewrite (run_bind _ _ _ _ _ _ (zset_at_run _ _ _ (bk_index _ _ _ Hb _ Hk))).
  do 2 eexists. split; [reflexivity|]. split; [by apply keeps_books_refl|].
  apply Forall_forall. intros m Hm%zrange_members. by apply (bk_members _ _ _ Hb k).
Qed.

Lemma retry_run s :
  books c hz s -> exists h,
    hash_at reservationRetryCountKey (at_ s t) = (at_ s t, Ok (h, None)) /\
    forall f v, h !! f = Some v -> exists z, v = FNum z.
Proof.
  intros Hb. destruct (s !! reservationRetryCountKey) as [e|] eqn:He.
  - destruct (bk_retry _ _ _ Hb _ He) as (h&->&Hn). exists h. split; [by apply hash_at_forever|done].
  - exists ∅. split; [by apply hash_at_None|]. intros f v. by rewrite lookup_empty.
Qed.

Lemma retry_put_keeps h s :
  books c hz s -> (forall f v, h !! f = Some v -> exists z, v = FNum z) ->
  keeps_books c hz s (<[reservationRetryCountKey := (RHash h, None)]> s).
Proof.
  intros Hb Hh. apply keeps_retry; [exact (retry_put_books c hz h s Hb Hh)|].
  intros k Hk. by rewrite lookup_insert_ne by congruence.
Qed.

Lemma safe_HINCRBY f d : safe (HINCRBY reservationRetryCountKey f d) (fun _ => True).
Proof.
  intros s Hb. destruct (retry_run s Hb) as (h&Hrun&Hh). unfold HINCRBY.
  rewrite (run_bind _ _ _ _ _ _ Hrun).
  assert (forall n f0 v, <[f := FNum n]> h !! f0 = Some v -> exists z, v = FNum z) as Hn.
  { intros n f0 v. rewrite lookup_insert. case_decide; [intros [= <-]; eauto|apply Hh]. }
  destruct (h !! f) as [v|] eqn:Hf; [destruct (Hh _ _ Hf) as [z ->]|];
    do 2 eexists; (split; [reflexivity|]); (split; [|done]);
    (apply retry_put_keeps; [done|apply Hn]).
Qed.

Lemma safe_HDEL f : safe (HDEL reservationRetryCountKey f) (fun _ => True).
Proof.
  intros s Hb. destruct (retry_run s Hb) as (h&Hrun&Hh). unfold HDEL.
  rewrite (run_bind _ _ _ _ _ _ Hrun). case_decide.
  - do 2 eexists. split; [reflexivity|]. split; [|done].
    apply keeps_retry; [exact (retry_delete_books c hz s Hb)|].
    intros k Hk. unfold set_db. simpl. by rewrite lookup_delete_ne by congruence.
  - do 2 eexists. split; [reflexivity|]. split; [|done]. apply retry_put_keeps; [done|].
    intros f0 v [_ Hv]%lookup_delete_Some. eauto.
Qed.

Lemma index_elem :
  reservationExpiryIndexKey ∈ index_keys /\ reservationProcessingIndexKey ∈ index_keys /\
  reservationDeadLetterIndexKey ∈ index_keys.
Proof. split; [by left|]. split; [right; by left|right; right; by left]. Qed.

Lemma safe_move from to score m :
  from ∈ index_keys -> to ∈ index_keys -> order_ok m ->
  safe (move_member from to score m) (fun _ => True).
Proof.
  intros. eapply safe_bind; [by apply safe_ZREM|]. intros _ _. by apply safe_ZADD.
Qed.

Lemma Forall_limited {A} (P : A -> Prop) limit (l : list A) :
  Forall P l -> Forall P (if limit <? 0 then l else take (Z.to_nat limit) l).
Proof. intros. destruct (limit <? 0); [done|by apply Forall_take]. Qed.

Lemma safe_claim now limit timeout :
  safe (claimExpiredReservationsLuaScript now limit timeout) (Forall order_ok).
Proof.
  destruct index_elem as (He&Hp&_). unfold claimExpiredReservationsLuaScript.
  eapply safe_bind; [by apply safe_ZRANGEBYSCORE|]. intros abandoned Ha.
  eapply safe_bind.
  { apply safe_for_each. intros m Hm. apply safe_move; [done..|]. by eapply Forall_forall in Ha. }
  intros _ _. eapply safe_bind; [by apply safe_ZRANGEBYSCORE|]. intros due Hd.
  assert (Forall order_ok (limited limit due)) as Hl by (by apply Forall_limited).
  eapply safe_bind.
  { apply safe_for_each. intros m Hm. apply safe_move; [done..|]. by eapply Forall_forall in Hl. }
  intros _ _. by apply safe_ret.
Qed.

Lemma safe_complete o : safe (completeExpiredReservationLuaScript o) (fun _ => True).
Proof.
  destruct index_elem as (_&Hp&_). eapply safe_bind; [by apply safe_ZREM|]. intros _ _.
  eapply safe_bind; [apply safe_HDEL|]. intros _ _. by apply safe_ret.
Qed.

Lemma safe_retry o now delay m : order_ok o ->
  safe (retryExpiredReservationLuaScript o now delay m) (fun _ => True).
Proof.
  intros Ho. destruct index_elem as (He&Hp&Hd). eapply safe_bind; [apply safe_HINCRBY|]. intros n _.
  eapply safe_bind; [by apply safe_ZREM|]. intros _ _.
  eapply safe_bind; [|intros _ _; by apply safe_ret].
  destruct (m <=? n); by apply safe_ZADD.
Qed.

(** ** Reads *)

Lemma reads_ret {A} (a : A) s : exists r, ret (D := rstore) (X := unit) (E := string) a (at_ s t) = (at_ s t, r).
Proof. by eexists. Qed.

Definition reads {A} (sc : script A) : Prop := forall s, exists r, sc (at_ s t) = (at_ s t, r).

Lemma reads_bind {A B} (m : script A) (f : A -> script B) :
  reads m -> (forall a, reads (f a)) -> reads (bind m f).
Proof.
  intros Hm Hf s. destruct (Hm s) as [[a|e] Hrun]; unfold bind; rewrite Hrun; [apply Hf|by eexists].
Qed.
Lemma reads_of {A} (a : A) : reads (ret a).
Proof. intros s. by eexists. Qed.
Lemma reads_throw {A} e : reads (throw (A := A) e).
Proof. intros s. by eexists. Qed.
Lemma reads_entry k : reads (entry k).
Proof. intros s. by eexists. Qed.

Ltac reads_step :=
  match goal with
  | |- reads (bind _ _) => apply reads_bind; [|intros ?]
  | |- reads (ret _) => apply reads_of
  | |- reads (throw _) => apply reads_throw
  | |- reads (entry _) => apply reads_entry
  | |- reads (match ?x with _ => _ end) => destruct x
  | |- reads (let '_ := ?x in _) => destruct x
  end.
Ltac reads := repeat reads_step.

Lemma reads_GET k : reads (GET k).
Proof. unfold GET. reads. Qed.
Lemma reads_HGET k f : reads (HGET k f).
Proof. unfold HGET, hash_at. reads. Qed.
Lemma reads_zset k : reads (zset_at k).
Proof. unfold zset_at. reads. Qed.

Lemma reads_sum ks b z : reads (sumStockLuaScript ks b z).
Proof. revert b z. induction ks; intros; simpl; reads; auto using reads_GET. Qed.
Lemma reads_reserved k : reads (getReservedStockLuaScript k).
Proof. unfold getReservedStockLuaScript. reads. apply reads_GET. Qed.
Lemma reads_batch l : reads (batchStockLuaScript l).
Proof.
  induction l as [|[[p ks] k] l IH]; simpl; [reads|].
  reads; auto using reads_sum, reads_reserved.
Qed.
Lemma reads_reservation k : reads (getReservationLuaScript k).
Proof. unfold getReservationLuaScript. reads; apply reads_HGET. Qed.
Lemma reads_stats now : reads (reservationStatsLuaScript now).
Proof. unfold reservationStatsLuaScript, ZCARD, ZCOUNT. reads; apply reads_zset. Qed.

Lemma safe_reads {A} (sc : script A) : reads sc -> safe sc (fun _ => True).
Proof. intros Hr. apply safe_read. intros s _. apply Hr. Qed.
End safe.

(** * The repository *)

Section repository.
Context (r : RedisMySQLRepository) (hz : Z) (U : Z -> Z).
Context (Hsc : NormalizeShardCount (shardCount r) = shardCount r).
Abbreviation c := (shardCount r).

(** The books balance, no reservation has expired, and every row of the ledger
    has its reservation in Redis. *)
Definition sound (d : InventoryDB) (x : rstore) (t : Z) : Prop :=
  books c hz x /\ (forall p, all_units c p x = U p) /\
  (forall o l, ledger d !! o = Some l -> order_ok o /\ is_Some (x !! reservationKey o)) /\
  t < hz <= t + reservationKeyTTLSeconds.

(** With a fact about Redis, and with the ledger fixed as well. *)
Definition sound_and (F : rstore -> Prop) : env InventoryDB rstore -> Prop :=
  on_state (fun d x t => sound d x t /\ F x).
Definition fixed (L : gmap string ledger_row) (F : rstore -> Prop)
  : env InventoryDB rstore -> Prop :=
  on_state (fun d x t => (sound d x t /\ F x) /\ ledger d = L).

Definition always (_ : rstore) : Prop := True.
Definition reserved_by (o : string) (x : rstore) : Prop := is_Some (x !! reservationKey o).

Lemma fixed_maintains {A} F (m : M A) :
  (forall L, maintains (fixed L F) m) -> maintains (sound_and F) m.
Proof.
  intros Hm s Hs. specialize (Hm (ledger (db s)) s (conj Hs eq_refl)).
  destruct (m s) as [s' []]; simpl in *; by destruct Hm.
Qed.

Lemma sound_weaken F F' s : (forall x, F x -> F' x) -> sound_and F s -> sound_and F' s.
Proof. intros HF [Hs Hf]. split; auto. Qed.

Lemma sound_always F s : sound_and F s -> sound_and always s.
Proof. by apply sound_weaken. Qed.

Lemma eval_triple {A} (sc : script A) wrap (P : InventoryDB -> rstore -> Z -> Prop)
  (Q : A -> InventoryDB -> rstore -> Z -> Prop) R :
  (forall d x t, P d x t -> exists x' rr, sc (at_ x t) = (at_ x' t, rr) /\
     match rr with Ok a => Q a d x' t | Err _ => True end /\ R d x' t /\ R d x t) ->
  triple (on_state P) (eval sc wrap) (fun a => on_state (Q a)) (on_state R).
Proof.
  intros Hsc' [d x t fs] Hs. unfold eval, bind, get_now. cbn [now].
  pose proof (triple_call (fun d x t' => P d x t' /\ t' = t)
    (fun x => let '(x', r0) := run_script sc t x in
              (x', match r0 with Ok a => Ok a | Err e => Err (wrap e) end)) (wrap lost)
    Q R) as Hc.
  specialize (Hc ltac:(intros d0 x0 t0 [HP ->]; destruct (Hsc' _ _ _ HP) as (x'&rr&Hrun&HQ&HR&HR0);
    unfold run_script; rewrite Hrun; simpl; destruct rr; auto)).
  apply Hc. by split.
Qed.

(** A script that keeps the books. *)
Lemma eval_safe {A} (sc : script A) wrap Q F (F' : A -> rstore -> Prop) :
  (forall t, t < hz -> hz <= t + reservationKeyTTLSeconds -> safe c hz t sc Q) ->
  (forall a x, Q a -> F' a x) ->
  triple (sound_and F) (eval sc wrap) (fun a => sound_and (F' a)) (sound_and always).
Proof.
  intros Hs HF. apply eval_triple. intros d x t [Hs0 _].
  pose proof Hs0 as (Hb&HU&Hl&Ht1&Ht2).
  destruct (Hs t Ht1 Ht2 x Hb) as (x'&rr&Hrun&(Hb'&HU'&Hp)&HQ). exists x', rr. split; [done|].
  assert (sound d x' t) as Hs'.
  { split; [done|]. split; [intros p; by rewrite HU'|]. split; [|done].
    intros o l Ho. destruct (Hl o l Ho). auto. }
  split; [destruct rr; [split; auto|done]|]. split; (split; [done|exact I]).
Qed.

Lemma eval_read {A} (sc : script A) wrap L F :
  (forall t, reads t sc) -> maintains (fixed L F) (eval sc wrap).
Proof.
  intros Hr. apply eval_triple. intros d x t HP. destruct (Hr t x) as [rr Hrun].
  exists x, rr. split; [done|]. by destruct rr.
Qed.

(** Statements that leave the ledger alone. *)
Lemma fixed_ext L F d d' x t :
  ledger d' = ledger d -> (sound d x t /\ F x) /\ ledger d = L ->
  (sound d' x t /\ F x) /\ ledger d' = L.
Proof. intros Hl [[(Hb&HU&Hld&Ht) HF] HL]. unfold sound. rewrite Hl. done. Qed.

Lemma fixed_sql {A} L F (op : InventoryDB -> InventoryDB * A) (e : Error) :
  (forall d, ledger (op d).1 = ledger d) -> maintains (fixed L F) (sql op e).
Proof. intros Hop. apply maintains_sql. intros d x t. apply fixed_ext, Hop. Qed.

Lemma fixed_query {A} L F (f : InventoryDB -> A) e : maintains (fixed L F) (RedisMySQL.query f e).
Proof. by apply fixed_sql. Qed.

Lemma fixed_exec {A} L F (op : InventoryDB -> option (InventoryDB * A)) e :
  (forall d d' a, op d = Some (d', a) -> ledger d' = ledger d) ->
  maintains (fixed L F) (exec op e).
Proof.
  intros Hop. unfold exec. maintain. apply fixed_sql. intros d.
  destruct (op d) as [[d' a]|] eqn:Hd; [|done]. by apply (Hop d d' a).
Qed.

Lemma fixed_tx {A} L F eb (body : M (txend Error A)) :
  maintains (fixed L F) body -> maintains (fixed L F) (run_tx eb body).
Proof.
  apply maintains_run_tx. intros d x t d' x' t' [_ HL] [[(Hb&HU&Hld&Ht) HF] HL'].
  unfold sound. rewrite HL. by rewrite HL' in Hld.
Qed.

(** ** Pieces *)

Ltac fixed := maintain; first
  [ apply fixed_query | apply fixed_tx | apply eval_read; intros ?
  | apply fixed_exec; intros ??? | apply fixed_sql; intros ? | idtac ].

Lemma upsert_bucket_ledger p i v f d d' a :
  upsert_bucket p i v f d = Some (d', a) -> ledger d' = ledger d.
Proof. unfold upsert_bucket. intros H. repeat split_test_in H; by simplify_eq. Qed.

Lemma update_bucket_ledger p i v d d' a :
  update_bucket p i v d = Some (d', a) -> ledger d' = ledger d.
Proof. unfold update_bucket. intros H. repeat split_test_in H; by simplify_eq. Qed.

Lemma insert_stock_log_ledger row d : ledger (insert_stock_log row d).1 = ledger d.
Proof. unfold insert_stock_log. by case_decide. Qed.

Lemma fixed_GetStock L F p : maintains (fixed L F) (GetStock r p).
Proof.
  unfold GetStock, redisAvailable, redisReserved, mysqlBucketTotal, mysqlBucketTotalTx. fixed.
  - apply reads_sum.
  - apply reads_reserved.
Qed.

Lemma fixed_stock_or_zero L F p : maintains (fixed L F) (RedisMySQL.stock_or_zero r p).
Proof. unfold RedisMySQL.stock_or_zero, value_or. maintain. apply fixed_GetStock. Qed.

Lemma fixed_record_change L F ty p o d b m : maintains (fixed L F) (record_change r ty p o d b m).
Proof.
  unfold record_change, insertStockChangeLog, upsertStockSnapshot. fixed; [|done|done].
  apply fixed_stock_or_zero.
Qed.

Lemma fixed_evalReservation L F o wrap : maintains (fixed L F) (evalReservation o wrap).
Proof. apply eval_read. intros t. apply reads_reservation. Qed.

Lemma fixed_confirmMySQLDeduct L F o p q : maintains (fixed L F) (confirmMySQLDeduct r o p q).
Proof.
  unfold confirmMySQLDeduct. apply fixed_tx. unfold confirm_body, stockDeductLogExists,
    lockDeductibleStockBucket. fixed.
  - apply insert_stock_log_ledger.
  - intros H. repeat split_test_in H; simplify_eq; try done. by eapply update_bucket_ledger.
Qed.

Lemma fixed_releaseMySQLDeduct L F o p q : maintains (fixed L F) (releaseMySQLDeduct o p q).
Proof.
  unfold releaseMySQLDeduct. apply fixed_tx. unfold release_body, stockDeductBucketFromLog. fixed.
  - apply insert_stock_log_ledger.
  - apply upsert_bucket_ledger.
Qed.

(** ** The ledger *)

Lemma maintains_shadowed {A} (P : env InventoryDB rstore -> Prop) (zero : A) (m : M A) :
  maintains P m -> maintains P (shadowed r zero m).
Proof. intros Hm. unfold shadowed. by maintain. Qed.

Lemma sound_transition F o target allowed :
  maintains (sound_and F) (transitionReservationLedger r o target allowed).
Proof.
  unfold transitionReservationLedger. maintain. apply maintains_shadowed, maintains_sql.
  intros d x t [(Hb&HU&Hl&Ht) HF]. split; [|done]. split; [done|]. split; [done|]. split; [|done].
  intros o' l'. unfold transition_ledger. simpl. destruct (ledger d !! o) as [l|] eqn:Ho; [|apply Hl].
  destruct (bool_decide (lr_status l ∈ allowed)); [|apply Hl]. simpl.
  intros [[<- _]|[_ H']]%lookup_insert_Some; [by apply (Hl o l)|by apply (Hl o' l')].
Qed.

Lemma sound_recordReservation o rec :
  rec_OrderID rec = o -> order_ok o ->
  maintains (sound_and (reserved_by o)) (recordReservation r rec).
Proof.
  intros <- Ho. apply maintains_shadowed. unfold insertReservationLedger. maintain.
  - apply maintains_sql. intros d x t [(Hb&HU&Hl&Ht) HF]. split; [|done].
    split; [done|]. split; [done|]. split; [|done]. intros o' l'. unfold insert_ledger.
    destruct (ledger d !! rec_OrderID rec) eqn:He; [apply Hl|]. simpl.
    intros [[<- _]|[_ H']]%lookup_insert_Some; [done|by apply (Hl o' l')].
  - apply fixed_maintains. intros L. apply fixed_query.
Qed.

(** ** Reserving *)

Lemma safe_reserve o p q t :
  order_ok o -> 0 < p -> 0 < q -> t < hz -> hz <= t + reservationKeyTTLSeconds ->
  forall s, books c hz s -> exists s' v,
    reserveStockLuaScript (stock_keys r p o)
      (mkReserveArgs q reservationKeyTTLSeconds c (StockShardStartIndex o c) p o
         reservationExpirySeconds) (at_ s t) = (at_ s' t, Ok v) /\
    keeps_books c hz s s' /\ (v = 1 -> reserved_by o s').
Proof.
  intros Ho Hp Hq Ht1 Ht2 s Hb.
  destruct (reserve_run c hz t Ht1 s Hb o Ho p q reservationKeyTTLSeconds reservationExpirySeconds
              (StockShardStartIndex o c) Hp Hq eq_refl Ht2) as (s'&v&Hrun&Hout).
  unfold args in Hrun. rewrite Hsc in Hrun. exists s', v. split; [exact Hrun|].
  split; [exact (reserve_outcome_books c hz t s Hb o Ho p q _ _ Hp Hq Ht2 s' v Hout)|]. unfold reserved_by.
  intros Hv. exact (reserve_outcome_reserved c t s o Ho p q _ _ s' v Hout Hv).
Qed.

Lemma reserved_by_fixed {A} F (m : M A) :
  (forall L, maintains (fixed L F) m) -> triple (sound_and F) m (fun _ => sound_and F) (sound_and always).
Proof.
  intros Hm. eapply triple_weaken; [..|by apply fixed_maintains]; auto.
  intros s. by apply sound_weaken.
Qed.

Lemma to_always {A} F (m : M A) :
  maintains (sound_and F) m -> triple (sound_and F) m (fun _ => sound_and always) (sound_and always).
Proof.
  intros Hm. eapply triple_weaken; [..|exact Hm]; [done|intros ? s; apply sound_always|intros s; apply sound_always].
Qed.

Lemma maintains_ReserveStock o p q m :
  order_ok o -> 0 < p -> 0 < q -> maintains (sound_and always) (ReserveStock r o p q m).
Proof.
  intros Ho Hp Hq. unfold ReserveStock.
  apply maintains_bind; [apply fixed_maintains; intros L; apply fixed_stock_or_zero|]. intros before.
  eapply triple_bind with (Q1 := fun v => sound_and (fun x => v = 1 -> reserved_by o x)).
  { apply eval_triple. intros d x t [Hs _]. pose proof Hs as (Hb&HU&Hl&Ht1&Ht2).
    destruct (safe_reserve o p q t Ho Hp Hq Ht1 Ht2 x Hb) as (x'&v&Hrun&(Hb'&HU'&Hpe)&Hv).
    exists x', (Ok v). split; [exact Hrun|].
    assert (sound d x' t) as Hs'.
    { split; [done|]. split; [intros p'; by rewrite HU'|]. split; [|done].
      intros o' l' Ho'. destruct (Hl o' l' Ho'). auto. }
    split; [done|]. by split; (split; [done|exact I]). }
  intros v. destruct (v =? 1) eqn:Hv.
  - bools. subst v.
    apply triple_pre with (P' := sound_and (reserved_by o)); [intros s; apply sound_weaken; auto|].
    apply to_always. apply maintains_bind; [apply fixed_maintains; intros L; apply fixed_evalReservation|].
    intros [[? ?] idx]. maintain; [by apply sound_recordReservation|].
    apply fixed_maintains; intros L; apply fixed_record_change.
  - apply to_always. by maintain.
Qed.

(** ** Confirming *)

Lemma books_sound F x x' t d :
  sound d x t /\ F x -> keeps_books c hz x x' -> sound d x' t.
Proof.
  intros [(Hb&HU&Hl&Ht) _] (Hb'&HU'&Hp). split; [done|].
  split; [intros p; by rewrite HU'|]. split; [|done].
  intros o l Ho. destruct (Hl o l Ho). auto.
Qed.

(** What Redis holds of a sound order. *)
Lemma books_reservation x o :
  books c hz x -> order_ok o ->
  x !! reservationKey o = None \/
  exists h e st p q i, x !! reservationKey o = Some (RHash h, Some e) /\ hz <= e /\
    reservation_hash c h o st p q i.
Proof.
  intros Hb Ho. destruct (x !! reservationKey o) as [e|] eqn:He; [right|by left].
  destruct (bk_reservation _ _ _ Hb o e Ho He) as (h&y&st&p&q&i&->&Hy&Hr).
  rewrite Hsc in Hr. eauto 10.
Qed.

Lemma confirm_eval o fin wrap :
  order_ok o ->
  triple (sound_and always)
    (eval (confirmDeductLuaScript (reservationKey o) reservationExpiryIndexKey o
             confirmedReservationTTLSeconds fin) wrap)
    (fun v => sound_and (fun x => v = 2 -> reserved_by o x)) (sound_and always).
Proof.
  intros Ho. apply eval_triple. intros d x t Hs. pose proof Hs as [(Hb&_&_&Ht1&Ht2) _].
  destruct (books_reservation x o Hb Ho) as [Hn|(h&e&st&p&q&i&He&Hx&Hr)].
  - exists x, (Ok 1). split; [|by split; [split; [apply Hs|]|]].
    unfold confirmDeductLuaScript. by rewrite (run_bind _ _ _ _ _ _ (HGET_None _ _ x t Hn)).
  - rewrite <- Hsc in Hr.
    assert (hz <= t + confirmedReservationTTLSeconds) as Ht3
      by (unfold confirmedReservationTTLSeconds, reservationKeyTTLSeconds in *; lia).
    pose proof (confirm_run c hz t Ht1 x Hb o Ho confirmedReservationTTLSeconds eq_refl Ht3
      h e st p q i He Hx Hr fin) as Hrun.
    destruct (decide (st = released_s)) as [Hst|Hst].
    + exists x, (Ok 1). split; [exact Hrun|]. by split; [split; [apply Hs|]|].
    + do 2 eexists. split; [exact Hrun|].
      assert (sound d (confirmed_store t x o confirmedReservationTTLSeconds h st p q) t) as Hs'.
      { eapply books_sound; [exact Hs|]. apply unindexed_books.
        by apply (confirmed_edit_books c hz t x Hb o Ho _ Ht3 h e st p q i). }
      split; [|by split; [split|]]. split; [done|]. intros _. unfold reserved_by, confirmed_store.
      rewrite lookup_unindexed by (intros H; destruct (order_ok_index o Ho) as [Hni _];
        apply Hni; rewrite H; apply expiry_in).
      unfold edit. rewrite lookup_insert_eq. by eexists.
Qed.

Lemma mark_eval o wrap :
  order_ok o ->
  maintains (sound_and (reserved_by o))
    (eval (markMySQLDeductedLuaScript (reservationKey o) confirmedReservationTTLSeconds) wrap).
Proof.
  intros Ho. apply eval_triple. intros d x t Hs. pose proof Hs as [(Hb&_&_&Ht1&Ht2) [e0 He0]].
  destruct (books_reservation x o Hb Ho) as [Hn|(h&e&st&p&q&i&He&Hx&Hr)]; [congruence|].
  rewrite <- Hsc in Hr.
  assert (hz <= t + confirmedReservationTTLSeconds) as Ht3
    by (unfold confirmedReservationTTLSeconds, reservationKeyTTLSeconds in *; lia).
  destruct (mark_run c hz t Ht1 x Hb o Ho confirmedReservationTTLSeconds eq_refl Ht3
    h e st p q i He Hx Hr) as [Hrun Hk].
  do 2 eexists. split; [exact Hrun|]. pose proof (books_sound _ _ _ _ _ Hs Hk) as Hs'.
  assert (reserved_by o (<[reservationKey o := (RHash (<["mysql_deducted":=FNum 1]> h),
            Some (t + confirmedReservationTTLSeconds))]> x)) as Hby
    by (unfold reserved_by; rewrite lookup_insert_eq; by eexists).
  by split; [|split].
Qed.

Lemma maintains_value_or {A} (P : env InventoryDB rstore -> Prop) (zero : A) (m : M A) :
  maintains P m -> maintains P (value_or zero m).
Proof. intros Hm. unfold value_or. by maintain. Qed.

Lemma maintains_ConfirmDeduct o m :
  order_ok o -> maintains (sound_and always) (ConfirmDeduct r o m).
Proof.
  intros Ho. unfold ConfirmDeduct.
  eapply triple_bind with (Q1 := fun v => sound_and (fun x => v.2 = 2 -> reserved_by o x)).
  { unfold confirm_head.
    apply triple_bind with (Q1 := fun _ => sound_and always);
      [apply maintains_value_or, fixed_maintains; intros L; apply fixed_evalReservation|].
    intros [[p q] idx]. apply triple_bind with (Q1 := fun _ => sound_and always).
    { destruct (0 <? p); [apply fixed_maintains; intros L; apply fixed_stock_or_zero|].
      apply (maintains_ret (sound_and always)). }
    intros before. eapply triple_bind; [by apply confirm_eval|]. intros v. by apply triple_ret. }
  intros [[[p q] before] v]. cbn [snd]. unfold confirm_tail. destruct (v =? 2) eqn:Hv.
  - bools. subst v.
    apply triple_pre with (P' := sound_and (reserved_by o)); [intros s; apply sound_weaken; auto|].
    apply to_always. maintain; try by apply sound_transition.
    + apply fixed_maintains; intros L; apply fixed_confirmMySQLDeduct.
    + by apply mark_eval.
    + apply fixed_maintains; intros L; apply fixed_record_change.
  - simpl. apply triple_pre with (P' := sound_and always); [intros s; apply sound_always|].
    cbn [andb orb]. apply to_always. maintain; try by apply sound_transition.
    apply fixed_maintains; intros L; apply fixed_record_change.
Qed.

(** ** Releasing *)

(** The reservation of [o] is for [q] units of [p], or there is none. *)
Definition holds_for (o : string) (p q : Z) (x : rstore) : Prop :=
  exists h e st i, x !! reservationKey o = Some (RHash h, Some e) /\ hz <= e /\
    reservation_hash c h o st p q i.

Lemma read_reservation o wrap :
  order_ok o ->
  triple (sound_and always) (evalReservation o wrap)
    (fun v => sound_and (fun x =>
       (x !! reservationKey o = None /\ v = (0, 0, 0)) \/ holds_for o v.1.1 v.1.2 x))
    (sound_and always).
Proof.
  intros Ho. apply eval_triple. intros d x t Hs. pose proof Hs as [(Hb&_&_&Ht1&Ht2) _].
  destruct (books_reservation x o Hb Ho) as [Hn|(h&e&st&p&q&i&He&Hx&Hr)].
  - exists x, (Ok (0, 0, 0)). split; [|by split; [split; [apply Hs|left]|]].
    unfold getReservationLuaScript.
    by rewrite !(run_bind _ _ _ _ _ _ (HGET_None _ _ x t Hn)).
  - exists x, (Ok (p, q, i)). split; [|split; [split; [apply Hs|right]|done]].
    + rewrite <- Hsc in Hr. by apply (getReservation_run c hz t Ht1 x o h e st p q i).
    + exists h, e, st, i. done.
Qed.

Lemma release_eval o p q wrap :
  order_ok o ->
  triple (sound_and (holds_for o p q))
    (eval (releaseStockLuaScript (stock_keys r p o) confirmedReservationTTLSeconds c) wrap)
    (fun _ => sound_and always) (sound_and always).
Proof.
  intros Ho. apply eval_triple. intros d x t Hs.
  pose proof Hs as [(Hb&_&_&Ht1&Ht2) (h&e&st&i&He&Hx&Hr)]. rewrite <- Hsc in Hr.
  assert (hz <= t + confirmedReservationTTLSeconds) as Ht3
    by (unfold confirmedReservationTTLSeconds, reservationKeyTTLSeconds in *; lia).
  pose proof (release_run c hz t Ht1 x Hb o Ho confirmedReservationTTLSeconds eq_refl
    h e st p q i He Hx Hr) as Hrun. rewrite Hsc in Hrun.
  assert (sound d x t) as Hs0 by apply Hs.
  destruct (decide (st = released_s)) as [Hst|Hst]; do 2 eexists; (split; [exact Hrun|]).
  - by split; [|split].
  - assert (sound d (released_store t x o confirmedReservationTTLSeconds h st p q i) t) as Hs'.
    { eapply books_sound; [exact Hs|]. apply unindexed_books.
      by apply (released_edit_books c hz t x Hb o Ho _ Ht3 h e st p q i). }
    by split; [|split].
Qed.

Lemma maintains_release_known o p q m :
  order_ok o ->
  triple (sound_and (holds_for o p q)) (release_known r o p q m) (fun _ => sound_and always)
    (sound_and always).
Proof.
  intros Ho. unfold release_known.
  eapply triple_bind; [apply reserved_by_fixed; intros L; apply fixed_stock_or_zero|]. intros before.
  eapply triple_bind with (Q1 := fun _ => sound_and (holds_for o p q)).
  { destruct (finalDeductEnabled r && has_db r).
    - apply reserved_by_fixed; intros L; apply fixed_releaseMySQLDeduct.
    - by apply triple_ret. }
  intros ?. eapply triple_bind; [by apply release_eval|]. intros ?.
  apply maintains_bind; [apply sound_transition|]. intros ?.
  apply fixed_maintains; intros L; apply fixed_record_change.
Qed.

Lemma load_absent o :
  triple (sound_and (fun x => x !! reservationKey o = None)) (loadReservationLedger r o)
    (fun v => sound_and (fun _ => v = None)) (sound_and always).
Proof.
  unfold loadReservationLedger. destruct (ledger_off r || is_empty o).
  { apply triple_ret. by intros s [Hs _]. }
  unfold shadowed. eapply triple_bind.
  { apply triple_attempt. apply (triple_sql _ _ _ (fun v d x t => sound d x t /\ v = None)
      (fun d x t => sound d x t /\ always x)).
    intros d x t [Hs Hn]. split; [|by split; (split; [apply Hs|exact I])]. split; [apply Hs|]. simpl.
    destruct (ledger d !! o) as [l|] eqn:Hl; [|done]. destruct Hs as (_&_&Hld&_).
    destruct (Hld o l Hl) as [_ [e He]]. congruence. }
  intros [v|e]; simpl.
  - apply triple_ret. by intros s [Hs ->].
  - destruct (bool_decide (mode_of r = ModeShadow)); [apply triple_ret|apply triple_throw; done].
    intros s [Hs _]. done.
Qed.

Lemma maintains_ReleaseStock o m :
  order_ok o -> maintains (sound_and always) (ReleaseStock r o m).
Proof.
  intros Ho. unfold ReleaseStock. eapply triple_bind; [by apply read_reservation|].
  intros [[p q] idx]. cbn [fst snd].
  destruct ((p <=? 0) || (q <=? 0)) eqn:Hpq.
  - apply triple_pre with (P' := sound_and (fun x => x !! reservationKey o = None)).
    { intros s [Hs [[Hn _]|(h&e&st&i&_&_&Hr)]]; [done|]. exfalso.
      pose proof (rh_positive _ _ _ _ _ _ _ Hr). pose proof (rh_product_pos _ _ _ _ _ _ _ Hr).
      apply orb_true_iff in Hpq as [?|?]; bools; lia. }
    eapply triple_bind; [apply load_absent|]. intros [rec|].
    + intros s [_ [=]].
    + apply triple_ret. by intros s [Hs _].
  - apply triple_pre with (P' := sound_and (holds_for o p q)); [|by apply maintains_release_known].
    intros s [Hs [[_ [= -> -> _]]|Hh]]; [done|done].
Qed.

(** ** The reaper and the reads *)

Lemma release_claimed_maintains l m processed first :
  Forall order_ok l ->
  maintains (sound_and always) (release_claimed r l m processed first).
Proof.
  intros Hl. revert processed first. induction Hl as [|o l Ho Hl IH]; intros processed first;
    simpl; [apply maintains_ret|].
  apply maintains_bind; [by apply maintains_attempt, maintains_ReleaseStock|]. intros [[]|e].
  - apply maintains_bind; [apply maintains_attempt|intros ?; apply IH].
    apply (eval_safe _ _ (fun _ => True)); [|done]. intros t Ht1 Ht2. apply safe_complete.
  - apply maintains_bind; [apply maintains_get_now|]. intros t0.
    apply maintains_bind; [apply maintains_ignore|intros ?; apply IH].
    apply (eval_safe _ _ (fun _ => True)); [|done]. intros t Ht1 Ht2. by apply safe_retry.
Qed.

Lemma maintains_ReleaseExpired limit m :
  maintains (sound_and always) (ReleaseExpiredReservations r limit m).
Proof.
  unfold ReleaseExpiredReservations. apply maintains_bind; [maintain|]. intros now.
  eapply triple_bind.
  { apply (eval_safe _ _ (Forall order_ok) _ (fun l _ => Forall order_ok l)); [|done].
    intros t _ _. apply safe_claim. }
  intros l s [Hs Hl].
  refine (maintains_bind _ _ _ (release_claimed_maintains l m 0 None Hl) _ s (conj Hs I)).
  intros [processed [e|]]; maintain.
Qed.

Lemma maintains_mysql_stocks L F ps found : maintains (fixed L F) (mysql_stocks r ps found).
Proof.
  induction ps as [|p ps IH]; simpl; [maintain|]. case_decide; [done|].
  unfold mysqlBucketTotal, mysqlBucketTotalTx. fixed. apply IH.
Qed.

Lemma maintains_reads :
  (forall p, maintains (sound_and always) (GetStock r p)) /\
  (forall ps, maintains (sound_and always) (BatchGetStock r ps)) /\
  maintains (sound_and always) RedisMySQL.ReservationStats /\
  maintains (sound_and always) (CheckRuntime r).
Proof.
  repeat split; intros; apply fixed_maintains; intros L.
  - apply fixed_GetStock.
  - unfold BatchGetStock, redisBatchStocks. destruct ps as [|p ps]; [maintain|].
    destruct (uniquePositiveProductIDs (p :: ps) ∅); fixed; [apply reads_batch|apply maintains_mysql_stocks].
  - unfold RedisMySQL.ReservationStats. fixed. apply reads_stats.
  - unfold CheckRuntime, checkSchema. fixed. apply reads_of.
Qed.
End repository.

(** * Runs *)

(** A call on the repository, with what the service checked before it. *)
Inductive stock_op :=
| OpReserve (orderID : string) (productID quantity : Z) (meta : StockChangeMeta)
| OpConfirm (orderID : string) (meta : StockChangeMeta)
| OpRelease (orderID : string) (meta : StockChangeMeta)
| OpReap (limit : Z) (meta : StockChangeMeta)
| OpGet (productID : Z)
| OpBatchGet (productIDs : list Z)
| OpStats
| OpCheck.

Definition op_ok (op : stock_op) : Prop :=
  match op with
  | OpReserve o p q _ => order_ok o /\ 0 < p /\ 0 < q
  | OpConfirm o _ | OpRelease o _ => order_ok o
  | _ => True
  end.

Definition run_op (r : RedisMySQLRepository) (op : stock_op) : M unit :=
  match op with
  | OpReserve o p q m => ReserveStock r o p q m
  | OpConfirm o m => ConfirmDeduct r o m
  | OpRelease o m => ReleaseStock r o m
  | OpReap limit m => ignore (ReleaseExpiredReservations r limit m)
  | OpGet p => ignore (GetStock r p)
  | OpBatchGet ps => ignore (BatchGetStock r ps)
  | OpStats => ignore RedisMySQL.ReservationStats
  | OpCheck => CheckRuntime r
  end.

(** The calls, each at its time. *)
Definition at_time (t : Z) (s : env InventoryDB rstore) : env InventoryDB rstore :=
  mkEnv (db s) (ext s) t (faults s).

Definition run_ops (r : RedisMySQLRepository) (ops : list (Z * stock_op))
  (s : env InventoryDB rstore) : env InventoryDB rstore :=
  foldl (fun s op => (run_op r op.2 (at_time op.1 s)).1) s ops.

(** The times at which reservations made before are still there. *)
Definition in_time (hz : Z) (op : Z * stock_op) : Prop :=
  op.1 < hz <= op.1 + reservationKeyTTLSeconds.

(** Every row of the ledger has its reservation in Redis. *)
Definition ledger_in_redis (s : env InventoryDB rstore) : Prop :=
  forall o l, ledger (db s) !! o = Some l -> order_ok o /\ is_Some (ext s !! reservationKey o).

Lemma maintains_state {A} P (m : M A) s : maintains P m -> P s -> P (m s).1.
Proof. intros Hm Hs. specialize (Hm s Hs). by destruct (m s) as [s' []]. Qed.

Lemma maintains_op r hz U op :
  NormalizeShardCount (shardCount r) = shardCount r -> op_ok op ->
  maintains (sound_and r hz U always) (run_op r op).
Proof.
  intros Hsc Hop. destruct (maintains_reads r hz U) as (Hg&Hb&Hs&Hc).
  destruct op; simpl in *; try (apply maintains_ignore); try done.
  - apply maintains_ReserveStock; tauto.
  - by apply maintains_ConfirmDeduct.
  - by apply maintains_ReleaseStock.
  - by apply maintains_ReleaseExpired.
Qed.


(** ** A seeded repository *)

Lemma seeded_books c hz s :
  (forall k e, s !! k = Some e ->
     (exists p i z, k = stock_key p i /\ e = (RInt z, None) /\ 0 <= z) \/
     (exists p, k = reservedStockKey p /\ e = (RInt 0, None))) ->
  (forall p, shard_sum c p s <= lua_max) -> books c hz s.
Proof.
  intros Hk Hsum.
  assert (forall k e, s !! k = Some e -> exists z, e = (RInt z, None)) as Hint.
  { intros k e He. destruct (Hk k e He) as [(p&i&z&_&->&_)|(p&_&->)]; eauto. }
  assert (forall st p, units st p s = 0) as Hu.
  { intros st p. clear Hk Hsum. unfold units.
    induction s as [|k e m Hm IH] using map_ind; [apply map_sumZ_empty|].
    rewrite map_sumZ_insert, IH by
      (done || intros k' e' He'; apply (Hint k'); rewrite lookup_insert_ne by congruence; done).
    destruct (Hint k e (lookup_insert_eq _ _ _)) as [z ->]. done. }
  split.
  - intros p i e He. destruct (Hk _ e He) as [(q&j&z&_&->&Hz)|(q&H&_)]; [eauto|].
    by apply stock_reserved in H.
  - intros p e He. by apply Hint in He.
  - intros o e _ He. destruct (Hk _ e He) as [(q&j&z&H&_)|(q&H&_)]; symmetry in H.
    + by apply stock_reservation in H.
    + by apply reserved_reservation in H.
  - intros k Hi e He. destruct (Hk _ e He) as [(q&j&z&H&_)|(q&H&_)]; symmetry in H.
    + by apply stock_index in H.
    + by apply reserved_index in H.
  - intros k m Hi. unfold zset_of. destruct (s !! k) as [e|] eqn:He; [|by intros [? ?]].
    destruct (Hint _ _ He) as [z ->]. by intros [? ?].
  - intros e He. destruct (Hk _ e He) as [(q&j&z&H&_)|(q&H&_)]; by symmetry in H.
  - intros k e st p He. by destruct (Hint _ _ He) as [z ->].
  - intros p. rewrite Hu. unfold int_at, int_opt. destruct (s !! reservedStockKey p) as [e|] eqn:He; [|done].
    destruct (Hk _ e He) as [(q&j&z&H&_)|(q&_&->)]; [|done]. symmetry in H. by apply stock_reserved in H.
  - intros p. unfold all_units. rewrite !Hu. specialize (Hsum p). lia.
Qed.

Definition empty_inventory : InventoryDB :=
  mkInvDB inventoryRequiredTables {[100 := mkProductRow 0 0]} ∅ [] ∅ ∅ [].
Definition sample_repo : RedisMySQLRepository :=
  WithReservationLedgerMode "enforce" (WithFinalDeductEnabled true (NewRedisMySQLRepository true 2)).

(** Ten units of product 100 on two shards. *)
Definition sample_env : env InventoryDB rstore :=
  (SeedStock sample_repo 100 10 0 (mkEnv empty_inventory ∅ 1000 [])).1.
Definition sample_redis : rstore :=
  <[reservedStockKey 100 := (RInt 0, None)]>
    (<[stock_key 100 1 := (RInt 5, None)]> {[stock_key 100 0 := (RInt 5, None)]}).

Lemma sample_env_redis : ext sample_env = sample_redis.
Proof. vm_compute. reflexivity. Qed.

Lemma sample_env_books hz : books 2 hz (ext sample_env).
Proof.
  rewrite sample_env_redis. apply seeded_books.
  - unfold sample_redis. intros k e [[<- <-]|[_ H]]%lookup_insert_Some; [right; eauto|left].
    apply lookup_insert_Some in H as [[<- <-]|[_ H]].
    + exists 100, 1, 5. repeat split; lia.
    + apply lookup_singleton_Some in H as [<- <-]. exists 100, 0, 5. repeat split; lia.
  - intros p. destruct (decide (p = 100)) as [->|Hp]; [vm_compute; congruence|].
    assert (shard_sum 2 p sample_redis = 0) as ->; [|unfold lua_max; lia].
    unfold shard_sum. rewrite (sumZ_ext _ (fun _ => 0)); [done|].
    apply Forall_forall. intros k [i [_ ->]]%shard_keys_elem. unfold int_at, int_opt, sample_redis.
    rewrite lookup_insert_ne by (intros H; symmetry in H; by apply stock_reserved in H).
    rewrite lookup_insert_ne by (intros H; by apply stock_key_product in H).
    by rewrite lookup_singleton_ne by (intros H; by apply stock_key_product in H).
Qed.

Definition sample_meta : StockChangeMeta := mkMeta "" "" "req" "trace" 0 0 "".

(** Three orders: one bought, one released after it was reserved, one reaped. *)
Definition sample_run : list (Z * stock_op) :=
  [(1000, OpReserve "a" 100 2 sample_meta); (1000, OpReserve "b" 100 3 sample_meta);
   (1001, OpReserve "c" 100 1 sample_meta); (1002, OpConfirm "a" sample_meta);
   (1003, OpRelease "b" sample_meta); (90000, OpReap 10 sample_meta)].

