(* ===== verification/FinalDeduct.v ===== *)
(** The final deduction in MySQL (stock_persistence.go): the stock log makes a
    deduction and its reversal happen at most once each, and the buckets and the
    open deductions of a product add up to a constant. *)

From stdpp Require Import sorting.
From S2P Require Import Prelude Effects Common Shards StockRepository PreDeduct RedisScripts.
From S2P Require Import RedisMySQL.
Import apperror domain.

(** * The books of MySQL *)

(** [order] gives the product and quantity of each order; the callers read them
    from the reservation. *)
Section final_deduct.
Context (order : string -> Z * Z) (Hq : forall o, 0 < (order o).2).

Definition deducted (o : string) (d : InventoryDB) : bool :=
  match deduct_buckets o (stock_log d) with [] => false | _ => true end.
Definition reverted (o : string) (d : InventoryDB) : bool :=
  bool_decide (mkStockLog o REVERT ∈ stock_log d).

(** The units an order has taken out of the buckets for good. *)
Definition taken (p : Z) (o : string) (d : InventoryDB) : Z :=
  if ((order o).1 =? p) && deducted o d && negb (reverted o d) then (order o).2 else 0.

Definition taken_by (os : list string) (p : Z) (d : InventoryDB) : Z :=
  sumZ (fun o => taken p o d) os.

(** One deduction per order, none without it reverted, no negative bucket. *)
Record log_books (d : InventoryDB) : Prop := {
  lb_once o : (length (deduct_buckets o (stock_log d)) <= 1)%nat;
  lb_revert o : reverted o d = true -> deducted o d = true;
  lb_nonneg k b : buckets d !! k = Some b -> 0 <= bucket_stock b
}.

Lemma bucket_rows_insert p k b d :
  bucket_rows p (with_buckets (<[k := b]> (buckets d)) d) =
    if decide (k.1 = p) then <[k := b]> (bucket_rows p d) else bucket_rows p d.
Proof.
  unfold bucket_rows. simpl. case_decide as Hk.
  - by rewrite map_filter_insert_True.
  - rewrite map_filter_insert_False by done. apply map_filter_delete_not. by intros b' _.
Qed.

Lemma bucket_rows_lookup p k d :
  bucket_rows p d !! k = if decide (k.1 = p) then buckets d !! k else None.
Proof.
  unfold bucket_rows. destruct (buckets d !! k) as [b|] eqn:Hk.
  - case_decide as Hp.
    + by apply map_lookup_filter_Some.
    + apply map_lookup_filter_None. right. by intros b' _.
  - replace (if decide (k.1 = p) then None else None) with (@None bucket) by (by case_decide).
    apply map_lookup_filter_None. by left.
Qed.

Lemma bucket_total_insert p k b d :
  bucket_total p (with_buckets (<[k := b]> (buckets d)) d) =
    bucket_total p d +
    if decide (k.1 = p)
    then bucket_stock b - match buckets d !! k with Some b0 => bucket_stock b0 | None => 0 end
    else 0.
Proof.
  unfold bucket_total. rewrite bucket_rows_insert. case_decide as Hk; [|lia].
  pose proof (bucket_rows_lookup p k d) as Hl. rewrite decide_True in Hl by done.
  destruct (buckets d !! k) as [b0|].
  - rewrite (map_sumZ_update _ _ _ b0) by done. lia.
  - rewrite map_sumZ_insert by done. lia.
Qed.

Lemma deduct_buckets_app o l1 l2 : deduct_buckets o (l1 ++ l2) = deduct_buckets o l1 ++ deduct_buckets o l2.
Proof. apply omap_app. Qed.

(** Adding one row to the log. *)
Definition add_row (row : stock_log_row) (d : InventoryDB) : InventoryDB :=
  with_stock_log (stock_log d ++ [row]) d.

Lemma deducted_add o row d :
  deducted o (add_row row d) =
    deducted o d || (str_eqb (sl_order_id row) o &&
                     match sl_type row with DEDUCT_BUCKET _ => true | REVERT => false end).
Proof.
  unfold deducted, add_row. simpl. rewrite deduct_buckets_app. simpl.
  destruct (str_eqb (sl_order_id row) o), (sl_type row), (deduct_buckets o (stock_log d)); done.
Qed.

Lemma reverted_add o row d :
  reverted o (add_row row d) = reverted o d || bool_decide (row = mkStockLog o REVERT).
Proof.
  unfold reverted, add_row. simpl. rewrite <- bool_decide_or. apply bool_decide_ext.
  rewrite elem_of_app, list_elem_of_singleton.
  split; (intros [?|?]; [by left|by right]).
Qed.

(** Only the order of the row changes what it has taken. *)
Lemma taken_add_other p o row d : sl_order_id row <> o -> taken p o (add_row row d) = taken p o d.
Proof.
  intros Hne. unfold taken. rewrite deducted_add, reverted_add.
  rewrite (proj2 (str_eqb_neq _ _)) by done. simpl. rewrite orb_false_r.
  rewrite bool_decide_eq_false_2 by (intros ->; done). by rewrite orb_false_r.
Qed.

Lemma taken_by_one os o p d d' :
  NoDup os -> o ∈ os -> (forall o', o' <> o -> taken p o' d' = taken p o' d) ->
  taken_by os p d' = taken_by os p d - taken p o d + taken p o d'.
Proof.
  intros Hnd. unfold taken_by. induction Hnd as [|x os Hx Hnd IH]; intros Ho Hne;
    [by apply elem_of_nil in Ho|]. cbn [sumZ foldr].
  fold (sumZ (fun o => taken p o d') os). fold (sumZ (fun o => taken p o d) os).
  apply elem_of_cons in Ho as [->|Ho].
  - rewrite (sumZ_ext _ (fun o => taken p o d) os); [lia|].
    apply Forall_forall. intros y Hy. apply Hne. intros ->. by apply Hx.
  - rewrite (Hne x) by (intros ->; done). rewrite (IH Ho Hne). lia.
Qed.

(** What one order's transaction may do. *)
Definition balanced (os : list string) (d d' : InventoryDB) : Prop :=
  log_books d' /\ forall p, bucket_total p d' + taken_by os p d' = bucket_total p d + taken_by os p d.

Lemma with_buckets_taken t p o d : taken p o (with_buckets t d) = taken p o d.
Proof. done. Qed.

(** ** Deducting *)

Lemma deduct_balanced os o i b d :
  NoDup os -> o ∈ os -> log_books d -> deducted o d = false ->
  buckets d !! ((order o).1, i) = Some b -> (order o).2 <= bucket_stock b ->
  balanced os d (with_buckets (<[((order o).1, i) :=
    mkBucket (bucket_stock b + - (order o).2) (bucket_version b + 1)]> (buckets d))
    (add_row (mkStockLog o (DEDUCT_BUCKET i)) d)).
Proof.
  intros Hnd Ho Hl Hd Hb Hle. set (row := mkStockLog o (DEDUCT_BUCKET i)).
  assert (reverted o d = false) as Hr.
  { destruct (reverted o d) eqn:Hr; [|done]. apply (lb_revert _ Hl) in Hr. congruence. }
  split.
  - split.
    + intros o'. simpl. rewrite deduct_buckets_app, length_app. simpl.
      destruct (str_eqb o o') eqn:Heq; simpl; [|pose proof (lb_once _ Hl o'); lia].
      bools. subst o'. unfold deducted in Hd. by destruct (deduct_buckets o (stock_log d)).
    + intros o'. change (reverted o' (add_row row d) = true -> deducted o' (add_row row d) = true).
      rewrite reverted_add, deducted_add, bool_decide_eq_false_2 by done. rewrite orb_false_r.
      intros H%(lb_revert _ Hl). by rewrite H.
    + intros k b'. cbn [buckets with_buckets].
      intros [[_ <-]|[_ H]]%lookup_insert_Some; [simpl; lia|by eapply (lb_nonneg _ Hl)].
  - intros p. rewrite (bucket_total_insert p _ _ (add_row row d)). simpl.
    change (bucket_total p (add_row row d)) with (bucket_total p d). rewrite Hb.
    change (taken_by os p (with_buckets _ (add_row row d))) with (taken_by os p (add_row row d)).
    rewrite (taken_by_one os o p d (add_row row d) Hnd Ho) by
      (intros o' Hne; apply taken_add_other; simpl; congruence).
    unfold taken at 1 2. rewrite deducted_add, reverted_add, Hd, Hr. simpl.
    rewrite str_eqb_refl, bool_decide_eq_false_2 by done. simpl. rewrite !andb_true_r, !andb_false_r.
    case_decide as Hp; [rewrite (proj2 (Z.eqb_eq _ _)) by done|rewrite (proj2 (Z.eqb_neq _ _)) by done]; lia.
Qed.

(** ** Reverting *)

Lemma revert_balanced os o i v b d :
  NoDup os -> o ∈ os -> log_books d -> deducted o d = true -> reverted o d = false ->
  match buckets d !! ((order o).1, i) with
  | Some b0 => bucket_stock b = bucket_stock b0 + (order o).2
  | None => bucket_stock b = (order o).2
  end ->
  v = bucket_stock b ->
  balanced os d (with_buckets (<[((order o).1, i) := b]> (buckets d))
    (add_row (mkStockLog o REVERT) d)).
Proof.
  intros Hnd Ho Hl Hd Hr Hb _. set (row := mkStockLog o REVERT). split.
  - split.
    + intros o'. simpl. rewrite deduct_buckets_app, length_app. simpl.
      destruct (str_eqb o o'); simpl; pose proof (lb_once _ Hl o'); lia.
    + intros o'. change (reverted o' (add_row row d) = true -> deducted o' (add_row row d) = true).
      rewrite reverted_add, deducted_add. simpl. rewrite andb_false_r, orb_false_r.
      intros [H|H]%orb_true_iff; [by apply (lb_revert _ Hl)|]. bools. by simplify_eq.
    + intros k b'. cbn [buckets with_buckets].
      intros [[_ <-]|[_ H]]%lookup_insert_Some; [|by eapply (lb_nonneg _ Hl)].
      pose proof (Hq o). destruct (buckets d !! _) as [b0|] eqn:Hb0; [|lia].
      pose proof (lb_nonneg _ Hl _ _ Hb0). lia.
  - intros p. rewrite (bucket_total_insert p _ _ (add_row row d)). simpl.
    change (bucket_total p (add_row row d)) with (bucket_total p d).
    change (taken_by os p (with_buckets _ (add_row row d))) with (taken_by os p (add_row row d)).
    rewrite (taken_by_one os o p d (add_row row d) Hnd Ho) by
      (intros o' Hne; apply taken_add_other; simpl; congruence).
    unfold taken at 1 2. rewrite deducted_add, reverted_add, Hd, Hr. simpl.
    rewrite bool_decide_eq_true_2 by done. simpl. rewrite !andb_true_r, !andb_false_r.
    case_decide as Hp; [rewrite (proj2 (Z.eqb_eq _ _)) by done|rewrite (proj2 (Z.eqb_neq _ _)) by done];
      destruct (buckets d !! _); lia.
Qed.

(** ** The transactions *)

Lemma deductible_bucket p q pref d i :
  deductible p q pref d = Some i ->
  exists b, buckets d !! (p, i) = Some b /\ q <= bucket_stock b.
Proof.
  unfold deductible. intros Hh. apply head_Some in Hh as [l Hl].
  assert (i ∈ (fun kb : Z * Z * bucket => kb.1.2) <$>
    filter (fun kb => q <= bucket_stock kb.2) (map_to_list (bucket_rows p d))) as Hi.
  { rewrite <- (merge_sort_Permutation (rank_le pref)), Hl. by left. }
  apply list_elem_of_fmap in Hi as [[[p' i'] b] [-> Hb]].
  apply list_elem_of_filter in Hb as [Hle Hb]. simpl in *.
  apply elem_of_map_to_list in Hb. rewrite bucket_rows_lookup in Hb. simpl in Hb.
  destruct (decide (p' = p)) as [->|]; [|done]. eauto.
Qed.

Lemma not_deducted_fresh o i d :
  deducted o d = false -> mkStockLog o (DEDUCT_BUCKET i) ∉ stock_log d.
Proof.
  unfold deducted. intros Hd Hin. assert (i ∈ deduct_buckets o (stock_log d)) as H.
  { apply elem_of_list_omap || apply list_elem_of_omap. exists (mkStockLog o (DEDUCT_BUCKET i)). simpl.
    by rewrite str_eqb_refl. }
  destruct (deduct_buckets o (stock_log d)); [by apply elem_of_nil in H|done].
Qed.

(** The committed state of a deduction: nothing, or one bucket and its log. *)
Lemma confirm_body_run r o d (x : rstore) t e u :
  (confirm_body r o (order o).1 (order o).2 (mkEnv d x t [])).2 = Ok (Commit e u) ->
  let d' := db (confirm_body r o (order o).1 (order o).2 (mkEnv d x t [])).1 in
  d' = d \/
  (deducted o d = false /\ exists i b, buckets d !! ((order o).1, i) = Some b /\
   (order o).2 <= bucket_stock b /\
   d' = with_buckets (<[((order o).1, i) :=
     mkBucket (bucket_stock b + - (order o).2) (bucket_version b + 1)]> (buckets d))
     (add_row (mkStockLog o (DEDUCT_BUCKET i)) d)).
Proof.
  unfold confirm_body, stockDeductLogExists, RedisMySQL.query, lockDeductibleStockBucket, bind, sql,
    pop_fault. simpl. fold (deducted o d).
  destruct (deducted o d) eqn:Hd; simpl; [by left|].
  unfold RedisMySQL.query, sql, pop_fault. simpl.
  destruct (deductible _ _ _ _) as [i|] eqn:Hi; simpl; [|by destruct (bool_decide _)].
  destruct (deductible_bucket _ _ _ _ _ Hi) as (b&Hb&Hle).
  unfold insert_stock_log, stockDeductBucketLogType.
  rewrite decide_False by (by apply not_deducted_fresh). simpl.
  fold (add_row (mkStockLog o (DEDUCT_BUCKET i)) d).
  unfold exec, bind, sql, pop_fault. simpl. rewrite Hb.
  rewrite (proj2 (Z.leb_le _ _)) by done. unfold update_bucket. simpl. rewrite Hb.
  rewrite (proj2 (Z.leb_le 0 _)) by lia.
  destruct (int32_ok _); simpl; [|done]. intros _. right. split; [done|]. exists i, b. done.
Qed.

Lemma release_body_run o d (x : rstore) t e u :
  (release_body o (order o).1 (order o).2 (mkEnv d x t [])).2 = Ok (Commit e u) ->
  let d' := db (release_body o (order o).1 (order o).2 (mkEnv d x t [])).1 in
  d' = d \/
  (deducted o d = true /\ reverted o d = false /\ exists i b,
   match buckets d !! ((order o).1, i) with
   | Some b0 => bucket_stock b = bucket_stock b0 + (order o).2
   | None => bucket_stock b = (order o).2
   end /\
   d' = with_buckets (<[((order o).1, i) := b]> (buckets d)) (add_row (mkStockLog o REVERT) d)).
Proof.
  unfold release_body, stockDeductBucketFromLog, RedisMySQL.query, bind, sql, pop_fault. simpl.
  destruct (last (deduct_buckets o (stock_log d))) as [i|] eqn:Hi; simpl; [|by left].
  assert (deducted o d = true) as Hd.
  { unfold deducted. by destruct (deduct_buckets o (stock_log d)). }
  unfold insert_stock_log. case_decide as Hrev; simpl; [by left|].
  fold (add_row (mkStockLog o REVERT) d).
  unfold exec, bind, sql, pop_fault. simpl. unfold upsert_bucket. simpl.
  intros H. right. split; [done|].
  split; [unfold reverted; by apply bool_decide_eq_false_2|]. exists i.
  destruct (buckets d !! ((order o).1, i)) as [b0|] eqn:Hb; revert H.
  - destruct (int32_ok _); simpl; [|done]. intros _. eexists. by split; [|reflexivity].
  - destruct (_ && _); simpl; [|done]. intros _. eexists. by split; [|reflexivity].
Qed.

Lemma faithful_confirm_body r o p q : faithful (confirm_body r o p q).
Proof.
  unfold confirm_body, stockDeductLogExists, lockDeductibleStockBucket, RedisMySQL.query, exec. faithful.
Qed.

Lemma faithful_release_body o p q : faithful (release_body o p q).
Proof. unfold release_body, stockDeductBucketFromLog, RedisMySQL.query, exec. faithful. Qed.

(** A deduction or its reversal. *)
Inductive deduct_op := Deduct (orderID : string) | Revert (orderID : string).
Definition op_order (op : deduct_op) : string :=
  match op with Deduct o => o | Revert o => o end.

Definition run_deduct (r : RedisMySQLRepository) (op : deduct_op) : M unit :=
  match op with
  | Deduct o => ignore (confirmMySQLDeduct r o (order o).1 (order o).2)
  | Revert o => ignore (releaseMySQLDeduct o (order o).1 (order o).2)
  end.

Definition run_deducts (r : RedisMySQLRepository) (ops : list deduct_op) : M unit :=
  for_each (run_deduct r) ops.

Definition accounts (os : list string) (K : Z -> Z) (d : InventoryDB) : Prop :=
  log_books d /\ forall p, bucket_total p d + taken_by os p d = K p.

Lemma balanced_accounts os K d d' : accounts os K d -> d' = d \/ balanced os d d' -> accounts os K d'.
Proof. intros [Hl HK] [->|[Hl' Hb]]; [done|]. split; [done|]. intros p. by rewrite Hb. Qed.

Lemma preserves_deduct_tx {A} os K eb (body : M (txend Error A)) :
  faithful body ->
  (forall d x t e a, accounts os K d -> (body (mkEnv d x t [])).2 = Ok (Commit e a) ->
     accounts os K (db (body (mkEnv d x t [])).1)) ->
  preserves (accounts os K) (run_tx eb body).
Proof.
  intros Hf Hb. apply run_tx_faults; [done|]. intros [d x t fs] Hnf Hd.
  unfold no_faults in Hnf. simpl in *. subst fs. unfold run_tx, pop_fault at 1. simpl.
  specialize (Hb d x t). destruct (body (mkEnv d x t [])) as [[d' x' t' fs'] [[e a|a]|e]]; simpl in *;
    [|done..].
  specialize (Hb e a Hd eq_refl). unfold pop_fault. simpl. by destruct fs' as [|[] fs'].
Qed.

Lemma preserves_run_deduct r os K op :
  NoDup os -> op_order op ∈ os -> preserves (accounts os K) (run_deduct r op).
Proof.
  intros Hnd Ho. destruct op as [o|o]; apply preserves_ignore, preserves_deduct_tx;
    try apply faithful_confirm_body; try apply faithful_release_body;
    intros d x t e [] Ha Hrun; eapply balanced_accounts; try exact Ha.
  - destruct (confirm_body_run r o d x t e tt Hrun) as [H|(Hd&i&b&Hb&Hle&H)]; rewrite H; [by left|right].
    apply deduct_balanced; try done. apply Ha.
  - destruct (release_body_run o d x t e tt Hrun) as [H|(Hd&Hr&i&b&Hb&H)]; rewrite H; [by left|right].
    by apply (revert_balanced os o i (bucket_stock b)); try done; try apply Ha.
Qed.

(** C9 The final deduction is exactly-once bookkeeping.  For any sequence of
    deductions and reversals of a set of orders, in any order and repeated, with
    any statement or commit failing: each order has at most one deduction in the
    stock log, a reversal only after a deduction, no bucket is negative, and the
    buckets of each product plus what its unreverted deductions took stay
    constant. *)
Theorem final_deduct_conserves r os ops s :
  NoDup os -> Forall (fun op => op_order op ∈ os) ops -> log_books (db s) ->
  let d' := db (run_deducts r ops s).1 in
  log_books d' /\
  forall p, bucket_total p d' + taken_by os p d' =
            bucket_total p (db s) + taken_by os p (db s).
Proof.
  intros Hnd Hops Hl.
  assert (preserves (accounts os (fun p => bucket_total p (db s) + taken_by os p (db s)))
            (run_deducts r ops)) as Hp; [|by apply Hp].
  apply preserves_for_each. intros op Hop. apply preserves_run_deduct; [done|].
  by eapply Forall_forall in Hops.
Qed.
End final_deduct.

(** * Witness *)

(** Order ["a"] buys 2 and ["b"] 3 of product 100, from two buckets of 5. *)
Definition sample_order (o : string) : Z * Z := (100, if str_eqb o "a" then 2 else 3).
Definition sample_inventory : InventoryDB :=
  mkInvDB inventoryRequiredTables ∅
    (<[(100, 0) := mkBucket 5 0]> {[(100, 1) := mkBucket 5 0]}) [] ∅ ∅ [].
Definition deduct_repo : RedisMySQLRepository :=
  WithFinalDeductEnabled true (NewRedisMySQLRepository true 2).
Definition sample_deducts : list deduct_op :=
  [Deduct "a"; Deduct "b"; Deduct "a"; Revert "b"; Revert "b"; Deduct "b"; Revert "c"].

Lemma sample_log_books : log_books sample_inventory.
Proof.
  split.
  - intros o. simpl. lia.
  - intros o H. unfold reverted in H. bools. by apply elem_of_nil in H.
  - intros k b. cbn [buckets sample_inventory].
    intros [[<- <-]|[_ H]]%lookup_insert_Some; [simpl; lia|].
    apply lookup_singleton_Some in H as [<- <-]. simpl. lia.
Qed.

Lemma final_deduct_conserves_witness :
  let d' := db (run_deducts sample_order deduct_repo sample_deducts
                  (mkEnv sample_inventory ∅ 0 [NoFault; NoFault; FailBefore])).1 in
  bucket_total 100 d' + taken_by sample_order ["a"; "b"; "c"] 100 d' = 10 /\
  (bucket_total 100 d', length (stock_log d')) = (8, 3%nat).
Proof.
  cbv zeta. split; [|vm_compute; reflexivity].
  destruct (final_deduct_conserves sample_order
    (fun o => ltac:(unfold sample_order; simpl; destruct (str_eqb o "a"); lia))
    deduct_repo ["a"; "b"; "c"] sample_deducts
    (mkEnv sample_inventory ∅ 0 [NoFault; NoFault; FailBefore])) as [_ H].
  - apply (bool_decide_unpack _). by vm_compute.
  - repeat constructor; apply (bool_decide_unpack _); by vm_compute.
  - apply sample_log_books.
  - rewrite H. vm_compute. reflexivity.
Defined.
