(* ===== verification/EndToEnd.v ===== *)
(** The order service on top of the inventory service: whatever requests arrive
    and whatever calls fail, the order service only uses the inventory through
    its interface, so the inventory's invariant survives; and a concrete
    deployment (the in-memory inventory behind the Kitex handler and client, a
    sandbox payment provider) on which the scenarios of the development run. *)

From S2P Require Import Prelude Effects Sql Common StockRepository MemoryRepo OrderStore.
From S2P Require Import InventoryKitex OrderLifecycle OrderPayment PaymentRecovery OrderRefund.
From S2P Require Import OrderCreate PreDeduct OrderSystem OrderSteps.

(** * The inventory under the order service *)

(** The other clients leave the inventory alone. *)
Class OtherClientsLaws (X : Type) `{PaymentProvider X} `{ProductClient X} (inv : X -> Prop) := {
  other_precreate q x : inv x -> inv (pp_Precreate q x).1;
  other_query o x : inv x -> inv (pp_Query o x).1;
  other_close o x : inv x -> inv (pp_Close o x).1;
  other_refund q x : inv x -> inv (pp_Refund q x).1;
  other_card p x : inv x -> inv (prod_GetProductCard p x).1
}.

Section keeps_inventory.
Context {X : Type} `{InventoryClient X} `{PaymentProvider X} `{ProductClient X} (inv : X -> Prop)
  `{!InventoryClientLaws X inv} `{!OtherClientsLaws X inv}.

(** A call on the order service's interface used by the checkout saga. *)
Inductive saga_request :=
| Request (r : request)
| SagaPreDeduct (in_ : PreDeductReq)
| SagaPreDeductRollback (in_ : PreDeductReq).

Context `{HasRedis X}.

Definition saga_handle (svcCtx : ServiceContext) (r : saga_request) : M DB X error unit :=
  match r with
  | Request r => handle svcCtx r
  | SagaPreDeduct in_ => ignore (PreDeduct svcCtx in_)
  | SagaPreDeductRollback in_ => ignore (PreDeductRollback svcCtx in_)
  end.

Definition saga_request_ok (r : saga_request) : Prop :=
  match r with SagaPreDeduct in_ => in_int64 (pd_Amount in_) | _ => True end.

Ltac keep_statements :=
  unfold insertRefundStatusLog, insertRefundOutbox, InsertOrderCreatedOutbox,
    InsertOrderPaidOutbox, query, raw_db, exec_orders, exec_payments, exec_refunds, insert_log,
    one_row.

Ltac keep_calls :=
  apply keeps_call; intros; first
    [ by apply client_confirm | by apply client_release | by apply client_reserve
    | by apply other_precreate | by apply other_query | by apply other_close
    | by apply other_refund | by apply other_card ].

Lemma keeps_MarkPaid svcCtx in_ : keeps (E := error) inv (MarkPaid svcCtx in_).
Proof.
  unfold MarkPaid, mark_paid_body, confirmInventoryDeduct, insertPaymentCallbackEvent.
  keep_statements. keep; keep_calls.
Qed.

Lemma keeps_AuditRefund svcCtx in_ : keeps (E := error) inv (AuditRefund svcCtx in_).
Proof.
  do 2 unfold AuditRefund, audit_body, approve_external_tx, approveRefund, rejectRefund,
    report_release_failure, markRefundReleaseFailed, mark_release_failed_body, call_provider,
    markProviderRefundFailed, release_and_complete, completeApprovedRefund, complete_approved_body,
    finish_refund, releaseRefundStock. cbv zeta.
  keep_statements. keep; keep_calls.
Qed.

Lemma keeps_lifecycle svcCtx c : keeps (E := error) inv (executeLifecycleTransition svcCtx c).
Proof. unfold executeLifecycleTransition, lifecycle_body. keep_statements. keep. Qed.

Lemma keeps_release_closed svcCtx o r : keeps (E := error) inv (releaseClosedOrder svcCtx o r).
Proof. unfold releaseClosedOrder. keep_statements. keep; keep_calls. Qed.

Lemma keeps_close_provider svcCtx o : keeps (E := error) inv (closeProviderPayment svcCtx o).
Proof. unfold closeProviderPayment. keep_statements. keep; keep_calls. Qed.

Lemma keeps_RunOnce svcCtx : keeps (E := error) inv (RunOnce svcCtx).
Proof.
  assert (forall l first, keeps (E := error) inv (finalize_all l first)) as Hfin.
  { induction l as [|o l IH]; intros first; simpl; [keep|].
    unfold finalizeInventory. keep_statements. keep; first [apply IH | keep_calls]. }
  do 2 unfold RunOnce, closeExpiredBatch, closeExpired, expire_order, expire_body, releaseInventory,
    on_provider_paid, retryInventoryFinalizations, retryInventoryReleases.
  keep_statements. keep; first [apply Hfin | apply keeps_MarkPaid | keep_calls].
Qed.

Lemma keeps_handle svcCtx r : keeps inv (handle svcCtx r).
Proof.
  destruct r; apply keeps_ignore;
    first [ apply keeps_MarkPaid | apply keeps_AuditRefund | apply keeps_RunOnce | idtac ];
    do 2 unfold CreateOrder, loadProductMerchantID, CallWithDB, create_order_body,
      CreateOrderRollback, rollback_body, GetOrderDetail, CreatePayment, createProviderPayment,
      HandlePaymentNotification, CancelUserOrder, CloseAdminOrder, ShipAdminOrder,
      ShipMerchantOrder, ConfirmReceipt, RequestRefund, request_refund_body, insert_refund;
    cbv zeta; keep_statements; keep;
    first [ apply keeps_MarkPaid | apply keeps_lifecycle | apply keeps_release_closed
          | apply keeps_close_provider | keep_calls ].
Qed.

(** Redis is not the inventory. *)
Context (redis_apart : forall r x, inv x -> inv (put_redis r x)).

Lemma keeps_eval {A} (script : gmap string Z -> gmap string Z * A) :
  keeps (D := DB) (E := error) inv (eval script).
Proof.
  unfold eval. apply keeps_call. intros x Hx. destruct (script (get_redis x)). by apply redis_apart.
Qed.

Lemma keeps_saga_handle svcCtx r : saga_request_ok r -> keeps inv (saga_handle svcCtx r).
Proof.
  intros Hr. destruct r as [r|in_|in_]; simpl in *; [apply keeps_handle|..]; apply keeps_ignore.
  - unfold PreDeduct, evalPreDeduct, ensureRedisStockInitialized. cbv zeta.
    keep; first [apply keeps_eval | keep_calls].
  - unfold PreDeductRollback. cbv zeta. keep; first [apply keeps_eval | keep_calls].
Qed.

Definition serve_saga (svcCtx : ServiceContext) (rs : list saga_request) : M DB X error unit :=
  for_each (saga_handle svcCtx) rs.

(** The saga's stock branch does not touch the order database. *)
Lemma steps_serve_saga svcCtx rs s : steps (db s) (db (serve_saga svcCtx rs s).1).
Proof.
  assert (preserves (steps (db s)) (serve_saga svcCtx rs)) as Hp; [|by apply Hp].
  apply preserves_for_each. intros r _. destruct r as [r|in_|in_]; simpl;
    [apply steps_handle|..]; unfold PreDeduct, PreDeductRollback, evalPreDeduct,
    ensureRedisStockInitialized, eval; cbv zeta; preserve.
Qed.

End keeps_inventory.

(** * A deployment

    The in-memory stock repository behind the service, handler and client, a
    sandbox provider that remembers the refunds it made, a product catalogue of
    one card, and no Redis keys. *)
Record world := mkWorld {
  w_stock : MemoryStockRepository;
  w_refunded : gmap string Z;          (* refund request -> amount *)
  w_redis : gmap string Z
}.

Definition sandbox_card : ProductCard :=
  mkCard 100 "tea" 5 9 "/tea.png" 1200 1000 "flash" "sale" 10.

Definition caller_meta : RequestMeta := mkRequestMeta (Some "req-1") (Some "req-1") None None None.

Definition on_stock {A} (f : MemoryStockRepository -> MemoryStockRepository * A) (w : world)
  : world * A := let '(st, a) := f (w_stock w) in (mkWorld st (w_refunded w) (w_redis w), a).

Definition stock_client : InventoryClient MemoryStockRepository :=
  kitex_client (service.New 1) caller_meta.

#[export] Instance world_inventory : InventoryClient world := {|
  inv_ReserveStock o p q := on_stock (@inv_ReserveStock _ stock_client o p q);
  inv_ConfirmDeduct o := on_stock (@inv_ConfirmDeduct _ stock_client o);
  inv_ReleaseStock o r := on_stock (@inv_ReleaseStock _ stock_client o r)
|}.

(** A refund request is executed once per refund number. *)
#[export] Instance world_provider : PaymentProvider world := {|
  pp_Name := NameAlipaySandbox;
  pp_Precreate r w := (w, Ok ("qr:" +:+ pr_OutTradeNo r));
  pp_Query o w := (w, Ok (mkQuery "" "WAIT_BUYER_PAY" 0));
  pp_Close o w := (w, Ok tt);
  pp_Refund r w :=
    (mkWorld (w_stock w) (<[rr_RefundID r := rr_AmountFen r]> (w_refunded w)) (w_redis w),
     Ok "SUCCESS");
  pp_VerifyNotification values := Err (OtherError "bad signature")
|}.

#[export] Instance world_product : ProductClient world := {|
  prod_GetProductCard p w :=
    (w, if p =? 100 then Ok (Some sandbox_card) else Err (StatusError NotFound "no product"))
|}.

#[export] Instance world_redis : HasRedis world := {|
  get_redis := w_redis;
  put_redis r w := mkWorld (w_stock w) (w_refunded w) r
|}.

Definition world_inv (w : world) : Prop := mem_inv (w_stock w).

#[export] Instance world_inventory_laws : InventoryClientLaws world world_inv.
Proof.
  destruct (kitex_client_laws mem_inv (service.New 1) caller_meta) as [Hr Hc Hl].
  split; unfold world_inv; intros; cbn [inv_ReserveStock inv_ConfirmDeduct inv_ReleaseStock
    world_inventory]; unfold on_stock.
  - specialize (Hr o p q (w_stock x)). unfold stock_client. destruct (inv_ReserveStock o p q (w_stock x)).
    by apply Hr.
  - specialize (Hc o (w_stock x)). unfold stock_client. destruct (inv_ConfirmDeduct o (w_stock x)).
    by apply Hc.
  - specialize (Hl o r (w_stock x)). unfold stock_client. destruct (inv_ReleaseStock o r (w_stock x)).
    by apply Hl.
Qed.

#[export] Instance world_other_laws : OtherClientsLaws world world_inv.
Proof. split; done. Qed.

Definition deployment : ServiceContext := mkSvc true true true true true 15 200 1.

(** Ten units of product 100. *)
Definition start : env DB world :=
  mkEnv empty_db (mkWorld (MemoryRepo.SeedStock 100 10 1 NewMemoryStockRepository).1 ∅ ∅) 1000 [].

Lemma start_inv : world_inv (ext start).
Proof. apply seed_inv; [apply mem_inv_empty|unfold_int64; lia|reflexivity]. Qed.

(** Checkout of two units, payment, and a repeated payment callback. *)
Definition buy : CreateOrderReq := mkCreate "o1" "r1" 7 100 2 2000.
Definition paid_callback (amount : Z) : MarkOrderPaidReq :=
  mkMarkPaid "o1" (paymentOrderIDFor "o1") (outTradeNoFor "o1")
    (JSONBody (mkPayload "SUCCESS" "alipay_sandbox" "ev1" amount "T1")).

Definition checkout : list saga_request :=
  [SagaPreDeduct (mkPreDeduct "o1" 100 2);
   Request (ReqCreate (Some true) buy);
   Request (ReqCreatePayment (Some (mkCreatePayment "o1" 7)))].

Definition paid_world : env DB world :=
  (serve_saga deployment (checkout ++ [Request (ReqMarkPaid (paid_callback 2000))]) start).1.
