(* ===== verification/Scenarios.v ===== *)
(** Scenarios of the whole order service on the deployment of EndToEnd.v: the
    general theorems applied to concrete runs, and the runs that show where the
    code departs from what its documents say. *)

From S2P Require Import Prelude Effects Sql Common StockRepository MemoryRepo OrderStore.
From S2P Require Import InventoryKitex OrderLifecycle OrderPayment PaymentRecovery OrderRefund.
From S2P Require Import OrderCreate PreDeduct OrderSystem OrderSteps EndToEnd.
Import domain.

(** * Runs *)

Definition run (rs : list request) (s : env DB world) : env DB world :=
  (serve deployment rs s).1.

Definition ask_refund : request := ReqRefund (mkRequestRefund "o1" 7 "user" "broken" "").
Definition audit_refund (approve : bool) : request :=
  ReqAudit (mkAuditRefund "rf:o1" 1 approve "ok" "a1").
Definition pay (amount : Z) : request := ReqMarkPaid (paid_callback amount).

(** An order waiting for payment, paid, with a refund requested, refunded. *)
Definition bought : env DB world := (serve_saga deployment checkout start).1.
Definition paid : env DB world := run [pay 2000] bought.
Definition asked : env DB world := run [ask_refund] paid.
Definition refunded : env DB world := run [audit_refund true] asked.

Definition order_status (s : env DB world) (id : string) : option Z := status_of (db s) id.
Definition payment_status (s : env DB world) (id : string) : option Z :=
  p_status <$> payments (db s) !! paymentOrderIDFor id.
Definition refund_status (s : env DB world) (id : string) : option Z :=
  r_status <$> refunds (db s) !! refundIDForOrder id.
Definition stock_of (s : env DB world) : option (Z * Z * Z) :=
  match (MemoryRepo.GetStock 100 (w_stock (ext s))).2 with
  | Ok st => Some (Available st, Reserved st, Total st)
  | Err _ => None
  end.
Definition refunded_amounts (s : env DB world) : list Z := (map_to_list (w_refunded (ext s))).*2.

Lemma run_steps rs s : steps (db s) (db (run rs s)).
Proof. apply steps_serve. Qed.

Lemma bought_reachable : reachable (db bought).
Proof. exists ∅. apply (steps_serve_saga deployment checkout start). Qed.

Lemma run_reachable rs s : reachable (db s) -> reachable (db (run rs s)).
Proof. intros [t Ht]. exists t. etrans; [done|]. apply run_steps. Qed.

(** The statuses along the runs. *)
Example run_statuses :
  ((fun s => (order_status s "o1", payment_status s "o1", refund_status s "o1")) <$>
     [bought; paid; asked; refunded]) =
  [(Some orderstatus.PendingPayment, Some paymentstatus.Init, None);
   (Some orderstatus.Paid, Some paymentstatus.Success, None);
   (Some orderstatus.RefundRequested, Some paymentstatus.Success, Some refundstatus.Requested);
   (Some orderstatus.Refunded, Some paymentstatus.Success, Some refundstatus.Success)].
Proof. vm_compute. reflexivity. Qed.

(** * The general theorems on these runs *)

Lemma MarkPaid_implements_spec_witness :
  order_status bought "o1" = Some orderstatus.PendingPayment /\
  let in_ := paid_callback 2000 in
  exists callback, parsePaymentCallbackPayload (mp_CallbackBody in_) = Ok callback /\
  let '(s', r) := MarkPaid deployment in_ bought in
  core (db s') = core (paid_spec in_ callback (now bought) (db bought)).1 /\
  r = Ok (mkMarkPaidResp true "PAID").
Proof.
  split; [vm_compute; reflexivity|]. cbv zeta.
  exists (mkPayload "SUCCESS" "alipay_sandbox" "ev1" 2000 "T1").
  split; [reflexivity|].
  pose proof (MarkPaid_implements_spec deployment (paid_callback 2000)
    (mkPayload "SUCCESS" "alipay_sandbox" "ev1" 2000 "T1") bought) as Hs.
  destruct (MarkPaid deployment (paid_callback 2000) bought) as [s' r] eqn:Hrun.
  destruct Hs as (_&_&Hs); [discriminate..|reflexivity|].
  destruct Hs as [Hd Hr]; [vm_compute; reflexivity|]. split; [exact Hd|].
  rewrite Hr. vm_compute. reflexivity.
Defined.

Lemma order_life_cycle_witness :
  exists o, orders (db bought) !! "o1" = Some o /\
  exists o', orders (db refunded) !! "o1" = Some o' /\ order_identity o' = order_identity o /\
    rtc orderstatus.move (o_status o) (o_status o').
Proof.
  destruct (orders (db bought) !! "o1") as [o|] eqn:Ho; [|vm_compute in Ho; discriminate].
  exists o. split; [reflexivity|].
  assert (steps (db bought) (db refunded)) as Hs.
  { etrans; [apply (run_steps [pay 2000])|]. etrans; [apply (run_steps [ask_refund])|].
    apply (run_steps [audit_refund true]). }
  destruct (order_life_cycle _ _ "o1" o Hs Ho) as (o'&Ho'&Hid&Hm&_). eauto.
Defined.

Lemma refunded_reachable : reachable (db refunded).
Proof. do 3 apply run_reachable. apply bought_reachable. Qed.



Lemma service_refines_life_cycle_witness :
  order_inv (db bought) /\ order_inv (db refunded).
Proof.
  assert (order_inv (db bought)) as Hi.
  { destruct bought_reachable as [t Ht]. apply (steps_inv _ _ (inv_empty t) Ht). }
  split; [exact Hi|].
  pose proof (proj2 (service_refines_life_cycle deployment
    [pay 2000; ask_refund; audit_refund true] bought) Hi) as Hr.
  assert (db (serve deployment [pay 2000; ask_refund; audit_refund true] bought).1 = db refunded)
    as <- by (vm_compute; reflexivity). exact Hr.
Defined.


(** * Where the code departs from its documents *)

(** The provider executes the refund and its reply is lost. *)
Definition lost : env DB world :=
  mkEnv (db asked) (ext asked) (now asked)
    [NoFault; NoFault; NoFault; NoFault; NoFault; FailAfter].
Definition lost_reply : env DB world := run [audit_refund true] lost.
Definition rejected_after_refund : env DB world := run [audit_refund false] lost_reply.

(** The audit records the refund as failed and accepts its rejection: the order
    is paid again, and can be shipped, while the provider has paid the buyer
    back. *)
Theorem lost_refund_reply_can_be_rejected :
  refunded_amounts rejected_after_refund = [2000] /\
  refund_status lost_reply "o1" = Some refundstatus.Failed /\
  refund_status rejected_after_refund "o1" = Some refundstatus.Rejected /\
  order_status rejected_after_refund "o1" = Some orderstatus.Paid.
Proof. vm_compute. repeat split; reflexivity. Qed.

(** A second checkout with the request number of the first and a new order
    number. *)
Definition buy_again : CreateOrderReq := mkCreate "o2" "r1" 7 100 2 2000.
Definition bought_twice : env DB world * res error CreateOrderResp :=
  CreateOrder deployment (Some true) buy_again bought.

(** Repeating the request number drops the order row silently and keeps the rest:
    the branch reports success, and the payment, the snapshot and the outbox
    event refer to an order that does not exist. *)
Theorem repeated_request_leaves_orphan_payment :
  bought_twice.2 = Ok (mkCreateResp "o2" orderStatusPendingPayment 2000 (paymentOrderIDFor "o2")) /\
  order_status bought_twice.1 "o2" = None /\
  payment_status bought_twice.1 "o2" = Some paymentstatus.Init /\
  order_status bought_twice.1 "o1" = Some orderstatus.PendingPayment.
Proof. vm_compute. repeat split; reflexivity. Qed.

(** The saga's compensation runs on a created order. *)
Definition compensated : env DB world := run [ReqRollback (Some true) buy] bought.

(** The saga's compensation closes the order without a trace in the status log
    and leaves its payment waiting. *)
Theorem compensation_is_not_logged :
  order_status compensated "o1" = Some orderstatus.Closed /\
  status_log (db compensated) = [] /\
  payment_status compensated "o1" = Some paymentstatus.Init.
Proof. vm_compute. repeat split; reflexivity. Qed.

(** A card priced at [2^62] fen. *)
Definition dear_card : ProductCard := mkCard 1 "ring" 1 1 "" (2 ^ 62) (2 ^ 62) "" "" 5.

(** A price of [2^62] fen and two units: the quote is accepted with a negative
    payable amount. *)
Theorem quote_overflows :
  (let? q := BuildQuote (Some dear_card) 2 in Ok (qt_PayableAmountFen q)) = Ok int64_min.
Proof. vm_compute. reflexivity. Qed.
