(* ===== verification/AuthTokens.v ===== *)
(** Refresh tokens (app/auth/api/internal/authstore/store.go): the text
    ["<session>.<generation>.<signature>"], its signature, its parser, and the
    hashes and random identifiers around it. *)

From Stdlib Require Import Ascii.
From S2P Require Import Prelude GoText.
Close Scope char_scope.

(** * crypto/hmac with SHA-256 *)

Definition hmac_key (key : list Z) : list Z :=
  let k := if (64 <? length key)%nat then sha256_bytes key else key in
  k ++ replicate (64 - length k) 0.

Definition hmac_sha256 (key message : list Z) : list Z :=
  let k := hmac_key key in
  sha256_bytes (map (Z.lxor 0x5c) k ++ sha256_bytes (map (Z.lxor 0x36) k ++ message)).

(** The second test case of RFC 4231. *)
Example hmac_vector :
  hex (hmac_sha256 (bytes_of_string "Jefe") (bytes_of_string "what do ya want for nothing?")) =
  "5bdcc146bf60754e6a042426089575c75a003f089d2739839dec58b964ec3843".
Proof. vm_compute. reflexivity. Qed.

(** * store.go *)

Definition hashToken (token : string) : string := sha256_hex token.

Definition signRefreshToken (sessionID : string) (generation : Z) (familySecret : string) : string :=
  base64_url (hmac_sha256 (bytes_of_string familySecret)
                (bytes_of_string (sessionID +:+ ":" +:+ itoa generation))).

Definition verifyRefreshTokenSignature (sessionID : string) (generation : Z)
    (signature familySecret : string) : bool :=
  str_eqb signature (signRefreshToken sessionID generation familySecret).

Definition buildRefreshToken (sessionID : string) (generation : Z) (familySecret : string) : string :=
  sessionID +:+ "." +:+ itoa generation +:+ "." +:+
  signRefreshToken sessionID generation familySecret.

Definition splitRefreshToken (token : string) : option (string * string * string) :=
  match cut "."%char token with
  | Some (sessionID, rest) =>
      if is_empty sessionID || is_empty rest then None
      else match cut "."%char rest with
           | Some (generation, signature) =>
               if is_empty generation || is_empty signature then None
               else Some (sessionID, generation, signature)
           | None => None
           end
  | None => None
  end.

Definition parseGeneration (value : string) : option Z := ParseInt value.

Definition parseRefreshToken (token : string) : option (string * Z * string) :=
  match splitRefreshToken token with
  | Some (sessionID, generationPart, signature) =>
      match parseGeneration generationPart with
      | Some generation =>
          if generation <=? 0 then None else Some (sessionID, generation, signature)
      | None => None
      end
  | None => None
  end.

(** * Lemmas *)

Lemma length_be_bytes n z : length (be_bytes n z) = n.
Proof. revert z. induction n as [|n IH]; intros z; simpl; [done|]. by rewrite IH. Qed.

Lemma length_round st kw : length st = 8%nat -> length (round st kw) = 8%nat.
Proof.
  do 9 (destruct st as [|? st]; try done).
Qed.

Lemma length_rounds kws st : length st = 8%nat -> length (foldl round st kws) = 8%nat.
Proof. revert st. induction kws as [|kw kws IH]; intros st H; [done|]. by apply IH, length_round. Qed.

Lemma length_compress st block : length st = 8%nat -> length (compress st block) = 8%nat.
Proof.
  intros H. unfold compress. rewrite length_zip_with, length_rounds, H by done. done.
Qed.

(** The digest has 32 bytes. *)
Lemma length_sha256_bytes m : length (sha256_bytes m) = 32%nat.
Proof.
  unfold sha256_bytes.
  assert (forall blocks st, length st = 8%nat -> length (foldl compress st blocks) = 8%nat) as Hf.
  { intros blocks. induction blocks as [|b bs IH]; intros st H; [done|].
    by apply IH, length_compress. }
  specialize (Hf (chunks (length (pad m)) 64 (pad m)) H256 eq_refl).
  destruct (foldl compress H256 _) as [|a [|b [|c [|d [|e [|f [|g [|h [|]]]]]]]]]; try done.
Qed.

Lemma signature_not_empty sid g secret : signRefreshToken sid g secret <> "".
Proof.
  unfold signRefreshToken. apply base64_not_empty. intros H.
  pose proof (length_sha256_bytes (map (Z.lxor 0x5c) (hmac_key (bytes_of_string secret)) ++
    sha256_bytes (map (Z.lxor 0x36) (hmac_key (bytes_of_string secret)) ++
      bytes_of_string (sid +:+ ":" +:+ itoa g)))) as Hl.
  unfold hmac_sha256 in H. by rewrite H in Hl.
Qed.

Lemma verify_signature sid g secret :
  verifyRefreshTokenSignature sid g (signRefreshToken sid g secret) secret = true.
Proof. apply str_eqb_refl. Qed.

(** What the parser accepts: three non-empty parts, the first two without dots,
    the second a positive number. *)
Lemma parseRefreshToken_Some token sid g signature :
  parseRefreshToken token = Some (sid, g, signature) ->
  exists part, token = sid +:+ "." +:+ part +:+ "." +:+ signature /\
    sid <> "" /\ free_of "."%char sid = true /\ ParseInt part = Some g /\
    0 < g <= int64_max /\ signature <> "".
Proof.
  unfold parseRefreshToken, splitRefreshToken, parseGeneration.
  destruct (cut "."%char token) as [[a rest]|] eqn:H1; [|done].
  destruct (is_empty a || is_empty rest) eqn:He1; [done|].
  destruct (cut "."%char rest) as [[b c]|] eqn:H2; [|done].
  destruct (is_empty b || is_empty c) eqn:He2; [done|].
  destruct (ParseInt b) as [n|] eqn:H3; [|done].
  destruct (n <=? 0) eqn:Hn; [done|]. intros [= <- <- <-].
  apply cut_Some in H1 as [-> Hf]. apply cut_Some in H2 as [-> Hf2].
  pose proof (ParseInt_range _ _ H3) as Hr. bools.
  exists b. split; [done|]. unfold in_int64 in Hr. repeat split; [done|done|done|lia|lia|done].
Qed.

Lemma parse_build sid g secret :
  sid <> "" -> free_of "."%char sid = true -> 0 < g <= int64_max ->
  parseRefreshToken (buildRefreshToken sid g secret) =
  Some (sid, g, signRefreshToken sid g secret).
Proof.
  intros Hs Hf Hg. unfold parseRefreshToken, splitRefreshToken, buildRefreshToken, parseGeneration.
  change (sid +:+ "." +:+ itoa g +:+ "." +:+ signRefreshToken sid g secret)
    with (sid +:+ String "."%char (itoa g +:+ String "."%char (signRefreshToken sid g secret))).
  rewrite cut_app by done.
  assert (is_empty sid = false) as -> by (by apply str_eqb_neq).
  assert (forall a b, a <> "" -> is_empty (a +:+ b) = false) as Happ.
  { intros a b Ha. apply str_eqb_neq. by destruct a. }
  rewrite Happ by apply itoa_not_empty. cbn [orb].
  rewrite cut_app by apply itoa_no_dot.
  assert (is_empty (itoa g) = false) as -> by (apply str_eqb_neq, itoa_not_empty).
  assert (is_empty (signRefreshToken sid g secret) = false) as ->
    by (apply str_eqb_neq, signature_not_empty). cbn [orb].
  rewrite ParseInt_itoa by (unfold in_int64, int64_min; lia).
  destruct (g <=? 0) eqn:H; bools; [lia|done].
Qed.

(** The tokens of a family are pairwise different: the generation can be read
    back from the text. *)
Lemma build_inj sid g1 g2 secret :
  sid <> "" -> free_of "."%char sid = true -> 0 < g1 <= int64_max -> 0 < g2 <= int64_max ->
  buildRefreshToken sid g1 secret = buildRefreshToken sid g2 secret -> g1 = g2.
Proof.
  intros Hs Hf H1 H2 He. pose proof (parse_build sid g1 secret Hs Hf H1) as P1.
  rewrite He, parse_build in P1 by done. congruence.
Qed.

(** * The property *)

(** C23 A refresh token reads back as what it was built from, and its signature
    verifies under the family's secret: for every session identifier the service
    can issue (base64 of random bytes) and every generation it can reach. *)
Theorem refresh_token_roundtrip random g secret :
  random <> [] -> 0 < g <= int64_max ->
  exists signature,
    parseRefreshToken (buildRefreshToken (base64_url random) g secret) =
      Some (base64_url random, g, signature) /\
    verifyRefreshTokenSignature (base64_url random) g signature secret = true.
Proof.
  intros Hr Hg. exists (signRefreshToken (base64_url random) g secret).
  split; [|apply verify_signature].
  apply parse_build; [by apply base64_not_empty|apply base64_no_dot|done].
Qed.

Lemma refresh_token_roundtrip_witness :
  exists signature,
    parseRefreshToken (buildRefreshToken "Zm9v" 3 "secret") = Some ("Zm9v", 3, signature) /\
    verifyRefreshTokenSignature "Zm9v" 3 signature "secret" = true.
Proof.
  apply (refresh_token_roundtrip [102; 111; 111] 3 "secret"); [discriminate|].
  vm_compute. split; congruence.
Defined.

(** The parser also accepts other spellings of a generation. *)
Example lenient_generation :
  let sig := signRefreshToken "Zm9v" 3 "secret" in
  parseRefreshToken ("Zm9v.+03." +:+ sig) = parseRefreshToken (buildRefreshToken "Zm9v" 3 "secret").
Proof. vm_compute. reflexivity. Qed.
