(* ===== verification/AuthData.v ===== *)
(** What the two stores of the auth service share
    (app/auth/api/internal/authstore: store.go, contracts.go, sqlstore.go;
    app/auth/api/internal/sessionstate/state.go): users, sessions, errors, the
    session state published in Redis, the random source and the password
    hashes, and the interface the request logic is written against. *)

From S2P Require Import Prelude Effects GoText AuthTokens.

(** * Errors and data *)

Inductive store_error :=
| ErrUserExists | ErrUserNotFound | ErrInvalidCredentials | ErrInvalidCode
| ErrSessionNotFound | ErrRefreshTokenInvalid | ErrRefreshTokenReplayed
| StoreFailed (text : string).

#[export] Instance store_error_eq_dec : EqDecision store_error.
Proof. solve_decision. Defined.

Definition statusActive : Z := 1.
Definition statusUsed : Z := 2.
Definition statusRevoked : Z := 3.
Definition userStatusDisabled : Z := 2.

(** [CreateTime] is a formatted time: here the time itself. *)
Record User := mkUser {
  u_ID : Z; u_Phone : string; u_DisplayName : string; u_PasswordHash : string;
  u_SessionVersion : Z; u_Role : string; u_Status : Z; u_CreateTime : Z
}.

Record Session := mkSession {
  s_ID : string; s_UserID : Z; s_DeviceType : string; s_SessionVersion : Z;
  s_RefreshTokenHash : string; s_PreviousRefreshTokenHash : string;
  s_RefreshFamilySecret : string; s_RefreshGeneration : Z; s_ExpiresAt : Z; s_Revoked : bool
}.

#[export] Instance User_eq_dec : EqDecision User.
Proof. solve_decision. Defined.
#[export] Instance Session_eq_dec : EqDecision Session.
Proof. solve_decision. Defined.

(** [time.Duration(n) * time.Second], in seconds: the product is an [int64] of
    nanoseconds and wraps. *)
Definition seconds (n : Z) : Z := int64 (n * 10 ^ 9) / 10 ^ 9.

Lemma seconds_id n : 0 <= n <= 9223372036 -> seconds n = n.
Proof.
  intros Hn. unfold seconds. rewrite int64_id by (unfold_int64; lia).
  apply Z.div_mul. lia.
Qed.

Definition default_to (n d : Z) : Z := if n <=? 0 then d else n.

(** * Session state in Redis (sessionstate/state.go)

    A session's snapshot is stored as JSON, a user's version as a number; a key
    may expire. *)
Record SessionSnapshot := mkSnapshotState {
  sn_SessionID : string; sn_UserID : Z; sn_DeviceType : string; sn_SessionVersion : Z
}.

Inductive state_value := SnapshotJSON (s : SessionSnapshot) | VersionText (v : Z).

Definition sessionKey (sessionID : string) : string := "auth:session:sid:" +:+ sessionID.
Definition userVersionKey (userID : Z) : string := "auth:session:userver:" +:+ itoa userID.

(** The systems around a store: Redis, the draws of [crypto/rand] to come, and
    whether Redis is configured. *)
Record auth_world := mkAuthWorld {
  redis : gmap string (state_value * option Z);
  random : list (list Z);
  has_state : bool
}.

Definition with_redis (r : gmap string (state_value * option Z)) (w : auth_world) : auth_world :=
  mkAuthWorld r (random w) (has_state w).

Definition save_session (now : Z) (session : SessionSnapshot) (ttl : Z)
    (r : gmap string (state_value * option Z)) : gmap string (state_value * option Z) :=
  <[userVersionKey (sn_UserID session) := (VersionText (sn_SessionVersion session), None)]>
    (<[sessionKey (sn_SessionID session) := (SnapshotJSON session, Some (now + ttl))]> r).

(** * Effects *)

Section effects.
Context {D : Type}.
Abbreviation M := (M D auth_world store_error).

Definition redis_failed : store_error := StoreFailed "redis".

(** [RedisStateStore]: both writes of [SaveSession] go in one pipeline. *)
Definition SaveSession (session : SessionSnapshot) (ttl : Z) : M unit :=
  t <- get_now ;;
  call (fun w => (with_redis (save_session t session ttl (redis w)) w, Ok tt)) redis_failed.

Definition DeleteSession (sessionID : string) : M unit :=
  call (fun w => (with_redis (delete (sessionKey sessionID) (redis w)) w, Ok tt)) redis_failed.

Definition SetUserVersion (userID version : Z) : M unit :=
  call (fun w => (with_redis (<[userVersionKey userID := (VersionText version, None)]> (redis w)) w,
                  Ok tt)) redis_failed.

(** A state store that is configured, its errors dropped. *)
Definition publish (m : M unit) : M unit := fun s =>
  if has_state (ext s) then ignore m s else (s, Ok tt).

Definition snapshot_of (session : Session) : SessionSnapshot :=
  mkSnapshotState (s_ID session) (s_UserID session) (s_DeviceType session)
    (s_SessionVersion session).

(** [rand.Read] of 32 bytes. *)
Definition rand_read : M (list Z) := fun s =>
  match random (ext s) with
  | [] => (s, Err (StoreFailed "rand"))
  | d :: ds => (set_ext (mkAuthWorld (redis (ext s)) ds (has_state (ext s))) s, Ok d)
  end.

Definition randomToken : M string := d <- rand_read ;; ret (base64_url d).
Definition randomSecret : M string := d <- rand_read ;; ret (hex d).
End effects.


(** * bcrypt

    A third-party package: hashing draws a salt and refuses long passwords;
    a hash accepts its password. *)
Class Bcrypt := {
  bcrypt_hash : list Z -> string -> option string;
  bcrypt_compare : string -> string -> bool
}.

Class BcryptLaws `{Bcrypt} := {
  bcrypt_accepts salt password hash :
    bcrypt_hash salt password = Some hash -> bcrypt_compare hash password = true
}.

Definition GenerateFromPassword `{Bcrypt} {D} (password : string) : Effects.M D auth_world store_error string :=
  salt <- rand_read ;;
  match bcrypt_hash salt password with
  | Some h => ret h
  | None => throw (StoreFailed "bcrypt")
  end.

(** * contracts.go *)

Class AuthStore (D : Type) := {
  IssueCode : string -> string -> Z -> Effects.M D auth_world store_error (string * Z);
  ConsumeCode : string -> string -> string -> Z -> Effects.M D auth_world store_error unit;
  ResetCode : string -> string -> Effects.M D auth_world store_error unit;
  CreateUser : string -> string -> string -> Effects.M D auth_world store_error User;
  Authenticate : Z -> string -> string -> Effects.M D auth_world store_error User;
  GetUserByPhone : string -> Effects.M D auth_world store_error User;
  GetUserByID : Z -> Effects.M D auth_world store_error User;
  GetUserByIDAnyStatus : Z -> Effects.M D auth_world store_error User;
  SetUserStatus : Z -> Z -> Effects.M D auth_world store_error User;
  GetActiveSession : string -> Effects.M D auth_world store_error Session;
  CreateSessionForDevice : Z -> string -> Z -> Effects.M D auth_world store_error (string * string);
  RefreshSession : string -> Z -> Effects.M D auth_world store_error (Session * string);
  Logout : string -> Effects.M D auth_world store_error unit;
  LogoutAll : Z -> Effects.M D auth_world store_error unit;
  UpdatePassword : string -> string -> Effects.M D auth_world store_error User
}.

Definition with_SessionVersion (v : Z) (u : User) : User :=
  mkUser (u_ID u) (u_Phone u) (u_DisplayName u) (u_PasswordHash u) v (u_Role u) (u_Status u)
    (u_CreateTime u).
Definition with_PasswordHash (h : string) (u : User) : User :=
  mkUser (u_ID u) (u_Phone u) (u_DisplayName u) h (u_SessionVersion u) (u_Role u) (u_Status u)
    (u_CreateTime u).
Definition with_Status (st : Z) (u : User) : User :=
  mkUser (u_ID u) (u_Phone u) (u_DisplayName u) (u_PasswordHash u) (u_SessionVersion u) (u_Role u)
    st (u_CreateTime u).

Definition revoked (s : Session) : Session :=
  mkSession (s_ID s) (s_UserID s) (s_DeviceType s) (s_SessionVersion s) (s_RefreshTokenHash s)
    (s_PreviousRefreshTokenHash s) (s_RefreshFamilySecret s) (s_RefreshGeneration s)
    (s_ExpiresAt s) true.

(** The next generation of a session: a new refresh token, the old one's hash
    kept, a new expiry. *)
Definition rotate (sessionID : string) (expiresAt : Z) (s : Session) : Session :=
  let g := int64 (s_RefreshGeneration s + 1) in
  mkSession (s_ID s) (s_UserID s) (s_DeviceType s) (s_SessionVersion s)
    (hashToken (buildRefreshToken sessionID g (s_RefreshFamilySecret s)))
    (s_RefreshTokenHash s) (s_RefreshFamilySecret s) g expiresAt (s_Revoked s).

Definition new_session (sessionID secret : string) (userID : Z) (deviceType : string)
    (version expiresAt : Z) : Session :=
  mkSession sessionID userID deviceType version
    (hashToken (buildRefreshToken sessionID 1 secret)) "" secret 1 expiresAt false.

Definition codeKey (phone scene : string) : string := scene +:+ ":" +:+ phone.

Definition issued_code : string := "246810".

(** * Runs of a store

    A sequence of calls, each at its time, from any clients in any order. *)

Inductive auth_op :=
| OpIssueCode (phone scene : string) (ttl : Z)
| OpConsumeCode (phone scene code : string) (maxAttempts : Z)
| OpResetCode (phone scene : string)
| OpCreateUser (phone displayName password : string)
| OpAuthenticate (userID : Z) (phone password : string)
| OpGetUserByPhone (phone : string)
| OpGetUserByID (userID : Z)
| OpGetUserByIDAnyStatus (userID : Z)
| OpSetUserStatus (userID status : Z)
| OpGetActiveSession (sessionID : string)
| OpCreateSession (userID : Z) (deviceType : string) (ttl : Z)
| OpRefresh (refreshToken : string) (ttl : Z)
| OpLogout (refreshToken : string)
| OpLogoutAll (userID : Z)
| OpUpdatePassword (phone newPassword : string).

Definition serve_op `{AuthStore D} (op : auth_op) : Effects.M D auth_world store_error unit :=
  match op with
  | OpIssueCode p sc ttl => ignore (IssueCode p sc ttl)
  | OpConsumeCode p sc c n => ignore (ConsumeCode p sc c n)
  | OpResetCode p sc => ignore (ResetCode p sc)
  | OpCreateUser p dn pw => ignore (CreateUser p dn pw)
  | OpAuthenticate u p pw => ignore (Authenticate u p pw)
  | OpGetUserByPhone p => ignore (GetUserByPhone p)
  | OpGetUserByID u => ignore (GetUserByID u)
  | OpGetUserByIDAnyStatus u => ignore (GetUserByIDAnyStatus u)
  | OpSetUserStatus u st => ignore (SetUserStatus u st)
  | OpGetActiveSession sid => ignore (GetActiveSession sid)
  | OpCreateSession u dev ttl => ignore (CreateSessionForDevice u dev ttl)
  | OpRefresh tok ttl => ignore (RefreshSession tok ttl)
  | OpLogout tok => ignore (Logout tok)
  | OpLogoutAll u => ignore (LogoutAll u)
  | OpUpdatePassword p pw => ignore (UpdatePassword p pw)
  end.

Definition at_time {D X} (t : Z) (s : env D X) : env D X := mkEnv (db s) (ext s) t (faults s).

Definition run_ops `{AuthStore D} (ops : list (Z * auth_op)) (s : env D auth_world)
  : env D auth_world :=
  foldl (fun s '(t, op) => (serve_op op (at_time t s)).1) s ops.
