(* ===== verification/AuthMemory.v ===== *)
(** The in-memory auth store (app/auth/api/internal/authstore/store.go).

    Users are shared objects: [usersByID] and [usersByPhone] point to the same
    [User], so here the phone index holds the identifier of the object.  The
    mutex makes each method one atomic step; the writes to Redis happen inside
    it and their errors are dropped. *)

From stdpp Require Import sorting.
From S2P Require Import Prelude Effects GoText AuthTokens AuthData.

Record verifyCode := mkCode { vc_Code : string; vc_ExpiresAt : Z; vc_Attempts : Z }.

Record Store := mkStore {
  nextUserID : Z;
  usersByID : gmap Z User;
  usersByPhone : gmap string Z;
  codes : gmap string verifyCode;
  sessions : gmap string Session;
  refreshIndex : gmap string string;
  userSessionIDs : gmap Z (gset string)
}.

Definition with_users (ids : gmap Z User) (phones : gmap string Z) (next : Z) (st : Store) : Store :=
  mkStore next ids phones (codes st) (sessions st) (refreshIndex st) (userSessionIDs st).
Definition set_user (u : User) (st : Store) : Store :=
  with_users (<[u_ID u := u]> (usersByID st)) (usersByPhone st) (nextUserID st) st.
Definition with_codes (c : gmap string verifyCode) (st : Store) : Store :=
  mkStore (nextUserID st) (usersByID st) (usersByPhone st) c (sessions st) (refreshIndex st)
    (userSessionIDs st).
Definition with_sessions (ss : gmap string Session) (idx : gmap string string)
    (ids : gmap Z (gset string)) (st : Store) : Store :=
  mkStore (nextUserID st) (usersByID st) (usersByPhone st) (codes st) ss idx ids.

Definition empty_store : Store := mkStore 1002 ∅ ∅ ∅ ∅ ∅ ∅.

Definition user_of_phone (phone : string) (st : Store) : option User :=
  id ← usersByPhone st !! phone; usersByID st !! id.

(** * Pure parts of the methods *)

(** [revokeSessionLocked], without its Redis write. *)
Definition revoke_session (sessionID : string) (session : Session) (st : Store) : Store :=
  with_sessions (<[sessionID := revoked session]> (sessions st))
    (if is_empty (s_RefreshTokenHash session) then refreshIndex st
     else delete (s_RefreshTokenHash session) (refreshIndex st))
    (alter (.∖ {[sessionID]}) (s_UserID session) (userSessionIDs st)) st.

Definition drop_id (userID : Z) (sessionID : string) (st : Store) : Store :=
  with_sessions (sessions st) (refreshIndex st)
    (alter (.∖ {[sessionID]}) userID (userSessionIDs st)) st.

Definition add_session (session : Session) (st : Store) : Store :=
  with_sessions (<[s_ID session := session]> (sessions st))
    (<[s_RefreshTokenHash session := s_ID session]> (refreshIndex st))
    (partial_alter (fun ids => Some ({[s_ID session]} ∪ default ∅ ids)) (s_UserID session)
       (userSessionIDs st)) st.

Definition rotate_session (sessionID : string) (old new : Session) (st : Store) : Store :=
  with_sessions (<[sessionID := new]> (sessions st))
    (<[s_RefreshTokenHash new := sessionID]> (delete (s_RefreshTokenHash old) (refreshIndex st)))
    (userSessionIDs st) st.

Definition add_user (u : User) (st : Store) : Store :=
  with_users (<[u_ID u := u]> (usersByID st)) (<[u_Phone u := u_ID u]> (usersByPhone st))
    (int64 (u_ID u + 1)) st.

Definition bumped (u : User) : User :=
  let v := int64 (u_SessionVersion u + 1) in with_SessionVersion (if v <=? 0 then 1 else v) u.

(** * The methods *)

Section store.
Context `{Bcrypt}.
Abbreviation M := (Effects.M Store auth_world store_error).

Definition get_store : M Store := fun s => (s, Ok (db s)).
Definition update_store (f : Store -> Store) : M unit := fun s => (set_db (f (db s)) s, Ok tt).

Definition syncUserVersionLocked (userID : Z) : M unit :=
  st <- get_store ;;
  match usersByID st !! userID with
  | None => ret tt
  | Some user => publish (SetUserVersion userID (u_SessionVersion user))
  end.

Definition syncSessionStateLocked (session : Session) : M unit :=
  t <- get_now ;;
  let ttl := s_ExpiresAt session - t in
  if ttl <=? 0 then ret tt else publish (SaveSession (snapshot_of session) ttl).

Definition deleteSessionStateLocked (sessionID : string) : M unit :=
  if is_empty sessionID then ret tt else publish (DeleteSession sessionID).

Definition revokeSessionLocked (sessionID : string) : M unit :=
  st <- get_store ;;
  match sessions st !! sessionID with
  | None => ret tt
  | Some session =>
      update_store (revoke_session sessionID session) ;;;
      deleteSessionStateLocked sessionID
  end.

Definition ids_of (userID : Z) (st : Store) : gset string := default ∅ (userSessionIDs st !! userID).

Definition revokeUserSessionsLocked (userID : Z) : M unit :=
  st <- get_store ;;
  for_each (fun sessionID =>
    revokeSessionLocked sessionID ;;;
    update_store (drop_id userID sessionID)) (elements (ids_of userID st)).

Definition revokeUserDeviceSessionsLocked (userID : Z) (deviceType : string) : M unit :=
  st <- get_store ;;
  for_each (fun sessionID =>
    st' <- get_store ;;
    match sessions st' !! sessionID with
    | None => update_store (drop_id userID sessionID)
    | Some session =>
        if str_eqb (s_DeviceType session) deviceType then
          revokeSessionLocked sessionID ;;;
          update_store (drop_id userID sessionID)
        else ret tt
    end) (elements (ids_of userID st)).

Definition bumpUserSessionVersionLocked (userID : Z) : M unit :=
  update_store (fun st =>
    match usersByID st !! userID with None => st | Some user => set_user (bumped user) st end).

Definition seed_user (id : Z) (phone displayName password role : string) : M unit :=
  hash <- GenerateFromPassword password ;;
  t <- get_now ;;
  update_store (fun st =>
    with_users (<[id := mkUser id phone displayName hash 1 role statusActive t]> (usersByID st))
      (<[phone := id]> (usersByPhone st)) (nextUserID st) st).

Definition seedDemoUser (password : string) : M unit :=
  let password := if is_empty password then "flashmall123" else password in
  seed_user 1001 "13800000001" "Flash Mall 用户 1001" password "user" ;;;
  syncUserVersionLocked 1001 ;;;
  seed_user 1002 "13800000002" "Flash Mall 管理员" "admin123" "admin" ;;;
  update_store (fun st => with_users (usersByID st) (usersByPhone st) 1003 st) ;;;
  syncUserVersionLocked 1002.

Definition NewStoreWithState (demoPassword : string) : M unit := ignore (seedDemoUser demoPassword).

Definition IssueCode (phone scene : string) (ttlSeconds : Z) : M (string * Z) :=
  if is_empty phone || is_empty scene then throw ErrInvalidCode else
  t <- get_now ;;
  let expiresAt := t + seconds (default_to ttlSeconds 300) in
  update_store (fun st =>
    with_codes (<[codeKey phone scene := mkCode issued_code expiresAt 0]> (codes st)) st) ;;;
  ret (issued_code, expiresAt).

Definition ConsumeCode (phone scene code : string) (maxAttempts : Z) : M unit :=
  let key := codeKey phone scene in
  t <- get_now ;;
  st <- get_store ;;
  let forget := update_store (fun st => with_codes (delete key (codes st)) st) in
  match codes st !! key with
  | None => forget ;;; throw ErrInvalidCode
  | Some entry =>
      if vc_ExpiresAt entry <? t then forget ;;; throw ErrInvalidCode
      else if str_eqb (vc_Code entry) code then forget
      else
        let attempts := int64 (vc_Attempts entry + 1) in
        (if (0 <? maxAttempts) && (maxAttempts <=? attempts) then forget
         else update_store (fun st => with_codes
                (<[key := mkCode (vc_Code entry) (vc_ExpiresAt entry) attempts]> (codes st)) st)) ;;;
        throw ErrInvalidCode
  end.

Definition ResetCode (phone scene : string) : M unit :=
  update_store (fun st => with_codes (delete (codeKey phone scene) (codes st)) st).

Definition CreateUser (phone displayName password : string) : M User :=
  if is_empty phone || is_empty password then throw ErrInvalidCredentials else
  st <- get_store ;;
  match usersByPhone st !! phone with
  | Some _ => throw ErrUserExists
  | None =>
      hash <- GenerateFromPassword password ;;
      t <- get_now ;;
      let name := if is_empty displayName then "闪购用户 " +:+ itoa (nextUserID st) else displayName in
      let user := mkUser (nextUserID st) phone name hash 1 "user" statusActive t in
      update_store (add_user user) ;;;
      syncUserVersionLocked (u_ID user) ;;;
      ret user
  end.

Definition found (user : option User) (e : store_error) : M User :=
  match user with
  | Some u => if u_Status u =? statusActive then ret u else throw e
  | None => throw e
  end.

Definition Authenticate (userID : Z) (phone password : string) : M User :=
  st <- get_store ;;
  let user := if is_empty phone then usersByID st !! userID else user_of_phone phone st in
  u <- found user ErrInvalidCredentials ;;
  require (bcrypt_compare (u_PasswordHash u) password) ErrInvalidCredentials ;;;
  ret u.

Definition GetUserByPhone (phone : string) : M User :=
  st <- get_store ;; found (user_of_phone phone st) ErrUserNotFound.

Definition GetUserByID (userID : Z) : M User :=
  st <- get_store ;; found (usersByID st !! userID) ErrUserNotFound.

Definition GetUserByIDAnyStatus (userID : Z) : M User :=
  st <- get_store ;;
  match usersByID st !! userID with Some u => ret u | None => throw ErrUserNotFound end.

Definition SetUserStatus (userID status : Z) : M User :=
  if negb (status =? statusActive) && negb (status =? userStatusDisabled)
  then throw ErrInvalidCredentials else
  st <- get_store ;;
  match usersByID st !! userID with
  | None => throw ErrUserNotFound
  | Some user =>
      let user' := with_Status status
                     (with_SessionVersion (int64 (u_SessionVersion user + 1)) user) in
      update_store (set_user user') ;;;
      (if status =? statusActive then ret tt
       else for_each revokeSessionLocked (elements (ids_of userID st))) ;;;
      syncUserVersionLocked userID ;;;
      ret user'
  end.

Definition live_session (t : Z) (s : Session) : bool := negb (s_Revoked s) && (t <=? s_ExpiresAt s).

Definition GetActiveSession (sessionID : string) : M Session :=
  if is_empty sessionID then throw ErrSessionNotFound else
  t <- get_now ;;
  st <- get_store ;;
  match sessions st !! sessionID with
  | Some s => if live_session t s then ret s else throw ErrSessionNotFound
  | None => throw ErrSessionNotFound
  end.

Definition week : Z := 7 * 24 * 60 * 60.

Definition CreateSessionForDevice (userID : Z) (deviceType : string) (ttlSeconds : Z)
  : M (string * string) :=
  let deviceType := if is_empty deviceType then "web" else deviceType in
  sessionID <- randomToken ;;
  refreshFamilySecret <- randomSecret ;;
  t <- get_now ;;
  let expiresAt := t + seconds (default_to ttlSeconds week) in
  st <- get_store ;;
  match usersByID st !! userID with
  | None => throw ErrUserNotFound
  | Some user =>
      revokeUserDeviceSessionsLocked userID deviceType ;;;
      let session := new_session sessionID refreshFamilySecret userID deviceType
                       (u_SessionVersion user) expiresAt in
      update_store (add_session session) ;;;
      syncSessionStateLocked session ;;;
      ret (sessionID, buildRefreshToken sessionID 1 refreshFamilySecret)
  end.

Definition CreateSession (userID ttlSeconds : Z) : M (string * string) :=
  CreateSessionForDevice userID "web" ttlSeconds.

(** The checks [RefreshSession] and [Logout] share: the session of a token that
    may be used now, or the error; a replayed token revokes its family. *)
Definition use_token (refreshToken : string) : M (string * Session) :=
  match parseRefreshToken refreshToken with
  | None => throw ErrRefreshTokenInvalid
  | Some (sessionID, generation, signature) =>
      t <- get_now ;;
      st <- get_store ;;
      match sessions st !! sessionID with
      | None => throw ErrRefreshTokenInvalid
      | Some session =>
          require (live_session t session) ErrRefreshTokenInvalid ;;;
          require (verifyRefreshTokenSignature sessionID generation signature
                     (s_RefreshFamilySecret session)) ErrRefreshTokenInvalid ;;;
          if generation <? s_RefreshGeneration session then
            revokeSessionLocked sessionID ;;; throw ErrRefreshTokenReplayed
          else if s_RefreshGeneration session <? generation then throw ErrRefreshTokenInvalid
          else ret (sessionID, session)
      end
  end.

Definition RefreshSession (refreshToken : string) (ttlSeconds : Z) : M (Session * string) :=
  ' (sessionID, session) <- use_token refreshToken ;;
  t <- get_now ;;
  let session' := rotate sessionID (t + seconds (default_to ttlSeconds week)) session in
  update_store (rotate_session sessionID session session') ;;;
  syncSessionStateLocked session' ;;;
  ret (session', buildRefreshToken sessionID (s_RefreshGeneration session')
                   (s_RefreshFamilySecret session)).

Definition Logout (refreshToken : string) : M unit :=
  ' (sessionID, _) <- use_token refreshToken ;;
  revokeSessionLocked sessionID.

Definition LogoutAll (userID : Z) : M unit :=
  bumpUserSessionVersionLocked userID ;;;
  syncUserVersionLocked userID ;;;
  revokeUserSessionsLocked userID.

Definition UpdatePassword (phone newPassword : string) : M User :=
  if is_empty phone || is_empty newPassword then throw ErrInvalidCredentials else
  hash <- GenerateFromPassword newPassword ;;
  st <- get_store ;;
  match usersByPhone st !! phone with
  | None => throw ErrUserNotFound
  | Some id =>
      update_store (fun st =>
        match usersByID st !! id with
        | Some u => set_user (with_PasswordHash hash u) st | None => st
        end) ;;;
      bumpUserSessionVersionLocked id ;;;
      syncUserVersionLocked id ;;;
      revokeUserSessionsLocked id ;;;
      st' <- get_store ;;
      match usersByID st' !! id with Some u => ret u | None => throw ErrUserNotFound end
  end.

(** ** Listing users *)

Definition adminUserStatusValue (status : Z) : Z := if status =? 0 then statusActive else status.

Definition userMatchesKeyword (user : User) (keyword : string) : bool :=
  contains (to_lower (u_Phone user)) keyword || contains (to_lower (u_DisplayName user)) keyword ||
  contains (itoa (u_ID user)) keyword.

Definition listed (status : Z) (role keyword : string) (u : User) : bool :=
  negb ((0 <? status) && negb (adminUserStatusValue (u_Status u) =? status)) &&
  (is_empty role || str_eqb (u_Role u) role) &&
  (is_empty keyword || userMatchesKeyword u keyword).

Definition newer (a b : User) : Prop := u_ID b <= u_ID a.
#[export] Instance newer_dec : RelDecision newer.
Proof. intros a b. unfold newer. apply _. Defined.

Definition listed_users (status : Z) (role keyword : string) (st : Store) : list User :=
  merge_sort newer
    (filter (fun u => listed status (trim_space role) (to_lower (trim_space keyword)) u = true)
       ((map_to_list (usersByID st)).*2)).

(** [users[start:end]]; [None] is the run-time panic of a slice out of range. *)
Definition slice {A} (l : list A) (first last : Z) : option (list A) :=
  if (0 <=? first) && (first <=? last) && (last <=? Z.of_nat (length l))
  then Some (take (Z.to_nat (last - first)) (drop (Z.to_nat first) l)) else None.

Definition paged {A} (page pageSize : Z) (users : list A) : option (list A) :=
  let total := Z.of_nat (length users) in
  if pageSize <=? 0 then Some users else
  let page := default_to page 1 in
  let start := int64 (int64 (page - 1) * pageSize) in
  if total <=? start then Some [] else
  let end_ := int64 (start + pageSize) in
  slice users start (if total <? end_ then total else end_).

Definition ListUsers (page pageSize status : Z) (role keyword : string) (st : Store)
  : option (list User * Z) :=
  let users := listed_users status role keyword st in
  l ← paged page pageSize users; Some (l, Z.of_nat (length users)).

Definition ListAllUsers (st : Store) : option (list User) := fst <$> ListUsers 1 0 0 "" "" st.

#[export] Instance memory_store : AuthStore Store := {|
  AuthData.IssueCode := IssueCode;
  AuthData.ConsumeCode := ConsumeCode;
  AuthData.ResetCode := ResetCode;
  AuthData.CreateUser := CreateUser;
  AuthData.Authenticate := Authenticate;
  AuthData.GetUserByPhone := GetUserByPhone;
  AuthData.GetUserByID := GetUserByID;
  AuthData.GetUserByIDAnyStatus := GetUserByIDAnyStatus;
  AuthData.SetUserStatus := SetUserStatus;
  AuthData.GetActiveSession := GetActiveSession;
  AuthData.CreateSessionForDevice := CreateSessionForDevice;
  AuthData.RefreshSession := RefreshSession;
  AuthData.Logout := Logout;
  AuthData.LogoutAll := LogoutAll;
  AuthData.UpdatePassword := UpdatePassword
|}.
End store.
