(* ===== verification/AuthMemorySafety.v ===== *)
(** Correctness of the in-memory auth store: the books of the store (indexes,
    one live session per device, tokens that match their sessions) under any
    sequence of calls, refresh tokens that are accepted once, and sessions that
    stay ended. *)

From Stdlib Require Import Ascii.
From S2P Require Import Prelude Effects GoText AuthTokens AuthData AuthMemory.
Close Scope char_scope.

(** * Steps that only update the store

    The writes to Redis may fail; the store does not notice.  Such a method is
    a function on the store. *)
Section updates.
Abbreviation M := (Effects.M Store auth_world store_error).

Definition updates (m : M unit) (f : Store -> Store) : Prop :=
  forall s, (m s).2 = Ok tt /\ db (m s).1 = f (db s) /\ now (m s).1 = now s /\
            random (ext (m s).1) = random (ext s).

Lemma updates_run m f s :
  updates m f -> exists s', m s = (s', Ok tt) /\ db s' = f (db s) /\ now s' = now s /\
                            random (ext s') = random (ext s).
Proof.
  intros Hm. destruct (Hm s) as (H1&H2&H3&H4). exists (m s).1. split; [|done].
  destruct (m s) as [s' r]. simpl in *. by subst.
Qed.

Lemma updates_ret : updates (ret tt) id.
Proof. by intros s. Qed.

Lemma updates_update f : updates (update_store f) f.
Proof. by intros s. Qed.

Lemma updates_bind m k f g : updates m f -> updates k g -> updates (m ;;; k) (fun d => g (f d)).
Proof.
  intros Hm Hk s. unfold bind. destruct (updates_run m f s Hm) as (s1&->&Hd&Hn&Hr).
  destruct (Hk s1) as (H1&H2&H3&H4). rewrite Hd in H2. rewrite Hn in H3. by rewrite Hr in H4.
Qed.

Lemma updates_get (k : Store -> M unit) g :
  (forall d, updates (k d) (g d)) -> updates (st <- get_store ;; k st) (fun d => g d d).
Proof. intros Hk s. apply Hk. Qed.

Lemma updates_now (k : Z -> M unit) f :
  (forall t, updates (k t) f) -> updates (t <- get_now ;; k t) f.
Proof. intros Hk s. apply Hk. Qed.

Lemma updates_ext m f g : updates m f -> (forall d, f d = g d) -> updates m g.
Proof. intros Hm He s. rewrite <- He. apply Hm. Qed.

Lemma updates_for_each {A} (h : A -> M unit) (f : A -> Store -> Store) l :
  (forall a, updates (h a) (f a)) -> updates (for_each h l) (fun d => foldl (fun d a => f a d) d l).
Proof.
  intros Hh. induction l as [|a l IH]; simpl; [apply updates_ret|].
  by apply (updates_bind (h a) _ (f a) (fun d => foldl (fun d a => f a d) d l)).
Qed.

Lemma updates_publish (op : auth_world -> auth_world) e :
  (forall w, random (op w) = random w) ->
  updates (publish (call (fun w => (op w, Ok tt)) e)) id.
Proof.
  intros Hr s. unfold publish. destruct (has_state (ext s)); [|done].
  unfold ignore, call, pop_fault. destruct (faults s) as [|[] fs]; simpl; by rewrite ?Hr.
Qed.

Lemma updates_syncUserVersion u : updates (syncUserVersionLocked u) id.
Proof.
  apply (updates_get _ (fun _ => id)). intros d.
  destruct (usersByID d !! u); [by apply updates_publish|apply updates_ret].
Qed.

Lemma updates_save x ttl : updates (publish (SaveSession x ttl)) id.
Proof.
  intros s. unfold publish, SaveSession. destruct (has_state (ext s)); [|done].
  unfold ignore, bind, get_now, call, pop_fault. by destruct (faults s) as [|[] fs].
Qed.

Lemma updates_syncSession x : updates (syncSessionStateLocked x) id.
Proof.
  apply updates_now. intros t. destruct (_ <=? 0); [apply updates_ret|apply updates_save].
Qed.

Lemma updates_deleteState sid : updates (deleteSessionStateLocked sid) id.
Proof.
  unfold deleteSessionStateLocked. destruct (is_empty sid); [apply updates_ret|].
  by apply updates_publish.
Qed.

Definition revoke1 (sid : string) (d : Store) : Store :=
  match sessions d !! sid with None => d | Some x => revoke_session sid x d end.

Definition revoke_if (p : Session -> bool) (u : Z) (sid : string) (d : Store) : Store :=
  match sessions d !! sid with
  | None => drop_id u sid d
  | Some x => if p x then drop_id u sid (revoke_session sid x d) else d
  end.

Definition bump (u : Z) (d : Store) : Store :=
  match usersByID d !! u with None => d | Some x => set_user (bumped x) d end.

Definition revoke_user (u : Z) (d : Store) : Store :=
  foldl (fun d sid => revoke_if (fun _ => true) u sid d) d (elements (ids_of u d)).
Definition revoke_device (u : Z) (dev : string) (d : Store) : Store :=
  foldl (fun d sid => revoke_if (fun x => str_eqb (s_DeviceType x) dev) u sid d) d
    (elements (ids_of u d)).
Definition revoke_each (u : Z) (d : Store) : Store :=
  foldl (fun d sid => revoke1 sid d) d (elements (ids_of u d)).

Lemma updates_revokeSession sid : updates (revokeSessionLocked sid) (revoke1 sid).
Proof.
  apply (updates_ext _ (fun d => match sessions d !! sid with
                                 | None => id | Some x => revoke_session sid x end d)).
  - apply (updates_get _ (fun d => match sessions d !! sid with
                                   | None => id | Some x => revoke_session sid x end)).
    intros d. destruct (sessions d !! sid) as [x|]; [|apply updates_ret].
    by apply (updates_bind _ _ (revoke_session sid x) id);
      [apply updates_update|apply updates_deleteState].
  - intros d. unfold revoke1. by destruct (sessions d !! sid).
Qed.

Lemma updates_revokeUserSessions u : updates (revokeUserSessionsLocked u) (revoke_user u).
Proof.
  apply (updates_get _ (fun d0 d => foldl (fun d sid => revoke_if (fun _ => true) u sid d) d
                                      (elements (ids_of u d0)))).
  intros d0. apply updates_for_each. intros sid.
  apply (updates_ext _ (fun d => drop_id u sid (revoke1 sid d))).
  - by apply (updates_bind _ _ (revoke1 sid) (drop_id u sid));
      [apply updates_revokeSession|apply updates_update].
  - intros d. unfold revoke1, revoke_if. by destruct (sessions d !! sid).
Qed.

Lemma updates_revokeUserDevice u dev :
  updates (revokeUserDeviceSessionsLocked u dev) (revoke_device u dev).
Proof.
  apply (updates_get _ (fun d0 d => foldl (fun d sid =>
           revoke_if (fun x => str_eqb (s_DeviceType x) dev) u sid d) d (elements (ids_of u d0)))).
  intros d0. apply updates_for_each. intros sid.
  set (dev_is := fun x => str_eqb (s_DeviceType x) dev).
  apply (updates_ext _ (fun d => match sessions d !! sid with
           | None => drop_id u sid
           | Some x => if dev_is x then fun d => drop_id u sid (revoke1 sid d) else id end d)).
  - apply (updates_get _ (fun d => match sessions d !! sid with
           | None => drop_id u sid
           | Some x => if dev_is x then fun d => drop_id u sid (revoke1 sid d) else id end)).
    intros d. destruct (sessions d !! sid) as [x|]; [|apply updates_update].
    unfold dev_is. cbv beta. destruct (str_eqb _ _); [|apply updates_ret].
    by apply (updates_bind _ _ (revoke1 sid) (drop_id u sid));
      [apply updates_revokeSession|apply updates_update].
  - intros d. unfold revoke_if, revoke1, dev_is.
    destruct (sessions d !! sid) as [x|] eqn:Hx; [|done].
    destruct (str_eqb (s_DeviceType x) dev); [|done]. by rewrite Hx.
Qed.

Lemma updates_revokeEach l :
  updates (for_each revokeSessionLocked l) (fun d => foldl (fun d sid => revoke1 sid d) d l).
Proof. apply updates_for_each. intros sid. apply updates_revokeSession. Qed.

Lemma updates_bump u : updates (bumpUserSessionVersionLocked u) (bump u).
Proof. apply updates_update. Qed.
End updates.

(** * The invariant

    [n] is how many more operations fit before a counter could wrap. *)

Record session_ok (n : Z) (d : Store) (sid : string) (x : Session) : Prop := {
  so_id : s_ID x = sid;
  so_name : sid <> "" /\ free_of "."%char sid = true;
  so_owner : is_Some (usersByID d !! s_UserID x);
  so_generation : 1 <= s_RefreshGeneration x /\ s_RefreshGeneration x + n <= int64_max;
  so_hash : s_RefreshTokenHash x =
            hashToken (buildRefreshToken sid (s_RefreshGeneration x) (s_RefreshFamilySecret x))
}.

Definition live_at (d : Store) (u : Z) (sid : string) : Prop :=
  exists x, sessions d !! sid = Some x /\ s_UserID x = u /\ s_Revoked x = false.

Record store_inv (n : Z) (d : Store) : Prop := {
  si_next : 0 < nextUserID d /\ nextUserID d + n <= int64_max;
  si_users i u : usersByID d !! i = Some u ->
    u_ID u = i /\ usersByPhone d !! u_Phone u = Some i /\ i < nextUserID d;
  si_phones p i : usersByPhone d !! p = Some i ->
    exists u, usersByID d !! i = Some u /\ u_Phone u = p;
  si_sessions sid x : sessions d !! sid = Some x -> session_ok n d sid x;
  si_ids u sid : sid ∈ ids_of u d <-> live_at d u sid;
  si_device sid1 sid2 x1 x2 :
    sessions d !! sid1 = Some x1 -> sessions d !! sid2 = Some x2 ->
    s_Revoked x1 = false -> s_Revoked x2 = false ->
    s_UserID x1 = s_UserID x2 -> s_DeviceType x1 = s_DeviceType x2 -> sid1 = sid2;
  si_index h sid : refreshIndex d !! h = Some sid ->
    exists x, sessions d !! sid = Some x /\ s_Revoked x = false /\ s_RefreshTokenHash x = h
}.

Lemma store_inv_weaken n m d : m <= n -> store_inv n d -> store_inv m d.
Proof.
  intros Hm [H1 H2 H3 H4 H5 H6 H7]. constructor; try done; [lia|].
  intros sid x Hx. destruct (H4 _ _ Hx) as [? ? ? [? ?] ?]. constructor; try done. lia.
Qed.

(** The part of a state a session needs is its users. *)
Lemma session_ok_users n d d' sid x :
  (forall i, is_Some (usersByID d !! i) -> is_Some (usersByID d' !! i)) ->
  session_ok n d sid x -> session_ok n d' sid x.
Proof. intros Hu [? ? ? ? ?]. constructor; auto. Qed.

Lemma hex_length l : String.length (hex l) = (2 * length l)%nat.
Proof. induction l as [|b l IH]; simpl; [done|]. rewrite IH. lia. Qed.

Lemma hashToken_not_empty t : hashToken t <> "".
Proof.
  intros H. pose proof (hex_length (sha256_bytes (bytes_of_string t))) as Hl.
  rewrite length_sha256_bytes in Hl. unfold hashToken, sha256_hex in H. by rewrite H in Hl.
Qed.

Lemma ids_of_alter u f v d ss idx :
  ids_of u (with_sessions ss idx (alter f v (userSessionIDs d)) d) =
  if decide (u = v) then (if userSessionIDs d !! u is Some ids then f ids else ∅) else ids_of u d.
Proof.
  unfold ids_of. simpl. destruct (decide (u = v)) as [->|Hne].
  - rewrite lookup_alter_eq. by destruct (userSessionIDs d !! v).
  - by rewrite lookup_alter_ne.
Qed.

Lemma ids_of_without u v sid d ss idx :
  ids_of u (with_sessions ss idx (alter (.∖ {[sid]}) v (userSessionIDs d)) d) =
  if decide (u = v) then ids_of u d ∖ {[sid]} else ids_of u d.
Proof.
  rewrite ids_of_alter. unfold ids_of. destruct (decide (u = v)) as [->|]; [|done].
  destruct (userSessionIDs d !! v); simpl; [done|set_solver].
Qed.

Lemma inv_revoke_session n d sid x :
  store_inv n d -> sessions d !! sid = Some x -> store_inv n (revoke_session sid x d).
Proof.
  intros [H1 H2 H3 H4 H5 H6 H7] Hx. unfold revoke_session.
  assert (forall sid' y, <[sid := revoked x]> (sessions d) !! sid' = Some y ->
            exists z, sessions d !! sid' = Some z /\ s_UserID y = s_UserID z /\
              s_DeviceType y = s_DeviceType z /\ (s_Revoked y = false -> y = z /\ sid' <> sid))
    as Hold.
  { intros sid' y Hy. destruct (decide (sid' = sid)) as [->|Hne].
    - rewrite lookup_insert_eq in Hy. injection Hy as <-. by exists x.
    - rewrite lookup_insert_ne in Hy by congruence. by exists y. }
  constructor; simpl; try done.
  - intros sid' y Hy. destruct (decide (sid' = sid)) as [->|Hne].
    + rewrite lookup_insert_eq in Hy. injection Hy as <-.
      destruct (H4 _ _ Hx) as [? ? ? ? ?]. by constructor.
    + rewrite lookup_insert_ne in Hy by congruence. apply (session_ok_users n d); auto.
  - intros u sid'. rewrite ids_of_without.
    assert (sid' ∈ (if decide (u = s_UserID x) then ids_of u d ∖ {[sid]} else ids_of u d) <->
            sid' ∈ ids_of u d /\ (u = s_UserID x -> sid' <> sid)) as ->.
    { destruct (decide (u = s_UserID x)); set_solver. }
    rewrite H5. split.
    + intros [(y&Hy&Hu&Hr) Hs]. assert (sid' <> sid) as Hne by (intros ->; apply Hs; congruence).
      exists y. simpl. by rewrite lookup_insert_ne by congruence.
    + intros (y&Hy&Hu&Hr). simpl in Hy. destruct (Hold _ _ Hy) as (z&Hz&_&_&Heq).
      destruct (Heq Hr) as [-> ?]. split; [by exists z|done].
  - intros sid1 sid2 x1 x2 Hx1 Hx2 Hr1 Hr2 Hu Hd.
    destruct (Hold _ _ Hx1) as (z1&Hz1&_&_&Hq1). destruct (Hq1 Hr1) as [-> _].
    destruct (Hold _ _ Hx2) as (z2&Hz2&_&_&Hq2). destruct (Hq2 Hr2) as [-> _]. eauto.
  - intros h sid' Hh.
    assert (is_empty (s_RefreshTokenHash x) = false) as He.
    { apply str_eqb_neq. rewrite (so_hash _ _ _ _ (H4 _ _ Hx)). apply hashToken_not_empty. }
    rewrite He in Hh. apply lookup_delete_Some in Hh as [Hne Hh].
    destruct (H7 _ _ Hh) as (y&Hy&Hr&Hhy). exists y.
    rewrite lookup_insert_ne; [done|]. intros ->. congruence.
Qed.

(** Dropping an identifier that is not there. *)
Lemma inv_drop_id n d u sid :
  store_inv n d -> sid ∉ ids_of u d -> store_inv n (drop_id u sid d).
Proof.
  intros [H1 H2 H3 H4 H5 H6 H7] Hs. unfold drop_id. constructor; simpl; try done.
  - intros sid' y Hy. by apply (session_ok_users n d); auto.
  - intros v sid'. rewrite ids_of_without.
    assert (sid' ∈ (if decide (v = u) then ids_of v d ∖ {[sid]} else ids_of v d) <->
            sid' ∈ ids_of v d) as ->; [|apply H5].
    destruct (decide (v = u)) as [->|]; set_solver.
Qed.

Lemma not_listed_revoked n d sid x u :
  store_inv n d -> sessions d !! sid = Some x ->
  sid ∉ ids_of u (revoke_session sid x d).
Proof.
  intros Hi Hx Hin. pose proof (inv_revoke_session n d sid x Hi Hx) as Hi'.
  apply (si_ids _ _ Hi') in Hin as (y&Hy&_&Hr). simpl in Hy. rewrite lookup_insert_eq in Hy.
  injection Hy as <-. done.
Qed.

Lemma inv_revoke1 n d sid : store_inv n d -> store_inv n (revoke1 sid d).
Proof.
  intros Hi. unfold revoke1. destruct (sessions d !! sid) eqn:Hx; [|done].
  by apply inv_revoke_session.
Qed.

Lemma inv_revoke_if n d p u sid : store_inv n d -> store_inv n (revoke_if p u sid d).
Proof.
  intros Hi. unfold revoke_if. destruct (sessions d !! sid) as [x|] eqn:Hx.
  - destruct (p x); [|done]. apply inv_drop_id; [by apply inv_revoke_session|].
    by eapply not_listed_revoked.
  - apply inv_drop_id; [done|]. rewrite (si_ids _ _ Hi). intros (x&?&_). congruence.
Qed.

Lemma inv_foldl {A} n (f : A -> Store -> Store) l d :
  (forall a d, store_inv n d -> store_inv n (f a d)) ->
  store_inv n d -> store_inv n (foldl (fun d a => f a d) d l).
Proof. intros Hf. revert d. induction l as [|a l IH]; intros d Hd; simpl; auto. Qed.

Lemma inv_revoke_user n d u : store_inv n d -> store_inv n (revoke_user u d).
Proof. apply inv_foldl. intros sid d'. apply inv_revoke_if. Qed.
Lemma inv_revoke_device n d u dev : store_inv n d -> store_inv n (revoke_device u dev d).
Proof. apply (inv_foldl n (fun sid => revoke_if _ u sid)). intros sid d'. apply inv_revoke_if. Qed.
Lemma inv_revoke_each n d u : store_inv n d -> store_inv n (revoke_each u d).
Proof. apply inv_foldl. intros sid d'. apply inv_revoke1. Qed.

(** Users: an update that keeps identity and phone, and a new user. *)
Lemma inv_set_user n d u u' :
  usersByID d !! u_ID u' = Some u -> u_ID u = u_ID u' -> u_Phone u = u_Phone u' ->
  store_inv n d -> store_inv n (set_user u' d).
Proof.
  intros Hu Hid Hp [H1 H2 H3 H4 H5 H6 H7]. unfold set_user. constructor; simpl; try done.
  - intros i v Hv. apply lookup_insert_Some in Hv as [[<- <-]|[Hne Hv]]; [|by apply H2].
    destruct (H2 _ _ Hu) as (?&?&?). by rewrite <- Hp.
  - intros p i Hpi. destruct (H3 _ _ Hpi) as (v&Hv&Hvp).
    destruct (decide (i = u_ID u')) as [->|Hne].
    + exists u'. rewrite lookup_insert_eq. split; [done|]. congruence.
    + exists v. by rewrite lookup_insert_ne by congruence.
  - intros sid x Hx. apply (session_ok_users n d); [|by apply H4].
    intros i [v Hv]. simpl. destruct (decide (i = u_ID u')) as [->|Hne].
    + rewrite lookup_insert_eq. by eexists.
    + rewrite lookup_insert_ne by congruence. by eexists.
Qed.

Lemma inv_add_user n d u :
  u_ID u = nextUserID d -> usersByPhone d !! u_Phone u = None ->
  0 <= n -> in_int64 (nextUserID d + 1) ->
  store_inv (1 + n) d -> store_inv n (add_user u d).
Proof.
  intros Hid Hp Hn Hr Hi. pose proof (store_inv_weaken (1 + n) n d ltac:(lia) Hi) as Hw.
  destruct Hi as [H1 _ _ _ _ _ _]. destruct Hw as [_ H2 H3 H4 H5 H6 H7].
  assert (usersByID d !! u_ID u = None) as Hnew.
  { destruct (usersByID d !! u_ID u) as [v|] eqn:Hv; [|done].
    destruct (H2 _ _ Hv) as (?&?&?). lia. }
  assert (int64 (u_ID u + 1) = nextUserID d + 1) as Hnext by (rewrite Hid; by apply int64_id).
  unfold add_user. constructor; simpl; rewrite ?Hnext; try done; [lia|..].
  - intros i v Hv. apply lookup_insert_Some in Hv as [[<- <-]|[Hne Hv]].
    + rewrite lookup_insert_eq. split_and!; [done|done|lia].
    + destruct (H2 _ _ Hv) as (?&Hv2&?). repeat split; [done| |lia].
      rewrite lookup_insert_ne; [done|]. congruence.
  - intros p i Hpi. apply lookup_insert_Some in Hpi as [[<- <-]|[Hne Hpi]].
    + exists u. by rewrite lookup_insert_eq.
    + destruct (H3 _ _ Hpi) as (v&Hv&Hvp). exists v. rewrite lookup_insert_ne; [done|]. congruence.
  - intros sid x Hx. apply (session_ok_users n d); [|by apply H4].
    intros i [v Hv]. simpl. rewrite lookup_insert_ne by congruence. by eexists.
Qed.

Lemma inv_with_codes n d c : store_inv n d -> store_inv n (with_codes c d).
Proof.
  intros [H1 H2 H3 H4 H5 H6 H7]. constructor; simpl; try done.
  intros sid x Hx. by apply (session_ok_users n d); auto.
Qed.

Lemma inv_add_session n d x :
  store_inv n d -> sessions d !! s_ID x = None -> session_ok n d (s_ID x) x ->
  s_Revoked x = false ->
  (forall sid y, sessions d !! sid = Some y -> s_UserID y = s_UserID x ->
     s_DeviceType y = s_DeviceType x -> s_Revoked y = true) ->
  store_inv n (add_session x d).
Proof.
  intros [H1 H2 H3 H4 H5 H6 H7] Hnew Hok Hr Hdev.
  assert (forall sid y, <[s_ID x := x]> (sessions d) !! sid = Some y ->
            (sid = s_ID x /\ y = x) \/ sessions d !! sid = Some y) as Hold.
  { intros sid y [[<- <-]|[_ ?]]%lookup_insert_Some; auto. }
  unfold add_session. constructor; simpl; try done.
  - intros sid y Hy. apply (session_ok_users n d); [done|].
    destruct (Hold _ _ Hy) as [[-> ->]|?]; auto.
  - intros u sid. unfold ids_of. simpl.
    transitivity (sid ∈ ids_of u d \/ (u = s_UserID x /\ sid = s_ID x)).
    { unfold ids_of. destruct (decide (u = s_UserID x)) as [->|Hne].
      - rewrite lookup_partial_alter_eq. simpl. set_solver.
      - rewrite lookup_partial_alter_ne by done. naive_solver. }
    rewrite H5. split.
    + intros [(y&Hy&?&?)|[-> ->]].
      * exists y. simpl. rewrite lookup_insert_ne; [done|]. congruence.
      * exists x. simpl. by rewrite lookup_insert_eq.
    + intros (y&Hy&Hu&Hry). simpl in Hy.
      destruct (Hold _ _ Hy) as [[-> ->]|Hy']; [right; done|left; by exists y].
  - intros sid1 sid2 x1 x2 Hx1 Hx2 Hr1 Hr2 Hu Hd.
    destruct (Hold _ _ Hx1) as [[-> ->]|Hx1'], (Hold _ _ Hx2) as [[-> ->]|Hx2']; [done| | |eauto].
    + rewrite (Hdev _ _ Hx2') in Hr2; done.
    + rewrite (Hdev _ _ Hx1') in Hr1; done.
  - intros h sid [[<- <-]|[Hne Hh]]%lookup_insert_Some.
    + exists x. by rewrite lookup_insert_eq.
    + destruct (H7 _ _ Hh) as (y&Hy&?&?). exists y. rewrite lookup_insert_ne; [done|]. congruence.
Qed.

Lemma inv_rotate_session n d sid x e :
  store_inv (1 + n) d -> 0 <= n -> sessions d !! sid = Some x -> s_Revoked x = false ->
  store_inv n (rotate_session sid x (rotate sid e x) d).
Proof.
  intros Hi Hn Hx Hr. pose proof (so_generation _ _ _ _ (si_sessions _ _ Hi _ _ Hx)) as Hg.
  apply (store_inv_weaken _ n) in Hi; [|lia]. destruct Hi as [H1 H2 H3 H4 H5 H6 H7].
  assert (int64 (s_RefreshGeneration x + 1) = s_RefreshGeneration x + 1) as Hg'.
  { apply int64_id. unfold_int64. lia. }
  assert (forall sid' y, <[sid := rotate sid e x]> (sessions d) !! sid' = Some y ->
            (sid' = sid /\ y = rotate sid e x) \/ (sid' <> sid /\ sessions d !! sid' = Some y))
    as Hold.
  { intros sid' y [[<- <-]|[? ?]]%lookup_insert_Some; auto. }
  unfold rotate_session. constructor; simpl; try done.
  - intros sid' y Hy. apply (session_ok_users n d); [done|].
    destruct (Hold _ _ Hy) as [[-> ->]|[_ Hy']]; [|by apply H4].
    destruct (H4 _ _ Hx) as [? ? ? ? ?]. constructor; simpl; rewrite ?Hg'; try done. lia.
  - intros u sid'. change (ids_of u _) with (ids_of u d). rewrite H5. split.
    + intros (y&Hy&Hu&Hry). destruct (decide (sid' = sid)) as [->|Hne].
      * exists (rotate sid e x). simpl. rewrite lookup_insert_eq.
        replace y with x in Hu by congruence. done.
      * exists y. simpl. by rewrite lookup_insert_ne by congruence.
    + intros (y&Hy&Hu&Hry). simpl in Hy.
      destruct (Hold _ _ Hy) as [[-> ->]|[_ Hy']]; [by exists x|by exists y].
  - intros sid1 sid2 x1 x2 Hx1 Hx2 Hr1 Hr2 Hu Hd.
    destruct (Hold _ _ Hx1) as [[-> ->]|[_ Hx1']], (Hold _ _ Hx2) as [[-> ->]|[_ Hx2']];
      simpl in *; eauto.
  - intros h sid' Hh.
    apply lookup_insert_Some in Hh as [[<- <-]|[Hne Hh]].
    + exists (rotate sid e x). rewrite lookup_insert_eq. done.
    + apply lookup_delete_Some in Hh as [Hne' Hh]. destruct (H7 _ _ Hh) as (y&Hy&?&?).
      exists y. rewrite lookup_insert_ne; [done|]. intros ->. congruence.
Qed.

(** * How sessions evolve

    Nothing of a session is ever lost: its owner, device and secret stay, its
    generation only grows, a revocation is for good. *)

Definition session_le (x y : Session) : Prop :=
  s_ID y = s_ID x /\ s_UserID y = s_UserID x /\ s_DeviceType y = s_DeviceType x /\
  s_RefreshFamilySecret y = s_RefreshFamilySecret x /\
  s_RefreshGeneration x <= s_RefreshGeneration y /\
  (s_Revoked x = true -> s_Revoked y = true).

Definition later (d d' : Store) : Prop :=
  forall sid x, sessions d !! sid = Some x -> exists y, sessions d' !! sid = Some y /\ session_le x y.

Definition no_new (d d' : Store) : Prop :=
  forall sid, sessions d !! sid = None -> sessions d' !! sid = None.

#[export] Instance session_le_preorder : PreOrder session_le.
Proof.
  split; [by intros x; repeat split|].
  intros x y z (?&?&?&?&?&?) (?&?&?&?&?&?). unfold session_le. split_and!; auto; [congruence..|lia].
Qed.

#[export] Instance later_preorder : PreOrder later.
Proof.
  split; [by intros d sid x Hx; exists x|].
  intros d1 d2 d3 H12 H23 sid x Hx. destruct (H12 _ _ Hx) as (y&Hy&Hxy).
  destruct (H23 _ _ Hy) as (z&Hz&Hyz). exists z. split; [done|]. by etrans.
Qed.

Lemma later_same d d' : sessions d' = sessions d -> later d d' /\ no_new d d'.
Proof. intros H. split; [intros sid x Hx; exists x|intros sid]; by rewrite H. Qed.

Lemma session_le_revoked x : session_le x (revoked x).
Proof. by repeat split. Qed.

Lemma later_revoke_session sid x d :
  sessions d !! sid = Some x -> later d (revoke_session sid x d) /\ no_new d (revoke_session sid x d).
Proof.
  intros Hx. split.
  - intros sid' y Hy. simpl. destruct (decide (sid' = sid)) as [->|Hne].
    + exists (revoked x). rewrite lookup_insert_eq. split; [done|].
      replace y with x by congruence. apply session_le_revoked.
    + exists y. by rewrite lookup_insert_ne by congruence.
  - intros sid' Hn. simpl. rewrite lookup_insert_ne; [done|]. congruence.
Qed.

(** Which sessions a revocation loop ends. *)
Definition end_if (p : Session -> bool) (x : Session) : Session := if p x then revoked x else x.

Definition ends (p : Session -> bool) (f : string -> Store -> Store) : Prop :=
  forall sid d, sessions (f sid d) = alter (end_if p) sid (sessions d).

Lemma ends_revoke_if p u : ends p (revoke_if p u).
Proof.
  intros sid d. unfold revoke_if, end_if. apply map_eq. intros sid'.
  destruct (sessions d !! sid) as [x|] eqn:Hx; [destruct (p x) eqn:Hp|]; simpl.
  - destruct (decide (sid' = sid)) as [->|].
    + by rewrite lookup_insert_eq, lookup_alter_eq, Hx; simpl; rewrite Hp.
    + by rewrite lookup_insert_ne, lookup_alter_ne by congruence.
  - destruct (decide (sid' = sid)) as [->|].
    + by rewrite lookup_alter_eq, Hx; simpl; rewrite Hp.
    + by rewrite lookup_alter_ne by congruence.
  - destruct (decide (sid' = sid)) as [->|].
    + by rewrite lookup_alter_eq, Hx.
    + by rewrite lookup_alter_ne by congruence.
Qed.

Lemma ends_revoke1 : ends (fun _ => true) revoke1.
Proof.
  intros sid d. rewrite <- (ends_revoke_if (fun _ => true) 0 sid d). unfold revoke1, revoke_if.
  by destruct (sessions d !! sid).
Qed.

Lemma sessions_foldl p f l d sid :
  (forall x, p (revoked x) = p x) -> ends p f ->
  sessions (foldl (fun d sid => f sid d) d l) !! sid =
  (if decide (sid ∈ l) then end_if p else id) <$> sessions d !! sid.
Proof.
  intros Hp Hf. revert d. induction l as [|a l IH]; intros d; simpl.
  - destruct (decide (sid ∈ [])) as [H|]; [by apply elem_of_nil in H|].
    by rewrite option_fmap_id.
  - rewrite IH, Hf. destruct (decide (sid = a)) as [->|Hne].
    + rewrite lookup_alter_eq. destruct (decide (a ∈ a :: l)) as [_|H]; [|by destruct H; left].
      destruct (sessions d !! a) as [x|]; [|done]. simpl. f_equal.
      destruct (decide (a ∈ l)); [|done]. unfold end_if.
      destruct (p x) eqn:Hx; rewrite ?Hp, Hx; done.
    + rewrite lookup_alter_ne by congruence. f_equal.
      destruct (decide (sid ∈ l)) as [H|H], (decide (sid ∈ a :: l)) as [H'|H']; try done.
      * destruct H'. by right.
      * by apply elem_of_cons in H' as [?|?].
Qed.

Lemma later_foldl p f l d :
  (forall x, p (revoked x) = p x) -> ends p f ->
  later d (foldl (fun d sid => f sid d) d l) /\ no_new d (foldl (fun d sid => f sid d) d l).
Proof.
  intros Hp Hf. split.
  - intros sid x Hx. rewrite (sessions_foldl p f) by done. rewrite Hx. simpl. eexists. split; [done|].
    destruct (decide _); [|done]. unfold end_if. destruct (p x); [apply session_le_revoked|done].
  - intros sid Hn. rewrite (sessions_foldl p f) by done. by rewrite Hn.
Qed.

Lemma later_revoke_user u d : later d (revoke_user u d) /\ no_new d (revoke_user u d).
Proof. by apply (later_foldl (fun _ => true)); [|apply ends_revoke_if]. Qed.
Lemma later_revoke_device u dev d : later d (revoke_device u dev d) /\ no_new d (revoke_device u dev d).
Proof.
  by apply (later_foldl (fun x => str_eqb (s_DeviceType x) dev) (revoke_if _ u));
    [|apply ends_revoke_if].
Qed.
Lemma later_revoke_each u d : later d (revoke_each u d) /\ no_new d (revoke_each u d).
Proof. by apply (later_foldl (fun _ => true)); [|apply ends_revoke1]. Qed.

(** After a loop over the user's sessions, all of them are revoked. *)
Lemma all_ended p f n u d sid x :
  (forall x, p (revoked x) = p x) -> ends p f -> store_inv n d ->
  sessions (foldl (fun d sid => f sid d) d (elements (ids_of u d))) !! sid = Some x ->
  s_UserID x = u -> p x = true -> s_Revoked x = true.
Proof.
  intros Hp Hf Hi Hx Hu Hpx. rewrite (sessions_foldl p f) in Hx by done.
  destruct (sessions d !! sid) as [y|] eqn:Hy; [|done]. simpl in Hx. injection Hx as <-.
  destruct (decide _) as [_|Hin].
  - unfold end_if in *. destruct (p y) eqn:Hpy; [done|congruence].
  - destruct (s_Revoked y) eqn:Hr; [done|]. destruct Hin. apply elem_of_elements.
    apply (si_ids _ _ Hi). by exists y.
Qed.

Lemma later_rotate d sid x e :
  sessions d !! sid = Some x -> in_int64 (s_RefreshGeneration x + 1) ->
  let d' := rotate_session sid x (rotate sid e x) d in s_ID x = sid ->
  later d d' /\ no_new d d'.
Proof.
  intros Hx Hg d' Hid. split.
  - intros sid' y Hy. simpl. destruct (decide (sid' = sid)) as [->|Hne].
    + exists (rotate sid e x). rewrite lookup_insert_eq. split; [done|].
      replace y with x by congruence. unfold rotate. rewrite int64_id by done.
      repeat split; simpl; [lia|done].
    + exists y. by rewrite lookup_insert_ne by congruence.
  - intros sid' Hn. simpl. rewrite lookup_insert_ne; [done|]. congruence.
Qed.

Lemma later_add_session d x : sessions d !! s_ID x = None -> later d (add_session x d).
Proof.
  intros Hn sid y Hy. exists y. simpl. rewrite lookup_insert_ne; [done|]. congruence.
Qed.

(** * Every call keeps the invariant and moves sessions forward *)

(** The draws of the random source: never empty, never twice the same, never the
    name of a session. *)
Definition fresh (rs : list (list Z)) (d : Store) : Prop :=
  NoDup (base64_url <$> rs) /\
  Forall (fun r => r <> [] /\ sessions d !! base64_url r = None) rs.

Definition ok (n : Z) (s : env Store auth_world) : Prop :=
  store_inv n (db s) /\ fresh (random (ext s)) (db s).

Definition evolves (n : Z) (s s' : env Store auth_world) : Prop :=
  ok n s' /\ later (db s) (db s').

Lemma ok_weaken n m s : m <= n -> ok n s -> ok m s.
Proof. intros Hm [Hi Hf]. split; [by eapply store_inv_weaken|done]. Qed.

Lemma fresh_kept rs d d' : no_new d d' -> fresh rs d -> fresh rs d'.
Proof.
  intros Hk [Hn Hf]. split; [done|]. eapply Forall_impl; [done|]. intros r [? ?]. auto.
Qed.

Lemma evolves_kept n m s s' :
  ok m s -> random (ext s') = random (ext s) -> store_inv n (db s') ->
  later (db s) (db s') /\ no_new (db s) (db s') -> evolves n s s'.
Proof.
  intros [_ Hf] Hr Hi [Hl Hk]. split; [|done]. split; [done|]. rewrite Hr. by eapply fresh_kept.
Qed.

Lemma evolves_refl n s : 0 <= n -> ok (1 + n) s -> evolves n s s.
Proof. intros Hn Hs. split; [|done]. eapply ok_weaken; [|done]. lia. Qed.

Lemma evolves_trans n s1 s2 s3 : later (db s1) (db s2) -> evolves n s2 s3 -> evolves n s1 s3.
Proof. intros Hl [? ?]. split; [done|]. by etrans. Qed.

Section evolve.
Context `{Bcrypt}.
Implicit Types (s : env Store auth_world).

(** A draw. *)
Definition drawn (rs : list (list Z)) s : env Store auth_world :=
  set_ext (mkAuthWorld (redis (ext s)) rs (has_state (ext s))) s.

Lemma rand_read_cases s :
  (exists r rs, random (ext s) = r :: rs /\ rand_read (D := Store) s = (drawn rs s, Ok r)) \/
  (rand_read (D := Store) s = (s, Err (StoreFailed "rand"))).
Proof.
  unfold rand_read, drawn. destruct (random (ext s)) as [|r rs]; [by right|left; eauto].
Qed.

Lemma ok_drawn n s r rs : random (ext s) = r :: rs -> ok n s -> ok n (drawn rs s).
Proof.
  intros Hr [Hi [Hn Hf]]. rewrite Hr in Hn, Hf. split; [done|]. split; simpl.
  - by apply NoDup_cons in Hn as [_ Hn].
  - by apply Forall_cons in Hf as [_ Hf].
Qed.

Lemma GenerateFromPassword_cases password s :
  (exists r rs hash, random (ext s) = r :: rs /\
     GenerateFromPassword (D := Store) password s = (drawn rs s, Ok hash)) \/
  (exists s' e, GenerateFromPassword (D := Store) password s = (s', Err e) /\
     forall n, 0 <= n -> ok (1 + n) s -> evolves n s s').
Proof.
  unfold GenerateFromPassword, bind.
  destruct (rand_read_cases s) as [(r&rs&Hr&->) | ->]; [|right; eexists _, _; split; [done|];
    intros; by apply evolves_refl].
  destruct (bcrypt_hash r password) as [h|]; [left; by exists r, rs, h|right].
  eexists _, _. split; [done|]. intros n Hn Hs. split; [|done].
  eapply ok_drawn; [done|]. eapply ok_weaken; [|done]. lia.
Qed.

Lemma evolves_IssueCode n p sc ttl s :
  0 <= n -> ok (1 + n) s -> evolves n s (IssueCode p sc ttl s).1.
Proof.
  intros Hn Hs. unfold IssueCode. destruct (_ || _); [by apply evolves_refl|].
  unfold bind, get_now, update_store. simpl.
  eapply evolves_kept; [done|done| |by apply later_same].
  apply inv_with_codes. eapply store_inv_weaken; [|apply Hs]. lia.
Qed.

Lemma evolves_with_codes n s c :
  0 <= n -> ok (1 + n) s -> evolves n s (set_db (with_codes (c (db s)) (db s)) s).
Proof.
  intros Hn Hs. eapply evolves_kept; [done|done| |by apply later_same].
  apply inv_with_codes. eapply store_inv_weaken; [|apply Hs]. lia.
Qed.

Lemma evolves_ConsumeCode n p sc c m s :
  0 <= n -> ok (1 + n) s -> evolves n s (ConsumeCode p sc c m s).1.
Proof.
  intros Hn Hs. unfold ConsumeCode, bind, get_now, get_store. cbn -[with_codes].
  pose proof (evolves_with_codes n s) as Hc.
  destruct (codes (db s) !! codeKey p sc) as [entry|]; [|by apply (Hc (fun d => delete _ (codes d)))].
  destruct (_ <? _); [by apply (Hc (fun d => delete _ (codes d)))|].
  destruct (str_eqb _ _); [by apply (Hc (fun d => delete _ (codes d)))|].
  destruct (_ && _); [by apply (Hc (fun d => delete _ (codes d)))|].
  by apply (Hc (fun d => <[_ := _]> (codes d))).
Qed.

(** A new user, then a write to Redis. *)
Lemma evolves_CreateUser n p dn pw s :
  0 <= n -> ok (1 + n) s -> evolves n s (CreateUser p dn pw s).1.
Proof.
  intros Hn Hs. unfold CreateUser. destruct (_ || _); [by apply evolves_refl|].
  unfold bind at 1, get_store.
  destruct (usersByPhone (db s) !! p) eqn:Hp; [by apply evolves_refl|].
  unfold bind at 1. destruct (GenerateFromPassword_cases pw s) as [(r&rs&h&Hr&->)|(s'&e&->&He)];
    [|by apply He].
  unfold bind at 1, get_now.
  set (u := mkUser _ _ _ _ _ _ _ _). unfold bind at 1, update_store. cbn [db drawn set_ext].
  set (s1 := set_db _ _). unfold bind at 1.
  destruct (updates_run _ _ s1 (updates_syncUserVersion (u_ID u))) as (s2&->&Hd&_&Hr2).
  cbn [fst ret]. eapply (evolves_kept n (1 + n) (drawn rs s) s2).
  - by eapply ok_drawn.
  - by rewrite Hr2.
  - rewrite Hd. simpl. destruct Hs as [Hi _]. pose proof (si_next _ _ Hi).
    apply inv_add_user; try done. unfold_int64. lia.
  - rewrite Hd. by apply later_same.
Qed.

Lemma evolves_set_user n s u u' s' :
  0 <= n -> ok (1 + n) s -> usersByID (db s) !! u_ID u' = Some u -> u_ID u = u_ID u' ->
  u_Phone u = u_Phone u' -> db s' = set_user u' (db s) -> random (ext s') = random (ext s) ->
  evolves n s s'.
Proof.
  intros Hn Hs Hu Hid Hp Hd Hr. eapply evolves_kept; [done|done| |rewrite Hd; by apply later_same].
  rewrite Hd. eapply inv_set_user; [done..|]. eapply store_inv_weaken; [|apply Hs]. lia.
Qed.

(** A step on the store alone, at a state where the invariant already holds. *)
Lemma evolves_updates n s m f :
  updates m f -> (forall d, store_inv n d -> store_inv n (f d)) ->
  (forall d, later d (f d) /\ no_new d (f d)) -> ok n s -> evolves n s (m s).1.
Proof.
  intros Hm Hf Hl Hs. destruct (Hm s) as (_&Hd&_&Hr).
  eapply evolves_kept; [done|done| |]; rewrite Hd; [apply Hf, Hs|apply Hl].
Qed.

Lemma evolves_bump n d u : store_inv n d -> store_inv n (bump u d).
Proof.
  intros Hi. unfold bump. destruct (usersByID d !! u) as [x|] eqn:Hx; [|done].
  destruct (si_users _ _ Hi _ _ Hx) as (Hid&_).
  apply (inv_set_user n d x); [simpl; by rewrite Hid|done..].
Qed.

Lemma later_bump u d : later d (bump u d) /\ no_new d (bump u d).
Proof. apply later_same. unfold bump. by destruct (usersByID d !! u). Qed.

Lemma evolves_SetUserStatus n u st s :
  0 <= n -> ok (1 + n) s -> evolves n s (SetUserStatus u st s).1.
Proof.
  intros Hn Hs. unfold SetUserStatus. destruct (_ && _); [by apply evolves_refl|].
  unfold bind at 1, get_store.
  destruct (usersByID (db s) !! u) as [x|] eqn:Hx; [|by apply evolves_refl].
  destruct (si_users _ _ (proj1 Hs) _ _ Hx) as (Hid&_).
  set (x' := with_Status st _). unfold bind at 1, update_store.
  set (s1 := set_db (set_user x' (db s)) s).
  assert (evolves n s s1) as [Hs1 Hl1].
  { eapply (evolves_set_user n s x x'); try done. simpl. by rewrite Hid. }
  assert (updates (if st =? statusActive then ret tt
            else for_each revokeSessionLocked (elements (ids_of u (db s))))
            (if st =? statusActive then id
             else fun d => foldl (fun d sid => revoke1 sid d) d (elements (ids_of u (db s)))))
    as Hup by (destruct (_ =? _); [apply updates_ret|apply updates_revokeEach]).
  unfold bind at 1. destruct (updates_run _ _ s1 Hup) as (s2&->&Hd2&_&Hr2).
  unfold bind at 1. destruct (updates_run _ _ s2 (updates_syncUserVersion u)) as (s3&->&Hd3&_&Hr3).
  eapply evolves_trans; [exact Hl1|]. apply (evolves_kept n n s1 s3 Hs1).
  - by rewrite Hr3.
  - rewrite Hd3, Hd2. destruct (_ =? _); [apply Hs1|].
    apply inv_foldl; [intros; by apply inv_revoke1|apply Hs1].
  - rewrite Hd3, Hd2. destruct (_ =? _); [by apply later_same|].
    by apply (later_foldl (fun _ => true)); [|apply ends_revoke1].
Qed.

Lemma evolves_LogoutAll n u s : ok n s -> evolves n s (LogoutAll u s).1.
Proof.
  intros Hs. apply (evolves_updates n s _ (fun d => revoke_user u (bump u d))).
  - unfold LogoutAll.
    apply (updates_bind _ _ (bump u) (revoke_user u) (updates_bump u)).
    by apply (updates_bind _ _ id (revoke_user u) (updates_syncUserVersion u)),
      updates_revokeUserSessions.
  - intros d Hd. by apply inv_revoke_user, evolves_bump.
  - intros d. destruct (later_bump u d) as [? Hn], (later_revoke_user u (bump u d)) as [? Hn2].
    split; [by etrans|]. intros sid Hsid. auto.
  - done.
Qed.

Lemma evolves_UpdatePassword n p pw s :
  0 <= n -> ok (1 + n) s -> evolves n s (UpdatePassword p pw s).1.
Proof.
  intros Hn Hs. unfold UpdatePassword. destruct (_ || _); [by apply evolves_refl|].
  unfold bind at 1. destruct (GenerateFromPassword_cases pw s) as [(r&rs&h&Hr&->)|(s'&e&->&He)];
    [|by apply He].
  pose proof (ok_drawn _ _ _ _ Hr Hs) as Hs0.
  apply (evolves_trans n s (drawn rs s)); [by apply later_same|].
  set (s0 := drawn rs s) in *. clearbody s0. clear Hs Hr.
  unfold bind at 1, get_store.
  destruct (usersByPhone (db s0) !! p) as [i|] eqn:Hp; [|by apply evolves_refl].
  unfold bind at 1, update_store. set (s1 := set_db _ s0).
  destruct (si_phones _ _ (proj1 Hs0) _ _ Hp) as (x&Hx&_).
  destruct (si_users _ _ (proj1 Hs0) _ _ Hx) as (Hid&_).
  assert (evolves n s0 s1) as [Hs1 Hl1].
  { eapply (evolves_set_user n s0 x (with_PasswordHash h x)); try done.
    - simpl. by rewrite Hid.
    - unfold s1. simpl. by rewrite Hx. }
  eapply evolves_trans; [exact Hl1|].
  assert ((forall s, (bumpUserSessionVersionLocked i ;;; syncUserVersionLocked i ;;;
            revokeUserSessionsLocked i ;;; st' <- get_store ;;
            match usersByID st' !! i with Some u => ret u | None => throw ErrUserNotFound end) s
          = (LogoutAll i ;;; st' <- get_store ;;
            match usersByID st' !! i with Some u => ret u | None => throw ErrUserNotFound end) s))
    as ->.
  { intros s2. unfold LogoutAll, bind.
    destruct (bumpUserSessionVersionLocked i s2) as [s3 [[]|]]; [|done].
    destruct (syncUserVersionLocked i s3) as [s4 [[]|]]; [|done].
    by destruct (revokeUserSessionsLocked i s4) as [s5 [[]|]]. }
  pose proof (evolves_LogoutAll n i s1 Hs1) as He. unfold bind.
  destruct (LogoutAll i s1) as [s2 [[]|]]; [|done]. simpl in *. 
  by destruct (usersByID (db s2) !! i).
Qed.

Lemma users_revoke_device u dev d : usersByID (revoke_device u dev d) = usersByID d.
Proof.
  unfold revoke_device. generalize (elements (ids_of u d)). intros l. revert d.
  induction l as [|a l IH]; intros d; simpl; [done|].
  rewrite IH. unfold revoke_if. destruct (sessions d !! a); [|done]. by destruct (str_eqb _ _).
Qed.

(** A new session in place of the user's others on the device. *)
Lemma inv_replace_session n d r q u dev v e x :
  0 <= n -> store_inv n d -> r <> [] -> sessions d !! base64_url r = None ->
  usersByID d !! u = Some x ->
  store_inv n (add_session (new_session (base64_url r) q u dev v e) (revoke_device u dev d)).
Proof.
  intros Hn Hi Hr Hnew Hx. destruct (later_revoke_device u dev d) as [Hl Hk].
  apply inv_add_session; [by apply inv_revoke_device|by apply Hk| |done|].
  - pose proof (si_next _ _ Hi) as [Hp Hb]. constructor; simpl; try done.
    + split; [by apply base64_not_empty|apply base64_no_dot].
    + rewrite users_revoke_device, Hx. by eexists.
    + lia.
  - intros sid z Hz Hu Hdev.
    apply (all_ended (fun x => str_eqb (s_DeviceType x) dev)
      (fun sid => revoke_if (fun x => str_eqb (s_DeviceType x) dev) u sid) n u d sid z);
      try done; [by apply ends_revoke_if|]. by apply str_eqb_eq.
Qed.

(** The two draws of a new session. *)
Lemma fresh_replace r q rs d dev u x :
  s_ID x = base64_url r -> fresh (r :: q :: rs) d -> fresh rs (add_session x (revoke_device u dev d)).
Proof.
  intros Hid [Hnd Hf]. destruct (later_revoke_device u dev d) as [_ Hk].
  apply Forall_cons in Hf as [_ Hf]. apply Forall_cons in Hf as [_ Hf].
  rewrite !fmap_cons in Hnd.
  apply NoDup_cons in Hnd as [Hnot Hnd]. apply NoDup_cons in Hnd as [_ Hnd].
  split; [done|]. apply Forall_forall. intros z Hz.
  destruct (proj1 (Forall_forall _ _) Hf _ Hz) as [Hz0 Hzn]. split; [done|].
  simpl. rewrite lookup_insert_ne; [by apply Hk|].
  rewrite Hid. intros Heq. apply Hnot. right. rewrite Heq. by apply list_elem_of_fmap_2.
Qed.

Lemma evolves_CreateSession n u dev ttl s :
  0 <= n -> ok (1 + n) s -> evolves n s (CreateSessionForDevice u dev ttl s).1.
Proof.
  intros Hn Hs. unfold CreateSessionForDevice, randomToken, randomSecret.
  unfold bind at 1. unfold bind at 1.
  destruct (rand_read_cases s) as [(r&rs&Hr&->)| ->]; [|by apply evolves_refl].
  cbn [ret]. unfold bind at 1. unfold bind at 1. set (s1 := drawn rs s).
  pose proof (ok_drawn _ _ _ _ Hr Hs) as Hs1. fold s1 in Hs1.
  apply (evolves_trans n s s1); [by apply later_same|].
  destruct (rand_read_cases s1) as [(q&qs&Hq&->)| ->]; [|by apply evolves_refl].
  cbn [ret]. unfold bind at 1, get_now, bind at 1, get_store. set (s2 := drawn qs s1).
  pose proof (ok_drawn _ _ _ _ Hq Hs1) as Hs2. fold s2 in Hs2.
  destruct (usersByID (db s2) !! u) as [x|] eqn:Hx;
    [|apply (evolves_trans n s1 s2); [by apply later_same|by apply evolves_refl]].
  set (dev' := if is_empty dev then "web" else dev).
  unfold bind at 1. destruct (updates_run _ _ s2 (updates_revokeUserDevice u dev'))
    as (s3&->&Hd3&Hn3&Hr3).
  set (y := new_session _ _ _ _ _ _). unfold bind at 1, update_store.
  set (s4 := set_db (add_session y (db s3)) s3). unfold bind at 1.
  destruct (updates_run _ _ s4 (updates_syncSession y)) as (s5&->&Hd5&Hn5&Hr5). cbn [fst ret].
  destruct Hs as [Hi Hf]. assert (rs = q :: qs) as -> by exact Hq. rewrite Hr in Hf.
  assert (r <> [] /\ sessions (db s) !! base64_url r = None) as [Hr0 Hfree].
  { destruct Hf as [_ Hf]. by apply Forall_cons in Hf as [? _]. }
  assert (db s5 = add_session y (revoke_device u dev' (db s))) as Hd by (by rewrite Hd5; simpl; rewrite Hd3).
  split; [split|]; rewrite Hd.
  - eapply inv_replace_session; try done. eapply store_inv_weaken; [|exact Hi]. lia.
  - rewrite Hr5. simpl. rewrite Hr3. by apply (fresh_replace r q).
  - destruct (later_revoke_device u dev' (db s)) as [Hl Hk]. change (db s1) with (db s).
    etrans; [exact Hl|]. apply later_add_session. by apply Hk.
Qed.

(** What the shared checks of a refresh token can answer. *)
Inductive token_use (token : string) (s : env Store auth_world)
  : env Store auth_world -> res store_error (string * Session) -> Prop :=
| TokenGood sid g sig x :
    parseRefreshToken token = Some (sid, g, sig) -> sessions (db s) !! sid = Some x ->
    live_session (now s) x = true ->
    verifyRefreshTokenSignature sid g sig (s_RefreshFamilySecret x) = true ->
    g = s_RefreshGeneration x -> token_use token s s (Ok (sid, x))
| TokenReplayed sid g sig x s' :
    parseRefreshToken token = Some (sid, g, sig) -> sessions (db s) !! sid = Some x ->
    live_session (now s) x = true ->
    verifyRefreshTokenSignature sid g sig (s_RefreshFamilySecret x) = true ->
    g < s_RefreshGeneration x ->
    db s' = revoke_session sid x (db s) -> now s' = now s -> random (ext s') = random (ext s) ->
    token_use token s s' (Err ErrRefreshTokenReplayed)
| TokenInvalid : token_use token s s (Err ErrRefreshTokenInvalid).

Lemma use_token_spec token s s' r : use_token token s = (s', r) -> token_use token s s' r.
Proof.
  unfold use_token. destruct (parseRefreshToken token) as [[[sid g] sig]|] eqn:Hp;
    [|intros [= <- <-]; constructor].
  unfold bind at 1, get_now, bind at 1, get_store.
  destruct (sessions (db s) !! sid) as [x|] eqn:Hx; [|intros [= <- <-]; constructor].
  unfold bind at 1. destruct (live_session (now s) x) eqn:Hl; simpl;
    [|intros [= <- <-]; constructor].
  unfold bind at 1. destruct (verifyRefreshTokenSignature sid g sig _) eqn:Hv; simpl;
    [|intros [= <- <-]; constructor].
  destruct (g <? s_RefreshGeneration x) eqn:Hg1; bools.
  - unfold bind. destruct (updates_run _ _ s (updates_revokeSession sid)) as (s1&->&Hd&Hn&Hr).
    intros [= <- <-]. unfold revoke1 in Hd. rewrite Hx in Hd. by eapply TokenReplayed.
  - destruct (s_RefreshGeneration x <? g) eqn:Hg2; bools; intros [= <- <-]; [constructor|].
    eapply TokenGood; eauto. lia.
Qed.

Lemma evolves_revoked n m sid x s s' :
  n <= m -> ok m s -> sessions (db s) !! sid = Some x -> db s' = revoke_session sid x (db s) ->
  random (ext s') = random (ext s) -> evolves n s s'.
Proof.
  intros Hn Hs Hx Hd Hr. eapply evolves_kept; [done|done| |].
  - rewrite Hd. apply inv_revoke_session; [|done]. by eapply store_inv_weaken; [|apply Hs].
  - rewrite Hd. by apply later_revoke_session.
Qed.

Lemma evolves_Logout n token s : 0 <= n -> ok (1 + n) s -> evolves n s (Logout token s).1.
Proof.
  intros Hn Hs. unfold Logout, bind. destruct (use_token token s) as [s1 r] eqn:Hu.
  apply use_token_spec in Hu. destruct Hu as [sid g sig x Hp Hx Hl Hv Hg|sid g sig x s' Hp Hx Hl Hv Hg Hd Hn' Hr|].
  - destruct (updates_run _ _ s (updates_revokeSession sid)) as (s'&->&Hd&_&Hr). simpl.
    unfold revoke1 in Hd. rewrite Hx in Hd. eapply evolves_revoked; [|done..]. lia.
  - simpl. eapply evolves_revoked; [|done..]. lia.
  - by apply evolves_refl.
Qed.

(** A refresh that is accepted. *)
Lemma refresh_run token ttl s sid x :
  use_token token s = (s, Ok (sid, x)) ->
  let x' := rotate sid (now s + seconds (default_to ttl week)) x in
  exists s', RefreshSession token ttl s =
      (s', Ok (x', buildRefreshToken sid (s_RefreshGeneration x') (s_RefreshFamilySecret x))) /\
    db s' = rotate_session sid x x' (db s) /\ now s' = now s /\ random (ext s') = random (ext s).
Proof.
  intros Hu x'. unfold RefreshSession. unfold bind at 1. rewrite Hu.
  unfold bind at 1, get_now, bind at 1, update_store. fold x'.
  set (s1 := set_db (rotate_session sid x x' (db s)) s).
  destruct (updates_run _ _ s1 (updates_syncSession x')) as (s2&He&Hd&Hn&Hr).
  exists s2. unfold bind. rewrite He. done.
Qed.

Lemma evolves_RefreshSession n token ttl s :
  0 <= n -> ok (1 + n) s -> evolves n s (RefreshSession token ttl s).1.
Proof.
  intros Hn Hs. destruct (use_token token s) as [s1 r] eqn:Hrun.
  pose proof (use_token_spec _ _ _ _ Hrun) as Hu. destruct Hu as [sid g sig x Hp Hx Hl Hv Hg|sid g sig x s' Hp Hx Hl Hv Hg Hd Hn' Hr|].
  - destruct (refresh_run token ttl s sid x Hrun) as (s'&->&Hd&_&Hr). cbn [fst].
    pose proof (si_sessions _ _ (proj1 Hs) _ _ Hx) as Hok.
    pose proof (so_generation _ _ _ _ Hok) as Hgen.
    apply andb_true_iff in Hl as [Hlive _]. apply negb_true_iff in Hlive.
    eapply evolves_kept; [done|done| |]; rewrite Hd.
    + apply inv_rotate_session; [apply Hs|done..].
    + apply later_rotate; [done| |by apply (so_id _ _ _ _ Hok)]. unfold_int64. lia.
  - unfold RefreshSession, bind. rewrite Hrun. simpl. eapply evolves_revoked; [|done..]. lia.
  - unfold RefreshSession, bind. rewrite Hrun. simpl. by apply evolves_refl.
Qed.

Lemma ignore_1 {A} (m : Effects.M Store auth_world store_error A) s : (ignore m s).1 = (m s).1.
Proof. unfold ignore. by destruct (m s). Qed.

(** Reading methods. *)
Lemma found_1 u e s : (found u e s).1 = s.
Proof. unfold found. destruct u as [x|]; [|done]. by destruct (_ =? _). Qed.

Lemma Authenticate_1 u p pw s : (Authenticate u p pw s).1 = s.
Proof.
  unfold Authenticate, bind, get_store. set (w := if is_empty p then _ else _).
  pose proof (found_1 w ErrInvalidCredentials s) as Hf.
  destruct (found w ErrInvalidCredentials s) as [s1 [x|err]]; simpl in *; subst; [|done].
  by destruct (bcrypt_compare _ _).
Qed.

Lemma GetUserByIDAnyStatus_1 u s : (GetUserByIDAnyStatus u s).1 = s.
Proof. unfold GetUserByIDAnyStatus, bind, get_store. by destruct (usersByID (db s) !! u). Qed.

Lemma GetActiveSession_1 sid s : (GetActiveSession sid s).1 = s.
Proof.
  unfold GetActiveSession, bind, get_now, get_store. destruct (is_empty _); [done|].
  destruct (sessions (db s) !! sid) as [x|]; [|done]. by destruct (live_session _ _).
Qed.

Lemma evolves_read n s s' : 0 <= n -> ok (1 + n) s -> s' = s -> evolves n s s'.
Proof. intros Hn Hs ->. by apply evolves_refl. Qed.

Lemma evolves_op n op s : 0 <= n -> ok (1 + n) s -> evolves n s (serve_op op s).1.
Proof.
  intros Hn Hs. destruct op; unfold serve_op; rewrite ignore_1.
  - by apply evolves_IssueCode.
  - by apply evolves_ConsumeCode.
  - by apply (evolves_with_codes n s (fun d => delete _ (codes d))).
  - by apply evolves_CreateUser.
  - apply evolves_read; [done..|apply Authenticate_1].
  - apply evolves_read; [done..|apply (found_1 (user_of_phone _ _))].
  - apply evolves_read; [done..|apply (found_1 (usersByID _ !! _))].
  - apply evolves_read; [done..|apply GetUserByIDAnyStatus_1].
  - by apply evolves_SetUserStatus.
  - apply evolves_read; [done..|apply GetActiveSession_1].
  - by apply evolves_CreateSession.
  - by apply evolves_RefreshSession.
  - by apply evolves_Logout.
  - apply evolves_LogoutAll. eapply ok_weaken; [|done]. lia.
  - by apply evolves_UpdatePassword.
Qed.

Lemma evolves_run n ops s :
  0 <= n -> ok (Z.of_nat (length ops) + n) s -> evolves n s (run_ops ops s).
Proof.
  intros Hn. unfold run_ops. revert s. induction ops as [|[t op] ops IH]; intros s Hs; simpl.
  - by split.
  - assert (ok (1 + (Z.of_nat (length ops) + n)) (at_time t s)) as Hs'.
    { destruct Hs as [Hi Hf]. split; [|done]. eapply store_inv_weaken; [|exact Hi].
      rewrite length_cons. lia. }
    destruct (evolves_op (Z.of_nat (length ops) + n) op (at_time t s)) as [Hok Hl]; [lia|done|].
    eapply evolves_trans; [exact Hl|]. by apply IH.
Qed.
End evolve.
