(* ===== verification/AuthSessions.v ===== *)
(** Properties of the in-memory auth store
    (app/auth/api/internal/authstore/store.go): the books of every reachable
    store, refresh tokens accepted once, replay detection, ended sessions that
    stay ended, refreshing without end, verification codes. *)

From Stdlib Require Import Ascii.
From S2P Require Import Prelude Effects GoText AuthTokens AuthData AuthMemory AuthMemorySafety.
Close Scope char_scope.

(** * The seeded store *)

Lemma inv_empty_store n : 1002 + n <= int64_max -> store_inv n empty_store.
Proof.
  intros Hn. constructor; simpl; try by intros *; rewrite ?lookup_empty.
  intros u sid. unfold ids_of. simpl. rewrite lookup_empty. simpl.
  split; [set_solver|]. intros (x&Hx&_). simpl in Hx. by rewrite lookup_empty in Hx.
Qed.

Lemma inv_seed n d id phone u next :
  usersByID d !! id = None -> usersByPhone d !! phone = None -> u_ID u = id -> u_Phone u = phone ->
  nextUserID d <= next -> id < next -> next + n <= int64_max ->
  store_inv n d ->
  store_inv n (with_users (<[id := u]> (usersByID d)) (<[phone := id]> (usersByPhone d)) next d).
Proof.
  intros Hid Hph <- <- Hnext Hlt Hb [H1 H2 H3 H4 H5 H6 H7]. constructor; simpl; try done; [lia|..].
  - intros i v Hv. apply lookup_insert_Some in Hv as [[<- <-]|[Hne Hv]].
    + by rewrite lookup_insert_eq.
    + destruct (H2 _ _ Hv) as (?&Hv2&?). split_and!; [done| |lia].
      rewrite lookup_insert_ne; [done|]. congruence.
  - intros p i Hpi. apply lookup_insert_Some in Hpi as [[<- <-]|[Hne Hpi]].
    + exists u. by rewrite lookup_insert_eq.
    + destruct (H3 _ _ Hpi) as (v&Hv&Hvp). exists v. rewrite lookup_insert_ne; [done|]. congruence.
  - intros sid x Hx. apply (session_ok_users n d); [|by apply H4].
    intros i [v Hv]. simpl. rewrite lookup_insert_ne by congruence. by eexists.
Qed.

Section sessions.
Context `{Bcrypt}.
Implicit Types (s : env Store auth_world).

Definition demo_user (id : Z) (phone name hash role : string) (t : Z) : User :=
  mkUser id phone name hash 1 role statusActive t.

Definition seeded (u1 u2 : User) : Store :=
  mkStore 1003 (<[1002 := u2]> (<[1001 := u1]> ∅))
    (<["13800000002" := 1002]> (<["13800000001" := 1001]> ∅)) ∅ ∅ ∅ ∅.

Lemma fresh_drawn r rs d : fresh (r :: rs) d -> fresh rs d.
Proof.
  intros [Hn Hf]. split.
  - by apply NoDup_cons in Hn as [_ Hn].
  - by apply Forall_cons in Hf as [_ Hf].
Qed.

(** Hashing a password only draws. *)
Lemma GenerateFromPassword_run password s :
  exists s' r, GenerateFromPassword (D := Store) password s = (s', r) /\ db s' = db s /\
    forall d, fresh (random (ext s)) d -> fresh (random (ext s')) d.
Proof.
  unfold GenerateFromPassword, bind.
  destruct (rand_read_cases s) as [(r&rs&Hr&->)| ->]; [|by eexists _, _].
  destruct (bcrypt_hash r password) as [h|]; eexists _, _; (split; [done|]); (split; [done|]);
    intros d; rewrite Hr; apply fresh_drawn.
Qed.

Lemma seed_user_run id phone name pw role s :
  (exists s' u, seed_user id phone name pw role s = (s', Ok tt) /\
     u_ID u = id /\ u_Phone u = phone /\
     db s' = with_users (<[id := u]> (usersByID (db s))) (<[phone := id]> (usersByPhone (db s)))
               (nextUserID (db s)) (db s) /\
     forall d, fresh (random (ext s)) d -> fresh (random (ext s')) d) \/
  (exists s' e, seed_user id phone name pw role s = (s', Err e) /\ db s' = db s /\
     forall d, fresh (random (ext s)) d -> fresh (random (ext s')) d).
Proof.
  unfold seed_user, bind.
  destruct (GenerateFromPassword_run pw s) as (s1&r&->&Hd&Hf).
  destruct r as [h|e]; [left|right; exists s1, e; split; [done|auto]].
  eexists _, (mkUser id phone name h 1 role statusActive (now s1)). split; [done|].
  simpl. rewrite Hd. auto.
Qed.

Lemma ok_seeded n pw s :
  1003 + n <= int64_max -> db s = empty_store -> fresh (random (ext s)) empty_store ->
  ok n (NewStoreWithState pw s).1.
Proof.
  intros Hn Hd Hf. unfold NewStoreWithState. rewrite ignore_1. unfold seedDemoUser.
  set (p := if is_empty pw then _ else pw).
  assert (store_inv n empty_store) as Hi by (apply inv_empty_store; lia).
  unfold bind at 1. destruct (seed_user_run 1001 "13800000001" "Flash Mall 用户 1001" p "user" s)
    as [(s1&u1&->&Hid1&Hp1&Hd1&Hf1)|(s1&e&->&Hd1&Hf1)].
  2: { split; simpl; rewrite Hd1, Hd; [done|auto]. }
  unfold bind at 1. destruct (updates_run _ _ s1 (updates_syncUserVersion 1001))
    as (s2&->&Hd2&_&Hr2).
  rewrite Hd in Hd1. specialize (Hf1 _ Hf). rewrite <- Hr2 in Hf1. change (id (db s1)) with (db s1) in Hd2.
  assert (store_inv n (db s2)) as Hi2.
  { rewrite Hd2, Hd1. apply (inv_seed n empty_store 1001 "13800000001" u1 1002); try done; lia. }
  assert (no_new empty_store (db s2)) as Hk2.
  { rewrite Hd2, Hd1. by apply later_same. }
  unfold bind at 1. destruct (seed_user_run 1002 "13800000002" "Flash Mall 管理员" "admin123" "admin" s2)
    as [(s3&u2&->&Hid2&Hp2&Hd3&Hf3)|(s3&e&->&Hd3&Hf3)].
  2: { split; simpl; rewrite Hd3; [done|]. apply Hf3. by eapply fresh_kept. }
  unfold bind at 1, update_store. set (s4 := set_db _ s3).
  destruct (updates_run _ _ s4 (updates_syncUserVersion 1002)) as (s5&->&Hd5&_&Hr5). simpl.
  assert (db s5 = with_users (<[1002 := u2]> (usersByID (db s2)))
                    (<["13800000002" := 1002]> (usersByPhone (db s2))) 1003 (db s2)) as Hd5'.
  { rewrite Hd5. unfold s4. simpl. by rewrite Hd3. }
  split; rewrite Hd5'.
  - apply inv_seed; try done; rewrite ?Hd2, ?Hd1; simpl; try done; try lia.
  - rewrite Hr5. apply Hf3. eapply fresh_kept; [|exact Hf1]. by rewrite Hd2, Hd1.
Qed.

(** C21 The books of the store.  Start the service and let any clients make any
    calls at any times, with any writes to Redis failing: users are indexed by
    their identifier and phone, every session belongs to a user, has a name
    without dots and stores the hash of its current refresh token, the session
    lists are exactly the sessions that are not revoked, a user has at most one
    of them per device, and the refresh index points at live sessions. *)
Theorem reachable_store_invariant pw ops s :
  1003 + Z.of_nat (length ops) <= int64_max ->
  db s = empty_store -> fresh (random (ext s)) empty_store ->
  store_inv 0 (db (run_ops ops (NewStoreWithState pw s).1)).
Proof.
  intros Hn Hd Hf. apply (evolves_run 0 ops (NewStoreWithState pw s).1); [done|].
  apply ok_seeded; [|done..]. lia.
Qed.

(** * Spent tokens *)

(** A token that no call will accept again. *)
Definition spent (token : string) (d : Store) : Prop :=
  forall sid g sig, parseRefreshToken token = Some (sid, g, sig) ->
    exists x, sessions d !! sid = Some x /\ (s_Revoked x = true \/ g < s_RefreshGeneration x).

Lemma spent_later token d d' : later d d' -> spent token d -> spent token d'.
Proof.
  intros Hl Hs sid g sig Hp. destruct (Hs _ _ _ Hp) as (x&Hx&Hd).
  destruct (Hl _ _ Hx) as (y&Hy&_&_&_&_&Hg&Hr). exists y. split; [done|].
  destruct Hd as [Hd|Hd]; [left; auto|right; lia].
Qed.

Lemma spent_refused token ttl s :
  spent token (db s) ->
  is_ok (RefreshSession token ttl s).2 = false /\ is_ok (Logout token s).2 = false.
Proof.
  intros Hs. destruct (use_token token s) as [s1 r] eqn:Hu.
  unfold RefreshSession, Logout, bind. rewrite Hu.
  apply use_token_spec in Hu. destruct Hu as [sid g sig x Hp Hx Hl Hv Hg| |]; [|done..].
  exfalso. destruct (Hs _ _ _ Hp) as (y&Hy&Hd). apply andb_true_iff in Hl as [Hl _].
  apply negb_true_iff in Hl. destruct Hd as [Hd|Hd]; [congruence|].
  assert (y = x) as -> by congruence. lia.
Qed.

(** A session that has ended. *)
Definition ended (sid : string) (d : Store) : Prop :=
  exists x, sessions d !! sid = Some x /\ s_Revoked x = true.

Lemma ended_later sid d d' : later d d' -> ended sid d -> ended sid d'.
Proof.
  intros Hl (x&Hx&Hr). destruct (Hl _ _ Hx) as (y&Hy&Hle). exists y. split; [done|]. by apply Hle.
Qed.

(** No call accepts the session or any of its tokens. *)
Definition session_refused (sid : string) s : Prop :=
  is_ok (GetActiveSession sid s).2 = false /\
  forall token g sig ttl, parseRefreshToken token = Some (sid, g, sig) ->
    is_ok (RefreshSession token ttl s).2 = false /\ is_ok (Logout token s).2 = false.

Lemma ended_refused sid s : ended sid (db s) -> session_refused sid s.
Proof.
  intros (x&Hx&Hr). split.
  - unfold GetActiveSession, bind, get_now, get_store. destruct (is_empty sid); [done|].
    rewrite Hx. unfold live_session. by rewrite Hr.
  - intros token g sig ttl Hp. apply spent_refused. intros sid' g' sig' Hp'.
    rewrite Hp in Hp'. injection Hp' as <- <- <-. exists x. auto.
Qed.

Lemma later_run ops s :
  ok (Z.of_nat (length ops)) s -> later (db s) (db (run_ops ops s)).
Proof. intros Hs. apply (evolves_run 0 ops s); [done|]. by rewrite Z.add_0_r. Qed.

(** A client presents a token to refresh or to log out. *)
Definition present (logout : bool) (token : string) (ttl : Z)
  : Effects.M Store auth_world store_error unit :=
  if logout then Logout token else RefreshSession token ttl ;;; ret tt.

Lemma present_refused logout token ttl s :
  spent token (db s) -> is_ok (present logout token ttl s).2 = false.
Proof.
  intros Hs. destruct (spent_refused token ttl s Hs) as [H1 H2].
  unfold present. destruct logout; [done|]. unfold bind.
  by destruct (RefreshSession token ttl s) as [s' []].
Qed.

Lemma present_spends n logout token ttl s :
  0 <= n -> ok (1 + n) s -> is_ok (present logout token ttl s).2 = true ->
  evolves n s (present logout token ttl s).1 /\ spent token (db (present logout token ttl s).1).
Proof.
  intros Hn Hs Hok.
  assert ((present logout token ttl s).1 =
          if logout then (Logout token s).1 else (RefreshSession token ttl s).1) as He.
  { unfold present. destruct logout; [done|]. unfold bind.
    by destruct (RefreshSession token ttl s) as [s' []]. }
  split.
  { rewrite He. destruct logout; [by apply evolves_Logout|by apply evolves_RefreshSession]. }
  unfold present in *. destruct (use_token token s) as [s1 r] eqn:Hu.
  pose proof (use_token_spec _ _ _ _ Hu) as Huse.
  destruct Huse as [sid g sig x Hp Hx Hl Hv Hg|sid g sig x s1 Hp Hx Hl Hv Hg Hd Hn' Hr|].
  2, 3: destruct logout; unfold Logout, RefreshSession, bind in Hok; rewrite Hu in Hok; done.
  intros sid' g' sig' Hp'. rewrite Hp in Hp'. injection Hp' as <- <- <-.
  destruct logout.
  - unfold Logout, bind. rewrite Hu.
    destruct (updates_run _ _ s (updates_revokeSession sid)) as (s'&->&Hd&_&_). simpl.
    rewrite Hd. unfold revoke1. rewrite Hx. exists (revoked x). simpl.
    rewrite lookup_insert_eq. auto.
  - destruct (refresh_run token ttl s sid x Hu) as (s'&He'&Hd&_&_). unfold bind. rewrite He'. simpl.
    rewrite Hd. eexists. simpl. rewrite lookup_insert_eq. split; [done|]. right. simpl.
    pose proof (so_generation _ _ _ _ (si_sessions _ _ (proj1 Hs) _ _ Hx)) as Hgen.
    rewrite int64_id; [lia|]. unfold_int64. lia.
Qed.

(** C13 A refresh token works once.  When a refresh or a logout with a token has
    succeeded, no later refresh or logout with it succeeds, whatever calls
    anyone makes in between and at whatever times. *)
Theorem refresh_token_single_use logout token ttl s ops t logout' ttl' :
  ok (1 + Z.of_nat (length ops)) s ->
  (present logout token ttl s).2 = Ok tt ->
  is_ok (present logout' token ttl'
           (at_time t (run_ops ops (present logout token ttl s).1))).2 = false.
Proof.
  intros Hs Hr. destruct (present_spends (Z.of_nat (length ops)) logout token ttl s) as [[He _] Hsp];
    [lia|done|by rewrite Hr|].
  apply present_refused. simpl. eapply spent_later; [by apply later_run|done].
Qed.

(** C15 Replay ends the family.  Whoever presents a genuine token of an older
    generation of a live session is told so, whatever happens to Redis, and from
    then on, after any calls, the session and every token of it, the newest
    included, are refused. *)
Theorem replay_ends_family s sid x g ttl ops t :
  ok (1 + Z.of_nat (length ops)) s ->
  sessions (db s) !! sid = Some x -> live_session (now s) x = true ->
  0 < g < s_RefreshGeneration x ->
  let token := buildRefreshToken sid g (s_RefreshFamilySecret x) in
  (RefreshSession token ttl s).2 = Err ErrRefreshTokenReplayed /\
  session_refused sid (at_time t (run_ops ops (RefreshSession token ttl s).1)).
Proof.
  intros Hs Hx Hl Hg token.
  pose proof (si_sessions _ _ (proj1 Hs) _ _ Hx) as Hok.
  destruct (so_name _ _ _ _ Hok) as [Hne Hfree]. pose proof (so_generation _ _ _ _ Hok) as Hgen.
  assert (parseRefreshToken token = Some (sid, g, signRefreshToken sid g (s_RefreshFamilySecret x)))
    as Hp by (apply parse_build; [done|done|lia]).
  assert (exists s1, use_token token s = (s1, Err ErrRefreshTokenReplayed) /\
            db s1 = revoke_session sid x (db s)) as (s1&Hu&Hd).
  { unfold use_token. rewrite Hp. unfold bind at 1, get_now, bind at 1, get_store. rewrite Hx.
    unfold bind at 1. rewrite Hl. simpl. unfold bind at 1. rewrite verify_signature. simpl.
    rewrite (proj2 (Z.ltb_lt _ _)) by lia. unfold bind.
    destruct (updates_run _ _ s (updates_revokeSession sid)) as (s1&->&Hd&_&_).
    exists s1. split; [done|]. unfold revoke1 in Hd. by rewrite Hx in Hd. }
  pose proof (evolves_RefreshSession (Z.of_nat (length ops)) token ttl s ltac:(lia) Hs) as [He _].
  assert (RefreshSession token ttl s = (s1, Err ErrRefreshTokenReplayed)) as Hr.
  { unfold RefreshSession, bind. by rewrite Hu. }
  rewrite Hr in *. split; [done|]. simpl in He. apply ended_refused. simpl.
  eapply ended_later; [by apply later_run|].
  exists (revoked x). simpl. rewrite Hd. simpl. by rewrite lookup_insert_eq.
Qed.

(** * Ending all sessions of a user *)

Lemma loop_ends f n u d sid x :
  ends (fun _ => true) f -> store_inv n d -> sessions d !! sid = Some x -> s_UserID x = u ->
  ended sid (foldl (fun d sid => f sid d) d (elements (ids_of u d))).
Proof.
  intros Hf Hi Hx Hu. exists (revoked x). split; [|done].
  rewrite (sessions_foldl (fun _ => true)), Hx by done. simpl. f_equal.
  destruct (decide _) as [_|Hin]; [done|].
  destruct (s_Revoked x) eqn:Hr; [by destruct x; simpl in *; subst|].
  destruct Hin. apply elem_of_elements, (si_ids _ _ Hi). by exists x.
Qed.

Lemma LogoutAll_ends n u s sid x :
  store_inv n (db s) -> sessions (db s) !! sid = Some x -> s_UserID x = u ->
  ended sid (db (LogoutAll u s).1).
Proof.
  intros Hi Hx Hu.
  destruct (updates_bind _ _ _ _ (updates_bump u)
    (updates_bind _ _ _ _ (updates_syncUserVersion u) (updates_revokeUserSessions u)) s)
    as (_&Hd&_). unfold LogoutAll. rewrite Hd. simpl.
  eapply (loop_ends (revoke_if (fun _ => true) u) n); [apply ends_revoke_if|by apply evolves_bump| |done].
  unfold bump. by destruct (usersByID (db s) !! u).
Qed.

(** The calls that end a user's sessions: logging out everywhere, disabling the
    account, a changed password. *)
Definition ends_user (u : Z) (op : auth_op) s : Prop :=
  match op with
  | OpLogoutAll v => v = u
  | OpSetUserStatus v st =>
      v = u /\ st = userStatusDisabled /\ is_ok (SetUserStatus v st s).2 = true
  | OpUpdatePassword p pw =>
      usersByPhone (db s) !! p = Some u /\ is_ok (UpdatePassword p pw s).2 = true
  | _ => False
  end.

Lemma SetUserStatus_ends n u s sid x :
  store_inv n (db s) -> is_ok (SetUserStatus u userStatusDisabled s).2 = true ->
  sessions (db s) !! sid = Some x -> s_UserID x = u ->
  ended sid (db (SetUserStatus u userStatusDisabled s).1).
Proof.
  intros Hi Hok Hx Hu. unfold SetUserStatus in *. simpl in *.
  unfold bind at 1, get_store. unfold bind at 1, get_store in Hok.
  destruct (usersByID (db s) !! u) as [y|] eqn:Hy; [clear Hok|done].
  set (y' := with_Status _ _). unfold bind at 1, update_store.
  set (s1 := set_db (set_user y' (db s)) s). unfold bind at 1.
  destruct (updates_run _ _ s1 (updates_revokeEach (elements (ids_of u (db s)))))
    as (s2&->&Hd2&_). unfold bind at 1.
  destruct (updates_run _ _ s2 (updates_syncUserVersion u)) as (s3&->&Hd3&_). simpl.
  rewrite Hd3, Hd2. simpl.
  change (ids_of u (db s)) with (ids_of u (set_user y' (db s))).
  destruct (si_users _ _ Hi _ _ Hy) as (Hid&_).
  apply (loop_ends revoke1 n u _ sid x); [apply ends_revoke1| |done|done].
  apply (inv_set_user n (db s) y y'); [simpl; by rewrite Hid|done..].
Qed.

Lemma UpdatePassword_ends n p pw u s sid x :
  store_inv n (db s) -> usersByPhone (db s) !! p = Some u -> is_ok (UpdatePassword p pw s).2 = true ->
  sessions (db s) !! sid = Some x -> s_UserID x = u -> ended sid (db (UpdatePassword p pw s).1).
Proof.
  intros Hi Hp Hok Hx Hu. unfold UpdatePassword in *. destruct (_ || _); [done|].
  destruct (GenerateFromPassword_run pw s) as (s1&r&Hrun&Hd1&_).
  unfold bind at 1. unfold bind at 1 in Hok. rewrite Hrun in *. destruct r as [h|e]; [|done].
  unfold bind at 1, get_store. unfold bind at 1, get_store in Hok. rewrite Hd1, Hp in *.
  clear Hok. unfold bind at 1, update_store.
  destruct (si_phones _ _ Hi _ _ Hp) as (y&Hy&_). destruct (si_users _ _ Hi _ _ Hy) as (Hid&_).
  rewrite Hd1, Hy. set (s2 := set_db (set_user (with_PasswordHash h y) (db s)) s1).
  assert (store_inv n (db s2)) as Hi2.
  { apply (inv_set_user n (db s) y (with_PasswordHash h y)); [simpl; by rewrite Hid|done..]. }
  pose proof (LogoutAll_ends n u s2 sid x Hi2 Hx Hu) as He.
  unfold LogoutAll, bind in He. unfold bind.
  destruct (bumpUserSessionVersionLocked u s2) as [s3 [[]|]]; [|done].
  destruct (syncUserVersionLocked u s3) as [s4 [[]|]]; [|done].
  destruct (revokeUserSessionsLocked u s4) as [s5 [[]|]]; [|done]. simpl in *.
  by destruct (usersByID (db s5) !! u).
Qed.

(** C14 Ended means ended.  Once a user is logged out everywhere, disabled, or has a
    new password, every session that existed is refused for good, with every
    refresh token of it, whatever calls follow and whenever, and whatever
    happened to the writes to Redis. *)
Theorem ended_sessions_stay_ended u op s sid x ops t :
  ok (1 + Z.of_nat (length ops)) s -> ends_user u op s ->
  sessions (db s) !! sid = Some x -> s_UserID x = u ->
  session_refused sid (at_time t (run_ops ops (serve_op op s).1)).
Proof.
  intros Hs Hends Hx Hu.
  pose proof (evolves_op (Z.of_nat (length ops)) op s ltac:(lia) Hs) as [He _].
  apply ended_refused. simpl. eapply ended_later; [by apply later_run|].
  destruct op; try done; unfold serve_op; rewrite ignore_1; simpl in Hends.
  - destruct Hends as (->&->&Hok). eapply SetUserStatus_ends; [apply Hs|done..].
  - subst. eapply LogoutAll_ends; [apply Hs|done..].
  - destruct Hends as [Hp Hok]. eapply UpdatePassword_ends; [apply Hs|done..].
Qed.

(** * Refreshing *)

(** The client keeps its newest token and refreshes at the times [ts]. *)
Fixpoint refresh_chain (token : string) (ttl : Z) (ts : list Z) s
  : env Store auth_world * res store_error string :=
  match ts with
  | [] => (s, Ok token)
  | t :: ts' =>
      match RefreshSession token ttl (at_time t s) with
      | (s', Ok (_, token')) => refresh_chain token' ttl ts' s'
      | (s', Err e) => (s', Err e)
      end
  end.

(** Each refresh comes before the expiry the one before has set. *)
Fixpoint in_time (expiry ttl : Z) (ts : list Z) : Prop :=
  match ts with
  | [] => True
  | t :: ts' => t <= expiry /\ in_time (t + ttl) ttl ts'
  end.

Lemma current_token_good n s sid x :
  store_inv n (db s) -> 0 <= n -> sessions (db s) !! sid = Some x -> live_session (now s) x = true ->
  use_token (buildRefreshToken sid (s_RefreshGeneration x) (s_RefreshFamilySecret x)) s =
  (s, Ok (sid, x)).
Proof.
  intros Hi Hn Hx Hl. pose proof (si_sessions _ _ Hi _ _ Hx) as Hok.
  destruct (so_name _ _ _ _ Hok) as [Hne Hfree]. pose proof (so_generation _ _ _ _ Hok) as Hgen.
  unfold use_token. rewrite parse_build by (try done; lia).
  unfold bind at 1, get_now, bind at 1, get_store. rewrite Hx.
  unfold bind at 1. rewrite Hl. simpl. unfold bind at 1. rewrite verify_signature. simpl.
  by rewrite !Z.ltb_irrefl.
Qed.

(** C22 A session lives as long as it is refreshed: a client that presents its newest
    token before each expiry is always served, any number of times, with any
    failures of Redis, and holds in the end the token of a live session whose
    generation counts the refreshes. *)
Theorem refreshing_never_stops ts s sid x ttl :
  ok (Z.of_nat (length ts)) s -> 0 < ttl <= 9223372036 ->
  sessions (db s) !! sid = Some x -> s_Revoked x = false -> in_time (s_ExpiresAt x) ttl ts ->
  exists s' y,
    refresh_chain (buildRefreshToken sid (s_RefreshGeneration x) (s_RefreshFamilySecret x)) ttl ts s =
      (s', Ok (buildRefreshToken sid (s_RefreshGeneration y) (s_RefreshFamilySecret y))) /\
    sessions (db s') !! sid = Some y /\ s_Revoked y = false /\
    s_RefreshGeneration y = s_RefreshGeneration x + Z.of_nat (length ts).
Proof.
  revert s x. induction ts as [|t ts IH]; intros s x Hs Httl Hx Hr Ht; simpl.
  - exists s, x. split_and!; [done..|lia].
  - destruct Ht as [Ht Hts]. rewrite length_cons in Hs.
    pose proof (si_sessions _ _ (proj1 Hs) _ _ Hx) as Hok.
    pose proof (so_generation _ _ _ _ Hok) as Hgen.
    assert (ok (1 + Z.of_nat (length ts)) (at_time t s)) as Hs1.
    { apply (ok_weaken (Z.of_nat (S (length ts)))); [lia|exact Hs]. }
    assert (use_token (buildRefreshToken sid (s_RefreshGeneration x) (s_RefreshFamilySecret x))
              (at_time t s) = (at_time t s, Ok (sid, x))) as Hu.
    { eapply current_token_good; [apply Hs1|lia|done|]. unfold live_session. rewrite Hr. simpl.
      by apply Z.leb_le. }
    destruct (refresh_run _ ttl _ _ _ Hu) as (s2&He&Hd&_&_).
    pose proof (evolves_RefreshSession (Z.of_nat (length ts))
      (buildRefreshToken sid (s_RefreshGeneration x) (s_RefreshFamilySecret x)) ttl
      (at_time t s) ltac:(lia) Hs1) as [Hs2 _].
    rewrite He in Hs2 |- *. set (y := rotate sid _ x) in *. cbn [fst] in Hs2.
    assert (s_RefreshGeneration y = s_RefreshGeneration x + 1) as Hgy.
    { apply int64_id. unfold_int64. lia. }
    destruct (IH s2 y Hs2) as (s3&z&Hc&Hz&Hrz&Hgz); [done| |done| |].
    + rewrite Hd. simpl. by rewrite lookup_insert_eq.
    + unfold y. simpl. unfold default_to. rewrite (proj2 (Z.leb_gt _ _)) by lia.
      rewrite seconds_id by lia. done.
    + exists s3, z. split_and!; [exact Hc|done|done|]. rewrite Hgz, Hgy. lia.
Qed.

(** * Verification codes *)

(** Guesses made one after another, each at its time. *)
Fixpoint consume_all (phone scene : string) (maxAttempts : Z) (guesses : list (Z * string)) s
  : list bool :=
  match guesses with
  | [] => []
  | (t, g) :: guesses' =>
      let '(s', r) := ConsumeCode phone scene g maxAttempts (at_time t s) in
      is_ok r :: consume_all phone scene maxAttempts guesses' s'
  end.

Lemma no_code_no_luck p sc m guesses s :
  codes (db s) !! codeKey p sc = None ->
  forall i b, consume_all p sc m guesses s !! i = Some b -> b = false.
Proof.
  revert s. induction guesses as [|[t g] gs IH]; intros s Hs i b; simpl; [done|].
  unfold ConsumeCode, bind, get_now, get_store. simpl. rewrite Hs. simpl.
  destruct i as [|i]; simpl; [by intros [= <-]|].
  apply IH. simpl. apply lookup_delete_eq.
Qed.

Definition wrong (code : string) (expiry : Z) (guess : Z * string) : Prop :=
  guess.1 <= expiry /\ guess.2 <> code.

#[local] Instance wrong_dec code expiry guess : Decision (wrong code expiry guess).
Proof. unfold wrong. apply _. Defined.

(** The guess that wins: the right code in time, after wrong guesses only, of
    which there were fewer than allowed. *)
Definition accepted (code : string) (expiry maxAttempts : Z) (guesses : list (Z * string))
    (i : nat) (guess : Z * string) : Prop :=
  guess.1 <= expiry /\ guess.2 = code /\ Forall (wrong code expiry) (take i guesses) /\
  (0 < maxAttempts -> Z.of_nat i < maxAttempts).

Lemma guesses_from code e a m p sc guesses s :
  codes (db s) !! codeKey p sc = Some (mkCode code e a) ->
  (0 < m -> 0 <= a < m) -> m <= int64_max ->
  forall i g b, guesses !! i = Some g -> consume_all p sc m guesses s !! i = Some b ->
    b = true <-> g.1 <= e /\ g.2 = code /\ Forall (wrong code e) (take i guesses) /\
                 (0 < m -> a + Z.of_nat i < m).
Proof.
  intros Hs Ha Hm. revert s a Hs Ha.
  induction guesses as [|[t g0] gs IH]; intros s a Hs Ha i g b; [done|].
  cbn [consume_all]. unfold ConsumeCode, bind, get_now, get_store. cbn [db at_time now]. rewrite Hs.
  cbn [vc_Code vc_ExpiresAt vc_Attempts].
  destruct (e <? t) eqn:Het; bools; [|destruct (str_eqb code g0) eqn:Hcode; bools].
  - destruct i as [|i]; cbn; [intros [= <-] [= <-]; simpl; split; [done|lia]|].
    intros Hg Hb.
      assert (b = false) as -> by (eapply no_code_no_luck; [|exact Hb]; apply lookup_delete_eq).
    split; [done|]. intros (_&_&Hf&_). apply Forall_cons in Hf as [[? _] _]. simpl in *. lia.
  - subst g0. destruct i as [|i]; cbn.
    + intros [= <-] [= <-]. simpl. split; [|done]. intros _. split_and!; [lia|done|done|].
      intros Hm'. specialize (Ha Hm'). lia.
    + intros Hg Hb.
      assert (b = false) as -> by (eapply no_code_no_luck; [|exact Hb]; apply lookup_delete_eq).
      split; [done|]. intros (_&_&Hf&_). by apply Forall_cons in Hf as [[_ ?] _].
  - destruct ((0 <? m) && (m <=? int64 (a + 1))) eqn:Hlast; bools.
    + assert (int64 (a + 1) = a + 1) as Hi by (apply int64_id; unfold_int64; lia).
      destruct i as [|i]; cbn.
      * intros [= <-] [= <-]. simpl. split; [done|]. intros (_&?&_). congruence.
      * intros Hg Hb.
      assert (b = false) as -> by (eapply no_code_no_luck; [|exact Hb]; apply lookup_delete_eq).
        split; [done|]. intros (_&_&_&Hi'). lia.
    + destruct i as [|i]; cbn.
      * intros [= <-] [= <-]. simpl. split; [done|]. intros (_&?&_). congruence.
      * assert (0 < m -> int64 (a + 1) = a + 1 /\ a + 1 < m) as Hi.
        { intros Hm'. assert (int64 (a + 1) = a + 1) as Hi by (apply int64_id; unfold_int64; lia).
          split; [done|]. apply andb_false_iff in Hlast as [?|?]; bools; lia. }
        intros Hg Hb.
        refine (iff_trans (IH _ (int64 (a + 1)) _ _ i g b Hg Hb) _);
          [apply lookup_insert_eq|lia|].
        rewrite Nat2Z.inj_succ.
        assert (Forall (wrong code e) (take (S i) ((t, g0) :: gs)) <->
                Forall (wrong code e) (take i gs)) as ->.
        { simpl. rewrite Forall_cons. unfold wrong at 1. simpl. intuition congruence. }
        intuition lia.
Qed.

(** A verification code admits one guess.  After a code was issued, the [i]-th
    guess is accepted if and only if it is the issued code, presented before the
    code expires, no earlier guess was right or late, and fewer than
    [maxAttempts] guesses were made (when there is a limit): a code is used at
    most once and cannot be searched for. *)
Theorem code_is_used_once phone scene ttl s s1 code expiry guesses i guess b maxAttempts :
  IssueCode phone scene ttl s = (s1, Ok (code, expiry)) -> maxAttempts <= int64_max ->
  guesses !! i = Some guess ->
  consume_all phone scene maxAttempts guesses s1 !! i = Some b ->
  b = true <-> accepted code expiry maxAttempts guesses i guess.
Proof.
  unfold IssueCode. destruct (_ || _); [done|].
  unfold bind, get_now, update_store, ret. intros [= <- <- <-] Hm Hg Hb.
  eapply (guesses_from _ _ 0); [|done|done|exact Hg|exact Hb].
  simpl. apply lookup_insert_eq.
Qed.
End sessions.

(** * Pages of users *)

Lemma paged_spec {A} page pageSize (users : list A) :
  0 < pageSize -> 1 <= page -> page * pageSize <= int64_max ->
  paged page pageSize users =
  Some (take (Z.to_nat pageSize) (drop (Z.to_nat ((page - 1) * pageSize)) users)).
Proof.
  intros Hs Hp Hb. unfold paged.
  assert (0 <= (page - 1) * pageSize /\ (page - 1) * pageSize + pageSize <= int64_max) as [H0 H1]
    by nia.
  assert (page <= page * pageSize) as Hpm by nia.
  rewrite (proj2 (Z.leb_gt pageSize 0)) by lia.
  assert (default_to page 1 = page) as ->.
  { unfold default_to. by rewrite (proj2 (Z.leb_gt page 0)) by lia. }
  rewrite (int64_id (page - 1)) by (unfold_int64; lia).
  rewrite (int64_id ((page - 1) * pageSize)) by (unfold_int64; lia).
  rewrite (int64_id (_ + _)) by (unfold_int64; lia).
  destruct (_ <=? (page - 1) * pageSize) eqn:Ht; bools.
  - by rewrite drop_ge, take_nil by lia.
  - set (start := (page - 1) * pageSize) in *. unfold slice.
    destruct (Z.of_nat (length users) <? start + pageSize) eqn:He; bools.
    + rewrite (proj2 (Z.leb_le 0 start)), (proj2 (Z.leb_le start _)), Z.leb_refl by lia. simpl.
      rewrite !take_ge; [done|rewrite length_drop; lia..].
    + rewrite (proj2 (Z.leb_le 0 start)), (proj2 (Z.leb_le start (start + pageSize))),
        (proj2 (Z.leb_le (start + pageSize) _)) by lia. simpl.
      do 3 f_equal. lia.
Qed.

#[local] Instance newer_total : Total newer.
Proof. intros a b. unfold newer. lia. Qed.
#[local] Instance newer_trans : Transitive newer.
Proof. intros a b c. unfold newer. lia. Qed.

(** A page of the user list.  Within the range of [int64] a page is the matching
    slice of one list, the newest users first, of exactly the users that match
    the filter; the total counts that list. *)
Theorem ListUsers_page page pageSize status role keyword st :
  0 < pageSize -> 1 <= page -> page * pageSize <= int64_max ->
  exists users,
    ListUsers page pageSize status role keyword st =
      Some (take (Z.to_nat pageSize) (drop (Z.to_nat ((page - 1) * pageSize)) users),
            Z.of_nat (length users)) /\
    Sorted.StronglySorted newer users /\
    users ≡ₚ filter (fun u => listed status (trim_space role) (to_lower (trim_space keyword)) u = true)
               ((map_to_list (usersByID st)).*2).
Proof.
  intros Hs Hp Hb. exists (listed_users status role keyword st). split_and!.
  - unfold ListUsers. by rewrite paged_spec.
  - apply sorting.StronglySorted_merge_sort; apply _.
  - apply sorting.merge_sort_Permutation.
Qed.

(** The offset of a page wraps around: this page panics on every store. *)
Theorem huge_page_panics status role keyword st :
  ListUsers (2 ^ 62 + 1) 2 status role keyword st = None.
Proof.
  unfold ListUsers. generalize (listed_users status role keyword st). intros users.
  assert (paged (2 ^ 62 + 1) 2 users = None) as ->; [|done]. unfold paged, default_to. simpl.
  change (int64 (int64 (2 ^ 62 + 1 - 1) * 2)) with (-9223372036854775808).
  change (int64 (-9223372036854775808 + 2)) with (-9223372036854775806).
  rewrite (proj2 (Z.leb_gt (Z.of_nat (length users)) (-9223372036854775808))) by lia.
  rewrite (proj2 (Z.ltb_ge (Z.of_nat (length users)) (-9223372036854775806))) by lia. done.
Qed.

(** * Runs

    Concrete runs of the auth service: the theorems about its stores at given
    inputs, and behaviours shown on an example. *)

(** Passwords kept as they are: a password function that satisfies the laws. *)
#[export] Instance plain_bcrypt : Bcrypt := {|
  bcrypt_hash _ password :=
    if (72 <? String.length password)%nat then None else Some password;
  bcrypt_compare hash password := str_eqb hash password
|}.

#[export] Instance plain_bcrypt_laws : BcryptLaws.
Proof.
  constructor. intros salt password hash. simpl. destruct (_ <? _)%nat; [done|].
  intros [= <-]. apply str_eqb_refl.
Qed.

Definition start : env Store auth_world :=
  mkEnv empty_store (mkAuthWorld ∅ [[1]; [2]; [3]; [4]; [5]; [6]; [7]; [8]] true) 0 [FailBefore; FailAfter].

Definition demo : env Store auth_world := (NewStoreWithState "" start).1.

Lemma start_fresh : fresh (random (ext start)) empty_store.
Proof.
  split.
  - apply (bool_decide_unpack _). vm_compute. exact I.
  - repeat apply Forall_cons_2; try apply Forall_nil_2; done.
Qed.

Lemma demo_ok n : 1003 + n <= int64_max -> ok n demo.
Proof. intros Hn. apply ok_seeded; [done|done|apply start_fresh]. Qed.

(** User 1001 has a session on the web; its first token. *)
Definition logged_in : env Store auth_world :=
  run_ops [(10, OpCreateSession 1001 "web" 3600)] demo.

Definition token_of (g : Z) : string := buildRefreshToken "Aw" g (hex [4]).

Lemma logged_in_ok n : 0 <= n -> 1004 + n <= int64_max -> ok n logged_in.
Proof.
  intros H0 Hn. apply (evolves_run n [(10, OpCreateSession 1001 "web" 3600)] demo); [done|].
  simpl length. apply demo_ok. lia.
Qed.

Lemma reachable_store_invariant_witness :
  store_inv 0 (db (run_ops [(10, OpCreateSession 1001 "web" 3600); (20, OpLogoutAll 1001)]
                     (NewStoreWithState "" start).1)).
Proof.
  apply (reachable_store_invariant "" _ start); [vm_compute; discriminate|reflexivity|apply start_fresh].
Defined.

Lemma refresh_token_single_use_witness :
  is_ok (present false (token_of 1) 3600
    (at_time 40 (run_ops [(30, OpCreateUser "13900000000" "" "pw")]
       (present false (token_of 1) 3600 logged_in).1))).2 = false.
Proof.
  apply (refresh_token_single_use false (token_of 1) 3600 logged_in
    [(30, OpCreateUser "13900000000" "" "pw")] 40 false 3600).
  - apply logged_in_ok; [done|]. vm_compute. discriminate.
  - vm_compute. reflexivity.
Defined.

(** Once refreshed: the session is at its second generation. *)
Definition refreshed : env Store auth_world := run_ops [(20, OpRefresh (token_of 1) 3600)] logged_in.

Lemma refreshed_ok n : 0 <= n -> 1005 + n <= int64_max -> ok n refreshed.
Proof.
  intros H0 Hn. apply (evolves_run n [(20, OpRefresh (token_of 1) 3600)] logged_in); [done|].
  simpl length. apply logged_in_ok; lia.
Qed.

Lemma replay_ends_family_witness :
  exists x, sessions (db refreshed) !! "Aw" = Some x /\
    let token := buildRefreshToken "Aw" 1 (s_RefreshFamilySecret x) in
    (RefreshSession token 3600 refreshed).2 = Err ErrRefreshTokenReplayed /\
    session_refused "Aw" (at_time 50 (run_ops [] (RefreshSession token 3600 refreshed).1)).
Proof.
  destruct (sessions (db refreshed) !! "Aw") as [x|] eqn:Hx;
    [|vm_compute in Hx; discriminate Hx].
  exists x. split; [reflexivity|].
  apply (replay_ends_family refreshed "Aw" x 1 3600 [] 50).
  - apply refreshed_ok; [done|]. vm_compute. discriminate.
  - exact Hx.
  - vm_compute in Hx. injection Hx as <-. vm_compute. reflexivity.
  - vm_compute in Hx. injection Hx as <-. vm_compute. split; reflexivity.
Defined.

Lemma ended_sessions_stay_ended_witness :
  session_refused "Aw"
    (at_time 60 (run_ops [(50, OpCreateSession 1001 "app" 60)] (serve_op (OpLogoutAll 1001) refreshed).1)).
Proof.
  destruct (sessions (db refreshed) !! "Aw") as [x|] eqn:Hx;
    [|vm_compute in Hx; discriminate Hx].
  apply (ended_sessions_stay_ended 1001 (OpLogoutAll 1001) refreshed "Aw" x
    [(50, OpCreateSession 1001 "app" 60)] 60).
  - apply refreshed_ok; [done|]. vm_compute. discriminate.
  - reflexivity.
  - exact Hx.
  - vm_compute in Hx. injection Hx as <-. reflexivity.
Defined.

Lemma refreshing_never_stops_witness :
  exists x s' y,
    sessions (db refreshed) !! "Aw" = Some x /\
    refresh_chain (buildRefreshToken "Aw" (s_RefreshGeneration x) (s_RefreshFamilySecret x)) 3600
      [100; 3700; 7300] refreshed =
      (s', Ok (buildRefreshToken "Aw" (s_RefreshGeneration y) (s_RefreshFamilySecret y))) /\
    sessions (db s') !! "Aw" = Some y /\ s_Revoked y = false /\
    s_RefreshGeneration y = s_RefreshGeneration x + 3.
Proof.
  destruct (sessions (db refreshed) !! "Aw") as [x|] eqn:Hx;
    [|vm_compute in Hx; discriminate Hx].
  exists x. destruct (refreshing_never_stops [100; 3700; 7300] refreshed "Aw" x 3600)
    as (s'&y&H1&H2&H3&H4).
  - apply refreshed_ok; [done|]. vm_compute. discriminate.
  - vm_compute. split; [reflexivity|discriminate].
  - exact Hx.
  - vm_compute in Hx. injection Hx as <-. reflexivity.
  - vm_compute in Hx. injection Hx as <-. vm_compute. repeat split; discriminate.
  - exists s', y. split; [reflexivity|]. split; [exact H1|]. split; [exact H2|]. split; assumption.
Defined.

Lemma code_is_used_once_witness :
  true = true <-> accepted "246810" 310 3 [(11, "000000"); (12, "246810"); (13, "246810")] 1 (12, "246810").
Proof.
  destruct (IssueCode "13900000000" "login" 300 (at_time 10 demo)) as [s1 r] eqn:Hi.
  assert (r = Ok ("246810", 310)) as -> by (vm_compute in Hi; injection Hi as _ <-; reflexivity).
  apply (code_is_used_once "13900000000" "login" 300 (at_time 10 demo) s1 "246810" 310
    [(11, "000000"); (12, "246810"); (13, "246810")] 1 (12, "246810") true 3 Hi).
  - vm_compute. discriminate.
  - reflexivity.
  - vm_compute in Hi. injection Hi as <-. vm_compute. reflexivity.
Defined.

Lemma ListUsers_page_witness :
  exists users,
    ListUsers 2 1 0 "" "" (db demo) = Some (take 1 (drop 1 users), Z.of_nat (length users)) /\
    Sorted.StronglySorted newer users /\
    users ≡ₚ filter (fun u => listed 0 (trim_space "") (to_lower (trim_space "")) u = true)
               ((map_to_list (usersByID (db demo))).*2).
Proof. apply (ListUsers_page 2 1 0 "" "" (db demo)); vm_compute; congruence. Defined.
