(* ===== verification/AuthSQL.v ===== *)
(** The MySQL auth store (app/auth/api/internal/authstore: sqlstore.go,
    sqlstore_session.go, sqlstore_code.go, sqlstore_user.go), on the tables of
    scripts/k8s/sql/30-auth-schema.sql.

    Statements may fail before or after their effect, transactions roll back,
    Redis is written after the commit and its errors are dropped.  A value of an
    [AUTO_INCREMENT] column is one more than the greatest there was; text is
    compared byte by byte; column widths are left out. *)

From Stdlib Require Import Ascii.
From stdpp Require Import sorting.
From S2P Require Import Prelude Effects GoText AuthTokens AuthData AuthMemory.
Close Scope char_scope.

(** * Tables *)

Record UserRow := mkUserRow {
  ur_DisplayName : string; ur_Role : string; ur_Status : Z; ur_SessionVersion : Z; ur_CreateTime : Z
}.

Record SessionRow := mkSessionRow {
  sr_UserID : Z; sr_DeviceType : string; sr_SessionVersion : Z; sr_RefreshTokenHash : string;
  sr_PreviousRefreshTokenHash : string; sr_RefreshFamilySecret : string; sr_RefreshGeneration : Z;
  sr_Status : Z; sr_ExpiresAt : Z; sr_LastSeenAt : Z; sr_RevokedAt : option Z
}.

(** [verification_codes], oldest first: the row's [id] is its position. *)
Record CodeRow := mkCodeRow {
  cr_Target : string; cr_Scene : string; cr_CodeHash : string; cr_Status : Z; cr_ExpiresAt : Z;
  cr_AttemptCount : Z; cr_ConsumedAt : option Z
}.

Record AuthDB := mkAuthDB {
  users : gmap Z UserRow;
  last_user : Z;                          (* AUTO_INCREMENT of users *)
  user_identities : gmap string Z;        (* identity_type = 'phone' *)
  user_credentials : gmap Z string;       (* credential_type = 'password' *)
  user_sessions : gmap string SessionRow;
  verification_codes : list CodeRow
}.

Definition with_user_rows (t : gmap Z UserRow) (d : AuthDB) : AuthDB :=
  mkAuthDB t (last_user d) (user_identities d) (user_credentials d) (user_sessions d)
    (verification_codes d).
Definition with_identities (t : gmap string Z) (d : AuthDB) : AuthDB :=
  mkAuthDB (users d) (last_user d) t (user_credentials d) (user_sessions d) (verification_codes d).
Definition with_credentials (t : gmap Z string) (d : AuthDB) : AuthDB :=
  mkAuthDB (users d) (last_user d) (user_identities d) t (user_sessions d) (verification_codes d).
Definition with_session_rows (t : gmap string SessionRow) (d : AuthDB) : AuthDB :=
  mkAuthDB (users d) (last_user d) (user_identities d) (user_credentials d) t
    (verification_codes d).
Definition with_code_rows (t : list CodeRow) (d : AuthDB) : AuthDB :=
  mkAuthDB (users d) (last_user d) (user_identities d) (user_credentials d) (user_sessions d) t.

(** * Queries *)

(** The phones a [LEFT JOIN] on [user_identities] pairs with a user. *)
Definition phones_of (userID : Z) (d : AuthDB) : list string :=
  match (filter (fun e => e.2 = userID) (map_to_list (user_identities d))).*1 with
  | [] => [""]
  | phones => phones
  end.

Definition password_hash_of (userID : Z) (d : AuthDB) : string :=
  default "" (user_credentials d !! userID).

Definition defaultDisplayName (userID : Z) : string :=
  if 0 <? userID then "Flash Mall User " +:+ itoa userID else "Flash Mall User".

(** A full row of the user queries. *)
Definition user_row (userID : Z) (phone : string) (r : UserRow) (d : AuthDB) : User :=
  mkUser userID phone
    (if is_empty (ur_DisplayName r) then defaultDisplayName userID else ur_DisplayName r)
    (password_hash_of userID d) (ur_SessionVersion r) (ur_Role r) (ur_Status r) (ur_CreateTime r).

(** [queryUser] scans neither the status nor the creation time. *)
Definition queryUser (u : User) : User :=
  mkUser (u_ID u) (u_Phone u) (u_DisplayName u) (u_PasswordHash u) (u_SessionVersion u) (u_Role u)
    statusActive 0.

Definition select_user (userID : Z) (d : AuthDB) : option User :=
  r ← users d !! userID; phone ← head (phones_of userID d); Some (user_row userID phone r d).

Definition select_active_user (userID : Z) (d : AuthDB) : option User :=
  u ← select_user userID d; if u_Status u =? statusActive then Some (queryUser u) else None.

Definition select_active_phone (phone : string) (d : AuthDB) : option User :=
  id ← user_identities d !! phone;
  r ← users d !! id;
  if ur_Status r =? statusActive then Some (queryUser (user_row id phone r d)) else None.

Definition querySession (sessionID : string) (r : SessionRow) : Session :=
  mkSession sessionID (sr_UserID r) (sr_DeviceType r) (sr_SessionVersion r) (sr_RefreshTokenHash r)
    (sr_PreviousRefreshTokenHash r) (sr_RefreshFamilySecret r) (sr_RefreshGeneration r)
    (sr_ExpiresAt r) (negb (sr_Status r =? statusActive)).

Definition select_session (sessionID : string) (d : AuthDB) : option Session :=
  querySession sessionID <$> user_sessions d !! sessionID.

(** [AND EXISTS (SELECT 1 FROM users ...)]. *)
Definition user_is_active (userID : Z) (d : AuthDB) : bool :=
  if users d !! userID is Some r then ur_Status r =? statusActive else false.

Definition select_session_active_user (sessionID : string) (d : AuthDB) : option Session :=
  s ← select_session sessionID d; if user_is_active (s_UserID s) d then Some s else None.

Definition active_of (userID : Z) (deviceType : string) (r : SessionRow) : bool :=
  (sr_UserID r =? userID) && (is_empty deviceType || str_eqb (sr_DeviceType r) deviceType) &&
  (sr_Status r =? statusActive).

Definition select_active_ids (userID : Z) (deviceType : string) (d : AuthDB) : list string :=
  (filter (fun e => active_of userID deviceType e.2 = true) (map_to_list (user_sessions d))).*1.

(** * Updates *)

Definition revoke_row (t : Z) (r : SessionRow) : SessionRow :=
  mkSessionRow (sr_UserID r) (sr_DeviceType r) (sr_SessionVersion r) (sr_RefreshTokenHash r)
    (sr_PreviousRefreshTokenHash r) (sr_RefreshFamilySecret r) (sr_RefreshGeneration r)
    statusRevoked (sr_ExpiresAt r) (sr_LastSeenAt r) (Some t).

Definition touch_row (t : Z) (r : SessionRow) : SessionRow :=
  mkSessionRow (sr_UserID r) (sr_DeviceType r) (sr_SessionVersion r) (sr_RefreshTokenHash r)
    (sr_PreviousRefreshTokenHash r) (sr_RefreshFamilySecret r) (sr_RefreshGeneration r)
    (sr_Status r) (sr_ExpiresAt r) t (sr_RevokedAt r).

(** [UPDATE user_sessions SET status = 3 ... WHERE user_id = ? AND status = 1]. *)
Definition revoke_rows (t userID : Z) (deviceType : string) (d : AuthDB) : AuthDB :=
  with_session_rows
    ((fun r => if active_of userID deviceType r then revoke_row t r else r) <$> user_sessions d) d.

Definition revoke_row_of (t : Z) (touch : bool) (sessionID : string) (d : AuthDB) : AuthDB :=
  with_session_rows
    (alter (fun r => if sr_Status r =? statusActive
                     then revoke_row t (if touch then touch_row t r else r) else r)
       sessionID (user_sessions d)) d.

(** The unique key on [refresh_token_hash]. *)
Definition hash_taken (hash : string) (d : AuthDB) : bool :=
  existsb (fun e => str_eqb (sr_RefreshTokenHash e.2) hash) (map_to_list (user_sessions d)).

Definition set_session_version (userID v : Z) (d : AuthDB) : AuthDB :=
  with_user_rows (alter (fun r => mkUserRow (ur_DisplayName r) (ur_Role r) (ur_Status r) v
                                    (ur_CreateTime r)) userID (users d)) d.

Definition set_status (userID st v : Z) (d : AuthDB) : AuthDB :=
  with_user_rows (alter (fun r => mkUserRow (ur_DisplayName r) (ur_Role r) st v
                                    (ur_CreateTime r)) userID (users d)) d.

(** * The store *)

Module SQLStore.
Section store.
Context `{Bcrypt}.
Abbreviation M := (Effects.M AuthDB auth_world store_error).

Definition db_failed : store_error := StoreFailed "mysql".

Definition select {A} (f : AuthDB -> A) : M A := sql (fun d => (d, f d)) db_failed.
Definition exec (f : AuthDB -> AuthDB) : M unit := sql (fun d => (f d, tt)) db_failed.
(** A statement that a unique key may refuse. *)
Definition exec_unique (taken : AuthDB -> bool) (f : AuthDB -> AuthDB) (e : store_error) : M unit :=
  refused <- sql (fun d => if taken d then (d, true) else (f d, false)) db_failed ;;
  if (refused : bool) then throw e else ret tt.

Definition one {A} (row : option A) (e : store_error) : M A :=
  match row with Some a => ret a | None => throw e end.

Definition syncSessionState (session : Session) : M unit :=
  t <- get_now ;;
  let ttl := s_ExpiresAt session - t in
  if ttl <=? 0 then ret tt else publish (SaveSession (snapshot_of session) ttl).

Definition deleteSessionState (sessionID : string) : M unit :=
  if is_empty sessionID then ret tt else publish (DeleteSession sessionID).

Definition syncUserVersion (userID version : Z) : M unit :=
  if (userID <=? 0) || (version <=? 0) then ret tt else publish (SetUserVersion userID version).

(** ** sqlstore_session.go *)

Definition GetActiveSession (sessionID : string) : M Session :=
  if is_empty sessionID then throw ErrSessionNotFound else
  row <- select (select_session_active_user sessionID) ;;
  session <- one row ErrSessionNotFound ;;
  t <- get_now ;;
  if live_session t session then ret session else throw ErrSessionNotFound.

Definition new_row (sessionID secret : string) (userID : Z) (deviceType : string)
    (version expiresAt t : Z) : SessionRow :=
  mkSessionRow userID deviceType version (hashToken (buildRefreshToken sessionID 1 secret)) ""
    secret 1 statusActive expiresAt t None.

Definition create_session_body (userID : Z) (deviceType sessionID secret : string) (ttlSeconds : Z)
  : M (txend store_error (User * list string * Z)) :=
  row <- select (select_active_user userID) ;;
  user <- one row ErrUserNotFound ;;
  oldSessionIDs <- select (select_active_ids userID deviceType) ;;
  t <- get_now ;;
  (match oldSessionIDs with [] => ret tt | _ => exec (revoke_rows t userID deviceType) end) ;;;
  let expiresAt := t + seconds ttlSeconds in
  let row := new_row sessionID secret userID deviceType (u_SessionVersion user) expiresAt t in
  exec_unique (fun d => bool_decide (is_Some (user_sessions d !! sessionID)) ||
                        hash_taken (sr_RefreshTokenHash row) d)
    (fun d => with_session_rows (<[sessionID := row]> (user_sessions d)) d) db_failed ;;;
  ret (Commit db_failed (user, oldSessionIDs, expiresAt)).

Definition CreateSessionForDevice (userID : Z) (deviceType : string) (ttlSeconds : Z)
  : M (string * string) :=
  if userID <=? 0 then throw ErrUserNotFound else
  let deviceType := if is_empty deviceType then "web" else deviceType in
  sessionID <- randomToken ;;
  refreshFamilySecret <- randomSecret ;;
  ' (user, oldSessionIDs, expiresAt) <- run_tx db_failed
    (create_session_body userID deviceType sessionID refreshFamilySecret (default_to ttlSeconds week)) ;;
  for_each deleteSessionState oldSessionIDs ;;;
  syncSessionState (mkSession sessionID userID deviceType (u_SessionVersion user) "" ""
                      refreshFamilySecret 1 expiresAt false) ;;;
  ret (sessionID, buildRefreshToken sessionID 1 refreshFamilySecret).

Definition CreateSession (userID ttlSeconds : Z) : M (string * string) :=
  CreateSessionForDevice userID "web" ttlSeconds.

(** The conditional update of a refresh: the number of rows, or [None] when the
    unique key refuses the new hash. *)
Definition refresh_row (session : Session) (tokenGeneration : Z) (refreshHash : string) (t : Z)
    (d : AuthDB) : AuthDB * option Z :=
  match user_sessions d !! s_ID session with
  | Some r =>
      if (sr_RefreshGeneration r =? tokenGeneration) && str_eqb (sr_RefreshTokenHash r) refreshHash &&
         (sr_Status r =? statusActive)
      then
        if hash_taken (s_RefreshTokenHash session)
             (with_session_rows (delete (s_ID session) (user_sessions d)) d)
        then (d, None)
        else (with_session_rows (<[s_ID session := mkSessionRow (sr_UserID r) (sr_DeviceType r)
                (sr_SessionVersion r) (s_RefreshTokenHash session) (s_PreviousRefreshTokenHash session)
                (sr_RefreshFamilySecret r) (s_RefreshGeneration session) (sr_Status r)
                (s_ExpiresAt session) t (sr_RevokedAt r)]> (user_sessions d)) d, Some 1)
      else (d, Some 0)
  | None => (d, Some 0)
  end.

(** What a transaction on a presented token decides. *)
Inductive token_verdict := Replayed (sessionID : string) | Accepted (session : Session).

(** The checks [RefreshSession] and [Logout] share, inside their transactions:
    the session, and whether the token is of its current generation. *)
Definition check_token (sessionID : string) (generation : Z) (signature : string)
    (row : option Session) : M (Session * bool) :=
  session <- one row ErrRefreshTokenInvalid ;;
  t <- get_now ;;
  require (live_session t session) ErrRefreshTokenInvalid ;;;
  require (verifyRefreshTokenSignature sessionID generation signature
             (s_RefreshFamilySecret session)) ErrRefreshTokenInvalid ;;;
  if generation <? s_RefreshGeneration session then ret (session, false)
  else if s_RefreshGeneration session <? generation then throw ErrRefreshTokenInvalid
  else ret (session, true).

Definition refresh_body (refreshToken sessionID : string) (generation : Z) (signature : string)
    (ttlSeconds : Z) : M (txend store_error token_verdict) :=
  row <- select (select_session_active_user sessionID) ;;
  ' (session, current) <- check_token sessionID generation signature row ;;
  t <- get_now ;;
  if negb current then
    exec (revoke_row_of t true (s_ID session)) ;;;
    ret (Commit db_failed (Replayed (s_ID session)))
  else
    let session' := rotate (s_ID session) (t + seconds ttlSeconds) session in
    rows <- sql (refresh_row session' generation (hashToken refreshToken) t) db_failed ;;
    match rows with
    | None => throw db_failed
    | Some n => if n =? 0 then throw ErrRefreshTokenInvalid
                else ret (Commit db_failed (Accepted session'))
    end.

Definition refresh_tx (refreshToken : string) (ttlSeconds : Z) : M token_verdict :=
  match parseRefreshToken refreshToken with
  | None => throw ErrRefreshTokenInvalid
  | Some (sessionID, generation, signature) =>
      run_tx db_failed (refresh_body refreshToken sessionID generation signature
                          (default_to ttlSeconds week))
  end.

Definition RefreshSession (refreshToken : string) (ttlSeconds : Z) : M (Session * string) :=
  verdict <- refresh_tx refreshToken ttlSeconds ;;
  match verdict with
  | Replayed sessionID => deleteSessionState sessionID ;;; throw ErrRefreshTokenReplayed
  | Accepted session =>
      syncSessionState session ;;;
      ret (session, buildRefreshToken (s_ID session) (s_RefreshGeneration session)
                      (s_RefreshFamilySecret session))
  end.

Definition logout_body (sessionID : string) (generation : Z) (signature : string)
  : M (txend store_error token_verdict) :=
  row <- select (select_session sessionID) ;;
  ' (session, current) <- check_token sessionID generation signature row ;;
  t <- get_now ;;
  exec (revoke_row_of t false (s_ID session)) ;;;
  ret (Commit db_failed (if (current : bool) then Accepted session else Replayed (s_ID session))).

Definition Logout (refreshToken : string) : M unit :=
  match parseRefreshToken refreshToken with
  | None => throw ErrRefreshTokenInvalid
  | Some (sessionID, generation, signature) =>
      verdict <- run_tx db_failed (logout_body sessionID generation signature) ;;
      match verdict with
      | Replayed sessionID => deleteSessionState sessionID ;;; throw ErrRefreshTokenReplayed
      | Accepted session => deleteSessionState (s_ID session)
      end
  end.

Definition next_version (v : Z) : Z := let v' := int64 (v + 1) in if v' <=? 0 then 1 else v'.

Definition logout_all_body (userID : Z) : M (txend store_error (list string * Z)) :=
  sessionIDs <- select (select_active_ids userID "") ;;
  row <- select (fun d => ur_SessionVersion <$> users d !! userID) ;;
  version <- one row db_failed ;;
  let nextVersion := next_version version in
  exec (set_session_version userID nextVersion) ;;;
  t <- get_now ;;
  exec (revoke_rows t userID "") ;;;
  ret (Commit db_failed (sessionIDs, nextVersion)).

Definition LogoutAll (userID : Z) : M unit :=
  if userID <=? 0 then ret tt else
  ignore (
    ' (sessionIDs, nextVersion) <- run_tx db_failed (logout_all_body userID) ;;
    for_each deleteSessionState sessionIDs ;;;
    syncUserVersion userID nextVersion).

(** ** sqlstore_code.go *)

Definition code_matches (phone scene : string) (r : CodeRow) : bool :=
  str_eqb (cr_Target r) phone && str_eqb (cr_Scene r) scene && (cr_Status r =? statusActive).

Definition set_code_status (st : Z) (r : CodeRow) : CodeRow :=
  mkCodeRow (cr_Target r) (cr_Scene r) (cr_CodeHash r) st (cr_ExpiresAt r) (cr_AttemptCount r)
    (cr_ConsumedAt r).
Definition set_attempts (n : Z) (r : CodeRow) : CodeRow :=
  mkCodeRow (cr_Target r) (cr_Scene r) (cr_CodeHash r) (cr_Status r) (cr_ExpiresAt r) n
    (cr_ConsumedAt r).
Definition consume_row (t : Z) (r : CodeRow) : CodeRow :=
  mkCodeRow (cr_Target r) (cr_Scene r) (cr_CodeHash r) statusUsed (cr_ExpiresAt r)
    (cr_AttemptCount r) (Some t).

Definition revoke_codes (phone scene : string) (d : AuthDB) : AuthDB :=
  with_code_rows (map (fun r => if code_matches phone scene r then set_code_status statusRevoked r
                                else r) (verification_codes d)) d.
Definition update_code (id : nat) (f : CodeRow -> CodeRow) (d : AuthDB) : AuthDB :=
  with_code_rows (alter f id (verification_codes d)) d.

(** [ORDER BY id DESC LIMIT 1]: the newest row that matches. *)
Fixpoint newest_from (phone scene : string) (id : nat) (rows : list CodeRow) : option (nat * CodeRow) :=
  match rows with
  | [] => None
  | r :: rows' =>
      match newest_from phone scene (S id) rows' with
      | Some found => Some found
      | None => if code_matches phone scene r then Some (id, r) else None
      end
  end.
Definition select_code (phone scene : string) (d : AuthDB) : option (nat * CodeRow) :=
  newest_from phone scene 0 (verification_codes d).

Definition issue_code_body (phone scene : string) (expiresAt : Z) : M (txend store_error unit) :=
  exec (revoke_codes phone scene) ;;;
  exec (fun d => with_code_rows (verification_codes d ++
          [mkCodeRow phone scene (hashToken issued_code) statusActive expiresAt 0 None]) d) ;;;
  ret (Commit db_failed tt).

Definition IssueCode (phone scene : string) (ttlSeconds : Z) : M (string * Z) :=
  if is_empty phone || is_empty scene then throw ErrInvalidCode else
  t <- get_now ;;
  let expiresAt := t + seconds (default_to ttlSeconds 300) in
  run_tx db_failed (issue_code_body phone scene expiresAt) ;;;
  ret (issued_code, expiresAt).

(** The body answers whether the code was right. *)
Definition consume_code_body (phone scene code : string) (maxAttempts : Z)
  : M (txend store_error bool) :=
  row <- select (select_code phone scene) ;;
  ' (id, entry) <- one row ErrInvalidCode ;;
  t <- get_now ;;
  if cr_ExpiresAt entry <? t then
    exec (update_code id (set_code_status statusRevoked)) ;;; ret (Commit db_failed false)
  else if negb (str_eqb (cr_CodeHash entry) (hashToken code)) then
    let attempts := int64 (cr_AttemptCount entry + 1) in
    (if (0 <? maxAttempts) && (maxAttempts <=? attempts)
     then exec (update_code id (fun r => set_code_status statusRevoked (set_attempts attempts r)))
     else exec (update_code id (set_attempts attempts))) ;;;
    ret (Commit db_failed false)
  else exec (update_code id (consume_row t)) ;;; ret (Commit db_failed true).

Definition ConsumeCode (phone scene code : string) (maxAttempts : Z) : M unit :=
  if is_empty phone || is_empty scene || is_empty code then throw ErrInvalidCode else
  right <- run_tx db_failed (consume_code_body phone scene code maxAttempts) ;;
  require right ErrInvalidCode.

Definition ResetCode (phone scene : string) : M unit :=
  if is_empty phone || is_empty scene then ret tt else exec (revoke_codes phone scene).

(** ** sqlstore_user.go *)

Definition insert_user (d : AuthDB) : AuthDB * Z :=
  let id := last_user d + 1 in
  (mkAuthDB (<[id := mkUserRow "" "user" statusActive 1 0]> (users d)) id (user_identities d)
     (user_credentials d) (user_sessions d) (verification_codes d), id).

Definition set_display_name (userID : Z) (name : string) (d : AuthDB) : AuthDB :=
  with_user_rows (alter (fun r => mkUserRow name (ur_Role r) (ur_Status r) (ur_SessionVersion r)
                                    (ur_CreateTime r)) userID (users d)) d.

Definition create_user_body (phone displayName hash : string) : M (txend store_error (Z * string)) :=
  userID <- sql insert_user db_failed ;;
  let name := if is_empty displayName then defaultDisplayName userID else displayName in
  exec (set_display_name userID name) ;;;
  exec_unique (fun d => bool_decide (is_Some (user_identities d !! phone)))
    (fun d => with_identities (<[phone := userID]> (user_identities d)) d) ErrUserExists ;;;
  exec_unique (fun d => bool_decide (is_Some (user_credentials d !! userID)))
    (fun d => with_credentials (<[userID := hash]> (user_credentials d)) d) db_failed ;;;
  ret (Commit db_failed (userID, name)).

Definition CreateUser (phone displayName password : string) : M User :=
  if is_empty phone || is_empty password then throw ErrInvalidCredentials else
  hash <- GenerateFromPassword password ;;
  ' (userID, name) <- run_tx db_failed (create_user_body phone displayName hash) ;;
  syncUserVersion userID 1 ;;;
  ret (mkUser userID phone name hash 1 "user" statusActive 0).

Definition GetUserByPhone (phone : string) : M User :=
  if is_empty phone then throw ErrUserNotFound else
  row <- select (select_active_phone phone) ;; one row ErrUserNotFound.

Definition GetUserByID (userID : Z) : M User :=
  if userID <=? 0 then throw ErrUserNotFound else
  row <- select (select_active_user userID) ;; one row ErrUserNotFound.

Definition getUserByIDAnyStatus (userID : Z) : M User :=
  row <- select (select_user userID) ;; one row ErrUserNotFound.

Definition GetUserByIDAnyStatus (userID : Z) : M User :=
  if userID <=? 0 then throw ErrUserNotFound else getUserByIDAnyStatus userID.

(** Any failure to read the user, a lost connection included, is answered as
    wrong credentials: [user == nil] is tested with [ErrUserNotFound]. *)
Definition Authenticate (userID : Z) (phone password : string) : M User :=
  found <- attempt (if is_empty phone then GetUserByID userID else GetUserByPhone phone) ;;
  match found with
  | Err _ => throw ErrInvalidCredentials
  | Ok user =>
      require (bcrypt_compare (u_PasswordHash user) password) ErrInvalidCredentials ;;;
      ret user
  end.

Definition update_password_body (phone hash : string)
  : M (txend store_error (User * list string * Z)) :=
  row <- select (select_active_phone phone) ;;
  user <- one row ErrUserNotFound ;;
  let nextVersion := next_version (u_SessionVersion user) in
  exec (set_session_version (u_ID user) nextVersion) ;;;
  exec (fun d => with_credentials (alter (fun _ => hash) (u_ID user) (user_credentials d)) d) ;;;
  sessionIDs <- select (select_active_ids (u_ID user) "") ;;
  t <- get_now ;;
  exec (revoke_rows t (u_ID user) "") ;;;
  ret (Commit db_failed (user, sessionIDs, nextVersion)).

Definition UpdatePassword (phone newPassword : string) : M User :=
  if is_empty phone || is_empty newPassword then throw ErrInvalidCredentials else
  hash <- GenerateFromPassword newPassword ;;
  ' (user, sessionIDs, nextVersion) <- run_tx db_failed (update_password_body phone hash) ;;
  for_each deleteSessionState sessionIDs ;;;
  syncUserVersion (u_ID user) nextVersion ;;;
  ret (with_PasswordHash hash (with_SessionVersion nextVersion user)).

Definition set_user_status_body (userID newStatus : Z) : M (txend store_error (list string * Z)) :=
  row <- select (fun d => ur_SessionVersion <$> users d !! userID) ;;
  version <- one row ErrUserNotFound ;;
  let nextVersion := version + 1 in
  exec (set_status userID newStatus nextVersion) ;;;
  (if newStatus =? statusActive then ret (Commit db_failed ([], nextVersion))
   else
     sessionIDs <- select (select_active_ids userID "") ;;
     t <- get_now ;;
     exec (revoke_rows t userID "") ;;;
     ret (Commit db_failed (sessionIDs, nextVersion))).

Definition SetUserStatus (userID newStatus : Z) : M User :=
  if negb (newStatus =? statusActive) && negb (newStatus =? userStatusDisabled)
  then throw ErrInvalidCredentials else
  ' (sessionIDs, nextVersion) <- run_tx db_failed (set_user_status_body userID newStatus) ;;
  for_each deleteSessionState sessionIDs ;;;
  syncUserVersion userID nextVersion ;;;
  getUserByIDAnyStatus userID.

(** ** Listing users

    [LIKE] with its wildcards, case-insensitive as the columns' collation. *)
Fixpoint like (pattern text : list ascii) {struct pattern} : bool :=
  match pattern with
  | [] => if text is [] then true else false
  | c :: pattern' =>
      if Ascii.eqb c "%"%char then
        (fix any (t : list ascii) : bool :=
           like pattern' t || (if t is _ :: t' then any t' else false)) text
      else if Ascii.eqb c "\"%char then
        match pattern', text with
        | e :: pattern'', x :: text' =>
            Ascii.eqb (lower_ascii e) (lower_ascii x) && like pattern'' text'
        | [], [x] => Ascii.eqb c x
        | _, _ => false
        end
      else
        match text with
        | [] => false
        | x :: text' =>
            (Ascii.eqb c "_"%char || Ascii.eqb (lower_ascii c) (lower_ascii x)) && like pattern' text'
        end
  end.

Definition LIKE (text pattern : string) : bool :=
  like (String.list_ascii_of_string pattern) (String.list_ascii_of_string text).

Definition listed_row (status : Z) (role keyword : string) (u : User) : bool :=
  ((status <=? 0) || (u_Status u =? status)) &&
  (is_empty role || str_eqb (u_Role u) role) &&
  (is_empty keyword ||
   LIKE (u_DisplayName u) ("%" +:+ keyword +:+ "%") || LIKE (u_Phone u) ("%" +:+ keyword +:+ "%") ||
   LIKE (itoa (u_ID u)) ("%" +:+ keyword +:+ "%")).

(** The rows of the join, newest user first, before display names are filled
    in. *)
Definition joined_users (d : AuthDB) : list User :=
  e ← map_to_list (users d); phone ← phones_of e.1 d;
  [mkUser e.1 phone (ur_DisplayName e.2) (password_hash_of e.1 d) (ur_SessionVersion e.2)
     (ur_Role e.2) (ur_Status e.2) (ur_CreateTime e.2)].

Definition matching_users (status : Z) (role keyword : string) (d : AuthDB) : list User :=
  merge_sort newer
    (filter (fun u => listed_row status (trim_space role) (trim_space keyword) u = true)
       (joined_users d)).

Definition with_default_name (u : User) : User :=
  if is_empty (u_DisplayName u)
  then mkUser (u_ID u) (u_Phone u) (defaultDisplayName (u_ID u)) (u_PasswordHash u)
         (u_SessionVersion u) (u_Role u) (u_Status u) (u_CreateTime u)
  else u.

(** [COUNT(DISTINCT u.id)]. *)
Definition count_users (status : Z) (role keyword : string) (d : AuthDB) : Z :=
  Z.of_nat (length (remove_dups (u_ID <$> matching_users status role keyword d))).

(** MySQL refuses a negative offset. *)
Definition ListUsers (page pageSize status : Z) (role keyword : string) : M (list User * Z) :=
  total <- select (count_users status role keyword) ;;
  let page := default_to page 1 in
  let offset := int64 (int64 (page - 1) * pageSize) in
  rows <- select (matching_users status role keyword) ;;
  if 0 <? pageSize then
    if offset <? 0 then throw db_failed
    else ret (with_default_name <$> take (Z.to_nat pageSize) (drop (Z.to_nat offset) rows), total)
  else ret (with_default_name <$> rows, total).

#[export] Instance sql_store : AuthStore AuthDB := {|
  AuthData.IssueCode := IssueCode;
  AuthData.ConsumeCode := ConsumeCode;
  AuthData.ResetCode := ResetCode;
  AuthData.CreateUser := CreateUser;
  AuthData.Authenticate := Authenticate;
  AuthData.GetUserByPhone := GetUserByPhone;
  AuthData.GetUserByID := GetUserByID;
  AuthData.GetUserByIDAnyStatus := GetUserByIDAnyStatus;
  AuthData.SetUserStatus := SetUserStatus;
  AuthData.GetActiveSession := GetActiveSession;
  AuthData.CreateSessionForDevice := CreateSessionForDevice;
  AuthData.RefreshSession := RefreshSession;
  AuthData.Logout := Logout;
  AuthData.LogoutAll := LogoutAll;
  AuthData.UpdatePassword := UpdatePassword
|}.
End store.
End SQLStore.

#[export] Existing Instance SQLStore.sql_store.
