(* ===== verification/AuthStoresAgree.v ===== *)
(** The two auth stores do the same: on related states, without failures, the
    in-memory store (store.go) and the MySQL store (sqlstore_session.go) answer
    every session call alike, leave related states, and publish the same session
    state in Redis. *)

From Stdlib Require Import Ascii.
From S2P Require Import Prelude Effects GoText AuthTokens AuthData AuthMemory AuthMemorySafety.
From S2P Require Import AuthSQL.
Close Scope char_scope.

Abbreviation keyspace := (gmap string (state_value * option Z)).

(** * Deleting keys *)

Definition drop_keys (ks : gset string) (r : keyspace) : keyspace := filter (fun e => e.1 ∉ ks) r.

Lemma drop_keys_lookup ks r k : drop_keys ks r !! k = if decide (k ∈ ks) then None else r !! k.
Proof.
  unfold drop_keys. destruct (decide (k ∈ ks)) as [Hin|Hin].
  - apply map_lookup_filter_None. right. intros x _ Hx. by apply Hx.
  - destruct (r !! k) as [x|] eqn:Hr.
    + by apply map_lookup_filter_Some.
    + apply map_lookup_filter_None. by left.
Qed.

Lemma drop_keys_empty r : drop_keys ∅ r = r.
Proof.
  apply map_eq. intros k. rewrite drop_keys_lookup.
  destruct (decide _) as [H|]; [by apply not_elem_of_empty in H|done].
Qed.

Lemma drop_keys_delete k ks r : drop_keys ks (delete k r) = drop_keys ({[k]} ∪ ks) r.
Proof.
  apply map_eq. intros k'. rewrite !drop_keys_lookup.
  destruct (decide (k' ∈ ks)), (decide (k' ∈ {[k]} ∪ ks)); try set_solver.
  - rewrite lookup_delete_None. left. set_solver.
  - rewrite lookup_delete_ne; [done|]. set_solver.
Qed.

(** * Runs without failures

    A computation that succeeds, as a function on the database and Redis. *)
Section acts.
Context {D : Type}.
Abbreviation M := (Effects.M D auth_world store_error).

Definition acts (m : M unit) (F : D * keyspace -> D * keyspace) : Prop :=
  forall d w t, has_state w = true ->
    m (mkEnv d w t []) =
    (mkEnv (F (d, redis w)).1 (with_redis (F (d, redis w)).2 w) t [], Ok tt).

Lemma with_redis_id w : with_redis (redis w) w = w.
Proof. by destruct w. Qed.

Lemma acts_ret : acts (ret tt) id.
Proof. intros d w t _. unfold id. simpl. by rewrite with_redis_id. Qed.

Lemma acts_bind m k F G : acts m F -> acts k G -> acts (m ;;; k) (fun p => G (F p)).
Proof.
  intros Hm Hk d w t Hw. unfold bind. rewrite Hm by done. rewrite Hk by done. simpl.
  by destruct (F (d, redis w)).
Qed.

Lemma acts_ext m F G : acts m F -> (forall p, F p = G p) -> acts m G.
Proof. intros Hm He d w t Hw. rewrite <- He. by apply Hm. Qed.

Lemma acts_for_each {A} (h : A -> M unit) (F : A -> D * keyspace -> D * keyspace) l :
  (forall a, acts (h a) (F a)) -> acts (for_each h l) (fun p => foldl (fun p a => F a p) p l).
Proof.
  intros Hh. induction l as [|a l IH]; simpl; [apply acts_ret|].
  by apply (acts_bind (h a) _ (F a) (fun p => foldl (fun p a => F a p) p l)).
Qed.

Lemma acts_delete sid :
  sid <> "" ->
  acts (if is_empty sid then ret tt else publish (DeleteSession sid))
    (fun p => (p.1, delete (sessionKey sid) p.2)).
Proof.
  intros Hs d w t Hw. assert (is_empty sid = false) as -> by by apply str_eqb_neq.
  unfold publish. simpl. by rewrite Hw.
Qed.

Lemma acts_version u v :
  acts (publish (SetUserVersion u v))
    (fun p => (p.1, <[userVersionKey u := (VersionText v, None)]> p.2)).
Proof. intros d w t Hw. unfold publish. simpl. by rewrite Hw. Qed.

Lemma run_save d w t x ttl :
  has_state w = true ->
  publish (D := D) (SaveSession x ttl) (mkEnv d w t []) =
  (mkEnv d (with_redis (save_session t x ttl (redis w)) w) t [], Ok tt).
Proof. intros Hw. unfold publish. simpl. by rewrite Hw. Qed.
End acts.

(** Deleting the published state of several sessions. *)
Definition session_keys (l : list string) : gset string := list_to_set (sessionKey <$> l).

Lemma acts_delete_all {D} l :
  Forall (fun sid => sid <> "") l ->
  acts (D := D) (for_each (fun sid => if is_empty sid then ret tt else publish (DeleteSession sid)) l)
    (fun p => (p.1, drop_keys (session_keys l) p.2)).
Proof.
  induction 1 as [|sid l Hs Hl IH]; simpl.
  - eapply acts_ext; [apply acts_ret|]. intros [d r]. simpl. by rewrite drop_keys_empty.
  - eapply acts_ext; [eapply acts_bind; [by apply acts_delete|exact IH]|].
    intros [d r]. simpl. f_equal. unfold session_keys. simpl. by rewrite drop_keys_delete.
Qed.

Section memory.
Context `{Bcrypt}.

Lemma acts_update f : acts (update_store f) (fun p => (f p.1, p.2)).
Proof. intros d w t Hw. simpl. by rewrite with_redis_id. Qed.

(** The session exists: it is revoked and its state deleted. *)
Lemma run_revokeSession sid x d w t :
  has_state w = true -> sid <> "" -> sessions d !! sid = Some x ->
  revokeSessionLocked sid (mkEnv d w t []) =
  (mkEnv (revoke_session sid x d) (with_redis (delete (sessionKey sid) (redis w)) w) t [], Ok tt).
Proof.
  intros Hw Hs Hx. unfold revokeSessionLocked, bind at 1, get_store. simpl. rewrite Hx.
  rewrite (acts_bind _ _ _ _ (acts_update (revoke_session sid x)) (acts_delete sid Hs)) by done.
  done.
Qed.

(** A loop that revokes the sessions picked by [p], all of which exist. *)
Definition revokes (p : Session -> bool) (u : Z) (h : string -> Effects.M Store auth_world store_error unit)
    (f : string -> Store -> Store) : Prop :=
  forall sid x d w t, has_state w = true -> sid <> "" -> sessions d !! sid = Some x ->
    h sid (mkEnv d w t []) =
    (mkEnv (f sid d)
       (if p x then with_redis (delete (sessionKey sid) (redis w)) w else w) t [], Ok tt).

Definition picked (p : Session -> bool) (d : Store) (sid : string) : bool :=
  if sessions d !! sid is Some x then p x else false.

Lemma run_revoke_loop p u h f l d w t :
  revokes p u h f -> ends p f -> (forall x, p (revoked x) = p x) -> has_state w = true ->
  Forall (fun sid => sid <> "" /\ is_Some (sessions d !! sid)) l ->
  for_each h l (mkEnv d w t []) =
  (mkEnv (foldl (fun d sid => f sid d) d l)
     (with_redis (drop_keys (session_keys (filter (fun sid => picked p d sid = true) l)) (redis w)) w)
     t [], Ok tt).
Proof.
  intros Hh Hf Hp. revert d w. induction l as [|sid l IH]; intros d w Hw Hl; simpl.
  - unfold session_keys. simpl. by rewrite drop_keys_empty, with_redis_id.
  - apply Forall_cons in Hl as [[Hs [x Hx]] Hl]. unfold bind. rewrite (Hh sid x) by done.
    assert (forall sid', picked p (f sid d) sid' = picked p d sid') as Hpick.
    { intros sid'. unfold picked. rewrite Hf. destruct (decide (sid' = sid)) as [->|Hne].
      - rewrite lookup_alter_eq, Hx. simpl. unfold end_if. destruct (p x) eqn:He; by rewrite ?Hp, He.
      - by rewrite lookup_alter_ne by congruence. }
    rewrite IH; [|by destruct (p x)|].
    + f_equal. f_equal.
      assert (filter (fun sid' => picked p (f sid d) sid' = true) l =
              filter (fun sid' => picked p d sid' = true) l) as ->.
      { apply list_filter_iff. intros y. by rewrite Hpick. }
      assert (picked p d sid = p x) as Hsid by (unfold picked; by rewrite Hx).
      rewrite filter_cons. destruct (p x) eqn:Hpx.
      * rewrite decide_True by done. unfold session_keys. simpl. by rewrite drop_keys_delete.
      * by rewrite decide_False by congruence.
    + eapply Forall_impl; [exact Hl|]. intros sid' [? [y Hy]]. split; [done|].
      rewrite Hf. destruct (decide (sid' = sid)) as [->|].
      * rewrite lookup_alter_eq, Hx. by eexists.
      * rewrite lookup_alter_ne by congruence. by eexists.
Qed.
End memory.

(** * Related states *)

Record related (st : Store) (d : AuthDB) : Prop := {
  rel_sessions sid : select_session sid d = sessions st !! sid;
  rel_users u :
    (fun x => (u_SessionVersion x, u_Status x)) <$> usersByID st !! u =
    (fun r => (ur_SessionVersion r, ur_Status r)) <$> users d !! u;
  rel_positive u x : usersByID st !! u = Some x -> 0 < u;
  rel_owner sid x : sessions st !! sid = Some x -> s_Revoked x = false ->
    exists u, usersByID st !! s_UserID x = Some u /\ u_Status u = statusActive
}.

Lemma rel_row st d sid x :
  related st d -> sessions st !! sid = Some x ->
  exists r, user_sessions d !! sid = Some r /\ x = querySession sid r.
Proof.
  intros Hr Hx. rewrite <- (rel_sessions _ _ Hr) in Hx. unfold select_session in Hx.
  destruct (user_sessions d !! sid) as [r|]; [|done]. injection Hx as <-. by exists r.
Qed.

Lemma rel_user st d u x :
  related st d -> usersByID st !! u = Some x ->
  exists r, users d !! u = Some r /\ ur_SessionVersion r = u_SessionVersion x /\
            ur_Status r = u_Status x.
Proof.
  intros Hr Hx. pose proof (rel_users _ _ Hr u) as H. rewrite Hx in H.
  destruct (users d !! u) as [r|]; [|done]. injection H as -> ->. by exists r.
Qed.

Lemma rel_no_user st d u : related st d -> usersByID st !! u = None -> users d !! u = None.
Proof.
  intros Hr Hx. pose proof (rel_users _ _ Hr u) as H. rewrite Hx in H. by destruct (users d !! u).
Qed.

(** The session a live token belongs to is the one MySQL selects. *)
Lemma rel_active st d sid x :
  related st d -> sessions st !! sid = Some x -> s_Revoked x = false ->
  select_session_active_user sid d = Some x.
Proof.
  intros Hr Hx Hl. unfold select_session_active_user. rewrite (rel_sessions _ _ Hr), Hx. simpl.
  destruct (rel_owner _ _ Hr _ _ Hx Hl) as (u&Hu&Hs).
  destruct (rel_user _ _ _ _ Hr Hu) as (r&Hur&_&Hst). unfold user_is_active.
  rewrite Hur, Hst, Hs. done.
Qed.

Lemma rel_active_None st d sid :
  related st d -> sessions st !! sid = None -> select_session_active_user sid d = None.
Proof.
  intros Hr Hx. unfold select_session_active_user. by rewrite (rel_sessions _ _ Hr), Hx.
Qed.

(** Revoked or unknown on one side: whatever MySQL selects is not usable. *)
Lemma rel_active_cases st d sid :
  related st d ->
  (exists x, sessions st !! sid = Some x /\ select_session_active_user sid d = Some x) \/
  (select_session_active_user sid d = None /\
   forall x, sessions st !! sid = Some x -> s_Revoked x = true).
Proof.
  intros Hr. destruct (sessions st !! sid) as [x|] eqn:Hx.
  - destruct (s_Revoked x) eqn:Hl.
    + destruct (select_session_active_user sid d) as [y|] eqn:Hy.
      * left. exists x. split; [done|]. unfold select_session_active_user in Hy.
        rewrite (rel_sessions _ _ Hr), Hx in Hy. simpl in Hy.
        by destruct (user_is_active (s_UserID x) d).
      * right. split; [done|]. by intros y [= <-].
    + left. exists x. split; [done|]. by apply (rel_active st).
  - right. split; [by apply (rel_active_None st)|done].
Qed.

(** ** The revocation loops *)

Definition of_device (dev : string) (x : Session) : bool :=
  is_empty dev || str_eqb (s_DeviceType x) dev.

Lemma elem_of_active_ids st d u dev sid :
  related st d ->
  sid ∈ select_active_ids u dev d <->
  exists x, sessions st !! sid = Some x /\ s_UserID x = u /\ s_Revoked x = false /\
            of_device dev x = true.
Proof.
  intros Hr. unfold select_active_ids. rewrite list_elem_of_fmap. split.
  - intros ([k r]&->&Hin). apply list_elem_of_filter in Hin as [Ha Hin].
    apply elem_of_map_to_list in Hin. simpl in *. exists (querySession k r).
    rewrite <- (rel_sessions _ _ Hr). unfold select_session. rewrite Hin.
    unfold active_of in Ha. unfold of_device. simpl. bools. by rewrite H0, Z.eqb_refl in *.
  - intros (x&Hx&Hu&Hl&Hd). destruct (rel_row _ _ _ _ Hr Hx) as (r&Hrow&->).
    exists (sid, r). split; [done|]. apply list_elem_of_filter.
    rewrite elem_of_map_to_list. split; [|done]. simpl in *. unfold active_of, of_device in *.
    apply negb_false_iff in Hl. simpl in *. rewrite Hl, Hu, Z.eqb_refl, Hd. done.
Qed.

(** What both sides do to a session when a user's sessions on a device end. *)
Definition end_of (u : Z) (dev : string) (x : Session) : Session :=
  if (s_UserID x =? u) && of_device dev x then revoked x else x.

Lemma revoked_id x : s_Revoked x = true -> revoked x = x.
Proof. intros H. destruct x. simpl in *. by subst. Qed.

Lemma sessions_loop n st u dev f sid :
  store_inv n st -> ends (of_device dev) f ->
  sessions (foldl (fun d sid => f sid d) st (elements (ids_of u st))) !! sid =
  end_of u dev <$> sessions st !! sid.
Proof.
  intros Hi Hf. rewrite (sessions_foldl (of_device dev)) by done.
  destruct (sessions st !! sid) as [x|] eqn:Hx; [|done]. simpl. f_equal. unfold end_of, end_if.
  destruct (decide (sid ∈ elements (ids_of u st))) as [Hin|Hin].
  - apply elem_of_elements, (si_ids _ _ Hi) in Hin as (y&Hy&Hu&Hl).
    replace y with x in * by congruence. rewrite Hu, Z.eqb_refl. done.
  - simpl. destruct ((s_UserID x =? u) && of_device dev x) eqn:He; [|done]. bools.
    destruct (s_Revoked x) eqn:Hl; [by rewrite revoked_id|].
    destruct Hin. apply elem_of_elements, (si_ids _ _ Hi). by exists x.
Qed.

Lemma querySession_revoke_rows t u dev sid d :
  select_session sid (revoke_rows t u dev d) = end_of u dev <$> select_session sid d.
Proof.
  unfold select_session, revoke_rows. simpl. rewrite lookup_fmap.
  destruct (user_sessions d !! sid) as [r|]; [|done]. simpl. f_equal.
  unfold active_of, end_of, of_device. simpl.
  destruct ((sr_UserID r =? u) && (is_empty dev || str_eqb (sr_DeviceType r) dev)); simpl; [|done].
  destruct (sr_Status r =? statusActive) eqn:Hs; [done|]. rewrite revoked_id; [done|].
  simpl. by rewrite Hs.
Qed.

Lemma related_end st st' d t u dev :
  related st d -> (forall sid, sessions st' !! sid = end_of u dev <$> sessions st !! sid) ->
  usersByID st' = usersByID st -> related st' (revoke_rows t u dev d).
Proof.
  intros Hr Hs Hu. constructor; rewrite ?Hu.
  - intros sid. rewrite querySession_revoke_rows, (rel_sessions _ _ Hr). done.
  - apply (rel_users _ _ Hr).
  - apply (rel_positive _ _ Hr).
  - intros sid x Hx Hl. rewrite Hs in Hx. destruct (sessions st !! sid) as [y|] eqn:Hy; [|done].
    simpl in Hx. injection Hx as <-. unfold end_of in *.
    destruct ((s_UserID y =? u) && of_device dev y); [done|]. eapply (rel_owner _ _ Hr); done.
Qed.

(** * The calls *)

Inductive session_call :=
| CallCreate (userID : Z) (deviceType : string) (ttl : Z)
| CallRefresh (refreshToken : string) (ttl : Z)
| CallLogout (refreshToken : string)
| CallLogoutAll (userID : Z)
| CallActive (sessionID : string).

Inductive session_answer :=
| Created (sessionID refreshToken : string)
| Refreshed (session : Session) (refreshToken : string)
| Active (session : Session)
| Done.

Definition answer_call `{AuthStore D} (c : session_call)
  : Effects.M D auth_world store_error session_answer :=
  match c with
  | CallCreate u dev ttl =>
      ' (sid, tok) <- AuthData.CreateSessionForDevice u dev ttl ;; ret (Created sid tok)
  | CallRefresh tok ttl =>
      ' (s, tok') <- AuthData.RefreshSession tok ttl ;; ret (Refreshed s tok')
  | CallLogout tok => AuthData.Logout tok ;;; ret Done
  | CallLogoutAll u => AuthData.LogoutAll u ;;; ret Done
  | CallActive sid => s <- AuthData.GetActiveSession sid ;; ret (Active s)
  end.

(** No other session has this refresh token hash. *)
Definition hash_free (st : Store) (sid hash : string) : Prop :=
  map_Forall (fun sid' x => sid' = sid \/ s_RefreshTokenHash x <> hash) (sessions st).

Lemma hash_free_ne st sid hash sid' x :
  hash_free st sid hash -> sessions st !! sid' = Some x -> sid' <> sid ->
  s_RefreshTokenHash x <> hash.
Proof. intros Hf Hx Hne. by destruct (Hf sid' x Hx). Qed.

(** Where the stores could differ: a session of a disabled user (MySQL refuses
    it, the memory store does not look), a token that spells its generation
    differently, and a collision of SHA-256, which the unique key of the table
    would refuse. *)
Definition call_ok (c : session_call) (st : Store) (w : auth_world) : Prop :=
  match c with
  | CallCreate u _ _ =>
      match usersByID st !! u with Some x => u_Status x = statusActive | None => 0 < u end /\
      match random w with
      | r :: q :: _ =>
          hash_free st (base64_url r) (hashToken (buildRefreshToken (base64_url r) 1 (hex q)))
      | _ => True
      end
  | CallRefresh tok _ =>
      match parseRefreshToken tok with
      | Some (sid, g, sig) =>
          tok = sid +:+ "." +:+ itoa g +:+ "." +:+ sig /\
          match sessions st !! sid with
          | Some x => hash_free st sid (hashToken
                        (buildRefreshToken sid (int64 (s_RefreshGeneration x + 1))
                           (s_RefreshFamilySecret x)))
          | None => True
          end
      | None => True
      end
  | _ => True
  end.

#[export] Instance call_ok_dec c st w : Decision (call_ok c st w).
Proof.
  unfold call_ok, hash_free. destruct c; try apply _.
  - destruct (usersByID st !! userID), (random w) as [|? [|? ?]]; apply _.
  - destruct (parseRefreshToken refreshToken) as [[[sid g] sig]|]; [|apply _].
    destruct (sessions st !! sid); apply _.
Defined.

Section agree.
Context `{Bcrypt}.

Definition agrees {A} (st : Store) (d : AuthDB) (w : auth_world) (t : Z)
    (m1 : Effects.M Store auth_world store_error A) (m2 : Effects.M AuthDB auth_world store_error A)
  : Prop :=
  exists st' d' w' r,
    m1 (mkEnv st w t []) = (mkEnv st' w' t [], r) /\
    m2 (mkEnv d w t []) = (mkEnv d' w' t [], r) /\
    related st' d' /\ has_state w' = true.

Lemma agrees_same {A} st d w t (m1 : Effects.M Store auth_world store_error A) m2 r :
  related st d -> has_state w = true ->
  m1 (mkEnv st w t []) = (mkEnv st w t [], r) -> m2 (mkEnv d w t []) = (mkEnv d w t [], r) ->
  agrees st d w t m1 m2.
Proof. intros. by exists st, d, w, r. Qed.

Lemma agrees_bind {A B} st d w t (m1 : Effects.M Store auth_world store_error A) m2 (f : A -> B) :
  agrees st d w t m1 m2 ->
  agrees st d w t (a <- m1 ;; ret (f a)) (a <- m2 ;; ret (f a)).
Proof.
  intros (st'&d'&w'&r&H1&H2&Hr&Hw). unfold agrees, bind. rewrite H1, H2.
  destruct r as [a|e]; by eexists st', d', w', _.
Qed.

Lemma agree_active sid st d w t :
  related st d -> has_state w = true ->
  agrees st d w t (AuthMemory.GetActiveSession sid) (SQLStore.GetActiveSession sid).
Proof.
  intros Hr Hw. unfold AuthMemory.GetActiveSession, SQLStore.GetActiveSession.
  destruct (is_empty sid); [by eapply agrees_same|].
  destruct (rel_active_cases st d sid Hr) as [(x&Hx&Hq)|[Hq Hx]].
  - eapply (agrees_same _ _ _ _ _ _ (if live_session t x then Ok x else Err ErrSessionNotFound));
      [done..| |].
    + unfold bind, get_now, get_store. simpl. rewrite Hx. by destruct (live_session t x).
    + unfold bind, SQLStore.select, sql, pop_fault, get_now. simpl. rewrite Hq. simpl.
      by destruct (live_session t x).
  - eapply (agrees_same _ _ _ _ _ _ (Err ErrSessionNotFound)); [done..| |].
    + unfold bind, get_now, get_store. simpl.
      destruct (sessions st !! sid) as [x|]; [|done]. unfold live_session. by rewrite (Hx _ eq_refl).
    + unfold bind, SQLStore.select, sql, pop_fault. simpl. by rewrite Hq.
Qed.

(** One session revoked on both sides. *)
Lemma related_revoke_one st d sid x t touch :
  related st d -> sessions st !! sid = Some x -> s_Revoked x = false ->
  related (revoke_session sid x st) (revoke_row_of t touch sid d).
Proof.
  intros Hr Hx Hl. destruct (rel_row _ _ _ _ Hr Hx) as (r&Hrow&->).
  simpl in Hl. apply negb_false_iff in Hl. constructor.
  - intros sid'. unfold select_session, revoke_row_of. simpl.
    destruct (decide (sid' = sid)) as [->|Hne].
    + rewrite lookup_alter_eq, Hrow, lookup_insert_eq. simpl. rewrite Hl.
      unfold querySession, revoked. by destruct touch.
    + rewrite lookup_alter_ne, lookup_insert_ne by congruence. apply (rel_sessions _ _ Hr).
  - apply (rel_users _ _ Hr).
  - apply (rel_positive _ _ Hr).
  - intros sid' y Hy Hly. simpl in Hy. apply lookup_insert_Some in Hy as [[<- <-]|[_ Hy]]; [done|].
    by eapply (rel_owner _ _ Hr).
Qed.

(** The shared checks of a presented token, on both sides. *)
Lemma check_token_run sid g sig x d w t :
  SQLStore.check_token sid g sig (Some x) (mkEnv d w t []) =
  (mkEnv d w t [],
   if negb (live_session t x) then Err ErrRefreshTokenInvalid
   else if negb (verifyRefreshTokenSignature sid g sig (s_RefreshFamilySecret x))
   then Err ErrRefreshTokenInvalid
   else if g <? s_RefreshGeneration x then Ok (x, false)
   else if s_RefreshGeneration x <? g then Err ErrRefreshTokenInvalid else Ok (x, true)).
Proof.
  unfold SQLStore.check_token, bind, SQLStore.one, get_now, ret. cbn [now].
  destruct (live_session t x); simpl; [|done].
  destruct (verifyRefreshTokenSignature _ _ _ _); simpl; [|done].
  destruct (_ <? _); [done|]. by destruct (_ <? _).
Qed.

Lemma use_token_run token sid g sig x st w t :
  parseRefreshToken token = Some (sid, g, sig) -> sessions st !! sid = Some x ->
  use_token token (mkEnv st w t []) =
  if negb (live_session t x) then (mkEnv st w t [], Err ErrRefreshTokenInvalid)
  else if negb (verifyRefreshTokenSignature sid g sig (s_RefreshFamilySecret x))
  then (mkEnv st w t [], Err ErrRefreshTokenInvalid)
  else if g <? s_RefreshGeneration x
  then ((revokeSessionLocked sid ;;; throw ErrRefreshTokenReplayed) (mkEnv st w t []))
  else if s_RefreshGeneration x <? g then (mkEnv st w t [], Err ErrRefreshTokenInvalid)
  else (mkEnv st w t [], Ok (sid, x)).
Proof.
  intros Hp Hx. unfold use_token. rewrite Hp. unfold bind at 1, get_now, bind at 1, get_store.
  cbn [db now]. rewrite Hx. unfold bind at 1. destruct (live_session t x); simpl; [|done].
  unfold bind at 1. destruct (verifyRefreshTokenSignature _ _ _ _); simpl; [|done].
  destruct (_ <? _); [done|]. by destruct (_ <? _).
Qed.

(** A transaction that runs without failures. *)
Lemma run_tx_ok {A} (eb : store_error) (body : Effects.M AuthDB auth_world store_error (txend store_error A))
    d w t d' e a :
  body (mkEnv d w t []) = (mkEnv d' w t [], Ok (Commit e a)) ->
  run_tx eb body (mkEnv d w t []) = (mkEnv d' w t [], Ok a).
Proof. intros Hb. unfold run_tx, pop_fault. simpl. by rewrite Hb. Qed.

Lemma run_tx_err {A} (eb e : store_error)
    (body : Effects.M AuthDB auth_world store_error (txend store_error A)) d w t :
  body (mkEnv d w t []) = (mkEnv d w t [], Err e) ->
  run_tx eb body (mkEnv d w t []) = (mkEnv d w t [], Err e).
Proof. intros Hb. unfold run_tx, pop_fault. simpl. by rewrite Hb. Qed.

Lemma select_run {A} (f : AuthDB -> A) d w t :
  SQLStore.select f (mkEnv d w t []) = (mkEnv d w t [], Ok (f d)).
Proof. done. Qed.

Lemma exec_run f d w t :
  SQLStore.exec f (mkEnv d w t []) = (mkEnv (f d) w t [], Ok tt).
Proof. done. Qed.

Lemma run_deleteSessionState d w t sid :
  has_state w = true -> sid <> "" ->
  SQLStore.deleteSessionState sid (mkEnv d w t []) =
  (mkEnv d (with_redis (delete (sessionKey sid) (redis w)) w) t [], Ok tt).
Proof. intros Hw Hs. unfold SQLStore.deleteSessionState. by rewrite (acts_delete sid Hs). Qed.

Lemma live_not_revoked t x : live_session t x = true -> s_Revoked x = false.
Proof. intros Hl. apply andb_true_iff in Hl as [Hl _]. by apply negb_true_iff in Hl. Qed.

Lemma agree_logout n token st d w t :
  related st d -> has_state w = true -> store_inv n st ->
  agrees st d w t (AuthMemory.Logout token) (SQLStore.Logout token).
Proof.
  intros Hr Hw Hi. unfold AuthMemory.Logout, SQLStore.Logout.
  destruct (parseRefreshToken token) as [[[sid g] sig]|] eqn:Hp.
  2: { eapply agrees_same; [done..| |done]. unfold bind, use_token. by rewrite Hp. }
  destruct (sessions st !! sid) as [x|] eqn:Hx.
  2: { eapply agrees_same; [done..| |].
    - unfold bind at 1, use_token. rewrite Hp. unfold bind, get_now, get_store. simpl. by rewrite Hx.
    - unfold bind at 1. rewrite (run_tx_err _ ErrRefreshTokenInvalid); [done|].
      unfold SQLStore.logout_body, bind at 1. rewrite select_run, (rel_sessions _ _ Hr), Hx. done. }
  assert (sid <> "") as Hs by apply (so_name _ _ _ _ (si_sessions _ _ Hi _ _ Hx)).
  assert (s_ID x = sid) as Hid by apply (so_id _ _ _ _ (si_sessions _ _ Hi _ _ Hx)).
  assert (forall current, live_session t x = true ->
    SQLStore.check_token sid g sig (Some x) (mkEnv d w t []) = (mkEnv d w t [], Ok (x, current)) ->
    run_tx SQLStore.db_failed (SQLStore.logout_body sid g sig) (mkEnv d w t []) =
    (mkEnv (revoke_row_of t false sid d) w t [],
     Ok (if (current : bool) then SQLStore.Accepted x else SQLStore.Replayed sid))) as Htx.
  { intros current Hl Hc. apply (run_tx_ok _ _ _ _ _ _ SQLStore.db_failed).
    unfold SQLStore.logout_body, bind at 1. rewrite select_run, (rel_sessions _ _ Hr), Hx.
    unfold bind at 1. rewrite Hc. unfold bind, get_now. cbn [now]. rewrite exec_run, Hid. done. }
  pose proof (check_token_run sid g sig x d w t) as Hc.
  pose proof (use_token_run token sid g sig x st w t Hp Hx) as Hu.
  assert (forall e, SQLStore.check_token sid g sig (Some x) (mkEnv d w t []) =
                    (mkEnv d w t [], Err e) ->
    run_tx SQLStore.db_failed (SQLStore.logout_body sid g sig) (mkEnv d w t []) =
    (mkEnv d w t [], Err e)) as Herr.
  { intros e He. apply run_tx_err. unfold SQLStore.logout_body, bind at 1.
    rewrite select_run, (rel_sessions _ _ Hr), Hx. unfold bind at 1. by rewrite He. }
  destruct (live_session t x) eqn:Hl; cbn [negb] in Hc, Hu.
  2: { eapply agrees_same; [done..| |]; unfold bind at 1; [by rewrite Hu|by rewrite (Herr _ Hc)]. }
  pose proof (related_revoke_one st d sid x t false Hr Hx (live_not_revoked _ _ Hl)) as Hrel.
  destruct (verifyRefreshTokenSignature sid g sig (s_RefreshFamilySecret x)); cbn [negb] in Hc, Hu.
  2: { eapply agrees_same; [done..| |]; unfold bind at 1; [by rewrite Hu|by rewrite (Herr _ Hc)]. }
  destruct (g <? s_RefreshGeneration x).
  - exists (revoke_session sid x st), (revoke_row_of t false sid d),
      (with_redis (delete (sessionKey sid) (redis w)) w), (Err ErrRefreshTokenReplayed).
    split_and!; [| |done|done].
    + unfold bind at 1. rewrite Hu. unfold bind. by rewrite (run_revokeSession sid x).
    + unfold bind at 1. rewrite (Htx false) by done. unfold bind.
      by rewrite run_deleteSessionState.
  - destruct (s_RefreshGeneration x <? g).
    + eapply agrees_same; [done..| |]; unfold bind at 1; [by rewrite Hu|by rewrite (Herr _ Hc)].
    + exists (revoke_session sid x st), (revoke_row_of t false sid d),
        (with_redis (delete (sessionKey sid) (redis w)) w), (Ok tt).
      split_and!; [| |done|done].
      * unfold bind at 1. rewrite Hu. by rewrite (run_revokeSession sid x).
      * unfold bind at 1. rewrite (Htx true) by done. rewrite Hid. by rewrite run_deleteSessionState.
Qed.

Lemma hash_not_taken h d :
  (forall sid r, user_sessions d !! sid = Some r -> sr_RefreshTokenHash r <> h) ->
  hash_taken h d = false.
Proof.
  intros Hf. unfold hash_taken. apply not_true_iff_false. intros He.
  apply existsb_exists in He as ([sid r]&Hin&Heq). apply str_eqb_eq in Heq.
  apply list_elem_of_In, elem_of_map_to_list in Hin. by apply (Hf sid r).
Qed.

Lemma hash_free_rows st d sid h :
  related st d -> hash_free st sid h ->
  hash_taken h (with_session_rows (delete sid (user_sessions d)) d) = false.
Proof.
  intros Hr Hf. apply hash_not_taken. intros sid' r Hrow. simpl in Hrow.
  apply lookup_delete_Some in Hrow as [Hne Hrow].
  apply (hash_free_ne st sid h sid' (querySession sid' r) Hf); [|congruence].
  rewrite <- (rel_sessions _ _ Hr). unfold select_session. by rewrite Hrow.
Qed.

(** The conditional update of a refresh finds its row. *)
Definition refreshed_row (x' : Session) (t : Z) (r : SessionRow) : SessionRow :=
  mkSessionRow (sr_UserID r) (sr_DeviceType r) (sr_SessionVersion r) (s_RefreshTokenHash x')
    (s_PreviousRefreshTokenHash x') (sr_RefreshFamilySecret r) (s_RefreshGeneration x')
    (sr_Status r) (s_ExpiresAt x') t (sr_RevokedAt r).

Lemma refresh_row_hit st d sid r x' g token t :
  related st d -> user_sessions d !! sid = Some r -> s_ID x' = sid ->
  sr_RefreshGeneration r = g -> sr_RefreshTokenHash r = hashToken token ->
  sr_Status r = statusActive -> hash_free st sid (s_RefreshTokenHash x') ->
  SQLStore.refresh_row x' g (hashToken token) t d =
  (with_session_rows (<[sid := refreshed_row x' t r]> (user_sessions d)) d, Some 1).
Proof.
  intros Hr Hrow Hid Hg Hh Hs Hf. unfold SQLStore.refresh_row. rewrite Hid, Hrow, Hg, Hh, Hs.
  rewrite Z.eqb_refl, str_eqb_refl. simpl. rewrite (hash_free_rows st) by done.
  unfold refreshed_row. by rewrite Hs.
Qed.

Lemma related_refresh st d sid r e t :
  related st d -> user_sessions d !! sid = Some r -> sr_Status r = statusActive ->
  let x := querySession sid r in
  sessions st !! sid = Some x ->
  related (rotate_session sid x (rotate sid e x) st)
    (with_session_rows (<[sid := refreshed_row (rotate sid e x) t r]> (user_sessions d)) d).
Proof.
  intros Hr Hrow Hs x Hx. constructor.
  - intros sid'. unfold select_session. simpl. destruct (decide (sid' = sid)) as [->|Hne].
    + rewrite !lookup_insert_eq. simpl. unfold querySession, refreshed_row, rotate. simpl. done.
    + rewrite !lookup_insert_ne by congruence. apply (rel_sessions _ _ Hr).
  - apply (rel_users _ _ Hr).
  - apply (rel_positive _ _ Hr).
  - intros sid' y Hy Hly. simpl in Hy. apply lookup_insert_Some in Hy as [[<- <-]|[_ Hy]].
    + apply (rel_owner _ _ Hr sid x Hx Hly).
    + by eapply (rel_owner _ _ Hr).
Qed.

Lemma run_syncSession_memory st w t x :
  has_state w = true ->
  syncSessionStateLocked x (mkEnv st w t []) =
  (mkEnv st (if s_ExpiresAt x - t <=? 0 then w
             else with_redis (save_session t (snapshot_of x) (s_ExpiresAt x - t) (redis w)) w) t [], Ok tt).
Proof.
  intros Hw. unfold syncSessionStateLocked, bind, get_now. cbn [now].
  destruct (_ <=? 0); [done|]. by rewrite run_save.
Qed.

Lemma run_syncSession_sql d w t x :
  has_state w = true ->
  SQLStore.syncSessionState x (mkEnv d w t []) =
  (mkEnv d (if s_ExpiresAt x - t <=? 0 then w
            else with_redis (save_session t (snapshot_of x) (s_ExpiresAt x - t) (redis w)) w) t [], Ok tt).
Proof.
  intros Hw. unfold SQLStore.syncSessionState, bind, get_now. cbn [now].
  destruct (_ <=? 0); [done|]. by rewrite run_save.
Qed.

Lemma agree_refresh n token ttl st d w t :
  related st d -> has_state w = true -> store_inv n st -> call_ok (CallRefresh token ttl) st w ->
  agrees st d w t (AuthMemory.RefreshSession token ttl) (SQLStore.RefreshSession token ttl).
Proof.
  intros Hr Hw Hi Hok. unfold AuthMemory.RefreshSession, SQLStore.RefreshSession, SQLStore.refresh_tx.
  simpl in Hok. destruct (parseRefreshToken token) as [[[sid g] sig]|] eqn:Hp.
  2: { eapply agrees_same; [done..| |done]. unfold bind at 1, use_token. by rewrite Hp. }
  destruct Hok as [Hcan Hfree].
  set (body := SQLStore.refresh_body token sid g sig (default_to ttl week)).
  destruct (rel_active_cases st d sid Hr) as [(x&Hx&Hq)|[Hq Hx]].
  2: { eapply (agrees_same _ _ _ _ _ _ (Err ErrRefreshTokenInvalid)); [done..| |].
    - unfold bind at 1, use_token. rewrite Hp. unfold bind, get_now, get_store. simpl.
      destruct (sessions st !! sid) as [x|]; [|done]. unfold live_session. by rewrite (Hx _ eq_refl).
    - unfold bind at 1. rewrite (run_tx_err _ ErrRefreshTokenInvalid); [done|].
      unfold body, SQLStore.refresh_body, bind at 1. by rewrite select_run, Hq. }
  rewrite Hx in Hfree.
  pose proof (si_sessions _ _ Hi _ _ Hx) as Hsok.
  assert (sid <> "") as Hs by apply (so_name _ _ _ _ Hsok).
  assert (s_ID x = sid) as Hid by apply (so_id _ _ _ _ Hsok).
  pose proof (check_token_run sid g sig x d w t) as Hc.
  pose proof (use_token_run token sid g sig x st w t Hp Hx) as Hu.
  assert (forall e, SQLStore.check_token sid g sig (Some x) (mkEnv d w t []) =
                    (mkEnv d w t [], Err e) ->
    run_tx SQLStore.db_failed body (mkEnv d w t []) = (mkEnv d w t [], Err e)) as Herr.
  { intros e He. apply run_tx_err. unfold body, SQLStore.refresh_body, bind at 1.
    rewrite select_run, Hq. unfold bind at 1. by rewrite He. }
  destruct (live_session t x) eqn:Hl; cbn [negb] in Hc, Hu.
  2: { eapply agrees_same; [done..| |]; unfold bind at 1; [by rewrite Hu|by rewrite (Herr _ Hc)]. }
  destruct (verifyRefreshTokenSignature sid g sig (s_RefreshFamilySecret x)) eqn:Hv;
    cbn [negb] in Hc, Hu.
  2: { eapply agrees_same; [done..| |]; unfold bind at 1; [by rewrite Hu|by rewrite (Herr _ Hc)]. }
  destruct (g <? s_RefreshGeneration x) eqn:Hg1.
  { exists (revoke_session sid x st), (revoke_row_of t true sid d),
      (with_redis (delete (sessionKey sid) (redis w)) w), (Err ErrRefreshTokenReplayed).
    split_and!; [| |by apply related_revoke_one; [..|eapply live_not_revoked]|done].
    - unfold bind at 1. rewrite Hu. unfold bind at 1. by rewrite (run_revokeSession sid x).
    - unfold bind at 1. rewrite (run_tx_ok _ _ _ _ _ (revoke_row_of t true sid d)
        SQLStore.db_failed (SQLStore.Replayed sid)).
      + unfold bind. by rewrite run_deleteSessionState.
      + unfold body, SQLStore.refresh_body, bind at 1. rewrite select_run, Hq. unfold bind at 1.
        rewrite Hc. unfold bind, get_now. cbn [now negb]. by rewrite exec_run, Hid. }
  destruct (s_RefreshGeneration x <? g) eqn:Hg2.
  { eapply agrees_same; [done..| |]; unfold bind at 1; [by rewrite Hu|by rewrite (Herr _ Hc)]. }
  (* the token is current *)
  bools. assert (g = s_RefreshGeneration x) as -> by lia.
  destruct (rel_row _ _ _ _ Hr Hx) as (r&Hrow&Hxr).
  assert (sr_Status r = statusActive) as Hst.
  { pose proof (live_not_revoked _ _ Hl) as Hn. rewrite Hxr in Hn. simpl in Hn.
    apply negb_false_iff in Hn. by bools. }
  set (x' := rotate sid (t + seconds (default_to ttl week)) x).
  set (st' := rotate_session sid x x' st).
  set (d' := with_session_rows (<[sid := refreshed_row x' t r]> (user_sessions d)) d).
  set (w' := if s_ExpiresAt x' - t <=? 0 then w
             else with_redis (save_session t (snapshot_of x') (s_ExpiresAt x' - t) (redis w)) w).
  exists st', d', w', (Ok (x', buildRefreshToken sid (s_RefreshGeneration x') (s_RefreshFamilySecret x))).
  split_and!.
  - unfold bind at 1. rewrite Hu. unfold bind at 1, get_now, bind at 1, update_store. cbn [now].
    unfold bind. fold x' st'. change (set_db _ _) with (mkEnv st' w t []).
    rewrite run_syncSession_memory by done. done.
  - unfold bind at 1. rewrite (run_tx_ok _ _ _ _ _ d' SQLStore.db_failed (SQLStore.Accepted x')).
    + unfold bind. rewrite run_syncSession_sql by done. fold w'. unfold ret. by simpl; rewrite Hid.
    + unfold body, SQLStore.refresh_body, bind at 1. rewrite select_run, Hq. unfold bind at 1.
      rewrite Hc. unfold bind at 1, get_now. cbn [now negb]. rewrite Hid. fold x'.
      unfold bind at 1, sql, pop_fault. cbn [faults db].
      rewrite (refresh_row_hit st d sid r x' (s_RefreshGeneration x) token t); try done.
      * by rewrite Hxr.
      * transitivity (s_RefreshTokenHash x); [by rewrite Hxr|]. rewrite (so_hash _ _ _ _ Hsok).
        f_equal. rewrite Hcan. apply str_eqb_eq in Hv. by rewrite Hv.
  - unfold st', d', x'. rewrite Hxr. apply related_refresh; [done..|]. by rewrite <- Hxr.
  - unfold w'. by destruct (_ <=? 0).
Qed.

(** ** Loops over a user's sessions *)

Lemma session_keys_eq l1 l2 :
  (forall sid, sid ∈ l1 <-> sid ∈ l2) -> session_keys l1 = session_keys l2.
Proof.
  intros Hl. unfold session_keys. apply set_eq. intros k.
  rewrite !elem_of_list_to_set, !list_elem_of_fmap. by setoid_rewrite Hl.
Qed.

Lemma picked_ids n st d u dev :
  store_inv n st -> related st d ->
  session_keys (filter (fun sid => picked (of_device dev) st sid = true) (elements (ids_of u st))) =
  session_keys (select_active_ids u dev d).
Proof.
  intros Hi Hr. apply session_keys_eq. intros sid.
  rewrite (elem_of_active_ids st d) by done.
  rewrite list_elem_of_filter, elem_of_elements, (si_ids _ _ Hi). unfold picked, live_at. split.
  - intros [Hp (x&Hx&Hu&Hl)]. rewrite Hx in Hp. by exists x.
  - intros (x&Hx&Hu&Hl&Hd). rewrite Hx. split; [done|]. by exists x.
Qed.

Lemma ends_ext p q f : (forall x, p x = q x) -> ends p f -> ends q f.
Proof.
  intros He Hf sid d. rewrite Hf. apply alter_ext. intros x _. unfold end_if. by rewrite He.
Qed.

Lemma users_foldl (f : string -> Store -> Store) l d :
  (forall sid d, usersByID (f sid d) = usersByID d) ->
  usersByID (foldl (fun d sid => f sid d) d l) = usersByID d.
Proof. intros Hf. revert d. induction l as [|a l IH]; intros d; simpl; [done|]. by rewrite IH. Qed.

Lemma users_revoke_if p u sid d : usersByID (revoke_if p u sid d) = usersByID d.
Proof. unfold revoke_if. destruct (sessions d !! sid); [|done]. by destruct (p _). Qed.

Lemma listed_exist n st u :
  store_inv n st -> Forall (fun sid => sid <> "" /\ is_Some (sessions st !! sid)) (elements (ids_of u st)).
Proof.
  intros Hi. apply Forall_forall. intros sid Hin.
  apply elem_of_elements, (si_ids _ _ Hi) in Hin as (x&Hx&_).
  split; [apply (so_name _ _ _ _ (si_sessions _ _ Hi _ _ Hx))|by eexists].
Qed.

Lemma active_ids_named n st d u dev :
  store_inv n st -> related st d -> Forall (fun sid => sid <> "") (select_active_ids u dev d).
Proof.
  intros Hi Hr. apply Forall_forall. intros sid Hin.
  apply (elem_of_active_ids st d) in Hin as (x&Hx&_); [|done].
  apply (so_name _ _ _ _ (si_sessions _ _ Hi _ _ Hx)).
Qed.

Lemma revokes_user u :
  revokes (of_device "") u (fun sid => revokeSessionLocked sid ;;; update_store (drop_id u sid))
    (revoke_if (of_device "") u).
Proof.
  intros sid x d w t Hw Hs Hx. unfold bind. rewrite (run_revokeSession sid x) by done.
  unfold revoke_if. by rewrite Hx.
Qed.

Lemma revokes_device u dev :
  dev <> "" ->
  revokes (of_device dev) u (fun sessionID =>
    st' <- get_store ;;
    match sessions st' !! sessionID with
    | None => update_store (drop_id u sessionID)
    | Some session =>
        if str_eqb (s_DeviceType session) dev then
          revokeSessionLocked sessionID ;;; update_store (drop_id u sessionID)
        else ret tt
    end) (revoke_if (of_device dev) u).
Proof.
  intros Hdev sid x d w t Hw Hs Hx. unfold bind at 1, get_store. cbn [db]. rewrite Hx.
  unfold revoke_if, of_device. rewrite Hx.
  assert (is_empty dev = false) as -> by by apply str_eqb_neq. cbn [orb].
  destruct (str_eqb _ _); [|done]. unfold bind. by rewrite (run_revokeSession sid x).
Qed.

(** Ending a user's sessions on a device, on both sides. *)
Lemma run_end_memory n st d w t u dev h :
  store_inv n st -> related st d -> has_state w = true ->
  revokes (of_device dev) u h (revoke_if (of_device dev) u) ->
  exists st', for_each h (elements (ids_of u st)) (mkEnv st w t []) =
    (mkEnv st' (with_redis (drop_keys (session_keys (select_active_ids u dev d)) (redis w)) w) t [],
     Ok tt) /\
    (forall t', related st' (revoke_rows t' u dev d)).
Proof.
  intros Hi Hr Hw Hh. eexists. split.
  - rewrite (run_revoke_loop (of_device dev) u h (revoke_if (of_device dev) u));
      [|done|apply ends_revoke_if|done|done|by eapply listed_exist].
    by rewrite (picked_ids n st d).
  - intros t'. apply (related_end st); [done| |].
    + intros sid. apply (sessions_loop n); [done|apply ends_revoke_if].
    + apply (users_foldl (revoke_if (of_device dev) u)). apply users_revoke_if.
Qed.

Lemma related_bump st d u x r :
  related st d -> usersByID st !! u = Some x -> u_ID x = u -> users d !! u = Some r ->
  related (bump u st) (set_session_version u (SQLStore.next_version (ur_SessionVersion r)) d).
Proof.
  intros Hr Hx Hid Hrow.
  assert (bump u st = set_user (bumped x) st) as -> by (unfold bump; by rewrite Hx).
  constructor; simpl.
  - apply (rel_sessions _ _ Hr).
  - intros v. rewrite Hid. destruct (decide (v = u)) as [->|Hne].
    + rewrite lookup_insert_eq, lookup_alter_eq, Hrow. simpl.
      destruct (rel_user _ _ _ _ Hr Hx) as (r'&Hr'&Hv&Hs). assert (r' = r) as -> by congruence.
      unfold SQLStore.next_version. by rewrite Hv, Hs.
    + rewrite lookup_insert_ne, lookup_alter_ne by congruence. apply (rel_users _ _ Hr).
  - intros v y Hy. apply lookup_insert_Some in Hy as [[<- <-]|[_ Hy]].
    + rewrite Hid. by eapply (rel_positive _ _ Hr).
    + by eapply (rel_positive _ _ Hr).
  - intros sid y Hy Hl. destruct (rel_owner _ _ Hr _ _ Hy Hl) as (v&Hv&Hs). rewrite Hid.
    destruct (decide (s_UserID y = u)) as [He|Hne].
    + rewrite He, lookup_insert_eq. eexists. split; [done|]. simpl. congruence.
    + rewrite lookup_insert_ne by congruence. by exists v.
Qed.

Lemma run_delete_all d w t l :
  has_state w = true -> Forall (fun sid => sid <> "") l ->
  for_each SQLStore.deleteSessionState l (mkEnv d w t []) =
  (mkEnv d (with_redis (drop_keys (session_keys l) (redis w)) w) t [], Ok tt).
Proof. intros Hw Hl. by apply (acts_delete_all (D := AuthDB) l Hl). Qed.

Lemma drop_keys_insert_version l u v (r : keyspace) :
  drop_keys (session_keys l) (<[userVersionKey u := v]> r) =
  <[userVersionKey u := v]> (drop_keys (session_keys l) r).
Proof.
  apply map_eq. intros k. rewrite drop_keys_lookup. destruct (decide (k ∈ session_keys l)) as [Hin|Hin].
  - rewrite lookup_insert_ne.
    + rewrite drop_keys_lookup. by rewrite decide_True.
    + intros <-. unfold session_keys in Hin. apply elem_of_list_to_set, list_elem_of_fmap in Hin
        as (sid&He&_). discriminate He.
  - destruct (decide (k = userVersionKey u)) as [->|Hne].
    + by rewrite !lookup_insert_eq.
    + rewrite !lookup_insert_ne, drop_keys_lookup by congruence. by rewrite decide_False.
Qed.

Lemma no_user_no_sessions n st u :
  store_inv n st -> usersByID st !! u = None -> elements (ids_of u st) = [].
Proof.
  intros Hi Hu. apply elements_empty_iff. intros sid. rewrite (si_ids _ _ Hi).
  split; [|set_solver]. intros (x&Hx&He&_). destruct (so_owner _ _ _ _ (si_sessions _ _ Hi _ _ Hx)) as [y Hy]. congruence.
Qed.

Lemma agree_logout_all n u st d w t :
  related st d -> has_state w = true -> store_inv n st ->
  agrees st d w t (AuthMemory.LogoutAll u) (SQLStore.LogoutAll u).
Proof.
  intros Hr Hw Hi. unfold AuthMemory.LogoutAll, SQLStore.LogoutAll.
  destruct (usersByID st !! u) as [x|] eqn:Hx.
  2: { assert (bump u st = st) as Hb by (unfold bump; by rewrite Hx).
    eapply agrees_same; [done..| |].
    - unfold bind at 1, bumpUserSessionVersionLocked, update_store. cbn [db set_db ext now faults].
      fold (bump u st). change (set_db (bump u st) (mkEnv st w t [])) with (mkEnv (bump u st) w t []).
      rewrite Hb. unfold bind at 1, syncUserVersionLocked, bind at 1, get_store. cbn [db]. rewrite Hx.
      simpl. unfold revokeUserSessionsLocked, bind, get_store. cbn [db].
      by rewrite (no_user_no_sessions n) by done.
    - destruct (u <=? 0); [done|]. unfold ignore, bind at 1.
      rewrite (run_tx_err _ SQLStore.db_failed); [done|].
      unfold SQLStore.logout_all_body, bind at 1. rewrite select_run. unfold bind at 1.
      rewrite select_run, (rel_no_user st) by done. done. }
  destruct (si_users _ _ Hi _ _ Hx) as (Hid&_).
  destruct (rel_user _ _ _ _ Hr Hx) as (r&Hrow&Hv&_).
  pose proof (rel_positive _ _ Hr _ _ Hx) as Hpos.
  set (v := SQLStore.next_version (ur_SessionVersion r)).
  assert (0 < v) as Hvpos.
  { unfold v, SQLStore.next_version. destruct (_ <=? 0) eqn:Hle; bools; lia. }
  pose proof (related_bump st d u x r Hr Hx Hid Hrow) as Hr1.
  pose proof (evolves_bump n st u Hi) as Hi1.
  set (w1 := with_redis (<[userVersionKey u := (VersionText v, None)]> (redis w)) w).
  destruct (run_end_memory n (bump u st) _ w1 t u "" _ Hi1 Hr1 Hw (revokes_user u)) as (st'&Hrun&Hrel).
  assert (select_active_ids u "" (set_session_version u v d) = select_active_ids u "" d) as Hids by done.
  exists st', (revoke_rows t u "" (set_session_version u v d)),
    (with_redis (drop_keys (session_keys (select_active_ids u "" d)) (redis w1)) w1), (Ok tt).
  split_and!; [| |apply Hrel|done].
  - unfold bind at 1, bumpUserSessionVersionLocked, update_store. cbn [db set_db ext now faults].
    fold (bump u st). change (set_db (bump u st) (mkEnv st w t [])) with (mkEnv (bump u st) w t []).
    unfold bind at 1. unfold syncUserVersionLocked, bind at 1, get_store. cbn [db].
    assert (usersByID (bump u st) !! u = Some (bumped x)) as ->.
    { unfold bump. rewrite Hx. simpl. rewrite Hid. apply lookup_insert_eq. }
    assert (u_SessionVersion (bumped x) = v) as ->.
    { unfold v, SQLStore.next_version. by rewrite Hv. }
    rewrite (acts_version u v) by done. cbn [fst snd]. fold w1.
    unfold revokeUserSessionsLocked, bind at 1, get_store. cbn [db].
    by rewrite Hrun.
  - rewrite (proj2 (Z.leb_gt u 0)) by lia. unfold ignore, bind at 1.
    rewrite (run_tx_ok _ _ _ _ _ (revoke_rows t u "" (set_session_version u v d))
      SQLStore.db_failed (select_active_ids u "" d, v)).
    + unfold bind. rewrite run_delete_all by (done || by apply (active_ids_named n st)).
      unfold SQLStore.syncUserVersion.
      rewrite (proj2 (Z.leb_gt u 0)), (proj2 (Z.leb_gt v 0)) by lia. cbn [orb].
      rewrite (acts_version u v) by done. cbn [fst snd]. do 2 f_equal.
      unfold w1. simpl. rewrite drop_keys_insert_version. done.
    + unfold SQLStore.logout_all_body, bind at 1. rewrite select_run. unfold bind at 1.
      rewrite select_run, Hrow. done.
Qed.

(** ** Creating a session *)

Lemma rel_active_user st d u x :
  related st d -> usersByID st !! u = Some x -> u_Status x = statusActive ->
  exists y, select_active_user u d = Some y /\ u_SessionVersion y = u_SessionVersion x.
Proof.
  intros Hr Hx Hs. destruct (rel_user _ _ _ _ Hr Hx) as (r&Hrow&Hv&Hst).
  assert (exists p, head (phones_of u d) = Some p) as [p Hp].
  { unfold phones_of. destruct ((filter _ _).*1) as [|p ps]; by eexists. }
  exists (queryUser (user_row u p r d)). split; [|done].
  unfold select_active_user, select_user. rewrite Hrow. simpl. rewrite Hp. simpl.
  by rewrite Hst, Hs.
Qed.

Lemma related_add st d sid secret u dev v e t x :
  related st d -> usersByID st !! u = Some x -> u_Status x = statusActive ->
  related (add_session (new_session sid secret u dev v e) st)
    (with_session_rows (<[sid := SQLStore.new_row sid secret u dev v e t]> (user_sessions d)) d).
Proof.
  intros Hr Hx Hs. constructor.
  - intros sid'. unfold select_session. simpl. destruct (decide (sid' = sid)) as [->|Hne].
    + by rewrite !lookup_insert_eq.
    + rewrite !lookup_insert_ne by congruence. apply (rel_sessions _ _ Hr).
  - apply (rel_users _ _ Hr).
  - apply (rel_positive _ _ Hr).
  - intros sid' y Hy Hl. simpl in Hy. apply lookup_insert_Some in Hy as [[<- <-]|[_ Hy]].
    + by exists x.
    + by eapply (rel_owner _ _ Hr).
Qed.

(** The rows MySQL revokes for a new session, none when there are none. *)
Lemma related_replaced st st' d t u dev :
  related st d -> (forall t', related st' (revoke_rows t' u dev d)) ->
  related st' (match select_active_ids u dev d with [] => d | _ => revoke_rows t u dev d end).
Proof.
  intros Hr Hr'. destruct (select_active_ids u dev d) as [|a l] eqn:He; [|apply Hr'].
  assert (forall sid r, user_sessions d !! sid = Some r -> active_of u dev r = false) as Hnone.
  { intros sid r Hrow. apply not_true_iff_false. intros Ha.
    assert (sid ∈ select_active_ids u dev d) as Hin; [|rewrite He in Hin; by apply elem_of_nil in Hin].
    unfold select_active_ids. apply list_elem_of_fmap. exists (sid, r). split; [done|].
    apply list_elem_of_filter. by rewrite elem_of_map_to_list. }
  assert (revoke_rows t u dev d = d) as Hid; [|rewrite <- Hid; apply Hr'].
  unfold revoke_rows, with_session_rows. destruct d as [d1 d2 d3 d4 d5 d6]. simpl in *. f_equal.
  apply map_eq. intros sid. rewrite lookup_fmap. destruct (d5 !! sid) as [r|] eqn:Hrow; [|done].
  simpl. by rewrite (Hnone _ _ Hrow).
Qed.

(** The transaction of a new session. *)
Lemma create_body_run st' d w t u dev sid secret ttl y :
  select_active_user u d = Some y ->
  let d1 := match select_active_ids u dev d with [] => d | _ => revoke_rows t u dev d end in
  let row := SQLStore.new_row sid secret u dev (u_SessionVersion y) (t + seconds ttl) t in
  related st' d1 -> sessions st' !! sid = None ->
  hash_free st' sid (sr_RefreshTokenHash row) ->
  SQLStore.create_session_body u dev sid secret ttl (mkEnv d w t []) =
  (mkEnv (with_session_rows (<[sid := row]> (user_sessions d1)) d1) w t [],
   Ok (Commit SQLStore.db_failed (y, select_active_ids u dev d, t + seconds ttl))).
Proof.
  intros Hy d1 row Hr Hnew Hfree.
  assert (user_sessions d1 !! sid = None) as Hrow.
  { rewrite <- (rel_sessions _ _ Hr) in Hnew. unfold select_session in Hnew.
    by destruct (user_sessions d1 !! sid). }
  unfold SQLStore.create_session_body, bind at 1. rewrite select_run. unfold bind at 1.
  rewrite Hy. cbn [SQLStore.one ret]. unfold bind at 1. rewrite select_run.
  unfold bind at 1, get_now. cbn [now].
  assert (match select_active_ids u dev d with
          | [] => ret tt | _ => SQLStore.exec (revoke_rows t u dev) end (mkEnv d w t []) =
          (mkEnv d1 w t [], Ok tt)) as Hrev.
  { unfold d1. by destruct (select_active_ids u dev d). }
  unfold bind at 1. rewrite Hrev. fold row.
  assert (bool_decide (is_Some (user_sessions d1 !! sid)) || hash_taken (sr_RefreshTokenHash row) d1
          = false) as Htaken.
  { apply orb_false_iff. split; [rewrite Hrow; by apply bool_decide_eq_false; intros [? ?]|].
    apply hash_not_taken. intros sid' r Hr'.
    apply (hash_free_ne st' sid _ sid' (querySession sid' r) Hfree); [|congruence].
    rewrite <- (rel_sessions _ _ Hr). unfold select_session. by rewrite Hr'. }
  unfold bind, SQLStore.exec_unique, bind, sql, pop_fault. cbn [faults db]. by rewrite Htaken.
Qed.

Lemma draws_run {D A} (k : string -> string -> Effects.M D auth_world store_error A) d w t :
  (sid <- randomToken ;; secret <- randomSecret ;; k sid secret) (mkEnv d w t []) =
  match random w with
  | [] => (mkEnv d w t [], Err (StoreFailed "rand"))
  | [_] => (mkEnv d (mkAuthWorld (redis w) [] (has_state w)) t [], Err (StoreFailed "rand"))
  | r :: q :: rs =>
      k (base64_url r) (hex q) (mkEnv d (mkAuthWorld (redis w) rs (has_state w)) t [])
  end.
Proof.
  unfold bind, randomToken, randomSecret, bind, rand_read, ret. destruct w as [r0 l hs].
  simpl. by destruct l as [|r [|q rs]].
Qed.

(** After the draws: the user exists and is active. *)
Lemma agree_create_user n st d w t u dev ttl sid secret x :
  related st d -> has_state w = true -> store_inv n st -> usersByID st !! u = Some x ->
  u_Status x = statusActive -> dev <> "" -> sessions st !! sid = None ->
  hash_free st sid (hashToken (buildRefreshToken sid 1 secret)) ->
  agrees st d w t
    (revokeUserDeviceSessionsLocked u dev ;;;
     let session := new_session sid secret u dev (u_SessionVersion x) (t + seconds ttl) in
     update_store (add_session session) ;;;
     syncSessionStateLocked session ;;;
     ret (sid, buildRefreshToken sid 1 secret))
    (' (user, oldSessionIDs, expiresAt) <- run_tx SQLStore.db_failed
       (SQLStore.create_session_body u dev sid secret ttl) ;;
     for_each SQLStore.deleteSessionState oldSessionIDs ;;;
     SQLStore.syncSessionState (mkSession sid u dev (u_SessionVersion user) "" ""
                                  secret 1 expiresAt false) ;;;
     ret (sid, buildRefreshToken sid 1 secret)).
Proof.
  intros Hr Hw Hi Hx Hs Hdev Hnew Hfree.
  destruct (rel_active_user st d u x Hr Hx Hs) as (y&Hy&Hv).
  destruct (run_end_memory n st d w t u dev _ Hi Hr Hw (revokes_device u dev Hdev))
    as (st1&Hrun&Hrel).
  pose proof (related_replaced st st1 d t u dev Hr Hrel) as Hr1.
  set (d1 := match select_active_ids u dev d with [] => d | _ => revoke_rows t u dev d end) in *.
  set (z := new_session sid secret u dev (u_SessionVersion x) (t + seconds ttl)).
  set (w1 := with_redis (drop_keys (session_keys (select_active_ids u dev d)) (redis w)) w) in *.
  assert (sessions st1 !! sid = None /\ usersByID st1 = usersByID st /\
          hash_free st1 sid (hashToken (buildRefreshToken sid 1 secret))) as (Hnew1&Hu1&Hfree1).
  { assert (st1 = foldl (fun d sid => revoke_if (of_device dev) u sid d) st (elements (ids_of u st)))
      as ->.
    { rewrite (run_revoke_loop (of_device dev) u _ (revoke_if (of_device dev) u)) in Hrun;
        [|by apply revokes_device|apply ends_revoke_if|done|done|by eapply listed_exist].
      by injection Hrun as <- _. }
    split_and!.
    - rewrite (sessions_loop n st u dev) by (done || apply ends_revoke_if). by rewrite Hnew.
    - apply (users_foldl (revoke_if (of_device dev) u)). apply users_revoke_if.
    - intros sid' a Ha. rewrite (sessions_loop n st u dev) in Ha by (done || apply ends_revoke_if).
      destruct (sessions st !! sid') as [b|] eqn:Hb; [|done]. injection Ha as <-.
      unfold end_of. destruct (_ && _); by apply (Hfree sid' b). }
  set (row := SQLStore.new_row sid secret u dev (u_SessionVersion y) (t + seconds ttl) t).
  exists (add_session z st1), (with_session_rows (<[sid := row]> (user_sessions d1)) d1),
    (if s_ExpiresAt z - t <=? 0 then w1
     else with_redis (save_session t (snapshot_of z) (s_ExpiresAt z - t) (redis w1)) w1),
    (Ok (sid, buildRefreshToken sid 1 secret)).
  split_and!.
  - unfold bind at 1. unfold revokeUserDeviceSessionsLocked, bind at 1, get_store at 1. cbn [db].
    rewrite Hrun. fold z. unfold bind at 1, update_store.
    change (set_db _ _) with (mkEnv (add_session z st1) w1 t []).
    unfold bind. by rewrite run_syncSession_memory.
  - unfold bind at 1. rewrite (run_tx_ok _ _ _ _ _
      (with_session_rows (<[sid := row]> (user_sessions d1)) d1)
      SQLStore.db_failed (y, select_active_ids u dev d, t + seconds ttl));
      [|by apply (create_body_run st1)].
    unfold bind. rewrite run_delete_all by (done || by apply (active_ids_named n st)).
    fold w1. rewrite run_syncSession_sql by done. rewrite Hv. done.
  - unfold row, z. rewrite Hv. apply (related_add st1 d1 sid secret u dev _ _ t x); [done| |done].
    by rewrite Hu1.
  - by destruct (_ <=? 0).
Qed.

Lemma agree_create n u dev ttl st d w t :
  related st d -> has_state w = true -> ok n (mkEnv st w t []) -> call_ok (CallCreate u dev ttl) st w ->
  agrees st d w t (AuthMemory.CreateSessionForDevice u dev ttl)
    (SQLStore.CreateSessionForDevice u dev ttl).
Proof.
  intros Hr Hw [Hi Hf] [Huser Hfree]. simpl in Hf, Hi.
  assert (0 < u) as Hpos.
  { destruct (usersByID st !! u) eqn:Hx; [by eapply (rel_positive _ _ Hr)|done]. }
  unfold agrees, AuthMemory.CreateSessionForDevice, SQLStore.CreateSessionForDevice.
  rewrite (proj2 (Z.leb_gt u 0)) by lia.
  set (dev' := if is_empty dev then "web" else dev).
  assert (dev' <> "") as Hdev.
  { unfold dev'. destruct (is_empty dev) eqn:He; [done|]. by apply str_eqb_neq. }
  rewrite !draws_run. destruct (random w) as [|r [|q rs]]; [by eexists st, d, _, _..|].
  set (w2 := mkAuthWorld (redis w) rs (has_state w)).
  unfold bind at 1, get_now, bind at 1, get_store. cbn [db now].
  destruct (usersByID st !! u) as [x|] eqn:Hx.
  - destruct Hf as [_ Hf]. apply Forall_cons in Hf as [[_ Hnew] _].
    by apply (agree_create_user n st d w2 t u dev' _ _ _ x).
  - exists st, d, w2, (Err ErrUserNotFound). split_and!; [done| |done|done].
    unfold bind at 1. rewrite (run_tx_err _ ErrUserNotFound); [done|].
    unfold SQLStore.create_session_body, bind at 1. rewrite select_run.
    unfold select_active_user, select_user. by rewrite (rel_no_user st).
Qed.

(** * The agreement *)

Lemma agrees_map {A B} st d w t (m1 : Effects.M Store auth_world store_error A) m2
    (k1 : A -> Effects.M Store auth_world store_error B) k2 (f : A -> B) :
  (forall a s, k1 a s = (s, Ok (f a))) -> (forall a s, k2 a s = (s, Ok (f a))) ->
  agrees st d w t m1 m2 -> agrees st d w t (bind m1 k1) (bind m2 k2).
Proof.
  intros Hk1 Hk2 (st'&d'&w'&r&H1&H2&Hr&Hw). unfold agrees, bind. rewrite H1, H2.
  destruct r as [a|e]; eexists st', d', w', _; rewrite ?Hk1, ?Hk2; done.
Qed.

Lemma agree_call n c st d w t :
  related st d -> has_state w = true -> ok n (mkEnv st w t []) -> call_ok c st w ->
  agrees st d w t (answer_call c) (answer_call c).
Proof.
  intros Hr Hw Hok Hc. destruct c; unfold answer_call.
  - eapply (agrees_map _ _ _ _ _ _ _ _ (fun a => Created a.1 a.2)); [by intros []..|].
    by apply (agree_create n).
  - eapply (agrees_map _ _ _ _ _ _ _ _ (fun a => Refreshed a.1 a.2)); [by intros []..|].
    apply (agree_refresh n); [done|done|apply Hok|done].
  - apply (agrees_map _ _ _ _ _ _ _ _ (fun _ => Done)); [done..|].
    apply (agree_logout n); [done|done|apply Hok].
  - apply (agrees_map _ _ _ _ _ _ _ _ (fun _ => Done)); [done..|].
    apply (agree_logout_all n); [done|done|apply Hok].
  - apply (agrees_map _ _ _ _ _ _ _ _ (fun a => Active a)); [done..|]. by apply agree_active.
Qed.

(** The operation of [AuthData] a call is. *)
Definition op_of (c : session_call) : auth_op :=
  match c with
  | CallCreate u dev ttl => OpCreateSession u dev ttl
  | CallRefresh tok ttl => OpRefresh tok ttl
  | CallLogout tok => OpLogout tok
  | CallLogoutAll u => OpLogoutAll u
  | CallActive sid => OpGetActiveSession sid
  end.

Lemma answer_serve c (s : env Store auth_world) : (answer_call c s).1 = (serve_op (op_of c) s).1.
Proof.
  destruct c; unfold answer_call, op_of, serve_op; rewrite ignore_1; unfold bind.
  - by destruct (AuthData.CreateSessionForDevice userID deviceType ttl s) as [s' [[]|]].
  - by destruct (AuthData.RefreshSession refreshToken ttl s) as [s' [[]|]].
  - by destruct (AuthData.Logout refreshToken s) as [s' []].
  - by destruct (AuthData.LogoutAll userID s) as [s' []].
  - by destruct (AuthData.GetActiveSession sessionID s) as [s' []].
Qed.

(** A sequence of calls, each at its time: the answers. *)
Fixpoint answers `{AuthStore D} (cs : list (Z * session_call)) (s : env D auth_world)
  : list (res store_error session_answer) :=
  match cs with
  | [] => []
  | (t, c) :: cs' =>
      let '(s', r) := answer_call c (at_time t s) in r :: answers cs' s'
  end.

Fixpoint final `{AuthStore D} (cs : list (Z * session_call)) (s : env D auth_world)
  : env D auth_world :=
  match cs with
  | [] => s
  | (t, c) :: cs' => final cs' (answer_call c (at_time t s)).1
  end.

Fixpoint calls_ok (cs : list (Z * session_call)) (s : env Store auth_world) : Prop :=
  match cs with
  | [] => True
  | (t, c) :: cs' => call_ok c (db s) (ext s) /\ calls_ok cs' (answer_call c (at_time t s)).1
  end.

#[export] Instance calls_ok_dec cs s : Decision (calls_ok cs s).
Proof. revert s. induction cs as [|[t c] cs IH]; intros s; simpl; apply _. Defined.

End agree.
