(* ===== verification/AuthDivergence.v ===== *)
(** Where the auth stores part from each other and from what they promise, shown
    on runs; and the agreement of the stores at a concrete input.  The access
    check of the entry service is that of
    app/entry/api/internal/sessionstate/validator.go. *)

From Stdlib Require Import Ascii.
From S2P Require Import Prelude Effects GoText AuthTokens AuthData AuthMemory AuthMemorySafety.
From S2P Require Import AuthSessions AuthSQL AuthStoresAgree.
Close Scope char_scope.

(** * The entry service's access check (sessionstate/validator.go)

    The claims of a token whose signature was verified: numbers, which decode as
    [float64] and are known here by their integer part, and strings.  [jwt.Parse]
    is a parameter. *)
Inductive claim_value := ClaimNumber (n : Z) | ClaimString (s : string) | ClaimOther.

Record claims := mkClaims {
  cl_sub : claim_value; cl_user_id : claim_value; cl_sid : string; cl_session_version : claim_value
}.

Definition parseInt64Claim (v : claim_value) : option Z :=
  match v with
  | ClaimNumber n => Some (int64 n)
  | ClaimString s => ParseInt s
  | ClaimOther => None
  end.

Inductive access := Allowed | Unauthenticated (message : string) | Unavailable (message : string).

(** A key that has not expired; a failed read is [None]. *)
Definition redis_get (t : Z) (key : string) (r : keyspace) : option state_value :=
  match r !! key with
  | Some (v, Some e) => if t <? e then Some v else None
  | Some (v, None) => Some v
  | None => None
  end.

Definition LoadSession (t : Z) (sessionID : string) (r : keyspace)
  : res string (option SessionSnapshot) :=
  if is_empty sessionID then Ok None else
  match redis_get t (sessionKey sessionID) r with
  | None => Ok None
  | Some (SnapshotJSON s) => Ok (Some s)
  | Some (VersionText _) => Err "decode"
  end.

Definition LoadUserVersion (t userID : Z) (r : keyspace) : res string (option Z) :=
  if userID <=? 0 then Ok None else
  match redis_get t (userVersionKey userID) r with
  | None => Ok None
  | Some (VersionText v) => Ok (Some v)
  | Some (SnapshotJSON _) => Err "parse"
  end.

Definition check_claims (t : Z) (c : claims) (r : keyspace) : access :=
  match (match parseInt64Claim (cl_sub c) with
         | Some u => Some u | None => parseInt64Claim (cl_user_id c) end) with
  | None => Unauthenticated "missing user subject in jwt"
  | Some userID =>
      if is_empty (cl_sid c) then Unauthenticated "missing session id in jwt" else
      match parseInt64Claim (cl_session_version c) with
      | None => Unauthenticated "missing session version in jwt"
      | Some sessionVersion =>
          match LoadSession t (cl_sid c) r with
          | Err _ => Unavailable "load session snapshot failed"
          | Ok None => Unauthenticated "session invalid or expired"
          | Ok (Some snapshot) =>
              if negb (sn_UserID snapshot =? userID) ||
                 negb (sn_SessionVersion snapshot =? sessionVersion)
              then Unauthenticated "session snapshot mismatch" else
              match LoadUserVersion t userID r with
              | Err _ => Unavailable "load user session version failed"
              | Ok None => Unauthenticated "session version mismatch"
              | Ok (Some v) =>
                  if v =? sessionVersion then Allowed
                  else Unauthenticated "session version mismatch"
              end
          end
      end
  end.

(** [jwt secret token]: the claims of a token signed with the secret. *)
Definition Validate (jwt : string -> string -> option claims) (secret : string) (t : Z)
    (authHeader : string) (r : keyspace) : access :=
  if is_empty (trim_space authHeader) then Unauthenticated "missing authorization header" else
  if is_empty secret then Unavailable "redis session validator not configured" else
  let rawToken := trim_space (trim_prefix authHeader "Bearer ") in
  if is_empty rawToken then Unauthenticated "missing bearer token" else
  match jwt secret rawToken with
  | None => Unauthenticated "invalid access token"
  | Some c => check_claims t c r
  end.

(** * A MySQL store with the contents of a memory store *)

Definition row_of_session (x : Session) : SessionRow :=
  mkSessionRow (s_UserID x) (s_DeviceType x) (s_SessionVersion x) (s_RefreshTokenHash x)
    (s_PreviousRefreshTokenHash x) (s_RefreshFamilySecret x) (s_RefreshGeneration x)
    (if s_Revoked x then statusRevoked else statusActive) (s_ExpiresAt x) 0 None.

Definition row_of_user (u : User) : UserRow :=
  mkUserRow (u_DisplayName u) (u_Role u) (u_Status u) (u_SessionVersion u) (u_CreateTime u).

Definition import (st : Store) : AuthDB :=
  mkAuthDB (row_of_user <$> usersByID st) (nextUserID st) (usersByPhone st)
    (u_PasswordHash <$> usersByID st) (row_of_session <$> sessions st) [].

Lemma import_related n st :
  store_inv n st ->
  map_Forall (fun u _ => 0 < u) (usersByID st) ->
  map_Forall (fun _ x => s_Revoked x = true \/
    exists u, usersByID st !! s_UserID x = Some u /\ u_Status u = statusActive) (sessions st) ->
  related st (import st).
Proof.
  intros Hi Hp Ho. constructor.
  - intros sid. unfold select_session. simpl. rewrite lookup_fmap.
    destruct (sessions st !! sid) as [x|] eqn:Hx; [|done]. simpl. f_equal.
    pose proof (so_id _ _ _ _ (si_sessions _ _ Hi _ _ Hx)) as Hid.
    destruct x. simpl in *. unfold querySession. simpl. subst. by destruct s_Revoked.
  - intros u. simpl. rewrite lookup_fmap. by destruct (usersByID st !! u).
  - intros u x Hx. by apply (Hp u x).
  - intros sid x Hx Hl. destruct (Ho sid x Hx) as [?|?]; [congruence|done].
Qed.

Definition quiet {D} (s : env D auth_world) : env D auth_world := mkEnv (db s) (ext s) (now s) [].

(** The demo store, without failures to come, in memory and in MySQL. *)
Definition sql_demo : env AuthDB auth_world := mkEnv (import (db demo)) (ext demo) 0 [].

Lemma demo_related : related (db demo) (import (db demo)).
Proof.
  apply (import_related 0); [apply demo_ok; vm_compute; discriminate| |].
  - apply (bool_decide_unpack _). vm_compute. exact I.
  - assert (sessions (db demo) = ∅) as -> by (vm_compute; reflexivity). apply map_Forall_empty.
Qed.

Definition demo_calls : list (Z * session_call) :=
  [(10, CallCreate 1001 "web" 3600); (20, CallRefresh (token_of 1) 3600);
   (30, CallActive "Aw"); (40, CallRefresh (token_of 1) 3600); (50, CallCreate 1001 "app" 60);
   (60, CallLogoutAll 1001)].


(** * Divergences *)

(** User 1001 logged in on the web, in MySQL. *)
Definition sql_logged_in : env AuthDB auth_world :=
  quiet (answer_call (CallCreate 1001 "web" 3600) (at_time 10 sql_demo)).1.

(** The first token with its generation spelled "+1": the signature covers the
    number, so the memory store takes it, while MySQL compares the hash of the
    text. *)
Definition spelled_token : string := "Aw.+1." +:+ signRefreshToken "Aw" 1 (hex [4]).

Example spelled_generation :
  is_ok (AuthMemory.RefreshSession spelled_token 3600 (quiet logged_in)).2 = true /\
  (SQLStore.RefreshSession spelled_token 3600 sql_logged_in).2 = Err ErrRefreshTokenInvalid /\
  is_ok (SQLStore.RefreshSession (token_of 1) 3600 sql_logged_in).2 = true.
Proof. vm_compute. repeat split. Qed.

(** The refresh and the global logout of one user, interleaved: the refresh
    commits, the logout runs, the refresh publishes its session. *)
Definition interleaved : env AuthDB auth_world :=
  let '(s1, r) := SQLStore.refresh_tx (token_of 1) 3600 (at_time 20 sql_logged_in) in
  let s2 := (SQLStore.LogoutAll 1001 s1).1 in
  match r with
  | Ok (SQLStore.Accepted session) => (SQLStore.syncSessionState session s2).1
  | _ => s2
  end.

Definition old_claims : claims :=
  mkClaims (ClaimString "1001") (ClaimNumber 1001) "Aw" (ClaimNumber 1).

(** A late publication undoes a global logout.  After the user's sessions are
    revoked and the version raised in MySQL, the access check on Redis allows the
    old access token again, until the refresh token would expire: the published
    session and the user version are those read before the logout. *)
Theorem late_publication_undoes_logout :
  select_session "Aw" (db interleaved) = None \/
  (exists x, select_session "Aw" (db interleaved) = Some x /\ s_Revoked x = true /\
     (ur_SessionVersion <$> users (db interleaved) !! 1001) = Some 2 /\
     check_claims 3619 old_claims (redis (ext interleaved)) = Allowed /\
     check_claims 30 old_claims
       (redis (ext (SQLStore.LogoutAll 1001 (at_time 20 sql_logged_in)).1)) =
       Unauthenticated "session invalid or expired").
Proof.
  right. destruct (select_session "Aw" (db interleaved)) as [x|] eqn:Hx;
    [|vm_compute in Hx; discriminate Hx].
  exists x. split; [done|]. split; [vm_compute in Hx; injection Hx as <-; reflexivity|].
  vm_compute. repeat split.
Qed.

(** Re-enabling an account raises its version and keeps its sessions: the next
    refresh of one of them publishes the old version again. *)
Example reactivation_is_forgotten :
  let s1 := (SQLStore.SetUserStatus 1001 1 (at_time 20 sql_logged_in)).1 in
  let s2 := (SQLStore.RefreshSession (token_of 1) 3600 (at_time 30 s1)).1 in
  redis (ext s1) !! userVersionKey 1001 = Some (VersionText 2, None) /\
  redis (ext s2) !! userVersionKey 1001 = Some (VersionText 1, None) /\
  (ur_SessionVersion <$> users (db s2) !! 1001) = Some 2.
Proof. vm_compute. repeat split. Qed.

(** A database that cannot be reached is answered as a wrong password. *)
Lemma unreachable_database_is_wrong_password userID phone password d w t fs :
  (SQLStore.Authenticate userID phone password (mkEnv d w t (FailBefore :: fs))).2 =
  Err ErrInvalidCredentials.
Proof.
  unfold SQLStore.Authenticate, bind, attempt, SQLStore.GetUserByID, SQLStore.GetUserByPhone.
  destruct (is_empty phone); [destruct (userID <=? 0)|]; done.
Qed.

(** A page whose offset overflows: MySQL refuses it. *)
Example huge_page_in_mysql :
  (SQLStore.ListUsers (2 ^ 62 + 1) 2 0 "" "" sql_demo).2 = Err SQLStore.db_failed.
Proof. vm_compute. reflexivity. Qed.
