(* ===== verification/Outbox.v ===== *)
(** The outbox publisher of the order service
    (app/order/rpc/internal/job/outbox_publisher.go and rabbit_publisher.go):
    the RabbitMQ publisher with confirms, the leader lock in Redis, the claiming,
    publishing and retrying of events, and the operator's retry of an event
    (gateway ordermysql/admin_ops_events.go, entry admintradehandler.go). *)

From S2P Require Import Prelude Effects Common Sql OrderStore.

(** * RabbitMQ

    [amqp091-go] is a parameter: connections and channels are numbers, the
    broker's state is [B].  [ch_next] is the outcome of the [select] that waits
    for the next confirmation. *)

Record RabbitMessage := mkMessage {
  RoutingKey : string; MessageID : string; MessageType : string; Body : json_object
}.

#[export] Instance RabbitMessage_eq_dec : EqDecision RabbitMessage.
Proof. solve_decision. Defined.

Inductive wait :=
| Confirmation (Ack : bool) (DeliveryTag : Z)
| ConfirmClosed
| CtxDone (e : error)
| TimerFired.

Class Amqp (B : Type) := {
  amqp_Dial : string -> B -> B * res error nat;
  conn_Channel : nat -> B -> B * res error nat;
  ch_ExchangeDeclare : nat -> string -> B -> B * res error unit;
  ch_Confirm : nat -> B -> B * res error unit;
  ch_Publish : nat -> string -> RabbitMessage -> B -> B * res error unit;
  ch_next : nat -> B -> B * wait;
  ch_Close : nat -> B -> B;
  conn_Close : nat -> B -> B
}.

(** [RabbitPublisher]: [conn], [ch], [confirmCh], [confirmEnabled]. *)
Record RabbitPublisher := mkRabbit {
  rp_conn : option nat; rp_ch : option nat; rp_confirmCh : option nat; confirmEnabled : bool
}.

Definition NewRabbitPublisher : RabbitPublisher := mkRabbit None None None false.

Section rabbit.
Context {B : Type} `{Amqp B}.
Context (url exchange : string).
Implicit Types (p : RabbitPublisher) (b : B).

Definition close_opt (f : nat -> B -> B) (o : option nat) (b : B) : B :=
  match o with Some c => f c b | None => b end.

Definition resetLocked p b : RabbitPublisher * B :=
  (NewRabbitPublisher, close_opt conn_Close (rp_conn p) (close_opt ch_Close (rp_ch p) b)).

(** Set the channel up on a new connection; a failing step closes what was
    opened. *)
Definition open_channel p b : RabbitPublisher * B * res error unit :=
  match amqp_Dial url b with
  | (b, Err e) => (p, b, Err e)
  | (b, Ok conn) =>
      match conn_Channel conn b with
      | (b, Err e) => (p, conn_Close conn b, Err e)
      | (b, Ok ch) =>
          let give_back b := conn_Close conn (ch_Close ch b) in
          match ch_ExchangeDeclare ch exchange b with
          | (b, Err e) => (p, give_back b, Err e)
          | (b, Ok _) =>
              if confirmEnabled p
              then (mkRabbit (Some conn) (Some ch) (rp_confirmCh p) true, b, Ok tt)
              else match ch_Confirm ch b with
                   | (b, Err e) => (p, give_back b, Err e)
                   | (b, Ok _) => (mkRabbit (Some conn) (Some ch) (Some ch) true, b, Ok tt)
                   end
          end
      end
  end.

Definition ensureChannelLocked p b : RabbitPublisher * B * res error unit :=
  match rp_ch p with
  | Some _ => (p, b, Ok tt)
  | None => open_channel p b
  end.

(** The loop that hands the messages to the channel. *)
Fixpoint publish_all (ch : nat) (messages : list RabbitMessage) b : B * res error unit :=
  match messages with
  | [] => (b, Ok tt)
  | message :: rest =>
      match ch_Publish ch exchange message b with
      | (b, Ok _) => publish_all ch rest b
      | (b, Err e) => (b, Err e)
      end
  end.

Definition nack_error (tag : Z) : error :=
  OtherError ("rabbitmq publish nack: delivery_tag=" +:+ itoa tag).
Definition confirm_timeout (size confirmed : nat) : error :=
  OtherError ("rabbitmq publish confirm timeout: batch_size=" +:+ itoa (Z.of_nat size) +:+
    " confirmed=" +:+ itoa (Z.of_nat confirmed)).

(** The loop that waits for [left] more confirmations out of [size].  A receive
    on a nil channel never proceeds: the timer ends the wait. *)
Fixpoint await_confirms (confirmCh : option nat) (size left : nat) b : B * res error unit :=
  match left with
  | O => (b, Ok tt)
  | S left' =>
      match confirmCh with
      | None => (b, Err (confirm_timeout size (size - left)))
      | Some c =>
          match ch_next c b with
          | (b, Confirmation true _) => await_confirms confirmCh size left' b
          | (b, Confirmation false tag) => (b, Err (nack_error tag))
          | (b, ConfirmClosed) => (b, Err (OtherError "rabbitmq publish confirm channel closed"))
          | (b, CtxDone e) => (b, Err e)
          | (b, TimerFired) => (b, Err (confirm_timeout size (size - left)))
          end
      end
  end.

Definition PublishBatch (messages : list RabbitMessage) p b : RabbitPublisher * B * res error unit :=
  match messages with
  | [] => (p, b, Ok tt)
  | _ =>
      match ensureChannelLocked p b with
      | (p, b, Err e) => (p, b, Err e)
      | (p, b, Ok _) =>
          let sent := match rp_ch p with
                      | Some ch => publish_all ch messages b
                      | None => (b, Ok tt)
                      end in
          match sent with
          | (b, Err e) => (resetLocked p b, Err e)
          | (b, Ok _) =>
              match await_confirms (rp_confirmCh p) (length messages) (length messages) b with
              | (b, Err e) => (resetLocked p b, Err e)
              | (b, Ok _) => (p, b, Ok tt)
              end
          end
      end
  end.

Definition Publish (message : RabbitMessage) p b : RabbitPublisher * B * res error unit :=
  PublishBatch [message] p b.
End rabbit.

(** * Configuration *)

Record OutboxConfig := mkOutboxConfig {
  RabbitMQURL : string; RabbitMQExchange : string; RabbitMQRouteKey : string;
  OutboxBatchSize : Z; OutboxPollMs : Z; OutboxRetrySec : Z; OutboxTimeoutSec : Z;
  OutboxMaxRetries : Z; OutboxSingleActive : bool; OutboxLeaderLockKey : string;
  OutboxLeaderLockTTL : Z
}.

Definition outboxStatusPending : Z := 0.
Definition outboxStatusPublished : Z := 1.
Definition outboxStatusPublishing : Z := 2.
Definition outboxStatusDead : Z := 3.

Section config.
Context (cfg : OutboxConfig).

(** [Start] does nothing without an address and an exchange. *)
Definition publisher_enabled : bool :=
  negb (is_empty (trim_space (RabbitMQURL cfg)) || is_empty (trim_space (RabbitMQExchange cfg))).

Definition poll_ms : Z := if OutboxPollMs cfg <=? 0 then 1000 else OutboxPollMs cfg.

Definition batchSize : Z := if OutboxBatchSize cfg <=? 0 then 200 else OutboxBatchSize cfg.

Definition batchWasFull (processed : Z) : bool := batchSize <=? processed.

(** In milliseconds. *)
Definition processTimeout (pollMs : Z) : Z :=
  let timeoutMs := int64 (pollMs * batchSize) in
  let timeoutMs := if timeoutMs <? 5000 then 5000 else timeoutMs in
  if 60000 <? timeoutMs then 60000 else timeoutMs.

Definition leaderLockKey : string :=
  let key := trim_space (OutboxLeaderLockKey cfg) in
  if is_empty key then "order:outbox:publisher:leader" else key.

Definition leaderLockTTL : Z :=
  if OutboxLeaderLockTTL cfg <? 30 then 90 else OutboxLeaderLockTTL cfg.

Definition retrySec : Z := if OutboxRetrySec cfg <=? 0 then 5 else OutboxRetrySec cfg.
Definition maxRetries : Z := if OutboxMaxRetries cfg <=? 0 then 8 else OutboxMaxRetries cfg.
Definition timeoutSec : Z := if OutboxTimeoutSec cfg <=? 0 then 60 else OutboxTimeoutSec cfg.
End config.

(** [NewOrderPaidEvent]: the identifier, the type and the order. *)
Definition NewOrderPaidEvent (orderID : string) : string * string * string :=
  (order_paid_event_id orderID, "order.paid", orderID).

(** [outboxEvent]: [ID] is the position of the row. *)
Record outboxEvent := mkOutboxEvent {
  oe_ID : nat; oe_EventID : string; oe_EventType : string; oe_Payload : json_object;
  oe_AttemptCount : Z
}.

#[export] Instance outboxEvent_eq_dec : EqDecision outboxEvent.
Proof. solve_decision. Defined.

Definition event_of (id : nat) (r : OutboxRow) : outboxEvent :=
  mkOutboxEvent id (event_id r) (event_type r) (ob_payload r) (attempt_count r).

(** The message of an event: its type is the routing key, unless it is blank. *)
Definition route_key (cfg : OutboxConfig) (eventType : string) : string :=
  let routeKey := trim_space eventType in
  let routeKey := if is_empty routeKey then trim_space (RabbitMQRouteKey cfg) else routeKey in
  if is_empty routeKey then "order.created" else routeKey.

Definition message_of (cfg : OutboxConfig) (evt : outboxEvent) : RabbitMessage :=
  mkMessage (route_key cfg (oe_EventType evt)) (oe_EventID evt) (oe_EventType evt) (oe_Payload evt).

(** * Statements on [order_outbox] *)

(** [UPDATE order_outbox SET f WHERE p], with the row's position. *)
Definition upd_rows (p : nat -> OutboxRow -> bool) (f : OutboxRow -> OutboxRow)
  (t : list OutboxRow) : list OutboxRow :=
  imap (fun i r => if p i r then f r else r) t.

#[export] Instance OutboxRow_eq_dec : EqDecision OutboxRow.
Proof. solve_decision. Defined.

Definition affected_at (p : nat -> OutboxRow -> bool) (f : OutboxRow -> OutboxRow)
  (t : list OutboxRow) : Z :=
  sumZ id (imap (fun i r => if p i r && negb (bool_decide (f r = r)) then 1 else 0) t).

Definition set_ob (st attempts retry : Z) (published : option Z) (msg : string) (t : Z)
  (r : OutboxRow) : OutboxRow :=
  mkOutbox (event_id r) (event_type r) (aggregate_id r) (ob_payload r) st attempts retry published
    msg t.

(** [status = publishing], [status = published, published_at = NOW(), last_error = ''],
    and [status = pending, next_retry_at = NOW(), last_error = 'recovered ...']. *)
Definition to_publishing (t : Z) (r : OutboxRow) : OutboxRow :=
  set_ob outboxStatusPublishing (attempt_count r) (next_retry_at r) (published_at r) (last_error r) t r.
Definition to_published (t : Z) (r : OutboxRow) : OutboxRow :=
  set_ob outboxStatusPublished (attempt_count r) (next_retry_at r) (Some t) "" t r.
Definition to_recovered (t : Z) (r : OutboxRow) : OutboxRow :=
  set_ob outboxStatusPending (attempt_count r) t (published_at r) "recovered from timeout" t r.
Definition to_retry (st attempts after : Z) (msg : string) (t : Z) (r : OutboxRow) : OutboxRow :=
  set_ob st attempts (t + after) (published_at r) msg t r.

Definition with_status (st : Z) (r : OutboxRow) : bool := ob_status r =? st.
Definition in_ids (ids : list nat) (st : Z) (i : nat) (r : OutboxRow) : bool :=
  bool_decide (i ∈ ids) && with_status st r.

Section publisher.
Context {B : Type} `{Amqp B}.

(** What a publisher reaches besides the database: the leader locks in Redis
    (holder and expiry time), the broker, and its own fields [rabbit] and
    [leaderOwned]. *)
Record PubX := mkPubX {
  locks : gmap string (string * Z); broker : B; rabbit : RabbitPublisher; leaderOwned : bool
}.

Context (cfg : OutboxConfig) (leaderID : string).

Definition exec_outbox (p : Z -> nat -> OutboxRow -> bool) (f : Z -> OutboxRow -> OutboxRow)
  : M DB PubX error Z :=
  t <- get_now ;;
  sql (fun d => (with_outbox (upd_rows (p t) (f t) (outbox d)) d,
                 affected_at (p t) (f t) (outbox d))) DbError.

(** ** Leadership *)

Definition holder (t : Z) (key : string) (m : gmap string (string * Z)) : option string :=
  match m !! key with
  | Some (id, expiry) => if t <? expiry then Some id else None
  | None => None
  end.

Definition redis_failed : error := OtherError "redis: connection refused".

Definition redis {A} (op : Z -> gmap string (string * Z) -> gmap string (string * Z) * A)
  : M DB PubX error A :=
  t <- get_now ;;
  call (fun x => let '(m, a) := op t (locks x) in
                 (mkPubX m (broker x) (rabbit x) (leaderOwned x), Ok a)) redis_failed.

(** [SET key id NX EX ttl]. *)
Definition SetnxEx (key id : string) (ttl : Z) : M DB PubX error bool :=
  redis (fun t m => match holder t key m with
                    | Some _ => (m, false)
                    | None => (<[key := (id, t + ttl)]> m, true)
                    end).

(** What a script may answer through [any]. *)
Inductive redis_value :=
| RInt64 (z : Z) | RUint64 (z : Z) | RString (s : string) | ROther.

Definition parseRedisInt (v : redis_value) : Z :=
  match v with
  | RInt64 val => val
  | RUint64 val => int64 val
  | RString val => if str_eqb val "1" then 1 else 0
  | ROther => 0
  end.

Definition renewLeaderLockScript (key id : string) (ttl : Z) : M DB PubX error redis_value :=
  redis (fun t m => if bool_decide (holder t key m = Some id)
                    then (<[key := (id, t + ttl)]> m, RInt64 1)
                    else (m, RInt64 0)).

Definition releaseLeaderLockScript (key id : string) : M DB PubX error redis_value :=
  redis (fun t m => if bool_decide (holder t key m = Some id)
                    then (delete key m, RInt64 1)
                    else (m, RInt64 0)).

Definition get_leaderOwned : M DB PubX error bool := fun s => (s, Ok (leaderOwned (ext s))).
Definition set_leaderOwned (b : bool) : M DB PubX error unit := fun s =>
  (set_ext (mkPubX (locks (ext s)) (broker (ext s)) (rabbit (ext s)) b) s, Ok tt).

Definition ensureLeadership : M DB PubX error bool :=
  if negb (OutboxSingleActive cfg) then ret true else
  let lockKey := leaderLockKey cfg in
  let ttl := leaderLockTTL cfg in
  owned <- get_leaderOwned ;;
  if negb owned then
    claimed <- SetnxEx lockKey leaderID ttl ;;
    if negb claimed then ret false else set_leaderOwned true ;;; ret true
  else
    renewed <- renewLeaderLockScript lockKey leaderID ttl ;;
    if negb (parseRedisInt renewed =? 1) then set_leaderOwned false ;;; ret false else ret true.

(** ** The batch *)

Definition recoverTimeoutPublishing : M DB PubX error Z :=
  exec_outbox (fun t _ r => with_status outboxStatusPublishing r
                            && (ob_update_time r <? t - timeoutSec cfg)) to_recovered.

(** [WHERE status = pending AND next_retry_at <= NOW() ORDER BY id LIMIT batch]. *)
Definition due (t : Z) (r : OutboxRow) : bool :=
  with_status outboxStatusPending r && (next_retry_at r <=? t).

Definition due_events (t : Z) (d : DB) : list outboxEvent :=
  omap id (imap (fun i r => if due t r then Some (event_of i r) else None) (outbox d)).

Definition select_batch : M DB PubX error (list outboxEvent) :=
  t <- get_now ;;
  query (fun d => take (Z.to_nat (batchSize cfg)) (due_events t d)) DbError.

Definition partial (what : string) (affected : Z) (events : list outboxEvent) : error :=
  OtherError ("mark " +:+ what +:+ " batch affected=" +:+ itoa affected +:+ " expected=" +:+
    itoa (Z.of_nat (length events))).

Definition markPublishingBatch (events : list outboxEvent) : M DB PubX error unit :=
  match events with
  | [] => ret tt
  | _ =>
      affected <- exec_outbox (fun _ => in_ids (map oe_ID events) outboxStatusPending) to_publishing ;;
      require (affected =? Z.of_nat (length events)) (partial "publishing" affected events)
  end.

(** The compare-and-set of one candidate. *)
Definition claim_one (evt : outboxEvent) : M DB PubX error bool :=
  affected <- exec_outbox (fun _ => in_ids [oe_ID evt] outboxStatusPending) to_publishing ;;
  ret (affected =? 1).

Fixpoint claim_each (candidates : list outboxEvent) : M DB PubX error (list outboxEvent) :=
  match candidates with
  | [] => ret []
  | evt :: rest =>
      won <- claim_one evt ;;
      claimed <- claim_each rest ;;
      ret (if (won : bool) then evt :: claimed else claimed)
  end.

Definition claimBatch : M DB PubX error (list outboxEvent) :=
  raw_db DbError ;;;
  candidates <- select_batch ;;
  match candidates with
  | [] => ret []
  | _ => if OutboxSingleActive cfg
         then markPublishingBatch candidates ;;; ret candidates
         else claim_each candidates
  end.

Definition publishBatch (events : list outboxEvent) : M DB PubX error unit := fun s =>
  let x := ext s in
  let '(p, b, r) := PublishBatch (RabbitMQURL cfg) (RabbitMQExchange cfg)
                      (map (message_of cfg) events) (rabbit x) (broker x) in
  (set_ext (mkPubX (locks x) b p (leaderOwned x)) s, r).

Definition markPublishedBatch (events : list outboxEvent) : M DB PubX error unit :=
  match events with
  | [] => ret tt
  | _ =>
      affected <- exec_outbox (fun _ => in_ids (map oe_ID events) outboxStatusPublishing) to_published ;;
      require (affected =? Z.of_nat (length events)) (partial "published" affected events)
  end.

Definition next_status (nextAttempt : Z) : Z :=
  if maxRetries cfg <? nextAttempt then outboxStatusDead else outboxStatusPending.

Definition markRetry (publishErr : error) (evt : outboxEvent) : M DB PubX error unit :=
  let nextAttempt := int64 (oe_AttemptCount evt + 1) in
  let errMsg := truncate_at 255 (error_text publishErr) in
  exec_outbox (fun _ => in_ids [oe_ID evt] outboxStatusPublishing)
    (to_retry (next_status nextAttempt) nextAttempt (retrySec cfg) errMsg) ;;;
  ret tt.

Definition processOnce : M DB PubX error Z :=
  recoverTimeoutPublishing ;;;
  events <- claimBatch ;;
  match events with
  | [] => ret 0
  | _ =>
      published <- attempt (publishBatch events) ;;
      match published with
      | Err err =>
          for_each (fun evt => ignore (markRetry err evt)) events ;;;
          ret (Z.of_nat (length events))
      | Ok _ =>
          ignore (markPublishedBatch events) ;;;
          ret (Z.of_nat (length events))
      end
  end.

(** One turn of the loop of [Start]: whether the next turn follows at once. *)
Definition turn : M DB PubX error bool :=
  leader <- attempt ensureLeadership ;;
  match leader with
  | Ok true =>
      processed <- attempt processOnce ;;
      match processed with
      | Ok n => ret (batchWasFull cfg n)
      | Err _ => ret false
      end
  | _ => ret false
  end.

(** The turns until the publisher waits for the ticker: [true] when it does so
    within [fuel] turns. *)
Fixpoint turns (fuel : nat) : M DB PubX error bool :=
  match fuel with
  | O => ret false
  | S fuel =>
      again <- turn ;;
      if (again : bool) then turns fuel else ret true
  end.

Definition Stop : M DB PubX error unit := fun s =>
  let s := if OutboxSingleActive cfg
           then (releaseLeaderLockScript (leaderLockKey cfg) leaderID s).1 else s in
  let x := ext s in
  let '(p, b) := resetLocked (rabbit x) (broker x) in
  (set_ext (mkPubX (locks x) b p (leaderOwned x)) s, Ok tt).
End publisher.
Arguments PubX B : clear implicits.
Arguments mkPubX {B} _ _ _ _.

(** * The operator's retry

    [UPDATE order_outbox SET status = 0, next_retry_at = NOW(), last_error = '' WHERE event_id = ?];
    the entry API trims the identifier and refuses an empty one. *)
Definition retry_event (t : Z) (eventID : string) (d : DB) : DB :=
  with_outbox (update_rows (fun r => str_eqb (event_id r) eventID) (requeue t) (outbox d)) d.

Definition RetryEvent {X} (eventID : string) : M DB X error unit :=
  t <- get_now ;; sql (fun d => (retry_event t eventID d, tt)) DbError.

Definition AdminEventRetryHandler {X} (eventID : string) : M DB X error (string * string) :=
  let eventID := trim_space eventID in
  require (negb (is_empty eventID)) (StatusError InvalidArgument "event_id required") ;;;
  raw_db DbError ;;;
  RetryEvent eventID ;;;
  ret (eventID, "pending").

(** * What the publisher promises about RabbitMQ

    What the outbox publisher promises about RabbitMQ: a batch that is accepted
    has been taken over by the broker, message by message, although the publisher
    only counts confirmations.  The broker's documented behaviour is the class
    [AmqpLaws]; the proof needs that between two batches nothing published on the
    channel is unconfirmed, which [resetLocked] ensures. *)

(** * The broker's laws

    [chan_log b c] is the history of channel [c]: the messages published on it,
    in order, and the number of acknowledgements received; [delivered b m] says
    that the broker has accepted responsibility for [m]. *)

Definition only_touches {B} (del : B -> RabbitMessage -> Prop)
  (log : B -> nat -> option (list RabbitMessage * nat)) (touched : option nat) (b b' : B) : Prop :=
  (forall m, del b m -> del b' m) /\
  forall c, touched <> Some c -> log b' c = log b c.

Class AmqpLaws (B : Type) `{Amqp B} := {
  delivered : B -> RabbitMessage -> Prop;
  chan_log : B -> nat -> option (list RabbitMessage * nat);
  (* the k-th acknowledgement on a channel is for the k-th message *)
  acks_are_delivered b c l n : chan_log b c = Some (l, n) -> Forall (delivered b) (take n l);
  dial_law url b : only_touches delivered chan_log None b (amqp_Dial url b).1;
  channel_law k b :
    match conn_Channel k b with
    | (b', Ok c) => chan_log b c = None /\ chan_log b' c = Some ([], O) /\
                    only_touches delivered chan_log (Some c) b b'
    | (b', Err _) => only_touches delivered chan_log None b b'
    end;
  declare_law c ex b : only_touches delivered chan_log None b (ch_ExchangeDeclare c ex b).1;
  confirm_law c b : only_touches delivered chan_log None b (ch_Confirm c b).1;
  publish_law c ex m b :
    only_touches delivered chan_log (Some c) b (ch_Publish c ex m b).1 /\
    forall u l n, (ch_Publish c ex m b).2 = Ok u -> chan_log b c = Some (l, n) ->
      chan_log (ch_Publish c ex m b).1 c = Some (l ++ [m], n);
  next_law c b :
    only_touches delivered chan_log (Some c) b (ch_next c b).1 /\
    forall tag l n, (ch_next c b).2 = Confirmation true tag -> chan_log b c = Some (l, n) ->
      (n < length l)%nat -> chan_log (ch_next c b).1 c = Some (l, S n);
  close_law c b : only_touches delivered chan_log None b (ch_Close c b);
  conn_close_law k b : only_touches delivered chan_log None b (conn_Close k b)
}.

Section broker.
Context {B : Type} `{AmqpLaws B}.
Implicit Types (b : B) (p : RabbitPublisher).

Abbreviation touches := (only_touches delivered chan_log).

Lemma touches_refl o b : touches o b b.
Proof. done. Qed.

Lemma touches_trans o b1 b2 b3 : touches o b1 b2 -> touches o b2 b3 -> touches o b1 b3.
Proof. intros [H1 H2] [H3 H4]. split; [auto|]. intros c Hc. by rewrite H4, H2. Qed.

Lemma touches_none o b b' : touches None b b' -> touches o b b'.
Proof. intros [H1 H2]. split; [done|]. intros c _. by apply H2. Qed.

(** Nothing is unconfirmed on the publisher's channel. *)
Definition rabbit_ok b p : Prop :=
  match rp_ch p with
  | None => p = NewRabbitPublisher
  | Some c => rp_confirmCh p = Some c /\ confirmEnabled p = true /\
              exists l, chan_log b c = Some (l, length l)
  end.

Lemma rabbit_ok_new b : rabbit_ok b NewRabbitPublisher.
Proof. done. Qed.

(** Another publisher's work does not disturb it. *)
Lemma rabbit_ok_touches o b b' p :
  touches o b b' -> (forall c, rp_ch p = Some c -> o <> Some c) -> rabbit_ok b p -> rabbit_ok b' p.
Proof.
  intros [_ Hl] Ho. unfold rabbit_ok. destruct (rp_ch p) as [c|]; [|done].
  intros (?&?&l&?). split; [done|]. split; [done|]. exists l. rewrite Hl; auto.
Qed.

Lemma touches_log o b b' c : touches o b b' -> o <> Some c -> chan_log b' c = chan_log b c.
Proof. intros [_ Hl] Ho. by apply Hl. Qed.

Lemma touches_delivered o b b' m : touches o b b' -> delivered b m -> delivered b' m.
Proof. intros [Hd _]. apply Hd. Qed.

#[local] Opaque only_touches.

Lemma close_opt_touches (f : nat -> B -> B) o b :
  (forall k b, touches None b (f k b)) -> touches None b (close_opt f o b).
Proof. intros Hf. destruct o; simpl; auto using touches_refl. Qed.

Lemma resetLocked_spec p b :
  (resetLocked p b).1 = NewRabbitPublisher /\ touches None b (resetLocked p b).2.
Proof.
  split; [done|]. unfold resetLocked. simpl.
  eapply touches_trans; apply close_opt_touches; auto using close_law, conn_close_law.
Qed.

Lemma publish_all_spec c ex ms b l n :
  chan_log b c = Some (l, n) ->
  touches (Some c) b (publish_all ex c ms b).1 /\
  forall u, (publish_all ex c ms b).2 = Ok u ->
    chan_log (publish_all ex c ms b).1 c = Some (l ++ ms, n).
Proof.
  revert b l. induction ms as [|m ms IH]; intros b l Hl; simpl.
  - split; [apply touches_refl|]. intros u _. by rewrite app_nil_r.
  - destruct (publish_law c ex m b) as [Ht Hok].
    destruct (ch_Publish c ex m b) as [b1 [u1|e]]; simpl in *.
    + destruct (IH b1 (l ++ [m]) (Hok _ _ _ eq_refl Hl)) as [Ht2 Hok2].
      split; [by eapply touches_trans|]. intros u Hu. rewrite (Hok2 u Hu).
      by rewrite <- app_assoc.
    + by split.
Qed.

Lemma await_confirms_spec c size left b l n :
  chan_log b c = Some (l, n) -> (n + left <= length l)%nat ->
  touches (Some c) b (await_confirms (Some c) size left b).1 /\
  forall u, (await_confirms (Some c) size left b).2 = Ok u ->
    chan_log (await_confirms (Some c) size left b).1 c = Some (l, n + left)%nat.
Proof.
  revert b n. induction left as [|left IH]; intros b n Hl Hn; cbn [await_confirms].
  - split; [apply touches_refl|]. intros u _. by rewrite Nat.add_0_r.
  - destruct (next_law c b) as [Ht Hok].
    destruct (ch_next c b) as [b1 [[] tag| |e|]]; simpl in *; try (split; [done|congruence]).
    destruct (IH b1 (S n)) as [Ht2 Hok2]; [eapply Hok; eauto; lia|lia|].
    split; [by eapply touches_trans|]. intros u Hu. rewrite (Hok2 u Hu). f_equal. f_equal. lia.
Qed.

(** The channel a publisher uses or touches is its own or one never seen before. *)
Definition mine b p (o : option nat) : Prop :=
  forall c, o = Some c -> rp_ch p = Some c \/ chan_log b c = None.

Definition own_step b p b' p' : Prop :=
  (exists o, touches o b b' /\ mine b p o) /\ mine b p (rp_ch p') /\ rabbit_ok b' p'.

Lemma mine_none b p : mine b p None.
Proof. intros c [=]. Qed.

Lemma open_channel_fresh url ex b :
  exists o p' b' r, open_channel url ex NewRabbitPublisher b = (p', b', r) /\
    touches o b b' /\ (forall c, o = Some c -> chan_log b c = None) /\
    rabbit_ok b' p' /\ (p' = NewRabbitPublisher \/ rp_ch p' = o) /\
    (forall u, r = Ok u -> rp_ch p' = o /\ o <> None).
Proof.
  unfold open_channel. simpl.
  pose proof (dial_law url b) as Hd. destruct (amqp_Dial url b) as [b1 [k|e]]; simpl in *.
  2:{ exists None. do 3 eexists. split; [done|]. split_and!; try done; auto. }
  pose proof (channel_law k b1) as Hch. destruct (conn_Channel k b1) as [b2 [c|e]].
  2:{ exists None. do 3 eexists. split; [done|]. split_and!; try done; auto;
        (eapply (touches_trans None); [done|]; eapply touches_trans; [done|]; apply conn_close_law). }
  destruct Hch as (Hfresh&Hnew&Ht).
  assert (chan_log b c = None) as Hfresh0 by (rewrite <- Hfresh; symmetry; by eapply touches_log).
  assert (forall b3, touches None b2 b3 -> touches (Some c) b b3) as Hall.
  { intros b3 H3. eapply touches_trans; [by apply touches_none|].
    eapply touches_trans; [done|]. by apply touches_none. }
  assert (forall b3, touches None b2 b3 -> touches None b2 (conn_Close k (ch_Close c b3))) as Hback.
  { intros b3 H3. eapply touches_trans; [done|]. eapply touches_trans; [apply close_law|].
    apply conn_close_law. }
  exists (Some c).
  pose proof (declare_law c ex b2) as Hde. destruct (ch_ExchangeDeclare c ex b2) as [b3 [u|e]]; simpl in *.
  2:{ do 3 eexists. split; [done|]. split; [by apply Hall, Hback|]. split_and!; try done; auto.
      by intros c' [= <-]. }
  pose proof (confirm_law c b3) as Hco. destruct (ch_Confirm c b3) as [b4 [u'|e]]; simpl in *;
    (assert (touches None b2 b4) by (by eapply touches_trans)).
  - do 3 eexists. split; [done|]. split; [by apply Hall|]. split; [by intros c' [= <-]|].
    split; [|split; [by right|done]]. unfold rabbit_ok. simpl. split; [done|]. split; [done|].
    exists []. simpl. rewrite <- Hnew. by eapply touches_log.
  - do 3 eexists. split; [done|]. split; [by apply Hall, Hback|]. split; [by intros c' [= <-]|].
    split_and!; try done; auto.
Qed.

(** ** A batch

    The publisher stays well-formed and keeps to its own channel; on success
    every message of the batch has been accepted by the broker. *)
Lemma send_batch_spec ex c ms p b l n :
  rp_ch p = Some c -> rp_confirmCh p = Some c -> confirmEnabled p = true ->
  chan_log b c = Some (l, length l) ->
  let '(b1, r1) := publish_all ex c ms b in
  let '(b2, r2) := await_confirms (Some c) n (length ms) b1 in
  touches (Some c) b b1 /\
  (forall u, r1 = Ok u -> touches (Some c) b b2 /\
     forall u', r2 = Ok u' -> rabbit_ok b2 p /\ Forall (delivered b2) ms).
Proof.
  intros Hch Hcc Hce Hl. destruct (publish_all_spec c ex ms b l (length l) Hl) as [Ht Hok].
  destruct (publish_all ex c ms b) as [b1 r1]; simpl in *.
  destruct (await_confirms (Some c) n (length ms) b1) as [b2 r2] eqn:Hw.
  split; [done|]. intros u ->. pose proof (Hok u eq_refl) as Hl1.
  destruct (await_confirms_spec c n (length ms) b1 (l ++ ms) (length l) Hl1) as [Ht2 Hok2].
  { rewrite length_app. lia. }
  rewrite Hw in *. simpl in *. split; [by eapply touches_trans|]. intros u' ->.
  pose proof (Hok2 u' eq_refl) as Hl2. rewrite <- length_app in Hl2. split.
  - unfold rabbit_ok. rewrite Hch. eauto.
  - pose proof (acks_are_delivered _ _ _ _ Hl2) as Hd. rewrite firstn_all in Hd.
    by apply Forall_app in Hd as [_ Hd].
Qed.

Lemma PublishBatch_spec url ex ms p b :
  rabbit_ok b p ->
  exists p' b' r, PublishBatch url ex ms p b = (p', b', r) /\ own_step b p b' p' /\
    (forall u, r = Ok u -> Forall (delivered b') ms).
Proof.
  intros Hp. unfold PublishBatch.
  destruct ms as [|m ms]; [|set (msgs := m :: ms)].
  { do 3 eexists. split; [done|]. split; [|by constructor].
    split; [|split]; [exists None|intros c Hc; by left|done].
    split; [apply touches_refl|apply mine_none]. }
  assert (exists o p1 b1 r1, ensureChannelLocked url ex p b = (p1, b1, r1) /\ touches o b b1 /\
    mine b p o /\ mine b p (rp_ch p1) /\ rabbit_ok b1 p1 /\
    (forall u, r1 = Ok u -> exists c, rp_ch p1 = Some c /\ (o = None \/ o = Some c)))
    as (o&p1&b1&r1&->&Ht1&Ho&Hm1&Hp1&Hch1).
  { unfold ensureChannelLocked. destruct (rp_ch p) as [c|] eqn:Hc.
    - exists None, p, b, (Ok tt). split; [done|]. split; [apply touches_refl|].
      split; [apply mine_none|]. split; [intros c' Hc'; by left|]. split; [done|]. eauto.
    - pose proof Hp as Hp'. unfold rabbit_ok in Hp'. rewrite Hc in Hp'. subst p.
      destruct (open_channel_fresh url ex b) as (o&p1&b1&r1&->&Ht&Hf&Hok&Hpo&Hr).
      exists o, p1, b1, r1. split; [done|]. split; [done|]. split; [intros c' Hc'; right; auto|].
      split; [intros c' Hc'; right; destruct Hpo as [->|Hpo]; [done|apply Hf; congruence]|].
      split; [done|]. intros u Hu. destruct (Hr u Hu) as [-> Hno].
      destruct o as [c|]; [eauto|done]. }
  destruct r1 as [u|e].
  2:{ do 3 eexists. split; [done|]. split; [|done]. split; [by exists o|done]. }
  destruct (Hch1 u eq_refl) as (c&Hc&Hoc). unfold rabbit_ok in Hp1. rewrite Hc in Hp1.
  destruct Hp1 as (Hcc&Hce&l&Hl). rewrite Hc, Hcc.
  assert (mine b p (Some c)) as Hmc by (intros c' [= <-]; by apply Hm1).
  assert (touches (Some c) b b1) as Ht1'.
  { destruct Hoc as [-> | ->]; [by apply touches_none|done]. }
  pose proof (send_batch_spec ex c msgs p1 b1 l (length msgs) Hc Hcc Hce Hl) as Hs.
  assert (forall b2 (e : error), touches (Some c) b b2 -> exists p' b' r,
    (resetLocked p1 b2, Err e) = (p', b', r) /\ own_step b p b' p' /\
    (forall u : unit, r = Ok u -> Forall (delivered b') msgs)) as Hreset.
  { intros b2 e Ht. destruct (resetLocked_spec p1 b2) as [Hn Hrt].
    destruct (resetLocked p1 b2) as [p2 b3]. simpl in *. subst p2.
    do 3 eexists. split; [done|]. split; [|done]. split; [|split]; [exists (Some c)|apply mine_none|done].
    split; [|done]. eapply touches_trans; [done|]. by apply touches_none. }
  destruct (publish_all ex c msgs b1) as [b2 r2].
  destruct (await_confirms (Some c) (length msgs) (length msgs) b2) as [b3 r3] eqn:Hw.
  destruct Hs as [Ht2 Hs]. destruct r2 as [u2|e].
  2:{ apply Hreset. by eapply touches_trans. }
  destruct (Hs u2 eq_refl) as [Ht3 Hok].
  destruct r3 as [u3|e].
  2:{ apply Hreset. by eapply touches_trans. }
  destruct (Hok u3 eq_refl) as [Hp3 Hd]. do 3 eexists. split; [done|]. split; [|done].
  split; [exists (Some c); split; [by eapply touches_trans|done]|done].
Qed.
End broker.
