(* ===== verification/OutboxSteps.v ===== *)
(** Several outbox publishers, the services that write events, the operator and
    the clock, interleaved: the loop of [Start] cut at each statement, publishers
    that start, stop and crash, and the invariant of every reachable state: an
    event marked published has been accepted by the broker. *)

From S2P Require Import Prelude Effects Sql OrderStore Outbox.

(** * The loop, statement by statement *)

Inductive phase :=
| Waiting
| Leading
| Recovered
| Selected (candidates : list outboxEvent)
| Claiming (todo claimed : list outboxEvent)
| Claimed (events : list outboxEvent)
| Confirmed (events : list outboxEvent)
| Retrying (todo : list outboxEvent) (err : error).

#[export] Instance phase_eq_dec : EqDecision phase.
Proof. solve_decision. Defined.

(** The events a publisher has in hand. *)
Definition in_hand (ph : phase) : list outboxEvent :=
  match ph with
  | Waiting | Leading | Recovered => []
  | Selected l | Claimed l | Confirmed l | Retrying l _ => l
  | Claiming todo claimed => todo ++ claimed
  end.

Section advance.
Context {B : Type} `{Amqp B}.
Context (cfg : OutboxConfig) (leaderID : string).
Abbreviation IO := (M DB (PubX B) error).

(** After a statement that failed the publisher waits for the next tick. *)
Definition or_wait {A} (m : IO A) (next : A -> phase) : IO phase :=
  r <- attempt m ;;
  ret (match r with Ok a => next a | Err _ => Waiting end).

Definition advance (ph : phase) : IO phase :=
  match ph with
  | Waiting => or_wait (ensureLeadership cfg leaderID)
                 (fun leader : bool => if leader then Leading else Waiting)
  | Leading => or_wait (recoverTimeoutPublishing cfg) (fun _ => Recovered)
  | Recovered => or_wait (raw_db DbError ;;; select_batch cfg)
                   (fun l => match l with [] => Waiting | _ => Selected l end)
  | Selected l => if OutboxSingleActive cfg
                  then or_wait (markPublishingBatch l) (fun _ => Claimed l)
                  else ret (Claiming l [])
  | Claiming [] claimed => ret (match claimed with [] => Waiting | _ => Claimed claimed end)
  | Claiming (evt :: rest) claimed =>
      or_wait (claim_one evt)
        (fun won : bool => Claiming rest (if won then claimed ++ [evt] else claimed))
  | Claimed l =>
      r <- attempt (publishBatch cfg l) ;;
      ret (match r with Ok _ => Confirmed l | Err e => Retrying l e end)
  | Confirmed l => ignore (markPublishedBatch l) ;;; ret Waiting
  | Retrying [] _ => ret Waiting
  | Retrying (evt :: rest) e => ignore (markRetry cfg e evt) ;;; ret (Retrying rest e)
  end.
End advance.

(** * The system *)

Record proc := mkProc {
  pr_leaderID : string; pr_rabbit : RabbitPublisher; pr_leaderOwned : bool; pr_phase : phase
}.

Record world (B : Type) := mkWorld {
  w_db : DB; w_now : Z; w_locks : gmap string (string * Z); w_broker : B; w_procs : gmap nat proc
}.
Arguments mkWorld {B} _ _ _ _ _.
Arguments w_db {B} _.
Arguments w_now {B} _.
Arguments w_locks {B} _.
Arguments w_broker {B} _.
Arguments w_procs {B} _.

(** What the other services do to the table: insert an event, requeue one, or
    nothing. *)
Inductive service_write (t : Z) (o : list OutboxRow) : list OutboxRow -> Prop :=
| write_other : service_write t o o
| write_ignore row d : ob_status row = outboxStatusPending -> outbox d = o ->
    service_write t o (outbox (insert_outbox_ignore row d))
| write_upsert row d : ob_status row = outboxStatusPending -> outbox d = o ->
    service_write t o (outbox (upsert_outbox row d))
| write_retry eventID d : outbox d = o -> service_write t o (outbox (retry_event t eventID d)).

Section system.
Context {B : Type} `{Amqp B}.
Context (cfg : OutboxConfig).

Definition env_of (w : world B) (p : proc) (fs : list fault) : env DB (PubX B) :=
  mkEnv (w_db w) (mkPubX (w_locks w) (w_broker w) (pr_rabbit p) (pr_leaderOwned p)) (w_now w) fs.

Definition after (w : world B) (i : nat) (p : proc) (s : env DB (PubX B)) (ph : phase) : world B :=
  mkWorld (db s) (w_now w) (locks (ext s)) (broker (ext s))
    (<[i := mkProc (pr_leaderID p) (rabbit (ext s)) (leaderOwned (ext s)) ph]> (w_procs w)).

(** The label names the leader that gives its lock back. *)
Inductive step : option string -> world B -> world B -> Prop :=
| step_advance w i p fs s ph :
    w_procs w !! i = Some p ->
    advance cfg (pr_leaderID p) (pr_phase p) (env_of w p fs) = (s, Ok ph) ->
    step None w (after w i p s ph)
| step_start w i id :
    w_procs w !! i = None ->
    step None w (mkWorld (w_db w) (w_now w) (w_locks w) (w_broker w)
              (<[i := mkProc id NewRabbitPublisher false Waiting]> (w_procs w)))
| step_crash w i :
    step None w (mkWorld (w_db w) (w_now w) (w_locks w) (w_broker w) (delete i (w_procs w)))
| step_stop w i p fs s :
    w_procs w !! i = Some p ->
    Stop cfg (pr_leaderID p) (env_of w p fs) = (s, Ok tt) ->
    step (Some (pr_leaderID p)) w (mkWorld (db s) (w_now w) (locks (ext s)) (broker (ext s)) (delete i (w_procs w)))
| step_write w d :
    service_write (w_now w) (outbox (w_db w)) (outbox d) ->
    step None w (mkWorld d (w_now w) (w_locks w) (w_broker w) (w_procs w))
| step_time w t :
    w_now w <= t -> step None w (mkWorld (w_db w) t (w_locks w) (w_broker w) (w_procs w)).

Definition steps : world B -> world B -> Prop := rtc (fun w w' => exists l, step l w w').
End system.

(** * Statements as state changes *)

Section cases.
Context {B : Type} `{Amqp B}.
Implicit Types (s : env DB (PubX B)).

(** The UPDATE is executed or not, whatever is answered. *)
Lemma exec_outbox_cases p f s :
  exists s' r, exec_outbox p f s = (s', r) /\ ext s' = ext s /\ now s' = now s /\
    (db s' = db s \/
     db s' = with_outbox (upd_rows (p (now s)) (f (now s)) (outbox (db s))) (db s)).
Proof.
  destruct s as [d x t fs]. unfold exec_outbox, bind, get_now, sql, pop_fault. simpl.
  destruct fs as [|[] fs]; simpl; do 2 eexists; (split; [done|]); auto.
Qed.

(** A call to Redis changes nothing but the locks. *)
Lemma redis_cases {A} (op : Z -> gmap string (string * Z) -> gmap string (string * Z) * A) s :
  exists s' r, redis op s = (s', r) /\ db s' = db s /\ now s' = now s /\
    broker (ext s') = broker (ext s) /\ rabbit (ext s') = rabbit (ext s) /\
    leaderOwned (ext s') = leaderOwned (ext s) /\
    (locks (ext s') = locks (ext s) \/ locks (ext s') = (op (now s) (locks (ext s))).1) /\
    (forall a, r = Ok a -> locks (ext s') = (op (now s) (locks (ext s))).1 /\
       a = (op (now s) (locks (ext s))).2).
Proof.
  destruct s as [d x t fs]. unfold redis, bind, get_now, call, pop_fault. simpl.
  destruct fs as [|[] fs]; simpl; destruct (op t (locks x)) as [m a] eqn:Hop; simpl;
    do 2 eexists; (split; [done|]); simpl; repeat split; auto; try congruence.
Qed.
End cases.

(** * The invariant *)

Definition row_message (cfg : OutboxConfig) (r : OutboxRow) : RabbitMessage :=
  message_of cfg (event_of 0 r).

Definition same_event (r r' : OutboxRow) : Prop :=
  event_id r' = event_id r /\ event_type r' = event_type r /\ ob_payload r' = ob_payload r.

Lemma same_event_message cfg r r' : same_event r r' -> row_message cfg r' = row_message cfg r.
Proof.
  intros (H1&H2&H3). unfold row_message, message_of, event_of. simpl. by rewrite H1, H2, H3.
Qed.

(** Rows stay and keep their events; a row becomes published only if [may]. *)
Definition outbox_evolves (may : OutboxRow -> Prop) (t t' : list OutboxRow) : Prop :=
  (forall i r, t !! i = Some r -> exists r', t' !! i = Some r' /\ same_event r r' /\
     (ob_status r' = outboxStatusPublished -> ob_status r = outboxStatusPublished \/ may r)) /\
  (forall i r', t' !! i = Some r' -> t !! i = None -> ob_status r' <> outboxStatusPublished).

Lemma outbox_evolves_refl may t : outbox_evolves may t t.
Proof. split; [|congruence]. intros i r Hr. exists r. repeat split; auto. Qed.

Lemma upd_rows_evolves (may : OutboxRow -> Prop) p f t :
  (forall r, same_event r (f r)) ->
  (forall i r, t !! i = Some r -> p i r = true -> ob_status (f r) = outboxStatusPublished -> may r) ->
  outbox_evolves may t (upd_rows p f t).
Proof.
  intros Hf Hp. unfold upd_rows. split.
  - intros i r Hr. rewrite list_lookup_imap, Hr. simpl. eexists. split; [done|].
    destruct (p i r) eqn:Hpi; [|by repeat split; auto]. split; [apply Hf|]. intros Hs.
    right. eauto.
  - intros i r'. rewrite list_lookup_imap. intros Hr' Ht. by rewrite Ht in Hr'.
Qed.

Lemma append_evolves may r t :
  ob_status r = outboxStatusPending -> outbox_evolves may t (t ++ [r]).
Proof.
  intros Hr. split.
  - intros i x Hx. exists x. rewrite lookup_app_l by (by eapply lookup_lt_Some). repeat split; auto.
  - intros i x Hx Hn. rewrite lookup_app_r in Hx by (by apply lookup_ge_None).
    apply list_lookup_singleton_Some in Hx as [_ <-]. by rewrite Hr.
Qed.

Lemma requeue_evolves may t p o : outbox_evolves may o (update_rows p (requeue t) o).
Proof.
  replace (update_rows p (requeue t) o) with (upd_rows (fun _ => p) (requeue t) o).
  { apply upd_rows_evolves; [done|]. by intros. }
  unfold upd_rows, update_rows. apply list_eq. intros i.
  by rewrite list_lookup_imap, list_lookup_fmap.
Qed.

Lemma service_write_evolves may t o o' : service_write t o o' -> outbox_evolves may o o'.
Proof.
  intros [|row d Hr <-|row d Hr <-|eid d <-].
  - apply outbox_evolves_refl.
  - unfold insert_outbox_ignore, append_ignore. simpl.
    destruct (existsb _ _); [apply outbox_evolves_refl|by apply append_evolves].
  - unfold upsert_outbox. destruct (existsb _ _); simpl; [apply requeue_evolves|by apply append_evolves].
  - apply requeue_evolves.
Qed.

Section invariant.
Context {B : Type} `{AmqpLaws B}.
Context (cfg : OutboxConfig).
Implicit Types (o : list OutboxRow) (b : B).

(** The row of an event in hand. *)
Definition tracked o (e : outboxEvent) : Prop :=
  exists r, o !! oe_ID e = Some r /\ oe_EventID e = event_id r /\ oe_EventType e = event_type r /\
    oe_Payload e = ob_payload r.

Definition accepted b (e : outboxEvent) : Prop := delivered b (message_of cfg e).

Definition phase_ok o b (ph : phase) : Prop :=
  Forall (tracked o) (in_hand ph) /\
  match ph with Confirmed l => Forall (accepted b) l | _ => True end.

Definition published_ok o b : Prop :=
  forall i r, o !! i = Some r -> ob_status r = outboxStatusPublished ->
    delivered b (row_message cfg r).

Definition proc_ok o b (p : proc) : Prop := rabbit_ok b (pr_rabbit p) /\ phase_ok o b (pr_phase p).

Record world_ok (w : world B) : Prop := mk_world_ok {
  wo_published : published_ok (outbox (w_db w)) (w_broker w);
  wo_procs : forall i p, w_procs w !! i = Some p -> proc_ok (outbox (w_db w)) (w_broker w) p;
  wo_channels : forall i j p q c, w_procs w !! i = Some p -> w_procs w !! j = Some q ->
    rp_ch (pr_rabbit p) = Some c -> rp_ch (pr_rabbit q) = Some c -> i = j
}.

Definition evolves b' o o' : Prop :=
  outbox_evolves (fun r => delivered b' (row_message cfg r)) o o'.

Lemma tracked_evolves b' o o' e : evolves b' o o' -> tracked o e -> tracked o' e.
Proof.
  intros [He _] (r&Hr&H1&H2&H3). destruct (He _ _ Hr) as (r'&Hr'&(E1&E2&E3)&_).
  exists r'. by rewrite E1, E2, E3.
Qed.

Lemma phase_ok_evolves x b b' o o' ph :
  only_touches delivered chan_log x b b' -> evolves b' o o' -> phase_ok o b ph -> phase_ok o' b' ph.
Proof.
  intros Ht He [Htr Hph]. split.
  - eapply Forall_impl; [done|]. intros e. by apply tracked_evolves with b'.
  - destruct ph; try done. eapply Forall_impl; [done|]. intros e. by eapply touches_delivered.
Qed.

Lemma published_ok_evolves x b b' o o' :
  only_touches delivered chan_log x b b' -> evolves b' o o' -> published_ok o b -> published_ok o' b'.
Proof.
  intros Ht [He Hn] Ho i r' Hr' Hs. destruct (o !! i) as [r|] eqn:Hr.
  - destruct (He _ _ Hr) as (r2&Hr2&Hsame&Hp). simplify_eq.
    rewrite (same_event_message cfg _ _ Hsame). destruct (Hp Hs) as [Hold|]; [|done].
    eapply touches_delivered; eauto.
  - by destruct (Hn _ _ Hr' Hr).
Qed.

Lemma rows_evolve_refl b o : evolves b o o.
Proof. apply outbox_evolves_refl. Qed.

(** ** Events that a query returns *)
Lemma due_events_tracked t d : Forall (tracked (outbox d)) (due_events t d).
Proof.
  apply Forall_forall. intros e He. unfold due_events in He.
  apply list_elem_of_omap in He as (x&Hx&Hex). simpl in Hex. unfold id in Hex. subst x.
  apply list_elem_of_lookup in Hx as [i Hi]. rewrite list_lookup_imap in Hi.
  destruct (outbox d !! i) as [r|] eqn:Hr; simplify_eq/=. destruct (due t r); simplify_eq.
  exists r. done.
Qed.

(** ** One statement of a publisher

    [row_op may m]: [m] only changes rows of the outbox, publishing those that
    [may] be. *)
Abbreviation IO := (M DB (PubX B) error).

Definition row_op {A} (may : list OutboxRow -> OutboxRow -> Prop) (m : IO A) : Prop :=
  forall s, ext (m s).1 = ext s /\
    outbox_evolves (may (outbox (db s))) (outbox (db s)) (outbox (db (m s).1)).

Lemma row_op_exec {A} may p f (k : Z -> IO A) :
  (forall a s, (k a s).1 = s) -> (forall t r, same_event r (f t r)) ->
  (forall t o i r, o !! i = Some r -> p t i r = true ->
     ob_status (f t r) = outboxStatusPublished -> may o r) ->
  row_op may (bind (exec_outbox p f) k).
Proof.
  intros Hk Hf Hp s. unfold bind. destruct (exec_outbox_cases p f s) as (s1&r&->&Hx&_&Hd).
  assert (outbox_evolves (may (outbox (db s))) (outbox (db s)) (outbox (db s1))) as He.
  { destruct Hd as [->| ->]; [apply outbox_evolves_refl|]. simpl. apply upd_rows_evolves; eauto. }
  destruct r as [a|e]; [|done]. by rewrite Hk.
Qed.

Lemma row_op_ret {A} may (a : A) : row_op may (ret a).
Proof. intros s. split; [done|]. apply outbox_evolves_refl. Qed.

Lemma row_op_ignore {A} may (m : IO A) : row_op may m -> row_op may (ignore m).
Proof. intros Hm s. unfold ignore. specialize (Hm s). by destruct (m s). Qed.

Lemma require_pure {X} (f : Z -> bool) (g : Z -> error) a (s : env DB X) :
  (require (f a) (g a) s).1 = s.
Proof. by destruct (f a). Qed.

Abbreviation nobody := (fun (_ : list OutboxRow) (_ : OutboxRow) => False).

Lemma recover_row_op : row_op nobody (recoverTimeoutPublishing cfg).
Proof.
  intros s. pose proof (row_op_exec (A := Z) nobody
    (fun t _ r => with_status outboxStatusPublishing r && (ob_update_time r <? t - timeoutSec cfg))
    to_recovered ret) as Hr.
  specialize (Hr ltac:(done) ltac:(done) ltac:(done) s).
  unfold bind, ret in Hr. unfold recoverTimeoutPublishing.
  destruct (exec_outbox _ _ s) as [s' [a|e]]; simpl in *; exact Hr.
Qed.

Lemma markPublishing_row_op l : row_op nobody (markPublishingBatch l).
Proof.
  destruct l as [|e l]; [apply row_op_ret|]. apply row_op_exec; [|done|done].
  intros a s. by apply (require_pure (fun a => a =? _) (fun a => partial _ a _)).
Qed.

Lemma claim_one_row_op evt : row_op nobody (claim_one evt).
Proof. by apply row_op_exec. Qed.

Lemma markRetry_row_op e evt : row_op nobody (markRetry cfg e evt).
Proof.
  apply row_op_exec; [done|done|]. intros t o i r _ _. simpl. unfold next_status.
  by destruct (maxRetries cfg <? _).
Qed.

Lemma markPublished_row_op l b :
  Forall (accepted b) l ->
  row_op (fun o r => Forall (tracked o) l -> delivered b (row_message cfg r)) (markPublishedBatch l).
Proof.
  intros Ha. destruct l as [|e0 l]; [apply row_op_ret|]. apply row_op_exec; [|done|].
  { intros a s. by apply (require_pure (fun a => a =? _) (fun a => partial _ a _)). }
  intros t o i r Hr Hin _ Htr. apply andb_true_iff in Hin as [Hin _]. bools.
  apply list_elem_of_fmap in Hin as (e&->&He).
  rewrite Forall_forall in Ha, Htr. destruct (Htr e He) as (r'&Hr'&E1&E2&E3). simplify_eq.
  replace (row_message cfg r) with (message_of cfg e); [by apply Ha|].
  unfold row_message, message_of, event_of. simpl. by rewrite E1, E2, E3.
Qed.

(** A call that leaves the rows and the broker alone. *)
Definition lock_op {A} (m : IO A) : Prop :=
  forall s, db (m s).1 = db s /\ broker (ext (m s).1) = broker (ext s) /\
    rabbit (ext (m s).1) = rabbit (ext s).

Lemma lock_op_bind {A C} (m : IO A) (k : A -> IO C) :
  lock_op m -> (forall a, lock_op (k a)) -> lock_op (bind m k).
Proof.
  intros Hm Hk s. unfold bind. specialize (Hm s). destruct (m s) as [s' [a|e]]; simpl in *; [|done].
  destruct Hm as (E1&E2&E3). destruct (Hk a s') as (F1&F2&F3). split_and!; congruence.
Qed.

Lemma lock_op_ret {A} (a : A) : lock_op (ret a).
Proof. by intros s. Qed.

Lemma lock_op_redis {A} (op : Z -> gmap string (string * Z) -> gmap string (string * Z) * A) :
  lock_op (redis op).
Proof. intros s. by destruct (redis_cases op s) as (s'&r&->&?&?&?&?&_). Qed.

Lemma ensureLeadership_lock_op id : lock_op (ensureLeadership cfg id).
Proof.
  unfold ensureLeadership. destruct (negb _); [apply lock_op_ret|].
  apply lock_op_bind; [done|]. intros [].
  - apply lock_op_bind; [apply lock_op_redis|]. intros v. by destruct (negb _).
  - apply lock_op_bind; [apply lock_op_redis|]. intros v. by destruct (negb _).
Qed.

Definition advances (s s' : env DB (PubX B)) (ph' : phase) : Prop :=
  own_step (broker (ext s)) (rabbit (ext s)) (broker (ext s')) (rabbit (ext s')) /\
  evolves (broker (ext s')) (outbox (db s)) (outbox (db s')) /\
  phase_ok (outbox (db s')) (broker (ext s')) ph'.

Lemma own_step_refl b p : rabbit_ok b p -> own_step b p b p.
Proof.
  intros Hp. split; [|split; [intros c Hc; by left|done]]. exists None.
  split; [apply touches_refl|apply mine_none].
Qed.

Lemma or_wait_cases {A} (m : IO A) next s s' ph' :
  or_wait m next s = (s', Ok ph') ->
  exists r, m s = (s', r) /\ ph' = match r with Ok a => next a | Err _ => Waiting end.
Proof.
  unfold or_wait, bind, attempt, ret. destruct (m s) as [s1 r]. intros [= <- <-]. eauto.
Qed.

(** A statement on rows: the events in hand stay tracked. *)
Lemma row_op_advances {A} may (m : IO A) s s' r ph' :
  rabbit_ok (broker (ext s)) (rabbit (ext s)) -> row_op may m -> m s = (s', r) ->
  (forall x, may (outbox (db s)) x -> delivered (broker (ext s)) (row_message cfg x)) ->
  phase_ok (outbox (db s)) (broker (ext s)) ph' -> advances s s' ph'.
Proof.
  intros Hb Hm Hms Hmay Hph. destruct (Hm s) as [Hx He]. rewrite Hms in Hx, He. simpl in *.
  assert (evolves (broker (ext s)) (outbox (db s)) (outbox (db s'))) as Hev.
  { destruct He as [H1 H2]. split; [|done]. intros i x Hi.
    destruct (H1 i x Hi) as (x'&?&?&Hp). exists x'. split_and!; [done..|].
    intros Hs. destruct (Hp Hs); auto. }
  unfold advances. rewrite Hx. split; [by apply own_step_refl|]. split; [done|].
  eapply (phase_ok_evolves None); [apply touches_refl|done|done].
Qed.

Lemma lock_op_advances {A} (m : IO A) s s' r ph' :
  rabbit_ok (broker (ext s)) (rabbit (ext s)) -> lock_op m -> m s = (s', r) ->
  phase_ok (outbox (db s)) (broker (ext s)) ph' -> advances s s' ph'.
Proof.
  intros Hb Hm Hms Hph. destruct (Hm s) as (E1&E2&E3). rewrite Hms in E1, E2, E3. simpl in *.
  unfold advances. rewrite E1, E2, E3. split; [by apply own_step_refl|].
  split; [apply rows_evolve_refl|done].
Qed.

Lemma phase_ok_nil o b ph : in_hand ph = [] -> phase_ok o b ph.
Proof.
  intros Hn. split; [by rewrite Hn|]. destruct ph; try done. simpl in Hn. by subst.
Qed.

(** ** Selecting and publishing *)
Lemma select_cases (s : env DB (PubX B)) :
  exists s' r, (raw_db DbError ;;; select_batch cfg : IO _) s = (s', r) /\ db s' = db s /\ ext s' = ext s /\
    forall l, r = Ok l -> Forall (tracked (outbox (db s))) l.
Proof.
  unfold bind. destruct (raw_db_cases DbError s) as (s1&r1&->&Hd&_&Hx&[->| ->]&_).
  2:{ do 2 eexists. split; [done|]. by repeat split. }
  rewrite <- Hd, <- Hx. destruct s1 as [d x t fs]. unfold select_batch, query, bind, get_now, sql, pop_fault.
  simpl. destruct fs as [|[] fs]; simpl; do 2 eexists; (split; [done|]); simpl; repeat split;
    try done; intros l [= <-]; apply Forall_take, due_events_tracked.
Qed.

Lemma publishBatch_cases l (s : env DB (PubX B)) :
  rabbit_ok (broker (ext s)) (rabbit (ext s)) ->
  exists s' r, publishBatch cfg l s = (s', r) /\ db s' = db s /\ locks (ext s') = locks (ext s) /\
    own_step (broker (ext s)) (rabbit (ext s)) (broker (ext s')) (rabbit (ext s')) /\
    forall u, r = Ok u -> Forall (accepted (broker (ext s'))) l.
Proof.
  intros Hb. unfold publishBatch.
  destruct (PublishBatch_spec (RabbitMQURL cfg) (RabbitMQExchange cfg) (map (message_of cfg) l)
    _ _ Hb) as (p'&b'&r&->&Ho&Hr).
  do 2 eexists. split; [done|]. simpl. split_and!; [done..|]. intros u Hu.
  specialize (Hr u Hu). by rewrite Forall_fmap in Hr.
Qed.

(** ** Every phase *)
Lemma advance_ok id ph s s' ph' :
  rabbit_ok (broker (ext s)) (rabbit (ext s)) -> phase_ok (outbox (db s)) (broker (ext s)) ph ->
  advance cfg id ph s = (s', Ok ph') -> advances s s' ph'.
Proof.
  intros Hb [Htr Hph]. destruct ph as [| | |l|[|evt todo] l|l|l|[|evt todo] e]; simpl in *.
  - intros (r&Hm&->)%or_wait_cases. eapply lock_op_advances; [done|apply ensureLeadership_lock_op|done|].
    destruct r as [[]|]; by apply phase_ok_nil.
  - intros (r&Hm&->)%or_wait_cases. eapply row_op_advances; [done|apply recover_row_op|done|done|].
    destruct r; by apply phase_ok_nil.
  - intros (r&Hm&->)%or_wait_cases. destruct (select_cases s) as (s1&r1&Hm1&Hd&Hx&Hl).
    rewrite Hm in Hm1. simplify_eq. unfold advances. rewrite Hd, Hx.
    split; [by apply own_step_refl|]. split; [apply rows_evolve_refl|].
    destruct r1 as [[|e l]|]; [by apply phase_ok_nil| |by apply phase_ok_nil].
    split; [by apply Hl|done].
  - destruct (OutboxSingleActive cfg).
    + intros (r&Hm&->)%or_wait_cases.
      eapply row_op_advances; [done|apply markPublishing_row_op|done|done|].
      destruct r; [by split|by apply phase_ok_nil].
    + intros [= <- <-]. eapply (lock_op_advances (ret tt)); [done|apply lock_op_ret|done|].
      split; [simpl; by rewrite app_nil_r|done].
  - intros [= <- <-]. eapply (lock_op_advances (ret tt)); [done|apply lock_op_ret|done|].
    destruct l; [by apply phase_ok_nil|by split].
  - intros (r&Hm&->)%or_wait_cases.
    eapply row_op_advances; [done|apply claim_one_row_op|done|done|].
    apply Forall_cons in Htr as [He Htr]. apply Forall_app in Htr as [H1 H2].
    destruct r as [[]|]; [| |by apply phase_ok_nil]; (split; [|done]); simpl;
      rewrite ?Forall_app, ?Forall_singleton; auto.
  - unfold bind, attempt, ret. destruct (publishBatch_cases l s Hb) as (s1&r&->&Hd&_&Ho&Hr).
    intros [= <- <-]. unfold advances. rewrite Hd. split; [done|]. split; [apply rows_evolve_refl|].
    destruct r as [u|e]; split; try done. by apply (Hr u).
  - unfold bind, ignore, ret. destruct (markPublishedBatch l s) as [s1 r] eqn:Hm. intros [= <- <-].
    eapply row_op_advances; [done|by apply markPublished_row_op|done| |by apply phase_ok_nil].
    intros x Hx. by apply Hx.
  - intros [= <- <-]. eapply (lock_op_advances (ret tt)); [done|apply lock_op_ret|done|].
    by apply phase_ok_nil.
  - unfold bind, ignore, ret. destruct (markRetry cfg e evt s) as [s1 r] eqn:Hm. intros [= <- <-].
    eapply row_op_advances; [done|apply markRetry_row_op|done|done|].
    by apply Forall_cons in Htr as [_ Htr].
Qed.

(** ** The whole system *)
Lemma Stop_cases id (s : env DB (PubX B)) :
  exists s', Stop cfg id s = (s', Ok tt) /\ db s' = db s /\
    only_touches delivered chan_log None (broker (ext s)) (broker (ext s')).
Proof.
  unfold Stop. set (s0 := if OutboxSingleActive cfg then _ else s).
  assert (lock_op (releaseLeaderLockScript (B := B) (leaderLockKey cfg) id)) as Hr by apply lock_op_redis.
  assert (db s0 = db s /\ broker (ext s0) = broker (ext s)) as [Hd Hx].
  { subst s0. destruct (OutboxSingleActive cfg); [|done]. by destruct (Hr s) as (?&?&_). }
  destruct (resetLocked_spec (rabbit (ext s0)) (broker (ext s0))) as [_ Ht].
  destruct (resetLocked _ _) as [p b]. eexists. split; [done|]. simpl in *. by rewrite <- Hx.
Qed.

(** The others are not disturbed by one publisher's step. *)
Lemma proc_ok_evolves x b b' o o' p :
  only_touches delivered chan_log x b b' -> (forall c, rp_ch (pr_rabbit p) = Some c -> x <> Some c) ->
  evolves b' o o' -> proc_ok o b p -> proc_ok o' b' p.
Proof.
  intros Ht Hx He [Hr Hph]. split; [by eapply rabbit_ok_touches|by eapply phase_ok_evolves].
Qed.

Lemma rabbit_ok_known b p c : rabbit_ok b p -> rp_ch p = Some c -> chan_log b c <> None.
Proof. unfold rabbit_ok. intros Hr Hc. rewrite Hc in Hr. by destruct Hr as (_&_&l&->). Qed.

Lemma step_advance_ok (w : world B) i p fs s ph :
  world_ok w -> w_procs w !! i = Some p ->
  advance cfg (pr_leaderID p) (pr_phase p) (env_of w p fs) = (s, Ok ph) ->
  world_ok (after w i p s ph).
Proof.
  intros [Hpub Hprocs Hch] Hp Hadv. destruct (Hprocs i p Hp) as [Hr Hph].
  destruct (advance_ok _ _ (env_of w p fs) _ _ Hr Hph Hadv) as (((x&Ht&Hmine)&Hmine'&Hr')&He&Hph'). simpl in *.
  assert (forall j q c, w_procs w !! j = Some q -> i <> j -> rp_ch (pr_rabbit q) = Some c ->
    rp_ch (pr_rabbit p) <> Some c /\ chan_log (w_broker w) c <> None) as Hother.
  { intros j q c Hq Hij Hc. split; [intros Hc'; by apply Hij, (Hch i j p q c)|].
    destruct (Hprocs j q Hq) as [Hrq _]. by eapply rabbit_ok_known. }
  split; simpl.
  - by eapply published_ok_evolves.
  - intros j q. rewrite lookup_insert_Some. intros [[<- <-]|[Hij Hq]]; [by split|].
    eapply proc_ok_evolves; [done| |done|by apply (Hprocs j)]. intros c Hc ->.
    destruct (Hother j q c Hq Hij Hc) as [H1 H2]. by destruct (Hmine c eq_refl).
  - assert (forall j q c, w_procs w !! j = Some q -> i <> j ->
      rp_ch (rabbit (ext s)) = Some c -> rp_ch (pr_rabbit q) = Some c -> False) as Hno.
    { intros j q c Hq Hij Hc Hcq. destruct (Hother j q c Hq Hij Hcq) as [H1 H2].
      by destruct (Hmine' c Hc). }
    intros j k q q' c. rewrite !lookup_insert_Some.
    intros [[<- <-]|[Hij Hq]] [[<- <-]|[Hik Hq']]; simpl; [done| | |by eapply Hch].
    + intros Hc Hc'. by destruct (Hno k q' c).
    + intros Hc Hc'. by destruct (Hno j q c).
Qed.

Lemma step_ok l w w' : world_ok w -> step cfg l w w' -> world_ok w'.
Proof.
  intros Hw Hs. destruct Hs as [w i p fs s ph Hp Hadv|w i id Hi|w i|w i p fs s Hp Hst|w d Hd|w t Ht].
  - by eapply step_advance_ok.
  - destruct Hw as [Hpub Hprocs Hch]. split; simpl; [done| |].
    + intros j q. rewrite lookup_insert_Some. intros [[<- <-]|[_ Hq]]; [|by eapply Hprocs].
      split; [done|by apply phase_ok_nil].
    + intros j k q q' c. rewrite !lookup_insert_Some.
      intros [[<- <-]|[Hij Hq]] [[<- <-]|[Hik Hq']]; try done. by eapply Hch.
  - destruct Hw as [Hpub Hprocs Hch]. split; simpl; [done| |].
    + intros j q [_ Hq]%lookup_delete_Some. by eapply Hprocs.
    + intros j k q q' c [_ Hq]%lookup_delete_Some [_ Hq']%lookup_delete_Some. by eapply Hch.
  - destruct Hw as [Hpub Hprocs Hch].
    destruct (Stop_cases (pr_leaderID p) (env_of w p fs)) as (s'&Hst'&Hdb&Ht).
    rewrite Hst in Hst'. simplify_eq. simpl in *. rewrite Hdb. split; simpl.
    + eapply published_ok_evolves; [done|apply rows_evolve_refl|done].
    + intros j q [_ Hq]%lookup_delete_Some. eapply proc_ok_evolves; [done|done|apply rows_evolve_refl|].
      by eapply Hprocs.
    + intros j k q q' c [_ Hq]%lookup_delete_Some [_ Hq']%lookup_delete_Some. by eapply Hch.
  - destruct Hw as [Hpub Hprocs Hch].
    assert (evolves (w_broker w) (outbox (w_db w)) (outbox d)) as He by by eapply service_write_evolves.
    split; simpl; [|intros j q Hq; eapply (proc_ok_evolves None)|done];
      eauto using touches_refl.
    eapply (published_ok_evolves None); eauto using touches_refl.
  - by destruct Hw.
Qed.

Lemma steps_ok w w' : world_ok w -> steps cfg w w' -> world_ok w'.
Proof. intros Hw Hs. induction Hs as [|? ? ? [l Hl]]; eauto using step_ok. Qed.
End invariant.
