(* ===== verification/OutboxLeader.v ===== *)
(** The leader lock of the outbox publishers: while a leader's lease runs, no
    other publisher becomes leader, whatever happens to the leader meanwhile; and
    the turn of the loop of [Start] as a run of the interleaved system. *)

From S2P Require Import Prelude Effects Sql OrderStore Outbox OutboxSteps.

Section lease.
Context {B : Type} `{Amqp B}.
Context (cfg : OutboxConfig).
Abbreviation key := (leaderLockKey cfg).
Abbreviation ttl := (leaderLockTTL cfg).
Abbreviation IO := (M DB (PubX B) error).
Implicit Types (m : gmap string (string * Z)) (s : env DB (PubX B)).

(** [id] has the lock at least until [u]. *)
Definition leased (id : string) (u : Z) m : Prop :=
  exists expiry, m !! key = Some (id, expiry) /\ u <= expiry.

Lemma leased_holder id u m t : leased id u m -> t < u -> holder t key m = Some id.
Proof.
  intros (e&He&Hu) Ht. unfold holder. rewrite He. by replace (t <? e) with true by lia.
Qed.

Lemma leased_insert id u m e : u <= e -> leased id u (<[key := (id, e)]> m).
Proof. intros Hu. exists e. by rewrite lookup_insert_eq. Qed.

Lemma leaderLockTTL_ge : 30 <= ttl.
Proof. unfold leaderLockTTL. destruct (_ <? 30) eqn:?; bools; lia. Qed.

(** What [ensureLeadership] does to the lease of [id]. *)
Lemma ensureLeadership_lease id id' u s s' r :
  OutboxSingleActive cfg = true -> leased id u (locks (ext s)) -> now s < u -> u <= now s + ttl ->
  ensureLeadership cfg id' s = (s', r) ->
  leased id u (locks (ext s')) /\ (id' <> id -> r <> Ok true).
Proof.
  intros Hsa Hl Ht Hu. pose proof (leased_holder _ _ _ _ Hl Ht) as Hh.
  unfold ensureLeadership. rewrite Hsa. cbn [negb].
  unfold bind at 1. unfold get_leaderOwned at 1. cbn [fst snd].
  destruct (leaderOwned (ext s)); cbn [negb]; unfold bind at 1.
  - unfold renewLeaderLockScript.
    match goal with |- context [redis ?op s] => destruct (redis_cases op s) as (s1&r1&->&_&_&_&_&_&Hlk&Hok) end.
    rewrite Hh in Hlk, Hok.
    assert (leased id u (locks (ext s1))) as Hl1.
    { destruct Hlk as [->| ->]; [done|]. case_bool_decide as Hid; [|done].
      injection Hid as ->. apply leased_insert. lia. }
    destruct r1 as [v|e]; [|intros [= <- <-]; by split].
    destruct (Hok v eq_refl) as [_ ->]. case_bool_decide as Hid; cbn.
    + intros [= <- <-]. split; [done|]. intros Hne. by injection Hid as ->.
    + intros [= <- <-]. by split.
  - unfold SetnxEx.
    match goal with |- context [redis ?op s] => destruct (redis_cases op s) as (s1&r1&->&_&_&_&_&_&Hlk&Hok) end.
    rewrite Hh in Hlk, Hok. cbn in Hlk, Hok.
    assert (leased id u (locks (ext s1))) as Hl1 by (by destruct Hlk as [->| ->]).
    destruct r1 as [v|e]; [|intros [= <- <-]; by split].
    destruct (Hok v eq_refl) as [_ ->]. cbn. intros [= <- <-]. by split.
Qed.

(** A publisher that becomes leader has the lock for [ttl] seconds. *)
Lemma ensureLeadership_takes id s s' :
  OutboxSingleActive cfg = true -> ensureLeadership cfg id s = (s', Ok true) ->
  leased id (now s + ttl) (locks (ext s')).
Proof.
  intros Hsa. unfold ensureLeadership. rewrite Hsa. cbn [negb].
  unfold bind at 1. unfold get_leaderOwned at 1. cbn [fst snd].
  destruct (leaderOwned (ext s)); cbn [negb]; unfold bind at 1.
  - unfold renewLeaderLockScript.
    match goal with |- context [redis ?op s] => destruct (redis_cases op s) as (s1&r1&->&_&_&_&_&_&_&Hok) end.
    destruct r1 as [v|e]; [|done]. destruct (Hok v eq_refl) as [Hlk ->]. clear Hok.
    case_bool_decide as Hid; cbn in Hlk |- *; [|done].
    intros [= <-]. rewrite Hlk. by apply leased_insert.
  - unfold SetnxEx.
    match goal with |- context [redis ?op s] => destruct (redis_cases op s) as (s1&r1&->&_&_&_&_&_&_&Hok) end.
    destruct r1 as [v|e]; [|done]. destruct (Hok v eq_refl) as [Hlk ->]. clear Hok.
    destruct (holder (now s) key (locks (ext s))); cbn in Hlk |- *; [done|].
    intros [= <-]. cbn. rewrite Hlk. by apply leased_insert.
Qed.

(** ** Steps *)

(** A field of the environment that a computation leaves alone. *)
Definition leaves {A T} (f : env DB (PubX B) -> T) (m : IO A) : Prop := forall s, f (m s).1 = f s.

Section leaves.
Context {T : Type} (f : env DB (PubX B) -> T).

Lemma leaves_bind {A C} (m : IO A) (k : A -> IO C) :
  leaves f m -> (forall a, leaves f (k a)) -> leaves f (bind m k).
Proof.
  intros Hm Hk s. unfold bind. specialize (Hm s). destruct (m s) as [s' [a|e]]; simpl in *; [|done].
  by rewrite Hk.
Qed.
Lemma leaves_attempt {A} (m : IO A) : leaves f m -> leaves f (attempt m).
Proof. intros Hm s. specialize (Hm s). unfold attempt. by destruct (m s). Qed.
Lemma leaves_ignore {A} (m : IO A) : leaves f m -> leaves f (ignore m).
Proof. intros Hm s. specialize (Hm s). unfold ignore. by destruct (m s). Qed.
Lemma leaves_ret {A} (a : A) : leaves f (ret a).
Proof. done. Qed.
Lemma leaves_require b e : leaves f (require b e).
Proof. by destruct b. Qed.
Lemma leaves_get_now : leaves f get_now.
Proof. done. Qed.
End leaves.

(** Statements other than those on the lock do not touch it; none moves the
    clock. *)
Definition lock_table (s : env DB (PubX B)) : gmap string (string * Z) := locks (ext s).

Lemma sql_leaves {A} (op : DB -> DB * A) e : leaves lock_table (sql op e) /\ leaves now (sql op e).
Proof.
  split; intros [d x t fs]; unfold sql, pop_fault; simpl;
    destruct fs as [|[] fs]; simpl; by destruct (op d).
Qed.
Lemma publish_leaves l : leaves lock_table (publishBatch cfg l) /\ leaves now (publishBatch cfg l).
Proof. split; intros s; unfold publishBatch; by destruct (PublishBatch _ _ _ _ _) as [[]]. Qed.
Lemma redis_leaves {A} (op : Z -> gmap string (string * Z) -> gmap string (string * Z) * A) :
  leaves now (redis (B := B) op).
Proof. intros s. by destruct (redis_cases op s) as (s'&r&->&_&?&_). Qed.

Ltac leaves :=
  repeat first [apply leaves_ret | apply leaves_get_now | apply leaves_require | apply sql_leaves
    | apply publish_leaves | apply redis_leaves | apply leaves_attempt | apply leaves_ignore
    | (apply leaves_bind; [|intros ?]) | done
    | match goal with
      | |- leaves _ (match ?x with _ => _ end) => destruct x
      | |- leaves _ (if ?x then _ else _) => destruct x
      end].

Lemma exec_outbox_leaves p f : leaves lock_table (exec_outbox p f) /\ leaves now (exec_outbox p f).
Proof. split; unfold exec_outbox; leaves. Qed.

Lemma advance_no_lock id ph : ph <> Waiting -> leaves lock_table (advance cfg id ph).
Proof.
  intros Hph.
  destruct ph as [| | |l|[|evt todo] l|l|l|[|evt todo] e]; [done|..]; cbn [advance];
    unfold or_wait, recoverTimeoutPublishing, select_batch, query, raw_db, markPublishingBatch,
      markPublishedBatch, claim_one, markRetry, exec_outbox; leaves.
Qed.

Lemma advance_now id ph : leaves now (advance cfg id ph).
Proof.
  destruct ph as [| | |l|[|evt todo] l|l|l|[|evt todo] e]; cbn [advance];
    unfold or_wait, ensureLeadership, SetnxEx, renewLeaderLockScript, get_leaderOwned, set_leaderOwned,
      recoverTimeoutPublishing, select_batch, query, raw_db, markPublishingBatch,
      markPublishedBatch, claim_one, markRetry, exec_outbox; leaves.
Qed.

(** Every step but the leader's own release keeps the lease. *)
Lemma step_keeps_lease l (w w' : world B) id u :
  OutboxSingleActive cfg = true -> step cfg l w w' -> l <> Some id ->
  leased id u (w_locks w) -> w_now w < u -> u <= w_now w + ttl ->
  leased id u (w_locks w') /\ w_now w <= w_now w'.
Proof.
  intros Hsa Hs Hl Hle Ht Hu.
  destruct Hs as [w i p fs s ph Hp Hadv|w i id' Hi|w i|w i p fs s Hp Hst|w d Hd|w t Hw]; simpl;
    try (split; [done|lia]).
  - split; [|lia]. destruct (decide (pr_phase p = Waiting)) as [Hw|Hw].
    + rewrite Hw in Hadv. simpl in Hadv. apply or_wait_cases in Hadv as (r&Hm&_).
      by destruct (ensureLeadership_lease id _ u (env_of w p fs) _ _ Hsa Hle Ht Hu Hm).
    + pose proof (advance_no_lock (pr_leaderID p) (pr_phase p) Hw (env_of w p fs)) as Hn.
      rewrite Hadv in Hn. unfold lock_table in Hn. simpl in Hn. by rewrite Hn.
  - split; [|lia]. unfold Stop in Hst. rewrite Hsa in Hst.
    assert (leased id u (locks (ext (releaseLeaderLockScript key (pr_leaderID p) (env_of w p fs)).1))) as Hrel.
    { unfold releaseLeaderLockScript.
      match goal with |- context [redis ?op ?s] =>
        destruct (redis_cases op s) as (s1&r1&->&_&_&_&_&_&Hlk&_) end.
      cbn in Hlk |- *. rewrite (leased_holder _ _ _ _ Hle Ht) in Hlk.
      rewrite bool_decide_eq_false_2 in Hlk by congruence. by destruct Hlk as [->| ->]. }
    destruct (resetLocked _ _) as [p' b']. injection Hst as <-. done.
Qed.

Definition steps_without (id : string) : world B -> world B -> Prop :=
  rtc (fun w w' => exists l, step cfg l w w' /\ l <> Some id).

Lemma steps_keep_lease (w w' : world B) id u :
  OutboxSingleActive cfg = true -> steps_without id w w' ->
  leased id u (w_locks w) -> u <= w_now w + ttl -> w_now w' < u ->
  leased id u (w_locks w') /\ u <= w_now w' + ttl.
Proof.
  intros Hsa Hs. induction Hs as [w|w w1 w2 (l&Hst&Hl) Hs IH]; [done|]. intros Hle Hu Ht.
  assert (forall a b, steps_without id a b -> w_now a <= w_now b) as Hmono.
  { intros a b Hab. induction Hab as [|a b c (l'&Hst'&_) _ IHab]; [lia|].
    enough (w_now a <= w_now b) by lia. destruct Hst'; simpl; lia. }
  pose proof (Hmono _ _ Hs) as Ht1.
  assert (w_now w <= w_now w1) as Ht0.
  { apply Hmono. apply rtc_once. eauto. }
  destruct (step_keeps_lease _ _ _ id u Hsa Hst Hl Hle) as [Hle1 _]; [lia|done|].
  apply IH; [done|lia|done].
Qed.
End lease.

(** * One turn of the loop as steps of the system *)

Section turn.
Context {B : Type} `{Amqp B}.
Context (cfg : OutboxConfig).
Implicit Types (s : env DB (PubX B)).

(** A run of one publisher by itself. *)
Inductive runs (id : string) : env DB (PubX B) -> phase -> env DB (PubX B) -> phase -> Prop :=
| runs_refl s ph : runs id s ph s ph
| runs_step s ph s1 ph1 s2 ph2 :
    advance cfg id ph s = (s1, Ok ph1) -> runs id s1 ph1 s2 ph2 -> runs id s ph s2 ph2.

Lemma runs_trans id s1 ph1 s2 ph2 s3 ph3 :
  runs id s1 ph1 s2 ph2 -> runs id s2 ph2 s3 ph3 -> runs id s1 ph1 s3 ph3.
Proof. induction 1; eauto using runs. Qed.

Lemma runs_once id s ph s' ph' : advance cfg id ph s = (s', Ok ph') -> runs id s ph s' ph'.
Proof. eauto using runs. Qed.

Lemma runs_now id s ph s' ph' : runs id s ph s' ph' -> now s' = now s.
Proof.
  induction 1 as [|s ph s1 ph1 s2 ph2 Ha _ IH]; [done|].
  pose proof (advance_now cfg id ph s) as Hn. rewrite Ha in Hn. simpl in Hn. congruence.
Qed.

Lemma or_wait_run {A} (m : M DB (PubX B) error A) next s s' r :
  m s = (s', r) ->
  or_wait m next s = (s', Ok (match r with Ok a => next a | Err _ => Waiting end)).
Proof. unfold or_wait, bind, attempt, ret. by intros ->. Qed.

Lemma claim_each_runs id l done_ s s' r :
  claim_each l s = (s', r) ->
  runs id s (Claiming l done_) s'
    (match r with
     | Ok won => match done_ ++ won with [] => Waiting | all => Claimed all end
     | Err _ => Waiting
     end).
Proof.
  revert done_ s s' r. induction l as [|e l IH]; intros dn s s' r; simpl.
  - unfold ret. intros [= <- <-]. rewrite app_nil_r. apply runs_once. by destruct dn.
  - unfold bind at 1. destruct (claim_one e s) as [s1 [won|err]] eqn:Hc.
    + unfold bind. destruct (claim_each l s1) as [s2 r2] eqn:Hl.
      intros Hr. eapply runs_step; [simpl; apply (or_wait_run _ _ _ _ _ Hc)|].
      pose proof (IH (if won then dn ++ [e] else dn) s1 s2 r2 Hl) as Hrun.
      destruct r2 as [cl|err]; unfold ret in Hr; injection Hr as <- <-; [|done].
      destruct won; [|done]. by rewrite <- app_assoc in Hrun.
    + intros [= <- <-]. apply runs_once. simpl. by apply (or_wait_run _ _ _ _ _ Hc).
Qed.

Lemma retry_all_runs id l e s :
  runs id s (Retrying l e) (for_each (fun evt => ignore (markRetry cfg e evt)) l s).1 Waiting /\
  (for_each (fun evt => ignore (markRetry cfg e evt)) l s).2 = Ok tt.
Proof.
  revert s. induction l as [|evt l IH]; intros s; cbn [for_each].
  - split; [by apply runs_once|done].
  - unfold bind, ignore at 1 3. destruct (markRetry cfg e evt s) as [s1 r] eqn:Hm.
    destruct (IH s1) as [Hr Ho]. split; [|done]. eapply runs_step; [|done].
    simpl. unfold bind, ignore, ret. by rewrite Hm.
Qed.

(** [publishBatch] and the marking of its outcome. *)
Definition settle (events : list outboxEvent) : M DB (PubX B) error Z :=
  published <- attempt (publishBatch cfg events) ;;
  match published with
  | Err err => for_each (fun evt => ignore (markRetry cfg err evt)) events ;;;
               ret (Z.of_nat (length events))
  | Ok _ => ignore (markPublishedBatch events) ;;; ret (Z.of_nat (length events))
  end.

Lemma settle_eq l s :
  settle l s =
    (match publishBatch cfg l s with
     | (s1, Ok _) => (ignore (markPublishedBatch l) s1).1
     | (s1, Err e) => (for_each (fun evt => ignore (markRetry cfg e evt)) l s1).1
     end, Ok (Z.of_nat (length l))).
Proof.
  unfold settle, bind at 1, attempt. destruct (publishBatch cfg l s) as [s1 [u|e]].
  - unfold bind, ignore. by destruct (markPublishedBatch l s1).
  - unfold bind. destruct (retry_all_runs "" l e s1) as [_ Ho].
    destruct (for_each _ l s1) as [s2 r]. simpl in Ho. by subst r.
Qed.

Lemma settle_runs id l s :
  runs id s (Claimed l) (settle l s).1 Waiting /\ (settle l s).2 = Ok (Z.of_nat (length l)).
Proof.
  rewrite settle_eq. split; [|done]. destruct (publishBatch cfg l s) as [s1 [u|e]] eqn:Hp; simpl.
  - eapply runs_step; [simpl; unfold bind, attempt; by rewrite Hp|].
    apply runs_once. simpl. unfold bind, ignore, ret. by destruct (markPublishedBatch l s1).
  - eapply runs_step; [simpl; unfold bind, attempt; by rewrite Hp|apply retry_all_runs].
Qed.

Lemma claimBatch_runs id s s' r :
  claimBatch cfg s = (s', r) ->
  runs id s Recovered s' (match r with Ok ((_ :: _) as l) => Claimed l | _ => Waiting end).
Proof.
  unfold claimBatch, bind at 1. destruct (raw_db DbError s) as [s1 [u|e]] eqn:Hraw.
  2:{ intros [= <- <-]. apply runs_once. simpl.
      assert ((raw_db DbError ;;; select_batch cfg) s = (s1, Err e)) as Hm by (unfold bind; by rewrite Hraw).
      by apply (or_wait_run _ _ _ _ _ Hm). }
  unfold bind at 1. destruct (select_batch cfg s1) as [s2 [l|e]] eqn:Hsel.
  2:{ intros [= <- <-]. apply runs_once. simpl.
      assert ((raw_db DbError ;;; select_batch cfg) s = (s2, Err e)) as Hm
        by (unfold bind; by rewrite Hraw, Hsel).
      by apply (or_wait_run _ _ _ _ _ Hm). }
  assert ((raw_db DbError ;;; select_batch cfg) s = (s2, Ok l)) as Hm
    by (unfold bind; by rewrite Hraw, Hsel).
  intros Hr. eapply runs_step; [simpl; apply (or_wait_run _ _ _ _ _ Hm)|].
  destruct l as [|e l].
  { unfold ret in Hr. injection Hr as <- <-. apply runs_refl. }
  destruct (OutboxSingleActive cfg) eqn:Hsa.
  - unfold bind in Hr. destruct (markPublishingBatch (e :: l) s2) as [s3 r3] eqn:Hmk.
    apply runs_once. simpl. rewrite Hsa. rewrite (or_wait_run _ _ _ _ _ Hmk).
    destruct r3; unfold ret in Hr; by injection Hr as <- <-.
  - eapply runs_step; [simpl; by rewrite Hsa|].
    pose proof (claim_each_runs id (e :: l) [] s2 s' r Hr) as Hrun. simpl in Hrun.
    by destruct r as [[|]|].
Qed.

(** The loop body is the composition of the statements. *)
Lemma processOnce_eq s :
  processOnce cfg s =
    match recoverTimeoutPublishing cfg s with
    | (s1, Err e) => (s1, Err e)
    | (s1, Ok _) =>
        match claimBatch cfg s1 with
        | (s2, Err e) => (s2, Err e)
        | (s2, Ok []) => (s2, Ok 0)
        | (s2, Ok l) => settle l s2
        end
    end.
Proof.
  unfold processOnce. unfold bind at 1. destruct (recoverTimeoutPublishing cfg s) as [s1 [n|e]]; [|done].
  unfold bind at 1. by destruct (claimBatch cfg s1) as [s2 [[|e l]|err]].
Qed.

Lemma turn_eq id s :
  turn cfg id s =
    match ensureLeadership cfg id s with
    | (s1, Ok true) =>
        match processOnce cfg s1 with
        | (s2, Ok n) => (s2, Ok (batchWasFull cfg n))
        | (s2, Err _) => (s2, Ok false)
        end
    | (s1, _) => (s1, Ok false)
    end.
Proof.
  unfold turn, bind, attempt. destruct (ensureLeadership cfg id s) as [s1 [[]|e]]; [|done..].
  by destruct (processOnce cfg s1) as [s2 []].
Qed.

Lemma processOnce_runs id s : runs id s Leading (processOnce cfg s).1 Waiting.
Proof.
  rewrite processOnce_eq. destruct (recoverTimeoutPublishing cfg s) as [s1 [n|e]] eqn:Hrec;
    pose proof (or_wait_run _ (fun _ => Recovered) _ _ _ Hrec) as Ha; [|by apply runs_once].
  eapply runs_step; [exact Ha|]. destruct (claimBatch cfg s1) as [s2 r] eqn:Hcl.
  pose proof (claimBatch_runs id _ _ _ Hcl) as Hc. destruct r as [[|evt l]|e]; [done| |done].
  eapply runs_trans; [done|]. apply (settle_runs id (evt :: l)).
Qed.

Lemma turn_runs id s : runs id s Waiting (turn cfg id s).1 Waiting.
Proof.
  rewrite turn_eq. destruct (ensureLeadership cfg id s) as [s1 lead] eqn:Hlead.
  pose proof (or_wait_run _ (fun b : bool => if b then Leading else Waiting) _ _ _ Hlead) as Ha.
  destruct lead as [[]|e]; [|by apply runs_once..].
  eapply runs_step; [exact Ha|]. pose proof (processOnce_runs id s1) as Hrun.
  by destruct (processOnce cfg s1) as [s2 []].
Qed.

(** In the system, with the publisher's fields read from the world. *)
Lemma runs_steps id s ph s' ph' i (w : world B) p :
  runs id s ph s' ph' -> w_procs w !! i = Some p -> pr_leaderID p = id -> pr_phase p = ph ->
  s = env_of w p (faults s) -> steps cfg w (after w i p s' ph').
Proof.
  intros Hr. revert w p. induction Hr as [s ph|s ph s1 ph1 s2 ph2 Hadv Hr IH]; intros w p Hp Hid Hph Hs.
  - replace (after w i p s ph) with w; [done|]. subst id ph. rewrite Hs. destruct w as [d t l b ps].
    unfold after, env_of. simpl in *. f_equal. rewrite insert_id; [done|]. by destruct p.
  - assert (now s1 = now s) as Hnow.
    { pose proof (advance_now cfg id ph s) as Hn. by rewrite Hadv in Hn. }
    set (w1 := after w i p s1 ph1).
    eapply rtc_l; [exists None; eapply (step_advance cfg w i p (faults s) s1 ph1 Hp)|].
    { rewrite Hid, Hph, <- Hs. done. }
    fold w1. set (p1 := mkProc (pr_leaderID p) (rabbit (ext s1)) (leaderOwned (ext s1)) ph1).
    replace (after w i p s2 ph2) with (after w1 i p1 s2 ph2).
    { apply IH; [by apply lookup_insert_eq|done|done|].
      unfold env_of. simpl. destruct s1 as [d1 x1 t1 f1]. simpl in *. destruct x1. simpl. f_equal.
      rewrite Hnow, Hs. done. }
    unfold after. simpl. by rewrite insert_insert_eq.
Qed.
End turn.
