(* ===== verification/OutboxWork.v ===== *)
(** The loop of the outbox publisher ends and makes progress: the turns that
    follow each other without waiting for the ticker are bounded by the work
    found, under every schedule of faults; and without faults, with a healthy
    broker, the turns publish every event that is due. *)

From S2P Require Import Prelude Effects Sql OrderStore Outbox OutboxSteps OutboxLeader.

(** * Counting rows *)

Section rows.
Implicit Types (o : list OutboxRow) (f : OutboxRow -> OutboxRow) (w : OutboxRow -> bool).

Definition count_rows w o : Z := sumZ (fun r => if w r then 1 else 0) o.

Lemma count_rows_nonneg w o : 0 <= count_rows w o.
Proof. unfold count_rows. apply sumZ_nonneg, Forall_forall. intros r _. destruct (w r); lia. Qed.

Lemma upd_rows_cons (p : nat -> OutboxRow -> bool) f r o :
  upd_rows p f (r :: o) = (if p O r then f r else r) :: upd_rows (fun i => p (S i)) f o.
Proof. done. Qed.

Lemma lookup_upd_rows (p : nat -> OutboxRow -> bool) f o i :
  upd_rows p f o !! i = (fun r => if p i r then f r else r) <$> o !! i.
Proof. apply list_lookup_imap. Qed.

Lemma count_rows_cons w r o : count_rows w (r :: o) = (if w r then 1 else 0) + count_rows w o.
Proof. done. Qed.

Lemma affected_at_cons (p : nat -> OutboxRow -> bool) f r o :
  affected_at p f (r :: o) =
    (if p O r && negb (bool_decide (f r = r)) then 1 else 0) + affected_at (fun i => p (S i)) f o.
Proof. done. Qed.

(** An update that makes no new work. *)
Lemma count_upd_le w (p : nat -> OutboxRow -> bool) f o :
  (forall i r, p i r = true -> w (f r) = true -> w r = true) ->
  count_rows w (upd_rows p f o) <= count_rows w o.
Proof.
  revert p. induction o as [|r o IH]; intros p Hp; [done|]. rewrite upd_rows_cons.
  rewrite !count_rows_cons. specialize (IH (fun i => p (S i)) ltac:(intros i x; apply Hp)).
  pose proof (Hp O r) as Hr. destruct (p O r); [|lia].
  destruct (w (f r)), (w r); lia.
Qed.

(** An update that finishes the work of every row it matches. *)
Lemma count_upd_drop w (p : nat -> OutboxRow -> bool) f o :
  (forall i r, o !! i = Some r -> p i r = true -> w r = true /\ w (f r) = false) ->
  count_rows w (upd_rows p f o) + affected_at p f o <= count_rows w o.
Proof.
  revert p. induction o as [|r o IH]; intros p Hp; [done|]. rewrite upd_rows_cons.
  rewrite !count_rows_cons, affected_at_cons.
  specialize (IH (fun i => p (S i)) ltac:(intros i x Hx; by apply (Hp (S i)))).
  pose proof (Hp O r eq_refl) as Hr.
  destruct (p O r); [|destruct (w r); simpl in *; lia].
  destruct (Hr eq_refl) as [-> ->]. destruct (negb _); simpl in *; lia.
Qed.

(** [RowsAffected] when the matching rows are at the positions [ids]. *)
Lemma affected_at_nonneg (p : nat -> OutboxRow -> bool) f o : 0 <= affected_at p f o.
Proof.
  revert p. induction o as [|r o IH]; intros p; [done|]. rewrite affected_at_cons.
  specialize (IH (fun i => p (S i))). destruct (_ && _); lia.
Qed.

Lemma affected_at_ext (p q : nat -> OutboxRow -> bool) f o :
  (forall i r, o !! i = Some r -> p i r = q i r) -> affected_at p f o = affected_at q f o.
Proof.
  revert p q. induction o as [|r o IH]; intros p q Hpq; [done|]. rewrite !affected_at_cons.
  rewrite (Hpq O r eq_refl). f_equal. apply IH. intros i x Hx. by apply (Hpq (S i)).
Qed.

Lemma affected_at_split (p : nat -> OutboxRow -> bool) f o i r :
  o !! i = Some r -> p i r = true -> f r <> r ->
  affected_at p f o = 1 + affected_at (fun j x => p j x && negb (j =? i)%nat) f o.
Proof.
  revert p i. induction o as [|x o IH]; intros p [|i] Hi Hp Hf; simplify_eq/=; rewrite !affected_at_cons.
  - rewrite Hp, bool_decide_eq_false_2 by done. cbn. f_equal. apply affected_at_ext.
    intros j y _. cbn. by rewrite andb_true_r.
  - rewrite (IH (fun j => p (S j)) i Hi Hp Hf). cbn. rewrite andb_true_r. lia.
Qed.

Lemma affected_at_ids (p : nat -> OutboxRow -> bool) f o ids :
  NoDup ids ->
  (forall i, i ∈ ids -> exists r, o !! i = Some r /\ p i r = true /\ f r <> r) ->
  (forall i r, o !! i = Some r -> p i r = true -> i ∈ ids) ->
  affected_at p f o = Z.of_nat (length ids).
Proof.
  intros Hnd. revert p. induction Hnd as [|i ids Hi Hnd IH]; intros p Hin Hall.
  - rewrite (affected_at_ext p (fun _ _ => false)).
    + clear. induction o as [|r o IH]; [done|]. by rewrite affected_at_cons, IH.
    + intros i r Hr. destruct (p i r) eqn:Hp; [|done]. by apply (Hall i r) in Hp; [apply elem_of_nil in Hp|].
  - destruct (Hin i ltac:(by left)) as (r&Hr&Hp&Hf).
    rewrite (affected_at_split p f o i r Hr Hp Hf).
    rewrite (IH (fun j x => p j x && negb (j =? i)%nat)); cbn [length]; [lia| |].
    + intros j Hj. destruct (Hin j ltac:(by right)) as (x&?&Hpx&?). exists x.
      rewrite Hpx. destruct (Nat.eqb_spec j i); [by subst|]. by repeat split.
    + intros j x Hx Hpj. apply andb_true_iff in Hpj as [Hpj Hji].
      apply negb_true_iff, Nat.eqb_neq in Hji.
      pose proof (Hall j x Hx Hpj) as Hj. by apply elem_of_cons in Hj as [->|].
Qed.
End rows.

(** * The work of a turn

    Rows that a turn at time [t] may claim: events that are due, and claims
    abandoned long enough to be recovered. *)
Section work.
Context (cfg : OutboxConfig).

Definition stale (t : Z) (r : OutboxRow) : bool :=
  with_status outboxStatusPublishing r && (ob_update_time r <? t - timeoutSec cfg).

Definition work (t : Z) (r : OutboxRow) : bool := due t r || stale t r.

Definition pending_work (t : Z) (o : list OutboxRow) : Z := count_rows (work t) o.

Lemma timeoutSec_pos : 0 < timeoutSec cfg.
Proof. unfold timeoutSec. destruct (_ <=? 0) eqn:?; bools; lia. Qed.
Lemma retrySec_pos : 0 < retrySec cfg.
Proof. unfold retrySec. destruct (_ <=? 0) eqn:?; bools; lia. Qed.
Lemma batchSize_pos : 0 < batchSize cfg.
Proof. unfold batchSize. destruct (_ <=? 0) eqn:?; bools; lia. Qed.

Lemma to_publishing_no_work t r : work t (to_publishing t r) = false.
Proof.
  unfold work, due, stale, with_status. simpl. pose proof timeoutSec_pos.
  by replace (t <? t - timeoutSec cfg) with false by lia.
Qed.
Lemma to_published_no_work t r : work t (to_published t r) = false.
Proof. done. Qed.
Lemma to_retry_no_work t a msg r :
  work t (to_retry (next_status cfg a) a (retrySec cfg) msg t r) = false.
Proof.
  unfold work, due, stale, with_status, next_status. simpl. pose proof retrySec_pos.
  destruct (maxRetries cfg <? a); [done|]. simpl.
  by replace (t + retrySec cfg <=? t) with false by lia.
Qed.

Lemma due_events_due t d e r :
  e ∈ due_events t d -> outbox d !! oe_ID e = Some r -> due t r = true.
Proof.
  intros He Hr. unfold due_events in He.
  apply list_elem_of_omap in He as (x&Hx&Hex). simpl in Hex. unfold id in Hex. subst x.
  apply list_elem_of_lookup in Hx as [i Hi]. rewrite list_lookup_imap in Hi.
  destruct (outbox d !! i) as [r'|] eqn:Hr'; simplify_eq/=. destruct (due t r') eqn:Hd; simplify_eq/=.
  congruence.
Qed.

Context {B : Type} `{Amqp B}.
Abbreviation IO := (M DB (PubX B) error).
Implicit Types (s : env DB (PubX B)).
Abbreviation left_work s := (pending_work (now s) (outbox (db s))).

Lemma exec_outbox_Ok p f s s' a :
  exec_outbox (B := B) p f s = (s', Ok a) ->
  db s' = with_outbox (upd_rows (p (now s)) (f (now s)) (outbox (db s))) (db s) /\
  a = affected_at (p (now s)) (f (now s)) (outbox (db s)) /\ now s' = now s.
Proof.
  destruct s as [d x t fs]. unfold exec_outbox, bind, get_now, sql, pop_fault. simpl.
  destruct fs as [|[] fs]; simpl; intros [= <- <-]; done.
Qed.

(** A computation that makes no new work. *)
Definition no_new_work {A} (m : IO A) : Prop :=
  forall s, left_work (m s).1 <= left_work s /\ now (m s).1 = now s.

Lemma no_new_work_bind {A C} (m : IO A) (k : A -> IO C) :
  no_new_work m -> (forall a, no_new_work (k a)) -> no_new_work (bind m k).
Proof.
  intros Hm Hk s. unfold bind. specialize (Hm s). destruct (m s) as [s' [a|e]]; simpl in *; [|done].
  specialize (Hk a s'). lia.
Qed.

Lemma no_new_work_ret {A} (a : A) : no_new_work (ret a).
Proof. intros s. split; [simpl; lia|done]. Qed.

Lemma no_new_work_require b e : no_new_work (require b e).
Proof. intros s. destruct b; split; simpl; (lia || done). Qed.

Lemma no_new_work_ignore {A} (m : IO A) : no_new_work m -> no_new_work (ignore m).
Proof. intros Hm s. unfold ignore. specialize (Hm s). by destruct (m s). Qed.

Lemma no_new_work_exec p f :
  (forall t i r, p t i r = true -> work t (f t r) = true -> work t r = true) ->
  no_new_work (exec_outbox p f).
Proof.
  intros Hp s. destruct (exec_outbox_cases p f s) as (s'&r&->&_&Hn&Hd). simpl.
  split; [|done]. rewrite Hn. destruct Hd as [->| ->]; [lia|]. by apply count_upd_le, Hp.
Qed.

Lemma no_new_work_for_each {A} (f : A -> IO unit) l :
  (forall x, no_new_work (f x)) -> no_new_work (for_each f l).
Proof.
  intros Hf. induction l; cbn [for_each]; [apply no_new_work_ret|by apply no_new_work_bind].
Qed.

Lemma recover_no_new_work : no_new_work (recoverTimeoutPublishing cfg).
Proof.
  apply no_new_work_exec. intros t i r Hp _. unfold work, stale. by rewrite Hp, orb_true_r.
Qed.

Lemma markPublished_no_new_work l : no_new_work (markPublishedBatch l).
Proof.
  destruct l as [|e l]; [apply no_new_work_ret|]. apply no_new_work_bind.
  - apply no_new_work_exec. by intros.
  - intros a. apply no_new_work_require.
Qed.

Lemma markRetry_no_new_work e evt : no_new_work (markRetry cfg e evt).
Proof.
  apply no_new_work_bind; [|intros; apply no_new_work_ret]. apply no_new_work_exec.
  intros t i r _. by rewrite to_retry_no_work.
Qed.

Lemma publish_db l s : db (publishBatch cfg l s).1 = db s /\ now (publishBatch cfg l s).1 = now s.
Proof. unfold publishBatch. by destruct (PublishBatch _ _ _ _ _) as [[]]. Qed.

Lemma settle_no_new_work l : no_new_work (settle cfg l).
Proof.
  intros s. rewrite settle_eq. simpl. destruct (publish_db l s) as [Hd Hn].
  destruct (publishBatch cfg l s) as [s1 [u|e]]; simpl in *; rewrite <- Hd, <- Hn.
  - apply (no_new_work_ignore (markPublishedBatch l)), markPublished_no_new_work.
  - apply (no_new_work_for_each (fun evt => ignore (markRetry cfg e evt))).
    intros x. apply no_new_work_ignore, markRetry_no_new_work.
Qed.

(** ** Claiming *)

(** The candidates that are still pending are due. *)
Definition due_if_pending (s : env DB (PubX B)) (l : list outboxEvent) : Prop :=
  forall e r, e ∈ l -> outbox (db s) !! oe_ID e = Some r ->
    with_status outboxStatusPending r = true -> due (now s) r = true.

Lemma claim_exec_work s s' a l :
  exec_outbox (fun _ => in_ids (map oe_ID l) outboxStatusPending) to_publishing s = (s', Ok a) ->
  due_if_pending s l -> 0 <= a /\ left_work s' + a <= left_work s /\ now s' = now s.
Proof.
  intros (Hd&->&Hn)%exec_outbox_Ok Hl. split; [apply affected_at_nonneg|]. split; [|done]. rewrite Hn, Hd. apply count_upd_drop.
  intros i r Hr Hp. split; [|by apply to_publishing_no_work].
  apply andb_true_iff in Hp as [Hi Hp]. bools. apply list_elem_of_fmap in Hi as (e&->&He).
  unfold work. by rewrite (Hl e r He Hr Hp).
Qed.

Lemma claim_one_Ok s s' e w :
  claim_one e s = (s', Ok w) ->
  exists a, exec_outbox (fun _ => in_ids (map oe_ID [e]) outboxStatusPending) to_publishing s = (s', Ok a)
    /\ w = (a =? 1).
Proof.
  unfold claim_one, bind, ret.
  destruct (exec_outbox (fun _ => in_ids [oe_ID e] outboxStatusPending) to_publishing s) as [s1 [a|err]] eqn:He;
    [|done].
  intros [= <- <-]. eauto.
Qed.

Lemma due_if_pending_exec s s' a l l' :
  exec_outbox (fun _ => in_ids (map oe_ID l) outboxStatusPending) to_publishing s = (s', Ok a) ->
  due_if_pending s l' -> due_if_pending s' l'.
Proof.
  intros (Hd&_&Hn)%exec_outbox_Ok Hl e r He. rewrite Hd, Hn. simpl. rewrite lookup_upd_rows.
  destruct (outbox (db s) !! oe_ID e) as [r0|] eqn:Hr0; [|done]. simpl.
  destruct (in_ids _ _ _ r0); intros [= <-]; [done|]. by apply (Hl e).
Qed.

Lemma claim_each_work l s s' won :
  due_if_pending s l -> claim_each l s = (s', Ok won) ->
  left_work s' + Z.of_nat (length won) <= left_work s /\ now s' = now s.
Proof.
  revert s s' won. induction l as [|e l IH]; intros s s' won Hl; cbn [claim_each].
  { unfold ret. intros [= <- <-]. simpl. split; [lia|done]. }
  unfold bind at 1. destruct (claim_one e s) as [s1 [w|err]] eqn:Hc; [|done].
  apply claim_one_Ok in Hc as (a&He&->).
  assert (due_if_pending s1 l) as Hl1.
  { eapply due_if_pending_exec; [done|]. intros e' r He'. apply Hl. by right. }
  apply claim_exec_work in He as (Ha&Hw&Hn).
  2:{ intros e' r He'. apply Hl. apply list_elem_of_singleton in He' as ->. by left. }
  unfold bind, ret. destruct (claim_each l s1) as [s2 [cl|err]] eqn:Hcl; [|done].
  intros [= <- <-]. destruct (IH _ _ _ Hl1 Hcl) as [Hw2 Hn2].
  destruct (Z.eqb_spec a 1); simpl; split; (congruence || lia).
Qed.

Lemma raw_db_Ok s s' u : raw_db DbError s = (s', Ok u) -> db s' = db s /\ now s' = now s.
Proof. by destruct (raw_db_cases DbError s) as (s1&r&->&?&?&_); intros [= <- _]. Qed.

Lemma select_batch_Ok s s' l :
  select_batch cfg s = (s', Ok l) ->
  db s' = db s /\ now s' = now s /\ l = take (Z.to_nat (batchSize cfg)) (due_events (now s) (db s)).
Proof.
  destruct s as [d x t fs]. unfold select_batch, query, bind, get_now, sql, pop_fault. simpl.
  destruct fs as [|[] fs]; simpl; intros [= <- <-]; done.
Qed.

(** Every event claimed is work done. *)
Lemma claimBatch_work s s' l :
  claimBatch cfg s = (s', Ok l) ->
  left_work s' + Z.of_nat (length l) <= left_work s /\ now s' = now s.
Proof.
  unfold claimBatch, bind at 1. destruct (raw_db DbError s) as [s1 [u|e]] eqn:Hraw; [|done].
  apply raw_db_Ok in Hraw as [Hd1 Hn1].
  unfold bind at 1. destruct (select_batch cfg s1) as [s2 [c|e]] eqn:Hsel; [|done].
  apply select_batch_Ok in Hsel as (Hd2&Hn2&Hc).
  assert (due_if_pending s2 c) as Hdue.
  { intros e r He Hr _. rewrite Hd2 in Hr. rewrite Hn2. eapply due_events_due; [|done].
    subst c. rewrite Hn1, Hd1 in He. rewrite <- Hd1, <- Hn1 in He. by eapply subseteq_take. }
  rewrite <- Hd1, <- Hn1, <- Hd2, <- Hn2. clear Hc Hd1 Hd2 Hn1 Hn2.
  destruct c as [|e c]; [unfold ret; intros [= <- <-]; simpl; split; [lia|done]|].
  destruct (OutboxSingleActive cfg); [|by apply claim_each_work].
  unfold markPublishingBatch, bind, ret.
  destruct (exec_outbox _ _ s2) as [s3 [a|err]] eqn:He; [|done].
  apply claim_exec_work in He as (_&Hw&Hn); [|done].
  unfold require. destruct (a =? Z.of_nat (length (e :: c))) eqn:Ha; [|done].
  bools. subst a. unfold ret. intros [= <- <-]. done.
Qed.

(** ** A turn that is followed at once by another has done work *)
Lemma processOnce_work s s' n :
  processOnce cfg s = (s', Ok n) -> left_work s' + n <= left_work s /\ now s' = now s.
Proof.
  rewrite processOnce_eq. pose proof (recover_no_new_work s) as [Hw1 Hn1].
  destruct (recoverTimeoutPublishing cfg s) as [s1 [k|e]]; [|done]. simpl in *.
  destruct (claimBatch cfg s1) as [s2 [l|e]] eqn:Hcl; [|done].
  apply claimBatch_work in Hcl as [Hw2 Hn2].
  pose proof (settle_no_new_work l s2) as [Hw3 Hn3].
  assert ((settle cfg l s2).2 = Ok (Z.of_nat (length l))) as Hr by by rewrite settle_eq.
  destruct l as [|evt l]; [intros [= <- <-]; simpl in *; split; (lia || congruence)|].
  destruct (settle cfg (evt :: l) s2) as [s3 r]. cbn [fst snd] in Hw3, Hn3, Hr. subst r.
  cbn [length] in *. intros [= <- <-]. split; (lia || congruence).
Qed.

Lemma leadership_work id s :
  db (ensureLeadership cfg id s).1 = db s /\ now (ensureLeadership cfg id s).1 = now s.
Proof.
  pose proof (advance_now cfg id Waiting s) as Hn. unfold advance in Hn.
  destruct (ensureLeadership cfg id s) as [s' r] eqn:He.
  unfold or_wait, bind, attempt, ret in Hn. rewrite He in Hn. split; [|done].
  pose proof (ensureLeadership_lock_op cfg id s) as [Hd _]. by rewrite He in Hd.
Qed.

Lemma turn_work id s :
  (exists again, (turn cfg id s).2 = Ok again /\
     (again = true -> left_work (turn cfg id s).1 < left_work s)) /\
  now (turn cfg id s).1 = now s.
Proof.
  rewrite turn_eq. destruct (leadership_work id s) as [Hd Hn].
  destruct (ensureLeadership cfg id s) as [s1 [[]|e]]; simpl in Hd, Hn; [|by split; [exists false|]..].
  rewrite <- Hd, <- Hn. destruct (processOnce cfg s1) as [s2 [n|e]] eqn:Hp.
  - apply processOnce_work in Hp as [Hw Hn2]. split; [|done]. eexists. split; [done|].
    unfold batchWasFull. intros Hb. bools. pose proof batchSize_pos. simpl. lia.
  - split; [by exists false|]. simpl.
    pose proof (runs_now cfg id _ _ _ _ (processOnce_runs cfg id s1)) as Hx. by rewrite Hp in Hx.
Qed.

(** The turns end within the work found at the start. *)
Lemma turns_end id fuel s : left_work s < Z.of_nat fuel -> (turns cfg id fuel s).2 = Ok true.
Proof.
  revert s. induction fuel as [|fuel IH]; intros s Hf.
  { pose proof (count_rows_nonneg (work (now s)) (outbox (db s))). unfold pending_work in Hf. lia. }
  cbn [turns]. unfold bind. destruct (turn_work id s) as [(again&Hr&Hw) Hn].
  destruct (turn cfg id s) as [s1 r]. simpl in *. subst r. destruct again; [|done].
  apply IH. specialize (Hw eq_refl). lia.
Qed.
End work.
