(* ===== verification/OutboxDelivery.v ===== *)
(** Progress of the outbox publisher: without faults, with a broker that accepts
    its batches and the leadership free or its own, the turns of one tick publish
    every event that is due. *)

From S2P Require Import Prelude Effects Sql OrderStore Outbox OutboxSteps OutboxLeader OutboxWork.

(** * The events a query selects *)

Section due.
Implicit Types (t : Z) (d : DB).

Lemma due_events_elem t d e :
  e ∈ due_events t d <-> exists i r, outbox d !! i = Some r /\ due t r = true /\ e = event_of i r.
Proof.
  unfold due_events. rewrite list_elem_of_omap. split.
  - intros (x&Hx&Hex). simpl in Hex. unfold id in Hex. subst x.
    apply list_elem_of_lookup in Hx as [i Hi]. rewrite list_lookup_imap in Hi.
    destruct (outbox d !! i) as [r|] eqn:Hr; simplify_eq/=. destruct (due t r) eqn:Hd; simplify_eq/=.
    eauto.
  - intros (i&r&Hr&Hd&->). exists (Some (event_of i r)). split; [|done].
    apply list_elem_of_lookup. exists i. rewrite list_lookup_imap, Hr. simpl. by rewrite Hd.
Qed.

Definition due_in t (o : list OutboxRow) : list outboxEvent :=
  omap id (imap (fun i r => if due t r then Some (event_of i r) else None) o).

Lemma due_in_ids t o : NoDup (map oe_ID (due_in t o)) /\ forall i, i ∈ map oe_ID (due_in t o) -> (i < length o)%nat.
Proof.
  induction o as [|r o [IH1 IH2]] using rev_ind; [by split; [constructor|intros i Hi%elem_of_nil]|].
  unfold due_in in *. rewrite imap_app, omap_app, map_app, length_app.
  assert (forall i, i ∈ map oe_ID (omap id (imap ((fun i r => if due t r then Some (event_of i r) else None) ∘ (Nat.add (length o))) [r]))
    -> i = length o) as Hlast.
  { intros i. simpl. rewrite Nat.add_0_r. destruct (due t r); simpl; [|by intros ?%elem_of_nil].
    by intros ->%list_elem_of_singleton. }
  split.
  - apply NoDup_app. split; [done|]. split.
    + intros i Hi Hi'%Hlast. apply IH2 in Hi. lia.
    + simpl. destruct (due t r); simpl; [apply NoDup_singleton|constructor].
  - intros i [Hi|Hi]%elem_of_app; [apply IH2 in Hi; simpl; lia|apply Hlast in Hi; simpl; lia].
Qed.

Lemma due_batch_ids t d n : NoDup (map oe_ID (take n (due_events t d))).
Proof.
  change (NoDup (oe_ID <$> take n (due_events t d))). rewrite fmap_take.
  destruct (due_in_ids t (outbox d)) as [Hnd _].
  by eapply sublist_NoDup; [|apply sublist_take].
Qed.
End due.

(** * A turn without faults *)

Section turn.
Context (cfg : OutboxConfig) {B : Type} `{Amqp B}.
Implicit Types (s : env DB (PubX B)).

(** The leadership can be taken or renewed. *)
Definition can_lead (id : string) (s : env DB (PubX B)) : Prop :=
  OutboxSingleActive cfg = true ->
  holder (now s) (leaderLockKey cfg) (locks (ext s)) = (if leaderOwned (ext s) then Some id else None).

Definition same_but_db s s' : Prop :=
  ext s' = ext s /\ now s' = now s /\ faults s' = faults s.

Lemma exec_no_faults p f s :
  no_faults s ->
  exec_outbox p f s =
    (set_db (with_outbox (upd_rows (p (now s)) (f (now s)) (outbox (db s))) (db s)) s,
     Ok (affected_at (p (now s)) (f (now s)) (outbox (db s)))).
Proof. intros Hf. unfold exec_outbox, bind, get_now. by rewrite sql_no_faults. Qed.

Lemma redis_no_faults {A} (op : Z -> gmap string (string * Z) -> gmap string (string * Z) * A) s :
  no_faults s ->
  redis op s =
    (set_ext (mkPubX (op (now s) (locks (ext s))).1 (broker (ext s)) (rabbit (ext s)) (leaderOwned (ext s))) s,
     Ok (op (now s) (locks (ext s))).2).
Proof.
  intros Hf. unfold redis, bind, get_now. rewrite call_no_faults by done.
  by destruct (op (now s) (locks (ext s))).
Qed.

Lemma holder_insert t key id u m : t < u -> holder t key (<[key := (id, u)]> m) = Some id.
Proof. intros Hu. unfold holder. rewrite lookup_insert_eq. by replace (t <? u) with true by lia. Qed.

Lemma leadership_taken id s :
  no_faults s -> can_lead id s ->
  exists s', ensureLeadership cfg id s = (s', Ok true) /\ no_faults s' /\ can_lead id s' /\
    db s' = db s /\ now s' = now s /\ broker (ext s') = broker (ext s) /\ rabbit (ext s') = rabbit (ext s).
Proof.
  intros Hf Hl. unfold ensureLeadership, can_lead in *.
  destruct (OutboxSingleActive cfg) eqn:Hsa; [|by exists s]. cbn [negb]. specialize (Hl eq_refl).
  unfold bind at 1. unfold get_leaderOwned at 1. cbn [fst snd]. pose proof (leaderLockTTL_ge cfg).
  destruct (leaderOwned (ext s)) eqn:How; cbn [negb].
  - unfold bind at 1. unfold renewLeaderLockScript. rewrite redis_no_faults by done.
    rewrite Hl, bool_decide_eq_true_2 by done. cbn. eexists. split; [done|]. cbn.
    split_and!; try done. intros _. rewrite How. apply holder_insert. lia.
  - unfold bind at 1. unfold SetnxEx. rewrite redis_no_faults by done. rewrite Hl. cbn.
    eexists. split; [done|]. cbn. split_and!; try done. intros _. apply holder_insert. lia.
Qed.

(** ** Claiming *)

Definition claimed_rows (t : Z) (ids : list nat) (o o' : list OutboxRow) : Prop :=
  forall i, o' !! i = (fun r => if bool_decide (i ∈ ids) then to_publishing t r else r) <$> o !! i.

Definition all_pending (ids : list nat) (o : list OutboxRow) : Prop :=
  forall i, i ∈ ids -> exists r, o !! i = Some r /\ with_status outboxStatusPending r = true.

Lemma to_publishing_changes t r :
  with_status outboxStatusPending r = true -> to_publishing t r <> r.
Proof. unfold with_status. intros Hs Heq. bools. rewrite <- Heq in Hs. done. Qed.

Lemma claim_exec_no_faults ids s :
  no_faults s -> NoDup ids -> all_pending ids (outbox (db s)) ->
  exists s', exec_outbox (fun _ => in_ids ids outboxStatusPending) to_publishing s =
      (s', Ok (Z.of_nat (length ids))) /\ same_but_db s s' /\
    claimed_rows (now s) ids (outbox (db s)) (outbox (db s')).
Proof.
  intros Hf Hnd Hall. eexists. split; [rewrite exec_no_faults by done; f_equal; f_equal|].
  - apply affected_at_ids; [done| |].
    + intros i Hi. destruct (Hall i Hi) as (r&Hr&Hp). exists r. unfold in_ids.
      rewrite Hp, bool_decide_eq_true_2 by done. split_and!; [done..|]. by apply to_publishing_changes.
    + intros i r _ Hp. apply andb_true_iff in Hp as [Hp _]. by bools.
  - split; [done|]. intros i. simpl. rewrite lookup_upd_rows.
    destruct (outbox (db s) !! i) as [r|] eqn:Hr; [|done]. simpl. unfold in_ids.
    case_bool_decide as Hi; [|done]. destruct (Hall i Hi) as (r'&Hr'&Hp).
    rewrite Hr in Hr'. injection Hr' as <-. by rewrite Hp.
Qed.

Lemma claim_each_no_faults l s :
  no_faults s -> NoDup (map oe_ID l) -> all_pending (map oe_ID l) (outbox (db s)) ->
  exists s', claim_each l s = (s', Ok l) /\ same_but_db s s' /\
    claimed_rows (now s) (map oe_ID l) (outbox (db s)) (outbox (db s')).
Proof.
  revert s. induction l as [|e l IH]; intros s Hf Hnd Hall; cbn [claim_each].
  { exists s. split; [done|]. split; [done|]. intros i. by destruct (_ !! i). }
  cbn [map] in Hnd. apply NoDup_cons in Hnd as [He Hnd].
  destruct (claim_exec_no_faults [oe_ID e] s Hf) as (s1&Hex&(Hx&Hn&Hfs)&Hr1).
  { apply NoDup_singleton. }
  { intros i ->%list_elem_of_singleton. apply Hall. by left. }
  destruct (IH s1) as (s2&Hcl&(Hx2&Hn2&Hfs2)&Hr2).
  { unfold no_faults in *. congruence. }
  { done. }
  { intros i Hi. destruct (Hall i ltac:(by right)) as (r&Hr&Hp). exists r. split; [|done].
    rewrite Hr1, Hr. simpl. rewrite bool_decide_eq_false_2; [done|].
    intros ->%list_elem_of_singleton. done. }
  exists s2. split.
  { unfold bind, claim_one. unfold bind. rewrite Hex. unfold ret. by rewrite Hcl. }
  split; [repeat split; congruence|]. intros i. rewrite Hr2, Hr1, Hn.
  destruct (outbox (db s) !! i) as [r|]; [|done]. simpl. f_equal.
  destruct (decide (i = oe_ID e)) as [->|Hie].
  - rewrite (bool_decide_eq_false_2 (_ ∈ map oe_ID l)) by done.
    rewrite !bool_decide_eq_true_2; [done|by left|by left].
  - rewrite (bool_decide_eq_false_2 (i ∈ [_])) by (by intros ?%list_elem_of_singleton).
    rewrite (bool_decide_ext (i ∈ map oe_ID l) (i ∈ map oe_ID (e :: l))); [done|].
    simpl. rewrite elem_of_cons. naive_solver.
Qed.

Abbreviation batch t d := (take (Z.to_nat (batchSize cfg)) (due_events t d)).

Lemma batch_pending t d : all_pending (map oe_ID (batch t d)) (outbox d).
Proof.
  intros i Hi. apply list_elem_of_fmap in Hi as (e&->&He%subseteq_take).
  apply due_events_elem in He as (j&r&Hr&Hd&->). exists r. split; [done|].
  unfold due in Hd. by apply andb_true_iff in Hd as [? _].
Qed.

Lemma claimBatch_no_faults s :
  no_faults s ->
  exists s', claimBatch cfg s = (s', Ok (batch (now s) (db s))) /\ same_but_db s s' /\
    claimed_rows (now s) (map oe_ID (batch (now s) (db s))) (outbox (db s)) (outbox (db s')).
Proof.
  intros Hf. unfold claimBatch, bind at 1.
  destruct (raw_db_cases DbError s) as (s1&r1&Hraw&_&_&_&_&Hok).
  destruct (Hok Hf) as [-> ->]. rewrite Hraw. unfold bind at 1.
  replace (select_batch cfg s) with (set_db (db s) s, Ok (E := error) (batch (now s) (db s))).
  2:{ unfold select_batch, bind, get_now, query. by rewrite sql_no_faults. }
  assert (set_db (db s) s = s) as -> by by destruct s.
  pose proof (batch_pending (now s) (db s)) as Hall.
  pose proof (due_batch_ids (now s) (db s) (Z.to_nat (batchSize cfg))) as Hnd.
  destruct (batch (now s) (db s)) as [|e l] eqn:Hb.
  { exists s. split; [done|]. split; [done|]. intros i. by destruct (_ !! i). }
  destruct (OutboxSingleActive cfg); [|by apply claim_each_no_faults].
  destruct (claim_exec_no_faults _ s Hf Hnd Hall) as (s2&Hex&Hs&Hr).
  exists s2. split; [|done]. unfold markPublishingBatch. unfold bind. rewrite Hex.
  rewrite length_map, Z.eqb_refl. done.
Qed.

(** ** Publishing

    [healthy] publishers: whatever batch they are given, the broker accepts it
    and they stay healthy. *)
Variable healthy : RabbitPublisher -> B -> Prop.
Hypothesis healthy_publishes : forall ms p b, healthy p b ->
  exists p' b', PublishBatch (RabbitMQURL cfg) (RabbitMQExchange cfg) ms p b = (p', b', Ok tt) /\
    healthy p' b'.

Definition ready (id : string) (s : env DB (PubX B)) : Prop :=
  no_faults s /\ can_lead id s /\ healthy (rabbit (ext s)) (broker (ext s)).

(** The rows of the batch are published, the others stay as they are. *)
Definition published_rows (t : Z) (ids : list nat) (o o' : list OutboxRow) : Prop :=
  forall i r, o !! i = Some r -> exists r', o' !! i = Some r' /\
    (i ∈ ids -> ob_status r' = outboxStatusPublished /\ ob_payload r' = ob_payload r /\
       published_at r' = Some t) /\
    (i ∉ ids -> r' = r).

Lemma markPublished_state l s :
  l <> [] -> no_faults s ->
  (ignore (markPublishedBatch l) s).1 =
    set_db (with_outbox (upd_rows (in_ids (map oe_ID l) outboxStatusPublishing) (to_published (now s))
      (outbox (db s))) (db s)) s.
Proof.
  intros Hl Hf. destruct l as [|e l]; [done|]. unfold ignore, markPublishedBatch, bind.
  rewrite exec_no_faults by done. unfold require. by destruct (_ =? _).
Qed.

Lemma settle_published id l s s1 :
  l <> [] -> ready id s -> same_but_db s s1 -> all_pending (map oe_ID l) (outbox (db s)) ->
  claimed_rows (now s) (map oe_ID l) (outbox (db s)) (outbox (db s1)) ->
  exists s', settle cfg l s1 = (s', Ok (Z.of_nat (length l))) /\ ready id s' /\ now s' = now s /\
    published_rows (now s) (map oe_ID l) (outbox (db s)) (outbox (db s')).
Proof.
  intros Hne (Hf&Hl&Hh) (Hx&Hn&Hfs) Hall Hr. rewrite settle_eq. unfold publishBatch.
  rewrite Hx. destruct (healthy_publishes (map (message_of cfg) l) _ _ Hh) as (p'&b'&->&Hh').
  rewrite markPublished_state; [|done|unfold no_faults in *; simpl; congruence].
  eexists. split; [done|]. split; [|split; [done|]].
  - split; [|split; [|done]]; unfold no_faults, can_lead in *; simpl; [congruence|]. by rewrite Hn.
  - intros i r Hi. simpl. rewrite lookup_upd_rows, Hr, Hi. simpl. eexists. split; [done|].
    unfold in_ids. case_bool_decide as Hid; [|done]. simpl. rewrite Hn.
    split; [done|]. by intros [].
Qed.

(** ** A turn *)

(** Published and due rows through the recovery of abandoned claims. *)
Lemma recovered_rows s :
  no_faults s ->
  exists s', recoverTimeoutPublishing cfg s = (s', Ok (affected_at
      (fun _ r => stale cfg (now s) r) (to_recovered (now s)) (outbox (db s)))) /\ same_but_db s s' /\
    forall i r, outbox (db s) !! i = Some r -> stale cfg (now s) r = false ->
      outbox (db s') !! i = Some r.
Proof.
  intros Hf. unfold recoverTimeoutPublishing. rewrite exec_no_faults by done. eexists. split; [done|].
  split; [done|]. intros i r Hr Hst. simpl. rewrite lookup_upd_rows, Hr. simpl.
  change (with_status outboxStatusPublishing r && (ob_update_time r <? now s - timeoutSec cfg))
    with (stale cfg (now s) r). by rewrite Hst.
Qed.

Lemma due_not_stale t r : due t r = true -> stale cfg t r = false.
Proof.
  unfold due, stale, with_status, outboxStatusPublishing, outboxStatusPending. intros Hd. bools.
  by replace (ob_status r =? 2) with false by lia.
Qed.

(** What a turn leaves of an event that was due or published. *)
Definition kept (t : Z) (r r' : OutboxRow) : Prop :=
  ob_payload r' = ob_payload r /\
  (ob_status r' = outboxStatusPublished \/ r' = r /\ due t r = true).

Lemma turn_ready id s :
  ready id s ->
  exists again s', turn cfg id s = (s', Ok again) /\ ready id s' /\ now s' = now s /\
    forall i r, outbox (db s) !! i = Some r ->
      ob_status r = outboxStatusPublished \/ due (now s) r = true ->
      exists r', outbox (db s') !! i = Some r' /\ kept (now s) r r' /\
        (again = false -> ob_status r' = outboxStatusPublished).
Proof.
  intros (Hf&Hl&Hh). rewrite turn_eq.
  destruct (leadership_taken id s Hf Hl) as (s1&->&Hf1&Hl1&Hd1&Hn1&Hb1&Hp1).
  rewrite processOnce_eq.
  destruct (recovered_rows s1 Hf1) as (s2&->&(Hx2&Hn2&Hfs2)&Hr2).
  assert (ready id s2) as Hrd2.
  { unfold ready, no_faults, can_lead in *. rewrite Hfs2, Hx2, Hn2, Hb1, Hp1. done. }
  destruct (claimBatch_no_faults s2 (proj1 Hrd2)) as (s3&->&Hs3&Hr3).
  set (l := take (Z.to_nat (batchSize cfg)) (due_events (now s2) (db s2))) in *.
  assert (now s2 = now s) as Hn by congruence.
  assert (forall i r, outbox (db s) !! i = Some r ->
    ob_status r = outboxStatusPublished \/ due (now s) r = true -> outbox (db s2) !! i = Some r) as Hkeep.
  { intros i r Hr Hc. apply Hr2; [by rewrite Hd1|]. rewrite Hn1. destruct Hc as [Hc|Hc].
    - unfold stale, with_status. by rewrite Hc.
    - by apply due_not_stale. }
  assert (forall again s4, (again = false -> Z.of_nat (length l) < batchSize cfg) ->
    published_rows (now s2) (map oe_ID l) (outbox (db s2)) (outbox (db s4)) ->
    forall i r, outbox (db s) !! i = Some r ->
      ob_status r = outboxStatusPublished \/ due (now s) r = true ->
      exists r', outbox (db s4) !! i = Some r' /\ kept (now s) r r' /\
        (again = false -> ob_status r' = outboxStatusPublished)) as Hrows.
  { intros again s4 Hfull Hpub i r Hr Hc.
    destruct (Hpub i r (Hkeep i r Hr Hc)) as (r'&Hr'&Hin&Hout). exists r'. split; [done|].
    destruct (decide (i ∈ map oe_ID l)) as [Hi|Hi].
    - destruct (Hin Hi) as (H1&H2&_). split; [split; auto|done].
    - rewrite (Hout Hi). destruct Hc as [Hc|Hc]; [by split; [split; auto|]|].
      split; [split; auto|]. intros Ha. destruct Hi. specialize (Hfull Ha).
      apply list_elem_of_fmap. exists (event_of i r). split; [done|].
      assert (event_of i r ∈ due_events (now s2) (db s2)) as He.
      { apply due_events_elem. exists i, r. split; [by apply Hkeep; auto|]. by rewrite Hn. }
      subst l. rewrite length_take in Hfull. pose proof (batchSize_pos cfg).
      rewrite take_ge by lia. done. }
  destruct l as [|e l'] eqn:El.
  - exists false, s3. split.
    { unfold batchWasFull. pose proof (batchSize_pos cfg). by replace (batchSize cfg <=? 0) with false by lia. }
    destruct Hs3 as (Hx3&Hn3&Hfs3). split; [|split; [congruence|]].
    { unfold ready, no_faults, can_lead in *. by rewrite Hfs3, Hx3, Hn3. }
    apply Hrows; [intros _; simpl; apply batchSize_pos|].
    intros i r Hr. exists r. specialize (Hr3 i). rewrite Hr in Hr3. split; [done|].
    split; [by intros ?%elem_of_nil|done].
  - rewrite <- El in *. assert (l <> []) as Hne by (by rewrite El).
    destruct (settle_published id l s2 s3 Hne Hrd2 Hs3 (batch_pending _ _) Hr3) as (s4&->&Hrd4&Hn4&Hp4).
    exists (batchWasFull cfg (Z.of_nat (length l))), s4. split; [done|]. split; [done|].
    split; [congruence|]. apply Hrows; [|done]. unfold batchWasFull. intros Hb. bools. lia.
Qed.

Lemma turns_publish id fuel s i r :
  ready id s -> pending_work cfg (now s) (outbox (db s)) < Z.of_nat fuel ->
  outbox (db s) !! i = Some r -> ob_status r = outboxStatusPublished \/ due (now s) r = true ->
  exists r', outbox (db (turns cfg id fuel s).1) !! i = Some r' /\ ob_payload r' = ob_payload r /\
    ob_status r' = outboxStatusPublished.
Proof.
  revert s r. induction fuel as [|fuel IH]; intros s r Hrd Hf Hr Hc.
  { pose proof (count_rows_nonneg (work cfg (now s)) (outbox (db s))). unfold pending_work in Hf. lia. }
  cbn [turns]. unfold bind. destruct (turn_ready id s Hrd) as (again&s'&Ht&Hrd'&Hn&Hrows).
  destruct (turn_work cfg id s) as [(again'&Ha&Hw) _]. rewrite Ht in Ha, Hw |- *. simpl in Ha, Hw.
  injection Ha as <-. destruct (Hrows i r Hr Hc) as (r'&Hr'&[Hpl Hk]&Hlast).
  destruct again; [|exists r'; simpl; auto].
  destruct (IH s' r' Hrd') as (r2&Hr2&Hpl2&Hst2); [specialize (Hw eq_refl); lia|done| |].
  { destruct Hk as [Hk|[-> Hk]]; [by left|right]. by rewrite Hn. }
  exists r2. split; [done|]. split; [congruence|done].
Qed.
End turn.
