(* ===== verification/OutboxGuarantees.v ===== *)
(** What the outbox publisher guarantees: published events have been accepted by
    the broker and dead ones have used up their attempts, leadership is exclusive
    for the length of a lease, the turns of a tick end, and without faults they
    publish what is due.  With a concrete broker and runs of it. *)

From S2P Require Import Prelude Effects Sql OrderStore Outbox OutboxSteps OutboxLeader OutboxWork OutboxDelivery.

(** * Attempts *)

Section attempts.
Context (cfg : OutboxConfig).

Definition attempts_ok (r : OutboxRow) : Prop :=
  ob_status r = outboxStatusDead -> maxRetries cfg < attempt_count r.

Definition outbox_attempts (d : DB) : Prop := Forall attempts_ok (outbox d).

Lemma attempts_upd (p : nat -> OutboxRow -> bool) f o :
  (forall r, attempts_ok r -> attempts_ok (f r)) -> Forall attempts_ok o ->
  Forall attempts_ok (upd_rows p f o).
Proof.
  intros Hf Ho. apply Forall_lookup. intros i r. rewrite lookup_upd_rows.
  destruct (o !! i) as [x|] eqn:Hx; [|done]. intros [= <-]. rewrite Forall_lookup in Ho.
  specialize (Ho i x Hx). destruct (p i x); auto.
Qed.

Lemma attempts_write t o o' :
  service_write t o o' -> Forall attempts_ok o -> Forall attempts_ok o'.
Proof.
  assert (forall r, ob_status r = outboxStatusPending -> attempts_ok r) as Hpend.
  { intros r Hr Hd. by rewrite Hr in Hd. }
  assert (forall p (o : list OutboxRow) t, Forall attempts_ok o ->
    Forall attempts_ok (update_rows p (requeue t) o)) as Hreq.
  { intros p x t' Hx. unfold update_rows. apply Forall_map. eapply Forall_impl; [done|].
    intros r Hr. simpl. destruct (p r); [by apply Hpend|done]. }
  intros [|row d Hr <-|row d Hr <-|eid d <-] Ho; [done| | |by apply Hreq].
  - unfold insert_outbox_ignore, append_ignore. simpl. destruct (existsb _ _); [done|].
    apply Forall_app. split; [done|]. apply Forall_singleton. auto.
  - unfold upsert_outbox. destruct (existsb _ _); simpl; [by apply Hreq|].
    apply Forall_app. split; [done|]. apply Forall_singleton. auto.
Qed.

Context {B : Type} `{Amqp B}.

Lemma attempts_exec p f :
  (forall t r, attempts_ok r -> attempts_ok (f t r)) ->
  preserves outbox_attempts (exec_outbox (B := B) p f).
Proof.
  intros Hf s Hs. destruct (exec_outbox_cases p f s) as (s'&r&->&_&_&[Hd|Hd]); simpl; rewrite Hd; [done|].
  by apply attempts_upd; [apply Hf|].
Qed.

Lemma markRetry_attempts e evt : preserves outbox_attempts (markRetry (B := B) cfg e evt).
Proof.
  apply preserves_bind; [|intros; apply preserves_ret]. apply attempts_exec.
  intros t r _. unfold attempts_ok, to_retry, next_status. simpl.
  destruct (maxRetries cfg <? _) eqn:Hm; bools; [done|]. intros [=].
Qed.

Lemma advance_attempts id ph : preserves outbox_attempts (advance (B := B) cfg id ph).
Proof.
  assert (forall A (m : M DB (PubX B) error A) next, preserves outbox_attempts m ->
    preserves outbox_attempts (or_wait m next)) as Hw.
  { intros A m next Hm. apply preserves_bind; [by apply preserves_attempt|].
    intros a. apply preserves_ret. }
  destruct ph as [| | |l|[|evt todo] l|l|l|[|evt todo] e]; cbn [advance];
    try apply preserves_ret.
  - apply Hw. intros s Hs. destruct (leadership_work cfg id s) as [Hd _]. by rewrite Hd.
  - apply Hw, attempts_exec. by intros.
  - apply Hw. apply preserves_bind; [by apply preserves_sql|]. intros _.
    apply preserves_bind; [apply preserves_get_now|]. intros t. by apply preserves_sql.
  - destruct (OutboxSingleActive cfg); [|apply preserves_ret]. apply Hw.
    destruct l as [|e l]; [apply preserves_ret|]. apply preserves_bind; [|intros; apply preserves_require].
    apply attempts_exec. by intros.
  - apply Hw. apply preserves_bind; [|intros; apply preserves_ret]. apply attempts_exec. by intros.
  - apply preserves_bind; [|intros; apply preserves_ret]. apply preserves_attempt. intros s Hs.
    by destruct (publish_db cfg l s) as [-> _].
  - apply preserves_bind; [|intros; apply preserves_ret]. apply preserves_ignore.
    destruct l as [|e l]; [apply preserves_ret|]. apply preserves_bind; [|intros; apply preserves_require].
    apply attempts_exec. by intros.
  - apply preserves_bind; [|intros; apply preserves_ret]. apply preserves_ignore, markRetry_attempts.
Qed.

Lemma steps_attempts (w w' : world B) :
  steps cfg w w' -> outbox_attempts (w_db w) -> outbox_attempts (w_db w').
Proof.
  intros Hs. induction Hs as [|w w1 w2 [l Hst] _ IH]; [done|]. intros Hw. apply IH.
  destruct Hst as [w i p fs s ph Hp Hadv|w i id Hi|w i|w i p fs s Hp Hst|w d Hd|w t Ht]; try done.
  - pose proof (advance_attempts (pr_leaderID p) (pr_phase p) (env_of w p fs) Hw) as Ha.
    by rewrite Hadv in Ha.
  - simpl. unfold Stop in Hst.
    set (s0 := if OutboxSingleActive cfg then _ else env_of w p fs) in Hst.
    assert (db s0 = w_db w) as Hd.
    { subst s0. destruct (OutboxSingleActive cfg); [|done].
      assert (lock_op (releaseLeaderLockScript (B := B) (leaderLockKey cfg) (pr_leaderID p))) as Hr
        by apply lock_op_redis.
      by destruct (Hr (env_of w p fs)) as [-> _]. }
    destruct (resetLocked _ _) as [p' b']. injection Hst as <-. simpl. by rewrite Hd.
  - simpl. by eapply attempts_write.
Qed.
End attempts.

(** * The guarantees *)

Section guarantees.
Context {B : Type} `{AmqpLaws B}.
Context (cfg : OutboxConfig).

(** C2 In every state that publishers (starting, stopping and crashing at any
    statement, with lost calls), the services that write events, the operator who
    retries them and the clock can reach from a table without published or dead
    events, an event marked published has been accepted by the broker with its
    routing key, identifier and payload, and an event marked dead has failed more
    often than the configured maximum. *)
Theorem settled_events_are_justified (w w' : world B) i r :
  w_procs w = ∅ ->
  Forall (fun x => ob_status x <> outboxStatusPublished /\ ob_status x <> outboxStatusDead) (outbox (w_db w)) ->
  steps cfg w w' -> outbox (w_db w') !! i = Some r ->
  (ob_status r = outboxStatusPublished -> delivered (w_broker w') (row_message cfg r)) /\
  (ob_status r = outboxStatusDead -> maxRetries cfg < attempt_count r).
Proof.
  intros Hp Hfresh Hs Hr.
  assert (world_ok cfg w) as Hw.
  { split; rewrite ?Hp; try done.
    intros j x Hx Hst. by destruct (Forall_lookup_1 _ _ _ _ Hfresh Hx). }
  split.
  - by eapply (wo_published _ _ (steps_ok cfg _ _ Hw Hs)).
  - assert (outbox_attempts cfg (w_db w)) as Ha.
    { eapply Forall_impl; [done|]. intros x [_ Hx] Hd. done. }
    apply (steps_attempts cfg _ _ Hs) in Ha. by apply (Forall_lookup_1 _ _ _ _ Ha Hr).
Qed.

(** C29 Once a publisher has become leader, no publisher with another identity
    becomes leader before the lease has run out, whatever the others do and even
    if the leader crashes, unless the leader releases its lock itself. *)
Theorem leadership_is_exclusive (w0 w : world B) i p fs s j q fs' s' ph :
  OutboxSingleActive cfg = true ->
  advance cfg (pr_leaderID p) Waiting (env_of w0 p fs) = (s, Ok Leading) ->
  steps_without cfg (pr_leaderID p) (after w0 i p s Leading) w ->
  w_now w < w_now w0 + leaderLockTTL cfg ->
  pr_leaderID q <> pr_leaderID p ->
  advance cfg (pr_leaderID q) Waiting (env_of w q fs') = (s', Ok ph) ->
  w_procs w !! j = Some q -> ph = Waiting.
Proof.
  intros Hsa Hadv Hs Ht Hne Hadv' _. apply or_wait_cases in Hadv as (r&Hm&Hr).
  assert (r = Ok true) as -> by (by destruct r as [[]|]).
  apply (ensureLeadership_takes cfg) in Hm; [|done].
  destruct (steps_keep_lease cfg _ _ (pr_leaderID p) (w_now w0 + leaderLockTTL cfg) Hsa Hs) as [Hl Hu];
    [done|simpl; lia|done|].
  apply or_wait_cases in Hadv' as (r'&Hm'&->).
  destruct (ensureLeadership_lease cfg _ _ _ (env_of w q fs') _ _ Hsa Hl Ht Hu Hm') as [_ Hno].
  specialize (Hno Hne). by destruct r' as [[]|].
Qed.


(** C3 Without faults, when the leadership is free or its own and the broker
    accepts its batches, the turns of a tick publish every event that is due. *)
Theorem due_events_get_published (healthy : RabbitPublisher -> B -> Prop) id (s : env DB (PubX B)) fuel i r :
  (forall ms p b, healthy p b -> exists p' b',
     PublishBatch (RabbitMQURL cfg) (RabbitMQExchange cfg) ms p b = (p', b', Ok tt) /\ healthy p' b') ->
  no_faults s -> can_lead cfg id s -> healthy (rabbit (ext s)) (broker (ext s)) ->
  pending_work cfg (now s) (outbox (db s)) < Z.of_nat fuel ->
  outbox (db s) !! i = Some r -> due (now s) r = true ->
  exists r', outbox (db (turns cfg id fuel s).1) !! i = Some r' /\ ob_payload r' = ob_payload r /\
    ob_status r' = outboxStatusPublished.
Proof.
  intros Hh Hf Hl Hb Hw Hr Hd. eapply (turns_publish cfg healthy Hh); [done|done|done|by right].
Qed.

(** The body of the publisher's loop, as the code composes it, is a run of
    the interleaved system from the publisher waiting to the publisher waiting:
    what holds of every interleaving holds of the loop. *)
Theorem turn_is_a_run (w : world B) i p fs :
  w_procs w !! i = Some p -> pr_phase p = Waiting ->
  steps cfg w (after w i p (turn cfg (pr_leaderID p) (env_of w p fs)).1 Waiting).
Proof.
  intros Hp Hph. eapply runs_steps; [apply turn_runs|done|done|done|done].
Qed.
End guarantees.

(** * A broker, and runs of the publisher

    A concrete broker that satisfies the laws, runs of the outbox publisher on
    it, and the behaviours a deployment meets: a lock reply that is lost, a
    retried dead event, a lock that nobody gives back. *)

(** * A broker

    Channels with their histories; a channel acknowledges what was published on
    it, one message at a time, and a broker that is [down] accepts no
    connection. *)
Record Rabbit := mkRabbitMQ {
  chs : gmap nat (list RabbitMessage * nat); next_ch : nat; down : bool
}.

Definition rabbit_refused : error := OtherError "dial tcp: connection refused".

Definition set_ch (c : nat) (l : list RabbitMessage) (n : nat) (b : Rabbit) : Rabbit :=
  mkRabbitMQ (<[c := (l, n)]> (chs b)) (next_ch b) (down b).

#[export] Instance Rabbit_amqp : Amqp Rabbit := {
  amqp_Dial url b := (b, if down b then Err rabbit_refused else Ok O);
  conn_Channel k b :=
    match chs b !! next_ch b with
    | Some _ => (b, Err rabbit_refused)
    | None => (mkRabbitMQ (<[next_ch b := ([], O)]> (chs b)) (S (next_ch b)) (down b), Ok (next_ch b))
    end;
  ch_ExchangeDeclare c ex b := (b, Ok tt);
  ch_Confirm c b := (b, Ok tt);
  ch_Publish c ex m b :=
    match chs b !! c with
    | Some (l, n) => (set_ch c (l ++ [m]) n b, Ok tt)
    | None => (b, Err rabbit_refused)
    end;
  ch_next c b :=
    match chs b !! c with
    | Some (l, n) => if (n <? length l)%nat then (set_ch c l (S n) b, Confirmation true (Z.of_nat (S n)))
                     else (b, TimerFired)
    | None => (b, ConfirmClosed)
    end;
  ch_Close c b := b;
  conn_Close k b := b
}.

Definition acknowledged (b : Rabbit) (m : RabbitMessage) : Prop :=
  exists c l n, chs b !! c = Some (l, n) /\ m ∈ take n l.

Definition history (b : Rabbit) (c : nat) : option (list RabbitMessage * nat) := chs b !! c.

Lemma touch_set c l n l' n' b :
  chs b !! c = Some (l, n) -> (forall m, m ∈ take n l -> m ∈ take n' l') ->
  only_touches acknowledged history (Some c) b (set_ch c l' n' b).
Proof.
  intros Hc Hin. split.
  - intros m (c0&l0&n0&Hc0&Hm). destruct (decide (c0 = c)) as [->|Hne].
    + exists c, l', n'. unfold set_ch. simpl. rewrite lookup_insert_eq. split; [done|].
      apply Hin. congruence.
    + exists c0, l0, n0. unfold set_ch. simpl. by rewrite lookup_insert_ne.
  - intros c0 Hne. unfold history, set_ch. simpl. by rewrite lookup_insert_ne by congruence.
Qed.

#[export] Instance Rabbit_laws : AmqpLaws Rabbit.
Proof.
  refine {| delivered := acknowledged; chan_log := history |}.
  - intros b c l n Hl. apply Forall_forall. intros m Hm. by exists c, l, n.
  - by intros.
  - intros k b. simpl. destruct (chs b !! next_ch b) eqn:Hn; [done|]. split; [done|].
    unfold history. simpl. rewrite lookup_insert_eq. split; [done|]. split.
    + intros m (c&l&n&Hc&Hm). exists c, l, n. simpl. rewrite lookup_insert_ne; [done|]. congruence.
    + intros c Hne. simpl. by rewrite lookup_insert_ne by congruence.
  - by intros.
  - by intros.
  - intros c ex m b. simpl. unfold history. destruct (chs b !! c) as [[l n]|] eqn:Hc; simpl; [|done].
    split.
    + eapply touch_set; [done|]. intros x Hx. rewrite take_app. apply elem_of_app. by left.
    + intros u l' n' _ [= <- <-]. unfold set_ch. simpl. apply lookup_insert_eq.
  - intros c b. simpl. unfold history. destruct (chs b !! c) as [[l n]|] eqn:Hc; simpl; [|done].
    destruct (n <? length l)%nat eqn:Hn; simpl; [|done]. split.
    + eapply touch_set; [done|]. intros x Hx. apply elem_of_take in Hx as (i&Hi&Hlt).
      apply elem_of_take. exists i. split; [done|lia].
    + intros tag l' n' _ [= <- <-] _. unfold set_ch. simpl. apply lookup_insert_eq.
  - by intros.
  - by intros.
Defined.

(** * Runs *)

Definition demo_cfg : OutboxConfig :=
  mkOutboxConfig "amqp://mall" "mall.events" "" 2 1000 5 60 8 true "" 90.

Definition demo_row (n : string) (st attempts : Z) : OutboxRow :=
  mkOutbox (order_paid_event_id n) "order.paid" n {["order_id" := JString n]} st attempts 100 None "" 100.

Definition demo_db : DB :=
  with_outbox [demo_row "A" 0 0; demo_row "B" 0 0; demo_row "C" 0 0] empty_db.

Definition up : Rabbit := mkRabbitMQ ∅ 0 false.
Definition refusing : Rabbit := mkRabbitMQ ∅ 0 true.

Definition demo_world (b : Rabbit) (d : DB) : world Rabbit := mkWorld d 200 ∅ b ∅.

Definition demo_proc (id : string) : proc := mkProc id NewRabbitPublisher false Waiting.

Definition demo_started (b : Rabbit) (d : DB) : world Rabbit :=
  mkWorld d 200 ∅ b (<[O := demo_proc "p1"]> ∅).

Definition demo_env (b : Rabbit) (d : DB) (fs : list fault) : env DB (PubX Rabbit) :=
  env_of (demo_started b d) (demo_proc "p1") fs.

Definition statuses (s : env DB (PubX Rabbit)) : list (Z * Z) :=
  map (fun r => (ob_status r, attempt_count r)) (outbox (db s)).

(** Two turns of two events publish three events. *)
Example demo_turns :
  (turns demo_cfg "p1" 4 (demo_env up demo_db [])).2 = Ok true /\
  statuses (turns demo_cfg "p1" 4 (demo_env up demo_db [])).1 = [(1, 0); (1, 0); (1, 0)].
Proof. split; vm_compute; reflexivity. Qed.

(** A broker that refuses: the events go back to pending, one attempt older. *)
Example demo_refused :
  statuses (turns demo_cfg "p1" 4 (demo_env refusing demo_db [])).1 = [(0, 1); (0, 1); (0, 1)].
Proof. vm_compute. reflexivity. Qed.

(** The operator's retry of a dead event gives it one more attempt, not a fresh
    series: the attempts are not reset. *)
Example retried_dead_event :
  let d := with_outbox [demo_row "A" 3 9] empty_db in
  let s := (AdminEventRetryHandler " order.paid:A " (demo_env refusing d [])).1 in
  statuses s = [(0, 9)] /\ statuses (turns demo_cfg "p1" 4 s).1 = [(3, 10)].
Proof. split; vm_compute; reflexivity. Qed.

(** The reply to the lock request is lost: Redis holds the lock for the
    publisher, the publisher does not know, and until the lease expires it finds
    the lock taken, by itself. *)
Example lost_lock_reply :
  let s := (turn demo_cfg "p1" (demo_env up demo_db [FailAfter])).1 in
  holder 200 (leaderLockKey demo_cfg) (locks (ext s)) = Some "p1" /\
  leaderOwned (ext s) = false /\
  statuses (turns demo_cfg "p1" 4 s).1 = [(0, 0); (0, 0); (0, 0)].
Proof. split_and!; vm_compute; reflexivity. Qed.

(** * Witnesses *)

Lemma demo_steps b d :
  steps demo_cfg (demo_world b d)
    (after (demo_started b d) 0 (demo_proc "p1")
       (turn demo_cfg "p1" (demo_env b d [])).1 Waiting).
Proof.
  eapply rtc_l.
  - exists None. by apply (step_start demo_cfg (demo_world b d) 0 "p1").
  - apply (runs_steps demo_cfg "p1" (demo_env b d []) Waiting); try done. apply turn_runs.
Qed.

Lemma settled_events_are_justified_witness :
  delivered (w_broker (after (demo_started up demo_db) 0 (demo_proc "p1")
       (turn demo_cfg "p1" (demo_env up demo_db [])).1 Waiting)) (row_message demo_cfg (demo_row "A" 0 0)).
Proof.
  refine (proj1 (settled_events_are_justified demo_cfg (demo_world up demo_db) _ 0
    (mkOutbox "order.paid:A" "order.paid" "A" {["order_id" := JString "A"]} 1 0 100 (Some 200) "" 200)
    eq_refl _ (demo_steps up demo_db) _) eq_refl).
  - repeat constructor; intros [=].
  - vm_compute. reflexivity.
Defined.

Definition demo_leader : env DB (PubX Rabbit) :=
  (advance demo_cfg "p1" Waiting (demo_env up demo_db [])).1.

Lemma leadership_is_exclusive_witness :
  (advance demo_cfg "p2" Waiting
     (env_of (after (demo_started up demo_db) 0 (demo_proc "p1") demo_leader Leading)
        (demo_proc "p2") [])).2 = Ok Waiting.
Proof.
  destruct (advance demo_cfg "p2" Waiting _) as [s' [ph|e]] eqn:Hadv.
  2:{ vm_compute in Hadv. discriminate Hadv. }
  simpl. f_equal.
  set (w := mkWorld demo_db 200 (locks (ext demo_leader)) (broker (ext demo_leader))
              (<[1%nat := demo_proc "p2"]> (w_procs (after (demo_started up demo_db) 0 (demo_proc "p1") demo_leader Leading)))).
  eapply (leadership_is_exclusive demo_cfg (demo_started up demo_db) w 0 (demo_proc "p1") [] demo_leader
            1 (demo_proc "p2") []); [reflexivity|vm_compute; reflexivity| |vm_compute; reflexivity| | |].
  - apply rtc_once. exists None. split; [|done].
    apply (step_start demo_cfg (after (demo_started up demo_db) 0 (demo_proc "p1") demo_leader Leading) 1 "p2").
    vm_compute. reflexivity.
  - intros [=].
  - exact Hadv.
  - apply lookup_insert_eq.
Defined.


(** The broker is healthy while it is up and the publisher's channel, if any, has
    everything acknowledged. *)
Definition demo_healthy (p : RabbitPublisher) (b : Rabbit) : Prop :=
  down b = false /\ (forall c, (next_ch b <= c)%nat -> chs b !! c = None) /\
  match rp_ch p with
  | None => confirmEnabled p = false
  | Some c => rp_confirmCh p = Some c /\ exists l, chs b !! c = Some (l, length l)
  end.

Lemma set_ch_set_ch c l n l' n' b : set_ch c l' n' (set_ch c l n b) = set_ch c l' n' b.
Proof. unfold set_ch. simpl. by rewrite insert_insert_eq. Qed.

Lemma rabbit_publish_all ex c ms b l n :
  chs b !! c = Some (l, n) -> publish_all ex c ms b = (set_ch c (l ++ ms) n b, Ok tt).
Proof.
  revert b l. induction ms as [|m ms IH]; intros b l Hc; simpl.
  - rewrite app_nil_r. unfold set_ch. rewrite insert_id by done. by destruct b.
  - rewrite Hc. rewrite (IH _ (l ++ [m])) by (unfold set_ch; simpl; apply lookup_insert_eq).
    by rewrite set_ch_set_ch, <- app_assoc.
Qed.

Lemma rabbit_await c size left b l n :
  chs b !! c = Some (l, n) -> (n + left <= length l)%nat ->
  await_confirms (Some c) size left b = (set_ch c l (n + left) b, Ok tt).
Proof.
  revert b n. induction left as [|left IH]; intros b n Hc Hn; cbn [await_confirms].
  - rewrite Nat.add_0_r. unfold set_ch. rewrite insert_id by done. by destruct b.
  - assert (ch_next c b = (set_ch c l (S n) b, Confirmation true (Z.of_nat (S n)))) as ->.
    { simpl. rewrite Hc. by rewrite (proj2 (Nat.ltb_lt n (length l))) by lia. }
    rewrite (IH _ (S n)); [|unfold set_ch; simpl; apply lookup_insert_eq|lia].
    rewrite set_ch_set_ch. do 2 f_equal. lia.
Qed.

Lemma rabbit_batch url ex ms c p b l :
  rp_ch p = Some c -> rp_confirmCh p = Some c -> chs b !! c = Some (l, length l) ->
  PublishBatch url ex ms p b = (p, match ms with [] => b | _ => set_ch c (l ++ ms) (length (l ++ ms)) b end, Ok tt).
Proof.
  intros Hch Hcc Hc. unfold PublishBatch. destruct ms as [|m ms]; [done|].
  unfold ensureChannelLocked. rewrite Hch, Hch, Hcc.
  rewrite (rabbit_publish_all ex c (m :: ms) b l (length l) Hc).
  rewrite (rabbit_await c _ _ (set_ch c (l ++ m :: ms) (length l) b) (l ++ m :: ms) (length l)).
  - by rewrite set_ch_set_ch, length_app.
  - unfold set_ch. simpl. apply lookup_insert_eq.
  - rewrite length_app. lia.
Qed.

Lemma demo_healthy_publishes ms p b :
  demo_healthy p b ->
  exists p' b', PublishBatch (RabbitMQURL demo_cfg) (RabbitMQExchange demo_cfg) ms p b = (p', b', Ok tt) /\
    demo_healthy p' b'.
Proof.
  assert (forall p b c l ms, down b = false -> (forall c', (next_ch b <= c')%nat -> chs b !! c' = None) ->
    rp_ch p = Some c -> rp_confirmCh p = Some c -> chs b !! c = Some (l, length l) ->
    demo_healthy p (match ms with [] => b | _ => set_ch c (l ++ ms) (length (l ++ ms)) b end)) as Hkeep.
  { intros q x c l us Hd Hfr Hch Hcc Hc. destruct us as [|u us].
    - split; [done|]. split; [done|]. rewrite Hch. split; [done|eauto].
    - split; [done|]. split.
      + intros c' Hle. simpl in *. rewrite lookup_insert_ne; [auto|]. intros ->.
        by rewrite (Hfr c') in Hc.
      + rewrite Hch. split; [done|]. exists (l ++ u :: us). simpl. apply lookup_insert_eq. }
  intros (Hd&Hfr&Hp). destruct (rp_ch p) as [c|] eqn:Hch.
  - destruct Hp as (Hcc&l&Hc). rewrite (rabbit_batch _ _ ms c p b l Hch Hcc Hc).
    do 2 eexists. split; [done|]. by apply Hkeep.
  - destruct ms as [|m ms]; [exists p, b; split; [done|]; split_and!; try done; by rewrite Hch|].
    set (b1 := mkRabbitMQ (<[next_ch b := ([], O)]> (chs b)) (S (next_ch b)) (down b)).
    set (p1 := mkRabbit (Some O) (Some (next_ch b)) (Some (next_ch b)) true).
    assert (ensureChannelLocked (RabbitMQURL demo_cfg) (RabbitMQExchange demo_cfg) p b = (p1, b1, Ok tt)) as He.
    { unfold ensureChannelLocked, open_channel. rewrite Hch. simpl. rewrite Hd, (Hfr (next_ch b)) by lia.
      simpl. rewrite Hp. subst b1. by rewrite Hd. }
    assert (chs b1 !! next_ch b = Some ([], length (A := RabbitMessage) [])) as Hc by (simpl; apply lookup_insert_eq).
    pose proof (rabbit_batch (RabbitMQURL demo_cfg) (RabbitMQExchange demo_cfg) (m :: ms) (next_ch b) p1 b1 [] eq_refl eq_refl Hc) as Hb.
    unfold PublishBatch in *. rewrite He. change (ensureChannelLocked (RabbitMQURL demo_cfg) (RabbitMQExchange demo_cfg) p1 b1) with (p1, b1, Ok (E := error) tt) in Hb.
    rewrite Hb. do 2 eexists. split; [done|].
    apply (Hkeep p1 b1 (next_ch b) [] (m :: ms)); try done. intros c' Hle. simpl in *.
    rewrite lookup_insert_ne by lia. apply Hfr. lia.
Qed.

Lemma due_events_get_published_witness :
  exists r', outbox (db (turns demo_cfg "p1" 4 (demo_env up demo_db [])).1) !! 2%nat = Some r' /\
    ob_payload r' = {["order_id" := JString "C"]} /\ ob_status r' = outboxStatusPublished.
Proof.
  apply (due_events_get_published demo_cfg demo_healthy "p1" (demo_env up demo_db []) 4 2 (demo_row "C" 0 0)
    demo_healthy_publishes); try (vm_compute; reflexivity).
  - split; [done|]. split; [|done]. intros c _. apply lookup_empty.
Defined.

Lemma turn_is_a_run_witness :
  steps demo_cfg (demo_started up demo_db)
    (after (demo_started up demo_db) 0 (demo_proc "p1") (turn demo_cfg "p1" (demo_env up demo_db [])).1 Waiting).
Proof.
  apply (turn_is_a_run demo_cfg (demo_started up demo_db) 0 (demo_proc "p1") []); [apply lookup_insert_eq|reflexivity].
Defined.
