(* ===== verification/PaidProjection.v ===== *)
(** The consumer of [order.paid] events
    (app/order/rpc/internal/job/order_paid_projection.go): a delivery may be
    repeated and any statement may fail, yet every paid order is counted once. *)

From S2P Require Import Prelude Effects Sql OrderStore Outbox.

(** * Tables

    [order_paid_projection_event], [order_operation_projection] (the column
    [paid_count]), [inventory_async_audit], [product_search_projection] (name and
    [searchable]), [product_card_snapshot] ([stock_available] and [version]) and,
    read only, [product] (name and status), [product_stock_bucket] and the
    product of an order. *)
Record ProjDB := mkProjDB {
  pj_events : gmap string string;
  pj_counts : gmap string Z;
  pj_audit : gmap string (string * string);
  pj_search : gmap Z (string * Z);
  pj_cards : gmap Z (Z * Z);
  pj_products : gmap Z (string * Z);
  pj_buckets : gmap (Z * Z) Z;
  pj_orders : gmap string Z
}.

Definition with_events v d :=
  mkProjDB v (pj_counts d) (pj_audit d) (pj_search d) (pj_cards d) (pj_products d) (pj_buckets d) (pj_orders d).
Definition with_counts v d :=
  mkProjDB (pj_events d) v (pj_audit d) (pj_search d) (pj_cards d) (pj_products d) (pj_buckets d) (pj_orders d).
Definition with_audit v d :=
  mkProjDB (pj_events d) (pj_counts d) v (pj_search d) (pj_cards d) (pj_products d) (pj_buckets d) (pj_orders d).
Definition with_search v d :=
  mkProjDB (pj_events d) (pj_counts d) (pj_audit d) v (pj_cards d) (pj_products d) (pj_buckets d) (pj_orders d).
Definition with_cards v d :=
  mkProjDB (pj_events d) (pj_counts d) (pj_audit d) (pj_search d) v (pj_products d) (pj_buckets d) (pj_orders d).

(** [paidProjectionEvent]: the members of the body, as [json.Unmarshal] fills
    them; a member of another type is an error. *)
Definition string_member (key : string) (body : json_object) : option string :=
  match body !! key with
  | None => Some ""
  | Some (JString s) => Some s
  | Some (JNumber _) => None
  end.

Definition invalid_event : error := OtherError "invalid order.paid event".

Definition unmarshal_paid (body : json_object) : res error string :=
  match string_member "event_id" body, string_member "order_id" body with
  | Some _, Some orderID => if is_empty (trim_space orderID) then Err invalid_event else Ok orderID
  | _, _ => Err invalid_event
  end.

(** ** Statements *)

(** [INSERT IGNORE] and the number of rows inserted. *)
Definition insert_event (eventID orderID : string) (d : ProjDB) : ProjDB * Z :=
  match pj_events d !! eventID with
  | Some _ => (d, 0)
  | None => (with_events (<[eventID := orderID]> (pj_events d)) d, 1)
  end.

(** [... ON DUPLICATE KEY UPDATE paid_count = paid_count + 1]. *)
Definition count_paid (orderID : string) (d : ProjDB) : ProjDB :=
  with_counts (<[orderID := match pj_counts d !! orderID with Some n => n + 1 | None => 1 end]> (pj_counts d)) d.

Definition insert_audit (eventID orderID : string) (d : ProjDB) : ProjDB :=
  match pj_audit d !! eventID with
  | Some _ => d
  | None => with_audit (<[eventID := (orderID, "stock_audit")]> (pj_audit d)) d
  end.

(** [INSERT ... SELECT ... FROM orders o JOIN product p ... ON DUPLICATE KEY UPDATE]. *)
Definition project_product (orderID : string) (d : ProjDB) : ProjDB :=
  match pj_orders d !! orderID with
  | Some pid => match pj_products d !! pid with
                | Some (name, st) => with_search (<[pid := (name, st)]> (pj_search d)) d
                | None => d
                end
  | None => d
  end.

(** [SET s.stock_available = (SELECT COALESCE(SUM(stock),0) ...), s.version = s.version + 1]. *)
Definition refresh_card (orderID : string) (d : ProjDB) : ProjDB :=
  match pj_orders d !! orderID with
  | Some pid =>
      match pj_cards d !! pid with
      | Some (_, version) =>
          let stock := map_sumZ (fun k v => if k.1 =? pid then v else 0) (pj_buckets d) in
          with_cards (<[pid := (stock, version + 1)]> (pj_cards d)) d
      | None => d
      end
  | None => d
  end.

Section consumer.
(** [sha1.Sum] of the body, in hexadecimal. *)
Variable sha1_hex : json_object -> string.
Abbreviation IO := (M ProjDB unit error).

Definition exec (f : ProjDB -> ProjDB) : IO unit := sql (fun d => (f d, tt)) DbError.

Definition event_key (d : RabbitMessage) : string :=
  let eventID := trim_space (MessageID d) in
  if is_empty eventID then sha1_hex (Body d) else eventID.

(** [CREATE TABLE IF NOT EXISTS], four times. *)
Definition create_tables : IO unit := for_each (fun _ : nat => exec id) [0; 1; 2; 3]%nat.

Definition handle_tx (eventID orderID : string) : IO (txend error unit) :=
  affected <- sql (insert_event eventID orderID) DbError ;;
  if affected =? 0 then ret (Rollback tt) else
  exec (count_paid orderID) ;;;
  exec (insert_audit eventID orderID) ;;;
  exec (project_product orderID) ;;;
  exec (refresh_card orderID) ;;;
  ret (Commit DbError tt).

Definition handle (d : RabbitMessage) : IO unit :=
  orderID <- of_res (unmarshal_paid (Body d)) ;;
  exec id ;;;
  create_tables ;;;
  run_tx DbError (handle_tx (event_key d) orderID).

(** The deliveries of a channel: one that fails is put back and delivered
    again. *)
Fixpoint consume (fuel : nat) (queue : list RabbitMessage) : IO (list RabbitMessage) :=
  match fuel, queue with
  | O, _ => ret queue
  | _, [] => ret []
  | S fuel, d :: rest =>
      r <- attempt (handle d) ;;
      match r with
      | Ok _ => consume fuel rest
      | Err _ => consume fuel (d :: rest)
      end
  end.

(** An event that can never be handled stays in the queue for ever. *)
Lemma invalid_event_never_leaves fuel d rest e s :
  unmarshal_paid (Body d) = Err e -> consume fuel (d :: rest) s = (s, Ok (d :: rest)).
Proof.
  intros He. induction fuel as [|fuel IH]; [done|]. cbn [consume]. unfold bind at 1, attempt, handle.
  unfold bind at 1, of_res. rewrite He. exact IH.
Qed.

(** ** Counting *)

Definition paid_count (o : string) (d : ProjDB) : Z := default 0 (pj_counts d !! o).

Definition events_of (o : string) (d : ProjDB) : Z :=
  map_sumZ (fun _ o' => if str_eqb o' o then 1 else 0) (pj_events d).

(** The counter of an order is the number of its recorded events. *)
Definition counts_ok (d : ProjDB) : Prop := forall o, paid_count o d = events_of o d.

Lemma counts_ok_insert e o d :
  counts_ok d -> pj_events d !! e = None ->
  counts_ok (count_paid o (with_events (<[e := o]> (pj_events d)) d)).
Proof.
  intros Hd He o'. specialize (Hd o'). unfold paid_count, events_of, count_paid in *. simpl.
  rewrite map_sumZ_insert by done. rewrite <- Hd.
  destruct (decide (o = o')) as [->|Hne].
  - rewrite lookup_insert_eq, str_eqb_refl. simpl. destruct (pj_counts d !! o'); simpl; lia.
  - rewrite lookup_insert_ne by done. by rewrite (proj2 (str_eqb_neq o o')).
Qed.

(** What a delivery does to the database: nothing, or the whole transaction. *)
Definition recorded (e o : string) (d d' : ProjDB) : Prop :=
  pj_events d !! e = None /\
  d' = refresh_card o (project_product o (insert_audit e o
         (count_paid o (with_events (<[e := o]> (pj_events d)) d)))).

Lemma recorded_events e o d d' :
  recorded e o d d' -> pj_events d' = <[e := o]> (pj_events d) /\
    pj_counts d' = pj_counts (count_paid o (with_events (<[e := o]> (pj_events d)) d)).
Proof.
  intros [_ ->]. unfold refresh_card, project_product, insert_audit. simpl.
  repeat (case_match; simpl; try done).
Qed.

Lemma counts_ok_recorded e o d d' : recorded e o d d' -> counts_ok d -> counts_ok d'.
Proof.
  intros Hr Hd. pose proof (counts_ok_insert e o d Hd (proj1 Hr)) as Hc.
  destruct (recorded_events _ _ _ _ Hr) as [He Hn]. intros o'. specialize (Hc o').
  unfold paid_count, events_of in *. by rewrite He, Hn.
Qed.

(** A statement is executed or the call fails. *)
Lemma exec_cases f s :
  exists s' r, exec f s = (s', r) /\ (forall u, r = Ok u -> db s' = f (db s)).
Proof.
  destruct s as [d x t fs]. unfold exec, sql, pop_fault. simpl.
  destruct fs as [|[] fs]; simpl; do 2 eexists; (split; [done|]); done.
Qed.

Lemma exec_then {A} f (k : IO A) s (Q : env ProjDB unit -> res error A -> Prop) :
  (forall s1, db s1 = f (db s) -> exists s2 r, k s1 = (s2, r) /\ Q s2 r) ->
  (forall s1 e, Q s1 (Err e)) ->
  exists s2 r, (exec f ;;; k) s = (s2, r) /\ Q s2 r.
Proof.
  intros Hk He. unfold bind. destruct (exec_cases f s) as (s1&[u|e]&->&Hx); [|by do 2 eexists].
  apply Hk. by apply (Hx u).
Qed.

Lemma handle_tx_cases e o s :
  exists s' r, handle_tx e o s = (s', r) /\
    match r with
    | Ok (Commit _ _) => recorded e o (db s) (db s')
    | Ok (Rollback _) => pj_events (db s) !! e <> None
    | Err _ => True
    end.
Proof.
  unfold handle_tx, bind at 1.
  destruct (sql (insert_event e o) DbError s) as [s1 [n|err]] eqn:Hi; [|by do 2 eexists].
  assert (db s1 = (insert_event e o (db s)).1 /\ n = (insert_event e o (db s)).2) as [Hd ->].
  { destruct s as [d x t fs]. unfold sql, pop_fault in Hi. simpl in Hi |- *.
    destruct fs as [|[] fs]; simpl in Hi; destruct (insert_event e o d); by simplify_eq/=. }
  unfold insert_event in Hd |- *. destruct (pj_events (db s) !! e) as [x|] eqn:He; simpl.
  { do 2 eexists. by split. }
  set (Q := fun (s' : env ProjDB unit) (r : res error (txend error unit)) =>
    match r with
    | Ok (Commit _ _) => recorded e o (db s) (db s')
    | Ok (Rollback _) => None (A := string) <> None
    | Err _ => True
    end).
  apply (exec_then _ _ _ Q); [intros s2 H2|done]. apply (exec_then _ _ _ Q); [intros s3 H3|done].
  apply (exec_then _ _ _ Q); [intros s4 H4|done]. apply (exec_then _ _ _ Q); [intros s5 H5|done].
  do 2 eexists. split; [done|]. split; [done|]. by rewrite H5, H4, H3, H2, Hd.
Qed.

(** A committed delivery records its event; any other outcome changes nothing
    that a commit did not. *)
Lemma run_tx_handle e o s :
  exists s' r, run_tx DbError (handle_tx e o) s = (s', r) /\
    (db s' = db s \/ recorded e o (db s) (db s')) /\
    (r = Ok tt -> pj_events (db s') !! e <> None).
Proof.
  unfold run_tx. pose proof (db_pop_fault s) as Hp.
  destruct (pop_fault s) as [[] s0]; simpl in Hp;
    [|do 2 eexists; split; [done|]; split; [by left|done]..].
  destruct (handle_tx_cases e o s0) as (s1&r&->&Hr).
  destruct r as [[err []|[]]|err].
  - pose proof (db_pop_fault s1) as Hp1.
    destruct (pop_fault s1) as [[] s2]; simpl in Hp1; do 2 eexists; (split; [done|]); simpl.
    + rewrite Hp1, <- Hp. split; [by right|]. intros _.
      destruct (recorded_events _ _ _ _ Hr) as [-> _]. by rewrite lookup_insert_eq.
    + split; [left; congruence|done].
    + rewrite Hp1, <- Hp. split; [by right|done].
  - do 2 eexists. split; [done|]. simpl. rewrite Hp in *. split; [by left|]. by intros _.
  - do 2 eexists. split; [done|]. simpl. rewrite Hp. split; [by left|done].
Qed.

Lemma handle_cases d s :
  exists s' r, handle d s = (s', r) /\
    (db s' = db s \/ exists o, unmarshal_paid (Body d) = Ok o /\ recorded (event_key d) o (db s) (db s')) /\
    (r = Ok tt -> pj_events (db s') !! event_key d <> None).
Proof.
  unfold handle, bind at 1, of_res. destruct (unmarshal_paid (Body d)) as [o|e].
  2:{ do 2 eexists. split; [done|]. split; [by left|done]. }
  assert (forall f s0, (forall x, f x = x) -> db (exec f s0).1 = db s0) as Hid.
  { intros f [x y t fs] Hf. unfold exec, sql, pop_fault. simpl. destruct fs as [|[] fs]; simpl; auto. }
  unfold bind at 1. pose proof (Hid id s (fun _ => eq_refl)) as H1.
  destruct (exec id s) as [s1 [u|e]]; simpl in H1.
  2:{ do 2 eexists. split; [done|]. split; [by left|done]. }
  unfold bind at 1.
  assert (forall l s0, db (for_each (fun _ : nat => exec id) l s0).1 = db s0) as Hall.
  { induction l as [|k l IH]; intros s0; [done|]. cbn [for_each]. unfold bind.
    pose proof (Hid id s0 (fun _ => eq_refl)) as Hs. destruct (exec id s0) as [s2 [v|e]]; simpl in *; [|done].
    by rewrite IH. }
  pose proof (Hall [0; 1; 2; 3]%nat s1) as H2. unfold create_tables.
  destruct (for_each _ _ s1) as [s2 [v|e]]; simpl in H2.
  2:{ do 2 eexists. split; [done|]. split; [left; congruence|done]. }
  destruct (run_tx_handle (event_key d) o s2) as (s3&r&->&Hd&Hr). do 2 eexists. split; [done|].
  rewrite H2, H1 in Hd. split; [|done]. destruct Hd; [by left|eauto].
Qed.

(** ** Any deliveries, any faults *)

(** The events on record only grow, each with its order. *)
Definition delivers (ds : list RabbitMessage) : IO unit := for_each (fun d => ignore (handle d)) ds.

Lemma delivers_cons m ds s : (delivers (m :: ds) s).1 = (delivers ds (handle m s).1).1.
Proof. unfold delivers. cbn [for_each]. unfold bind, ignore at 1. by destruct (handle m s). Qed.

Lemma delivers_app ds ds' s : (delivers (ds ++ ds') s).1 = (delivers ds' (delivers ds s).1).1.
Proof.
  revert s. induction ds as [|m ds IH]; intros s; [done|]. cbn [app]. by rewrite !delivers_cons, IH.
Qed.

Definition keyed (d : ProjDB) (ds : list RabbitMessage) (d' : ProjDB) : Prop :=
  (counts_ok d -> counts_ok d') /\
  (forall e o, pj_events d !! e = Some o -> pj_events d' !! e = Some o) /\
  (forall e o, pj_events d' !! e = Some o -> pj_events d !! e = Some o \/
     exists m, m ∈ ds /\ e = event_key m /\ unmarshal_paid (Body m) = Ok o).

Lemma handle_keyed m s : keyed (db s) [m] (db (handle m s).1).
Proof.
  destruct (handle_cases m s) as (s'&r&->&[Hd|(o&Hu&Hr)]&_); simpl.
  - rewrite Hd. split; [done|]. split; [done|]. by left.
  - split; [by eapply counts_ok_recorded|]. destruct (recorded_events _ _ _ _ Hr) as [-> _].
    destruct Hr as [Hn _]. split.
    + intros e x He. rewrite lookup_insert_ne; [done|]. congruence.
    + intros e x. rewrite lookup_insert_Some. intros [[<- <-]|[_ He]]; [right|by left].
      exists m. split; [by left|done].
Qed.

Lemma keyed_trans d ds d1 ds1 d2 : keyed d ds d1 -> keyed d1 ds1 d2 -> keyed d (ds ++ ds1) d2.
Proof.
  intros (A1&A2&A3) (B1&B2&B3). split; [auto|]. split; [auto|]. intros e o He.
  destruct (B3 e o He) as [He1|(m&Hm&Hk)].
  - destruct (A3 e o He1) as [?|(m&Hm&Hk)]; [by left|right]. exists m. split; [|done].
    apply elem_of_app. by left.
  - right. exists m. split; [|done]. apply elem_of_app. by right.
Qed.

Lemma delivers_keyed ds s : keyed (db s) ds (db (delivers ds s).1).
Proof.
  revert s. induction ds as [|m ds IH]; intros s.
  - split; [done|]. split; [done|]. by left.
  - rewrite delivers_cons. apply (keyed_trans _ [m] _ ds _ (handle_keyed m s)), IH.
Qed.
End consumer.

(** * Paid events of the outbox *)

(** The row that [InsertOrderPaidOutbox] inserts, and its message. *)
Definition paid_row (t : Z) (orderID : string) : OutboxRow :=
  mkOutbox (order_paid_event_id orderID) "order.paid" orderID
    (<["event_id" := JString (order_paid_event_id orderID)]>
      (<["event_type" := JString "order.paid"]> (<["order_id" := JString orderID]> ∅))) 0 0 t None "" t.

Definition paid_message (cfg : OutboxConfig) (orderID : string) : RabbitMessage :=
  message_of cfg (event_of 0 (paid_row 0 orderID)).

Lemma InsertOrderPaidOutbox_row {X} orderID e (s : env DB X) :
  no_faults s ->
  db (InsertOrderPaidOutbox orderID e s).1 = insert_outbox_ignore (paid_row (now s) orderID) (db s).
Proof. intros Hf. unfold InsertOrderPaidOutbox, bind, get_now. by rewrite sql_no_faults. Qed.

Lemma unmarshal_paid_message cfg o :
  trim_space o <> "" -> unmarshal_paid (Body (paid_message cfg o)) = Ok o.
Proof.
  intros Ho. unfold unmarshal_paid.
  assert (string_member "event_id" (Body (paid_message cfg o)) = Some (order_paid_event_id o)) as -> by reflexivity.
  assert (string_member "order_id" (Body (paid_message cfg o)) = Some o) as -> by reflexivity.
  unfold is_empty. by rewrite (proj2 (str_eqb_neq _ _)).
Qed.

Section counted.
Variable sha1_hex : json_object -> string.
Context (cfg : OutboxConfig).

Definition fresh_projection (d : ProjDB) : Prop := pj_events d = ∅ /\ pj_counts d = ∅.

Lemma fresh_counts_ok d : fresh_projection d -> counts_ok d.
Proof.
  intros [He Hc] o. unfold paid_count, events_of. by rewrite He, Hc, map_sumZ_empty, lookup_empty.
Qed.

Lemma event_key_paid o :
  trim_space (order_paid_event_id o) = order_paid_event_id o ->
  event_key sha1_hex (paid_message cfg o) = order_paid_event_id o.
Proof. intros Ht. unfold event_key, paid_message, message_of. simpl. by rewrite Ht. Qed.

Lemma map_sumZ_zero (m : gmap string string) : map_sumZ (fun _ _ => 0) m = 0.
Proof.
  induction m as [|a b m Ha IH] using map_ind; [apply map_sumZ_empty|].
  by rewrite map_sumZ_insert, IH.
Qed.

(** At most one key can stand for an order. *)
Lemma events_of_one k o d :
  (forall e, pj_events d !! e = Some o -> e = k) ->
  events_of o d = (if bool_decide (pj_events d !! k = Some o) then 1 else 0).
Proof.
  intros Hk. unfold events_of. destruct (pj_events d !! k) as [x|] eqn:Hx.
  - rewrite <- (insert_delete_id _ k x Hx). rewrite map_sumZ_insert by apply lookup_delete_eq.
    rewrite (map_sumZ_ext _ (fun _ _ => 0)).
    + rewrite map_sumZ_zero. unfold str_eqb.
      rewrite (bool_decide_ext (Some x = Some o) (x = o)) by naive_solver.
      case_bool_decide; lia.
    + intros e y [Hne He]%lookup_delete_Some. rewrite (proj2 (str_eqb_neq y o)); [done|].
      intros ->. by apply Hne, eq_sym, Hk.
  - rewrite bool_decide_eq_false_2 by done. rewrite (map_sumZ_ext _ (fun _ _ => 0)).
    + apply map_sumZ_zero.
    + intros e y He. rewrite (proj2 (str_eqb_neq y o)); [done|]. intros ->.
      apply Hk in He as He'. subst e. congruence.
Qed.

(** What deliveries of paid events leave: each recorded key is that of its order. *)
Lemma delivered_keys os s :
  fresh_projection (db s) ->
  Forall (fun o => trim_space o <> "" /\ trim_space (order_paid_event_id o) = order_paid_event_id o) os ->
  let d := db (delivers sha1_hex (map (paid_message cfg) os) s).1 in
  counts_ok d /\ forall e o, pj_events d !! e = Some o -> e = order_paid_event_id o.
Proof.
  intros Hf Ho d. destruct (delivers_keyed sha1_hex (map (paid_message cfg) os) s) as (Hc&_&Hk).
  split; [by apply Hc, fresh_counts_ok|]. intros e o He.
  destruct (Hk e o He) as [H0|(m&Hm&->&Hu)]; [by rewrite (proj1 Hf), lookup_empty in H0|].
  apply list_elem_of_fmap in Hm as (o'&->&Ho'). rewrite Forall_forall in Ho.
  destruct (Ho o' Ho') as [Hne Ht]. rewrite unmarshal_paid_message in Hu by done.
  injection Hu as <-. by apply event_key_paid.
Qed.

(** C30 However often the paid events of orders are delivered, in whatever order
    and with whatever faults, no order is counted more than once; and an order
    one of whose deliveries was acknowledged is counted exactly once. *)
Theorem paid_orders_are_counted_once (before after : list string) (o : string) s :
  fresh_projection (db s) ->
  Forall (fun o => trim_space o <> "" /\ trim_space (order_paid_event_id o) = order_paid_event_id o)
    (before ++ o :: after) ->
  let s1 := (delivers sha1_hex (map (paid_message cfg) before) s).1 in
  let s2 := (handle sha1_hex (paid_message cfg o) s1).1 in
  let d := db (delivers sha1_hex (map (paid_message cfg) after) s2).1 in
  (forall x, 0 <= paid_count x d <= 1) /\
  ((handle sha1_hex (paid_message cfg o) s1).2 = Ok tt -> paid_count o d = 1).
Proof.
  intros Hf Ho s1 s2 d.
  assert (d = db (delivers sha1_hex (map (paid_message cfg) (before ++ o :: after)) s).1) as Hd.
  { subst d s2 s1. rewrite map_app, delivers_app. cbn [map]. by rewrite delivers_cons. }
  destruct (delivered_keys (before ++ o :: after) s Hf Ho) as [Hc Hk]. rewrite <- Hd in Hc, Hk.
  assert (forall x, paid_count x d = if bool_decide (pj_events d !! order_paid_event_id x = Some x) then 1 else 0) as Hx.
  { intros x. rewrite Hc. apply events_of_one. intros e He. by apply Hk. }
  split.
  - intros x. rewrite Hx. case_bool_decide; lia.
  - intros Hok. rewrite Hx, bool_decide_eq_true_2; [done|].
    apply Forall_app in Ho as [_ Ho]. apply Forall_cons in Ho as [[Hne Ht] _].
    destruct (handle_cases sha1_hex (paid_message cfg o) s1) as (s'&r&Hh&_&Hr).
    rewrite Hh in Hok. specialize (Hr Hok). rewrite (event_key_paid o Ht) in Hr.
    destruct (pj_events (db s') !! order_paid_event_id o) as [x|] eqn:Hx0; [|done].
    destruct (delivers_keyed sha1_hex (map (paid_message cfg) after) s2) as (_&Hgrow&_).
    assert (s2 = s') as Hs2 by (subst s2; by rewrite Hh). rewrite Hs2 in Hgrow.
    pose proof (Hgrow _ _ Hx0) as He. subst d. rewrite Hs2, He.
    pose proof (Hk _ _ ltac:(rewrite Hs2; exact He)) as Heq. f_equal.
    unfold order_paid_event_id in Heq. by simplify_eq/=.
Qed.
End counted.

(** * Runs *)

Definition sha1_text (body : json_object) : string := "da39a3ee".

Definition demo_projection : ProjDB :=
  mkProjDB ∅ ∅ ∅ ∅ {[7 := (0, 1)]} {[7 := ("cup", 1)]} {[(7, 0) := 4; (7, 1) := 6; (8, 0) := 5]}
    {["A" := 7]}.

Definition paid_cfg : OutboxConfig := mkOutboxConfig "amqp://mall" "mall.events" "" 2 1000 5 60 8 true "" 90.

(** The first delivery's commit is lost after it took effect; the redelivery is
    acknowledged without counting again. *)
Definition paid_env : env ProjDB unit :=
  mkEnv demo_projection tt 0 (repeat NoFault 11 ++ [FailAfter]).

Example redelivery_counts_once :
  let r := consume sha1_text 3 [paid_message paid_cfg "A"] paid_env in
  r.2 = Ok [] /\ paid_count "A" (db r.1) = 1 /\ pj_cards (db r.1) = {[7 := (10, 2)]}.
Proof. split_and!; vm_compute; reflexivity. Qed.

Lemma paid_orders_are_counted_once_witness :
  paid_count "A" (db (delivers sha1_text [paid_message paid_cfg "A"]
    (handle sha1_text (paid_message paid_cfg "A")
       (delivers sha1_text [paid_message paid_cfg "A"] paid_env).1).1).1) = 1.
Proof.
  apply (paid_orders_are_counted_once sha1_text paid_cfg ["A"] ["A"] "A" paid_env).
  - by split.
  - by repeat constructor.
  - vm_compute. reflexivity.
Defined.
