(* ===== verification/ExistenceFilter.v ===== *)
(** The product existence filter of the Hertz gateway
    (app/gateway/hertz/internal/existencefilter): a Bloom filter in Redis, rebuilt
    into a new generation that is then activated, the negative cache beside it,
    the source of product ids (adapters/productmysql/catalog_ids.go) and the
    guard in front of the product page (handler/product_read_protection.go). *)

From S2P Require Import Prelude Effects Sql GoText.

(** * Configuration

    The size of the bitmap and the number of hashes come from floating-point
    arithmetic over the expected number of items; they are fields here. *)
Record Config := mkConfig {
  Prefix : string; BatchSize : Z; NegativeTTL : Z; RebuildLockTTL : Z; OldGenerationTTL : Z;
  bitCount : Z; hashCount : Z
}.

Definition hour_ns : Z := 3600 * 10 ^ 9.

(** The integer defaults of [normalize]; durations in nanoseconds. *)
Definition normalize (c : Config) : Config :=
  mkConfig (Prefix c)
    (if BatchSize c <=? 0 then 1000 else BatchSize c)
    (if NegativeTTL c <=? 0 then 30 * 10 ^ 9 else NegativeTTL c)
    (if RebuildLockTTL c <=? 0 then 600 * 10 ^ 9 else RebuildLockTTL c)
    (if OldGenerationTTL c <=? 0 then hour_ns else OldGenerationTTL c)
    (bitCount c) (if hashCount c =? 0 then 1 else hashCount c).

Inductive Result := ResultPossible | ResultAbsent | ResultUnready.

#[export] Instance Result_eq_dec : EqDecision Result.
Proof. solve_decision. Defined.

Definition ErrUnready : error := OtherError "existence filter is not ready".
Definition ErrRebuildInProgress : error := OtherError "existence filter rebuild is in progress".
Definition redis_Nil : error := OtherError "redis: nil".
Definition redis_failed : error := OtherError "redis: i/o timeout".
Definition bit_offset_error : error := OtherError "ERR bit offset is not an integer or out of range".
Definition not_ready_error : error := OtherError "generation is not ready".
Definition non_increasing (id after : Z) : error :=
  OtherError ("product id source returned non-increasing id " +:+ itoa id +:+ " after " +:+ itoa after).

Definition hashAlgorithm : string := "xxhash64-double-v1".

(** [strconv.ParseUint(s, 10, 64)]. *)
Definition ParseUint (s : string) : option Z :=
  match unsigned_digits s with
  | Some v => if v <? 2 ^ 64 then Some v else None
  | None => None
  end.

(** [hash/fnv.New32a]. *)
Definition fnv32a (s : string) : Z :=
  foldl (fun h c => (Z.lxor h (Z.of_N (Ascii.N_of_ascii c)) * 16777619) mod 2 ^ 32) 2166136261
    (String.list_ascii_of_string s).

(** * Redis

    Per generation: the metadata hash, the bitmap (its set bits) and, once the
    generation is old, the time at which both keys expire; the active generation;
    the rebuild lock (holder and expiry); the negative cache (expiry per product).
    Times are in nanoseconds. *)
Record FilterState := mkFilter {
  fs_active : option string; fs_meta : gmap string (gmap string string);
  fs_bits : gmap string (gset Z); fs_expiry : gmap string Z;
  fs_lock : option (string * Z); fs_negative : gmap Z Z
}.

Definition with_active v x :=
  mkFilter v (fs_meta x) (fs_bits x) (fs_expiry x) (fs_lock x) (fs_negative x).
Definition with_meta v x :=
  mkFilter (fs_active x) v (fs_bits x) (fs_expiry x) (fs_lock x) (fs_negative x).
Definition with_bits v x :=
  mkFilter (fs_active x) (fs_meta x) v (fs_expiry x) (fs_lock x) (fs_negative x).
Definition with_expiry v x :=
  mkFilter (fs_active x) (fs_meta x) (fs_bits x) v (fs_lock x) (fs_negative x).
Definition with_lock v x :=
  mkFilter (fs_active x) (fs_meta x) (fs_bits x) (fs_expiry x) v (fs_negative x).
Definition with_negative v x :=
  mkFilter (fs_active x) (fs_meta x) (fs_bits x) (fs_expiry x) (fs_lock x) v.

(** What has expired at time [t] is gone. *)
Definition expired (t : Z) (x : FilterState) (g : string) : bool :=
  match fs_expiry x !! g with Some e => e <=? t | None => false end.

Definition meta_of (t : Z) (x : FilterState) (g : string) : gmap string string :=
  if expired t x g then ∅ else default ∅ (fs_meta x !! g).

Definition bits_of (t : Z) (x : FilterState) (g : string) : gset Z :=
  if expired t x g then ∅ else default ∅ (fs_bits x !! g).

Definition lock_holder (t : Z) (x : FilterState) : option string :=
  match fs_lock x with
  | Some (token, e) => if e <=? t then None else Some token
  | None => None
  end.

(** A write to a key that has expired starts from nothing, without an expiry. *)
Definition revive (t : Z) (g : string) (x : FilterState) : FilterState :=
  if expired t x g
  then with_expiry (delete g (fs_expiry x)) (with_bits (delete g (fs_bits x)) (with_meta (delete g (fs_meta x)) x))
  else x.

Definition HSet (g : string) (fields : gmap string string) (t : Z) (x : FilterState) : FilterState :=
  let x := revive t g x in with_meta (<[g := fields ∪ default ∅ (fs_meta x !! g)]> (fs_meta x)) x.

(** Redis refuses offsets of [2^32] bits and more. *)
Definition valid_offset (p : Z) : bool := (0 <=? p) && (p <? 2 ^ 32).

(** A pipeline of [SETBIT key p 1]: every valid command takes effect. *)
Definition set_bits (g : string) (positions : list Z) (t : Z) (x : FilterState) : FilterState :=
  match filter (fun p => valid_offset p = true) positions with
  | [] => x
  | valid => let x := revive t g x in
             with_bits (<[g := list_to_set valid ∪ default ∅ (fs_bits x !! g)]> (fs_bits x)) x
  end.

Definition pipeline_result (positions : list Z) : res error unit :=
  if forallb valid_offset positions then Ok tt else Err bit_offset_error.

(** [DEL bits meta]. *)
Definition del_generation (g : string) (x : FilterState) : FilterState :=
  with_expiry (delete g (fs_expiry x)) (with_bits (delete g (fs_bits x)) (with_meta (delete g (fs_meta x)) x)).

(** [EXPIRE], on keys that exist. *)
Definition expire_generation (ttl : Z) (g : string) (t : Z) (x : FilterState) : FilterState :=
  let x := revive t g x in
  if bool_decide (is_Some (fs_meta x !! g) \/ is_Some (fs_bits x !! g))
  then with_expiry (<[g := t + ttl]> (fs_expiry x)) x else x.

(** The script that activates a generation. *)
Definition activateGenerationScript (g : string) (t : Z) (x : FilterState)
  : FilterState * res error string :=
  if bool_decide (meta_of t x g !! "state" = Some "ready")
  then (with_active (Some g) x, Ok (default "" (fs_active x)))
  else (x, Err not_ready_error).

Definition unlockScript (token : string) (t : Z) (x : FilterState) : FilterState * res error bool :=
  if bool_decide (lock_holder t x = Some token) then (with_lock None x, Ok true) else (x, Ok false).

(** * The table of products

    The ids in key order. *)
Definition ProductTable := list Z.

Definition batch_limit (limit : Z) : Z :=
  if limit <=? 0 then 1000 else if 10000 <? limit then 10000 else limit.

(** [SELECT id FROM product WHERE id > ? ORDER BY id LIMIT ?]. *)
Definition ids_after (after : Z) (limit : Z) (d : ProductTable) : list Z :=
  take (Z.to_nat (batch_limit limit)) (filter (fun id => after < id) d).

Section filter.
(** [xxhash.Sum64String]. *)
Variable Sum64String : string -> Z.
Context (config : Config).
Abbreviation IO := (M ProductTable FilterState error).

Definition redis {A} (op : Z -> FilterState -> FilterState * res error A) : IO A :=
  t <- get_now ;; call (op t) redis_failed.

Definition read {A} (f : Z -> FilterState -> A) : IO A := redis (fun t x => (x, Ok (f t x))).

Definition write (f : Z -> FilterState -> FilterState) : IO unit := redis (fun t x => (f t x, Ok tt)).

Definition ProductIDBatch (afterID limit : Z) : IO (list Z) :=
  sql (fun d => (d, ids_after afterID limit d)) DbError.

(** ** hash.go *)

Definition uint64 (z : Z) : Z := z mod 2 ^ 64.

Definition bitPositions (productID bits hashes : Z) : list Z :=
  let value := itoa productID in
  let first := Sum64String ("flashmall:product:first:" +:+ value) in
  let second := Sum64String ("flashmall:product:second:" +:+ value) in
  let second := if second =? 0 then 0x9e3779b97f4a7c15 else second in
  map (fun index => int64 (uint64 (first + uint64 (index * second)) mod bits)) (seqZ 0 hashes).

(** ** redis_bitmap.go *)

Record generationMetadata := mkMetadata { md_bitCount : Z; md_hashCount : Z }.

Definition metadata_of (values : gmap string string) : option generationMetadata :=
  if negb (bool_decide (values !! "state" = Some "ready")
           && bool_decide (values !! "algorithm" = Some hashAlgorithm)) then None else
  match ParseUint (default "" (values !! "bit_count")), ParseUint (default "" (values !! "hash_count")) with
  | Some b, Some h => if (b =? 0) || (h =? 0) then None else Some (mkMetadata b h)
  | _, _ => None
  end.

Definition activeMetadata : IO (string * generationMetadata) :=
  active <- read (fun _ x => fs_active x) ;;
  match active with
  | None => throw redis_Nil
  | Some generation =>
      values <- read (fun t x => meta_of t x generation) ;;
      match metadata_of values with
      | None => throw redis_Nil
      | Some metadata => ret (generation, metadata)
      end
  end.

(** A pipeline of [GETBIT]. *)
Definition get_bits (generation : string) (positions : list Z) : IO (list bool) :=
  redis (fun t x => (x, match pipeline_result positions with
                        | Ok _ => Ok (map (fun p => bool_decide (p ∈ bits_of t x generation)) positions)
                        | Err e => Err e
                        end)).

(** The answer of [Check] from the bits read. *)
Definition verdict (bits : list bool) : Result := if forallb id bits then ResultPossible else ResultAbsent.

Definition Check (productID : Z) : IO Result :=
  if productID <=? 0 then ret ResultUnready else
  r <- attempt activeMetadata ;;
  match r with
  | Err e => if bool_decide (e = redis_Nil) then ret ResultUnready else throw e
  | Ok (generation, metadata) =>
      bits <- get_bits generation (bitPositions productID (md_bitCount metadata) (md_hashCount metadata)) ;;
      ret (verdict bits)
  end.

Definition pipeline_set (generation : string) (positions : list Z) : IO unit :=
  redis (fun t x => (set_bits generation positions t x, pipeline_result positions)).

Definition addToGeneration (generation : string) (metadata : generationMetadata) (productID : Z) : IO unit :=
  pipeline_set generation (bitPositions productID (md_bitCount metadata) (md_hashCount metadata)).

Definition rebuilding : IO bool := read (fun t x => bool_decide (is_Some (lock_holder t x))).

Definition Add (productID : Z) : IO unit :=
  if productID <=? 0 then throw ErrUnready else
  busy <- rebuilding ;;
  if (busy : bool) then throw ErrRebuildInProgress else
  r <- attempt activeMetadata ;;
  match r with
  | Err e => throw (if bool_decide (e = redis_Nil) then ErrUnready else e)
  | Ok (generation, metadata) => addToGeneration generation metadata productID
  end.

(** ** rebuild.go *)

Definition acquire (token : string) : IO bool :=
  redis (fun t x => match lock_holder t x with
                    | Some _ => (x, Ok false)
                    | None => (with_lock (Some (token, t + RebuildLockTTL config)) x, Ok true)
                    end).

Definition unlock (token : string) : IO bool := redis (unlockScript token).

Definition writeBuildingMetadata (generation : string) : IO unit :=
  write (HSet generation (<["state" := "building"]> (<["algorithm" := hashAlgorithm]>
    (<["bit_count" := itoa (bitCount config)]> {["hash_count" := itoa (hashCount config)]})))).

Definition addBatch (generation : string) (ids : list Z) : IO unit :=
  pipeline_set generation (concat (map (fun id => bitPositions id (bitCount config) (hashCount config)) ids)).

(** The check that the ids increase; the last id. *)
Fixpoint increasing (afterID : Z) (ids : list Z) : res error Z :=
  match ids with
  | [] => Ok afterID
  | id :: ids => if id <=? afterID then Err (non_increasing id afterID) else increasing id ids
  end.

Definition out_of_fuel : error := OtherError "out of fuel".

(** One round of the loop: the new position and the number of ids, and whether
    there is another round. *)
Definition load_batch (generation : string) (afterID : Z) : IO (Z * Z * bool) :=
  ids <- ProductIDBatch afterID (BatchSize config) ;;
  match ids with
  | [] => ret (afterID, 0, false)
  | _ =>
      last <- of_res (increasing afterID ids) ;;
      addBatch generation ids ;;;
      ret (last, Z.of_nat (length ids), negb (Z.of_nat (length ids) <? BatchSize config))
  end.

Fixpoint loadGeneration (fuel : nat) (generation : string) (afterID count : Z) : IO Z :=
  match fuel with
  | O => throw out_of_fuel
  | S fuel =>
      '(last, n, more) <- load_batch generation afterID ;;
      if (more : bool) then loadGeneration fuel generation last (count + n) else ret (count + n)
  end.

Definition markReady (generation : string) (count : Z) : IO unit :=
  write (HSet generation (<["state" := "ready"]> {["count" := itoa count]})).

Definition activate (generation : string) : IO string := redis (activateGenerationScript generation).

Definition expireGeneration (generation : string) : IO unit :=
  write (expire_generation (OldGenerationTTL config) generation).

Definition deleteGeneration (generation : string) : IO unit :=
  write (fun _ => del_generation generation).

(** [m], and on failure the new generation is deleted and the error returned. *)
Definition or_delete {A} (generation : string) (m : IO A) : IO A :=
  r <- attempt m ;;
  match r with
  | Ok a => ret a
  | Err e => ignore (deleteGeneration generation) ;;; throw e
  end.

Definition build (fuel : nat) (generation : string) : IO Z :=
  writeBuildingMetadata generation ;;;
  count <- or_delete generation (loadGeneration fuel generation 0 0) ;;
  or_delete generation (markReady generation count) ;;;
  previous <- or_delete generation (activate generation) ;;
  (if negb (is_empty previous) && negb (str_eqb previous generation)
   then ignore (expireGeneration previous) else ret tt) ;;;
  ret count.

(** [rebuild]; the lock is given back when it ends, however it ends. *)
Definition rebuild (fuel : nat) (token generation : string) : IO Z :=
  acquired <- acquire token ;;
  if negb acquired then throw ErrRebuildInProgress else
  r <- attempt (build fuel generation) ;;
  ignore (unlock token) ;;;
  of_res r.

(** [Status]: ready, the generation and its number of items. *)
Inductive Status := Degraded | Unready | Ready (generation : string) (items : Z).

Definition status : IO Status :=
  r <- attempt (read (fun _ x => fs_active x)) ;;
  match r with
  | Err _ => ret Degraded
  | Ok None => ret Unready
  | Ok (Some generation) =>
      r <- attempt (read (fun t x => meta_of t x generation)) ;;
      match r with
      | Err _ => ret Degraded
      | Ok values =>
          if negb (bool_decide (values !! "state" = Some "ready")
                   && bool_decide (values !! "algorithm" = Some hashAlgorithm)) then ret Unready
          else match ParseInt (default "" (values !! "count")) with
               | Some items => ret (Ready generation items)
               | None => ret Degraded
               end
      end
  end.

(** ** negative_cache.go *)

Definition negative_ttl (productID : Z) : Z :=
  let maxJitter := Z.quot (NegativeTTL config) 3 in
  if maxJitter <=? 0 then NegativeTTL config else
  let jitter := int64 (uint64 (uint64 maxJitter * (fnv32a (itoa productID) mod 100)) / 100) in
  int64 (NegativeTTL config + jitter).

Definition Contains (productID : Z) : IO bool :=
  if productID <=? 0 then ret false else
  read (fun t x => match fs_negative x !! productID with Some e => t <? e | None => false end).

Definition Mark (productID : Z) : IO unit :=
  if productID <=? 0 then ret tt else
  write (fun t x => with_negative (<[productID := t + negative_ttl productID]> (fs_negative x)) x).

Definition Invalidate (productID : Z) : IO unit :=
  if productID <=? 0 then ret tt else
  write (fun _ x => with_negative (delete productID (fs_negative x)) x).

(** ** handler/product_read_protection.go *)

Definition productNotFound : error := OtherError "product not found".

(** Whether the filter said the product may exist; an error when it cannot. *)
Definition protectProductDetailOrigin (productID : Z) : IO bool :=
  hit <- attempt (Contains productID) ;;
  match hit with
  | Ok true => throw productNotFound
  | _ =>
      r <- attempt (Check productID) ;;
      match r with
      | Err _ => ret false
      | Ok ResultAbsent => throw productNotFound
      | Ok result => ret (bool_decide (result = ResultPossible))
      end
  end.

Definition markProductNotPublic (productID : Z) : IO unit := ignore (Mark productID).

Definition prepareProductVisibility (productID : Z) : IO unit :=
  r <- attempt (Add productID) ;;
  match r with
  | Ok _ => ret tt
  | Err e => throw (OtherError ("prepare product existence filter: " +:+ error_text e))
  end.

Definition invalidateProductProtection (productID : Z) : IO unit := ignore (Invalidate productID).
End filter.
