(* ===== verification/ExistenceSteps.v ===== *)
(** The existence filter under concurrency: gateways that rebuild it, that add
    products before they are published, that crash at any statement and lose
    replies, while products are created; cut at each call to Redis or MySQL. *)

From Stdlib Require Import Sorting.Sorted.
From S2P Require Import Prelude Effects Sql GoText ExistenceFilter.

(** * Statement by statement *)

Inductive rb_phase :=
| RbStart
| RbMeta
| RbLoad (afterID count : Z)
| RbWrite (afterID : Z) (ids : list Z) (count : Z)
| RbMark (count : Z)
| RbActivate (count : Z)
| RbExpire (previous : string)
| RbDelete
| RbUnlock
| RbDone.

Inductive ad_phase :=
| AdStart
| AdChecked
| AdActive (generation : string)
| AdWrite (generation : string) (metadata : generationMetadata)
| AdAdded
| AdFailed.

Section phases.
Variable Sum64String : string -> Z.
Context (config : Config).
Abbreviation IO := (M ProductTable FilterState error).

Definition then_go {A P} (m : IO A) (next : A -> P) (failed : P) : IO P :=
  r <- attempt m ;; ret (match r with Ok a => next a | Err _ => failed end).

(** A rebuild, one call at a time. *)
Definition rb_advance (token generation : string) (ph : rb_phase) : IO rb_phase :=
  match ph with
  | RbStart => then_go (acquire config token) (fun ok : bool => if ok then RbMeta else RbDone) RbDone
  | RbMeta => then_go (writeBuildingMetadata config generation) (fun _ => RbLoad 0 0) RbUnlock
  | RbLoad afterID count =>
      then_go (ProductIDBatch afterID (BatchSize config))
        (fun ids => match ids with [] => RbMark count | _ => RbWrite afterID ids count end) RbDelete
  | RbWrite afterID ids count =>
      match increasing afterID ids with
      | Err _ => ret RbDelete
      | Ok last =>
          let count := count + Z.of_nat (length ids) in
          then_go (addBatch Sum64String config generation ids)
            (fun _ => if Z.of_nat (length ids) <? BatchSize config then RbMark count else RbLoad last count)
            RbDelete
      end
  | RbMark count => then_go (markReady generation count) (fun _ => RbActivate count) RbDelete
  | RbActivate count =>
      then_go (activate generation)
        (fun previous => if negb (is_empty previous) && negb (str_eqb previous generation)
                         then RbExpire previous else RbUnlock) RbDelete
  | RbExpire previous => then_go (expireGeneration config previous) (fun _ => RbUnlock) RbUnlock
  | RbDelete => then_go (deleteGeneration generation) (fun _ => RbUnlock) RbUnlock
  | RbUnlock => then_go (unlock token) (fun _ => RbDone) RbDone
  | RbDone => ret RbDone
  end.

(** [Add], one call at a time. *)
Definition ad_advance (productID : Z) (ph : ad_phase) : IO ad_phase :=
  match ph with
  | AdStart => if productID <=? 0 then ret AdFailed else
               then_go rebuilding (fun busy : bool => if busy then AdFailed else AdChecked) AdFailed
  | AdChecked => then_go (read (fun _ x => fs_active x))
                   (fun g => match g with Some g => AdActive g | None => AdFailed end) AdFailed
  | AdActive g => then_go (read (fun t x => meta_of t x g))
                    (fun values => match metadata_of values with
                                   | Some md => AdWrite g md
                                   | None => AdFailed
                                   end) AdFailed
  | AdWrite g md => then_go (addToGeneration Sum64String g md productID) (fun _ => AdAdded) AdFailed
  | AdAdded => ret AdAdded
  | AdFailed => ret AdFailed
  end.
End phases.

(** * The system *)

Record rebuilder := mkRebuilder { rb_token : string; rb_generation : string; rb_ph : rb_phase }.
Record adder := mkAdder { ad_product : Z; ad_ph : ad_phase }.

Record world := mkWorld {
  w_table : ProductTable; w_published : gset Z; w_filter : FilterState; w_now : Z;
  w_rebuilders : gmap nat rebuilder; w_adders : gmap nat adder
}.

(** Between taking and giving back the lock. *)
Definition in_progress (ph : rb_phase) : bool :=
  match ph with RbStart | RbDone => false | _ => true end.

(** A token and a generation never seen: both are random. *)
Definition fresh_token (w : world) (token : string) : Prop :=
  (forall i r, w_rebuilders w !! i = Some r -> rb_token r <> token) /\
  (forall e, fs_lock (w_filter w) <> Some (token, e)).
Definition fresh_generation (w : world) (g : string) : Prop :=
  (forall i r, w_rebuilders w !! i = Some r -> rb_generation r <> g) /\
  (forall i r, w_rebuilders w !! i = Some r -> rb_ph r <> RbExpire g) /\
  fs_active (w_filter w) <> Some g /\ fs_meta (w_filter w) !! g = None /\
  fs_bits (w_filter w) !! g = None /\ fs_expiry (w_filter w) !! g = None.

Section system.
Variable Sum64String : string -> Z.
Context (config : Config).

Definition env_of (w : world) (fs : list fault) : env ProductTable FilterState :=
  mkEnv (w_table w) (w_filter w) (w_now w) fs.

(** The clock never passes the expiry of a lock whose rebuild is running: a
    rebuild takes less than [RebuildLockTTL].  A product of the table is published
    only when [Add] has succeeded for it (handler/admin_product_mutation.go and
    product_inventory_seed.go).  A new product may become visible with an id below
    that of others: ids are given out before transactions commit. *)
Inductive step : world -> world -> Prop :=
| step_create w p d :
    0 < p -> d ≡ₚ p :: w_table w -> StronglySorted Z.lt d ->
    step w (mkWorld d (w_published w) (w_filter w) (w_now w) (w_rebuilders w) (w_adders w))
| step_rebuild w i token g :
    w_rebuilders w !! i = None -> fresh_token w token -> fresh_generation w g ->
    step w (mkWorld (w_table w) (w_published w) (w_filter w) (w_now w)
              (<[i := mkRebuilder token g RbStart]> (w_rebuilders w)) (w_adders w))
| step_rb w i r fs s ph :
    w_rebuilders w !! i = Some r ->
    rb_advance Sum64String config (rb_token r) (rb_generation r) (rb_ph r) (env_of w fs) = (s, Ok ph) ->
    step w (mkWorld (w_table w) (w_published w) (ext s) (w_now w)
              (<[i := mkRebuilder (rb_token r) (rb_generation r) ph]> (w_rebuilders w)) (w_adders w))
| step_rb_crash w i :
    step w (mkWorld (w_table w) (w_published w) (w_filter w) (w_now w) (delete i (w_rebuilders w)) (w_adders w))
| step_add w j p :
    p ∈ w_table w -> w_adders w !! j = None ->
    step w (mkWorld (w_table w) (w_published w) (w_filter w) (w_now w) (w_rebuilders w)
              (<[j := mkAdder p AdStart]> (w_adders w)))
| step_ad w j a fs s ph :
    w_adders w !! j = Some a ->
    ad_advance Sum64String (ad_product a) (ad_ph a) (env_of w fs) = (s, Ok ph) ->
    step w (mkWorld (w_table w) (w_published w) (ext s) (w_now w) (w_rebuilders w)
              (<[j := mkAdder (ad_product a) ph]> (w_adders w)))
| step_ad_crash w j :
    step w (mkWorld (w_table w) (w_published w) (w_filter w) (w_now w) (w_rebuilders w) (delete j (w_adders w)))
| step_publish w j p :
    w_adders w !! j = Some (mkAdder p AdAdded) ->
    step w (mkWorld (w_table w) ({[p]} ∪ w_published w) (w_filter w) (w_now w) (w_rebuilders w)
              (delete j (w_adders w)))
| step_withdraw w p :
    step w (mkWorld (w_table w) (w_published w ∖ {[p]}) (w_filter w) (w_now w) (w_rebuilders w) (w_adders w))
| step_mark w p fs s r :
    Mark config p (env_of w fs) = (s, r) ->
    step w (mkWorld (w_table w) (w_published w) (ext s) (w_now w) (w_rebuilders w) (w_adders w))
| step_invalidate w p fs s r :
    Invalidate p (env_of w fs) = (s, r) ->
    step w (mkWorld (w_table w) (w_published w) (ext s) (w_now w) (w_rebuilders w) (w_adders w))
| step_time w t :
    w_now w <= t ->
    (forall i r e, w_rebuilders w !! i = Some r -> in_progress (rb_ph r) = true ->
       fs_lock (w_filter w) = Some (rb_token r, e) -> t < e) ->
    step w (mkWorld (w_table w) (w_published w) (w_filter w) t (w_rebuilders w) (w_adders w)).

Definition steps : world -> world -> Prop := rtc step.
End system.

(** * Effects on the filter *)

Section effects.
Implicit Types (x : FilterState) (g : string) (t : Z).

Lemma call_cases {A} (op : Z -> FilterState -> FilterState * res error A) s :
  exists s' r, redis op s = (s', r) /\ db s' = db s /\ now s' = now s /\
    (ext s' = ext s \/ ext s' = (op (now s) (ext s)).1) /\
    (forall a, r = Ok a -> ext s' = (op (now s) (ext s)).1 /\ (op (now s) (ext s)).2 = Ok a).
Proof.
  destruct s as [d x t fs]. unfold redis, bind, get_now, call, pop_fault. simpl.
  destruct fs as [|[] fs]; simpl; destruct (op t x) as [x' a] eqn:Hop; simpl;
    do 2 eexists; (split; [done|]); simpl; repeat split; auto; congruence.
Qed.

Lemma write_cases (f : Z -> FilterState -> FilterState) s s' r :
  write f s = (s', r) -> ext s' = ext s \/ ext s' = f (now s) (ext s).
Proof.
  intros Hm. unfold write in Hm.
  match type of Hm with redis ?op ?s0 = _ => destruct (call_cases op s0) as (s1&r1&Hm1&_&_&Hx&_) end.
  rewrite Hm in Hm1. by injection Hm1 as <- <-.
Qed.

(** [x'] answers no "absent" that [x] does not answer: for every generation it
    has the same metadata and at least the bits, or no usable metadata. *)
Definition answers_no_less t x x' g : Prop :=
  meta_of t x' g = meta_of t x g /\ bits_of t x g ⊆ bits_of t x' g \/
  metadata_of (meta_of t x' g) = None.

Lemma answers_refl t x g : answers_no_less t x x g.
Proof. by left. Qed.

Lemma metadata_of_empty : metadata_of ∅ = None.
Proof. done. Qed.

(** Same keys of a generation: same answers. *)
Lemma answers_same t x x' g :
  fs_meta x' !! g = fs_meta x !! g -> fs_bits x' !! g = fs_bits x !! g ->
  fs_expiry x' !! g = fs_expiry x !! g -> answers_no_less t x x' g.
Proof.
  intros Hm Hb He. left. unfold meta_of, bits_of, expired. rewrite Hm, Hb, He. done.
Qed.

Lemma revive_not_expired t x g : expired t x g = false -> revive t g x = x.
Proof. unfold revive. by intros ->. Qed.

Lemma revive_expired t x g :
  expired t x g = true ->
  revive t g x = del_generation g x.
Proof. unfold revive. by intros ->. Qed.

Lemma del_generation_lookup g g' x :
  (g' = g -> fs_meta (del_generation g x) !! g' = None /\ fs_bits (del_generation g x) !! g' = None /\
     fs_expiry (del_generation g x) !! g' = None) /\
  (g' <> g -> fs_meta (del_generation g x) !! g' = fs_meta x !! g' /\
     fs_bits (del_generation g x) !! g' = fs_bits x !! g' /\
     fs_expiry (del_generation g x) !! g' = fs_expiry x !! g').
Proof.
  unfold del_generation. simpl. split.
  - intros ->. by rewrite !lookup_delete_eq.
  - intros Hne. by rewrite !lookup_delete_ne.
Qed.

Lemma del_generation_meta t g x : meta_of t (del_generation g x) g = ∅.
Proof.
  destruct (del_generation_lookup g g x) as [Hd _]. destruct (Hd eq_refl) as (Hm&_&He).
  unfold meta_of, expired. by rewrite Hm, He.
Qed.

Lemma del_generation_answers t g g' x : answers_no_less t x (del_generation g x) g'.
Proof.
  destruct (decide (g' = g)) as [->|Hne].
  - right. by rewrite del_generation_meta.
  - destruct (del_generation_lookup g g' x) as [_ Hd]. destruct (Hd Hne) as (?&?&?).
    by apply answers_same.
Qed.

Lemma revive_other t x g g' :
  g' <> g -> fs_meta (revive t g x) !! g' = fs_meta x !! g' /\
    fs_bits (revive t g x) !! g' = fs_bits x !! g' /\ fs_expiry (revive t g x) !! g' = fs_expiry x !! g'.
Proof.
  intros Hne. unfold revive. destruct (expired t x g); [|done].
  by apply (del_generation_lookup g g' x).
Qed.

Lemma set_bits_eq g ps t x :
  set_bits g ps t x = x \/
  set_bits g ps t x =
    with_bits (<[g := list_to_set (filter (fun p => valid_offset p = true) ps)
                      ∪ default ∅ (fs_bits (revive t g x) !! g)]> (fs_bits (revive t g x))) (revive t g x).
Proof.
  unfold set_bits. destruct (filter _ ps) as [|p l] eqn:Hf; [by left|right]. done.
Qed.

Lemma set_bits_answers t g ps g' x : answers_no_less t x (set_bits g ps t x) g'.
Proof.
  destruct (set_bits_eq g ps t x) as [->| ->]; [apply answers_refl|].
  destruct (decide (g' = g)) as [->|Hne].
  - destruct (expired t x g) eqn:He.
    + right. rewrite (revive_expired t x g He). unfold meta_of, expired. simpl.
      by rewrite !lookup_delete_eq.
    + left. rewrite (revive_not_expired t x g He). unfold meta_of, bits_of, expired in *. simpl.
      rewrite He. split; [done|]. rewrite lookup_insert_eq. simpl. set_solver.
  - destruct (revive_other t x g g' Hne) as (H1&H2&H3).
    apply answers_same; simpl; [done| |done]. by rewrite lookup_insert_ne.
Qed.

(** An accepted pipeline has set every bit. *)
Lemma set_bits_bits t g ps x :
  pipeline_result ps = Ok tt -> forall p, p ∈ ps -> p ∈ bits_of t (set_bits g ps t x) g.
Proof.
  unfold pipeline_result. destruct (forallb valid_offset ps) eqn:Hv; [|done]. intros _ p Hp.
  assert (forall q, q ∈ ps -> valid_offset q = true) as Hall.
  { intros q Hq. rewrite forallb_forall in Hv. apply Hv. by apply list_elem_of_In. }
  assert (p ∈ filter (fun p => valid_offset p = true) ps) as Hin
    by (apply list_elem_of_filter; auto).
  unfold set_bits. destruct (filter _ ps) as [|q l] eqn:Hf; [by apply elem_of_nil in Hin|].
  unfold bits_of, expired. simpl. rewrite lookup_insert_eq. simpl.
  assert (match fs_expiry (revive t g x) !! g with Some e => e <=? t | None => false end = false) as ->.
  { unfold revive. destruct (expired t x g) eqn:He; [simpl; by rewrite lookup_delete_eq|].
    unfold expired in He. done. }
  clear Hf Hall Hv. set_solver.
Qed.

Lemma expire_answers t ttl g g' x : answers_no_less t x (expire_generation ttl g t x) g'.
Proof.
  unfold expire_generation. destruct (decide (g' = g)) as [->|Hne].
  - destruct (expired t x g) eqn:He.
    + right. rewrite (revive_expired t x g He). case_bool_decide; simpl.
      * unfold meta_of, expired. simpl. rewrite lookup_insert_eq.
        rewrite lookup_delete_eq. by destruct (_ <=? _).
      * by rewrite del_generation_meta.
    + rewrite (revive_not_expired t x g He). case_bool_decide; [|apply answers_refl].
      unfold answers_no_less, meta_of, bits_of, expired in *. simpl. rewrite lookup_insert_eq, He.
      destruct (t + ttl <=? t); [by right|by left].
  - destruct (revive_other t x g g' Hne) as (H1&H2&H3).
    case_bool_decide; apply answers_same; simpl; try done. by rewrite lookup_insert_ne.
Qed.

Lemma HSet_other g fields t x g' : g' <> g -> answers_no_less t x (HSet g fields t x) g'.
Proof.
  intros Hne. unfold HSet. destruct (revive_other t x g g' Hne) as (H1&H2&H3).
  apply answers_same; simpl; [|done|done]. by rewrite lookup_insert_ne.
Qed.

Lemma fs_active_revive t g x : fs_active (revive t g x) = fs_active x.
Proof. unfold revive. by destruct (expired t x g). Qed.
Lemma fs_lock_revive t g x : fs_lock (revive t g x) = fs_lock x.
Proof. unfold revive. by destruct (expired t x g). Qed.

Lemma set_bits_fields g ps t x :
  fs_active (set_bits g ps t x) = fs_active x /\ fs_lock (set_bits g ps t x) = fs_lock x.
Proof.
  destruct (set_bits_eq g ps t x) as [->| ->]; [done|]. simpl.
  by rewrite fs_active_revive, fs_lock_revive.
Qed.
Lemma HSet_fields g fields t x :
  fs_active (HSet g fields t x) = fs_active x /\ fs_lock (HSet g fields t x) = fs_lock x.
Proof. unfold HSet. simpl. by rewrite fs_active_revive, fs_lock_revive. Qed.
Lemma expire_fields ttl g t x :
  fs_active (expire_generation ttl g t x) = fs_active x /\ fs_lock (expire_generation ttl g t x) = fs_lock x.
Proof.
  unfold expire_generation. case_bool_decide; simpl; by rewrite fs_active_revive, fs_lock_revive.
Qed.

(** Time only makes generations expire. *)
Lemma expired_mono t t' x g : t <= t' -> expired t x g = true -> expired t' x g = true.
Proof. unfold expired. intros Ht. destruct (fs_expiry x !! g); [lia|done]. Qed.
End effects.
