(* ===== verification/ExistenceSafety.v ===== *)
(** The invariant of the existence filter: in every state that concurrent
    rebuilds, additions and publications reach, the active generation does not
    call a published product absent. *)

From Stdlib Require Import Sorting.Sorted.
From S2P Require Import Prelude Effects Sql GoText ExistenceFilter ExistenceSteps.

(** * Metadata of a generation *)

Lemma ParseUint_itoa z : 0 <= z < 2 ^ 64 -> ParseUint (itoa z) = Some z.
Proof.
  intros Hz. unfold ParseUint, itoa.
  assert (unsigned_digits (pretty z) = Some z) as ->; [|by replace (z <? 2 ^ 64) with true by lia].
  destruct z as [|p|p]; [done| |lia].
  change (pretty (Z.pos p)) with (pretty (N.pos p)). apply (pretty_N_digits (N.pos p)).
Qed.

Section invariant.
Variable Sum64String : string -> Z.
Context (config : Config).
Hypothesis bits_range : 0 < bitCount config < 2 ^ 64.
Hypothesis hashes_range : 0 < hashCount config < 2 ^ 64.
Hypothesis batch_range : 0 < BatchSize config <= 10000.
Hypothesis lock_positive : 0 < RebuildLockTTL config.

Implicit Types (x : FilterState) (g : string) (t p : Z) (w : world).

Definition positions p : list Z := bitPositions Sum64String p (bitCount config) (hashCount config).

Definition building_meta : gmap string string :=
  <["state" := "building"]> (<["algorithm" := hashAlgorithm]>
    (<["bit_count" := itoa (bitCount config)]> {["hash_count" := itoa (hashCount config)]})).

Definition ready_meta (count : Z) : gmap string string :=
  (<["state" := "ready"]> {["count" := itoa count]}) ∪ building_meta.

Lemma metadata_of_ready count :
  metadata_of (ready_meta count) = Some (mkMetadata (bitCount config) (hashCount config)).
Proof.
  unfold metadata_of.
  assert (ready_meta count !! "state" = Some "ready") as -> by reflexivity.
  assert (ready_meta count !! "algorithm" = Some hashAlgorithm) as -> by reflexivity.
  assert (ready_meta count !! "bit_count" = Some (itoa (bitCount config))) as -> by reflexivity.
  assert (ready_meta count !! "hash_count" = Some (itoa (hashCount config))) as -> by reflexivity.
  rewrite !bool_decide_eq_true_2 by done. cbn [negb andb from_option id].
  rewrite !ParseUint_itoa by lia.
  by replace ((bitCount config =? 0) || (hashCount config =? 0)) with false by lia.
Qed.

(** * What the bits cover *)

Definition covered t x g p : Prop := forall q, q ∈ positions p -> q ∈ bits_of t x g.

(** A check of [p] against generation [g] does not answer "absent". *)
Definition covers t x g p : Prop :=
  forall md, metadata_of (meta_of t x g) = Some md ->
    forall q, q ∈ bitPositions Sum64String p (md_bitCount md) (md_hashCount md) -> q ∈ bits_of t x g.

Definition active_covers t x p : Prop := forall g, fs_active x = Some g -> covers t x g p.

Lemma covers_answers t x x' g p : answers_no_less t x x' g -> covers t x g p -> covers t x' g p.
Proof.
  intros [[Hm Hb]|Hn] Hc md; [|by rewrite Hn]. rewrite Hm. intros Hmd q Hq. by apply Hb, (Hc md).
Qed.

Lemma covers_later t t' x g p : t <= t' -> covers t x g p -> covers t' x g p.
Proof.
  intros Ht Hc md. unfold meta_of, bits_of. destruct (expired t' x g) eqn:He'; [by rewrite metadata_of_empty|].
  destruct (expired t x g) eqn:He; [by rewrite (expired_mono t t' x g Ht He) in He'|].
  intros Hmd q Hq. pose proof (Hc md) as H. unfold meta_of, bits_of in H. rewrite He in H. by apply H.
Qed.

(** * Processes *)

Definition past_check (ph : ad_phase) : bool :=
  match ph with AdChecked | AdActive _ | AdWrite _ _ | AdAdded => true | _ => false end.

(** Products that are published or may be without another check of the lock. *)
Definition protected (pub : gset Z) (ads : gmap nat adder) p : Prop :=
  p ∈ pub \/ exists j a, ads !! j = Some a /\ ad_product a = p /\ past_check (ad_ph a) = true.

(** A generation that is not active yet, with its metadata. *)
Definition building x g (m : option (gmap string string)) : Prop :=
  fs_active x <> Some g /\ fs_expiry x !! g = None /\ fs_meta x !! g = m.

Definition rb_ok (prot : Z -> Prop) t x (r : rebuilder) : Prop :=
  let g := rb_generation r in
  match rb_ph r with
  | RbStart | RbMeta => building x g None
  | RbLoad after _ => building x g (Some building_meta) /\
      forall p, prot p -> p <= after -> covered t x g p
  | RbWrite after ids _ => building x g (Some building_meta) /\
      (forall p, prot p -> p <= after -> covered t x g p) /\
      (forall p, prot p -> after < p ->
         p ∈ ids \/ BatchSize config <= Z.of_nat (length ids) /\ Forall (fun q => q < p) ids)
  | RbMark _ => building x g (Some building_meta) /\ forall p, prot p -> covered t x g p
  | RbActivate count => building x g (Some (ready_meta count)) /\ forall p, prot p -> covered t x g p
  | RbExpire _ | RbDelete | RbUnlock | RbDone => True
  end.

Definition ad_ok t x (a : adder) : Prop :=
  let p := ad_product a in
  match ad_ph a with
  | AdStart | AdChecked | AdFailed => True
  | AdActive g => forall g', fs_active x = Some g' -> g' = g \/ covers t x g' p
  | AdWrite g md => forall g', fs_active x = Some g' ->
      g' = g /\ (metadata_of (meta_of t x g) = Some md \/ metadata_of (meta_of t x g) = None) \/
      covers t x g' p
  | AdAdded => active_covers t x p
  end.

Definition holds_lock t x (r : rebuilder) : Prop :=
  in_progress (rb_ph r) = true -> exists e, fs_lock x = Some (rb_token r, e) /\ t < e.

Definition apart (rs : gmap nat rebuilder) : Prop :=
  forall i j r r', rs !! i = Some r -> rs !! j = Some r' -> i <> j ->
    rb_token r <> rb_token r' /\ rb_generation r <> rb_generation r' /\
    (forall g, rb_ph r = RbExpire g -> rb_ph r' = RbStart -> rb_generation r' <> g).

Record world_ok w : Prop := mk_world_ok {
  wo_sorted : StronglySorted Z.lt (w_table w);
  wo_protected : forall p, protected (w_published w) (w_adders w) p -> p ∈ w_table w /\ 0 < p;
  wo_products : forall j a, w_adders w !! j = Some a -> ad_product a ∈ w_table w;
  wo_published : forall p, p ∈ w_published w -> active_covers (w_now w) (w_filter w) p;
  wo_rebuilders : forall i r, w_rebuilders w !! i = Some r ->
    rb_ok (protected (w_published w) (w_adders w)) (w_now w) (w_filter w) r /\
    holds_lock (w_now w) (w_filter w) r;
  wo_apart : apart (w_rebuilders w);
  wo_adders : forall j a, w_adders w !! j = Some a -> ad_ok (w_now w) (w_filter w) a
}.

(** ** Frames *)

(** Nothing changes for [g] but that bits may be added. *)
Definition gen_le t x x' g : Prop :=
  fs_meta x' !! g = fs_meta x !! g /\ fs_expiry x' !! g = fs_expiry x !! g /\
  bits_of t x g ⊆ bits_of t x' g.

Lemma gen_le_refl t x g : gen_le t x x g.
Proof. done. Qed.

Lemma rb_ok_frame (prot prot' : Z -> Prop) t x x' r :
  (fs_active x = fs_active x' \/ fs_active x' <> Some (rb_generation r)) ->
  gen_le t x x' (rb_generation r) -> (forall p, prot' p -> prot p) ->
  rb_ok prot t x r -> rb_ok prot' t x' r.
Proof.
  clear bits_range hashes_range batch_range lock_positive.
  intros Ha (Hm&He&Hb) Hp.
  assert (forall m, building x (rb_generation r) m -> building x' (rb_generation r) m) as Hbuild.
  { intros m (H1&H2&H3). split; [destruct Ha as [Ha|Ha]; [by rewrite <- Ha|done]|].
    split; [by rewrite He|by rewrite Hm]. }
  assert (forall p, covered t x (rb_generation r) p -> covered t x' (rb_generation r) p) as Hcov.
  { intros p Hc q Hq. by apply Hb, Hc. }
  unfold rb_ok. destruct (rb_ph r); try done; naive_solver.
Qed.

Lemma ad_ok_frame t x x' a :
  fs_active x' = fs_active x ->
  (forall g, fs_active x = Some g -> answers_no_less t x x' g) -> ad_ok t x a -> ad_ok t x' a.
Proof.
  intros Ha Hans. unfold ad_ok, active_covers. destruct (ad_ph a) as [| |g|g md| |]; try done; rewrite Ha.
  - intros Hok g' Hg'. destruct (Hok g' Hg') as [?|Hc]; [by left|right]. eapply covers_answers; eauto.
  - intros Hok g' Hg'. destruct (Hok g' Hg') as [[-> Hmd]|Hc]; [left|right].
    + split; [done|]. destruct (Hans g Hg') as [[Hm _]|Hn]; [by rewrite Hm|by right].
    + eapply covers_answers; eauto.
  - intros Hok g' Hg'. eapply covers_answers; eauto.
Qed.

Lemma active_covers_frame t x x' p :
  fs_active x' = fs_active x ->
  (forall g, fs_active x = Some g -> answers_no_less t x x' g) ->
  active_covers t x p -> active_covers t x' p.
Proof.
  intros Ha Hans Hc g. rewrite Ha. intros Hg. eapply covers_answers; eauto.
Qed.

(** At most one rebuild is in progress. *)
Lemma one_in_progress w i j r r' :
  world_ok w -> w_rebuilders w !! i = Some r -> w_rebuilders w !! j = Some r' ->
  in_progress (rb_ph r) = true -> in_progress (rb_ph r') = true -> i = j.
Proof.
  intros Hw Hi Hj Hr Hr'. destruct (decide (i = j)) as [|Hne]; [done|exfalso].
  destruct (wo_apart w Hw i j r r' Hi Hj Hne) as [Htok _].
  destruct (wo_rebuilders w Hw i r Hi) as [_ Hl]. destruct (wo_rebuilders w Hw j r' Hj) as [_ Hl'].
  destruct (Hl Hr) as (e&He&_), (Hl' Hr') as (e'&He'&_). congruence.
Qed.

(** While a rebuild is in progress nobody gets past the lock. *)
Lemma lock_taken w i r :
  world_ok w -> w_rebuilders w !! i = Some r -> in_progress (rb_ph r) = true ->
  lock_holder (w_now w) (w_filter w) = Some (rb_token r).
Proof.
  intros Hw Hi Hr. destruct (wo_rebuilders w Hw i r Hi) as [_ Hl]. destruct (Hl Hr) as (e&He&Ht).
  unfold lock_holder. rewrite He. by replace (e <=? w_now w) with false by lia.
Qed.

(** ** One rebuilder moves *)

Definition moved w i (r : rebuilder) x' ph : world :=
  mkWorld (w_table w) (w_published w) x' (w_now w)
    (<[i := mkRebuilder (rb_token r) (rb_generation r) ph]> (w_rebuilders w)) (w_adders w).

(** The obligations of a move that is not an activation. *)
Lemma move_ok w i r x' ph :
  world_ok w -> w_rebuilders w !! i = Some r ->
  fs_active x' = fs_active (w_filter w) ->
  (forall g, fs_active (w_filter w) = Some g -> answers_no_less (w_now w) (w_filter w) x' g) ->
  (forall j r', w_rebuilders w !! j = Some r' -> j <> i -> rb_ph r' <> RbDone ->
     (in_progress (rb_ph r') = true \/ rb_ph r' = RbStart) ->
     gen_le (w_now w) (w_filter w) x' (rb_generation r') /\
     (in_progress (rb_ph r') = true -> fs_lock x' = fs_lock (w_filter w))) ->
  rb_ok (protected (w_published w) (w_adders w)) (w_now w) x' (mkRebuilder (rb_token r) (rb_generation r) ph) ->
  holds_lock (w_now w) x' (mkRebuilder (rb_token r) (rb_generation r) ph) ->
  (ph = RbStart -> rb_ph r = RbStart) -> (forall g, ph = RbExpire g -> rb_ph r = RbExpire g) ->
  world_ok (moved w i r x' ph).
Proof.
  intros Hw Hi Ha Hans Hothers Hok Hlock Hstart Hexp. split; simpl.
  - apply Hw.
  - apply Hw.
  - apply Hw.
  - intros p Hp. eapply active_covers_frame; [done|done|]. by apply Hw.
  - intros j r'. rewrite lookup_insert_Some. intros [[<- <-]|[Hne Hj]]; [done|].
    destruct (wo_rebuilders w Hw j r' Hj) as [Hrb Hl].
    destruct (in_progress (rb_ph r')) eqn:Hip.
    + destruct (Hothers j r' Hj) as [Hg Hlk]; auto; [by intros Hd; rewrite Hd in Hip|].
      split; [eapply rb_ok_frame; [|done|done|done]; by left|].
      intros Hin. rewrite (Hlk Hip). by apply Hl.
    + split; [|intros Hin; congruence]. destruct (rb_ph r') eqn:Hph; try done; [|by unfold rb_ok; rewrite Hph].
      destruct (Hothers j r' Hj) as [Hg _]; rewrite ?Hph; auto.
      eapply rb_ok_frame; [by left|done|done|done].
  - intros j k rj rk. rewrite !lookup_insert_Some.
    intros [[<- <-]|[Hij Hj]] [[<- <-]|[Hik Hk]] Hne; simpl; try done.
    + destruct (wo_apart w Hw i k r rk Hi Hk Hne) as (H1&H2&H3). split; [done|]. split; [done|].
      intros g Hg. apply H3. by apply Hexp.
    + destruct (wo_apart w Hw j i rj r Hj Hi Hne) as (H1&H2&H3). split; [done|]. split; [done|].
      intros g Hg Hs. apply H3; auto.
    + by eapply (wo_apart w Hw j k).
  - intros j a Hj. eapply ad_ok_frame; [done|done|]. by apply (wo_adders w Hw j).
Qed.

(** Only generation [g0] is touched. *)
Definition only g0 x x' : Prop :=
  forall g, g <> g0 -> fs_meta x' !! g = fs_meta x !! g /\ fs_bits x' !! g = fs_bits x !! g /\
    fs_expiry x' !! g = fs_expiry x !! g.

Lemma only_gen_le t g0 x x' g : only g0 x x' -> g <> g0 -> gen_le t x x' g.
Proof.
  intros Ho Hg. destruct (Ho g Hg) as (Hm&Hb&He). split; [done|]. split; [done|].
  unfold bits_of, expired. by rewrite Hb, He.
Qed.

(** A rebuild in progress works on a generation of its own, or on the one it
    replaced. *)
Lemma move_in_progress w i r g0 x' ph :
  world_ok w -> w_rebuilders w !! i = Some r -> in_progress (rb_ph r) = true ->
  fs_active x' = fs_active (w_filter w) ->
  (forall g, fs_active (w_filter w) = Some g -> answers_no_less (w_now w) (w_filter w) x' g) ->
  only g0 (w_filter w) x' -> (g0 = rb_generation r \/ rb_ph r = RbExpire g0) ->
  rb_ok (protected (w_published w) (w_adders w)) (w_now w) x' (mkRebuilder (rb_token r) (rb_generation r) ph) ->
  (in_progress ph = true -> fs_lock x' = fs_lock (w_filter w)) ->
  ph <> RbStart -> (forall g, ph <> RbExpire g) -> world_ok (moved w i r x' ph).
Proof.
  intros Hw Hi Hr Ha Hans Ho Hg0 Hok Hlk Hns Hne. apply move_ok; try done.
  - intros j r' Hj Hij _ [Hip|Hst].
    + by destruct Hij; eapply one_in_progress.
    + split; [|by rewrite Hst]. eapply only_gen_le; [done|].
      destruct (wo_apart w Hw i j r r' Hi Hj) as (_&H2&H3); [done|].
      destruct Hg0 as [->|Hexp]; [congruence|by eapply H3].
  - intros Hip. simpl in Hip. rewrite (Hlk Hip).
    by destruct (wo_rebuilders w Hw i r Hi) as [_ Hl]; apply Hl.
  - intros g Hg. by destruct (Hne g).
Qed.

Lemma then_go_cases {A P} (m : M ProductTable FilterState error A) (next : A -> P) failed s s' ph :
  then_go m next failed s = (s', Ok ph) ->
  exists r, m s = (s', r) /\ ph = match r with Ok a => next a | Err _ => failed end.
Proof.
  unfold then_go, bind, attempt, ret. destruct (m s) as [s1 r]. intros [= <- <-]. eauto.
Qed.

Lemma HSet_only g fields t x : only g x (HSet g fields t x).
Proof.
  intros g' Hne. unfold HSet. destruct (revive_other t x g g' Hne) as (H1&H2&H3). simpl.
  by rewrite lookup_insert_ne.
Qed.

Lemma set_bits_only g ps t x : only g x (set_bits g ps t x).
Proof.
  intros g' Hne. destruct (set_bits_eq g ps t x) as [->| ->]; [done|].
  destruct (revive_other t x g g' Hne) as (H1&H2&H3). simpl. by rewrite lookup_insert_ne.
Qed.

Lemma del_generation_only g x : only g x (del_generation g x).
Proof.
  intros g' Hne. destruct (del_generation_lookup g g' x) as [_ Hd]. by destruct (Hd Hne) as (?&?&?).
Qed.

Lemma expire_only ttl g t x : only g x (expire_generation ttl g t x).
Proof.
  intros g' Hne. unfold expire_generation. destruct (revive_other t x g g' Hne) as (H1&H2&H3).
  case_bool_decide; simpl; [|done]. by rewrite lookup_insert_ne.
Qed.

Lemma set_bits_gen_le t g ps x g' :
  (g' = g -> expired t x g = false) -> gen_le t x (set_bits g ps t x) g'.
Proof.
  clear bits_range hashes_range batch_range lock_positive.
  intros He. destruct (decide (g' = g)) as [->|Hne].
  - specialize (He eq_refl). destruct (set_bits_eq g ps t x) as [->| ->]; [done|].
    rewrite (revive_not_expired t x g He). split; [done|]. split; [done|].
    unfold bits_of, expired in *. simpl. rewrite He, lookup_insert_eq. simpl. set_solver.
  - by eapply only_gen_le; [apply set_bits_only|].
Qed.

(** The metadata that [HSet] leaves on a generation that does not expire. *)
Lemma HSet_building g fields t x m :
  building x g m -> building (HSet g fields t x) g (Some (fields ∪ default ∅ m)) /\
  bits_of t (HSet g fields t x) g = bits_of t x g.
Proof.
  intros (Ha&He&Hm).
  assert (expired t x g = false) as Hexp by (unfold expired; by rewrite He).
  unfold HSet. rewrite (revive_not_expired t x g Hexp). unfold building, bits_of, expired in *. simpl.
  rewrite He, lookup_insert_eq, Hm. done.
Qed.

Lemma building_not_expired t x g m : building x g m -> expired t x g = false.
Proof. intros (_&He&_). unfold expired. by rewrite He. Qed.

Lemma set_bits_building g ps t x m :
  building x g m -> building (set_bits g ps t x) g m.
Proof.
  clear bits_range hashes_range batch_range lock_positive.
  intros Hb. pose proof (building_not_expired t x g m Hb) as He. destruct Hb as (Ha&Hx&Hm).
  destruct (set_bits_gen_le t g ps x g (fun _ => He)) as (H1&H2&_).
  split; [by rewrite (proj1 (set_bits_fields g ps t x))|]. by rewrite H1, H2.
Qed.

(** ** The phases of a rebuild *)

Abbreviation prot w := (protected (w_published w) (w_adders w)).

Lemma same_filter w i r ph :
  world_ok w -> w_rebuilders w !! i = Some r -> in_progress (rb_ph r) = true ->
  rb_ok (prot w) (w_now w) (w_filter w) (mkRebuilder (rb_token r) (rb_generation r) ph) ->
  ph <> RbStart -> (forall g, ph <> RbExpire g) -> world_ok (moved w i r (w_filter w) ph).
Proof.
  intros Hw Hi Hr Hok Hs He. eapply (move_in_progress w i r (rb_generation r)); try done; [|by left].
  intros g _. apply answers_refl.
Qed.

(** A move that ends in a phase without obligations. *)
Lemma idle_rb_ok P t x token g ph :
  match ph with RbExpire _ | RbDelete | RbUnlock | RbDone => True | _ => False end ->
  rb_ok P t x (mkRebuilder token g ph).
Proof. by destruct ph. Qed.

Lemma active_not_own w r g :
  fs_active (w_filter w) <> Some (rb_generation r) -> fs_active (w_filter w) = Some g -> g <> rb_generation r.
Proof. congruence. Qed.

Lemma rb_meta_ok w i r fs s ph :
  world_ok w -> w_rebuilders w !! i = Some r -> rb_ph r = RbMeta ->
  rb_advance Sum64String config (rb_token r) (rb_generation r) RbMeta (env_of w fs) = (s, Ok ph) ->
  world_ok (moved w i r (ext s) ph).
Proof.
  intros Hw Hi Hph (res&Hm&->)%then_go_cases.
  destruct (wo_rebuilders w Hw i r Hi) as [Hrb _]. unfold rb_ok in Hrb. rewrite Hph in Hrb.
  unfold writeBuildingMetadata, write in Hm.
  match type of Hm with redis ?op ?s0 = _ => destruct (call_cases op s0) as (s1&r1&Hm1&_&_&Hx&Hok) end.
  rewrite Hm in Hm1. injection Hm1 as <- <-. simpl in Hx, Hok.
  assert (in_progress (rb_ph r) = true) as Hip by (by rewrite Hph).
  assert (forall x', x' = w_filter w \/ x' = HSet (rb_generation r) building_meta (w_now w) (w_filter w) ->
    fs_active x' = fs_active (w_filter w) /\ fs_lock x' = fs_lock (w_filter w) /\
    only (rb_generation r) (w_filter w) x' /\
    (forall g, fs_active (w_filter w) = Some g -> answers_no_less (w_now w) (w_filter w) x' g)) as Hfr.
  { intros x' [->| ->]; [split_and!; try done; intros g _; apply answers_refl|].
    destruct (HSet_fields (rb_generation r) building_meta (w_now w) (w_filter w)) as [H1 H2].
    split_and!; [done|done|apply HSet_only|]. intros g Hg. apply HSet_other.
    eapply active_not_own; [apply Hrb|done]. }
  destruct (Hfr (ext s) Hx) as (H1&H2&H3&H4).
  eapply (move_in_progress w i r (rb_generation r)); try done; [by left|..]; destruct res; try done.
  destruct (Hok _ eq_refl) as [-> _]. simpl.
  destruct (HSet_building (rb_generation r) building_meta (w_now w) (w_filter w) None Hrb) as [Hb _].
  simpl in Hb. rewrite (right_id_L ∅ (∪)) in Hb. split; [done|]. intros p Hp Hle.
  destruct (wo_protected w Hw p Hp) as [_ Hpos]. lia.
Qed.

(** *** Loading *)

Lemma ids_after_complete after d p :
  StronglySorted Z.lt d -> p ∈ d -> after < p ->
  let ids := ids_after after (BatchSize config) d in
  p ∈ ids \/ BatchSize config <= Z.of_nat (length ids) /\ Forall (fun q => q < p) ids.
Proof.
  intros Hs Hp Ha ids. subst ids. unfold ids_after, batch_limit, ProductTable in *.
  replace (BatchSize config <=? 0) with false by lia. replace (10000 <? BatchSize config) with false by lia.
  set (n := Z.to_nat (BatchSize config)).
  assert (StronglySorted Z.lt (filter (fun id => after < id) d)) as Hsf.
  { clear -Hs. induction Hs as [|q d Hs IH Hq]; [constructor|]. rewrite filter_cons.
    destruct (decide (after < q)); [|done]. constructor; [done|].
    apply Forall_forall. intros z [_ Hz]%list_elem_of_filter. by rewrite Forall_forall in Hq; apply Hq. }
  assert (p ∈ filter (fun id => after < id) d) as Hin by (by apply list_elem_of_filter).
  apply list_elem_of_lookup in Hin as [k Hk].
  destruct (decide (k < n)%nat) as [Hlt|Hge].
  - left. apply elem_of_take. by exists k.
  - right. pose proof (lookup_lt_Some _ _ _ Hk) as Hlen. rewrite length_take. split; [unfold ProductTable, n in *; lia|].
    apply Forall_forall. intros q Hq. apply elem_of_take in Hq as (m&Hm&Hmn).
    assert (m < k)%nat as Hmk by lia. clear -Hsf Hk Hm Hmk.
    revert m k Hk Hm Hmk. induction Hsf as [|z l Hs IH Hz]; intros m k Hk Hm Hmk; [done|].
    destruct k as [|k]; [lia|]. destruct m as [|m]; simplify_eq/=.
    + rewrite Forall_forall in Hz. apply Hz. apply list_elem_of_lookup. eauto.
    + eapply IH; eauto. lia.
Qed.

Lemma rb_load_ok w i r after count fs s ph :
  world_ok w -> w_rebuilders w !! i = Some r -> rb_ph r = RbLoad after count ->
  rb_advance Sum64String config (rb_token r) (rb_generation r) (RbLoad after count) (env_of w fs) = (s, Ok ph) ->
  world_ok (moved w i r (ext s) ph).
Proof.
  intros Hw Hi Hph (res&Hm&->)%then_go_cases.
  destruct (wo_rebuilders w Hw i r Hi) as [Hrb _]. unfold rb_ok in Hrb. rewrite Hph in Hrb.
  destruct Hrb as [Hb Hcov].
  assert (ext s = w_filter w /\ (forall ids, res = Ok ids -> ids = ids_after after (BatchSize config) (w_table w)))
    as [Hx Hids].
  { unfold ProductIDBatch, sql, env_of, pop_fault in Hm. simpl in Hm.
    destruct fs as [|[] fs]; simpl in Hm; injection Hm as <- <-; split; try done; congruence. }
  rewrite Hx. apply same_filter; try done; [by rewrite Hph|..]; destruct res as [[|q ids]|e]; try done.
  - specialize (Hids _ eq_refl). split; [done|]. intros p Hp.
    destruct (Z.le_gt_cases p after) as [Hle|Hgt]; [auto|].
    destruct (wo_protected w Hw p Hp) as [Hin _].
    destruct (ids_after_complete after (w_table w) p (wo_sorted w Hw) Hin) as [Hc|[Hc _]]; [lia|..];
      rewrite <- Hids in Hc; [by apply elem_of_nil in Hc|simpl in Hc; lia].
  - specialize (Hids _ eq_refl). split; [done|]. split; [done|]. intros p Hp Hgt.
    destruct (wo_protected w Hw p Hp) as [Hin _]. rewrite Hids.
    by apply (ids_after_complete after (w_table w) p (wo_sorted w Hw) Hin).
Qed.

Lemma increasing_last after ids last :
  increasing after ids = Ok last -> (ids = [] /\ last = after) \/ last ∈ ids.
Proof.
  revert after. induction ids as [|q ids IH]; intros after; simpl; [intros [= <-]; by left|].
  destruct (q <=? after); [done|]. intros [[-> ->]|Hin]%IH; right; [by left|by right].
Qed.

Lemma addBatch_covers t x g ids p :
  pipeline_result (concat (map (fun id => bitPositions Sum64String id (bitCount config) (hashCount config)) ids)) = Ok tt ->
  p ∈ ids ->
  covered t (set_bits g (concat (map (fun id => bitPositions Sum64String id (bitCount config) (hashCount config)) ids)) t x) g p.
Proof.
  intros Hok Hp q Hq. apply set_bits_bits; [done|]. apply list_elem_of_In, in_concat.
  exists (positions p). split; [|by apply list_elem_of_In].
  apply in_map_iff. exists p. split; [done|]. by apply list_elem_of_In.
Qed.

Lemma rb_write_ok w i r after ids count fs s ph :
  world_ok w -> w_rebuilders w !! i = Some r -> rb_ph r = RbWrite after ids count ->
  rb_advance Sum64String config (rb_token r) (rb_generation r) (RbWrite after ids count) (env_of w fs) = (s, Ok ph) ->
  world_ok (moved w i r (ext s) ph).
Proof.
  intros Hw Hi Hph. cbn [rb_advance].
  destruct (wo_rebuilders w Hw i r Hi) as [Hrb _]. unfold rb_ok in Hrb. rewrite Hph in Hrb.
  destruct Hrb as (Hb&Hcov&Hids). assert (in_progress (rb_ph r) = true) as Hip by (by rewrite Hph).
  destruct (increasing after ids) as [last|e] eqn:Hinc.
  2:{ unfold ret. intros [= <- <-]. by apply same_filter. }
  intros (res&Hm&->)%then_go_cases. unfold addBatch, pipeline_set in Hm.
  set (ps := concat _) in Hm.
  match type of Hm with redis ?op ?s0 = _ => destruct (call_cases op s0) as (s1&r1&Hm1&_&_&Hx&Hok) end.
  rewrite Hm in Hm1. injection Hm1 as <- <-. simpl in Hx, Hok.
  destruct (set_bits_fields (rb_generation r) ps (w_now w) (w_filter w)) as [Hfa Hfl].
  assert (fs_active (ext s) = fs_active (w_filter w) /\ fs_lock (ext s) = fs_lock (w_filter w) /\
    only (rb_generation r) (w_filter w) (ext s) /\
    (forall g, answers_no_less (w_now w) (w_filter w) (ext s) g)) as (H1&H2&H3&H4).
  { destruct Hx as [->| ->]; [split_and!; try done; intros g; apply answers_refl|].
    split_and!; [done|done|apply set_bits_only|intros g; apply set_bits_answers]. }
  eapply (move_in_progress w i r (rb_generation r)); try done; [by left| |by destruct res; [case_match|]..].
  destruct res as [u|e]; [|done]. destruct (Hok u eq_refl) as [-> Hpr].
  assert (pipeline_result ps = Ok tt) as Hpr' by (by destruct u).
  pose proof (building_not_expired (w_now w) _ _ _ Hb) as Hne.
  pose proof (set_bits_building (rb_generation r) ps (w_now w) (w_filter w) _ Hb) as Hb'.
  destruct (set_bits_gen_le (w_now w) (rb_generation r) ps (w_filter w) (rb_generation r) (fun _ => Hne)) as (_&_&Hsub).
  assert (forall p, protected (w_published w) (w_adders w) p -> p <= after \/ p ∈ ids ->
    covered (w_now w) (set_bits (rb_generation r) ps (w_now w) (w_filter w)) (rb_generation r) p) as Hc.
  { intros p Hp [Hle|Hin]; [intros q Hq; by apply Hsub, (Hcov p Hp Hle)|by apply addBatch_covers]. }
  destruct (Z.ltb_spec (Z.of_nat (length ids)) (BatchSize config)) as [Hlt|Hge]; simpl.
  - split; [done|]. intros p Hp. apply Hc; [done|].
    destruct (Z.le_gt_cases p after) as [|Hgt]; [by left|right].
    destruct (Hids p Hp) as [|[Hge _]]; [lia|done|lia].
  - split; [done|]. intros p Hp Hle. apply Hc; [done|].
    destruct (Z.le_gt_cases p after) as [|Hgt]; [by left|right].
    destruct (Hids p Hp) as [|[_ Hall]]; [lia|done|].
    destruct (increasing_last after ids last Hinc) as [[-> ->]|Hlast]; [lia|].
    rewrite Forall_forall in Hall. specialize (Hall last Hlast). lia.
Qed.

(** *** Activation *)

Lemma rb_mark_ok w i r count fs s ph :
  world_ok w -> w_rebuilders w !! i = Some r -> rb_ph r = RbMark count ->
  rb_advance Sum64String config (rb_token r) (rb_generation r) (RbMark count) (env_of w fs) = (s, Ok ph) ->
  world_ok (moved w i r (ext s) ph).
Proof.
  intros Hw Hi Hph (res&Hm&->)%then_go_cases.
  destruct (wo_rebuilders w Hw i r Hi) as [Hrb _]. unfold rb_ok in Hrb. rewrite Hph in Hrb.
  destruct Hrb as [Hb Hcov]. assert (in_progress (rb_ph r) = true) as Hip by (by rewrite Hph).
  unfold markReady, write in Hm. set (fields := <["state" := "ready"]> _) in Hm.
  match type of Hm with redis ?op ?s0 = _ => destruct (call_cases op s0) as (s1&r1&Hm1&_&_&Hx&Hok) end.
  rewrite Hm in Hm1. injection Hm1 as <- <-. simpl in Hx, Hok.
  destruct (HSet_fields (rb_generation r) fields (w_now w) (w_filter w)) as [Hfa Hfl].
  assert (fs_active (ext s) = fs_active (w_filter w) /\ fs_lock (ext s) = fs_lock (w_filter w) /\
    only (rb_generation r) (w_filter w) (ext s) /\
    (forall g, fs_active (w_filter w) = Some g -> answers_no_less (w_now w) (w_filter w) (ext s) g)) as (H1&H2&H3&H4).
  { destruct Hx as [->| ->]; [split_and!; try done; intros g _; apply answers_refl|].
    split_and!; [done|done|apply HSet_only|]. intros g Hg. apply HSet_other.
    eapply active_not_own; [apply Hb|done]. }
  eapply (move_in_progress w i r (rb_generation r)); try done; [by left| |by destruct res..].
  destruct res as [u|e]; [|done]. destruct (Hok u eq_refl) as [-> _].
  destruct (HSet_building (rb_generation r) fields (w_now w) (w_filter w) _ Hb) as [Hb' Hbits].
  split; [done|]. intros p Hp q Hq. simpl. rewrite Hbits. by apply (Hcov p Hp).
Qed.

Lemma rb_expire_ok w i r previous fs s ph :
  world_ok w -> w_rebuilders w !! i = Some r -> rb_ph r = RbExpire previous ->
  rb_advance Sum64String config (rb_token r) (rb_generation r) (RbExpire previous) (env_of w fs) = (s, Ok ph) ->
  world_ok (moved w i r (ext s) ph).
Proof.
  intros Hw Hi Hph (res&Hm&->)%then_go_cases.
  assert (in_progress (rb_ph r) = true) as Hip by (by rewrite Hph).
  unfold expireGeneration, write in Hm.
  match type of Hm with redis ?op ?s0 = _ => destruct (call_cases op s0) as (s1&r1&Hm1&_&_&Hx&_) end.
  rewrite Hm in Hm1. injection Hm1 as <- <-. simpl in Hx.
  destruct (expire_fields (OldGenerationTTL config) previous (w_now w) (w_filter w)) as [Hfa Hfl].
  assert (fs_active (ext s) = fs_active (w_filter w) /\ fs_lock (ext s) = fs_lock (w_filter w) /\
    only previous (w_filter w) (ext s) /\
    (forall g, answers_no_less (w_now w) (w_filter w) (ext s) g)) as (H1&H2&H3&H4).
  { destruct Hx as [->| ->]; [split_and!; try done; intros g; apply answers_refl|].
    split_and!; [done|done|apply expire_only|intros g; apply expire_answers]. }
  eapply (move_in_progress w i r previous); try done; [by right|by destruct res..].
Qed.

Lemma rb_delete_ok w i r fs s ph :
  world_ok w -> w_rebuilders w !! i = Some r -> rb_ph r = RbDelete ->
  rb_advance Sum64String config (rb_token r) (rb_generation r) RbDelete (env_of w fs) = (s, Ok ph) ->
  world_ok (moved w i r (ext s) ph).
Proof.
  intros Hw Hi Hph (res&Hm&->)%then_go_cases.
  assert (in_progress (rb_ph r) = true) as Hip by (by rewrite Hph).
  unfold deleteGeneration, write in Hm.
  match type of Hm with redis ?op ?s0 = _ => destruct (call_cases op s0) as (s1&r1&Hm1&_&_&Hx&_) end.
  rewrite Hm in Hm1. injection Hm1 as <- <-. simpl in Hx.
  assert (fs_active (ext s) = fs_active (w_filter w) /\ fs_lock (ext s) = fs_lock (w_filter w) /\
    only (rb_generation r) (w_filter w) (ext s) /\
    (forall g, answers_no_less (w_now w) (w_filter w) (ext s) g)) as (H1&H2&H3&H4).
  { destruct Hx as [->| ->]; [split_and!; try done; intros g; apply answers_refl|].
    split_and!; [done|done|apply del_generation_only|intros g; apply del_generation_answers]. }
  eapply (move_in_progress w i r (rb_generation r)); try done; [by left|by destruct res..].
Qed.

Lemma covered_covers t x g p count :
  building x g (Some (ready_meta count)) -> covered t x g p -> covers t x g p.
Proof.
  intros Hb Hc md. pose proof (building_not_expired t x g _ Hb) as He. destruct Hb as (_&_&Hm).
  unfold meta_of. rewrite He, Hm. cbn [from_option id]. rewrite metadata_of_ready. intros [= <-]. exact Hc.
Qed.

Lemma activated_ok w i r count ph :
  world_ok w -> w_rebuilders w !! i = Some r -> rb_ph r = RbActivate count ->
  (ph = RbDelete \/ ph = RbUnlock \/
   exists previous, ph = RbExpire previous /\ fs_active (w_filter w) = Some previous) ->
  world_ok (moved w i r (with_active (Some (rb_generation r)) (w_filter w)) ph).
Proof.
  intros Hw Hi Hph Hnext. destruct (wo_rebuilders w Hw i r Hi) as [Hrb Hl].
  unfold rb_ok in Hrb. rewrite Hph in Hrb. destruct Hrb as [Hb Hcov].
  assert (in_progress (rb_ph r) = true) as Hip by (by rewrite Hph).
  assert (forall p, protected (w_published w) (w_adders w) p ->
    active_covers (w_now w) (with_active (Some (rb_generation r)) (w_filter w)) p) as Hall.
  { intros p Hp g. simpl. intros [= <-]. eapply (covered_covers (w_now w) (w_filter w)); eauto. }
  split; simpl; try apply Hw.
  - intros p Hp. apply Hall. by left.
  - intros j r'. rewrite lookup_insert_Some. intros [[<- <-]|[Hne Hj]].
    + split; [apply idle_rb_ok; destruct Hnext as [->|[->|(?&->&_)]]; done|]. intros _. by apply Hl.
    + destruct (wo_rebuilders w Hw j r' Hj) as [Hrb' Hl']. split; [|done].
      refine (rb_ok_frame (prot w) (prot w) (w_now w) (w_filter w) _ r' _ _ _ Hrb');
        [right; simpl|by split_and!|done].
      intros [= Heq]. destruct (wo_apart w Hw i j r r' Hi Hj Hne) as (_&H2&_). congruence.
  - intros j k rj rk. rewrite !lookup_insert_Some.
    intros [[<- <-]|[Hij Hj]] [[<- <-]|[Hik Hk]] Hne; simpl; try done.
    + destruct (wo_apart w Hw i k r rk Hi Hk Hne) as (H1&H2&_). split; [done|]. split; [done|].
      intros g -> Hst. destruct Hnext as [|[|(previous&Heq&Hact)]]; [done|done|].
      injection Heq as <-. destruct (wo_rebuilders w Hw k rk Hk) as [Hrk _].
      unfold rb_ok in Hrk. rewrite Hst in Hrk. destruct Hrk as (Hna&_). congruence.
    + destruct (wo_apart w Hw j i rj r Hj Hi Hne) as (H1&H2&_). split; [done|]. split; [done|].
      intros g _ ->. by destruct Hnext as [|[|(?&?&_)]].
    + by eapply (wo_apart w Hw j k).
  - intros j a Hj. unfold ad_ok. destruct (ad_ph a) as [| |g|g md| |] eqn:Hp; try done.
    + intros g' Hg'. right. apply Hall; [|done]. right. exists j, a. by rewrite Hp.
    + intros g' Hg'. right. apply Hall; [|done]. right. exists j, a. by rewrite Hp.
    + apply Hall. right. exists j, a. by rewrite Hp.
Qed.

Lemma rb_activate_ok w i r count fs s ph :
  world_ok w -> w_rebuilders w !! i = Some r -> rb_ph r = RbActivate count ->
  rb_advance Sum64String config (rb_token r) (rb_generation r) (RbActivate count) (env_of w fs) = (s, Ok ph) ->
  world_ok (moved w i r (ext s) ph).
Proof.
  intros Hw Hi Hph (res&Hm&->)%then_go_cases.
  assert (in_progress (rb_ph r) = true) as Hip by (by rewrite Hph).
  unfold activate in Hm.
  match type of Hm with redis ?op ?s0 = _ => destruct (call_cases op s0) as (s1&r1&Hm1&_&_&Hx&Hok) end.
  rewrite Hm in Hm1. injection Hm1 as <- <-. simpl in Hx, Hok.
  unfold activateGenerationScript in Hx, Hok. case_bool_decide as Hst; simpl in Hx, Hok.
  - destruct res as [previous|e].
    + destruct (Hok previous eq_refl) as [-> Hp]. injection Hp as Hp.
      eapply activated_ok; [done|done|done|]. right.
      destruct (negb (is_empty previous) && negb (str_eqb previous (rb_generation r))) eqn:Hc; [right|by left].
      exists previous. split; [done|]. bools. destruct (fs_active (w_filter w)); simpl in Hp; congruence.
    + destruct Hx as [->| ->]; [by apply same_filter|]. eapply activated_ok; [done|done|done|]. by left.
  - destruct res as [previous|e]; [by destruct (Hok previous eq_refl)|].
    destruct Hx as [->| ->]; by apply same_filter.
Qed.

(** *** The lock *)

Lemma rb_unlock_ok w i r fs s ph :
  world_ok w -> w_rebuilders w !! i = Some r -> rb_ph r = RbUnlock ->
  rb_advance Sum64String config (rb_token r) (rb_generation r) RbUnlock (env_of w fs) = (s, Ok ph) ->
  world_ok (moved w i r (ext s) ph).
Proof.
  intros Hw Hi Hph (res&Hm&->)%then_go_cases.
  assert (in_progress (rb_ph r) = true) as Hip by (by rewrite Hph).
  unfold unlock in Hm.
  match type of Hm with redis ?op ?s0 = _ => destruct (call_cases op s0) as (s1&r1&Hm1&_&_&Hx&_) end.
  rewrite Hm in Hm1. injection Hm1 as <- <-. simpl in Hx. unfold unlockScript in Hx.
  assert (ext s = w_filter w \/ ext s = with_lock None (w_filter w)) as Hx'.
  { destruct Hx as [->| ->]; [by left|]. case_bool_decide; simpl; auto. }
  assert (match res with Ok _ => RbDone | Err _ => RbDone end = RbDone) as -> by by destruct res.
  destruct Hx' as [->| ->]; eapply (move_in_progress w i r (rb_generation r)); try done;
    try (by left); intros g _; apply answers_refl.
Qed.

Lemma rb_start_ok w i r fs s ph :
  world_ok w -> w_rebuilders w !! i = Some r -> rb_ph r = RbStart ->
  rb_advance Sum64String config (rb_token r) (rb_generation r) RbStart (env_of w fs) = (s, Ok ph) ->
  world_ok (moved w i r (ext s) ph).
Proof.
  intros Hw Hi Hph (res&Hm&->)%then_go_cases.
  destruct (wo_rebuilders w Hw i r Hi) as [Hrb _]. unfold rb_ok in Hrb. rewrite Hph in Hrb.
  unfold acquire in Hm.
  match type of Hm with redis ?op ?s0 = _ => destruct (call_cases op s0) as (s1&r1&Hm1&_&_&Hx&Hok) end.
  rewrite Hm in Hm1. injection Hm1 as <- <-. simpl in Hx, Hok.
  destruct (lock_holder (w_now w) (w_filter w)) as [holder|] eqn:Hh; simpl in Hx, Hok.
  - assert (ext s = w_filter w) as -> by (by destruct Hx).
    assert (match res with Ok a => if a then RbMeta else RbDone | Err _ => RbDone end = RbDone) as ->.
    { destruct res as [a|e]; [|done]. by destruct (Hok a eq_refl) as [_ [= <-]]. }
    apply move_ok; try done. intros g _. apply answers_refl.
  - assert (forall j r', w_rebuilders w !! j = Some r' -> in_progress (rb_ph r') = true -> False) as Hnone.
    { intros j r' Hj Hip. by rewrite (lock_taken w j r' Hw Hj Hip) in Hh. }
    set (x1 := with_lock (Some (rb_token r, w_now w + RebuildLockTTL config)) (w_filter w)) in *.
    assert (fs_active (ext s) = fs_active (w_filter w) /\
      (forall g, answers_no_less (w_now w) (w_filter w) (ext s) g) /\
      (forall g, gen_le (w_now w) (w_filter w) (ext s) g)) as (H1&H2&H3).
    { destruct Hx as [->| ->]; split_and!; try done; intros g; by left. }
    apply move_ok; try done.
    + intros j r' Hj _ _ _. split; [apply H3|]. intros Hip. by destruct (Hnone j r' Hj).
    + destruct res as [[]|e]; try done. by destruct (Hok true eq_refl) as [-> _].
    + destruct res as [[]|e]; try done. intros _. destruct (Hok true eq_refl) as [-> _]. simpl.
      eexists. split; [done|lia].
    + intros g. by destruct res as [[]|].
Qed.

Lemma rb_step_ok w i r fs s ph :
  world_ok w -> w_rebuilders w !! i = Some r ->
  rb_advance Sum64String config (rb_token r) (rb_generation r) (rb_ph r) (env_of w fs) = (s, Ok ph) ->
  world_ok (moved w i r (ext s) ph).
Proof.
  intros Hw Hi Hm. destruct (rb_ph r) eqn:Hph.
  - by eapply rb_start_ok.
  - by eapply rb_meta_ok.
  - by eapply rb_load_ok.
  - by eapply rb_write_ok.
  - by eapply rb_mark_ok.
  - by eapply rb_activate_ok.
  - by eapply rb_expire_ok.
  - by eapply rb_delete_ok.
  - by eapply rb_unlock_ok.
  - injection Hm as <- <-. simpl. apply move_ok; try done. intros g _. apply answers_refl.
Qed.
End invariant.
