(* ===== verification/ExistencePublication.v ===== *)
(** The existence filter, continued: additions, publications, crashes and time
    keep the invariant, and so no reachable gateway calls a published product
    absent. *)

From Stdlib Require Import Sorting.Sorted.
From S2P Require Import Prelude Effects Sql GoText ExistenceFilter ExistenceSteps ExistenceSafety.

Section publication.
Variable Sum64String : string -> Z.
Context (config : Config).
Hypothesis bits_range : 0 < bitCount config < 2 ^ 64.
Hypothesis hashes_range : 0 < hashCount config < 2 ^ 64.
Hypothesis batch_range : 0 < BatchSize config <= 10000.
Hypothesis lock_positive : 0 < RebuildLockTTL config.

Implicit Types (x : FilterState) (g : string) (t p : Z) (w : world).

Abbreviation world_ok := (world_ok Sum64String config).
Abbreviation rb_ok := (rb_ok Sum64String config).
Abbreviation ad_ok := (ad_ok Sum64String).
Abbreviation covers := (covers Sum64String).
Abbreviation active_covers := (active_covers Sum64String).

(** ** One addition moves *)

Definition ad_moved w j (a : adder) x' ph : world :=
  mkWorld (w_table w) (w_published w) x' (w_now w) (w_rebuilders w)
    (<[j := mkAdder (ad_product a) ph]> (w_adders w)).

(** The obligations of a rebuild depend on its own generation, and on the
    protected products only while it is in progress. *)
Lemma rb_ok_additions (prot prot' : Z -> Prop) t x x' r :
  fs_active x' = fs_active x ->
  (forall g, expired t x g = false -> gen_le t x x' g) ->
  (in_progress (rb_ph r) = true -> forall p, prot' p -> prot p) ->
  rb_ok prot t x r -> rb_ok prot' t x' r.
Proof.
  intros Ha Hle Hp Hok.
  assert (forall m, building x (rb_generation r) m -> gen_le t x x' (rb_generation r)) as Hg.
  { intros m Hb. apply Hle. by eapply building_not_expired. }
  destruct (in_progress (rb_ph r)) eqn:Hip.
  - assert (rb_ok prot' t x' r \/ exists m, building x (rb_generation r) m) as [|[m Hb]]; [|done|].
    { unfold ExistenceSafety.rb_ok in *. destruct (rb_ph r); naive_solver. }
    eapply (rb_ok_frame _ _ prot prot' t x); [by left|by eapply Hg|by apply Hp|done].
  - unfold ExistenceSafety.rb_ok in *. destruct (rb_ph r); try done.
    destruct (Hg _ Hok) as (Hm&He&_). destruct Hok as (H1&H2&H3). unfold building. by rewrite Ha, Hm, He.
Qed.

Lemma ad_move_ok w j a x' ph :
  world_ok w -> w_adders w !! j = Some a ->
  fs_active x' = fs_active (w_filter w) -> fs_lock x' = fs_lock (w_filter w) ->
  (forall g, answers_no_less (w_now w) (w_filter w) x' g) ->
  (forall g, expired (w_now w) (w_filter w) g = false -> gen_le (w_now w) (w_filter w) x' g) ->
  (past_check ph = true -> past_check (ad_ph a) = true \/
     0 < ad_product a /\ lock_holder (w_now w) (w_filter w) = None) ->
  ad_ok (w_now w) x' (mkAdder (ad_product a) ph) ->
  world_ok (ad_moved w j a x' ph).
Proof.
  intros Hw Hj Ha Hlk Hans Hle Hpast Hok.
  set (prot := protected (w_published w) (w_adders w)).
  set (prot' := protected (w_published w) (<[j := mkAdder (ad_product a) ph]> (w_adders w))).
  assert (forall p, prot' p -> prot p \/
    p = ad_product a /\ 0 < p /\ lock_holder (w_now w) (w_filter w) = None) as Hprot.
  { intros p [Hp|(k&b&Hk&Hb&Hpc)]; [by left; left|].
    rewrite lookup_insert_Some in Hk. destruct Hk as [[<- <-]|[Hne Hk]]; simpl in *.
    - destruct (Hpast Hpc) as [Hold|Hnew]; [left; right|right]; naive_solver.
    - left; right; eauto. }
  split; simpl.
  - apply Hw.
  - intros p Hp. destruct (Hprot p Hp) as [Hp'|(->&Hpos&_)]; [by apply Hw|].
    split; [|done]. by eapply (wo_products _ _ w Hw j).
  - intros k b. rewrite lookup_insert_Some. intros [[<- <-]|[_ Hk]]; simpl; by eapply (wo_products _ _ w Hw).
  - intros p Hp. eapply active_covers_frame; [done|by intros g _|]. by apply Hw.
  - intros i r Hi. destruct (wo_rebuilders _ _ w Hw i r Hi) as [Hrb Hl]. split.
    + eapply rb_ok_additions; [done|done| |exact Hrb]. intros Hip p Hp.
      destruct (Hprot p Hp) as [|(_&_&Hnone)]; [done|].
      by rewrite (lock_taken Sum64String config w i r Hw Hi Hip) in Hnone.
    + intros Hip. rewrite Hlk. by apply Hl.
  - apply Hw.
  - intros k b. rewrite lookup_insert_Some. intros [[<- <-]|[_ Hk]]; [done|].
    eapply ad_ok_frame; [done|by intros g _|]. by eapply (wo_adders _ _ w Hw).
Qed.

(** A call that only reads. *)
Lemma read_cases {A} (f : Z -> FilterState -> A) w fs s res :
  read f (env_of w fs) = (s, res) ->
  ext s = w_filter w /\ forall v, res = Ok v -> v = f (w_now w) (w_filter w).
Proof.
  intros Hm. unfold read in Hm.
  match type of Hm with redis ?op ?s0 = _ => destruct (call_cases op s0) as (s1&r1&Hm1&_&_&Hx&Hok) end.
  rewrite Hm in Hm1. injection Hm1 as <- <-. simpl in Hx, Hok. split; [by destruct Hx|].
  intros v Hv. destruct (Hok v Hv) as [_ Heq]. congruence.
Qed.

(** An addition that changes nothing in Redis. *)
Lemma ad_same_ok w j a ph :
  world_ok w -> w_adders w !! j = Some a ->
  (past_check ph = true -> past_check (ad_ph a) = true \/
     0 < ad_product a /\ lock_holder (w_now w) (w_filter w) = None) ->
  ad_ok (w_now w) (w_filter w) (mkAdder (ad_product a) ph) ->
  world_ok (ad_moved w j a (w_filter w) ph).
Proof.
  intros Hw Hj Hpast Hok. apply ad_move_ok; try done. intros g. apply answers_refl.
Qed.

Lemma ad_write_ok w j a g md fs s ph :
  world_ok w -> w_adders w !! j = Some a -> ad_ph a = AdWrite g md ->
  ad_advance Sum64String (ad_product a) (AdWrite g md) (env_of w fs) = (s, Ok ph) ->
  world_ok (ad_moved w j a (ext s) ph).
Proof.
  intros Hw Hj Hph (res&Hm&->)%then_go_cases.
  pose proof (wo_adders _ _ w Hw j a Hj) as Had. unfold ExistenceSafety.ad_ok in Had. rewrite Hph in Had.
  unfold addToGeneration, pipeline_set in Hm. set (ps := bitPositions _ _ _ _) in Hm.
  match type of Hm with redis ?op ?s0 = _ => destruct (call_cases op s0) as (s1&r1&Hm1&_&_&Hx&Hok) end.
  rewrite Hm in Hm1. injection Hm1 as <- <-. simpl in Hx, Hok.
  destruct (set_bits_fields g ps (w_now w) (w_filter w)) as [Hfa Hfl].
  assert (fs_active (ext s) = fs_active (w_filter w) /\ fs_lock (ext s) = fs_lock (w_filter w) /\
    (forall g', answers_no_less (w_now w) (w_filter w) (ext s) g') /\
    (forall g', expired (w_now w) (w_filter w) g' = false -> gen_le (w_now w) (w_filter w) (ext s) g'))
    as (H1&H2&H3&H4).
  { destruct Hx as [->| ->]; [split_and!; try done; intros g'; apply answers_refl|].
    split_and!; [done|done|intros g'; apply set_bits_answers|].
    intros g' Hg'. apply set_bits_gen_le; [done..|]. by intros ->. }
  apply ad_move_ok; try done; [by rewrite Hph; left|].
  destruct res as [u|e]; [|done]. destruct (Hok u eq_refl) as [Hxe Hpr].
  assert (pipeline_result ps = Ok tt) as Hpr' by (by destruct u).
  intros g'. simpl. rewrite H1. intros Hg'.
  destruct (Had g' Hg') as [[-> Hmd]|Hc]; [|by eapply covers_answers].
  intros md'. destruct (H3 g) as [[Hmeta _]|Hn]; [|by rewrite Hn]. rewrite Hmeta.
  intros Hmd' q Hq. assert (md' = md) as -> by (destruct Hmd; congruence).
  rewrite Hxe. by apply set_bits_bits.
Qed.

Lemma ad_step_ok w j a fs s ph :
  world_ok w -> w_adders w !! j = Some a ->
  ad_advance Sum64String (ad_product a) (ad_ph a) (env_of w fs) = (s, Ok ph) ->
  world_ok (ad_moved w j a (ext s) ph).
Proof.
  intros Hw Hj. pose proof (wo_adders _ _ w Hw j a Hj) as Had. unfold ExistenceSafety.ad_ok in Had.
  destruct (ad_ph a) as [| |g|g md| |] eqn:Hph; cbn [ad_advance].
  - destruct (Z.leb_spec (ad_product a) 0) as [|Hpos]; [intros [= <- <-]; by apply ad_same_ok|].
    intros (res&[Hx Hres]%read_cases&->)%then_go_cases. rewrite Hx.
    destruct res as [[]|e]; apply ad_same_ok; try done. intros _. right. split; [done|].
    specialize (Hres false eq_refl). by case_bool_decide as Hh; [|rewrite <- eq_None_not_Some in Hh].
  - intros (res&[Hx Hres]%read_cases&->)%then_go_cases. rewrite Hx.
    destruct res as [[g|]|e]; apply ad_same_ok; try done; [by rewrite Hph; left|].
    intros g' Hg'. left. specialize (Hres _ eq_refl). congruence.
  - intros (res&[Hx Hres]%read_cases&->)%then_go_cases. rewrite Hx.
    destruct res as [values|e]; [|by apply ad_same_ok]. specialize (Hres values eq_refl).
    destruct (metadata_of values) as [md|] eqn:Hmd; apply ad_same_ok; try done; [by rewrite Hph; left|].
    intros g' Hg'. destruct (Had g' Hg') as [->|Hc]; [left|by right]. split; [done|]. left. by rewrite <- Hres.
  - by apply ad_write_ok.
  - intros [= <- <-]. apply ad_same_ok; try done. by rewrite Hph; left.
  - intros [= <- <-]. by apply ad_same_ok.
Qed.

(** ** Everything else *)

(** Fewer processes, or fewer published products. *)
Lemma shrink_ok w pub' rs' ads' :
  world_ok w -> (forall p, p ∈ pub' -> active_covers (w_now w) (w_filter w) p) -> rs' ⊆ w_rebuilders w ->
  ads' ⊆ w_adders w ->
  (forall p, protected pub' ads' p -> protected (w_published w) (w_adders w) p) ->
  world_ok (mkWorld (w_table w) pub' (w_filter w) (w_now w) rs' ads').
Proof.
  intros Hw Hpub Hrs Hads Hprot. split; simpl.
  - apply Hw.
  - intros p Hp. by apply Hw, Hprot.
  - intros j a Hj. eapply (wo_products _ _ w Hw j), lookup_weaken; eauto.
  - done.
  - intros i r Hi. destruct (wo_rebuilders _ _ w Hw i r) as [Hrb Hl]; [by eapply lookup_weaken|].
    split; [|done]. eapply rb_ok_additions; [done|by intros g _|by intros _|exact Hrb].
  - intros i j r r' Hi Hj. apply (wo_apart _ _ w Hw); by eapply lookup_weaken.
  - intros j a Hj. eapply (wo_adders _ _ w Hw j), lookup_weaken; eauto.
Qed.

Lemma protected_mono pub pub' ads ads' p :
  pub' ⊆ pub -> ads' ⊆ ads -> protected pub' ads' p -> protected pub ads p.
Proof.
  intros Hpub Hads [Hp|(j&a&Hj&Ha)]; [left; set_solver|right]. exists j, a.
  split; [by eapply lookup_weaken|done].
Qed.

Lemma create_ok w p d :
  world_ok w -> d ≡ₚ p :: w_table w -> StronglySorted Z.lt d ->
  world_ok (mkWorld d (w_published w) (w_filter w) (w_now w) (w_rebuilders w) (w_adders w)).
Proof.
  intros Hw Hd Hs. assert (forall q, q ∈ w_table w -> q ∈ d) as Hin by (intros q Hq; rewrite Hd; by right).
  split; simpl; try apply Hw; [done|..].
  - intros q Hq. destruct (wo_protected _ _ w Hw q Hq). split; [by apply Hin|done].
  - intros j a Hj. apply Hin. by eapply (wo_products _ _ w Hw).
Qed.

Lemma start_rebuild_ok w i token g :
  world_ok w -> w_rebuilders w !! i = None -> fresh_token w token -> fresh_generation w g ->
  world_ok (mkWorld (w_table w) (w_published w) (w_filter w) (w_now w)
              (<[i := mkRebuilder token g RbStart]> (w_rebuilders w)) (w_adders w)).
Proof.
  intros Hw Hi [Htok _] (Hg&Hexp&Hact&Hm&_&He). split; simpl; try apply Hw.
  - intros j r. rewrite lookup_insert_Some. intros [[<- <-]|[_ Hj]]; [by split|].
    by apply (wo_rebuilders _ _ w Hw j).
  - intros j k r r'. rewrite !lookup_insert_Some.
    intros [[<- <-]|[Hij Hj]] [[<- <-]|[Hik Hk]] Hne; simpl; try done.
    + split; [by apply not_eq_sym, (Htok k)|]. split; [by apply not_eq_sym, (Hg k)|done].
    + split; [by apply (Htok j)|]. split; [by apply (Hg j)|]. intros g' Hg' _ <-. by eapply (Hexp j).
    + by eapply (wo_apart _ _ w Hw j k).
Qed.

Lemma start_add_ok w j p :
  world_ok w -> p ∈ w_table w -> w_adders w !! j = None ->
  world_ok (mkWorld (w_table w) (w_published w) (w_filter w) (w_now w) (w_rebuilders w)
              (<[j := mkAdder p AdStart]> (w_adders w))).
Proof.
  intros Hw Hp Hj.
  assert (forall q, protected (w_published w) (<[j := mkAdder p AdStart]> (w_adders w)) q ->
    protected (w_published w) (w_adders w) q) as Hprot.
  { intros q [Hq|(k&a&Hk&Ha&Hpc)]; [by left|right]. rewrite lookup_insert_Some in Hk.
    destruct Hk as [[<- <-]|[_ Hk]]; [done|eauto]. }
  split; simpl; try apply Hw.
  - intros q Hq. by apply Hw, Hprot.
  - intros k a. rewrite lookup_insert_Some. intros [[<- <-]|[_ Hk]]; [done|by eapply (wo_products _ _ w Hw)].
  - intros i r Hi. destruct (wo_rebuilders _ _ w Hw i r Hi) as [Hrb Hl]. split; [|done].
    eapply rb_ok_additions; [done|by intros g _|by intros _|exact Hrb].
  - intros k a. rewrite lookup_insert_Some. intros [[<- <-]|[_ Hk]]; [done|by apply (wo_adders _ _ w Hw k)].
Qed.

Lemma publish_ok w j p :
  world_ok w -> w_adders w !! j = Some (mkAdder p AdAdded) ->
  world_ok (mkWorld (w_table w) ({[p]} ∪ w_published w) (w_filter w) (w_now w) (w_rebuilders w)
              (delete j (w_adders w))).
Proof.
  intros Hw Hj. apply shrink_ok; [done| |done|apply delete_subseteq|].
  - intros q [->%elem_of_singleton|Hq]%elem_of_union; [by apply (wo_adders _ _ w Hw j _ Hj)|by apply Hw].
  - intros q [[->%elem_of_singleton|Hq]%elem_of_union|(k&a&Hk&Ha)].
    + right. by exists j, (mkAdder p AdAdded).
    + by left.
    + right. exists k, a. apply lookup_delete_Some in Hk. naive_solver.
Qed.

Lemma time_ok w t :
  world_ok w -> w_now w <= t ->
  (forall i r e, w_rebuilders w !! i = Some r -> in_progress (rb_ph r) = true ->
     fs_lock (w_filter w) = Some (rb_token r, e) -> t < e) ->
  world_ok (mkWorld (w_table w) (w_published w) (w_filter w) t (w_rebuilders w) (w_adders w)).
Proof.
  intros Hw Ht Hlock. split; simpl; try apply Hw.
  - intros p Hp g Hg. eapply covers_later; [done|]. by apply (wo_published _ _ w Hw p Hp).
  - intros i r Hi. destruct (wo_rebuilders _ _ w Hw i r Hi) as [Hrb Hl]. split.
    + assert (forall m p, building (w_filter w) (rb_generation r) m ->
        covered Sum64String config (w_now w) (w_filter w) (rb_generation r) p ->
        covered Sum64String config t (w_filter w) (rb_generation r) p) as Hcov.
      { intros m p Hb Hc q Hq. specialize (Hc q Hq). unfold bits_of in *.
        rewrite (building_not_expired _ _ _ _ Hb) in Hc. by rewrite (building_not_expired _ _ _ _ Hb). }
      unfold ExistenceSafety.rb_ok in *. destruct (rb_ph r); try done; naive_solver.
    + intros Hip. destruct (Hl Hip) as (e&He&_). exists e. split; [done|]. by eapply Hlock.
  - intros j a Hj. pose proof (wo_adders _ _ w Hw j a Hj) as Ha. unfold ExistenceSafety.ad_ok in *.
    destruct (ad_ph a) as [| |g|g md| |]; try done.
    + intros g' Hg'. destruct (Ha g' Hg') as [|Hc]; [by left|right]. by eapply covers_later.
    + intros g' Hg'. destruct (Ha g' Hg') as [[-> Hmd]|Hc]; [left|right; by eapply covers_later].
      split; [done|]. unfold meta_of. destruct (expired t (w_filter w) g) eqn:He'; [by right|].
      destruct (expired (w_now w) (w_filter w) g) eqn:He.
      * by rewrite (expired_mono _ _ _ _ Ht He) in He'.
      * unfold meta_of in Hmd. by rewrite He in Hmd.
    + intros g' Hg'. eapply covers_later; [done|by apply Ha].
Qed.

(** The negative cache is apart from the filter. *)
Lemma negative_ok w n :
  world_ok w ->
  world_ok (mkWorld (w_table w) (w_published w) (with_negative n (w_filter w)) (w_now w)
              (w_rebuilders w) (w_adders w)).
Proof. intros Hw. split; apply Hw. Qed.

Lemma mark_cases p w fs s r :
  Mark config p (env_of w fs) = (s, r) ->
  ext s = w_filter w \/ exists n, ext s = with_negative n (w_filter w).
Proof.
  unfold Mark. destruct (p <=? 0); [intros [= <- <-]; by left|].
  intros [Hx|Hx]%write_cases; [by left|right; eauto].
Qed.

Lemma invalidate_cases p w fs s r :
  Invalidate p (env_of w fs) = (s, r) ->
  ext s = w_filter w \/ exists n, ext s = with_negative n (w_filter w).
Proof.
  unfold Invalidate. destruct (p <=? 0); [intros [= <- <-]; by left|].
  intros [Hx|Hx]%write_cases; [by left|right; eauto].
Qed.

Lemma filter_step_ok w w' : world_ok w -> step Sum64String config w w' -> world_ok w'.
Proof.
  intros Hw. destruct 1.
  - by eapply create_ok.
  - by apply start_rebuild_ok.
  - by eapply rb_step_ok.
  - apply shrink_ok; [done|apply Hw|apply delete_subseteq|done|done].
  - by apply start_add_ok.
  - by eapply ad_step_ok.
  - apply shrink_ok; [done|apply Hw|done|apply delete_subseteq|].
    intros p. apply protected_mono; [done|apply delete_subseteq].
  - by apply publish_ok.
  - apply shrink_ok; [done| |done|done|].
    + intros q Hq. apply Hw. set_solver.
    + intros q. apply protected_mono; [set_solver|done].
  - destruct (mark_cases p w fs s r) as [->|[n ->]]; [done|by destruct w|by apply negative_ok].
  - destruct (invalidate_cases p w fs s r) as [->|[n ->]]; [done|by destruct w|by apply negative_ok].
  - by apply time_ok.
Qed.

Lemma filter_steps_ok w w' : world_ok w -> steps Sum64String config w w' -> world_ok w'.
Proof. intros Hw Hs. induction Hs; [done|]. by eauto using filter_step_ok. Qed.
End publication.
