(* ===== verification/ExistenceRuns.v ===== *)
(** [rebuild] and [Add] of the existence filter, as the code composes them, are
    runs of the interleaved system; the loop of a rebuild ends. *)

From S2P Require Import Prelude Effects Sql GoText ExistenceFilter ExistenceSteps.

Section runs.
Variable Sum64String : string -> Z.
Context (config : Config).
Abbreviation IO := (M ProductTable FilterState error).
Implicit Types (s : env ProductTable FilterState) (x : FilterState).

(** A process by itself. *)
Inductive runs {P} (advance : P -> IO P)
  : env ProductTable FilterState -> P -> env ProductTable FilterState -> P -> Prop :=
| runs_refl s ph : runs advance s ph s ph
| runs_step s ph s1 ph1 s2 ph2 :
    advance ph s = (s1, Ok ph1) -> runs advance s1 ph1 s2 ph2 -> runs advance s ph s2 ph2.

Lemma moves_trans {P} (adv : P -> IO P) s1 p1 s2 p2 s3 p3 :
  runs adv s1 p1 s2 p2 -> runs adv s2 p2 s3 p3 -> runs adv s1 p1 s3 p3.
Proof. induction 1; eauto using @runs. Qed.

Lemma then_go_run {A P} (m : IO A) (next : A -> P) failed s s' r :
  m s = (s', r) -> then_go m next failed s = (s', Ok (match r with Ok a => next a | Err _ => failed end)).
Proof. unfold then_go, bind, attempt, ret. by intros ->. Qed.

Lemma attempt_run {A B} (m : IO A) (k : res error A -> IO B) s s' r :
  m s = (s', r) -> bind (attempt m) k s = k r s'.
Proof. unfold bind, attempt. by intros ->. Qed.

(** ** Calls leave the table and the clock alone *)

Definition keeps {A} (m : IO A) : Prop := forall s, db (m s).1 = db s /\ now (m s).1 = now s.

Lemma keeps_redis {A} (op : Z -> FilterState -> FilterState * res error A) : keeps (redis op).
Proof. intros s. by destruct (call_cases op s) as (s'&r&->&?&?&_). Qed.

Lemma keeps_ids afterID limit : keeps (ProductIDBatch afterID limit).
Proof.
  intros [d x t fs]. unfold ProductIDBatch, sql, pop_fault. simpl. by destruct fs as [|[] fs].
Qed.

Lemma keeps_then_go {A P} (m : IO A) (next : A -> P) failed : keeps m -> keeps (then_go m next failed).
Proof. intros Hm s. specialize (Hm s). unfold then_go, bind, attempt, ret. by destruct (m s). Qed.

Lemma keeps_rb token generation ph : keeps (rb_advance Sum64String config token generation ph).
Proof.
  destruct ph; cbn [rb_advance];
    unfold acquire, writeBuildingMetadata, addBatch, pipeline_set, markReady, activate, expireGeneration,
      deleteGeneration, unlock, write; try done; try apply keeps_then_go;
    try apply keeps_redis; try apply keeps_ids.
  destruct (increasing afterID ids); [|done]. apply keeps_then_go, keeps_redis.
Qed.

Lemma keeps_ad p ph : keeps (ad_advance Sum64String p ph).
Proof.
  destruct ph; cbn [ad_advance]; unfold rebuilding, read, addToGeneration, pipeline_set; try done;
    try apply keeps_then_go; try apply keeps_redis.
  destruct (p <=? 0); [done|]. apply keeps_then_go, keeps_redis.
Qed.

(** ** The loop *)

(** Products that the loop has not reached. *)
Definition unread (afterID : Z) (d : ProductTable) : nat := length (filter (fun id => afterID < id) d).

Lemma unread_mono (d : list Z) a b :
  a <= b -> (unread b d <= unread a d)%nat /\
  (forall z, z ∈ d -> a < z <= b -> (unread b d < unread a d)%nat).
Proof.
  intros Hab. unfold unread, ProductTable.
  induction d as [|y l [IH1 IH2]]; [split; [done|by intros z Hz%elem_of_nil]|].
  rewrite !filter_cons. destruct (decide (b < y)), (decide (a < y)); simpl; try lia; split; try lia.
  all: intros z [->|Hz]%elem_of_cons Haz; try lia; specialize (IH2 z Hz Haz); lia.
Qed.

(** A batch that is not refused ends after the position it started from. *)
Lemma increasing_unread afterID d id ids last :
  ids_after afterID (BatchSize config) d = id :: ids -> increasing afterID (id :: ids) = Ok last ->
  (unread last d < unread afterID d)%nat.
Proof.
  intros Hids Hinc.
  assert (afterID <= last /\ last ∈ id :: ids) as [Hle Hin].
  { clear Hids. revert afterID id Hinc. induction ids as [|q ids IH]; intros afterID id; simpl;
      destruct (Z.leb_spec id afterID) as [|Hgt]; try done.
    - intros [= <-]. split; [lia|by left].
    - intros Hinc. destruct (IH id q Hinc) as [H1 H2]. split; [lia|by right]. }
  rewrite <- Hids in Hin. unfold ids_after in Hin.
  assert (last ∈ filter (fun id => afterID < id) d) as [Hlt Hd]%list_elem_of_filter
    by (by eapply subseteq_take).
  destruct (unread_mono d afterID last Hle) as [_ Hless]. by apply (Hless last).
Qed.

Lemma ids_cases afterID s s' r :
  ProductIDBatch afterID (BatchSize config) s = (s', r) ->
  db s' = db s /\ forall ids, r = Ok ids -> ids = ids_after afterID (BatchSize config) (db s).
Proof.
  destruct s as [d x t fs]. unfold ProductIDBatch, sql, pop_fault. simpl.
  destruct fs as [|[] fs]; simpl; intros [= <- <-]; split; try done; congruence.
Qed.

Lemma increasing_error afterID ids e : increasing afterID ids = Err e -> e <> out_of_fuel.
Proof.
  revert afterID. induction ids as [|q ids IH]; intros a; simpl; [done|].
  destruct (q <=? a); [|apply IH]. by intros [= <-].
Qed.

Lemma addBatch_error generation ids s s' e :
  addBatch Sum64String config generation ids s = (s', Err e) -> e <> out_of_fuel.
Proof.
  unfold addBatch, pipeline_set, redis, bind, get_now, call, pop_fault, pipeline_result.
  destruct (faults s) as [|[] fs]; simpl; try destruct (forallb _ _); intros [= _ <-]; done.
Qed.

Lemma ids_error afterID s s' e : ProductIDBatch afterID (BatchSize config) s = (s', Err e) -> e <> out_of_fuel.
Proof.
  destruct s as [d x t fs]. unfold ProductIDBatch, sql, pop_fault. simpl.
  destruct fs as [|[] fs]; simpl; intros [= _ <-]; done.
Qed.

(** A round of the loop as two moves. *)
Lemma load_batch_runs token generation afterID count s s' r :
  load_batch Sum64String config generation afterID s = (s', r) ->
  runs (rb_advance Sum64String config token generation) s (RbLoad afterID count) s'
    (match r with
     | Ok (last, n, true) => RbLoad last (count + n)
     | Ok (_, n, false) => RbMark (count + n)
     | Err _ => RbDelete
     end) /\
  r <> Err out_of_fuel /\ db s' = db s /\
  (forall last n, r = Ok (last, n, true) -> (unread last (db s) < unread afterID (db s))%nat).
Proof.
  unfold load_batch, bind at 1.
  destruct (ProductIDBatch afterID (BatchSize config) s) as [s1 r1] eqn:Hids.
  destruct (ids_cases _ _ _ _ Hids) as [Hdb Hr1].
  pose proof (then_go_run _ (fun ids => match ids with [] => RbMark count | _ => RbWrite afterID ids count end)
    RbDelete _ _ _ Hids) as Hgo.
  destruct r1 as [[|id ids]|e].
  - unfold ret. intros [= <- <-]. rewrite Z.add_0_r. split; [|done]. eapply runs_step; [exact Hgo|apply runs_refl].
  - unfold bind at 1, of_res. destruct (increasing afterID (id :: ids)) as [last|e] eqn:Hinc.
    2:{ intros [= <- <-]. split.
        - eapply runs_step; [exact Hgo|]. eapply runs_step; [cbn [rb_advance]; rewrite Hinc; done|apply runs_refl].
        - split; [|done]. intros [= ->]. by apply increasing_error in Hinc. }
    unfold bind at 1. destruct (addBatch Sum64String config generation (id :: ids) s1) as [s2 r2] eqn:Hadd.
    pose proof (then_go_run _ (fun _ => if Z.of_nat (length (id :: ids)) <? BatchSize config
      then RbMark (count + Z.of_nat (length (id :: ids))) else RbLoad last (count + Z.of_nat (length (id :: ids))))
      RbDelete _ _ _ Hadd) as Hw.
    assert (db s2 = db s) as Hdb2.
    { rewrite <- Hdb. unfold addBatch, pipeline_set in Hadd.
      match type of Hadd with redis ?op _ = _ => destruct (keeps_redis op s1) as [Hd _] end. by rewrite Hadd in Hd. }
    assert (runs (rb_advance Sum64String config token generation) s (RbLoad afterID count) s2
      (match r2 with Ok _ => if Z.of_nat (length (id :: ids)) <? BatchSize config
         then RbMark (count + Z.of_nat (length (id :: ids))) else RbLoad last (count + Z.of_nat (length (id :: ids)))
       | Err _ => RbDelete end)) as Hrun.
    { eapply runs_step; [exact Hgo|]. eapply runs_step; [cbn [rb_advance]; rewrite Hinc; exact Hw|apply runs_refl]. }
    destruct r2 as [u|e]; [|intros [= <- <-]; split_and!; try done; intros [= ->]; by apply addBatch_error in Hadd].
    unfold ret. destruct (Z.of_nat (length (id :: ids)) <? BatchSize config); cbn [negb];
      intros [= <- <-]; split_and!; try done.
    intros last' n [= <- _]. by eapply increasing_unread; [symmetry; apply Hr1|].
  - intros [= <- <-]. split; [eapply runs_step; [exact Hgo|apply runs_refl]|].
    split; [|done]. intros [= ->]. by apply ids_error in Hids.
Qed.

(** The loop of [loadGeneration], with enough fuel, reads every batch. *)
Lemma loadGeneration_runs token generation fuel afterID count s s' r :
  (unread afterID (db s) < fuel)%nat ->
  loadGeneration Sum64String config fuel generation afterID count s = (s', r) ->
  runs (rb_advance Sum64String config token generation) s (RbLoad afterID count) s'
    (match r with Ok n => RbMark n | Err _ => RbDelete end) /\ r <> Err out_of_fuel.
Proof.
  revert afterID count s. induction fuel as [|fuel IH]; intros afterID count s Hfuel; [lia|].
  cbn [loadGeneration]. unfold bind at 1.
  destruct (load_batch Sum64String config generation afterID s) as [s1 r1] eqn:Hb.
  destruct (load_batch_runs token generation afterID count s s1 r1 Hb) as (Hrun&Hne&Hdb&Hless).
  destruct r1 as [[[last n] []]|e].
  - intros Hload. specialize (Hless _ _ eq_refl).
    destruct (IH last (count + n) s1) as [Hrun2 Hne2]; [rewrite Hdb; lia|done|].
    split; [by eapply moves_trans|done].
  - unfold ret. by intros [= <- <-].
  - intros [= <- <-]. split; [done|]. intros [= ->]. done.
Qed.

(** ** The whole rebuild *)

Section rebuild.
Variables (token generation : string).
Abbreviation adv := (rb_advance Sum64String config token generation).

(** A part of the rebuild that takes phase [ph] to [next a] when it returns [a],
    and to [failed] when it fails. *)
Definition part {A} (m : IO A) ph (next : A -> rb_phase) failed s : Prop :=
  forall s' r, m s = (s', r) ->
    runs adv s ph s' (match r with Ok a => next a | Err _ => failed end) /\ r <> Err out_of_fuel.

Lemma part_bind {A B} (m : IO A) (k : A -> IO B) ph next next' failed s :
  part m ph next failed s ->
  (forall a s1, m s = (s1, Ok a) -> part (k a) (next a) next' failed s1) ->
  part (bind m k) ph next' failed s.
Proof.
  intros Hm Hk s' r. unfold bind. destruct (m s) as [s1 [a|e]] eqn:Hs.
  - destruct (Hm _ _ Hs) as [Hr _]. intros Hka. destruct (Hk a s1 eq_refl _ _ Hka) as [Hr2 Hne].
    split; [by eapply moves_trans|done].
  - intros [= <- <-]. destruct (Hm _ _ Hs). split; [done|]. by intros [= ->].
Qed.

Lemma part_ret {A} (a : A) ph failed s : part (ret a) ph (fun _ => ph) failed s.
Proof. intros s' r [= <- <-]. split; [apply runs_refl|done]. Qed.

Lemma redis_error {A} (op : Z -> FilterState -> FilterState * res error A) s s' e :
  (forall t x, (op t x).2 <> Err out_of_fuel) -> redis op s = (s', Err e) -> e <> out_of_fuel.
Proof.
  intros Hop. unfold redis, bind, get_now, call, pop_fault.
  destruct (faults s) as [|[] fs]; simpl; try (by intros [= _ <-]).
  all: specialize (Hop (now s) (ext s)); destruct (op (now s) (ext s)) as [x r]; simpl in *;
    intros [= _ ->] ->; done.
Qed.

(** One call. *)
Lemma part_call {A} (op : Z -> FilterState -> FilterState * res error A) ph next failed s :
  (forall t x, (op t x).2 <> Err out_of_fuel) ->
  adv ph s = then_go (redis op) next failed s -> part (redis op) ph next failed s.
Proof.
  intros Hop Ha s' r Hr. split.
  - eapply runs_step; [|apply runs_refl]. rewrite Ha. by apply then_go_run.
  - intros ->. by apply redis_error in Hr.
Qed.

(** A call whose outcome does not matter. *)
Lemma part_ignore {A} (m : IO A) ph ph' failed s :
  part m ph (fun _ => ph') ph' s -> part (ignore m) ph (fun _ => ph') failed s.
Proof.
  intros Hm s' r. unfold ignore. destruct (m s) as [s1 r1] eqn:Hr. intros [= <- <-].
  destruct (Hm _ _ Hr) as [Hrun _]. split; [by destruct r1|done].
Qed.

(** A failure is followed by the deletion of the new generation. *)
Lemma part_or_delete {A} (m : IO A) ph next s :
  part m ph next RbDelete s -> part (or_delete generation m) ph next RbUnlock s.
Proof.
  intros Hm s' r. unfold or_delete. destruct (m s) as [s1 r1] eqn:Hr. rewrite (attempt_run _ _ _ _ _ Hr).
  destruct (Hm _ _ Hr) as [Hrun Hne]. destruct r1 as [a|e]; unfold ret; [by intros [= <- <-]|].
  unfold bind. destruct (ignore (deleteGeneration generation) s1) as [s2 r2] eqn:Hd.
  assert (part (ignore (deleteGeneration generation)) RbDelete (fun _ => RbUnlock) RbUnlock s1) as Hdel
    by (by apply part_ignore, part_call).
  destruct (Hdel _ _ Hd) as [Hrun2 _]. assert (r2 = Ok tt) as ->.
  { unfold ignore in Hd. destruct (deleteGeneration generation s1). by injection Hd as _ <-. }
  unfold throw. intros [= <- <-]. split; [by eapply moves_trans|]. by intros [= ->].
Qed.

Lemma activate_error t x : (activateGenerationScript generation t x).2 <> Err out_of_fuel.
Proof. unfold activateGenerationScript. by case_bool_decide. Qed.

(** What [build] does, from the metadata to the lock being given back. *)
Lemma build_runs fuel s :
  (unread 0 (db s) < fuel)%nat ->
  part (build Sum64String config fuel generation) RbMeta (fun _ => RbUnlock) RbUnlock s.
Proof.
  intros Hfuel. unfold build.
  eapply part_bind; [by apply (part_call _ _ (fun _ => RbLoad 0 0))|]. intros [] s1 Hs1.
  eapply (part_bind _ _ _ RbMark).
  { apply part_or_delete. intros s' r. apply loadGeneration_runs.
    unfold writeBuildingMetadata, write in Hs1.
    match type of Hs1 with redis ?op _ = _ => destruct (keeps_redis op s) as [Hd _] end.
    rewrite Hs1 in Hd. simpl in Hd. by rewrite Hd. }
  intros count s2 _.
  eapply (part_bind _ _ _ (fun _ => RbActivate count)); [by apply part_or_delete, part_call|].
  intros [] s3 _. eapply part_bind; [apply part_or_delete, part_call; [apply activate_error|done]|].
  intros previous s4 Hs4. simpl. clear Hs4. destruct (negb (is_empty previous) && negb (str_eqb previous generation)).
  - eapply (part_bind _ _ _ (fun _ => RbUnlock)); [by apply part_ignore, part_call|].
    intros. apply part_ret.
  - eapply (part_bind _ _ _ (fun _ => RbUnlock)); [apply part_ret|]. intros. apply part_ret.
Qed.

Lemma rebuild_runs fuel s :
  (unread 0 (db s) < fuel)%nat ->
  part (rebuild Sum64String config fuel token generation) RbStart (fun _ => RbDone) RbDone s.
Proof.
  intros Hfuel. unfold rebuild.
  eapply (part_bind _ _ _ (fun ok : bool => if ok then RbMeta else RbDone)).
  { apply part_call; [|done]. intros t x. by destruct (lock_holder t x). }
  intros acquired s1 Hs1. destruct acquired; cbn [negb].
  2:{ intros s' r [= <- <-]. split; [apply runs_refl|done]. }
  intros s' r. destruct (build Sum64String config fuel generation s1) as [s2 r2] eqn:Hb.
  rewrite (attempt_run _ _ _ _ _ Hb).
  destruct (build_runs fuel s1) with (s' := s2) (r := r2) as [Hrun Hne]; [|done|].
  { unfold acquire in Hs1. match type of Hs1 with redis ?op _ = _ => destruct (keeps_redis op s) as [Hd _] end.
    rewrite Hs1 in Hd. simpl in Hd. by rewrite Hd. }
  assert (part (ignore (unlock token)) RbUnlock (fun _ => RbDone) RbDone s2) as Hun.
  { apply part_ignore, part_call; [|done]. intros t x. unfold unlockScript. by case_bool_decide. }
  unfold bind at 1. destruct (unlock token s2) as [s3 r3] eqn:Hu.
  assert (ignore (unlock token) s2 = (s3, Ok tt)) as Hi by (unfold ignore; by rewrite Hu). rewrite Hi.
  destruct (Hun _ _ Hi) as [Hrun3 _]. unfold of_res. intros [= <- <-].
  split; [|done]. replace (match r2 with Ok _ | Err _ => RbUnlock end) with RbUnlock in Hrun by (by destruct r2).
  replace (match r2 with Ok _ | Err _ => RbDone end) with RbDone by (by destruct r2). by eapply moves_trans.
Qed.
End rebuild.

(** ** [Add] *)

Lemma read_run {A P} (adv : P -> IO P) (f : Z -> FilterState -> A) (ph : P) next failed s s' r :
  adv ph s = then_go (read f) next failed s -> read f s = (s', r) ->
  runs adv s ph s' (match r with Ok a => next a | Err _ => failed end).
Proof. intros Ha Hr. eapply runs_step; [rewrite Ha; by apply then_go_run|apply runs_refl]. Qed.

Lemma Add_runs p s s' r :
  Add Sum64String p s = (s', r) ->
  runs (ad_advance Sum64String p) s AdStart s' (match r with Ok _ => AdAdded | Err _ => AdFailed end).
Proof.
  unfold Add. destruct (p <=? 0) eqn:Hp.
  { intros [= <- <-]. eapply runs_step; [simpl; by rewrite Hp|apply runs_refl]. }
  unfold bind at 1. destruct (rebuilding s) as [s1 r1] eqn:H1.
  assert (runs (ad_advance Sum64String p) s AdStart s1
    (match r1 with Ok busy => if busy then AdFailed else AdChecked | Err _ => AdFailed end)) as Hr1.
  { eapply read_run; [|exact H1]. simpl. by rewrite Hp. }
  destruct r1 as [[]|e]; [by intros [= <- <-]| |by intros [= <- <-]].
  intros Hr. eapply moves_trans; [exact Hr1|]. clear Hr1 H1.
  unfold bind, attempt, activeMetadata, bind in Hr.
  destruct (read (fun _ x => fs_active x) s1) as [s2 r2] eqn:H2.
  pose proof (read_run (ad_advance Sum64String p) _ AdChecked
    (fun g => match g with Some g => AdActive g | None => AdFailed end) AdFailed _ _ _ eq_refl H2) as Hr2.
  destruct r2 as [[g|]|e]; [| |]; [|by injection Hr as <- <-..].
  destruct (read (fun t x => meta_of t x g) s2) as [s3 r3] eqn:H3.
  pose proof (read_run (ad_advance Sum64String p) _ (AdActive g)
    (fun values => match metadata_of values with Some md => AdWrite g md | None => AdFailed end)
    AdFailed _ _ _ eq_refl H3) as Hr3.
  eapply moves_trans; [exact Hr2|].
  destruct r3 as [values|e]; [|by injection Hr as <- <-].
  destruct (metadata_of values) as [md|]; [|by injection Hr as <- <-].
  simpl in Hr. eapply moves_trans; [exact Hr3|].
  eapply runs_step; [exact (then_go_run _ (fun _ => AdAdded) AdFailed _ _ _ Hr)|apply runs_refl].
Qed.
End runs.
