(* ===== verification/ExistenceGuarantees.v ===== *)
(** What the existence filter guarantees: no published product is called
    absent, and the code's [rebuild] and [Add] are runs of the system of which
    that is proved; with runs of it, and the orders that break it outside the
    bounds of the theorem. *)

From Stdlib Require Import Sorting.Sorted.
From S2P Require Import Prelude Effects Sql GoText ExistenceFilter ExistenceSteps ExistenceSafety ExistencePublication ExistenceRuns.

(** An empty Redis beside a table of products. *)
Definition empty_filter : FilterState := mkFilter None ∅ ∅ ∅ None ∅.

Definition start_world (d : ProductTable) (pub : gset Z) (t : Z) : world :=
  mkWorld d pub empty_filter t ∅ ∅.

Section guarantees.
Variable Sum64String : string -> Z.
Context (config : Config).
Implicit Types (w : world).

Lemma start_ok d pub t :
  StronglySorted Z.lt d -> (forall p, p ∈ pub -> p ∈ d /\ 0 < p) ->
  world_ok Sum64String config (start_world d pub t).
Proof.
  intros Hs Hp. split; simpl; try done.
  - intros p [Hin|(j&a&Hj&_)]; [by apply Hp|by rewrite lookup_empty in Hj].
Qed.

(** [Check] of a product the active generation covers. *)
Lemma Check_covered w p fs s r :
  active_covers Sum64String (w_now w) (w_filter w) p ->
  Check Sum64String p (env_of w fs) = (s, Ok r) -> r <> ResultAbsent /\ ext s = w_filter w.
Proof.
  intros Hc. unfold Check. destruct (p <=? 0); [intros [= <- <-]; done|].
  unfold activeMetadata, bind, attempt.
  destruct (read (fun _ x => fs_active x) (env_of w fs)) as [s1 r1] eqn:H1.
  destruct (call_cases (fun t x => (x, Ok (fs_active x))) (env_of w fs)) as (s1'&r1'&E1&Hd1&Hn1&Hx1&Hok1).
  unfold read in H1. rewrite H1 in E1. injection E1 as <- <-. simpl in Hx1, Hn1, Hok1.
  assert (ext s1 = w_filter w) as Hs1 by (by destruct Hx1).
  destruct r1 as [[g|]|e]; simpl.
  2:{ intros [= <- <-]. done. }
  2:{ case_bool_decide; [by intros [= <- <-]|done]. }
  destruct (Hok1 _ eq_refl) as [_ [= Hg]].
  destruct (read (fun t x => meta_of t x g) s1) as [s2 r2] eqn:H2.
  destruct (call_cases (fun t x => (x, Ok (meta_of t x g))) s1) as (s2'&r2'&E2&Hd2&Hn2&Hx2&Hok2).
  unfold read in H2. rewrite H2 in E2. injection E2 as <- <-. simpl in Hx2, Hok2.
  assert (ext s2 = w_filter w) as Hs2 by (by destruct Hx2 as [->| ->]).
  destruct r2 as [values|e]; simpl.
  2:{ case_bool_decide; [by intros [= <- <-]|done]. }
  destruct (Hok2 _ eq_refl) as [_ [= Hv]].
  destruct (metadata_of values) as [md|] eqn:Hmd; simpl; [|by intros [= <- <-]].
  rewrite Hs1, Hn1 in Hv. assert (covers Sum64String (w_now w) (w_filter w) g p) as Hcov by (by apply Hc).
  subst values. specialize (Hcov md Hmd).
  set (ps := bitPositions Sum64String p (md_bitCount md) (md_hashCount md)) in *. unfold get_bits.
  match goal with |- context [redis ?op s2] =>
    destruct (call_cases op s2) as (s3&r3&->&_&_&Hx3&Hok3) end.
  simpl in Hx3, Hok3. assert (ext s3 = w_filter w) as Hs3 by (by destruct Hx3 as [->| ->]).
  destruct r3 as [bits|e]; [|done]. intros [= <- <-]. split; [|done].
  destruct (Hok3 _ eq_refl) as [_ Hb]. destruct (pipeline_result ps); [|done]. injection Hb as <-.
  unfold verdict. destruct (forallb id _) eqn:Hall; [done|exfalso].
  rewrite <- not_true_iff_false in Hall. apply Hall, forallb_forall. intros b Hb.
  apply in_map_iff in Hb as (q&<-&Hq). unfold id. apply bool_decide_eq_true. rewrite Hs2.
  assert (now s2 = w_now w) as -> by (by rewrite Hn2, Hn1). by apply Hcov, list_elem_of_In.
Qed.

Lemma Contains_cases p w fs s r :
  Contains p (env_of w fs) = (s, r) ->
  ext s = w_filter w /\ now s = w_now w /\ db s = w_table w /\
  (r = Ok true -> exists e, fs_negative (w_filter w) !! p = Some e /\ w_now w < e).
Proof.
  unfold Contains. destruct (p <=? 0); [by intros [= <- <-]|]. intros Hm. unfold read in Hm.
  match type of Hm with redis ?op ?s0 = _ => destruct (call_cases op s0) as (s1&r1&Hm1&Hd&Hn&Hx&Hok) end.
  rewrite Hm in Hm1. injection Hm1 as <- <-. simpl in *. split_and!; try done; [by destruct Hx|].
  intros ->. destruct (Hok _ eq_refl) as [_ [= Hb]].
  destruct (fs_negative (w_filter w) !! p) as [e|]; [|done]. exists e. split; [done|lia].
Qed.

(** ** The code's functions as runs *)

Lemma rb_runs_steps token g s ph s' ph' i w r :
  runs (rb_advance Sum64String config token g) s ph s' ph' ->
  w_rebuilders w !! i = Some r -> r = mkRebuilder token g ph -> s = env_of w (faults s) ->
  steps Sum64String config w (moved w i r (ext s') ph').
Proof.
  intros Hr. revert w r. induction Hr as [s ph|s ph s1 ph1 s2 ph2 Hadv Hr IH]; intros w r Hi -> Hs.
  - unfold moved. simpl. rewrite Hs. simpl. rewrite insert_id by done. by destruct w.
  - destruct (keeps_rb Sum64String config token g ph s) as [Hd Hn]. rewrite Hadv in Hd, Hn. simpl in Hd, Hn.
    set (w1 := moved w i (mkRebuilder token g ph) (ext s1) ph1).
    eapply rtc_l; [eapply (step_rb _ _ w i _ (faults s) s1 ph1 Hi); simpl; by rewrite <- Hs|].
    fold w1. replace (moved w i (mkRebuilder token g ph) (ext s2) ph2)
      with (moved w1 i (mkRebuilder token g ph1) (ext s2) ph2).
    + apply IH; [by apply lookup_insert_eq|done|]. unfold env_of. simpl.
      destruct s1 as [d1 x1 t1 f1]. simpl in *. by rewrite Hd, Hn, Hs.
    + unfold moved. simpl. by rewrite insert_insert_eq.
Qed.

Lemma ad_runs_steps p s ph s' ph' j w a :
  runs (ad_advance Sum64String p) s ph s' ph' ->
  w_adders w !! j = Some a -> a = mkAdder p ph -> s = env_of w (faults s) ->
  steps Sum64String config w (ad_moved w j a (ext s') ph').
Proof.
  intros Hr. revert w a. induction Hr as [s ph|s ph s1 ph1 s2 ph2 Hadv Hr IH]; intros w a Hj -> Hs.
  - unfold ad_moved. simpl. rewrite Hs. simpl. rewrite insert_id by done. by destruct w.
  - destruct (keeps_ad Sum64String p ph s) as [Hd Hn]. rewrite Hadv in Hd, Hn. simpl in Hd, Hn.
    set (w1 := ad_moved w j (mkAdder p ph) (ext s1) ph1).
    eapply rtc_l; [eapply (step_ad _ _ w j _ (faults s) s1 ph1 Hj); simpl; by rewrite <- Hs|].
    fold w1. replace (ad_moved w j (mkAdder p ph) (ext s2) ph2)
      with (ad_moved w1 j (mkAdder p ph1) (ext s2) ph2).
    + apply IH; [by apply lookup_insert_eq|done|]. unfold env_of. simpl.
      destruct s1 as [d1 x1 t1 f1]. simpl in *. by rewrite Hd, Hn, Hs.
    + unfold ad_moved. simpl. by rewrite insert_insert_eq.
Qed.

Lemma unread_length a d : (unread a d <= length d)%nat.
Proof. apply length_filter. Qed.

Lemma rebuild_steps w fs i r fuel s result :
  w_rebuilders w !! i = Some r -> rb_ph r = RbStart -> (length (w_table w) < fuel)%nat ->
  rebuild Sum64String config fuel (rb_token r) (rb_generation r) (env_of w fs) = (s, result) ->
  result <> Err out_of_fuel /\ steps Sum64String config w (moved w i r (ext s) RbDone).
Proof.
  destruct r as [token g ph]. simpl. intros Hi -> Hfuel Hr.
  destruct (rebuild_runs Sum64String config token g fuel (env_of w fs)) with (s' := s) (r := result)
    as [Hrun Hne]; [|done|].
  { simpl. pose proof (unread_length 0 (w_table w)). lia. }
  split; [done|]. replace (match result with Ok _ | Err _ => RbDone end) with RbDone in Hrun by (by destruct result).
  by eapply rb_runs_steps.
Qed.

Lemma Add_steps w fs j a s result :
  w_adders w !! j = Some a -> ad_ph a = AdStart -> Add Sum64String (ad_product a) (env_of w fs) = (s, result) ->
  steps Sum64String config w (ad_moved w j a (ext s) (if is_ok result then AdAdded else AdFailed)).
Proof.
  destruct a as [p ph]. simpl. intros Hj -> Hr. pose proof (Add_runs Sum64String p _ _ _ Hr) as Hrun.
  replace (if is_ok result then AdAdded else AdFailed)
    with (match result with Ok _ => AdAdded | Err _ => AdFailed end) by (by destruct result).
  by eapply ad_runs_steps.
Qed.

(** ** Properties *)


(** The code's [rebuild], with more rounds of its loop than there are products,
    does not run out of them, and it is a run of the interleaved system from its
    start to its end; so is [Add]. *)
Theorem existence_code_is_a_run w fs :
  (forall i r fuel, w_rebuilders w !! i = Some r -> rb_ph r = RbStart -> (length (w_table w) < fuel)%nat ->
     let '(s, result) := rebuild Sum64String config fuel (rb_token r) (rb_generation r) (env_of w fs) in
     result <> Err out_of_fuel /\ steps Sum64String config w (moved w i r (ext s) RbDone)) /\
  (forall j a, w_adders w !! j = Some a -> ad_ph a = AdStart ->
     let '(s, result) := Add Sum64String (ad_product a) (env_of w fs) in
     steps Sum64String config w (ad_moved w j a (ext s) (if is_ok result then AdAdded else AdFailed))).
Proof.
  split.
  - intros i r fuel Hi Hph Hfuel. destruct (rebuild _ _ _ _ _ _) as [s result] eqn:Hr.
    by eapply rebuild_steps.
  - intros j a Hj Hph. destruct (Add _ _ _) as [s result] eqn:Hr. by eapply Add_steps.
Qed.
End guarantees.

(** * Runs *)

(** A hash to run with: the sum of the bytes, each weighed by its place. *)
Definition demo_hash (s : string) : Z :=
  foldl (fun h c => (h * 31 + Z.of_N (Ascii.N_of_ascii c)) mod 2 ^ 64) 7 (String.list_ascii_of_string s).

Definition demo_config : Config := mkConfig "mall" 2 (30 * 10 ^ 9) (600 * 10 ^ 9) hour_ns 1009 3.

Definition demo_table : ProductTable := [1; 2; 3; 5; 8].

Definition demo_start : world := start_world demo_table {[1; 2; 3]} 1000.

(** One rebuild, to its end. *)
Definition demo_rebuilding : world :=
  mkWorld demo_table {[1; 2; 3]} empty_filter 1000 (<[O := mkRebuilder "t1" "g1" RbStart]> ∅) ∅.

Definition demo_rebuilt : world :=
  moved demo_rebuilding O (mkRebuilder "t1" "g1" RbStart)
    (ext (rebuild demo_hash demo_config 6 "t1" "g1" (env_of demo_rebuilding [])).1) RbDone.

Definition verdicts (w : world) (ps : list Z) : list (res error Result) :=
  map (fun p => (Check demo_hash p (env_of w [])).2) ps.

Lemma demo_sorted : StronglySorted Z.lt demo_table.
Proof. repeat constructor; lia. Qed.

Lemma demo_reachable : steps demo_hash demo_config demo_start demo_rebuilt.
Proof.
  eapply rtc_l; [apply (step_rebuild demo_hash demo_config demo_start O "t1" "g1"); [done|..]|].
  - split; [by intros i r Hi|done].
  - split_and!; done.
  - destruct (rebuild demo_hash demo_config 6 "t1" "g1" (env_of demo_rebuilding [])) as [s r] eqn:Hr.
    destruct (rebuild_steps demo_hash demo_config demo_rebuilding [] O (mkRebuilder "t1" "g1" RbStart) 6 s r)
      as [_ Hsteps]; [done|done|simpl; lia|done|]. unfold demo_rebuilt. by rewrite Hr.
Qed.

Example demo_verdicts :
  verdicts demo_rebuilt [1; 2; 3; 4; 8] =
  [Ok ResultPossible; Ok ResultPossible; Ok ResultPossible; Ok ResultAbsent; Ok ResultPossible].
Proof. vm_compute. reflexivity. Qed.


(** * Outside the bounds of the guarantee

    Runs of the existence filter outside the bounds of its guarantee: a batch
    size above the limit of the source, a rebuild longer than its lock, a lost
    reply to the activation, and a mark of the negative cache that comes late. *)

(** * A batch size above 10000

    The source caps a batch at 10000 ids, so a full batch is shorter than
    [BatchSize] and the loop of [loadGeneration] takes it for the last one. *)

Lemma ids_after_capped after limit d : Z.of_nat (length (ids_after after limit d)) <= 10000.
Proof.
  unfold ids_after, batch_limit. rewrite length_take.
  destruct (limit <=? 0), (10000 <? limit) eqn:?; bools; lia.
Qed.

Lemma oversized_batch_is_the_last Sum64String config generation afterID s s' last n more :
  10000 < BatchSize config ->
  load_batch Sum64String config generation afterID s = (s', Ok (last, n, more)) -> more = false.
Proof.
  intros Hsize. unfold load_batch, bind at 1.
  destruct (ProductIDBatch afterID (BatchSize config) s) as [s1 [ids|e]] eqn:Hids; [|done].
  destruct (ids_cases config afterID s s1 _ Hids) as [_ Hr]. specialize (Hr _ eq_refl).
  pose proof (ids_after_capped afterID (BatchSize config) (db s)) as Hcap. rewrite <- Hr in Hcap.
  destruct ids as [|id ids]; [by intros [= _ _ _ <-]|].
  unfold bind, of_res, ret. destruct (increasing afterID (id :: ids)); [|done].
  destruct (addBatch Sum64String config generation (id :: ids) s1) as [s2 [u|e]]; [|done].
  intros [= _ _ _ <-]. apply negb_false_iff, Z.ltb_lt. simpl in *. lia.
Qed.

(** So a rebuild loads at most 10000 products, however many there are. *)
Lemma oversized_rebuild_is_partial Sum64String config fuel generation s s' count :
  10000 < BatchSize config ->
  loadGeneration Sum64String config fuel generation 0 0 s = (s', Ok count) -> count <= 10000.
Proof.
  intros Hsize. destruct fuel as [|fuel]; [done|]. cbn [loadGeneration]. unfold bind at 1.
  destruct (load_batch Sum64String config generation 0 s) as [s1 [[[last n] more]|e]] eqn:Hb; [|done].
  rewrite (oversized_batch_is_the_last _ _ _ _ _ _ _ _ _ Hsize Hb). intros [= _ <-]. revert Hb.
  unfold load_batch, bind at 1.
  destruct (ProductIDBatch 0 (BatchSize config) s) as [s2 [ids|e]] eqn:Hids; [|done].
  destruct (ids_cases config 0 s s2 _ Hids) as [_ Hr]. specialize (Hr _ eq_refl).
  pose proof (ids_after_capped 0 (BatchSize config) (db s)) as Hcap. rewrite <- Hr in Hcap.
  destruct ids as [|id ids]; [intros [= _ _ <- _]; lia|].
  unfold bind, of_res, ret. destruct (increasing 0 (id :: ids)); [|done].
  destruct (addBatch Sum64String config generation (id :: ids) s2) as [s3 [u|e]]; [|done].
  intros [= _ _ <- _]. simpl in *. lia.
Qed.

(** * Processes in turn *)

(** [n] moves of a rebuild, with the faults given. *)
Fixpoint rb_moves (n : nat) (token g : string) (ph : rb_phase) (s : env ProductTable FilterState)
  : env ProductTable FilterState * rb_phase :=
  match n with
  | O => (s, ph)
  | S n => match rb_advance demo_hash demo_config token g ph s with
           | (s', Ok ph') => rb_moves n token g ph' s'
           | (s', Err _) => (s', ph)
           end
  end.

Definition at_time (t : Z) (s : env ProductTable FilterState) : env ProductTable FilterState :=
  mkEnv (db s) (ext s) t (faults s).

Definition with_products (d : ProductTable) (s : env ProductTable FilterState) : env ProductTable FilterState :=
  mkEnv d (ext s) (now s) (faults s).

Definition with_faults (fs : list fault) (s : env ProductTable FilterState) : env ProductTable FilterState :=
  mkEnv (db s) (ext s) (now s) fs.

Definition rebuilt : env ProductTable FilterState :=
  (rebuild demo_hash demo_config 6 "t1" "g1" (mkEnv demo_table empty_filter 1000 [])).1.

(** ** A rebuild longer than its lock

    The rebuild has read every batch when its lock expires; [Add] of a new product
    finds no lock and writes to the active generation; the rebuild then activates
    its own, which nobody compares with the lock, and the product is absent. *)
Example long_rebuild_hides_added_product :
  let '(s1, ph1) := rb_moves 8 "t2" "g2" RbStart rebuilt in
  let s2 := with_products (demo_table ++ [13]) (at_time (now s1 + RebuildLockTTL demo_config) s1) in
  let '(s3, added) := Add demo_hash 13 s2 in
  let '(s4, ph4) := rb_moves 4 "t2" "g2" ph1 s3 in
  ph1 = RbMark 5 /\ added = Ok tt /\ (Check demo_hash 13 s3).2 = Ok ResultPossible /\
  ph4 = RbDone /\ (Check demo_hash 13 s4).2 = Ok ResultAbsent.
Proof. vm_compute. done. Qed.

(** ** A lost reply to the activation

    The activation takes effect and its reply is lost, so the rebuild deletes the
    generation that is now active.  A check that has read the metadata before then
    reads a bitmap that is gone. *)
Example lost_activation_reply :
  let '(s1, ph1) := rb_moves 9 "t2" "g2" RbStart rebuilt in
  let '(s2, ph2) := rb_moves 1 "t2" "g2" ph1 (with_faults [FailAfter] s1) in
  let '(s3, metadata) := activeMetadata s2 in
  let '(s4, ph4) := rb_moves 1 "t2" "g2" ph2 s3 in
  ph1 = RbActivate 5 /\ ph2 = RbDelete /\ metadata = Ok ("g2", mkMetadata 1009 3) /\ ph4 = RbUnlock /\
  (bits <- get_bits "g2" (bitPositions demo_hash 1 1009 3) ;; ret (verdict bits)) s4 =
    (s4, Ok ResultAbsent) /\
  (Check demo_hash 1 s4).2 = Ok ResultUnready.
Proof. vm_compute. done. Qed.

(** ** A late mark

    A reader that saw the product unpublished marks it after the publication has
    invalidated the negative cache: the page of the published product is refused
    until the mark expires. *)
Example late_mark_hides_published_product :
  let '(s1, _) := Add demo_hash 13 (with_products (demo_table ++ [13]) rebuilt) in
  let '(s2, _) := invalidateProductProtection 13 s1 in
  let '(s3, _) := markProductNotPublic demo_config 13 s2 in
  (protectProductDetailOrigin demo_hash 13 s2).2 = Ok true /\
  (protectProductDetailOrigin demo_hash 13 s3).2 = Err productNotFound /\
  (protectProductDetailOrigin demo_hash 13 (at_time (now s3 + negative_ttl demo_config 13) s3)).2 = Ok true.
Proof. vm_compute. done. Qed.

(** * The time a mark lasts *)

(** Between [NegativeTTL] and a third more, for any time to live below ten years. *)
Lemma negative_ttl_bounds config p :
  0 <= NegativeTTL config <= 3650 * 86400 * 10 ^ 9 ->
  NegativeTTL config <= negative_ttl config p /\ 3 * negative_ttl config p <= 4 * NegativeTTL config.
Proof.
  intros Ht. unfold negative_ttl. rewrite Z.quot_div_nonneg by lia.
  pose proof (Z.div_pos (NegativeTTL config) 3). pose proof (Z.mul_div_le (NegativeTTL config) 3).
  set (m := NegativeTTL config / 3) in *.
  destruct (Z.leb_spec m 0) as [|Hm]; [lia|].
  pose proof (Z.mod_pos_bound (fnv32a (itoa p)) 100 ltac:(lia)) as Hf. set (f := fnv32a (itoa p) mod 100) in *.
  assert (uint64 m = m) as -> by (unfold uint64; apply Z.mod_small; lia).
  assert (uint64 (m * f) = m * f) as -> by (unfold uint64; apply Z.mod_small; nia).
  assert (0 <= m * f / 100 <= m) as Hq.
  { split; [apply Z.div_pos; nia|]. apply Z.div_le_upper_bound; nia. }
  assert (uint64 (m * f) / 100 = m * f / 100) as _ by (unfold uint64; rewrite Z.mod_small; [done|nia]).
  rewrite (int64_id (m * f / 100)) by (unfold_int64; lia).
  rewrite int64_id by (unfold_int64; lia). lia.
Qed.
