(* ===== verification/Alipay.v ===== *)
(** The Alipay sandbox client of the order service
    (app/order/rpc/internal/paymentprovider): the canonical text of a form,
    signatures, amounts, the requests and their signed responses, and the
    verification of notifications. *)

From Stdlib Require Import Ascii.
From stdpp Require Import sorting.
From S2P Require Import Prelude Effects Sql GoText OrderStore.
Close Scope char_scope.

(** * Text *)

(** [strings.Split] and [strings.Join] with a one-character separator. *)
Fixpoint split (sep : Ascii.ascii) (s : string) : list string :=
  match s with
  | EmptyString => [EmptyString]
  | String c s' =>
      if bool_decide (c = sep) then EmptyString :: split sep s'
      else match split sep s' with
           | part :: parts => String c part :: parts
           | [] => [String c EmptyString]
           end
  end.

Fixpoint join (sep : Ascii.ascii) (parts : list string) : string :=
  match parts with
  | [] => EmptyString
  | [part] => part
  | part :: parts => part +:+ String sep (join sep parts)
  end.

(** [strings.ReplaceAll(s, `\n`, "\n")]: a backslash and an n to a line feed. *)
Fixpoint unescape_newlines (s : string) : string :=
  match s with
  | String "\" (String "n" s') => String "010" (unescape_newlines s')
  | String c s' => String c (unescape_newlines s')
  | EmptyString => EmptyString
  end.

(** [strings.Join(strings.Fields(s), "")]. *)
Fixpoint remove_spaces (s : string) : string :=
  match s with
  | EmptyString => EmptyString
  | String c s' => if is_space c then remove_spaces s' else String c (remove_spaces s')
  end.

(** [sort.Strings]: by bytes. *)
Fixpoint string_leb (a b : string) : bool :=
  match a, b with
  | EmptyString, _ => true
  | String _ _, EmptyString => false
  | String c a', String d b' =>
      if (N_of_ascii c <? N_of_ascii d)%N then true
      else if (N_of_ascii c =? N_of_ascii d)%N then string_leb a' b' else false
  end.

Definition string_le (a b : string) : Prop := string_leb a b = true.
#[export] Instance string_le_dec : RelDecision string_le.
Proof. intros a b. unfold string_le. apply _. Defined.

(** * Forms

    [url.Values]: the pairs in their order; [Get] gives the first value. *)
Definition Values : Type := list (string * string).

Fixpoint Get (values : Values) (key : string) : string :=
  match values with
  | [] => ""
  | (k, v) :: values => if str_eqb k key then v else Get values key
  end.

Definition Set_value (values : Values) (key value : string) : Values :=
  (key, value) :: filter (fun kv => kv.1 <> key) values.

Definition canonical_keys (values : Values) (excluded : list string) : list string :=
  filter (fun key => (key ∉ excluded) /\ (trim_space (Get values key) <> ""))
    (remove_dups (map fst values)).

Definition canonicalValues (values : Values) (excluded : list string) : string :=
  join "&" (map (fun key => key +:+ "=" +:+ Get values key)
              (merge_sort string_le (canonical_keys values excluded))).

(** * Amounts *)

Definition pad2 (z : Z) : string := if (0 <=? z) && (z <? 10) then "0" +:+ itoa z else itoa z.

(** Go's division truncates. *)
Definition amountYuan (fen : Z) : string := itoa (Z.quot fen 100) +:+ "." +:+ pad2 (Z.rem fen 100).

Definition invalid_amount (value : string) : error := OtherError ("invalid alipay amount " +:+ value).
Definition invalid_precision (value : string) : error :=
  OtherError ("invalid alipay amount precision " +:+ value).

Definition zeros (n : nat) : string := Nat.iter n (String "0"%char) "".

Definition parseAmountFen (value : string) : res error Z :=
  let value := trim_space value in
  let with_fraction whole fraction :=
    match ParseInt whole with
    | None => Err (invalid_amount value)
    | Some yuan =>
        if yuan <? 0 then Err (invalid_amount value)
        else if (2 <? String.length fraction)%nat then Err (invalid_precision value)
        else match ParseInt (fraction +:+ zeros (2 - String.length fraction)) with
             | None => Err (invalid_amount value)
             | Some fen => Ok (int64 (int64 (yuan * 100) + fen))
             end
    end in
  match split "." value with
  | [whole] => if is_empty whole then Err (invalid_amount value) else with_fraction whole ""
  | [whole; fraction] => if is_empty whole then Err (invalid_amount value) else with_fraction whole fraction
  | _ => Err (invalid_amount value)
  end.

(** * Signatures

    The functions of Go's crypto and encoding packages that the source calls. *)
Class Crypto := {
  PrivateKey : Type;
  PublicKey : Type;
  pem_Decode : string -> option string;
  base64_Decode : string -> option string;
  base64_Encode : string -> string;
  ParsePKCS8PrivateKey : string -> option (option PrivateKey);  (* [Some None]: another kind of key *)
  ParsePKCS1PrivateKey : string -> option PrivateKey;
  ParsePKIXPublicKey : string -> option (option PublicKey);
  ParsePKCS1PublicKey : string -> option PublicKey;
  Sum256 : string -> string;
  SignPKCS1v15 : PrivateKey -> string -> option string;
  VerifyPKCS1v15 : PublicKey -> string -> string -> bool
}.

(** [encoding/json] on the documents the client exchanges: objects of strings,
    and a response as its members' texts. *)
Class Json := {
  marshal_strings : list (string * string) -> string;
  unmarshal_members : string -> option (gmap string string);
  unmarshal_string : string -> option string;
  unmarshal_strings : string -> option (gmap string string)
}.

(** The HTTP client: status and body of a form posted to the gateway; and the
    time in the format of the gateway. *)
Class Gateway (X : Type) := {
  post : string -> Values -> X -> X * res error (Z * string);
  timestamp : X -> string
}.

Record AlipayConfig := mkAlipay {
  AppID : string; GatewayURL : string; PrivateKeyText : string; AlipayPublicKey : string; NotifyURL : string
}.

Section client.
Context `{Crypto} `{Json} {X : Type} `{Gateway X}.

Definition decodeKey (text : string) : res error string :=
  let text := trim_space (unescape_newlines text) in
  match pem_Decode text with
  | Some bytes => Ok bytes
  | None => match base64_Decode (remove_spaces text) with
            | Some der => Ok der
            | None => Err (OtherError "decode alipay key")
            end
  end.

Definition parsePrivateKey (text : string) : res error PrivateKey :=
  let? der := decodeKey text in
  match ParsePKCS8PrivateKey der with
  | Some (Some key) => Ok key
  | _ => match ParsePKCS1PrivateKey der with
         | Some key => Ok key
         | None => Err (OtherError "alipay private key must be RSA PKCS8 or PKCS1")
         end
  end.

Definition parsePublicKey (text : string) : res error PublicKey :=
  let? der := decodeKey text in
  match ParsePKIXPublicKey der with
  | Some (Some key) => Ok key
  | _ => match ParsePKCS1PublicKey der with
         | Some key => Ok key
         | None => Err (OtherError "alipay public key must be RSA PKIX or PKCS1")
         end
  end.

Definition rsa2Sign (privateKeyText content : string) : res error string :=
  let? privateKey := parsePrivateKey privateKeyText in
  match SignPKCS1v15 privateKey (Sum256 content) with
  | Some signature => Ok (base64_Encode signature)
  | None => Err (OtherError "sign alipay request")
  end.

Definition verifyRSA2 (publicKeyText content encodedSignature : string) : res error unit :=
  let? publicKey := parsePublicKey publicKeyText in
  match base64_Decode (trim_space encodedSignature) with
  | None => Err (OtherError "decode alipay signature")
  | Some signature =>
      if VerifyPKCS1v15 publicKey (Sum256 content) signature then Ok tt
      else Err (OtherError "verify alipay signature")
  end.

Definition verifyNotification (publicKeyText : string) (values : Values) : res error unit :=
  verifyRSA2 publicKeyText (canonicalValues values ["sign"; "sign_type"]) (Get values "sign").

Definition defaultAlipaySandboxGateway : string := "https://openapi-sandbox.dl.alipaydev.com/gateway.do".

Definition NewAlipay (config : AlipayConfig) : res error AlipayConfig :=
  let gateway := trim_space (GatewayURL config) in
  let config := mkAlipay (trim_space (AppID config))
                  (if is_empty gateway then defaultAlipaySandboxGateway else gateway)
                  (PrivateKeyText config) (AlipayPublicKey config) (trim_space (NotifyURL config)) in
  fail_if is_empty (AppID config) || is_empty (trim_space (PrivateKeyText config)) ||
          is_empty (trim_space (AlipayPublicKey config)) || is_empty (NotifyURL config)
    with OtherError "alipay sandbox requires app id, private key, public key, and notify url" ;;
  let? _ := parsePrivateKey (PrivateKeyText config) in
  let? _ := parsePublicKey (AlipayPublicKey config) in
  Ok config.

(** ** Requests *)

Definition decodeSignedResponse (publicKey body responseKey : string) : res error (gmap string string) :=
  match unmarshal_members body with
  | None => Err (OtherError "decode alipay response")
  | Some envelope =>
      match envelope !! responseKey with
      | None => Err (OtherError ("alipay response missing " +:+ responseKey))
      | Some raw =>
          match unmarshal_string (default "" (envelope !! "sign")) with
          | None => Err (OtherError "alipay response signature is missing")
          | Some signature =>
              let? _ := verifyRSA2 publicKey raw signature in
              match unmarshal_strings raw with
              | Some target => Ok target
              | None => Err (OtherError ("decode " +:+ responseKey))
              end
          end
      end
  end.

Definition request_values (config : AlipayConfig) (method : string) (biz : list (string * string)) (x : X)
  : Values :=
  [("app_id", AppID config); ("method", method); ("format", "JSON"); ("charset", "utf-8");
   ("sign_type", "RSA2"); ("timestamp", timestamp x); ("version", "1.0");
   ("notify_url", NotifyURL config); ("biz_content", marshal_strings biz)].

Definition call (config : AlipayConfig) (method : string) (biz : list (string * string))
  (responseKey : string) (x : X) : X * res error (gmap string string) :=
  let values := request_values config method biz x in
  match rsa2Sign (PrivateKeyText config) (canonicalValues values ["sign"]) with
  | Err e => (x, Err e)
  | Ok signature =>
      let '(x, reply) := post (GatewayURL config) (Set_value values "sign" signature) x in
      (x, match reply with
          | Err e => Err e
          | Ok (status, body) =>
              if (status <? 200) || (300 <=? status)
              then Err (OtherError ("alipay http status " +:+ itoa status))
              else decodeSignedResponse (AlipayPublicKey config) body responseKey
          end)
  end.

Definition field (response : gmap string string) (name : string) : string := default "" (response !! name).

Definition apiError (response : gmap string string) : error :=
  OtherError ("alipay api error: code=" +:+ field response "code" +:+ " msg=" +:+ field response "msg" +:+
    " sub_code=" +:+ field response "sub_code" +:+ " sub_msg=" +:+ field response "sub_msg").

(** The response of a call, when its code is 10000. *)
Definition accepted (response : res error (gmap string string)) : res error (gmap string string) :=
  let? response := response in
  fail_if negb (str_eqb (field response "code") "10000") with apiError response ;;
  Ok response.

Definition Precreate (config : AlipayConfig) (request : PrecreateRequest) (x : X) : X * res error string :=
  if is_empty (trim_space (pr_OutTradeNo request)) || (pr_AmountFen request <=? 0)
  then (x, Err (OtherError "out trade number and positive amount are required")) else
  let expireMinutes := if pr_ExpireMinutes request <=? 0 then 15 else pr_ExpireMinutes request in
  let '(x, response) := call config "alipay.trade.precreate"
    [("out_trade_no", pr_OutTradeNo request); ("total_amount", amountYuan (pr_AmountFen request));
     ("subject", trim_space (pr_Subject request)); ("timeout_express", itoa expireMinutes +:+ "m")]
    "alipay_trade_precreate_response" x in
  (x, let? response := response in
      fail_if negb (str_eqb (field response "code") "10000") || is_empty (trim_space (field response "qr_code"))
        with apiError response ;;
      Ok (field response "qr_code")).

Definition Query (config : AlipayConfig) (outTradeNo : string) (x : X) : X * res error QueryResult :=
  let outTradeNo := trim_space outTradeNo in
  if is_empty outTradeNo then (x, Err (OtherError "out trade number is required")) else
  let '(x, response) := call config "alipay.trade.query" [("out_trade_no", outTradeNo)]
    "alipay_trade_query_response" x in
  (x, let? response := accepted response in
      let? amountFen := parseAmountFen (field response "total_amount") in
      Ok (mkQuery (field response "trade_no") (field response "trade_status") amountFen)).

Definition Close_trade (config : AlipayConfig) (outTradeNo : string) (x : X) : X * res error unit :=
  let outTradeNo := trim_space outTradeNo in
  if is_empty outTradeNo then (x, Err (OtherError "out trade number is required")) else
  let '(x, response) := call config "alipay.trade.close" [("out_trade_no", outTradeNo)]
    "alipay_trade_close_response" x in
  (x, let? _ := accepted response in Ok tt).

Definition Refund (config : AlipayConfig) (request : RefundRequest) (x : X) : X * res error string :=
  if is_empty (trim_space (rr_OutTradeNo request)) || is_empty (trim_space (rr_RefundID request)) ||
     (rr_AmountFen request <=? 0)
  then (x, Err (OtherError "out trade number, refund id, and positive amount are required")) else
  let '(x, response) := call config "alipay.trade.refund"
    [("out_trade_no", rr_OutTradeNo request); ("out_request_no", rr_RefundID request);
     ("refund_amount", amountYuan (rr_AmountFen request)); ("refund_reason", trim_space (rr_Reason request))]
    "alipay_trade_refund_response" x in
  (x, let? _ := accepted response in Ok "SUCCESS").

(** ** Notifications *)

Definition VerifyNotification (config : AlipayConfig) (values : Values) : res error Notification :=
  let? _ := verifyNotification (AlipayPublicKey config) values in
  fail_if negb (str_eqb (trim_space (Get values "app_id")) (AppID config))
    with OtherError "alipay notification app id mismatch" ;;
  let outTradeNo := trim_space (Get values "out_trade_no") in
  let tradeNo := trim_space (Get values "trade_no") in
  let tradeStatus := trim_space (Get values "trade_status") in
  fail_if is_empty outTradeNo || is_empty tradeNo || is_empty tradeStatus
    with OtherError "alipay notification is missing trade identity" ;;
  let? amountFen := parseAmountFen (Get values "total_amount") in
  let eventID := trim_space (Get values "notify_id") in
  let eventID := if is_empty eventID then tradeNo +:+ ":" +:+ tradeStatus else eventID in
  Ok (mkNotification eventID outTradeNo tradeNo tradeStatus amountFen).

(** The provider the order service is configured with. *)
#[export] Instance AlipayProvider (config : AlipayConfig) : PaymentProvider X := {|
  pp_Name := NameAlipaySandbox;
  pp_Precreate := Precreate config;
  pp_Query := Query config;
  pp_Close := Close_trade config;
  pp_Refund := Refund config;
  pp_VerifyNotification := VerifyNotification config
|}.
End client.
