(* ===== verification/AlipayAuthenticity.v ===== *)
(** What the Alipay client's text processing guarantees: an accepted
    notification carries what Alipay signed, although the signed text does not
    escape its separators; amounts survive printing and parsing. *)

From Stdlib Require Import Ascii.
From stdpp Require Import sorting.
From S2P Require Import Prelude Effects Sql Common GoText OrderStore OrderPayment Alipay.
Close Scope char_scope.

(** * Splitting *)

Lemma split_not_nil c s : split c s <> [].
Proof. destruct s as [|d s]; simpl; [done|]. destruct (bool_decide _); [done|]. by destruct (split c s). Qed.

Lemma split_free c s : free_of c s = true -> split c s = [s].
Proof.
  induction s as [|d s IH]; simpl; [done|]. intros [Hd Hs]%andb_true_iff. apply negb_true_iff in Hd.
  by rewrite Hd, (IH Hs).
Qed.

Lemma split_app c a b : split c (a +:+ String c b) = split c a ++ split c b.
Proof.
  induction a as [|d a IH].
  - change ("" +:+ String c b) with (String c b). cbn [split]. by rewrite bool_decide_eq_true_2.
  - rewrite string_app_cons. cbn [split]. rewrite IH. destruct (bool_decide (d = c)); [done|].
    pose proof (split_not_nil c a). by destruct (split c a).
Qed.

Lemma split_inv c s parts : split c s = parts -> s = join c parts /\ Forall (fun p => free_of c p = true) parts.
Proof.
  revert parts. induction s as [|d s IH]; intros parts <-; simpl; [split; [done|by repeat constructor]|].
  destruct (IH _ eq_refl) as [Hs Hf]. destruct (bool_decide (d = c)) eqn:Hd; bools.
  - subst d. split; [|by constructor]. rewrite Hs at 1. pose proof (split_not_nil c s).
    simpl. by destruct (split c s).
  - destruct (split c s) as [|p ps] eqn:Hsp; [by destruct (split_not_nil c s)|].
    rewrite Hs at 1. split; [by destruct ps|].
    inversion Hf; subst. constructor; [|done]. simpl.
    rewrite bool_decide_eq_false_2; done.
Qed.

Lemma split_join_free c parts :
  parts <> [] -> Forall (fun p => free_of c p = true) parts -> split c (join c parts) = parts.
Proof.
  intros Hne Hall. induction Hall as [|p parts Hp Hall IH]; [done|]. destruct parts as [|q parts].
  - by apply split_free.
  - change (join c (p :: q :: parts)) with (p +:+ String c (join c (q :: parts))).
    rewrite split_app, (split_free c p Hp), IH; done.
Qed.

(** A part without the separator is found again, whatever the others hold. *)
Lemma split_join_elem c parts p : p ∈ parts -> free_of c p = true -> p ∈ split c (join c parts).
Proof.
  intros Hp Hf. induction parts as [|q parts IH]; [by apply elem_of_nil in Hp|].
  destruct parts as [|r parts].
  - apply list_elem_of_singleton in Hp as ->. simpl. rewrite (split_free c q Hf). by left.
  - change (join c (q :: r :: parts)) with (q +:+ String c (join c (r :: parts))).
    rewrite split_app. apply elem_of_app. apply elem_of_cons in Hp as [->|Hp].
    + left. rewrite (split_free c q Hf). by left.
    + right. by apply IH.
Qed.

(** * Canonical text *)

Lemma canonical_keys_spec values excluded key :
  key ∈ canonical_keys values excluded <-> (key ∉ excluded) /\ trim_space (Get values key) <> "".
Proof.
  unfold canonical_keys. rewrite list_elem_of_filter, elem_of_remove_dups. split; [naive_solver|].
  intros [He Hv]. split; [done|]. clear He.
  induction values as [|[k v] values IH]; simpl in *; [done|].
  destruct (str_eqb k key) eqn:Hk; bools; [subst; by left|right; by apply IH].
Qed.

(** A form whose keys and values hold no separator. *)
Definition plain_form (values : Values) : Prop :=
  Forall (fun kv => free_of "=" kv.1 = true /\ free_of "&" kv.1 = true /\ free_of "&" kv.2 = true) values.

Lemma Get_plain values key : plain_form values -> free_of "&" (Get values key) = true.
Proof.
  induction 1 as [|[k v] values (_&_&Hv) _ IH]; simpl; [done|]. by destruct (str_eqb k key).
Qed.

Lemma canonical_key_in values excluded key : key ∈ canonical_keys values excluded -> key ∈ map fst values.
Proof. unfold canonical_keys. rewrite list_elem_of_filter, elem_of_remove_dups. by intros [_ ?]. Qed.

Lemma plain_key values key :
  plain_form values -> key ∈ map fst values -> free_of "=" key = true /\ free_of "&" key = true.
Proof.
  intros Hp ([k v]&->&Hin)%list_elem_of_fmap. unfold plain_form in Hp. rewrite Forall_forall in Hp.
  by destruct (Hp _ Hin) as (?&?&_).
Qed.

Lemma pair_free c key value :
  bool_decide ("="%char = c) = false ->
  free_of c (key +:+ "=" +:+ value) = free_of c key && free_of c value.
Proof.
  intros Hc. rewrite !free_of_app. cbn [free_of]. by rewrite Hc.
Qed.

(** What a form shows under a plain key without a separator in its value is what
    a plain form with the same canonical text holds there. *)
Lemma same_canonical values signed excluded key :
  canonicalValues values excluded = canonicalValues signed excluded -> plain_form signed ->
  key ∉ excluded -> free_of "=" key = true -> free_of "&" key = true ->
  trim_space (Get values key) <> "" -> free_of "&" (Get values key) = true ->
  Get signed key = Get values key.
Proof.
  intros Heq Hplain Hex Hk1 Hk2 Hv Hf. unfold canonicalValues in Heq.
  set (pair := fun v k => k +:+ "=" +:+ Get v k) in *.
  assert (pair values key ∈ split "&" (join "&" (map (pair values) (merge_sort string_le (canonical_keys values excluded)))))
    as Hin.
  { apply split_join_elem; [|unfold pair; by rewrite pair_free, Hk2, Hf].
    apply list_elem_of_fmap. exists key. split; [done|]. rewrite merge_sort_Permutation.
    by apply canonical_keys_spec. }
  unfold pair in Hin at 2. rewrite Heq in Hin.
  set (keys := merge_sort string_le (canonical_keys signed excluded)) in *.
  assert (forall k, k ∈ keys -> free_of "=" k = true /\ free_of "&" k = true) as Hkeys.
  { intros k. unfold keys. rewrite merge_sort_Permutation. intros Hk.
    eapply plain_key; [done|]. by eapply canonical_key_in. }
  destruct keys as [|k0 keys'] eqn:Hks.
  { simpl in Hin. apply list_elem_of_singleton in Hin. unfold pair in Hin. by destruct key. }
  rewrite split_join_free in Hin; [|done|].
  - apply list_elem_of_fmap in Hin as (k&Hpair&Hk). destruct (Hkeys k Hk) as [Hk3 _]. unfold pair in Hpair.
    pose proof (cut_app "=" key (Get values key) Hk1) as H1.
    pose proof (cut_app "=" k (Get signed k) Hk3) as H2.
    change (key +:+ String "=" (Get values key)) with (key +:+ "=" +:+ Get values key) in H1.
    change (k +:+ String "=" (Get signed k)) with (k +:+ "=" +:+ Get signed k) in H2.
    rewrite Hpair in H1. congruence.
  - apply Forall_fmap, Forall_forall. intros k Hk. simpl. unfold pair.
    rewrite pair_free by done. rewrite (proj2 (Hkeys k Hk)). by apply Get_plain.
Qed.

(** A canonical text with two keys holds an ampersand. *)
Lemma canonical_two values excluded key key' :
  key <> key' -> key ∉ excluded -> key' ∉ excluded ->
  trim_space (Get values key) <> "" -> trim_space (Get values key') <> "" ->
  free_of "&" (canonicalValues values excluded) = false.
Proof.
  intros Hne He He' Hv Hv'. unfold canonicalValues.
  assert (forall k, k ∈ merge_sort string_le (canonical_keys values excluded) <->
    (k ∉ excluded) /\ trim_space (Get values k) <> "") as Hin.
  { intros k. by rewrite merge_sort_Permutation, canonical_keys_spec. }
  destruct (merge_sort _ _) as [|a [|b l]].
  - destruct (Hin key) as [_ Hi]. specialize (Hi (conj He Hv)). by apply elem_of_nil in Hi.
  - pose proof (proj2 (Hin key) (conj He Hv)) as H1. pose proof (proj2 (Hin key') (conj He' Hv')) as H2.
    apply list_elem_of_singleton in H1, H2. congruence.
  - set (pair := fun key => key +:+ "=" +:+ Get values key).
    change (join "&" (map pair (a :: b :: l))) with (pair a +:+ String "&" (join "&" (map pair (b :: l)))).
    rewrite free_of_app. cbn [free_of]. rewrite bool_decide_eq_true_2 by done. by rewrite andb_false_r.
Qed.

(** * Spaces *)

Lemma free_of_snoc c s d : free_of c (string_snoc s d) = free_of c s && negb (bool_decide (d = c)).
Proof. induction s as [|e s IH]; simpl; [by rewrite andb_true_r|]. by rewrite IH, andb_assoc. Qed.

Lemma free_of_reverse c s : free_of c (string_reverse s) = free_of c s.
Proof. induction s as [|d s IH]; simpl; [done|]. by rewrite free_of_snoc, IH, andb_comm. Qed.

Lemma free_of_trim_left c s : is_space c = false -> free_of c (trim_left s) = free_of c s.
Proof.
  intros Hc. induction s as [|d s IH]; simpl; [done|]. destruct (is_space d) eqn:Hd; [|done].
  rewrite IH. by rewrite bool_decide_eq_false_2 by congruence.
Qed.

Lemma free_of_trim c s : is_space c = false -> free_of c (trim_space s) = free_of c s.
Proof.
  intros Hc. unfold trim_space.
  by rewrite free_of_reverse, free_of_trim_left, free_of_reverse, free_of_trim_left.
Qed.

(** Text without spaces is left alone. *)
Definition spaceless (s : string) : Prop := forall c, is_space c = true -> free_of c s = true.

Lemma trim_left_spaceless s : spaceless s -> trim_left s = s.
Proof.
  destruct s as [|d s]; simpl; [done|]. intros Hs. destruct (is_space d) eqn:Hd; [|done].
  specialize (Hs d Hd). simpl in Hs. by rewrite bool_decide_eq_true_2 in Hs.
Qed.

Lemma reverse_snoc s d : string_reverse (string_snoc s d) = String d (string_reverse s).
Proof. induction s as [|e s IH]; simpl; [done|]. by rewrite IH. Qed.

Lemma reverse_reverse s : string_reverse (string_reverse s) = s.
Proof. induction s as [|d s IH]; simpl; [done|]. by rewrite reverse_snoc, IH. Qed.

Lemma trim_spaceless s : spaceless s -> trim_space s = s.
Proof.
  intros Hs. unfold trim_space. rewrite (trim_left_spaceless s Hs).
  rewrite trim_left_spaceless; [apply reverse_reverse|]. intros c Hc. by rewrite free_of_reverse, Hs.
Qed.

(** * Amounts *)

Lemma digits_free c s acc v : digit_value c = None -> digits s acc = Some v -> free_of c s = true.
Proof.
  intros Hc. revert acc. induction s as [|d s IH]; intros acc; simpl; [done|].
  destruct (digit_value d) eqn:Hd; [|done]. intros Hv. rewrite (IH _ Hv).
  by rewrite bool_decide_eq_false_2 by congruence.
Qed.

Lemma unsigned_digits_free c s v : digit_value c = None -> unsigned_digits s = Some v -> free_of c s = true.
Proof. intros Hc. unfold unsigned_digits. destruct (is_empty s); [done|]. by apply digits_free. Qed.

Lemma ParseInt_free c s v :
  digit_value c = None -> c <> "-"%char -> c <> "+"%char -> ParseInt s = Some v -> free_of c s = true.
Proof.
  intros Hc Hm Hp. unfold ParseInt.
  assert (forall w, (match s with
    | String "-"%char s' => Z.opp <$> unsigned_digits s'
    | String "+"%char s' => unsigned_digits s'
    | _ => unsigned_digits s
    end = Some w) -> free_of c s = true) as Hall.
  { intros w. destruct s as [|d s]; [done|].
    destruct (decide (d = "-"%char)) as [->|Hdm].
    { destruct (unsigned_digits s) as [u|] eqn:Hu; [|done]. intros _. cbn [free_of].
      rewrite bool_decide_eq_false_2 by done. by eapply unsigned_digits_free. }
    destruct (decide (d = "+"%char)) as [->|Hdp].
    { intros Hu. cbn [free_of]. rewrite bool_decide_eq_false_2 by done. by eapply unsigned_digits_free. }
    replace (match d with "-"%char => _ | _ => _ end) with (unsigned_digits (String d s)).
    - by apply unsigned_digits_free.
    - destruct d as [[] [] [] [] [] [] [] []]; try done; by exfalso. }
  destruct (match s with EmptyString => _ | _ => _ end) as [w|]; [|done]. intros _. by eapply Hall.
Qed.

Lemma ampersand_not_digit : digit_value "&" = None.
Proof. done. Qed.

(** An amount that parses holds no ampersand. *)
Lemma parseAmountFen_plain value fen : parseAmountFen value = Ok fen -> free_of "&" value = true.
Proof.
  unfold parseAmountFen. destruct (split "." (trim_space value)) as [|whole [|fraction [|]]] eqn:Hs; try done.
  all: destruct (split_inv _ _ _ Hs) as [Hj _]; rewrite <- (free_of_trim "&" value) by done; rewrite Hj.
  all: destruct (is_empty whole); [done|]; destruct (ParseInt whole) as [yuan|] eqn:Hy; [|done].
  all: destruct (yuan <? 0); [done|].
  - intros _. simpl. by apply (ParseInt_free "&" whole yuan).
  - destruct (2 <? String.length fraction)%nat; [done|].
    destruct (ParseInt (fraction +:+ _)) as [f|] eqn:Hf; [|done]. intros _.
    apply (ParseInt_free "&") in Hf; [|done..]. apply (ParseInt_free "&") in Hy; [|done..].
    rewrite free_of_app in Hf. apply andb_true_iff in Hf as [Hf _].
    simpl. rewrite free_of_app. cbn [free_of]. by rewrite Hy, Hf.
Qed.

Lemma spaceless_itoa z : spaceless (itoa z).
Proof.
  intros c Hc. apply free_of_itoa.
  - refine (digit_cases (fun n => bool_decide (pretty_N_char n = c) = false) _).
    apply forallb_forall. intros k Hk. apply bool_decide_eq_true, bool_decide_eq_false. intros <-.
    apply in_seq in Hk. clear -Hc Hk. do 10 (destruct k as [|k]; [done|]). lia.
  - apply bool_decide_eq_false. by intros <-.
Qed.

Lemma spaceless_app a b : spaceless a -> spaceless b -> spaceless (a +:+ b).
Proof. intros Ha Hb c Hc. by rewrite free_of_app, Ha, Hb. Qed.

Lemma pad2_vector r : 0 <= r < 100 ->
  String.length (pad2 r) = 2%nat /\ ParseInt (pad2 r) = Some r /\ free_of "." (pad2 r) = true.
Proof.
  intros Hr. assert (forallb (fun k => bool_decide (String.length (pad2 (Z.of_nat k)) = 2%nat) &&
    bool_decide (ParseInt (pad2 (Z.of_nat k)) = Some (Z.of_nat k)) && free_of "." (pad2 (Z.of_nat k)))
    (seq 0 100) = true) as Hall by (vm_compute; reflexivity).
  rewrite forallb_forall in Hall. specialize (Hall (Z.to_nat r)). rewrite in_seq in Hall.
  rewrite Z2Nat.id in Hall by lia. specialize (Hall ltac:(lia)). bools. done.
Qed.

(** An amount in the range of int64 that is printed for the gateway parses back
    to itself. *)
Theorem amount_roundtrip fen :
  0 <= fen <= int64_max -> parseAmountFen (amountYuan fen) = Ok fen.
Proof.
  intros Hfen. unfold int64_max in Hfen.
  assert (Z.quot fen 100 = fen / 100 /\ Z.rem fen 100 = fen mod 100) as [Hq Hr]
    by (rewrite Z.quot_div_nonneg, Z.rem_mod_nonneg by lia; done).
  pose proof (Z.div_mod fen 100 ltac:(lia)). pose proof (Z.mod_pos_bound fen 100 ltac:(lia)).
  pose proof (Z.div_pos fen 100 ltac:(lia) ltac:(lia)).
  unfold amountYuan. rewrite Hq, Hr. destruct (pad2_vector (fen mod 100)) as (Hlen&Hparse&Hdot); [lia|].
  unfold parseAmountFen. rewrite trim_spaceless.
  2:{ apply spaceless_app; [apply spaceless_itoa|]. apply spaceless_app.
      - intros c Hc. simpl. rewrite bool_decide_eq_false_2; [done|]. by intros <-.
      - unfold pad2. case_match; [|apply spaceless_itoa].
        apply spaceless_app; [|apply spaceless_itoa].
        intros c Hc. simpl. rewrite bool_decide_eq_false_2; [done|]. by intros <-. }
  change ("." +:+ pad2 (fen mod 100)) with (String "." (pad2 (fen mod 100))).
  rewrite split_app, (split_free "." (itoa _)), (split_free "." (pad2 _)) by (done || apply itoa_no_dot).
  cbn [app]. destruct (is_empty (itoa (fen / 100))) eqn:He; [bools; by destruct (itoa_not_empty (fen / 100))|].
  rewrite ParseInt_itoa by (unfold_int64; lia). replace (fen / 100 <? 0) with false by lia.
  rewrite Hlen. cbn [Nat.ltb Nat.leb Nat.sub zeros Nat.iter nat_rect].
  assert (forall s, s +:+ "" = s) as Happ by (induction s as [|c s IH]; [done|]; by rewrite string_app_cons, IH).
  rewrite Happ, Hparse. rewrite (int64_id (fen / 100 * 100)) by (unfold_int64; lia).
  rewrite int64_id by (unfold_int64; lia). f_equal. lia.
Qed.

(** * Sorted keys *)

Lemma N_of_ascii_inj c d : N_of_ascii c = N_of_ascii d -> c = d.
Proof. intros Hn. by rewrite <- (ascii_N_embedding c), <- (ascii_N_embedding d), Hn. Qed.

#[export] Instance string_le_total : Total string_le.
Proof.
  intros a. unfold string_le. induction a as [|c a IH]; intros b; [by left|].
  destruct b as [|d b]; [by right|]. simpl.
  destruct (N.ltb_spec (N_of_ascii c) (N_of_ascii d)), (N.ltb_spec (N_of_ascii d) (N_of_ascii c)); auto.
  rewrite (proj2 (N.eqb_eq (N_of_ascii c) (N_of_ascii d))) by lia.
  rewrite (proj2 (N.eqb_eq (N_of_ascii d) (N_of_ascii c))) by lia. apply IH.
Qed.

#[export] Instance string_le_trans : Transitive string_le.
Proof.
  intros a. unfold string_le. induction a as [|c a IH]; intros b e; [done|].
  destruct b as [|d b]; [done|]. destruct e as [|f e]; simpl; [done|].
  destruct (N.ltb_spec (N_of_ascii c) (N_of_ascii d)), (N.ltb_spec (N_of_ascii d) (N_of_ascii f)),
    (N.ltb_spec (N_of_ascii c) (N_of_ascii f)); try done; try lia.
  all: destruct (N.eqb_spec (N_of_ascii c) (N_of_ascii d)), (N.eqb_spec (N_of_ascii d) (N_of_ascii f)),
    (N.eqb_spec (N_of_ascii c) (N_of_ascii f)); try done; try lia; apply IH.
Qed.

#[export] Instance string_le_antisymm : AntiSymm (=) string_le.
Proof.
  intros a. unfold string_le. induction a as [|c a IH]; intros [|d b]; simpl; try done.
  destruct (N.ltb_spec (N_of_ascii c) (N_of_ascii d)), (N.ltb_spec (N_of_ascii d) (N_of_ascii c)); try lia.
  all: destruct (N.eqb_spec (N_of_ascii c) (N_of_ascii d)), (N.eqb_spec (N_of_ascii d) (N_of_ascii c)); try done; try lia.
  intros H1 H2. f_equal; [by apply N_of_ascii_inj|by apply IH].
Qed.

Lemma merge_sort_perm l k : l ≡ₚ k -> merge_sort string_le l = merge_sort string_le k.
Proof.
  intros Hp. apply (StronglySorted_unique string_le); [apply (StronglySorted_merge_sort string_le)..|].
  by rewrite !merge_sort_Permutation.
Qed.

(** Two forms with the same values outside the excluded keys have one canonical
    text. *)
Lemma canonicalValues_ext values values' excluded :
  (forall key, key ∉ excluded -> Get values key = Get values' key) ->
  canonicalValues values excluded = canonicalValues values' excluded.
Proof.
  intros Hget. unfold canonicalValues.
  assert (merge_sort string_le (canonical_keys values excluded) =
    merge_sort string_le (canonical_keys values' excluded)) as <-.
  { apply merge_sort_perm, NoDup_Permutation.
    - apply NoDup_filter, NoDup_remove_dups.
    - apply NoDup_filter, NoDup_remove_dups.
    - intros key. rewrite !canonical_keys_spec. split; intros [He Hv]; rewrite (Hget key He) in *; done. }
  f_equal. apply map_ext_in. intros key Hkey. f_equal. f_equal. apply Hget.
  apply list_elem_of_In in Hkey. rewrite merge_sort_Permutation in Hkey. apply canonical_keys_spec in Hkey. by destruct Hkey.
Qed.

Lemma Get_filter values key key' : key <> key' -> Get (filter (fun kv => kv.1 <> key) values) key' = Get values key'.
Proof.
  intros Hne. unfold Values in *. induction values as [|[k v] values IH]; [done|]. rewrite filter_cons. simpl.
  destruct (decide (k <> key)) as [Hk|Hk]; simpl.
  - by rewrite IH.
  - assert (k = key) as -> by (by apply dec_stable). rewrite IH.
    destruct (str_eqb key key') eqn:He; [bools; congruence|done].
Qed.

Lemma Get_Set_value values key v : Get (Set_value values key v) key = v.
Proof. simpl. by rewrite str_eqb_refl. Qed.

Lemma Get_Set_value_ne values key key' v : key <> key' -> Get (Set_value values key v) key' = Get values key'.
Proof.
  intros Hne. simpl. destruct (str_eqb key key') eqn:He; [bools; congruence|]. by apply Get_filter.
Qed.

(** * Guarantees *)

(** The laws of signatures and base64: what a private key signs verifies under
    its public key, and base64 text decodes. *)
Class CryptoLaws `{Crypto} := {
  public_of : PrivateKey -> PublicKey;
  verify_sign key digest signature :
    SignPKCS1v15 key digest = Some signature -> VerifyPKCS1v15 (public_of key) digest signature = true;
  decode_encode bytes : base64_Decode (trim_space (base64_Encode bytes)) = Some bytes
}.

Section guarantees.
Context `{Crypto} `{Json} {X : Type} `{Gateway X} `{InventoryClient X}.
Context (config : AlipayConfig).

Lemma fails_if {A} (b : bool) e (k : res error A) a : (fail_if b with e ;; k) = Ok a -> b = false /\ k = Ok a.
Proof. by destruct b. Qed.

(** The form a client posts verifies at the gateway, which checks every field but
    the signature. *)
Lemma posted_form_verifies `{!CryptoLaws} method biz x key publicText signature :
  parsePrivateKey (PrivateKeyText config) = Ok key -> parsePublicKey publicText = Ok (public_of key) ->
  rsa2Sign (PrivateKeyText config) (canonicalValues (request_values config method biz x) ["sign"]) = Ok signature ->
  let form := Set_value (request_values config method biz x) "sign" signature in
  verifyRSA2 publicText (canonicalValues form ["sign"]) (Get form "sign") = Ok tt.
Proof.
  intros Hpriv Hpub Hsign form. unfold rsa2Sign in Hsign. rewrite Hpriv in Hsign.
  destruct (SignPKCS1v15 key _) as [s|] eqn:Hs; [|done]. injection Hsign as <-.
  unfold verifyRSA2. rewrite Hpub. unfold form. rewrite Get_Set_value, decode_encode.
  rewrite (canonicalValues_ext _ (request_values config method biz x)).
  - by rewrite (verify_sign _ _ _ Hs).
  - intros k Hk. apply Get_Set_value_ne. set_solver.
Qed.

(** A form shows [value] under [key], up to spaces, unless the value it shows
    holds an ampersand. *)
Definition shows (form : Values) (key value : string) : Prop :=
  free_of "&" value = true -> trim_space (Get form key) = value.

Section authentic.
Variables (key : PublicKey) (genuine : Values -> Prop).

(** What the gateway signs: the canonical text of plain notifications, and
    responses, which hold no ampersand. *)
Definition gateway_signs : Prop :=
  (forall form, genuine form -> plain_form form) /\
  forall content signature, VerifyPKCS1v15 key (Sum256 content) signature = true ->
    free_of "&" content = true \/
    exists form, genuine form /\ content = canonicalValues form ["sign"; "sign_type"].

Lemma verified_content text content signature :
  parsePublicKey text = Ok key -> verifyRSA2 text content signature = Ok tt ->
  exists s, VerifyPKCS1v15 key (Sum256 content) s = true.
Proof.
  intros Hkey. unfold verifyRSA2. rewrite Hkey. destruct (base64_Decode _) as [s|]; [|done].
  destruct (VerifyPKCS1v15 key (Sum256 content) s) eqn:Hv; [|done]. by exists s.
Qed.

(** Decided by evaluation. *)
Ltac decided := apply (bool_decide_unpack _); vm_compute; exact I.

Lemma NewAlipay_AppID raw : NewAlipay raw = Ok config -> AppID config <> "".
Proof.
  unfold NewAlipay. intros [Hmissing Hok]%fails_if.
  destruct (parsePrivateKey _) as [k1|e1]; [|done]. destruct (parsePublicKey _) as [k2|e2]; [|done].
  injection Hok as <-. simpl in *. by bools.
Qed.

Lemma VerifyNotification_genuine raw values n :
  gateway_signs -> NewAlipay raw = Ok config -> parsePublicKey (AlipayPublicKey config) = Ok key ->
  VerifyNotification config values = Ok n ->
  exists form, genuine form /\ parseAmountFen (Get form "total_amount") = Ok (n_AmountFen n) /\
    shows form "out_trade_no" (n_OutTradeNo n) /\ shows form "trade_no" (n_TradeNo n) /\
    shows form "trade_status" (n_TradeStatus n) /\ shows form "app_id" (AppID config).
Proof.
  intros [Hplain Hsigns] Hnew Hkey. pose proof (NewAlipay_AppID raw Hnew) as Hne. unfold VerifyNotification.
  destruct (verifyNotification (AlipayPublicKey config) values) as [[]|e] eqn:Hv; [|done].
  intros [Happ Hn]%fails_if. apply fails_if in Hn as [Hid Hn].
  destruct (parseAmountFen (Get values "total_amount")) as [amount|e] eqn:Hamount; [|done].
  injection Hn as <-. cbn [n_AmountFen n_OutTradeNo n_TradeNo n_TradeStatus]. bools.
  destruct (verified_content _ _ _ Hkey Hv) as [s Hs].
  destruct (Hsigns _ _ Hs) as [Hfree|(form&Hgen&Heq)].
  { rewrite (canonical_two values ["sign"; "sign_type"] "out_trade_no" "trade_no") in Hfree; try done; decided. }
  assert (forall k, k ∉ ["sign"; "sign_type"] -> free_of "=" k = true -> free_of "&" k = true ->
    trim_space (Get values k) <> "" -> free_of "&" (trim_space (Get values k)) = true ->
    Get form k = Get values k) as Hsame.
  { intros k Hk He Ha Hblank Hf. eapply same_canonical; eauto. by rewrite <- (free_of_trim "&"). }
  assert (forall k v, k ∉ ["sign"; "sign_type"] -> free_of "=" k = true -> free_of "&" k = true ->
    v <> "" -> trim_space (Get values k) = v -> shows form k v) as Hshows.
  { intros k v Hk He Ha Hblank <- Hf. by rewrite (Hsame k). }
  exists form. split; [done|]. split.
  - rewrite (Hsame "total_amount"); [done|decided|done|done| |].
    + intros Hblank. unfold parseAmountFen in Hamount. by rewrite Hblank in Hamount.
    + rewrite free_of_trim by done. by apply parseAmountFen_plain in Hamount.
  - repeat match goal with |- _ /\ _ => split end;
      (apply Hshows; [decided|reflexivity|reflexivity|assumption|assumption || reflexivity]).
Qed.

(** ** Payments *)

Lemma query_db {A} (f : DB -> A) e (s s' : env DB X) r :
  query f e s = (s', r) -> db s' = db s /\ now s' = now s /\ forall a, r = Ok a -> a = f (db s).
Proof.
  destruct s as [d x t fs]. unfold query, sql, pop_fault. simpl.
  destruct fs as [|[] fs]; simpl; intros [= <- <-]; split_and!; try done; congruence.
Qed.

Lemma orders_core d : orders (core d) = orders d.
Proof. done. Qed.

(** A paid callback that changes an order finds its payment, with the amount
    paid, and pays that order. *)
Lemma MarkPaid_orders svcCtx in_ (s s' : env DB X) r :
  MarkPaid svcCtx in_ s = (s', r) -> orders (db s') <> orders (db s) ->
  exists callback p o, parsePaymentCallbackPayload (mp_CallbackBody in_) = Ok callback /\
    payments (db s) !! mp_PaymentOrderId in_ = Some p /\ orders (db s) !! mp_OrderId in_ = Some o /\
    PaidAmountFen callback = p_payable_amount_fen p /\
    o_status o = orderstatus.PendingPayment /\
    orders (db s') = <[mp_OrderId in_ := set_status orderstatus.Paid (now s) o]> (orders (db s)).
Proof.
  intros Hm Hch.
  destruct (decide (mp_OrderId in_ = "")) as [He|Ho].
  { exfalso. apply Hch. unfold MarkPaid, require, bind at 1 in Hm. rewrite He in Hm. simpl in Hm.
    by injection Hm as <- _. }
  destruct (decide (mp_PaymentOrderId in_ = "")) as [He|Hp].
  { exfalso. apply Hch. unfold MarkPaid, require, bind at 1 2 in Hm. unfold is_empty in Hm.
    rewrite (proj2 (str_eqb_neq _ _) Ho), He in Hm. simpl in Hm. by injection Hm as <- _. }
  destruct (decide (mp_OutTradeNo in_ = "")) as [He|Ht].
  { exfalso. apply Hch. unfold MarkPaid, require, bind at 1 2 3 in Hm. unfold is_empty in Hm.
    rewrite (proj2 (str_eqb_neq _ _) Ho), (proj2 (str_eqb_neq _ _) Hp), He in Hm. simpl in Hm.
    by injection Hm as <- _. }
  destruct (parsePaymentCallbackPayload (mp_CallbackBody in_)) as [callback|e] eqn:Hcb.
  2:{ exfalso. apply Hch. unfold MarkPaid, require, bind at 1 2 3 4, of_res in Hm. unfold is_empty in Hm.
      rewrite !(proj2 (str_eqb_neq _ _)) in Hm by done. simpl in Hm. rewrite Hcb in Hm.
      by injection Hm as <- _. }
  pose proof (MarkPaid_spec svcCtx in_ callback s Ho Hp Ht Hcb) as Hspec. rewrite Hm in Hspec.
  destruct Hspec as [[Hsame|Hdone] _]; apply (f_equal orders) in Hsame || apply (f_equal orders) in Hdone;
    rewrite ?orders_core in *; [done|]. unfold paid_spec in Hdone.
  destruct (payments (db s) !! mp_PaymentOrderId in_) as [p|] eqn:Hpay; [|done].
  destruct (orders (db s) !! mp_OrderId in_) as [o|] eqn:Hord; [|done].
  destruct (matches in_ p); [|done]. cbn [negb] in Hdone.
  destruct (Z.eqb_spec (PaidAmountFen callback) (p_payable_amount_fen p)) as [Hamount|]; [|done].
  cbn [negb] in Hdone. destruct (_ || _); [done|]. destruct (o_status o =? orderstatus.Closed); [done|].
  destruct (Z.eqb_spec (o_status o) orderstatus.PendingPayment) as [Hpend|]; [|done].
  destruct (negb (p_status p =? paymentstatus.Init)); [done|]. exists callback, p, o. split_and!; try done.
Qed.

Lemma exec_payments_orders p f e (s s' : env DB X) r :
  exec_payments p f e s = (s', r) -> orders (db s') = orders (db s).
Proof.
  destruct s as [d x t fs]. unfold exec_payments, bind, get_now, sql, pop_fault. simpl.
  destruct fs as [|[] fs]; simpl; by intros [= <- <-].
Qed.

(** C32 No order becomes paid by a notification unless the gateway signed a paid
    status and the payable amount for its trade; whatever the notification holds,
    and whatever calls fail. *)
Theorem paid_orders_were_paid_at_alipay raw svcCtx req (s s' : env DB X) r :
  gateway_signs -> NewAlipay raw = Ok config -> parsePublicKey (AlipayPublicKey config) = Ok key ->
  @HandlePaymentNotification X _ (AlipayProvider config) svcCtx req s = (s', r) ->
  orders (db s') <> orders (db s) ->
  exists form paymentID p o, genuine form /\
    payments (db s) !! paymentID = Some p /\ provider (p_channel p) = NameAlipaySandbox /\
    isAlipayPaidStatus (trim_space (Get form "trade_status")) = true /\
    parseAmountFen (Get form "total_amount") = Ok (p_payable_amount_fen p) /\
    shows form "out_trade_no" (p_out_trade_no p) /\ shows form "app_id" (AppID config) /\
    orders (db s) !! p_order_id p = Some o /\ o_status o = orderstatus.PendingPayment /\
    orders (db s') = <[p_order_id p := set_status orderstatus.Paid (now s) o]> (orders (db s)).
Proof.
  intros Hsigns Hnew Hkey Hh Hch. unfold HandlePaymentNotification in Hh.
  destruct req as [[prov body]|]; [|by injection Hh as <- _]. simpl in Hh.
  destruct (negb _); [by injection Hh as <- _|].
  destruct body as [| |values]; [by injection Hh as <- _|by case_match; injection Hh as <- _|].
  destruct (_ || _); [by injection Hh as <- _|].
  destruct (VerifyNotification config values) as [n|e] eqn:Hv; [|by injection Hh as <- _].
  destruct (VerifyNotification_genuine raw values n Hsigns Hnew Hkey Hv)
    as (form&Hgen&Hamount&Hout&_&Hstatus&Happ).
  destruct (isAlipayPaidStatus (n_TradeStatus n)) eqn:Hpaid; cbn [negb] in Hh.
  2:{ exfalso. apply Hch. unfold bind, ignore, ret in Hh.
      destruct (exec_payments _ _ _ s) as [s1 r1] eqn:Hx. injection Hh as <- _.
      by eapply exec_payments_orders. }
  unfold bind at 1 in Hh. destruct (query _ _ s) as [s1 r1] eqn:Hq.
  destruct (query_db _ _ _ _ _ Hq) as (Hdb&Hnow&Hr1).
  destruct r1 as [[[paymentID p]|]|e]; [|injection Hh as <- _; congruence..].
  specialize (Hr1 _ eq_refl). symmetry in Hr1. apply select_Some in Hr1 as [Hpay Hfor].
  unfold for_trade in Hfor. bools. unfold bind at 1 in Hh.
  destruct (MarkPaid svcCtx _ s1) as [s2 r2] eqn:Hmp.
  assert (s2 = s') as -> by (destruct r2; unfold ret in Hh; by injection Hh as <- _).
  destruct (MarkPaid_orders _ _ _ _ _ Hmp) as (callback&p'&o&Hcb&Hp'&Ho&Ham&Hpend&Horders); [by rewrite Hdb|].
  simpl in *. rewrite Hdb in *. rewrite Hpay in Hp'. injection Hp' as <-.
  destruct (n_AmountFen n <=? 0); [done|]. injection Hcb as <-. simpl in Ham.
  exists form, paymentID, p, o. split_and!; try done.
  - assert (trim_space (Get form "trade_status") = n_TradeStatus n) as ->; [|done].
    apply Hstatus. unfold isAlipayPaidStatus in Hpaid. apply orb_true_iff in Hpaid as [?|?]; bools;
      by match goal with H : n_TradeStatus n = _ |- _ => rewrite H end.
  - by rewrite Hamount, Ham.
  - by match goal with H : p_out_trade_no p = _ |- _ => rewrite H end.
  - by rewrite Horders, Hnow.
Qed.
End authentic.
End guarantees.

(** * The client at work

    The Alipay client at work: a signature scheme and a gateway small enough to
    evaluate, a notification that pays an order, and what the text processing
    does at its edges. *)

(** * A small provider *)

Definition paid_form : Values :=
  [("app_id", "app-1"); ("notify_id", "N-1"); ("out_trade_no", "FM-1"); ("trade_no", "T-1");
   ("trade_status", "TRADE_SUCCESS"); ("total_amount", "12.34")].

Definition paid_text : string := canonicalValues paid_form ["sign"; "sign_type"].

(** The public key accepts one signature, of one text. *)
#[export] Instance small_crypto : Crypto := {|
  PrivateKey := string; PublicKey := string;
  pem_Decode _ := None; base64_Decode s := Some s; base64_Encode s := s;
  ParsePKCS8PrivateKey s := Some (Some s); ParsePKCS1PrivateKey _ := None;
  ParsePKIXPublicKey s := Some (Some s); ParsePKCS1PublicKey _ := None;
  Sum256 s := s; SignPKCS1v15 key digest := Some (key +:+ digest);
  VerifyPKCS1v15 _ digest signature := str_eqb digest paid_text && str_eqb signature "sig-1"
|}.

#[export] Instance small_json : Json := {|
  marshal_strings l := join "," (map (fun kv => kv.1 +:+ ":" +:+ kv.2) l);
  unmarshal_members _ := None; unmarshal_string _ := None; unmarshal_strings _ := None
|}.

#[export] Instance small_gateway : Gateway unit := {|
  post _ _ x := (x, Err call_failed); timestamp _ := "2026-01-01 00:00:00"
|}.

#[export] Instance small_inventory : InventoryClient unit := {|
  inv_ReserveStock _ _ _ x := (x, Ok tt); inv_ConfirmDeduct _ x := (x, Ok tt);
  inv_ReleaseStock _ _ x := (x, Ok tt)
|}.

Definition small_config : AlipayConfig := mkAlipay "app-1" "https://gateway" "private" "public" "https://notify".

Definition is_paid_form (form : Values) : Prop := form = paid_form.

Lemma small_signs : gateway_signs "public" is_paid_form.
Proof.
  split.
  - intros form ->. repeat constructor.
  - intros content signature Hv. simpl in Hv. bools. right. by exists paid_form.
Qed.

(** * A paid order *)

Definition small_order : Order := mkOrder "req-1" 7 1 101 1 orderstatus.PendingPayment None None None None 100.

Definition small_payment : PaymentOrder :=
  mkPayment "A" 7 1234 paymentstatus.Init "FM-1"
    (mkChannel NameAlipaySandbox "" "qr" "WAIT_BUYER_PAY" (Some 2000)) None NoBody
    (mkFollowUp 0 0 "" None) (mkFollowUp 0 0 "" None) 100.

Definition small_db : DB :=
  with_payments {["P" := small_payment]} (with_orders {["A" := small_order]} empty_db).

Definition small_env : env DB unit := mkEnv small_db tt 1000 [].

Definition small_svc : ServiceContext := mkSvc true true true true true 15 50 4.

Definition notify (form : Values) : env DB unit * res error HandlePaymentNotificationResp :=
  @HandlePaymentNotification unit _ (AlipayProvider small_config) small_svc
    (Some (mkNotifyReq "alipay_sandbox" (FormValues form))) small_env.

Definition signed (form : Values) : Values := ("sign", "sig-1") :: ("sign_type", "RSA2") :: form.

Example notification_pays :
  (notify (signed paid_form)).2 = Ok (mkNotifyResp true "PAID") /\
  o_status <$> orders (db (notify (signed paid_form)).1) !! "A" = Some orderstatus.Paid.
Proof. vm_compute. done. Qed.

(** Another amount under the same signature. *)
Example altered_amount_refused :
  (notify (signed (Set_value paid_form "total_amount" "0.01"))).2 =
    Err (StatusError Unauthenticated "invalid alipay notification signature").
Proof. vm_compute. done. Qed.

(** Two fields folded into one keep the signature, and lose the identity. *)
Example folded_fields_refused :
  let form := [("app_id", "app-1"); ("notify_id", "N-1"); ("out_trade_no", "FM-1");
               ("total_amount", "12.34&trade_no=T-1&trade_status=TRADE_SUCCESS")] in
  canonicalValues form ["sign"; "sign_type"] = paid_text /\
  (notify (signed form)).2 = Err (StatusError Unauthenticated "invalid alipay notification signature").
Proof. vm_compute. done. Qed.

Example paid_orders_were_paid_at_alipay_witness :
  orders (db (notify (signed paid_form)).1) <> orders small_db /\
  exists form paymentID p o, is_paid_form form /\
    payments small_db !! paymentID = Some p /\ provider (p_channel p) = NameAlipaySandbox /\
    isAlipayPaidStatus (trim_space (Get form "trade_status")) = true /\
    parseAmountFen (Get form "total_amount") = Ok (p_payable_amount_fen p) /\
    shows form "out_trade_no" (p_out_trade_no p) /\ shows form "app_id" (AppID small_config) /\
    orders small_db !! p_order_id p = Some o /\ o_status o = orderstatus.PendingPayment /\
    orders (db (notify (signed paid_form)).1) =
      <[p_order_id p := set_status orderstatus.Paid 1000 o]> (orders small_db).
Proof.
  assert (orders (db (notify (signed paid_form)).1) <> orders small_db) as Hch.
  { intros Heq. apply (f_equal (fun m => o_status <$> m !! "A")) in Heq. by vm_compute in Heq. }
  split; [exact Hch|].
  apply (paid_orders_were_paid_at_alipay small_config ("public" : @PublicKey small_crypto) is_paid_form small_config small_svc
    (Some (mkNotifyReq "alipay_sandbox" (FormValues (signed paid_form)))) small_env
    (notify (signed paid_form)).1 (notify (signed paid_form)).2).
  - exact small_signs.
  - vm_compute. reflexivity.
  - reflexivity.
  - unfold notify. by destruct (HandlePaymentNotification _ _ _).
  - exact Hch.
Defined.

(** * Edges of the text processing *)

(** The signed text does not tell these forms apart. *)
Example canonical_text_is_ambiguous :
  canonicalValues [("a", "1&b=2")] [] = canonicalValues [("a", "1"); ("b", "2")] [].
Proof. vm_compute. done. Qed.

(** A sign is accepted in the fraction, and large amounts wrap around. *)
Example odd_amounts :
  parseAmountFen "0.-5" = Ok (-5) /\ parseAmountFen "1.+5" = Ok 105 /\ parseAmountFen "3." = Ok 300 /\
  parseAmountFen "184467440737095516.17" = Ok 1.
Proof. vm_compute. done. Qed.

Example printed_amounts : amountYuan 1234 = "12.34" /\ amountYuan 5 = "0.05" /\ amountYuan (-5) = "0.-5".
Proof. vm_compute. done. Qed.

Example amount_roundtrip_witness :
  0 <= 9223372036854775807 <= int64_max /\
  parseAmountFen (amountYuan 9223372036854775807) = Ok 9223372036854775807.
Proof. split; [unfold int64_max; lia|apply (amount_roundtrip 9223372036854775807); unfold int64_max; lia]. Defined.
