(* ===== verification/ProductStore.v ===== *)
(** The product database (scripts/k8s/sql/20-product-schema.sql): products,
    promotion rules, stock buckets, snapshots and the stock log, and the statements
    shared by the services that use it. *)

From S2P Require Import Prelude Effects Sql.

(** * Handlers that look before they act

    Computations that only read the database, and what holds of their results:
    a handler first looks, then acts on what it saw. *)

Section observes.
Context {D X E : Type}.

(** [m] leaves the database alone, and what it returns satisfies [Q]. *)
Definition observes {A} (m : M D X E A) (s : env D X) (Q : A -> Prop) : Prop :=
  db (m s).1 = db s /\ now (m s).1 = now s /\ forall a, (m s).2 = Ok a -> Q a.

Lemma observes_ret {A} (a : A) s (Q : A -> Prop) : Q a -> observes (ret a) s Q.
Proof. intros HQ. repeat split. by intros ? [= <-]. Qed.

Lemma observes_throw {A} (e : E) s (Q : A -> Prop) : observes (throw e) s Q.
Proof. by repeat split. Qed.

Lemma observes_bind {A B} (m : M D X E A) (f : A -> M D X E B) s (R : A -> Prop) (Q : B -> Prop) :
  observes m s R -> (forall a s1, db s1 = db s -> now s1 = now s -> R a -> observes (f a) s1 Q) -> observes (bind m f) s Q.
Proof.
  unfold observes, bind. destruct (m s) as [s1 [a|e]]; simpl; intros (Hd&Hn&HR) Hf; [|by repeat split].
  destruct (Hf a s1 Hd Hn (HR a eq_refl)) as (Hd2&Hn2&HQ). repeat split; [congruence|congruence|done].
Qed.

Lemma observes_require b (e : E) s (Q : unit -> Prop) : (b = true -> Q tt) -> observes (require b e) s Q.
Proof. destruct b; [intros HQ; apply observes_ret; auto|intros _; apply observes_throw]. Qed.

Lemma observes_guard {B} b (e : E) (f : unit -> M D X E B) s (Q : B -> Prop) :
  (forall s1, db s1 = db s -> now s1 = now s -> b = true -> observes (f tt) s1 Q) ->
  observes (bind (require b e) f) s Q.
Proof.
  intros Hf. apply (observes_bind _ _ _ (fun _ => b = true)); [by apply observes_require|].
  intros [] s1 Hd Hn Hb. by apply Hf.
Qed.

Lemma observes_of_res {A} (r : res E A) s (Q : A -> Prop) : (forall a, r = Ok a -> Q a) -> observes (of_res r) s Q.
Proof. by repeat split. Qed.

Lemma observes_get_now s (Q : Z -> Prop) : Q (now s) -> observes get_now s Q.
Proof. intros HQ. repeat split. by intros ? [= <-]. Qed.

(** A computation that first looks, then acts on what it saw. *)
Lemma observes_then {A B} (P : D -> Prop) (m : M D X E A) (f : A -> M D X E B) s (R : A -> Prop) :
  P (db s) -> observes m s R -> (forall a s1, db s1 = db s -> R a -> P (db (f a s1).1)) ->
  P (db (bind m f s).1).
Proof.
  unfold observes, bind. destruct (m s) as [s1 [a|e]]; simpl; intros HP (Hd&_&HR) Hf; [by apply Hf; auto|by rewrite Hd].
Qed.

(** A guard, in front of an action. *)
Lemma guard_then {B} (P : D -> Prop) b (e : E) (f : unit -> M D X E B) s :
  P (db s) -> (b = true -> P (db (f tt s).1)) -> P (db (bind (require b e) f s).1).
Proof. unfold bind, require. destruct b; simpl; auto. Qed.

Lemma observes_weaken {A} (m : M D X E A) s (Q Q' : A -> Prop) :
  observes m s Q -> (forall a, Q a -> Q' a) -> observes m s Q'.
Proof. intros (Hd&Hn&HQ) HQ'. repeat split; auto. Qed.

(** What a statement leaves, whatever the faults, is the database before or after it. *)
Lemma sql_outcome {A} (P : D -> Prop) (op : D -> D * A) (e : E) (s : env D X) :
  P (db s) -> P (op (db s)).1 -> P (db (sql op e s).1).
Proof.
  intros H1 H2. unfold sql. pose proof (db_pop_fault s) as Hdb.
  destruct (pop_fault s) as [[] s']; simpl in *; rewrite ?Hdb; auto.
  rewrite (surjective_pairing (op (db s))). done.
Qed.

Lemma preserves_then {A B} (P : D -> Prop) (m : M D X E A) (f : A -> M D X E B) (s : env D X) :
  P (db (m s).1) -> (forall a, preserves P (f a)) -> P (db (bind m f s).1).
Proof. unfold bind. intros Hm Hf. destruct (m s) as [s1 [a|e]]; simpl in *; [by apply Hf|done]. Qed.

End observes.

(** * Tables *)

(** [product], keyed by [id]. *)
Record ProductRow := mkProduct {
  pd_merchant : Z; pd_name : string; pd_image : string; pd_stock : Z; pd_version : Z;
  pd_origin_price : Z; pd_sale_price : Z; pd_status : Z; pd_supplier : Z; pd_created : Z
}.

(** [promotion_rule], keyed by [id]; times in seconds. *)
Record PromotionRow := mkPromotion {
  pr_product : Z; pr_type : string; pr_discount : Z; pr_threshold : Z;
  pr_starts : option Z; pr_ends : option Z; pr_status : Z
}.

(** [product_card_snapshot], keyed by [product_id]. *)
Record CardRow := mkCard {
  cs_name : string; cs_origin_price : Z; cs_final_price : Z; cs_promotion_type : string;
  cs_promotion_tag : string; cs_stock : Z; cs_supplier : Z; cs_status : Z; cs_version : Z
}.

(** [product_stock_snapshot], keyed by [product_id]. *)
Record StockRow := mkStockRow { sn_available : Z; sn_reserved : Z; sn_total : Z; sn_version : Z }.

(** [product_stock_bucket], keyed by product and bucket index. *)
Record BucketRow := mkBucket { bk_stock : Z; bk_version : Z }.

(** [product_inventory_seed], keyed by [product_id]; status 0 pending, 1 succeeded, 2 failed. *)
Record SeedRow := mkSeed {
  se_total : Z; se_shards : Z; se_product_status : Z; se_status : Z; se_attempts : Z; se_error : string
}.

(** [supplier] and the order schema's [merchant], keyed by [id]. *)
Record SupplierRow := mkSupplier { su_name : string; su_status : Z }.
Record MerchantRow := mkMerchant { me_name : string; me_status : Z }.

(** The current row of [homepage_showcase]. *)
Record ShowcaseRow := mkShowcase { sh_version : Z; sh_operator : Z; sh_published : option Z }.

#[export] Instance ProductRow_eq_dec : EqDecision ProductRow.
Proof. solve_decision. Defined.
#[export] Instance PromotionRow_eq_dec : EqDecision PromotionRow.
Proof. solve_decision. Defined.
#[export] Instance BucketRow_eq_dec : EqDecision BucketRow.
Proof. solve_decision. Defined.
#[export] Instance SeedRow_eq_dec : EqDecision SeedRow.
Proof. solve_decision. Defined.
#[export] Instance SupplierRow_eq_dec : EqDecision SupplierRow.
Proof. solve_decision. Defined.

(** [stock_log] is the list of its rows, order and type, in the order of [id]; the
    next AUTO_INCREMENT value stands beside a table that has one;
    [homepage_showcase_item] holds the slots of the current showcase. *)
Record PDB := mkPDB {
  products : gmap Z ProductRow; promotions : gmap Z PromotionRow; next_promotion : Z;
  cards : gmap Z CardRow; stock_snapshots : gmap Z StockRow; buckets : gmap (Z * Z) BucketRow;
  stock_log : list (string * string); seeds : gmap Z SeedRow;
  suppliers : gmap Z SupplierRow; next_supplier : Z; merchants : gmap Z MerchantRow;
  showcase_row : option ShowcaseRow; showcase_items : gmap Z Z
}.

Definition with_products v d := mkPDB v (promotions d) (next_promotion d) (cards d) (stock_snapshots d) (buckets d)
  (stock_log d) (seeds d) (suppliers d) (next_supplier d) (merchants d) (showcase_row d) (showcase_items d).
Definition with_promotions v n d := mkPDB (products d) v n (cards d) (stock_snapshots d) (buckets d)
  (stock_log d) (seeds d) (suppliers d) (next_supplier d) (merchants d) (showcase_row d) (showcase_items d).
Definition with_cards v d := mkPDB (products d) (promotions d) (next_promotion d) v (stock_snapshots d) (buckets d)
  (stock_log d) (seeds d) (suppliers d) (next_supplier d) (merchants d) (showcase_row d) (showcase_items d).
Definition with_stock_snapshots v d := mkPDB (products d) (promotions d) (next_promotion d) (cards d) v (buckets d)
  (stock_log d) (seeds d) (suppliers d) (next_supplier d) (merchants d) (showcase_row d) (showcase_items d).
Definition with_buckets v d := mkPDB (products d) (promotions d) (next_promotion d) (cards d) (stock_snapshots d) v
  (stock_log d) (seeds d) (suppliers d) (next_supplier d) (merchants d) (showcase_row d) (showcase_items d).
Definition with_stock_log v d := mkPDB (products d) (promotions d) (next_promotion d) (cards d) (stock_snapshots d)
  (buckets d) v (seeds d) (suppliers d) (next_supplier d) (merchants d) (showcase_row d) (showcase_items d).
Definition with_seeds v d := mkPDB (products d) (promotions d) (next_promotion d) (cards d) (stock_snapshots d)
  (buckets d) (stock_log d) v (suppliers d) (next_supplier d) (merchants d) (showcase_row d) (showcase_items d).
Definition with_suppliers v n d := mkPDB (products d) (promotions d) (next_promotion d) (cards d) (stock_snapshots d)
  (buckets d) (stock_log d) (seeds d) v n (merchants d) (showcase_row d) (showcase_items d).
Definition with_showcase r v d := mkPDB (products d) (promotions d) (next_promotion d) (cards d) (stock_snapshots d)
  (buckets d) (stock_log d) (seeds d) (suppliers d) (next_supplier d) (merchants d) r v.

(** * Statements *)

Section statements.
Context {X : Type}.

Definition query {A} (f : PDB -> A) : M PDB X error A := sql (fun d => (d, f d)) DbError.

Lemma preserves_query {A} (P : PDB -> Prop) (f : PDB -> A) : preserves P (query f).
Proof. by apply preserves_sql. Qed.

(** A query answers from the database, and fails otherwise; nothing changes. *)
Lemma query_cases {A} (f : PDB -> A) (s s' : env PDB X) r :
  query f s = (s', r) -> db s' = db s /\ now s' = now s /\ ext s' = ext s /\ (r = Ok (f (db s)) \/ r = Err DbError).
Proof.
  destruct s as [d x t fs]. unfold query, sql, pop_fault. simpl.
  destruct fs as [|[] fs]; simpl; intros [= <- <-]; split_and!; auto.
Qed.

Lemma observes_query {A} (f : PDB -> A) (s : env PDB X) (Q : A -> Prop) : Q (f (db s)) -> observes (query f) s Q.
Proof.
  intros HQ. unfold observes. destruct (query f s) as [s' r] eqn:Hq.
  destruct (query_cases f s s' r Hq) as (?&?&_&Hr). split_and!; try done.
  simpl. intros a ->. destruct Hr as [[= ->]|]; done.
Qed.
End statements.

(** * Promotion windows

    Without a bound a window is open on that side; both ends belong to it. *)

Definition not_before (a b : option Z) : bool :=
  match a, b with Some a, Some b => b <=? a | _, _ => true end.

(** [now] is in the window: the condition of the price queries. *)
Definition in_window (starts ends : option Z) (t : Z) : bool :=
  not_before (Some t) starts && not_before ends (Some t).

(** Two windows have an instant in common, when both hold one. *)
Definition overlap (s1 e1 s2 e2 : option Z) : bool := not_before e2 s1 && not_before e1 s2.

Lemma in_window_overlap s1 e1 s2 e2 t :
  in_window s1 e1 t = true -> in_window s2 e2 t = true -> overlap s1 e1 s2 e2 = true.
Proof.
  unfold in_window, overlap, not_before. intros H1 H2. bools.
  destruct s1, e1, s2, e2; bools; apply andb_true_iff; split; try done; apply Z.leb_le; lia.
Qed.

Lemma overlap_sym s1 e1 s2 e2 : overlap s1 e1 s2 e2 = overlap s2 e2 s1 e1.
Proof. unfold overlap. apply andb_comm. Qed.

Definition TypeLimitedPrice : string := "LIMITED_PRICE".
Definition StatusActive : Z := 1.
Definition StatusInactive : Z := 2.

(** A row that lowers a price: [status = 1], of the limited price type. *)
Definition active_limited (r : PromotionRow) : bool :=
  (pr_status r =? StatusActive) && str_eqb (pr_type r) TypeLimitedPrice.
