(* ===== verification/Promotion.v ===== *)
(** Promotion rules of the Hertz gateway: the service
    (application/promotion/service.go) over its MySQL repository
    (adapters/productmysql/promotion.go, promotion_window.go). *)

From S2P Require Import Prelude Effects Sql GoText AuthSQL ProductStore.

(** * Data *)

Inductive reason :=
| ReasonInvalidArgument | ReasonProductNotFound | ReasonPromotionNotFound
| ReasonInvalidDiscount | ReasonWindowConflict | ReasonInvalidWindow.

(** [*Fault], or an error of the repository. *)
Inductive failure := Fault (r : reason) (message : string) | RepositoryError (e : error).

Record ListQuery := mkListQuery {
  lq_Page : Z; lq_PageSize : Z; lq_ProductID : Z; lq_Status : Z; lq_EffectStatus : string; lq_Keyword : string
}.

(** [Record]: a rule joined with its product. *)
Record Promotion := mkRecord {
  ID : Z; ProductName : string; OriginPriceFen : Z; SalePriceFen : Z; rule : PromotionRow
}.

(** Times are texts up to the parser of Go's time package. *)
Record CreateInput := mkCreate {
  ci_ProductID : Z; ci_Type : string; ci_DiscountValue : Z; ci_ThresholdAmount : Z;
  ci_StartsAt : string; ci_EndsAt : string; ci_Status : Z
}.

Record UpdateInput := mkUpdate {
  ui_PromotionID : Z; ui_ProductID : option Z; ui_DiscountValue : option Z; ui_ThresholdAmount : option Z;
  ui_StartsAt : option string; ui_EndsAt : option string; ui_Status : option Z
}.

(** [Changes]; the outer option of a time is [OptionalTime.Set]. *)
Record Changes := mkChanges {
  ch_ProductID : option Z; ch_DiscountValue : option Z; ch_ThresholdAmount : option Z;
  ch_StartsAt : option (option Z); ch_EndsAt : option (option Z); ch_Status : option Z
}.

Record MutationResult := mkMutation { PromotionID : Z; AffectedProductIDs : list Z }.

Record Item := mkItem { it_record : Promotion; EffectStatus : string; StatusText : string }.

(** * Repository *)

Section repository.
Context {X : Type}.
Abbreviation M := (M PDB X error).

Definition joined (d : PDB) (id : Z) (r : PromotionRow) : Promotion :=
  match products d !! pr_product r with
  | Some p => mkRecord id (pd_name p) (pd_origin_price p) (pd_sale_price p) r
  | None => mkRecord id "" 0 0 r
  end.

(** The WHERE clause; a keyword compares with NULL when the product is missing. *)
Definition promotionWhereClause (query : ListQuery) (t : Z) (d : PDB) (id : Z) (r : PromotionRow) : bool :=
  ((lq_ProductID query <=? 0) || (pr_product r =? lq_ProductID query)) &&
  ((lq_Status query <? 0) || (pr_status r =? lq_Status query)) &&
  (let effect := trim_space (lq_EffectStatus query) in
   if str_eqb effect "active" then (pr_status r =? 1) && in_window (pr_starts r) (pr_ends r) t
   else if str_eqb effect "scheduled" then
     (pr_status r =? 1) && match pr_starts r with Some a => t <? a | None => false end
   else if str_eqb effect "expired" then
     (pr_status r =? 1) && match pr_ends r with Some b => b <? t | None => false end
   else if str_eqb effect "inactive" then negb (pr_status r =? 1)
   else true) &&
  (is_empty (lq_Keyword query) ||
   match products d !! pr_product r with
   | Some p => SQLStore.LIKE (pd_name p) ("%" +:+ lq_Keyword query +:+ "%")
   | None => false
   end).

(** [ORDER BY pr.id DESC]. *)
Definition by_id_desc (a b : Z * PromotionRow) : Prop := b.1 <= a.1.
#[export] Instance by_id_desc_dec : RelDecision by_id_desc.
Proof. intros a b. unfold by_id_desc. apply _. Defined.

Definition matching (query : ListQuery) (t : Z) (d : PDB) : list (Z * PromotionRow) :=
  sorting.merge_sort by_id_desc
    (filter (fun kr => promotionWhereClause query t d kr.1 kr.2 = true) (map_to_list (promotions d))).

Definition List (query_ : ListQuery) : M (list Promotion * Z) :=
  t <- get_now ;;
  total <- query (fun d => Z.of_nat (length (matching query_ t d))) ;;
  if total =? 0 then ret ([], 0) else
  let offset := int64 ((lq_Page query_ - 1) * lq_PageSize query_) in
  require ((0 <=? offset) && (0 <=? lq_PageSize query_)) DbError ;;;
  items <- query (fun d => map (fun kr => joined d kr.1 kr.2)
             (take (Z.to_nat (lq_PageSize query_)) (drop (Z.to_nat offset) (matching query_ t d)))) ;;
  ret (items, total).

Definition Find (promotionID : Z) : M (option Promotion) :=
  query (fun d => joined d promotionID <$> promotions d !! promotionID).

Definition ProductSalePrice (productID : Z) : M (option Z) :=
  query (fun d => pd_sale_price <$> products d !! productID).

(** The rules that count as a conflict. *)
Definition conflicting (productID excludePromotionID : Z) (startsAt endsAt : option Z)
  (id : Z) (r : PromotionRow) : bool :=
  (pr_product r =? productID) && str_eqb (pr_type r) TypeLimitedPrice && (pr_status r =? 1) &&
  negb (id =? excludePromotionID) && not_before (pr_ends r) startsAt && not_before endsAt (pr_starts r).

Definition HasActiveConflict (productID excludePromotionID : Z) (startsAt endsAt : option Z) : M bool :=
  query (fun d => negb (bool_decide
    (select_all (conflicting productID excludePromotionID startsAt endsAt) (promotions d) = []))).

Definition insert_promotion (r : PromotionRow) (d : PDB) : PDB * Z :=
  (with_promotions (<[next_promotion d := r]> (promotions d)) (next_promotion d + 1) d, next_promotion d).

Definition Insert (r : PromotionRow) : M Z := sql (insert_promotion r) DbError.

(** The SET clauses. *)
Definition apply_changes (c : Changes) (r : PromotionRow) : PromotionRow :=
  mkPromotion (default (pr_product r) (ch_ProductID c)) (pr_type r)
    (default (pr_discount r) (ch_DiscountValue c)) (default (pr_threshold r) (ch_ThresholdAmount c))
    (default (pr_starts r) (ch_StartsAt c)) (default (pr_ends r) (ch_EndsAt c))
    (default (pr_status r) (ch_Status c)).

Definition no_changes (c : Changes) : bool :=
  bool_decide (ch_ProductID c = None) && bool_decide (ch_DiscountValue c = None) &&
  bool_decide (ch_ThresholdAmount c = None) && bool_decide (ch_StartsAt c = None) &&
  bool_decide (ch_EndsAt c = None) && bool_decide (ch_Status c = None).

Definition exec_update (promotionID : Z) (c : Changes) : M Z :=
  sql (fun d => (with_promotions (upd (at_key promotionID (fun _ => true)) (apply_changes c) (promotions d))
                   (next_promotion d) d,
                 affected (at_key promotionID (fun _ => true)) (apply_changes c) (promotions d))) DbError.

Definition Update_row (promotionID : Z) (c : Changes) : M bool :=
  if no_changes c then throw (OtherError "promotion update has no changes") else
  rows <- exec_update promotionID c ;;
  if 0 <? rows then ret true else
  query (fun d => bool_decide (is_Some (promotions d !! promotionID))).

(** Sorted, without repetition. *)
Definition product_ids (l : list Z) : list Z := sorting.merge_sort Z.le (remove_dups l).

(** [BETWEEN a AND b]. *)
Definition between (a b : Z) (v : option Z) : bool :=
  match v with Some v => (a <=? v) && (v <=? b) | None => false end.

Definition WindowAffectedProductIDs_row (t windowMinutes limit : Z) : M (list Z) :=
  now <- get_now ;;
  let window := windowMinutes * 60 in
  ids <- query (fun d => take (Z.to_nat limit) (product_ids (map (fun kr => pr_product kr.2)
    (select_all (fun _ r => (pr_status r =? 1) &&
       (in_window (pr_starts r) (pr_ends r) now || between (t - window) (t + window) (pr_starts r) ||
        between (t - window) (t + window) (pr_ends r))) (promotions d))))) ;;
  ret (filter (fun id => 0 < id) ids).
End repository.

(** * Service *)

Section service.
(** [time.ParseInLocation] over the four layouts; nothing for a text that none of
    them reads. *)
Variable ParseInLocation : string -> option Z.
Context {X : Type}.
Abbreviation M := (M PDB X failure).

(** An error of the repository is returned as it is. *)
Definition repo {A} (m : Effects.M PDB X error A) : M A := fun s =>
  let '(s', r) := m s in
  (s', match r with Ok a => Ok a | Err e => Err (RepositoryError e) end).

Definition normalizeType (value : string) : string :=
  let value := trim_space (to_upper value) in
  if is_empty value then TypeLimitedPrice else value.

(** [parseTime]: a blank text is no bound. *)
Definition parseTime (value : string) : res failure (option Z) :=
  let value := trim_space value in
  if is_empty value then Ok None else
  match ParseInLocation value with
  | Some t => Ok (Some t)
  | None => Err (Fault ReasonInvalidArgument ("invalid time: " +:+ value))
  end.

Definition validStatus (status : Z) : bool := (status =? StatusActive) || (status =? StatusInactive).
Definition validWindow (startsAt endsAt : option Z) : bool := not_before endsAt startsAt.

(** The label of a rule at a time. *)
Definition present (t : Z) (record : Promotion) : Item :=
  let r := rule record in
  let effectStatus :=
    if negb (pr_status r =? StatusActive) then "inactive"
    else if match pr_starts r with Some a => t <? a | None => false end then "scheduled"
    else if match pr_ends r with Some b => b <? t | None => false end then "expired"
    else "active" in
  mkItem record effectStatus
    (if pr_status r =? StatusActive then "active" else if pr_status r =? StatusInactive then "inactive" else "unknown").

Definition List_items (query : ListQuery) : M (list Item * Z) :=
  '(records, total) <- repo (List query) ;;
  t <- get_now ;;
  ret (map (present t) records, total).

Definition Detail (promotionID : Z) : M Item :=
  record <- repo (Find promotionID) ;;
  match record with
  | None => throw (Fault ReasonPromotionNotFound "promotion not found")
  | Some record => t <- get_now ;; ret (present t record)
  end.

Definition WindowAffectedProductIDs (windowMinutes limit : Z) : M (list Z) :=
  let windowMinutes := if (windowMinutes <=? 0) || (24 * 60 <? windowMinutes) then 120 else windowMinutes in
  let limit := if (limit <=? 0) || (10000 <? limit) then 1000 else limit in
  t <- get_now ;;
  repo (WindowAffectedProductIDs_row t windowMinutes limit).

Definition arguments_required : failure :=
  Fault ReasonInvalidArgument "product_id, positive discount_value and non-negative threshold_amount are required".
Definition invalid_discount : failure :=
  Fault ReasonInvalidDiscount "discount_value must be <= product sale_price_fen".
Definition window_conflict : failure :=
  Fault ReasonWindowConflict "active limited price promotion window overlaps".
Definition invalid_window : failure := Fault ReasonInvalidWindow "ends_at must be after starts_at".
Definition product_not_found : failure := Fault ReasonProductNotFound "product not found".
Definition promotion_not_found : failure := Fault ReasonPromotionNotFound "promotion not found".

(** [Create] up to the insertion: the row that it inserts. *)
Definition create_checks (input : CreateInput) : M PromotionRow :=
  let type := normalizeType (ci_Type input) in
  require (negb ((ci_ProductID input <=? 0) || (ci_DiscountValue input <=? 0) || (ci_ThresholdAmount input <? 0)))
    arguments_required ;;;
  require (str_eqb type TypeLimitedPrice) (Fault ReasonInvalidArgument "unsupported promotion type") ;;;
  let status := if ci_Status input =? 0 then StatusActive else ci_Status input in
  require (validStatus status) (Fault ReasonInvalidArgument "status must be 1 or 2") ;;;
  startsAt <- of_res (parseTime (ci_StartsAt input)) ;;
  endsAt <- of_res (parseTime (ci_EndsAt input)) ;;
  require (validWindow startsAt endsAt) invalid_window ;;;
  salePrice <- repo (ProductSalePrice (ci_ProductID input)) ;;
  match salePrice with
  | None => throw product_not_found
  | Some salePrice =>
      require (ci_DiscountValue input <=? salePrice) invalid_discount ;;;
      (if status =? StatusActive then
         conflict <- repo (HasActiveConflict (ci_ProductID input) 0 startsAt endsAt) ;;
         require (negb conflict) window_conflict
       else ret tt) ;;;
      ret (mkPromotion (ci_ProductID input) type (ci_DiscountValue input) (ci_ThresholdAmount input)
             startsAt endsAt status)
  end.

Definition Create (input : CreateInput) : M MutationResult :=
  row <- create_checks input ;;
  id <- repo (Insert row) ;;
  ret (mkMutation id [ci_ProductID input]).

(** Positive ids, each once, in order. *)
Fixpoint uniqueIDs (seen : list Z) (values : list Z) : list Z :=
  match values with
  | [] => []
  | v :: values =>
      if (v <=? 0) || bool_decide (v ∈ seen) then uniqueIDs seen values else v :: uniqueIDs (v :: seen) values
  end.

(** A pointer field: [nil] leaves the current value. *)
Definition parse_optional (value : option string) : res failure (option (option Z)) :=
  match value with
  | None => Ok None
  | Some value => let? t := parseTime value in Ok (Some t)
  end.

Definition given {A} (v : option A) : bool := match v with Some _ => true | None => false end.

(** [Update] up to its statement: the current row and the changes. *)
Definition update_checks (input : UpdateInput) : M (PromotionRow * Changes) :=
  require (0 <? ui_PromotionID input) (Fault ReasonInvalidArgument "promotion_id required") ;;;
  require (given (ui_ProductID input) || given (ui_DiscountValue input) || given (ui_ThresholdAmount input) ||
           given (ui_StartsAt input) || given (ui_EndsAt input) || given (ui_Status input))
    (Fault ReasonInvalidArgument "no fields to update") ;;;
  found <- repo (Find (ui_PromotionID input)) ;;
  match found with
  | None => throw promotion_not_found
  | Some record =>
      let current := rule record in
      require (match ui_ProductID input with Some v => 0 <? v | None => true end)
        (Fault ReasonInvalidArgument "product_id required") ;;;
      require (match ui_DiscountValue input with Some v => 0 <? v | None => true end)
        (Fault ReasonInvalidArgument "discount_value must be positive") ;;;
      require (match ui_ThresholdAmount input with Some v => 0 <=? v | None => true end)
        (Fault ReasonInvalidArgument "threshold_amount must be non-negative") ;;;
      require (match ui_Status input with Some v => validStatus v | None => true end)
        (Fault ReasonInvalidArgument "status must be 1 or 2") ;;;
      startsAt <- of_res (parse_optional (ui_StartsAt input)) ;;
      endsAt <- of_res (parse_optional (ui_EndsAt input)) ;;
      let changes := mkChanges (ui_ProductID input) (ui_DiscountValue input) (ui_ThresholdAmount input)
                       startsAt endsAt (ui_Status input) in
      let final := apply_changes changes current in
      require (validWindow (pr_starts final) (pr_ends final)) invalid_window ;;;
      (if given (ui_ProductID input) || given (ui_DiscountValue input) then
         salePrice <- repo (ProductSalePrice (pr_product final)) ;;
         match salePrice with
         | None => throw product_not_found
         | Some salePrice => require (pr_discount final <=? salePrice) invalid_discount
         end
       else ret tt) ;;;
      (if (pr_status final =? StatusActive) &&
          (given (ui_ProductID input) || given (ui_Status input) || given (ui_StartsAt input) || given (ui_EndsAt input)) then
         conflict <- repo (HasActiveConflict (pr_product final) (ui_PromotionID input)
                             (pr_starts final) (pr_ends final)) ;;
         require (negb conflict) window_conflict
       else ret tt) ;;;
      ret (current, changes)
  end.

Definition Update (input : UpdateInput) : M MutationResult :=
  '(current, changes) <- update_checks input ;;
  updated <- repo (Update_row (ui_PromotionID input) changes) ;;
  if (updated : bool)
  then ret (mkMutation (ui_PromotionID input)
              (uniqueIDs [] [pr_product current; default (pr_product current) (ui_ProductID input)]))
  else throw promotion_not_found.
End service.
