(* ===== verification/PromotionRules.v ===== *)
(** The rules that the promotion service keeps: windows of active rules do not
    overlap, rules are well formed and below the sale price; and the labels of a
    listing are those of its filter. *)

From S2P Require Import Prelude Effects Sql GoText ProductStore Promotion.

Lemma observes_repo {X A} (m : M PDB X error A) (s : env PDB X) (Q : A -> Prop) : observes m s Q -> observes (repo m) s Q.
Proof.
  unfold observes, repo. destruct (m s) as [s' [a|e]]; simpl; intros (?&?&HQ); split_and!; try done.
  intros b [= <-]. by apply HQ.
Qed.

(** * The rules *)

Definition row_ok (d : PDB) (r : PromotionRow) : Prop :=
  0 < pr_discount r /\ 0 <= pr_threshold r /\ validStatus (pr_status r) = true /\
  validWindow (pr_starts r) (pr_ends r) = true /\
  exists p, products d !! pr_product r = Some p /\ pr_discount r <= pd_sale_price p.

(** Two active rules of a product do not overlap. *)
Definition apart_from (r r' : PromotionRow) : Prop :=
  active_limited r = true -> active_limited r' = true -> pr_product r = pr_product r' ->
  overlap (pr_starts r) (pr_ends r) (pr_starts r') (pr_ends r') = false.

Record promotions_ok (d : PDB) : Prop := mk_promotions_ok {
  po_ids : 0 < next_promotion d /\ forall i r, promotions d !! i = Some r -> 0 < i < next_promotion d;
  po_rows : forall i r, promotions d !! i = Some r -> row_ok d r;
  po_apart : forall i j r r', promotions d !! i = Some r -> promotions d !! j = Some r' -> i <> j -> apart_from r r'
}.

(** A row that can be put under a key. *)
Definition fits (d : PDB) (id : Z) (r : PromotionRow) : Prop :=
  row_ok d r /\ forall j r', promotions d !! j = Some r' -> j <> id -> apart_from r r'.

Lemma apart_from_sym r r' : apart_from r r' -> apart_from r' r.
Proof. intros Ha H1 H2 H3. rewrite overlap_sym. by apply Ha. Qed.

Lemma put_ok d id n r :
  promotions_ok d -> fits d id r -> 0 < id < n -> next_promotion d <= n ->
  promotions_ok (with_promotions (<[id := r]> (promotions d)) n d).
Proof.
  intros [[Hn Hids] Hrows Hapart] [Hr Hfit] Hid Hle. split; simpl.
  - split; [lia|]. intros i r'. rewrite lookup_insert_Some. intros [[<- <-]|[_ Hi]]; [done|].
    specialize (Hids i r' Hi). lia.
  - intros i r'. rewrite lookup_insert_Some. intros [[<- <-]|[_ Hi]]; [done|by apply (Hrows i)].
  - intros i j r1 r2. rewrite !lookup_insert_Some.
    intros [[<- <-]|[Hi1 Hi]] [[<- <-]|[Hj1 Hj]] Hne; [done|by eapply Hfit; eauto| |by eapply Hapart].
    apply apart_from_sym. eapply Hfit; eauto.
Qed.

(** No rule conflicts: every other active rule of the product is apart. *)
Lemma no_conflict d id r :
  select_all (conflicting (pr_product r) id (pr_starts r) (pr_ends r)) (promotions d) = [] ->
  forall j r', promotions d !! j = Some r' -> j <> id -> apart_from r r'.
Proof.
  intros Hnone j r' Hj Hne _ Hact Hprod. unfold active_limited in Hact. bools.
  destruct (overlap _ _ _ _) eqn:Hov; [|done]. exfalso.
  assert ((j, r') ∈ select_all (conflicting (pr_product r) id (pr_starts r) (pr_ends r)) (promotions d)) as Hin.
  { apply elem_of_select_all. split; [done|]. unfold conflicting.
    unfold overlap in Hov. apply andb_true_iff in Hov as [Hov1 Hov2]. rewrite Hov1, Hov2.
    unfold StatusActive in *. rewrite !andb_true_r.
    repeat (apply andb_true_iff; split); [by apply Z.eqb_eq|by apply str_eqb_eq|by apply Z.eqb_eq|].
    apply negb_true_iff. by apply Z.eqb_neq. }
  rewrite Hnone in Hin. by apply elem_of_nil in Hin.
Qed.

Section service.
Variable ParseInLocation : string -> option Z.
Context {X : Type}.
Implicit Types (s : env PDB X) (d : PDB).

Lemma observes_conflict productID id startsAt endsAt s :
  observes (X := X) (repo (HasActiveConflict productID id startsAt endsAt)) s (fun b =>
    b = false -> select_all (conflicting productID id startsAt endsAt) (promotions (db s)) = []).
Proof.
  apply observes_repo, observes_query. intros Hb. apply negb_false_iff in Hb. by apply bool_decide_eq_true in Hb.
Qed.

Lemma observes_price productID s :
  observes (X := X) (repo (ProductSalePrice productID)) s (fun v =>
    forall price, v = Some price -> exists p, products (db s) !! productID = Some p /\ price = pd_sale_price p).
Proof.
  apply observes_repo, observes_query. intros price (p&->&Hp)%fmap_Some. eauto.
Qed.

(** Past its checks [Create] has a row that fits, under any id that is free. *)
Lemma create_checks_fit input s id :
  promotions (db s) !! id = None ->
  (forall j r, promotions (db s) !! j = Some r -> 0 < j) ->
  observes (create_checks ParseInLocation input) s (fits (db s) id).
Proof.
  intros Hfree Hpos. unfold create_checks.
  apply observes_guard. intros s1 Hd1 _ Hargs.
  apply observes_guard. intros s2 Hd2 _ Htype.
  set (status := if ci_Status input =? 0 then StatusActive else ci_Status input).
  apply observes_guard. intros s3 Hd3 _ Hstatus.
  eapply (observes_bind _ _ _ (fun _ => True)); [by apply observes_of_res|]. intros startsAt s4 Hd4 _ _.
  eapply (observes_bind _ _ _ (fun _ => True)); [by apply observes_of_res|]. intros endsAt s5 Hd5 _ _.
  apply observes_guard. intros s6 Hd6 _ Hwindow.
  eapply observes_bind; [apply observes_price|]. intros [price|] s7 Hd7 _ Hprice; [|apply observes_throw].
  destruct (Hprice price eq_refl) as (p&Hp&->).
  apply observes_guard. intros s8 Hd8 _ Hle.
  assert (db s8 = db s) as Hd by congruence.
  set (row := mkPromotion (ci_ProductID input) (normalizeType (ci_Type input)) (ci_DiscountValue input)
                (ci_ThresholdAmount input) startsAt endsAt status).
  assert (row_ok (db s) row) as Hrow.
  { apply negb_true_iff in Hargs. apply orb_false_iff in Hargs as [Hargs Hthr].
    apply orb_false_iff in Hargs as [_ Hdisc]. apply Z.leb_gt in Hdisc. apply Z.ltb_ge in Hthr. apply Z.leb_le in Hle.
    split_and!; simpl; try done. exists p. split; [congruence|done]. }
  eapply (observes_bind _ _ _ (fun _ => fits (db s) id row)); [|intros [] s9 _ _ Hfit; by apply observes_ret].
  destruct (Z.eqb_spec status StatusActive) as [Hact|Hna].
  - eapply observes_bind; [apply observes_conflict|]. intros conflict s9 _ _ Hc.
    apply observes_require. intros Hneg. apply negb_true_iff in Hneg. specialize (Hc Hneg). rewrite Hd in Hc.
    split; [done|]. intros j r' Hj Hne. eapply (no_conflict _ 0 row Hc); [done|].
    specialize (Hpos j r' Hj). lia.
  - apply observes_ret. split; [done|]. intros j r' _ _ Ha. exfalso. unfold active_limited in Ha. simpl in Ha. bools. done.
Qed.

(** A change that leaves product, status and window keeps a rule apart. *)
Lemma apply_changes_apart c r r' :
  ch_ProductID c = None -> ch_Status c = None -> ch_StartsAt c = None -> ch_EndsAt c = None ->
  apart_from r r' -> apart_from (apply_changes c r) r'.
Proof. destruct c, r; simpl. intros -> -> -> -> Ha. exact Ha. Qed.

Lemma apply_changes_row d c r :
  row_ok d r ->
  (forall v, ch_DiscountValue c = Some v -> 0 < v) -> (forall v, ch_ThresholdAmount c = Some v -> 0 <= v) ->
  (forall v, ch_Status c = Some v -> validStatus v = true) ->
  validWindow (pr_starts (apply_changes c r)) (pr_ends (apply_changes c r)) = true ->
  (given (ch_ProductID c) || given (ch_DiscountValue c) = true -> exists p,
     products d !! pr_product (apply_changes c r) = Some p /\ pr_discount (apply_changes c r) <= pd_sale_price p) ->
  row_ok d (apply_changes c r).
Proof.
  intros (Hd&Ht&Hs&_&Hp) Hcd Hct Hcs Hw Hcp. destruct c as [cp cd ct ca ce cs]. simpl in *.
  split_and!; simpl; [destruct cd; simpl; auto|destruct ct; simpl; auto|destruct cs; simpl; auto|done|].
  destruct cp, cd; auto.
Qed.

Lemma observes_sale_check (b : bool) productID discount s :
  observes (X := X) (if b then
      salePrice <- repo (ProductSalePrice productID) ;;
      match salePrice with
      | None => throw product_not_found
      | Some salePrice => require (discount <=? salePrice) invalid_discount
      end
    else ret tt) s (fun _ => b = true ->
      exists p, products (db s) !! productID = Some p /\ discount <= pd_sale_price p).
Proof.
  destruct b; [|by apply observes_ret].
  eapply observes_bind; [apply observes_price|]. intros [price|] s1 _ _ Hprice; [|apply observes_throw].
  apply observes_require. intros Hle _. destruct (Hprice price eq_refl) as (p&Hp&->).
  exists p. split; [done|]. by apply Z.leb_le.
Qed.

Lemma observes_conflict_check (b : bool) id r s :
  observes (X := X) (if b then
      conflict <- repo (HasActiveConflict (pr_product r) id (pr_starts r) (pr_ends r)) ;;
      require (negb conflict) window_conflict
    else ret tt) s (fun _ => b = true ->
      forall j r', promotions (db s) !! j = Some r' -> j <> id -> apart_from r r').
Proof.
  destruct b; [|by apply observes_ret].
  eapply observes_bind; [apply observes_conflict|]. intros conflict s1 _ _ Hc.
  apply observes_require. intros Hneg _. apply negb_true_iff in Hneg. by apply no_conflict, Hc.
Qed.

Lemma parse_optional_given value v :
  parse_optional ParseInLocation value = Ok v -> given v = given value.
Proof. destruct value as [t|]; simpl; [destruct (parseTime _ t); simpl|]; intros [= <-]; done. Qed.

Lemma guarded_field {A} (f : A -> bool) (o : option A) :
  match o with Some v => f v | None => true end = true -> forall v, o = Some v -> f v = true.
Proof. by intros Hf v ->. Qed.

(** Past its checks [Update] has the stored row, and changes that fit. *)
Lemma update_checks_fit input s :
  promotions_ok (db s) ->
  observes (update_checks ParseInLocation input) s (fun '(current, changes) =>
    promotions (db s) !! ui_PromotionID input = Some current /\
    fits (db s) (ui_PromotionID input) (apply_changes changes current)).
Proof.
  intros [_ Hrows Hapart]. unfold update_checks.
  apply observes_guard. intros s1 Hd1 _ _. apply observes_guard. intros s2 Hd2 _ _.
  assert (db s2 = db s) as Hd by congruence.
  eapply observes_bind; [apply observes_repo, observes_query, eq_refl|]. cbv beta.
  intros found s3 Hd3 _ Hfound. rewrite Hd in Hfound.
  destruct found as [record|]; [|apply observes_throw].
  apply fmap_Some in Hfound as (current&Hcur&->).
  replace (rule (joined (db s) (ui_PromotionID input) current)) with current
    by (unfold joined; by destruct (products (db s) !! _)).
  apply observes_guard. intros s4 Hd4 _ _. apply observes_guard. intros s5 Hd5 _ Hdisc.
  apply observes_guard. intros s6 Hd6 _ Hthr. apply observes_guard. intros s7 Hd7 _ Hst.
  eapply (observes_bind _ _ _ (fun v => given v = given (ui_StartsAt input)));
    [apply observes_of_res, parse_optional_given|]. intros startsAt s8 Hd8 _ Hsa.
  eapply (observes_bind _ _ _ (fun v => given v = given (ui_EndsAt input)));
    [apply observes_of_res, parse_optional_given|]. intros endsAt s9 Hd9 _ Hea.
  set (c := mkChanges _ _ _ startsAt endsAt _). apply observes_guard. intros s10 Hd10 _ Hwin.
  assert (db s10 = db s) as Hdb by congruence.
  eapply observes_bind; [apply observes_sale_check|]. intros [] s11 Hd11 _ Hprice. rewrite Hdb in Hprice.
  eapply observes_bind; [apply observes_conflict_check|]. intros [] s12 _ _ Hconf. rewrite Hd11, Hdb in Hconf.
  apply observes_ret. split; [done|]. split.
  - apply apply_changes_row; simpl; try done; [by eapply Hrows|..].
    + intros v Hv. by apply Z.ltb_lt, (guarded_field _ _ Hdisc).
    + intros v Hv. by apply Z.leb_le, (guarded_field _ _ Hthr).
    + intros v Hv. by apply (guarded_field _ _ Hst).
  - intros j r' Hj Hne. destruct (pr_status (apply_changes c current) =? StatusActive) eqn:Hs.
    2: { intros Hact. unfold active_limited in Hact. by rewrite Hs in Hact. }
    rewrite andb_true_l in Hconf.
    destruct (given (ui_ProductID input) || given (ui_Status input) || given (ui_StartsAt input) || given (ui_EndsAt input)) eqn:Hg.
    { by eapply Hconf. }
    rewrite <- Hsa, <- Hea in Hg. rewrite !orb_false_iff in Hg. destruct Hg as (((Hg1&Hg2)&Hg3)&Hg4).
    apply apply_changes_apart; simpl; [by destruct (ui_ProductID input)|by destruct (ui_Status input)
      |by destruct startsAt|by destruct endsAt|]. by eapply Hapart.
Qed.

Lemma preserves_repo {A} (P : PDB -> Prop) (m : Effects.M PDB X error A) : preserves P m -> preserves P (repo m).
Proof. intros Hm s Hs. specialize (Hm s Hs). unfold repo. by destruct (m s). Qed.

Lemma db_repo {A} (m : Effects.M PDB X error A) s : db (repo m s).1 = db (m s).1.
Proof. unfold repo. by destruct (m s). Qed.

Lemma Insert_keeps r s :
  promotions_ok (db s) -> fits (db s) (next_promotion (db s)) r -> promotions_ok (db (Insert (X := X) r s).1).
Proof.
  intros Hok Hfits. unfold Insert. apply sql_outcome; [done|]. simpl.
  apply put_ok; [done|done| |lia]. destruct Hok as [[Hn _] _ _]. lia.
Qed.

Lemma Update_row_keeps id c r s :
  promotions_ok (db s) -> promotions (db s) !! id = Some r -> fits (db s) id (apply_changes c r) ->
  promotions_ok (db (Update_row (X := X) id c s).1).
Proof.
  intros Hok Hr Hfits. unfold Update_row. destruct (no_changes c); [done|].
  unfold bind. destruct (exec_update id c s) as [s1 res] eqn:Hexec.
  assert (promotions_ok (db s1)) as Hs1.
  { replace s1 with (exec_update (X := X) id c s).1 by (by rewrite Hexec). unfold exec_update. apply sql_outcome; [done|]. simpl.
    rewrite upd_at_key, Hr. simpl. apply put_ok; [done|done| |lia]. destruct Hok as [[_ Hids] _ _]. by apply (Hids id r). }
  destruct res as [rows|e]; [|done]. destruct (0 <? rows); [done|]. by apply preserves_query.
Qed.

Lemma Create_keeps input : preserves (X := X) promotions_ok (Create ParseInLocation input).
Proof.
  intros s Hok. unfold Create. pose proof Hok as [[Hn Hids] _ _].
  eapply observes_then; [done|apply (create_checks_fit _ _ (next_promotion (db s)))| ].
  - apply eq_None_not_Some. intros [r Hr]. specialize (Hids _ r Hr). lia.
  - intros j r Hj. specialize (Hids j r Hj). lia.
  - intros row s1 Hd Hfits. apply preserves_then; [|intros id; apply preserves_ret].
    rewrite db_repo. apply Insert_keeps; by rewrite Hd.
Qed.

Lemma Update_keeps input : preserves (X := X) promotions_ok (Update ParseInLocation input).
Proof.
  intros s Hok. unfold Update. eapply observes_then; [done|by apply update_checks_fit|].
  intros [current c] s1 Hd [Hcur Hfits]. apply preserves_then; [|intros []; [apply preserves_ret|apply preserves_throw]].
  rewrite db_repo. eapply Update_row_keeps; rewrite Hd; eauto.
Qed.

(** * Runs of the service *)

Inductive request :=
| CreateRequest (input : CreateInput)
| UpdateRequest (input : UpdateInput)
| ListRequest (query : ListQuery)
| DetailRequest (id : Z)
| WindowRequest (windowMinutes limit : Z).

(** One request; what it answers is dropped. *)
Definition handle (r : request) : M PDB X failure unit :=
  match r with
  | CreateRequest input => ignore (Create ParseInLocation input)
  | UpdateRequest input => ignore (Update ParseInLocation input)
  | ListRequest query => ignore (List_items query)
  | DetailRequest id => ignore (Detail id)
  | WindowRequest windowMinutes limit => ignore (WindowAffectedProductIDs windowMinutes limit)
  end.

(** Each request comes with the time at which it is served. *)
Definition handle_at (tr : Z * request) : M PDB X failure unit := fun s =>
  handle tr.2 (mkEnv (db s) (ext s) tr.1 (faults s)).

Definition serve (requests : list (Z * request)) : M PDB X failure unit := for_each handle_at requests.

Lemma preserves_List_items query : preserves (X := X) promotions_ok (List_items query).
Proof.
  apply preserves_bind; [|intros [records total]; apply preserves_bind; [apply preserves_get_now|intros; apply preserves_ret]].
  apply preserves_repo. apply preserves_bind; [apply preserves_get_now|]. intros t.
  apply preserves_bind; [apply preserves_query|]. intros total. destruct (total =? 0); [apply preserves_ret|].
  apply preserves_bind; [apply preserves_require|]. intros _.
  apply preserves_bind; [apply preserves_query|]. intros; apply preserves_ret.
Qed.

Lemma preserves_Detail id : preserves (X := X) promotions_ok (Detail id).
Proof.
  apply preserves_bind; [apply preserves_repo, preserves_query|]. intros [record|]; [|apply preserves_throw].
  apply preserves_bind; [apply preserves_get_now|]. intros; apply preserves_ret.
Qed.

Lemma preserves_Window w l : preserves (X := X) promotions_ok (WindowAffectedProductIDs w l).
Proof.
  apply preserves_bind; [apply preserves_get_now|]. intros t. apply preserves_repo.
  apply preserves_bind; [apply preserves_get_now|]. intros n.
  apply preserves_bind; [apply preserves_query|]. intros; apply preserves_ret.
Qed.

Lemma handle_keeps r : preserves (X := X) promotions_ok (handle r).
Proof.
  destruct r; apply preserves_ignore;
    auto using Create_keeps, Update_keeps, preserves_List_items, preserves_Detail, preserves_Window.
Qed.

Lemma serve_keeps requests : preserves (X := X) promotions_ok (serve requests).
Proof. apply preserves_for_each. intros [t r] _ s Hs. by apply handle_keeps. Qed.
End service.

(** * What the rules mean for a price *)

(** The rule lowers the price of its product at [t]. *)
Definition applies (t : Z) (r : PromotionRow) : bool := active_limited r && in_window (pr_starts r) (pr_ends r) t.

Lemma promotions_ok_applies d t i j r r' :
  promotions_ok d -> promotions d !! i = Some r -> promotions d !! j = Some r' -> pr_product r = pr_product r' ->
  applies t r = true -> applies t r' = true -> i = j.
Proof.
  intros [_ _ Hapart] Hi Hj Hp Hr Hr'. unfold applies in *. bools.
  destruct (decide (i = j)) as [|Hne]; [done|]. exfalso.
  assert (overlap (pr_starts r) (pr_ends r) (pr_starts r') (pr_ends r') = true) as Hov by (by eapply in_window_overlap).
  rewrite (Hapart i j r r') in Hov; done.
Qed.

(** C27 Whatever requests are served one after another and whatever calls fail: at
    any instant at most one rule lowers the price of a product, and to a price
    between 1 and its sale price. *)
Theorem promotions_stay_consistent {X} ParseInLocation requests (s : env PDB X) t i r :
  promotions_ok (db s) ->
  let d := db (serve ParseInLocation requests s).1 in
  promotions d !! i = Some r -> applies t r = true ->
  (exists p, products d !! pr_product r = Some p /\ 0 < pr_discount r <= pd_sale_price p) /\
  (forall j r', promotions d !! j = Some r' -> pr_product r' = pr_product r -> applies t r' = true -> j = i).
Proof.
  intros Hok d Hi Hr. assert (promotions_ok d) as Hd by (by apply serve_keeps). split.
  - destruct (po_rows d Hd i r Hi) as (?&_&_&_&p&?&?). exists p. split; [done|lia].
  - intros j r' Hj Hp Hr'. by eapply (promotions_ok_applies d t j i r' r).
Qed.

(** * Listings *)

Definition effect_labels : list string := ["active"; "scheduled"; "expired"; "inactive"].

Definition without_effect (q : ListQuery) : ListQuery :=
  mkListQuery (lq_Page q) (lq_PageSize q) (lq_ProductID q) (lq_Status q) "" (lq_Keyword q).

(** The effect filter of the query keeps the rules that the listing labels so:
    each rule is found under one of the four filters. *)
Lemma effect_filter_is_label q t d id r :
  row_ok d r -> lq_EffectStatus q ∈ effect_labels ->
  promotionWhereClause q t d id r = true <->
  promotionWhereClause (without_effect q) t d id r = true /\
  EffectStatus (present t (joined d id r)) = lq_EffectStatus q.
Proof.
  intros (_&_&_&Hw&_) Hl. unfold promotionWhereClause, present.
  assert (rule (joined d id r) = r) as -> by (unfold joined; by destruct (products d !! _)). simpl.
  destruct ((lq_ProductID q <=? 0) || _); [|naive_solver]. destruct ((lq_Status q <? 0) || _); [|naive_solver].
  destruct (is_empty (lq_Keyword q) || _); [|rewrite !andb_false_r; naive_solver].
  rewrite !andb_true_r, !andb_true_l.
  unfold validWindow, not_before, in_window, StatusActive in *.
  unfold effect_labels in Hl. rewrite !elem_of_cons, elem_of_nil in Hl.
  destruct (pr_status r =? 1), (pr_starts r) as [a|], (pr_ends r) as [b|];
    destruct Hl as [Hl|[Hl|[Hl|[Hl|[]]]]]; rewrite Hl; simpl; try (intuition discriminate);
    repeat match goal with |- context [?x <? ?y] => destruct (Z.ltb_spec x y) end;
    repeat match goal with |- context [?x <=? ?y] => destruct (Z.leb_spec x y) end; bools;
    simpl; intuition (try discriminate; lia).
Qed.
