(* ===== verification/ProductCards.v ===== *)
(** Product cards: reading one or many (app/product/rpc/internal/logic:
    getproductcardlogic.go, listproductslogic.go), the snapshots they are read from
    (app/gateway/hertz/internal/adapters/productmysql/snapshot.go), and the job that
    refreshes them (app/entry/api/job/product_card_snapshot.go). *)

From S2P Require Import Prelude Effects Sql ProductStore Promotion.

(** [GetProductCardResp]. *)
Record Card := mkCardResp {
  ProductId : Z; Name : string; OriginPriceFen : Z; FinalPriceFen : Z; PromotionType : string;
  PromotionTag : string; StockAvailable : Z; SupplierId : Z; ImageUrl : string; MerchantId : Z
}.

#[export] Instance Card_eq_dec : EqDecision Card.
Proof. solve_decision. Defined.

Record ListProductsReq := mkListProductsReq { ProductIds : list Z; PageSize : Z; PageNum : Z }.
Record ListProductsResp := mkListProductsResp { Items : list Card; Total : Z }.

(** * Queries *)

(** The rows of a table with an integer key, in the order of the key. *)
Definition by_key {R} (a b : Z * R) : Prop := a.1 <= b.1.
#[export] Instance by_key_dec {R} : RelDecision (@by_key R).
Proof. intros a b. unfold by_key. apply _. Defined.

Definition ordered {R} (m : gmap Z R) : list (Z * R) := sorting.merge_sort by_key (map_to_list m).

(** [MIN(...)]: nothing of no value. *)
Definition min_of (l : list Z) : option Z :=
  match l with [] => None | x :: l => Some (foldr Z.min x l) end.

(** The rules that a price query joins, and those whose value it takes. *)
Definition lowers (t id : Z) (_ : Z) (r : PromotionRow) : bool :=
  (pr_product r =? id) && (pr_status r =? 1) && in_window (pr_starts r) (pr_ends r) t &&
  str_eqb (pr_type r) "LIMITED_PRICE".

Definition limited_price_fen (d : PDB) (t id : Z) : option Z :=
  min_of (map (fun kr => pr_discount kr.2) (select_all (lowers t id) (promotions d))).

Definition bucket_stocks (d : PDB) (id : Z) : list Z :=
  map (fun kb => bk_stock kb.2) (select_all (fun k _ => k.1 =? id) (buckets d)).

(** [COALESCE(SUM(stock), 0) ... GROUP BY product_id], joined: nothing without a bucket. *)
Definition bucket_sum (d : PDB) (id : Z) : option Z :=
  match bucket_stocks d id with [] => None | l => Some (sumZ (fun x => x) l) end.

(** [COALESCE(stock.available, bucket.stock_available, 0)]. *)
Definition available_stock (d : PDB) (id : Z) : Z :=
  match stock_snapshots d !! id with
  | Some s => sn_available s
  | None => default 0 (bucket_sum d id)
  end.

(** [CASE WHEN price > 0]: [NULL] and what is not positive lower nothing. *)
Definition limited (price : option Z) : option Z :=
  match price with Some v => if 0 <? v then Some v else None | None => None end.

Definition limited_tag : string := "限时价".

(** The card of a product, from its limited price and stock. *)
Definition card_of (id : Z) (p : ProductRow) (price : option Z) (stock : Z) : Card :=
  mkCardResp id (pd_name p) (pd_origin_price p)
    (match limited price with Some v => v | None => pd_sale_price p end)
    (match limited price with Some _ => "LIMITED_PRICE" | None => "" end)
    (match limited price with Some _ => limited_tag | None => "" end)
    stock (pd_supplier p) (pd_image p) (pd_merchant p).

(** The card of a snapshot, joined with its product. *)
Definition productCardSnapshotToResp (id : Z) (c : CardRow) (p : ProductRow) : Card :=
  mkCardResp id (cs_name c) (cs_origin_price c) (cs_final_price c) (cs_promotion_type c) (cs_promotion_tag c)
    (cs_stock c) (cs_supplier c) (pd_image p) (pd_merchant p).

Definition snapshot_card (d : PDB) (id : Z) : option Card :=
  match cards d !! id, products d !! id with
  | Some c, Some p => if cs_status c =? 1 then Some (productCardSnapshotToResp id c p) else None
  | _, _ => None
  end.

Definition active_product (d : PDB) (id : Z) : option ProductRow :=
  match products d !! id with
  | Some p => if pd_status p =? 1 then Some p else None
  | None => None
  end.

(** * Reading *)

Section reading.
Context {X : Type}.
Abbreviation M := (M PDB X error).

Definition GetProductCard (id : Z) : M Card :=
  snapshot <- attempt (query (fun d => snapshot_card d id)) ;;
  match snapshot with
  | Ok (Some card) => ret card
  | _ =>
      t <- get_now ;;
      row <- query (fun d => p ← active_product d id; Some (p, limited_price_fen d t id)) ;;
      match row with
      | None => throw (StatusError NotFound "product card not found")
      | Some (p, price) =>
          snapshot <- attempt (query (fun d => sn_available <$> stock_snapshots d !! id)) ;;
          stockAvailable <- match snapshot with
                            | Ok (Some available) => ret available
                            | _ => stocks <- query (fun d => bucket_stocks d id) ;;
                                   ret (int64 (sumZ (fun x => x) stocks))
                            end ;;
          ret (card_of id p price stockAvailable)
      end
  end.

(** [LIMIT ? OFFSET ?], when a page size is given. *)
Definition page_of {A} (req : ListProductsReq) (l : list A) : list A :=
  if 0 <? PageSize req then
    take (Z.to_nat (PageSize req)) (drop (Z.to_nat (Z.max 0 (int64 ((PageNum req - 1) * PageSize req)))) l)
  else l.

Definition snapshot_rows (d : PDB) : list Card := omap (fun kc => snapshot_card d kc.1) (ordered (cards d)).

Definition product_count (d : PDB) : Z := Z.of_nat (length (select_all (fun _ p => pd_status p =? 1) (products d))).

Definition missing_snapshots (d : PDB) : Z :=
  Z.of_nat (length (select_all (fun id p => (pd_status p =? 1) &&
    match cards d !! id with Some c => negb (cs_status c =? 1) | None => true end) (products d))).

Definition stale_snapshots (d : PDB) : Z :=
  Z.of_nat (length (select_all (fun id c => (cs_status c =? 1) &&
    match active_product d id with Some _ => false | None => true end) (cards d))).

(** The answer from snapshots, when they are complete. *)
Definition listProductCardSnapshots (req : ListProductsReq) : M (option ListProductsResp) :=
  match ProductIds req with
  | _ :: _ =>
      rows <- query (fun d => filter (fun card => ProductId card ∈ ProductIds req) (snapshot_rows d)) ;;
      if negb (length rows =? length (remove_dups (ProductIds req)))%nat then ret None
      else ret (Some (mkListProductsResp rows (Z.of_nat (length rows))))
  | [] =>
      rows <- query (fun d => page_of req (snapshot_rows d)) ;;
      if (length rows =? 0)%nat then ret None else
      completeness <- query (fun d => (product_count d, missing_snapshots d, stale_snapshots d)) ;;
      let '(count, missing, stale) := completeness in
      if (0 <? missing) || (0 <? stale) then ret None
      else ret (Some (mkListProductsResp rows count))
  end.

Definition product_rows (d : PDB) (t : Z) : list (Z * ProductRow * option Z) :=
  omap (fun kp => p ← active_product d kp.1; Some (kp.1, p, limited_price_fen d t kp.1)) (ordered (products d)).

(** A page asks for the count of all; without one the total is that of the items. *)
Definition list_total (req : ListProductsReq) (items : list Card) : M Z :=
  if 0 <? PageSize req then
    count <- attempt (query product_count) ;;
    ret (match count with Ok n => n | Err _ => 0 end)
  else ret (Z.of_nat (length items)).

Definition ListProducts (req : ListProductsReq) : M ListProductsResp :=
  snapshots <- attempt (listProductCardSnapshots req) ;;
  match snapshots with
  | Ok (Some resp) => ret resp
  | _ =>
      t <- get_now ;;
      rows <- match ProductIds req with
              | _ :: _ => query (fun d => filter (fun row => row.1.1 ∈ ProductIds req) (product_rows d t))
              | [] => query (fun d => page_of req (product_rows d t))
              end ;;
      if (length rows =? 0)%nat then ret (mkListProductsResp [] 0) else
      let ids := map (fun row => row.1.1) rows in
      stocks <- attempt (query (fun d => map (fun id => (id, available_stock d id)) ids)) ;;
      stockRows <- match stocks with
                   | Ok rows => ret rows
                   | Err _ => query (fun d => omap (fun id => stock ← bucket_sum d id; Some (id, stock)) ids)
                   end ;;
      let stockMap : gmap Z Z := list_to_map stockRows in
      let items := map (fun row => card_of row.1.1 row.1.2 row.2 (default 0 (stockMap !! row.1.1))) rows in
      total <- list_total req items ;;
      ret (mkListProductsResp items total)
  end.
End reading.

(** * Snapshots *)

Section snapshots.
Context {X : Type}.
Abbreviation M := (M PDB X error).

(** [WHERE p.id = ? ORDER BY p.id LIMIT ?]; no product id selects all. *)
Definition selected (productID limit : Z) (d : PDB) : list (Z * ProductRow) :=
  take (Z.to_nat limit) (filter (fun kp => productID <= 0 \/ kp.1 = productID) (ordered (products d))).

(** The statement counts 1 for a row it inserts and 2 for one it updates. *)
Definition upsert_count {R} (m : gmap Z R) (ids : list Z) : Z :=
  sumZ (fun id => match m !! id with Some _ => 2 | None => 1 end) ids.

Definition stock_row (d : PDB) (id : Z) : StockRow :=
  let stock := default 0 (bucket_sum d id) in
  match stock_snapshots d !! id with
  | Some old => mkStockRow stock (sn_reserved old) (stock + sn_reserved old) (sn_version old + 1)
  | None => mkStockRow stock 0 stock 0
  end.

Definition rebuild_stock (productID limit : Z) (d : PDB) : PDB * Z :=
  let ids := map fst (selected productID limit d) in
  (with_stock_snapshots (foldr (fun id m => <[id := stock_row d id]> m) (stock_snapshots d) ids) d,
   upsert_count (stock_snapshots d) ids).

Definition RebuildStock (productID limit : Z) : M Z := sql (rebuild_stock productID limit) DbError.

Definition card_row (d : PDB) (t id : Z) (p : ProductRow) : CardRow :=
  let price := limited (limited_price_fen d t id) in
  mkCard (pd_name p) (pd_origin_price p)
    (match price with Some v => v | None => pd_sale_price p end)
    (match price with Some _ => "LIMITED_PRICE" | None => "" end)
    (match price with Some _ => limited_tag | None => "" end)
    (available_stock d id) (pd_supplier p) (pd_status p)
    (match cards d !! id with Some old => cs_version old + 1 | None => 0 end).

Definition upsert_cards (t productID limit : Z) (d : PDB) : PDB * Z :=
  let rows := selected productID limit d in
  (with_cards (foldr (fun kp m => <[kp.1 := card_row d t kp.1 kp.2]> m) (cards d) rows) d,
   upsert_count (cards d) (map fst rows)).

Definition RebuildCards (productID limit : Z) : M Z :=
  t <- get_now ;; sql (upsert_cards t productID limit) DbError.

(** * The refresh job *)

Definition refreshProductCardSnapshot (productID : Z) : M Z := RebuildCards productID 1.

(** Creating the tables leaves those that exist. *)
Definition ensureProductCardSnapshotTables : M unit :=
  sql (fun d => (d, tt)) DbError ;;; sql (fun d => (d, tt)) DbError.

Definition windowMinutes (configured : Z) : Z := if configured <=? 0 then 120 else configured.
Definition refresh_limit (configured : Z) : Z := if configured <=? 0 then 1000 else configured.

Definition productCardSnapshotPromotionProductIDs (windowMinutes limit : Z) : M (list Z) :=
  t <- get_now ;; WindowAffectedProductIDs_row t windowMinutes limit.

(** One tick; errors end it, except those of a product. *)
Definition refreshOnce (window limit : Z) : M unit :=
  tables <- attempt ensureProductCardSnapshotTables ;;
  match tables with
  | Err _ => ret tt
  | Ok _ =>
      found <- attempt (productCardSnapshotPromotionProductIDs (windowMinutes window) (refresh_limit limit)) ;;
      match found with
      | Err _ => ret tt
      | Ok ids => for_each (fun id => ignore (refreshProductCardSnapshot id)) ids
      end
  end.
End snapshots.
