(* ===== verification/ProductCardRules.v ===== *)
(** Product cards agree: snapshots with the tables they are made from, the listing
    with the single card, and the refresh job keeps snapshots current. *)

From S2P Require Import Prelude Effects Sql ProductStore Promotion ProductCards.

Section calm.
Context {X : Type}.
Implicit Types s : env PDB X.

Lemma query_calm {A} (f : PDB -> A) s : faults s = [] -> query f s = (s, Ok (f (db s))).
Proof. destruct s as [d x t fs]. simpl. by intros ->. Qed.

Lemma sql_calm {A} (op : PDB -> PDB * A) (e : error) s :
  faults s = [] -> sql op e s = (set_db (op (db s)).1 s, Ok (op (db s)).2).
Proof. destruct s as [d x t fs]. simpl. intros ->. unfold sql. simpl. by destruct (op d). Qed.

Lemma attempt_calm {A} (f : PDB -> A) s :
  faults s = [] -> attempt (query f) s = (s, Ok (Ok (f (db s)))).
Proof. intros Hf. unfold attempt. by rewrite query_calm. Qed.
End calm.

(** * Tables in key order *)

Lemma ordered_perm {R} (m : gmap Z R) : ordered m ≡ₚ map_to_list m.
Proof. apply sorting.merge_sort_Permutation. Qed.

Lemma elem_of_ordered {R} (m : gmap Z R) k r : (k, r) ∈ ordered m <-> m !! k = Some r.
Proof. by rewrite ordered_perm, elem_of_map_to_list. Qed.

Lemma NoDup_ordered_keys {R} (m : gmap Z R) : NoDup (map fst (ordered m)).
Proof. rewrite ordered_perm. apply NoDup_fst_map_to_list. Qed.

Lemma selected_one id d :
  0 < id -> selected id 1 d = match products d !! id with Some p => [(id, p)] | None => [] end.
Proof.
  intros Hid. unfold selected. set (l := filter _ _).
  assert (forall kp, kp ∈ l <-> kp.1 = id /\ products d !! id = Some kp.2) as Hl.
  { intros [k p]. unfold l. rewrite list_elem_of_filter, elem_of_ordered. simpl. split; [|naive_solver].
    intros [[?| ->] ?]; [lia|done]. }
  assert (NoDup (map fst l)) as Hnd.
  { eapply sublist_NoDup; [apply (NoDup_ordered_keys (products d))|]. apply fmap_sublist. unfold l.
    clear. induction (ordered (products d)) as [|x l IH]; [constructor|].
    rewrite filter_cons. destruct (decide _); by constructor. }
  destruct (products d !! id) as [p|] eqn:Hp.
  - assert ((id, p) ∈ l) as Hin by (by apply Hl).
    destruct l as [|[k q] l']; [by apply elem_of_nil in Hin|].
    assert (k = id /\ Some p = Some q) as [-> [= <-]] by (by apply (Hl (k, q)); left).
    destruct l' as [|[k' q'] l'']; [done|]. exfalso.
    assert (k' = id) as -> by (apply (Hl (k', q')); right; by left).
    simpl in Hnd. apply NoDup_cons in Hnd as [Hnot _]. apply Hnot. by left.
  - destruct l as [|[k q] l']; [done|]. exfalso.
    assert (k = id /\ None = Some q) as [_ [=]]. apply (Hl (k, q)). by left.
Qed.

(** * Current snapshots *)

Definition unversioned (c : CardRow) : CardRow :=
  mkCard (cs_name c) (cs_origin_price c) (cs_final_price c) (cs_promotion_type c) (cs_promotion_tag c)
    (cs_stock c) (cs_supplier c) (cs_status c) 0.

(** The snapshot of a product is what the tables say at [t], its version aside. *)
Definition card_current (d : PDB) (t id : Z) : Prop :=
  forall c p, cards d !! id = Some c -> products d !! id = Some p -> unversioned c = unversioned (card_row d t id p).

Definition stocks_in_range (d : PDB) : Prop := forall id, in_int64 (sumZ (fun x => x) (bucket_stocks d id)).

(** What the tables alone say about a card. *)
Definition table_card (d : PDB) (t id : Z) : option Card :=
  p ← active_product d id; Some (card_of id p (limited_price_fen d t id) (available_stock d id)).

Lemma current_snapshot_card d t id c :
  card_current d t id -> snapshot_card d id = Some c -> table_card d t id = Some c.
Proof.
  intros Hcur. unfold snapshot_card, table_card, active_product.
  destruct (cards d !! id) as [cr|] eqn:Hc; [|done]. destruct (products d !! id) as [p|] eqn:Hp; [|done].
  specialize (Hcur _ _ Hc Hp). destruct cr. unfold unversioned, card_row in Hcur. simpl in Hcur.
  injection Hcur as -> -> -> -> -> -> -> ->. simpl. destruct (pd_status p =? 1); [|done]. simpl. intros [= <-].
  unfold productCardSnapshotToResp, card_of. done.
Qed.

Section reading.
Context {X : Type}.
Implicit Types s : env PDB X.

(** Without failures [GetProductCard] answers the snapshot, or else what the tables say. *)
Lemma GetProductCard_calm id s :
  faults s = [] -> stocks_in_range (db s) ->
  GetProductCard id s =
    (s, match snapshot_card (db s) id with
        | Some c => Ok c
        | None => match table_card (db s) (now s) id with
                  | Some c => Ok c
                  | None => Err (StatusError NotFound "product card not found")
                  end
        end).
Proof.
  intros Hf Hr. unfold GetProductCard, bind. rewrite attempt_calm by done.
  destruct (snapshot_card (db s) id) as [c|]; [done|]. unfold get_now. rewrite query_calm by done.
  unfold table_card. destruct (active_product (db s) id) as [p|]; simpl; [|done].
  rewrite attempt_calm by done. unfold available_stock.
  destruct (stock_snapshots (db s) !! id) as [sn|]; simpl; [done|]. rewrite query_calm by done. simpl.
  rewrite int64_id by apply Hr. unfold bucket_sum. by destruct (bucket_stocks (db s) id).
Qed.

(** A current snapshot is transparent: the answer is that of the tables. *)
Lemma GetProductCard_current id s :
  faults s = [] -> stocks_in_range (db s) -> card_current (db s) (now s) id ->
  GetProductCard id s =
    (s, match table_card (db s) (now s) id with
        | Some c => Ok c
        | None => Err (StatusError NotFound "product card not found")
        end).
Proof.
  intros Hf Hr Hcur. rewrite GetProductCard_calm by done.
  destruct (snapshot_card (db s) id) as [c|] eqn:Hs; [|done].
  by rewrite (current_snapshot_card _ _ _ _ Hcur Hs).
Qed.
End reading.

(** * Rebuilding *)

(** Tables other than the cards, equal. *)
Definition same_tables (d d' : PDB) : Prop := exists m, d' = with_cards m d.

Lemma unversioned_card_row m d t id p :
  unversioned (card_row (with_cards m d) t id p) = unversioned (card_row d t id p).
Proof. done. Qed.

Section rebuilding.
Context {X : Type}.
Implicit Types s : env PDB X.

Definition refreshed (t id : Z) (d : PDB) : PDB := (upsert_cards t id 1 d).1.

Lemma refreshed_cards t id d : 0 < id -> exists m, refreshed t id d = with_cards m d /\
  card_current (refreshed t id d) t id /\ forall id', id' <> id -> m !! id' = cards d !! id'.
Proof.
  intros Hid. unfold refreshed, upsert_cards. rewrite selected_one by done. simpl.
  destruct (products d !! id) as [p|] eqn:Hp; simpl.
  - eexists. split; [done|]. split; [|intros id' Hne; by rewrite lookup_insert_ne].
    intros c p'. simpl. rewrite lookup_insert_eq, Hp. by intros [= <-] [= <-].
  - eexists. split; [done|]. split; [|done]. intros c p' _. simpl. by rewrite Hp.
Qed.

Lemma refresh_calm id s :
  faults s = [] -> refreshProductCardSnapshot id s =
    (set_db (refreshed (now s) id (db s)) s, Ok (upsert_cards (now s) id 1 (db s)).2).
Proof. intros Hf. unfold refreshProductCardSnapshot, RebuildCards, bind, get_now. by rewrite sql_calm. Qed.

(** The loop over products: those are current afterwards, the others as they were. *)
Lemma refresh_all_calm ids s :
  faults s = [] -> Forall (fun id => 0 < id) ids ->
  exists m, for_each (fun id => ignore (refreshProductCardSnapshot id)) ids s = (set_db (with_cards m (db s)) s, Ok tt) /\
    (forall id, id ∈ ids -> card_current (with_cards m (db s)) (now s) id) /\
    (forall id, id ∉ ids -> m !! id = cards (db s) !! id).
Proof.
  intros Hf Hpos. revert s Hf. induction Hpos as [|id ids Hid _ IH]; intros s Hf; simpl.
  { exists (cards (db s)). split_and!; [by destruct s as [[] ? ? ?]|by intros ? ?%elem_of_nil|done]. }
  unfold bind, ignore at 1. rewrite refresh_calm by done.
  destruct (refreshed_cards (now s) id (db s) Hid) as (m1&He&Hcur&Hsame). rewrite He in *.
  destruct (IH (set_db (with_cards m1 (db s)) s)) as (m&Hrun&Hin&Hout); [done|]. simpl in *.
  exists m. rewrite Hrun. split_and!; [done|..].
  - intros id' Hin'. destruct (decide (id' ∈ ids)) as [Hi|Hi]; [by apply Hin|].
    apply elem_of_cons in Hin' as [->|?]; [|done]. intros c p Hc Hp. simpl in Hc, Hp.
    rewrite Hout in Hc by done. by apply (Hcur c p).
  - intros id' Hn. rewrite not_elem_of_cons in Hn. destruct Hn as [Hne Hn]. rewrite Hout by done. by apply Hsame.
Qed.
End rebuilding.

(** * The refresh job *)

(** The products that the job looks at: those of an active rule that is open, or
    that opens or closes within the window around [t]. *)
Definition affected_rule (t window : Z) (_ : Z) (r : PromotionRow) : bool :=
  (pr_status r =? 1) &&
  (in_window (pr_starts r) (pr_ends r) t || between (t - window) (t + window) (pr_starts r) ||
   between (t - window) (t + window) (pr_ends r)).

Definition affected_products (d : PDB) (t window : Z) : list Z :=
  product_ids (map (fun kr => pr_product kr.2) (select_all (affected_rule t window) (promotions d))).

Lemma elem_of_affected d t window id :
  id ∈ affected_products d t window <->
  exists i r, promotions d !! i = Some r /\ affected_rule t window i r = true /\ pr_product r = id.
Proof.
  unfold affected_products, product_ids. rewrite sorting.merge_sort_Permutation, elem_of_remove_dups, list_elem_of_fmap.
  split.
  - intros ([i r]&->&Hin%elem_of_select_all). simpl. naive_solver.
  - intros (i&r&Hi&Hr&<-). exists (i, r). split; [done|]. by apply elem_of_select_all.
Qed.

(** A rule that lowers a price at one of two times no further apart than the
    window, and not at the other, is among them at the later one. *)
Lemma changed_rule_is_affected t1 t2 window id i r :
  t1 <= t2 <= t1 + window -> lowers t1 id i r <> lowers t2 id i r -> affected_rule t2 window i r = true.
Proof.
  intros Ht. unfold lowers, affected_rule, in_window, not_before, between.
  destruct (pr_product r =? id), (pr_status r =? 1); simpl; try done.
  destruct (str_eqb _ _); rewrite ?andb_false_r, ?andb_true_r; try done.
  destruct (pr_starts r) as [a|], (pr_ends r) as [b|]; simpl;
    repeat match goal with |- context [?x <=? ?y] => destruct (Z.leb_spec x y) end; simpl; try done; lia.
Qed.

Lemma select_all_ext {K R} `{Countable K} (p q : K -> R -> bool) (m : gmap K R) :
  (forall k r, m !! k = Some r -> p k r = q k r) -> select_all p m = select_all q m.
Proof.
  intros Hpq. unfold select_all.
  assert (forall l : list (K * R), (forall kr, kr ∈ l -> p kr.1 kr.2 = q kr.1 kr.2) ->
    filter (fun kr => p kr.1 kr.2 = true) l = filter (fun kr => q kr.1 kr.2 = true) l) as Hl.
  { induction l as [|x l IH]; intros Hall; [done|]. rewrite !filter_cons, IH by (intros; apply Hall; by right).
    rewrite (Hall x) by (by left). done. }
  apply Hl. intros [k r] Hin%elem_of_map_to_list. by apply Hpq.
Qed.

Lemma unaffected_price d t1 t2 window id :
  t1 <= t2 <= t1 + window -> id ∉ affected_products d t2 window ->
  limited_price_fen d t1 id = limited_price_fen d t2 id.
Proof.
  intros Ht Hnot. unfold limited_price_fen. do 2 f_equal. apply select_all_ext. intros i r Hi.
  destruct (Bool.bool_dec (lowers t1 id i r) (lowers t2 id i r)) as [|Hne]; [done|]. exfalso.
  apply Hnot. apply elem_of_affected. exists i, r. split_and!; [done|by eapply changed_rule_is_affected|].
  unfold lowers in Hne. destruct (Z.eqb_spec (pr_product r) id); done.
Qed.

Lemma filter_all {A} (P : A -> Prop) `{forall x, Decision (P x)} (l : list A) : Forall P l -> filter P l = l.
Proof. induction 1 as [|x l Hx _ IH]; [done|]. by rewrite filter_cons_True, IH. Qed.

Definition valid_product_ids (d : PDB) : Prop := forall i r, promotions d !! i = Some r -> 0 < pr_product r.

Lemma job_products_calm {X} window limit (s : env PDB X) :
  faults s = [] -> valid_product_ids (db s) ->
  Z.of_nat (length (affected_products (db s) (now s) (window * 60))) <= limit ->
  productCardSnapshotPromotionProductIDs window limit s =
    (s, Ok (affected_products (db s) (now s) (window * 60))).
Proof.
  intros Hf Hpos Hlim. unfold productCardSnapshotPromotionProductIDs, WindowAffectedProductIDs_row, bind, get_now.
  rewrite query_calm by done. unfold ret. do 2 f_equal.
  fold (affected_rule (now s) (window * 60)). fold (affected_products (db s) (now s) (window * 60)).
  rewrite take_ge by lia. apply filter_all. apply Forall_forall. intros id Hid%elem_of_affected.
  destruct Hid as (i&r&Hi&_&<-). by eapply Hpos.
Qed.


(** * Listings *)

Lemma snapshot_card_id d id c : snapshot_card d id = Some c -> ProductId c = id.
Proof.
  unfold snapshot_card. destruct (cards d !! id), (products d !! id) as [p|]; try done.
  destruct (_ =? 1); [|done]. by intros [= <-].
Qed.

Lemma table_card_id d t id c : table_card d t id = Some c -> ProductId c = id.
Proof. unfold table_card. destruct (active_product d id); simpl; [|done]. by intros [= <-]. Qed.

Lemma elem_of_snapshot_rows d c : c ∈ snapshot_rows d <-> snapshot_card d (ProductId c) = Some c.
Proof.
  unfold snapshot_rows. rewrite list_elem_of_omap. split.
  - intros ([id cr]&_&Hc). simpl in Hc. by rewrite (snapshot_card_id d id c Hc).
  - intros Hc. pose proof Hc as Hc'. unfold snapshot_card in Hc'.
    destruct (cards d !! ProductId c) as [cr|] eqn:Hcr; [|done].
    exists (ProductId c, cr). split; [by apply elem_of_ordered|done].
Qed.

(** Filtering and partial mapping keep keys distinct. *)
Lemma NoDup_omap_keys {A B} (f : A -> option B) (key : A -> Z) (key' : B -> Z) l :
  (forall a b, f a = Some b -> key' b = key a) -> NoDup (map key l) -> NoDup (map key' (omap f l)).
Proof.
  intros Hk. induction l as [|a l IH]; simpl; intros Hnd; [constructor|].
  apply NoDup_cons in Hnd as [Hnot Hnd]. destruct (f a) as [b|] eqn:Hf; [|by apply IH].
  simpl. apply NoDup_cons. split; [|by apply IH]. rewrite (Hk _ _ Hf). intros Hin. apply Hnot.
  apply list_elem_of_fmap in Hin as (b'&He&(a'&Ha'&Hf')%list_elem_of_omap). rewrite He, (Hk _ _ Hf').
  apply list_elem_of_fmap. eauto.
Qed.

Lemma NoDup_filter_keys {B} (P : B -> Prop) `{forall x, Decision (P x)} (key : B -> Z) l :
  NoDup (map key l) -> NoDup (map key (filter P l)).
Proof.
  intros Hnd. eapply sublist_NoDup; [exact Hnd|]. apply fmap_sublist. clear.
  induction l as [|x l IH]; [constructor|]. rewrite filter_cons. destruct (decide _); by constructor.
Qed.

(** A list of distinct keys among [ids], as long as the set of [ids], has them all. *)
Lemma counted_all (keys ids : list Z) :
  NoDup keys -> (forall k, k ∈ keys -> k ∈ ids) -> length keys = length (remove_dups ids) -> forall id, id ∈ ids -> id ∈ keys.
Proof.
  intros Hnd Hsub Hlen id Hid.
  assert (keys ⊆+ remove_dups ids) as Hle.
  { apply NoDup_submseteq; [done|]. intros k Hk. by apply elem_of_remove_dups, Hsub. }
  rewrite (submseteq_length_Permutation _ _ Hle) by lia. by apply elem_of_remove_dups.
Qed.

Definition requested (req : ListProductsReq) (d : PDB) : list Card :=
  filter (fun card => ProductId card ∈ ProductIds req) (snapshot_rows d).

Lemma requested_complete req d :
  length (requested req d) = length (remove_dups (ProductIds req)) ->
  forall id, id ∈ ProductIds req -> is_Some (snapshot_card d id).
Proof.
  intros Hlen id Hid.
  assert (id ∈ map ProductId (requested req d)) as Hin.
  { revert id Hid. apply counted_all; [|intros k (c&->&Hc)%list_elem_of_fmap|by rewrite length_map].
    - apply NoDup_filter_keys. unfold snapshot_rows.
      apply (NoDup_omap_keys _ fst); [intros [k c] b; apply snapshot_card_id|apply NoDup_ordered_keys].
    - by apply list_elem_of_filter in Hc as [? _]. }
  apply list_elem_of_fmap in Hin as (c&->&Hc). apply list_elem_of_filter in Hc as [_ Hc].
  apply elem_of_snapshot_rows in Hc. eauto.
Qed.

Lemma elem_of_product_rows d t row :
  row ∈ product_rows d t <-> active_product d row.1.1 = Some row.1.2 /\ row.2 = limited_price_fen d t row.1.1.
Proof.
  unfold product_rows. rewrite list_elem_of_omap. split.
  - intros ([id p]&_&Hr). simpl in Hr. destruct (active_product d id) as [q|] eqn:Hq; simpl in Hr; [|done].
    injection Hr as <-. done.
  - destruct row as [[id p] price]. simpl. intros [Hp ->]. pose proof Hp as Hp'. unfold active_product in Hp'.
    destruct (products d !! id) as [q|] eqn:Hq; [|done]. destruct (pd_status q =? 1); [|done]. injection Hp' as ->.
    exists (id, p). split; [by apply elem_of_ordered|]. simpl. by rewrite Hp.
Qed.

Lemma lookup_list_to_map_keys (f : Z -> Z) (ids : list Z) id :
  id ∈ ids -> (list_to_map (map (fun i => (i, f i)) ids) : gmap Z Z) !! id = Some (f id).
Proof.
  induction ids as [|i ids IH]; intros Hin; [by apply elem_of_nil in Hin|]. simpl.
  destruct (decide (i = id)) as [->|Hne]; [by rewrite lookup_insert_eq|]. rewrite lookup_insert_ne by done.
  apply IH. apply elem_of_cons in Hin as [->|?]; done.
Qed.

Section listing.
Context {X : Type}.
Implicit Types s : env PDB X.

Lemma snapshots_calm req s :
  faults s = [] -> ProductIds req <> [] ->
  attempt (listProductCardSnapshots req) s =
    (s, Ok (Ok (if (length (requested req (db s)) =? length (remove_dups (ProductIds req)))%nat
                then Some (mkListProductsResp (requested req (db s)) (Z.of_nat (length (requested req (db s)))))
                else None))).
Proof.
  intros Hf Hne. unfold listProductCardSnapshots, attempt. destruct (ProductIds req) as [|i l] eqn:Hids; [done|].
  unfold bind. rewrite query_calm by done. unfold requested. rewrite Hids. by destruct (_ =? _)%nat.
Qed.

Definition listed_rows (req : ListProductsReq) (d : PDB) (t : Z) : list (Z * ProductRow * option Z) :=
  filter (fun row => row.1.1 ∈ ProductIds req) (product_rows d t).

(** The listing from the tables has the card of each requested active product. *)
Lemma listed_cards req d t c :
  let ids := map (fun row => row.1.1) (listed_rows req d t) in
  let stockMap : gmap Z Z := list_to_map (map (fun id => (id, available_stock d id)) ids) in
  c ∈ map (fun row => card_of row.1.1 row.1.2 row.2 (default 0 (stockMap !! row.1.1))) (listed_rows req d t) <->
  ProductId c ∈ ProductIds req /\ table_card d t (ProductId c) = Some c.
Proof.
  intros ids stockMap.
  assert (forall row, row ∈ listed_rows req d t -> stockMap !! row.1.1 = Some (available_stock d row.1.1)) as Hstock.
  { intros row Hrow. apply (lookup_list_to_map_keys (available_stock d)). apply list_elem_of_fmap. eauto. }
  rewrite list_elem_of_fmap. split.
  - intros (row&->&Hrow). rewrite (Hstock _ Hrow). apply list_elem_of_filter in Hrow as [Hin [Hp Hpr]%elem_of_product_rows].
    simpl. split; [done|]. unfold table_card. rewrite Hp, Hpr. done.
  - intros [Hin Hc]. unfold table_card in Hc. destruct (active_product d (ProductId c)) as [p|] eqn:Hp; simpl in Hc; [|done].
    assert ((ProductId c, p, limited_price_fen d t (ProductId c)) ∈ listed_rows req d t) as Hrow.
    { apply list_elem_of_filter. split; [done|]. by apply elem_of_product_rows. }
    eexists. split; [|exact Hrow]. rewrite (Hstock _ Hrow). simpl in *. by injection Hc.
Qed.

Lemma list_total_calm req items s : faults s = [] -> exists n, list_total req items s = (s, Ok n).
Proof.
  intros Hf. unfold list_total, bind. destruct (0 <? PageSize req); [rewrite attempt_calm by done|]; eexists; reflexivity.
Qed.

Lemma ListProducts_tables req s :
  faults s = [] -> ProductIds req <> [] ->
  (length (requested req (db s)) =? length (remove_dups (ProductIds req)))%nat = false ->
  exists resp, ListProducts req s = (s, Ok resp) /\
    forall c, c ∈ Items resp <-> ProductId c ∈ ProductIds req /\ table_card (db s) (now s) (ProductId c) = Some c.
Proof.
  intros Hf Hne Hlen. unfold ListProducts, bind. rewrite snapshots_calm, Hlen by done.
  unfold get_now. destruct (ProductIds req) as [|i l] eqn:Hids; [done|]. rewrite query_calm by done.
  rewrite <- Hids. fold (listed_rows req (db s) (now s)).
  destruct (length (listed_rows req (db s) (now s)) =? 0)%nat eqn:Hzero.
  - eexists. split; [done|]. intros c. rewrite <- listed_cards.
    apply Nat.eqb_eq, nil_length_inv in Hzero. by rewrite Hzero.
  - rewrite attempt_calm by done. unfold ret at 1.
    match goal with |- context [list_total req ?items s] =>
      destruct (list_total_calm req items s Hf) as [n Hn] end.
    rewrite Hn. eexists. split; [reflexivity|]. intros c. apply listed_cards.
Qed.
End listing.

(** C35 When no call fails and the snapshots are current, the listing of some products
    holds exactly the cards that are answered for each of them alone. *)
Theorem ListProducts_agrees_with_GetProductCard {X} req (s : env PDB X) :
  faults s = [] -> ProductIds req <> [] -> stocks_in_range (db s) -> (forall id, card_current (db s) (now s) id) ->
  exists resp, ListProducts req s = (s, Ok resp) /\
    forall id c, (c ∈ Items resp /\ ProductId c = id) <->
                 (id ∈ ProductIds req /\ GetProductCard id s = (s, Ok c)).
Proof.
  intros Hf Hne Hr Hcur.
  assert (exists resp, ListProducts req s = (s, Ok resp) /\
    forall c, c ∈ Items resp <-> ProductId c ∈ ProductIds req /\ table_card (db s) (now s) (ProductId c) = Some c) as (resp&Hrun&Hitems).
  { destruct (length (requested req (db s)) =? length (remove_dups (ProductIds req)))%nat eqn:Hlen;
      [|by apply ListProducts_tables].
    eexists. split; [unfold ListProducts, bind; rewrite snapshots_calm, Hlen by done; reflexivity|].
    intros c. simpl. unfold requested. rewrite list_elem_of_filter, elem_of_snapshot_rows.
    split; intros [Hin Hc]; split; try done; [by apply current_snapshot_card|].
    apply Nat.eqb_eq in Hlen. destruct (requested_complete _ _ Hlen _ Hin) as [c' Hc'].
    pose proof (current_snapshot_card _ _ _ _ (Hcur _) Hc') as Ht. congruence. }
  exists resp. split; [done|]. intros id c. rewrite Hitems, GetProductCard_current by done.
  destruct (table_card (db s) (now s) id) as [c'|] eqn:Hc'.
  - split; [intros [[Hin Hc] <-]; split; [done|congruence]|]. intros [Hin [= ->]].
    pose proof (table_card_id _ _ _ _ Hc') as Hid. subst id. done.
  - split; [|by intros [_ [=]]]. intros [[Hin Hc] <-]. congruence.
Qed.
