(* ===== verification/ProductCommand.v ===== *)
(** Products and suppliers of the Hertz gateway: the services
    (application/productcommand, application/supplier) over their MySQL
    repositories (adapters/productmysql: product_command_create.go,
    product_command_update.go, supplier_mutation.go, supplier_query.go), and the
    initialization of a product's inventory (inventory_seed.go). *)

From S2P Require Import Prelude Effects Sql Common GoText AuthSQL ProductStore ProductCards.

(** [*Fault] with its reason, or an error of the repository. *)
Inductive outcome (R : Type) := Fault (r : R) (message : string) | RepositoryError (e : error).
Arguments Fault {R} r message.
Arguments RepositoryError {R} e.

Definition from_repository {X A R} (m : M PDB X error A) : M PDB X (outcome R) A := fun s =>
  let '(s', r) := m s in
  (s', match r with Ok a => Ok a | Err e => Err (RepositoryError e) end).

Definition StatusActive : Z := 1.
Definition StatusInactive : Z := 2.
Definition validStatus (status : Z) : bool := (status =? StatusActive) || (status =? StatusInactive).

(** * Products *)
Module productcommand.

Inductive reason :=
| ReasonInvalidArgument | ReasonInvalidPrice | ReasonProductNotFound
| ReasonSupplierNotFound | ReasonMerchantNotFound.

Inductive rejection := RejectInvalidPrice | RejectSupplierNotFound | RejectMerchantNotFound.

Record CreateInput := mkCreateInput {
  ci_Name : string; ci_ImageURL : string; ci_MerchantID : Z; ci_OriginPriceFen : Z; ci_SalePriceFen : Z;
  ci_StockAvailable : Z; ci_SupplierID : Z; ci_Status : Z
}.

Record UpdateInput := mkUpdateInput {
  ui_ProductID : Z; ui_MerchantID : Z; ui_Name : string; ui_ImageURL : string; ui_SalePriceFen : option Z;
  ui_OriginPriceFen : option Z; ui_SupplierID : option Z; ui_Status : option Z
}.

Inductive CreateResult := Created (productID : Z) | CreateRejected (r : rejection).

Record UpdateResult := mkUpdateResult { Found : bool; Rejection : option rejection }.

Section repository.
Context {X : Type}.
Abbreviation M := (M PDB X error).

(** [SELECT id ... WHERE id = ? AND status = 1 FOR UPDATE]. *)
Definition active_supplier (id : Z) (d : PDB) : bool :=
  match suppliers d !! id with Some s => su_status s =? 1 | None => false end.
Definition active_merchant (id : Z) (d : PDB) : bool :=
  match merchants d !! id with Some m => me_status m =? 1 | None => false end.

(** [ORDER BY id DESC LIMIT 1]. *)
Definition last_product (d : PDB) : option Z := fst <$> last (ordered (products d)).

Definition insert_product (id : Z) (p : ProductRow) (d : PDB) : PDB * bool :=
  match products d !! id with
  | Some _ => (d, false)
  | None => (with_products (<[id := p]> (products d)) d, true)
  end.

Definition insert_seed (id : Z) (s : SeedRow) (d : PDB) : PDB * bool :=
  match seeds d !! id with
  | Some _ => (d, false)
  | None => (with_seeds (<[id := s]> (seeds d)) d, true)
  end.

Definition create_body (record : CreateInput) : M (txend error CreateResult) :=
  supplier <- query (active_supplier (ci_SupplierID record)) ;;
  if negb supplier then ret (Rollback (CreateRejected RejectSupplierNotFound)) else
  merchant <- query (active_merchant (ci_MerchantID record)) ;;
  if negb merchant then ret (Rollback (CreateRejected RejectMerchantNotFound)) else
  last <- query last_product ;;
  let productID := match last with Some id => int64 (id + 1) | None => 100 end in
  t <- get_now ;;
  inserted <- sql (insert_product productID
    (mkProduct (ci_MerchantID record) (ci_Name record) (ci_ImageURL record) (ci_StockAvailable record) 0
       (ci_OriginPriceFen record) (ci_SalePriceFen record) 2 (ci_SupplierID record) t)) DbError ;;
  require inserted DbError ;;;
  inserted <- sql (insert_seed productID
    (mkSeed (ci_StockAvailable record) 4 (ci_Status record) 0 0 "")) DbError ;;
  require inserted DbError ;;;
  ret (Commit DbError (Created productID)).

Definition Create_row (record : CreateInput) : M CreateResult := run_tx DbError (create_body record).

(** [WHERE id = ? AND merchant_id = ?], the second when a merchant is given. *)
Definition owned (merchantID : Z) (p : ProductRow) : bool := (merchantID <=? 0) || (pd_merchant p =? merchantID).

(** The SET clauses. *)
Definition productUpdateClauses (command : UpdateInput) (p : ProductRow) : ProductRow :=
  mkProduct (pd_merchant p)
    (if is_empty (ui_Name command) then pd_name p else ui_Name command)
    (if is_empty (ui_ImageURL command) then pd_image p else ui_ImageURL command)
    (pd_stock p) (pd_version p)
    (default (pd_origin_price p) (ui_OriginPriceFen command))
    (default (pd_sale_price p) (ui_SalePriceFen command))
    (default (pd_status p) (ui_Status command))
    (default (pd_supplier p) (ui_SupplierID command))
    (pd_created p).

Definition no_clauses (command : UpdateInput) : bool :=
  is_empty (ui_Name command) && is_empty (ui_ImageURL command) &&
  bool_decide (ui_SalePriceFen command = None) && bool_decide (ui_OriginPriceFen command = None) &&
  bool_decide (ui_SupplierID command = None) && bool_decide (ui_Status command = None).

Definition update_product (command : UpdateInput) (d : PDB) : PDB * unit :=
  (with_products (upd (at_key (ui_ProductID command) (owned (ui_MerchantID command)))
     (productUpdateClauses command) (products d)) d, tt).

Definition update_body (command : UpdateInput) : M (txend error UpdateResult) :=
  found <- query (fun d => p ← products d !! ui_ProductID command;
                           if owned (ui_MerchantID command) p then Some p else None) ;;
  match found with
  | None => ret (Rollback (mkUpdateResult false None))
  | Some p =>
      supplier <- match ui_SupplierID command with
                  | Some id => query (active_supplier id)
                  | None => ret true
                  end ;;
      if negb supplier then ret (Rollback (mkUpdateResult true (Some RejectSupplierNotFound))) else
      let originPrice := default (pd_origin_price p) (ui_OriginPriceFen command) in
      let salePrice := default (pd_sale_price p) (ui_SalePriceFen command) in
      if originPrice <? salePrice then ret (Rollback (mkUpdateResult true (Some RejectInvalidPrice))) else
      require (negb (no_clauses command)) DbError ;;;
      sql (update_product command) DbError ;;;
      ret (Commit DbError (mkUpdateResult true None))
  end.

Definition Update_row (command : UpdateInput) : M UpdateResult := run_tx DbError (update_body command).
End repository.

Section service.
Context {X : Type}.
Abbreviation M := (M PDB X (outcome reason)).

Definition rejectionFault (r : rejection) : outcome reason :=
  match r with
  | RejectInvalidPrice => Fault ReasonInvalidPrice "sale_price_fen must be <= origin_price_fen"
  | RejectSupplierNotFound => Fault ReasonSupplierNotFound "active supplier not found"
  | RejectMerchantNotFound => Fault ReasonMerchantNotFound "active merchant not found"
  end.

Definition Create (input : CreateInput) : M Z :=
  let name := trim_space (ci_Name input) in
  let image := trim_space (ci_ImageURL input) in
  require (negb (is_empty name || (ci_MerchantID input <=? 0) || (ci_SupplierID input <=? 0) ||
                 (ci_OriginPriceFen input <? 0) || (ci_SalePriceFen input <? 0) || (ci_StockAvailable input <? 0)))
    (Fault ReasonInvalidArgument "name, merchant_id, non-negative prices, stock and supplier_id are required") ;;;
  require (ci_SalePriceFen input <=? ci_OriginPriceFen input)
    (Fault ReasonInvalidPrice "sale_price_fen must be <= origin_price_fen") ;;;
  let status := if ci_Status input =? 0 then StatusActive else ci_Status input in
  require (validStatus status) (Fault ReasonInvalidArgument "status must be 1 or 2") ;;;
  result <- from_repository (Create_row (mkCreateInput name image (ci_MerchantID input) (ci_OriginPriceFen input)
              (ci_SalePriceFen input) (ci_StockAvailable input) (ci_SupplierID input) status)) ;;
  match result with
  | CreateRejected r => throw (rejectionFault r)
  | Created productID => ret productID
  end.

Definition check_optional (ok : Z -> bool) (v : option Z) : bool := match v with Some v => ok v | None => true end.

Definition Update (input : UpdateInput) : M unit :=
  let name := trim_space (ui_Name input) in
  let image := trim_space (ui_ImageURL input) in
  require (negb ((ui_ProductID input <=? 0) || (ui_MerchantID input <? 0)))
    (Fault ReasonInvalidArgument "product_id required") ;;;
  require (check_optional (Z.leb 0) (ui_SalePriceFen input) && check_optional (Z.leb 0) (ui_OriginPriceFen input))
    (Fault ReasonInvalidArgument "prices must be non-negative") ;;;
  require (check_optional (Z.ltb 0) (ui_SupplierID input)) (Fault ReasonInvalidArgument "supplier_id required") ;;;
  require (check_optional validStatus (ui_Status input)) (Fault ReasonInvalidArgument "status must be 1 or 2") ;;;
  let command := mkUpdateInput (ui_ProductID input) (ui_MerchantID input) name image (ui_SalePriceFen input)
                   (ui_OriginPriceFen input) (ui_SupplierID input) (ui_Status input) in
  require (negb (no_clauses command)) (Fault ReasonInvalidArgument "no fields to update") ;;;
  result <- from_repository (Update_row command) ;;
  if negb (Found result) then throw (Fault ReasonProductNotFound "product not found") else
  match Rejection result with
  | Some r => throw (rejectionFault r)
  | None => ret tt
  end.
End service.
End productcommand.

(** * Suppliers *)
Module supplier.

Inductive reason := ReasonInvalidArgument | ReasonSupplierNotFound | ReasonHasActiveProducts.

Record ListQuery := mkListQuery { lq_Page : Z; lq_PageSize : Z; lq_Status : Z; lq_Keyword : string }.

Record Supplier := mkRecord {
  SupplierID : Z; sp_Name : string; sp_Status : Z; StatusText : string; ProductCount : Z; ActiveProducts : Z
}.

Record CreateInput := mkCreateInput { ci_Name : string; ci_Status : Z }.
Record UpdateInput := mkUpdateInput { ui_SupplierID : Z; ui_Name : string; ui_Status : option Z }.
Record Changes := mkChanges { ch_Name : option string; ch_Status : option Z }.
Record UpdateResult := mkUpdateResult { Found : bool; HasActiveProducts : bool }.

Definition statusText (status : Z) : string :=
  if status =? StatusActive then "active" else if status =? StatusInactive then "inactive" else "unknown".

Section repository.
Context {X : Type}.
Abbreviation M := (M PDB X error).

Definition supplier_products (id : Z) (_ : Z) (p : ProductRow) : bool := pd_supplier p =? id.
Definition active_supplier_products (id : Z) (_ : Z) (p : ProductRow) : bool :=
  (pd_supplier p =? id) && (pd_status p =? 1).

(** A supplier joined with its product counts; the service adds the text. *)
Definition scanSupplier (d : PDB) (id : Z) (s : SupplierRow) : Supplier :=
  mkRecord id (su_name s) (su_status s) ""
    (Z.of_nat (length (select_all (supplier_products id) (products d))))
    (Z.of_nat (length (select_all (active_supplier_products id) (products d)))).

Definition supplierWhereClause (q : ListQuery) (s : SupplierRow) : bool :=
  ((lq_Status q <? 0) || (su_status s =? lq_Status q)) &&
  (let keyword := trim_space (lq_Keyword q) in
   is_empty keyword || SQLStore.LIKE (su_name s) ("%" +:+ keyword +:+ "%")).

Definition matching_suppliers (q : ListQuery) (d : PDB) : list (Z * SupplierRow) :=
  reverse (filter (fun ks => supplierWhereClause q ks.2 = true) (ordered (suppliers d))).

Definition List_rows (q : ListQuery) : M (list Supplier * Z) :=
  total <- query (fun d => Z.of_nat (length (matching_suppliers q d))) ;;
  if total =? 0 then ret ([], 0) else
  let offset := int64 ((lq_Page q - 1) * lq_PageSize q) in
  require ((0 <=? offset) && (0 <=? lq_PageSize q)) DbError ;;;
  items <- query (fun d => map (fun ks => scanSupplier d ks.1 ks.2)
             (take (Z.to_nat (lq_PageSize q)) (drop (Z.to_nat offset) (matching_suppliers q d)))) ;;
  ret (items, total).

Definition Find (id : Z) : M (option Supplier) := query (fun d => scanSupplier d id <$> suppliers d !! id).

Definition insert_supplier (s : SupplierRow) (d : PDB) : PDB * Z :=
  (with_suppliers (<[next_supplier d := s]> (suppliers d)) (next_supplier d + 1) d, next_supplier d).

Definition Insert (name : string) (status : Z) : M Z := sql (insert_supplier (mkSupplier name status)) DbError.

Definition apply_changes (c : Changes) (s : SupplierRow) : SupplierRow :=
  mkSupplier (default (su_name s) (ch_Name c)) (default (su_status s) (ch_Status c)).

Definition update_supplier (id : Z) (c : Changes) (d : PDB) : PDB * unit :=
  (with_suppliers (upd (at_key id (fun _ => true)) (apply_changes c) (suppliers d)) (next_supplier d) d, tt).

Definition update_body (id : Z) (c : Changes) : M (txend error UpdateResult) :=
  found <- query (fun d => bool_decide (is_Some (suppliers d !! id))) ;;
  if negb found then ret (Rollback (mkUpdateResult false false)) else
  busy <- (if bool_decide (ch_Status c = Some StatusInactive)
           then query (fun d => negb (bool_decide (select_all (active_supplier_products id) (products d) = [])))
           else ret false) ;;
  if (busy : bool) then ret (Rollback (mkUpdateResult true true)) else
  require (negb (bool_decide (ch_Name c = None) && bool_decide (ch_Status c = None)))
    (OtherError "supplier update has no changes") ;;;
  sql (update_supplier id c) DbError ;;;
  ret (Commit DbError (mkUpdateResult true false)).

Definition Update_row (id : Z) (c : Changes) : M UpdateResult := run_tx DbError (update_body id c).
End repository.

Section service.
Context {X : Type}.
Abbreviation M := (M PDB X (outcome reason)).

Definition with_status_text (r : Supplier) : Supplier :=
  mkRecord (SupplierID r) (sp_Name r) (sp_Status r) (statusText (sp_Status r)) (ProductCount r) (ActiveProducts r).

Definition List (q : ListQuery) : M (list Supplier * Z) :=
  result <- from_repository (List_rows q) ;;
  ret (map with_status_text result.1, result.2).

Definition Detail (id : Z) : M Supplier :=
  record <- from_repository (Find id) ;;
  match record with
  | None => throw (Fault ReasonSupplierNotFound "supplier not found")
  | Some record => ret (with_status_text record)
  end.

Definition Create (input : CreateInput) : M Z :=
  let name := trim_space (ci_Name input) in
  require (negb (is_empty name)) (Fault ReasonInvalidArgument "name required") ;;;
  let status := if ci_Status input =? 0 then StatusActive else ci_Status input in
  require (validStatus status) (Fault ReasonInvalidArgument "status must be 1 or 2") ;;;
  from_repository (Insert name status).

Definition Update (input : UpdateInput) : M unit :=
  require (0 <? ui_SupplierID input) (Fault ReasonInvalidArgument "supplier_id required") ;;;
  let name := trim_space (ui_Name input) in
  let changes := mkChanges (if is_empty name then None else Some name) (ui_Status input) in
  require (negb (bool_decide (ch_Name changes = None) && bool_decide (ch_Status changes = None)))
    (Fault ReasonInvalidArgument "no fields to update") ;;;
  require (match ch_Status changes with Some v => validStatus v | None => true end)
    (Fault ReasonInvalidArgument "status must be 1 or 2") ;;;
  result <- from_repository (Update_row (ui_SupplierID input) changes) ;;
  if negb (Found result) then throw (Fault ReasonSupplierNotFound "supplier not found") else
  if HasActiveProducts result then throw (Fault ReasonHasActiveProducts "supplier has active products")
  else ret tt.
End service.
End supplier.

(** * Inventory of a new product *)
Module seed.
Import apperror.

(** An error with a code, or one of the database. *)
Inductive failure := AppError (e : Error) | PlainError (e : error).

Inductive InventorySeedStatus := InventorySeedPending | InventorySeedSucceeded | InventorySeedFailed.

Record InventorySeedState := mkState { Status : InventorySeedStatus; Attempts : Z }.

Section initialize.
Context {X : Type}.
(** The inventory service: product, total and shard count. *)
Variable SeedStock : Z -> Z -> Z -> X -> X * res error unit.
Abbreviation M := (M PDB X failure).

Definition plain {A} (m : Effects.M PDB X error A) : M A := fun s =>
  let '(s', r) := m s in (s', match r with Ok a => Ok a | Err e => Err (PlainError e) end).

Definition seed_failed (message : string) (s : SeedRow) : SeedRow :=
  mkSeed (se_total s) (se_shards s) (se_product_status s) 2 (se_attempts s + 1) message.
Definition seed_succeeded (s : SeedRow) : SeedRow :=
  mkSeed (se_total s) (se_shards s) (se_product_status s) 1 (se_attempts s + 1) "".

Definition update_seed (f : SeedRow -> SeedRow) (id : Z) (d : PDB) : PDB * unit :=
  (with_seeds (upd (at_key id (fun _ => true)) f (seeds d)) d, tt).

Definition set_product_status (status : Z) (p : ProductRow) : ProductRow :=
  mkProduct (pd_merchant p) (pd_name p) (pd_image p) (pd_stock p) (pd_version p) (pd_origin_price p)
    (pd_sale_price p) status (pd_supplier p) (pd_created p).

Definition publish_product (status id : Z) (d : PDB) : PDB * unit :=
  (with_products (upd (at_key id (fun _ => true)) (set_product_status status) (products d)) d, tt).

Definition success_body (id status : Z) : Effects.M PDB X error (txend error unit) :=
  sql (update_seed seed_succeeded id) DbError ;;;
  sql (publish_product status id) DbError ;;;
  ret (Commit DbError tt).

Definition Initialize (productID : Z) : M InventorySeedState :=
  row <- plain (query (fun d => seeds d !! productID)) ;;
  match row with
  | None => throw (AppError (New CodeProductNotFound "product inventory seed task not found"))
  | Some task =>
      if se_status task =? 1 then ret (mkState InventorySeedSucceeded (se_attempts task)) else
      seeded <- attempt (plain (call (SeedStock productID (se_total task) (se_shards task))
                                  (StatusError Unavailable "inventory unavailable"))) ;;
      match seeded with
      | Err e =>
          let message := match e with PlainError e => error_text e | AppError e => err_message e end in
          recorded <- attempt (plain (sql (update_seed (seed_failed message) productID) DbError)) ;;
          match recorded with
          | Err _ => throw (AppError (Wrap CodeInternal "record inventory seed failure" "database error"))
          | Ok _ => throw (AppError (Wrap CodeStockReconcileFailed "initialize product inventory" message))
          end
      | Ok _ =>
          plain (run_tx DbError (success_body productID (se_product_status task))) ;;;
          ret (mkState InventorySeedSucceeded (se_attempts task + 1))
      end
  end.
End initialize.
End seed.
