(* ===== verification/Showcase.v ===== *)
(** The homepage showcase of the Hertz gateway: the service
    (application/showcase/service.go, candidate.go) over its MySQL repository
    (adapters/productmysql/showcase.go, showcase_candidate.go), and the ranking of
    candidates (handler/showcase_recommendation.go). *)

From S2P Require Import Prelude Effects Sql AuthSQL ProductStore ProductCards.

(** * Data *)

Record PublishItem := mkItem { SlotNo : Z; ProductID : Z }.
#[export] Instance PublishItem_eq_dec : EqDecision PublishItem.
Proof. solve_decision. Defined.

Record PublishInput := mkInput { ExpectedVersion : Z; Items : list PublishItem }.

(** A product that exists, with its merchant. *)
Record ProductState := mkProductState {
  ps_Exists : bool; ps_Status : Z; ps_MerchantID : Z; ps_MerchantExists : bool; ps_MerchantStatus : Z; ps_Stock : Z
}.

Record Slot := mkSlot { sl_SlotNo : Z; sl_ProductID : Z; sl_Empty : bool; sl_Valid : bool; sl_InvalidReason : string }.

Record Layout := mkLayout { ly_Version : Z; ly_OperatorID : Z; ly_PublishTime : option Z; ly_Items : list Slot }.

Inductive failure :=
| ErrInvalidDraft (message : string) | ErrStateConflict (message : string) | ErrVersionConflict (current : Z)
| RepositoryError (e : error).

(** * Validation *)

Definition InvalidReason (state : ProductState) : string :=
  if negb (ps_Exists state) then "product_not_found"
  else if negb (ps_Status state =? 1) then "product_inactive"
  else if negb (ps_MerchantExists state) then "merchant_not_found"
  else if negb (ps_MerchantStatus state =? 1) then "merchant_inactive"
  else if ps_Stock state <=? 0 then "out_of_stock"
  else "".

Fixpoint shape_loop (slots products : gset Z) (items : list PublishItem) : res failure unit :=
  match items with
  | [] => Ok tt
  | item :: items =>
      if (SlotNo item <? 1) || (12 <? SlotNo item) || (ProductID item <=? 0) then
        Err (ErrInvalidDraft "slot and product must be positive and in range")
      else if bool_decide (SlotNo item ∈ slots) then
        Err (ErrInvalidDraft ("duplicate slot " +:+ itoa (SlotNo item)))
      else if bool_decide (ProductID item ∈ products) then
        Err (ErrInvalidDraft ("duplicate product " +:+ itoa (ProductID item)))
      else shape_loop ({[ SlotNo item ]} ∪ slots) ({[ ProductID item ]} ∪ products) items
  end.

Definition ValidateDraftShape (items : list PublishItem) : res failure unit :=
  if (12 <? length items)%nat then Err (ErrInvalidDraft "at most 12 items are allowed")
  else shape_loop ∅ ∅ items.

Definition no_state : ProductState := mkProductState false 0 0 false 0 0.

Fixpoint draft_loop (states : gmap Z ProductState) (merchantCounts : gmap Z Z) (items : list PublishItem) : res failure unit :=
  match items with
  | [] => Ok tt
  | item :: items =>
      let state := default no_state (states !! ProductID item) in
      let reason := InvalidReason state in
      if negb (is_empty reason) then
        Err (ErrStateConflict ("slot=" +:+ itoa (SlotNo item) +:+ " product=" +:+ itoa (ProductID item) +:+
                               " reason=" +:+ reason))
      else
        let count := default 0 (merchantCounts !! ps_MerchantID state) + 1 in
        if 2 <? count then Err (ErrInvalidDraft ("merchant " +:+ itoa (ps_MerchantID state) +:+ " exceeds two slots"))
        else draft_loop states (<[ps_MerchantID state := count]> merchantCounts) items
  end.

Definition ValidateDraft (items : list PublishItem) (states : gmap Z ProductState) : res failure unit :=
  let? _ := ValidateDraftShape items in draft_loop states ∅ items.

(** * Repository *)

Section repository.
Context {X : Type}.
Abbreviation M := (M PDB X error).

(** A product joined with its merchant and stock; [COALESCE(stock.available, product.stock, 0)]. *)
Definition product_state (d : PDB) (p : ProductRow) (id : Z) : ProductState :=
  let merchant := merchants d !! pd_merchant p in
  mkProductState true (pd_status p) (pd_merchant p) (bool_decide (is_Some merchant))
    (match merchant with Some m => me_status m | None => 0 end)
    (match stock_snapshots d !! id with Some s => sn_available s | None => pd_stock p end).

Definition state_of (d : PDB) (id : Z) : ProductState :=
  match products d !! id with Some p => product_state d p id | None => no_state end.

Definition CurrentVersion : M Z :=
  row <- query showcase_row ;;
  match row with Some r => ret (sh_version r) | None => throw DbError end.

Definition ProductStates (productIDs : list Z) : M (gmap Z ProductState) :=
  match productIDs with
  | [] => ret ∅
  | _ => query (fun d => map_imap (fun id p => if bool_decide (id ∈ productIDs) then Some (product_state d p id) else None)
                           (products d))
  end.

(** The INSERT fails on a duplicate slot or product. *)
Definition insert_items (items : list PublishItem) (d : PDB) : PDB * bool :=
  if bool_decide (NoDup (map SlotNo items)) && bool_decide (NoDup (map ProductID items)) &&
     bool_decide (Forall (fun i => showcase_items d !! SlotNo i = None) items)
  then (with_showcase (showcase_row d)
          (foldr (fun i m => <[SlotNo i := ProductID i]> m) (showcase_items d) items) d, true)
  else (d, false).

Definition bump_version (t operatorID : Z) (d : PDB) : PDB * unit :=
  (with_showcase ((fun r => mkShowcase (sh_version r + 1) operatorID (Some t)) <$> showcase_row d) (showcase_items d) d, tt).

Definition Replace (operatorID : Z) (items : list PublishItem) : M unit :=
  sql (fun d => (with_showcase (showcase_row d) ∅ d, tt)) DbError ;;;
  (if (0 <? length items)%nat then
     inserted <- sql (insert_items items) DbError ;;
     require inserted DbError
   else ret tt) ;;;
  t <- get_now ;;
  sql (bump_version t operatorID) DbError.

Definition emptyShowcaseLayout : list Slot :=
  map (fun i => mkSlot (Z.of_nat i + 1) 0 true false "") (seq 0 12).

(** One row of the join. *)
Definition load_slot (d : PDB) (items : list Slot) (row : Z * Z) : list Slot :=
  let '(slotNo, productID) := row in
  if (slotNo <? 1) || (12 <? slotNo) || (productID <=? 0) then items else
  let reason := InvalidReason (state_of d productID) in
  <[Z.to_nat (slotNo - 1) := mkSlot slotNo productID false (is_empty reason) reason]> items.

Definition Load : M Layout :=
  result <- query (fun d => r ← showcase_row d;
    Some (mkLayout (sh_version r) (sh_operator r) (sh_published r)
            (foldl (load_slot d) emptyShowcaseLayout (ordered (showcase_items d))))) ;;
  match result with Some layout => ret layout | None => throw DbError end.

(** The sales of a product in the last seven days, from the order schema. *)
Variable sales_7d : PDB -> Z -> Z.

Record CandidateFeature := mkFeature {
  cf_ProductID : Z; cf_MerchantID : Z; cf_Sales7d : Z; cf_StockAvailable : Z; cf_HasPromotion : bool;
  cf_CreatedAt : Z; cf_AgeDays : Z; cf_CurrentMerchantSlots : Z
}.

(** A comparison with NULL holds of nothing. *)
Definition strictly_in_window (starts ends : option Z) (t : Z) : bool :=
  match starts, ends with Some a, Some b => (a <=? t) && (t <=? b) | _, _ => false end.

Definition has_promotion (d : PDB) (t id : Z) : bool :=
  negb (bool_decide (select_all (fun _ r => (pr_product r =? id) && (pr_status r =? 1) &&
    strictly_in_window (pr_starts r) (pr_ends r) t) (promotions d) = [])).

(** The slots that show an active product, in stock, of an active merchant. *)
Definition current_slots (d : PDB) (merchantID : Z) : Z :=
  Z.of_nat (length (select_all (fun _ id =>
    let s := state_of d id in
    ps_Exists s && (ps_Status s =? 1) && ps_MerchantExists s && (ps_MerchantStatus s =? 1) &&
    (0 <? ps_Stock s) && (ps_MerchantID s =? merchantID)) (showcase_items d))).

Definition candidate_where (keyword : string) (merchantID : Z) (d : PDB) (id : Z) (p : ProductRow) : bool :=
  let s := product_state d p id in
  (pd_status p =? 1) && ps_MerchantExists s && (ps_MerchantStatus s =? 1) && (0 <? ps_Stock s) &&
  bool_decide (select_all (fun _ id' => id' =? id) (showcase_items d) = []) &&
  (is_empty keyword || SQLStore.LIKE (pd_name p) ("%" +:+ keyword +:+ "%") ||
   match merchants d !! pd_merchant p with
   | Some m => SQLStore.LIKE (me_name m) ("%" +:+ keyword +:+ "%")
   | None => false
   end) &&
  ((merchantID <=? 0) || (pd_merchant p =? merchantID)).

Definition candidate_feature (d : PDB) (t id : Z) (p : ProductRow) : CandidateFeature :=
  mkFeature id (pd_merchant p) (sales_7d d id) (ps_Stock (product_state d p id)) (has_promotion d t id)
    (pd_created p) (Z.max 0 (t / 86400 - pd_created p / 86400)) (current_slots d (pd_merchant p)).

Definition CandidateFeatures (keyword : string) (merchantID : Z) : M (list CandidateFeature) :=
  t <- get_now ;;
  query (fun d => filter (fun f => cf_CurrentMerchantSlots f < 2)
    (map (fun kp => candidate_feature d t kp.1 kp.2)
       (filter (fun kp => candidate_where keyword merchantID d kp.1 kp.2 = true) (ordered (products d))))).
End repository.

(** * Service *)

Section service.
Context {X : Type}.
Abbreviation M := (M PDB X failure).

Definition from_repository {A} (m : Effects.M PDB X error A) : M A := fun s =>
  let '(s', r) := m s in (s', match r with Ok a => Ok a | Err e => Err (RepositoryError e) end).

(** The operation that [Publish] runs in the session, and the session's commit. *)
Definition publish_body (operatorID : Z) (input : PublishInput) : M (txend failure Z) :=
  currentVersion <- from_repository CurrentVersion ;;
  require (currentVersion =? ExpectedVersion input) (ErrVersionConflict currentVersion) ;;;
  states <- from_repository (ProductStates (map ProductID (Items input))) ;;
  of_res (ValidateDraft (Items input) states) ;;;
  from_repository (Replace operatorID (Items input)) ;;;
  ret (Commit (RepositoryError DbError) (int64 (currentVersion + 1))).

Definition Publish (operatorID : Z) (input : PublishInput) : M Z :=
  require (0 <? ExpectedVersion input) (ErrInvalidDraft "expected_version must be positive") ;;;
  of_res (ValidateDraftShape (Items input)) ;;;
  run_tx (RepositoryError DbError) (publish_body operatorID input).
End service.

(** * Ranking of candidates *)

Record Candidate := mkCandidate {
  ca_ProductID : Z; Score : Z; Sales7d : Z; SalesScore : Z; StockScore : Z; PromotionScore : Z;
  FreshnessScore : Z; DiversityScore : Z; Reasons : list string; createdAt : Z
}.

Definition salesScore (sales7d : Z) : Z :=
  if 21 <=? sales7d then 40 else if 11 <=? sales7d then 32 else if 6 <=? sales7d then 24
  else if 3 <=? sales7d then 16 else if 1 <=? sales7d then 8 else 0.

Definition stockScore (stock : Z) : Z :=
  if 51 <=? stock then 15 else if 21 <=? stock then 11 else if 6 <=? stock then 7
  else if 1 <=? stock then 3 else 0.

Definition freshnessScore (ageDays : Z) : Z :=
  if ageDays <=? 7 then 20 else if ageDays <=? 14 then 14 else if ageDays <=? 30 then 7 else 0.

Definition diversityScore (currentMerchantSlots : Z) : Z :=
  if currentMerchantSlots =? 0 then 15 else if currentMerchantSlots =? 1 then 6 else -1.

Definition candidate_of (f : CandidateFeature) : option Candidate :=
  let diversity := diversityScore (cf_CurrentMerchantSlots f) in
  if (diversity <? 0) || (cf_StockAvailable f <=? 0) then None else
  let sales := salesScore (cf_Sales7d f) in
  let stock := stockScore (cf_StockAvailable f) in
  let promotion := if cf_HasPromotion f then 10 else 0 in
  let freshness := freshnessScore (cf_AgeDays f) in
  let reasons :=
    ["近7天销量" +:+ itoa (cf_Sales7d f) +:+ "件"; "可售库存" +:+ itoa (cf_StockAvailable f) +:+ "件"] ++
    (if cf_HasPromotion f then ["当前有限时促销"] else []) ++
    (if cf_AgeDays f <=? 7 then ["7天内新品"] else []) ++
    (if cf_CurrentMerchantSlots f =? 0 then ["该商家当前未获得首页曝光"] else []) in
  Some (mkCandidate (cf_ProductID f) (sales + stock + promotion + freshness + diversity) (cf_Sales7d f) sales stock
          promotion freshness diversity reasons (cf_CreatedAt f)).

(** The comparison of the sort: higher score, more sales, newer, higher id. *)
Definition ranked_less (a b : Candidate) : bool :=
  if negb (Score a =? Score b) then Score b <? Score a
  else if negb (Sales7d a =? Sales7d b) then Sales7d b <? Sales7d a
  else if negb (createdAt a =? createdAt b) then createdAt b <? createdAt a
  else ca_ProductID b <? ca_ProductID a.

Definition ranked_le (a b : Candidate) : Prop := ranked_less b a = false.
#[export] Instance ranked_le_dec : RelDecision ranked_le.
Proof. intros a b. unfold ranked_le. apply _. Defined.

(** [sort.SliceStable]: an insertion keeps equal elements in order. *)
Fixpoint insert_ranked (a : Candidate) (l : list Candidate) : list Candidate :=
  match l with
  | [] => [a]
  | b :: l' => if ranked_less b a then b :: insert_ranked a l' else a :: l
  end.

Definition rankShowcaseCandidates (features : list CandidateFeature) : list Candidate :=
  foldr insert_ranked [] (omap candidate_of features).

(** [ranked[start:end]]: a slice expression out of range panics. *)
Definition candidates_page (page pageSize : Z) (ranked : list Candidate) : option (list Candidate) :=
  let total := Z.of_nat (length ranked) in
  let clamp v := if total <? v then total else v in
  let start := clamp (int64 (int64 (page - 1) * pageSize)) in
  let stop := clamp (int64 (page * pageSize)) in
  if (0 <=? start) && (start <=? stop)
  then Some (take (Z.to_nat (stop - start)) (drop (Z.to_nat start) ranked))
  else None.
