(* ===== verification/ShowcaseRules.v ===== *)
(** The showcase: what a publication puts on the homepage, versions that serialize
    publications, and the ranking of candidates. *)

From Stdlib Require Import Sorted.
From S2P Require Import Prelude Effects Sql ProductStore ProductCards ProductCardRules Showcase.

(** * Drafts *)

Definition well_shaped (items : list PublishItem) : Prop :=
  (length items <= 12)%nat /\ NoDup (map SlotNo items) /\ NoDup (map ProductID items) /\
  Forall (fun i => 1 <= SlotNo i <= 12 /\ 0 < ProductID i) items.

Definition of_merchant (state : Z -> ProductState) (m : Z) (items : list PublishItem) : Z :=
  sumZ (fun i => if ps_MerchantID (state (ProductID i)) =? m then 1 else 0) items.

#[global] Arguments of_merchant : simpl never.

(** Every product can be shown, and no merchant has more than two slots. *)
Definition showable (state : Z -> ProductState) (items : list PublishItem) : Prop :=
  Forall (fun i => InvalidReason (state (ProductID i)) = "") items /\ forall m, of_merchant state m items <= 2.

Lemma shape_loop_spec slots products items :
  shape_loop slots products items = Ok tt <->
  NoDup (map SlotNo items) /\ NoDup (map ProductID items) /\
  Forall (fun i => (1 <= SlotNo i <= 12 /\ 0 < ProductID i) /\ (SlotNo i ∉ slots) /\ (ProductID i ∉ products)) items.
Proof.
  revert slots products. induction items as [|i items IH]; intros slots products; simpl.
  { split; [intros _; split_and!; constructor|done]. }
  rewrite !NoDup_cons, Forall_cons.
  destruct ((SlotNo i <? 1) || (12 <? SlotNo i) || (ProductID i <=? 0)) eqn:Hrange.
  { split; [done|]. intros (_&_&((?&?)&_)&_). exfalso. revert Hrange. rewrite !orb_true_iff. lia. }
  rewrite !orb_false_iff in Hrange. destruct Hrange as ((H1&H2)&H3).
  apply Z.ltb_ge in H1, H2. apply Z.leb_gt in H3.
  case_bool_decide as Hs; [split; [done|]; intros (_&_&(_&?&_)&_); done|].
  case_bool_decide as Hp; [split; [done|]; intros (_&_&(_&_&?)&_); done|].
  rewrite IH, !Forall_forall. setoid_rewrite not_elem_of_union. setoid_rewrite not_elem_of_singleton.
  split.
  - intros (Hns&Hnp&Hall). split_and!; try done; try lia.
    + intros (j&He&Hj)%list_elem_of_fmap. by destruct (Hall j Hj) as (_&(?&_)&_).
    + intros (j&He&Hj)%list_elem_of_fmap. by destruct (Hall j Hj) as (_&_&(?&_)).
    + intros j Hj. destruct (Hall j Hj) as (?&(_&?)&(_&?)). done.
  - intros ((Hsl&Hns)&(Hpr&Hnp)&_&Hall). split_and!; try done. intros j Hj.
    destruct (Hall j Hj) as (Hr&?&?). split; [exact Hr|].
    split; (split; [|done]); intros He; [apply Hsl|apply Hpr]; rewrite <- He; apply list_elem_of_fmap; eauto.
Qed.

Lemma ValidateDraftShape_spec items : ValidateDraftShape items = Ok tt <-> well_shaped items.
Proof.
  unfold ValidateDraftShape, well_shaped. destruct (12 <? length items)%nat eqn:Hlen.
  - apply Nat.ltb_lt in Hlen. split; [done|lia].
  - apply Nat.ltb_ge in Hlen. rewrite shape_loop_spec. split.
    + intros (?&?&Hall). split_and!; try done. eapply Forall_impl; [exact Hall|]. naive_solver.
    + intros (_&?&?&Hall). split_and!; try done. eapply Forall_impl; [exact Hall|].
      intros i Hi. split; [done|]. split; apply not_elem_of_empty.
Qed.

Lemma of_merchant_nonneg state m items : 0 <= of_merchant state m items.
Proof. apply sumZ_nonneg. apply Forall_forall. intros i _. by destruct (_ =? m). Qed.

Lemma draft_loop_spec states state counts items :
  (forall id, state id = default no_state (states !! id)) ->
  (forall m, 0 <= default 0 (counts !! m) <= 2) ->
  draft_loop states counts items = Ok tt <->
  Forall (fun i => InvalidReason (state (ProductID i)) = "") items /\
  forall m, default 0 (counts !! m) + of_merchant state m items <= 2.
Proof.
  intros Hstate. revert counts. induction items as [|i items IH]; intros counts Hc; simpl.
  { split; [|done]. intros _. split; [constructor|]. intros m. unfold of_merchant. simpl. specialize (Hc m). lia. }
  rewrite Forall_cons, <- Hstate. destruct (is_empty (InvalidReason (state (ProductID i)))) eqn:Hr; simpl.
  2: { split; [done|]. intros [[Hi _] _]. by rewrite Hi in Hr. }
  apply str_eqb_eq in Hr. set (m0 := ps_MerchantID (state (ProductID i))).
  assert (forall m, of_merchant state m (i :: items) = (if m0 =? m then 1 else 0) + of_merchant state m items) as Hcons by done.
  destruct (Z.ltb_spec 2 (default 0 (counts !! m0) + 1)) as [Hgt|Hle].
  { split; [done|]. intros [_ Hall]. specialize (Hall m0). rewrite Hcons, Z.eqb_refl in Hall.
    pose proof (of_merchant_nonneg state m0 items). lia. }
  rewrite IH.
  - split; intros [Hall Hm]; (split; [by naive_solver|]); intros m; specialize (Hm m); rewrite ?Hcons in *;
      destruct (Z.eqb_spec m0 m) as [->|Hne]; rewrite ?lookup_insert_eq, ?lookup_insert_ne in * by done; simpl in *; lia.
  - intros m. specialize (Hc m). destruct (decide (m0 = m)) as [->|Hne];
      [rewrite lookup_insert_eq|rewrite lookup_insert_ne by done]; simpl; lia.
Qed.

(** A draft is accepted exactly when it has at most twelve items, of distinct slots
    and products, each of which can be shown, at most two of a merchant. *)
Lemma ValidateDraft_spec items states :
  ValidateDraft items states = Ok tt <-> well_shaped items /\ showable (fun id => default no_state (states !! id)) items.
Proof.
  unfold ValidateDraft, showable. rewrite <- ValidateDraftShape_spec.
  destruct (ValidateDraftShape items) as [[]|e]; [|split; [done|by intros [? _]]].
  rewrite (draft_loop_spec states _ ∅ items (fun id => eq_refl)) by (intros m; rewrite lookup_empty; simpl; lia).
  setoid_rewrite lookup_empty. simpl. split; [intros H; split; [done|exact H]|by intros [_ H]].
Qed.

(** * Publications *)

Definition layout (items : list PublishItem) : gmap Z Z := foldr (fun i m => <[SlotNo i := ProductID i]> m) ∅ items.

(** What a publication asks for: the version it was drafted on, and a draft whose
    products can be shown now. *)
Definition publishable (d : PDB) (input : PublishInput) : Prop :=
  0 < ExpectedVersion input /\ (exists r, showcase_row d = Some r /\ sh_version r = ExpectedVersion input) /\
  well_shaped (Items input) /\ showable (state_of d) (Items input).

Definition published (d : PDB) (t operatorID : Z) (input : PublishInput) : PDB :=
  with_showcase ((fun r => mkShowcase (sh_version r + 1) operatorID (Some t)) <$> showcase_row d) (layout (Items input)) d.

Definition states_of (d : PDB) (ids : list Z) : gmap Z ProductState :=
  match ids with
  | [] => ∅
  | _ => map_imap (fun id p => if bool_decide (id ∈ ids) then Some (product_state d p id) else None) (products d)
  end.

Lemma states_of_lookup d ids id : id ∈ ids -> default no_state (states_of d ids !! id) = state_of d id.
Proof.
  intros Hin. unfold states_of, state_of. destruct ids as [|i l]; [by apply elem_of_nil in Hin|].
  rewrite map_lookup_imap. destruct (products d !! id) as [p|]; simpl; [|done]. by rewrite bool_decide_eq_true_2.
Qed.

Lemma showable_ext state state' items :
  (forall i, i ∈ items -> state (ProductID i) = state' (ProductID i)) -> showable state items -> showable state' items.
Proof.
  intros Hs [Hall Hm]. split.
  - rewrite Forall_forall in *. intros i Hi. rewrite <- Hs by done. by apply Hall.
  - intros m. specialize (Hm m). unfold of_merchant in *. erewrite sumZ_ext; [exact Hm|].
    apply Forall_forall. intros i Hi. by rewrite Hs.
Qed.

Lemma validated d items :
  ValidateDraft items (states_of d (map ProductID items)) = Ok tt <-> well_shaped items /\ showable (state_of d) items.
Proof.
  rewrite ValidateDraft_spec. split; intros [Hw Hs]; (split; [done|]); (eapply showable_ext; [|exact Hs]);
    intros i Hi; [|symmetry]; apply states_of_lookup, list_elem_of_fmap; eauto.
Qed.

Section publish.
Context {X : Type}.
Implicit Types s : env PDB X.

Lemma faithful_from_repository {A} (m : Effects.M PDB X error A) : faithful m -> faithful (from_repository m).
Proof.
  intros Hm s. unfold from_repository. destruct (Hm s) as [Hl|[Hc Hr]].
  - destruct (m s) as [s' [a|e]]; simpl in *; [done|by left].
  - destruct (m s) as [s' r], (m (clear s)) as [s2 r2]; simpl in *. subst. by right.
Qed.

Lemma publish_body_faithful operatorID input : faithful (X := X) (publish_body operatorID input).
Proof.
  unfold publish_body, CurrentVersion, ProductStates, Replace.
  apply faithful_bind; [apply faithful_from_repository; faithful|]. intros v.
  apply faithful_bind; [faithful|]. intros [].
  apply faithful_bind; [apply faithful_from_repository; faithful|]. intros states.
  apply faithful_bind; [faithful|]. intros [].
  apply faithful_bind; [apply faithful_from_repository; faithful|]. intros []. apply faithful_ret.
Qed.

(** The insertion of a well-shaped draft into the emptied showcase. *)
Lemma insert_items_calm items d :
  well_shaped items -> insert_items items (with_showcase (showcase_row d) ∅ d) =
    (with_showcase (showcase_row d) (layout items) d, true).
Proof.
  intros (_&Hs&Hp&_). unfold insert_items. simpl.
  rewrite !bool_decide_eq_true_2; [done|..]; [|done|done]. apply Forall_forall. intros i _. apply lookup_empty.
Qed.

Lemma Replace_calm operatorID input s :
  no_faults s -> well_shaped (Items input) ->
  Replace operatorID (Items input) s = (set_db (published (db s) (now s) operatorID input) s, Ok tt).
Proof.
  intros Hf Hw. destruct s as [d x t fs]. unfold no_faults in Hf. simpl in Hf. subst fs.
  unfold Replace, bind. simpl. destruct (Items input) as [|i l] eqn:Hi; simpl.
  { unfold published. rewrite Hi. done. }
  rewrite <- Hi in *. unfold sql at 1, pop_fault. simpl. rewrite insert_items_calm by done. done.
Qed.

Lemma publish_calm operatorID input s :
  no_faults s -> 0 < ExpectedVersion input ->
  (run_tx (RepositoryError DbError) (publish_body operatorID input) s =
     (set_db (published (db s) (now s) operatorID input) s, Ok (int64 (ExpectedVersion input + 1))) /\
   publishable (db s) input) \/
  (exists e, run_tx (RepositoryError DbError) (publish_body operatorID input) s = (s, Err e) /\ ~ publishable (db s) input).
Proof.
  intros Hf Hv. destruct s as [d x t fs]. unfold no_faults in Hf. simpl in Hf. subst fs. simpl.
  unfold run_tx, publish_body, CurrentVersion, from_repository, bind. simpl.
  change (set_db d (mkEnv d x t [])) with (mkEnv d x t []).
  destruct (showcase_row d) as [r|] eqn:Hrow; simpl.
  2: { right. eexists. split; [done|]. intros (_&(?&?&_)&_). congruence. }
  destruct (Z.eqb_spec (sh_version r) (ExpectedVersion input)) as [He|He]; simpl.
  2: { right. eexists. split; [done|]. intros (_&(?&?&?)&_). simpl in *. congruence. }
  assert (ProductStates (X := X) (map ProductID (Items input)) (mkEnv d x t []) =
          (mkEnv d x t [], Ok (states_of d (map ProductID (Items input))))) as ->
    by (unfold ProductStates, states_of; by destruct (map ProductID (Items input))).
  unfold of_res. destruct (ValidateDraft _ _) as [[]|e] eqn:Hval.
  2: { right. eexists. split; [done|]. intros (_&_&Hok). apply (validated d) in Hok. simpl in *. congruence. }
  apply validated in Hval as [Hw Hs]. rewrite Replace_calm by done. left. rewrite He. split; [done|].
  split_and!; try done; try apply Hw; try apply Hs. eauto.
Qed.

(** What a call may do to the showcase: nothing, without success; or all of it. *)
Definition all_or_nothing (operatorID : Z) (input : PublishInput) s (run : env PDB X * res failure Z) : Prop :=
  (db run.1 = db s /\ is_ok run.2 = false) \/
  (publishable (db s) input /\ db run.1 = published (db s) (now s) operatorID input /\
   (run.2 = Ok (int64 (ExpectedVersion input + 1)) \/ is_ok run.2 = false)).

Lemma Publish_all_or_nothing operatorID input s : all_or_nothing operatorID input s (Publish operatorID input s).
Proof.
  unfold all_or_nothing, Publish, bind. destruct (Z.ltb_spec 0 (ExpectedVersion input)) as [Hv|Hv]; simpl; [|by left].
  destruct (ValidateDraftShape (Items input)) as [[]|e]; [|by left].
  pose proof (run_tx_atomic (RepositoryError DbError) _ s (publish_body_faithful operatorID input)) as Ha.
  destruct (publish_calm operatorID input (clear s) eq_refl Hv) as [[Hrun Hok]|(e&Hrun&Hnot)];
    rewrite Hrun in Ha; simpl in *; destruct (run_tx _ _ s) as [s' r]; simpl in *.
  - destruct Ha as [?|[? ?]]; [by left|by right].
  - left. destruct Ha as [[-> ->]|[-> [->|Hr]]]; done.
Qed.

Lemma Publish_effective operatorID input s :
  no_faults s -> publishable (db s) input ->
  Publish operatorID input s =
    (set_db (published (db s) (now s) operatorID input) s, Ok (int64 (ExpectedVersion input + 1))).
Proof.
  intros Hf Hok. destruct Hok as (Hv&Hrow&Hw&Hs) eqn:E. clear E.
  unfold Publish, bind. rewrite (proj2 (Z.ltb_lt 0 _) Hv). simpl.
  rewrite (proj2 (ValidateDraftShape_spec (Items input)) Hw). simpl.
  destruct (publish_calm operatorID input s Hf Hv) as [[-> _]|(e&_&[])]; done.
Qed.

(** C36 A publication is all or nothing, and effective exactly when it is publishable:
    whatever call fails, the showcase stays as it was or becomes the draft with the
    next version; when none fails it becomes the draft iff the publication is
    publishable. *)
Theorem Publish_publishes operatorID input s :
  let '(s', r) := Publish operatorID input s in
  ((db s' = db s /\ is_ok r = false) \/
   (publishable (db s) input /\ db s' = published (db s) (now s) operatorID input /\
    (r = Ok (int64 (ExpectedVersion input + 1)) \/ is_ok r = false))) /\
  (no_faults s -> publishable (db s) input ->
     r = Ok (int64 (ExpectedVersion input + 1)) /\ db s' = published (db s) (now s) operatorID input).
Proof.
  pose proof (Publish_all_or_nothing operatorID input s) as Hcases.
  pose proof (Publish_effective operatorID input s) as Heff.
  destruct (Publish operatorID input s) as [s' r]. split; [done|].
  intros Hf Hok. by injection (Heff Hf Hok) as -> ->.
Qed.
End publish.

(** * Versions *)

Definition version_of (d : PDB) : Z := match showcase_row d with Some r => sh_version r | None => 0 end.

(** Publications by operators, one after another; errors are answered and dropped. *)
Definition publish_each {X} (l : list (Z * PublishInput)) : M PDB X failure unit :=
  for_each (fun oi => ignore (Publish oi.1 oi.2)) l.

Section versions.
Context {X : Type}.
Implicit Types s : env PDB X.

Lemma published_version d t operatorID input :
  publishable d input -> version_of (published d t operatorID input) = version_of d + 1.
Proof. intros (_&(r&Hr&_)&_). unfold version_of, published. simpl. by rewrite Hr. Qed.

Lemma publish_version_le operatorID input s : version_of (db s) <= version_of (db (Publish operatorID input s).1).
Proof.
  destruct (Publish_all_or_nothing operatorID input s) as [[-> _]|(Hok&->&_)]; [lia|]. rewrite published_version by done. lia.
Qed.

Lemma publish_each_version_le l s : version_of (db s) <= version_of (db (publish_each l s).1).
Proof.
  revert s. induction l as [|[o i] l IH]; intros s; [done|].
  pose proof (publish_version_le o i s) as H1. unfold publish_each, bind, ignore in *. simpl in *. unfold bind.
  destruct (Publish o i s) as [s1 r1]. simpl in *. specialize (IH s1). unfold ignore in IH. lia.
Qed.

(** A draft made on an older version never replaces a newer showcase: once a
    publication has been effective, whatever is published afterwards, another one
    that expects the same version is refused and changes nothing. *)
Theorem stale_draft_is_refused o1 input1 between o2 input2 s :
  let s1 := (Publish o1 input1 s).1 in
  let s2 := (publish_each between s1).1 in
  db s1 <> db s -> ExpectedVersion input2 = ExpectedVersion input1 ->
  db (Publish o2 input2 s2).1 = db s2 /\ is_ok (Publish o2 input2 s2).2 = false.
Proof.
  intros s1 s2 Hne Hsame.
  assert (version_of (db s1) = ExpectedVersion input1 + 1) as Hv1.
  { unfold s1 in *. destruct (Publish_all_or_nothing o1 input1 s) as [[? _]|(Hok&->&_)]; [done|]. rewrite published_version by done.
    destruct Hok as (_&(row&Hr&<-)&_). unfold version_of. by rewrite Hr. }
  pose proof (publish_each_version_le between s1) as Hle. fold s2 in Hle.
  destruct (Publish_all_or_nothing o2 input2 s2) as [?|((_&(row&Hr&Hexp)&_)&_)]; [done|]. exfalso.
  unfold version_of in Hle, Hv1. rewrite Hr in Hle. lia.
Qed.
End versions.

(** * The ranking *)

Lemma ranked_le_total a b : ranked_le a b \/ ranked_le b a.
Proof.
  unfold ranked_le, ranked_less.
  repeat match goal with |- context [?x =? ?y] => destruct (Z.eqb_spec x y); simpl end; try congruence;
    repeat match goal with |- context [?x <? ?y] => destruct (Z.ltb_spec x y); simpl end; auto; lia.
Qed.

Lemma ranked_le_trans a b c : ranked_le a b -> ranked_le b c -> ranked_le a c.
Proof.
  unfold ranked_le, ranked_less.
  repeat match goal with |- context [?x =? ?y] => destruct (Z.eqb_spec x y); simpl end; try congruence;
    rewrite ?Z.ltb_ge; lia.
Qed.

Lemma insert_ranked_perm a l : insert_ranked a l ≡ₚ a :: l.
Proof.
  induction l as [|b l IH]; simpl; [done|]. destruct (ranked_less b a); [|done]. rewrite IH. apply Permutation_swap.
Qed.

Lemma insert_ranked_sorted a l : StronglySorted ranked_le l -> StronglySorted ranked_le (insert_ranked a l).
Proof.
  induction 1 as [|b l Hl IH Hb]; simpl; [repeat constructor|].
  destruct (ranked_less b a) eqn:Hba.
  - constructor; [done|]. rewrite insert_ranked_perm. constructor; [|done].
    unfold ranked_le. destruct (ranked_le_total b a) as [H|H]; [done|]. unfold ranked_le in H. congruence.
  - constructor; [by constructor|]. constructor; [done|]. eapply Forall_impl; [exact Hb|].
    intros c Hc. by eapply ranked_le_trans.
Qed.

(** The ranking lists every eligible candidate once, best first. *)
Lemma ranking_sorts features :
  rankShowcaseCandidates features ≡ₚ omap candidate_of features /\
  StronglySorted ranked_le (rankShowcaseCandidates features).
Proof.
  unfold rankShowcaseCandidates. induction (omap candidate_of features) as [|a l [Hp Hs]]; simpl; [by repeat constructor|].
  split; [by rewrite insert_ranked_perm, Hp|by apply insert_ranked_sorted].
Qed.

(** A score is between 0 and 100. *)
Lemma score_bounds f c : candidate_of f = Some c -> 3 <= Score c <= 100.
Proof.
  unfold candidate_of, salesScore, stockScore, freshnessScore, diversityScore.
  repeat match goal with |- context [?x =? ?y] => destruct (Z.eqb_spec x y); simpl end;
  repeat match goal with |- context [?x <=? ?y] => destruct (Z.leb_spec x y); simpl end;
  destruct (cf_HasPromotion f); intros [= <-]; simpl; lia.
Qed.
