(* ===== verification/Catalog.v ===== *)
(** The product catalogue as a whole: the invariant that the product, supplier,
    inventory seed, snapshot and showcase services keep together. *)

From S2P Require Import Prelude Effects Sql ProductStore ProductCards ProductCardRules ProductCommand Showcase ShowcaseRules.
Import productcommand.

(** * The invariant *)

Definition product_ok (d : PDB) (p : ProductRow) : Prop :=
  0 <= pd_sale_price p <= pd_origin_price p /\ validStatus (pd_status p) = true /\
  is_Some (suppliers d !! pd_supplier p).

Definition seed_ok (s : SeedRow) : Prop :=
  0 <= se_total s /\ validStatus (se_product_status s) = true /\ 0 <= se_attempts s /\ 0 <= se_status s <= 2.

Definition slots_ok (items : gmap Z Z) : Prop :=
  (forall slot id, items !! slot = Some id -> 1 <= slot <= 12 /\ 0 < id) /\
  (forall s1 s2 id, items !! s1 = Some id -> items !! s2 = Some id -> s1 = s2).

Record catalog_ok (d : PDB) : Prop := mk_catalog_ok {
  co_products : forall id p, products d !! id = Some p -> product_ok d p;
  co_seeds : forall id s, seeds d !! id = Some s -> seed_ok s;
  co_suppliers : forall id s, suppliers d !! id = Some s -> id < next_supplier d /\ validStatus (su_status s) = true;
  co_slots : slots_ok (showcase_items d)
}.

(** What it depends on. *)
Lemma catalog_ok_ext d d' :
  products d' = products d -> seeds d' = seeds d -> suppliers d' = suppliers d ->
  next_supplier d' = next_supplier d -> showcase_items d' = showcase_items d -> catalog_ok d -> catalog_ok d'.
Proof.
  intros Hp Hs Hsu Hn Hi [H1 H2 H3 H4]. split; rewrite ?Hp, ?Hs, ?Hsu, ?Hn, ?Hi; try done.
  intros id p Hid. specialize (H1 id p Hid). unfold product_ok in *. by rewrite Hsu.
Qed.

Lemma with_products_ok d m :
  catalog_ok d -> (forall id p, m !! id = Some p -> product_ok d p) -> catalog_ok (with_products m d).
Proof. intros [H1 H2 H3 H4] Hm. split; done. Qed.

Lemma with_seeds_ok d m : catalog_ok d -> (forall id s, m !! id = Some s -> seed_ok s) -> catalog_ok (with_seeds m d).
Proof. intros [H1 H2 H3 H4] Hm. split; done. Qed.

(** * Products *)

Section products.
Context {X : Type}.
Implicit Types s : env PDB X.

Lemma db_from_repository {A R} (m : M PDB X error A) s : db (ProductCommand.from_repository (R := R) m s).1 = db (m s).1.
Proof. unfold ProductCommand.from_repository. by destruct (m s). Qed.

Lemma insert_product_ok id p d : catalog_ok d -> product_ok d p -> catalog_ok (insert_product id p d).1.
Proof.
  intros Hok Hp. unfold insert_product. destruct (products d !! id) eqn:Hid; [done|]. apply with_products_ok; [done|].
  intros id' p'. rewrite lookup_insert_Some. intros [[_ <-]|[_ Hl]]; [done|by eapply co_products].
Qed.

Lemma insert_seed_ok id r d : catalog_ok d -> seed_ok r -> catalog_ok (insert_seed id r d).1.
Proof.
  intros Hok Hr. unfold insert_seed. destruct (seeds d !! id) eqn:Hid; [done|]. apply with_seeds_ok; [done|].
  intros id' r'. rewrite lookup_insert_Some. intros [[_ <-]|[_ Hl]]; [done|by eapply co_seeds].
Qed.

Lemma active_supplier_exists id d : active_supplier id d = true -> is_Some (suppliers d !! id).
Proof. unfold active_supplier. destruct (suppliers d !! id); [eauto|done]. Qed.

Lemma create_body_keeps record s :
  0 <= ci_SalePriceFen record <= ci_OriginPriceFen record -> 0 <= ci_StockAvailable record ->
  validStatus (ci_Status record) = true ->
  catalog_ok (db s) -> catalog_ok (db (create_body (X := X) record s).1).
Proof.
  intros Hprice Hstock Hstatus Hok. unfold create_body.
  eapply observes_then; [done|apply observes_query, eq_refl|]. intros supplier s1 Hd1 Hsup. cbv beta in Hsup.
  destruct supplier; simpl; [|by rewrite Hd1]. eapply observes_then; [by rewrite Hd1|by apply (observes_query _ _ (fun _ => True))|].
  intros merchant s2 Hd2 _. destruct merchant; simpl; [|by rewrite Hd2, Hd1].
  eapply observes_then; [by rewrite Hd2, Hd1|by apply (observes_query _ _ (fun _ => True))|]. intros last s3 Hd3 _.
  unfold bind at 1, get_now. cbv beta iota. assert (db s3 = db s) as Hd by congruence. apply preserves_then.
  - apply sql_outcome; rewrite Hd; [done|]. apply insert_product_ok; [done|]. split_and!; simpl; try lia; [done|].
    by apply active_supplier_exists.
  - intros inserted. preserve. apply preserves_sql. intros d Hd'. apply insert_seed_ok; [done|]. split_and!; simpl; lia || done.
Qed.

Lemma update_body_keeps command s :
  check_optional (Z.leb 0) (ui_SalePriceFen command) = true -> check_optional (Z.leb 0) (ui_OriginPriceFen command) = true ->
  check_optional validStatus (ui_Status command) = true ->
  catalog_ok (db s) -> catalog_ok (db (update_body (X := X) command s).1).
Proof.
  intros Hsale Horigin Hstatus Hok. unfold update_body.
  eapply observes_then; [done|apply observes_query, eq_refl|]. intros found s1 Hd1 Hfound. cbv beta in Hfound.
  destruct found as [p|]; [|simpl; by rewrite Hd1].
  eapply (observes_then _ _ _ _ (fun b => b = true -> forall id, ui_SupplierID command = Some id -> is_Some (suppliers (db s) !! id)));
    [by rewrite Hd1|..].
  { destruct (ui_SupplierID command) as [id|]; [|by apply observes_ret]. apply observes_query. rewrite Hd1.
    intros Ha id' [= <-]. by apply active_supplier_exists. }
  intros supplier s2 Hd2 Hsup. destruct supplier; simpl; [|by rewrite Hd2, Hd1].
  destruct (Z.ltb_spec (default (pd_origin_price p) (ui_OriginPriceFen command)) (default (pd_sale_price p) (ui_SalePriceFen command)))
    as [Hlt|Hle]; [simpl; by rewrite Hd2, Hd1|].
  apply guard_then; [by rewrite Hd2, Hd1|]. intros _.
  assert (db s2 = db s) as Hd by congruence. apply preserves_then; [|intros; apply preserves_ret].
  apply sql_outcome; rewrite Hd; [done|]. apply with_products_ok; [done|]. intros id q.
  rewrite upd_at_key. destruct (products (db s) !! ui_ProductID command) as [p'|] eqn:Hp'; simpl in Hfound; [|done].
  destruct (owned (ui_MerchantID command) p'); [|done]. injection Hfound as ->.
  rewrite lookup_insert_Some. intros [[_ <-]|[_ Hl]]; [|by eapply co_products].
  destruct (co_products _ Hok _ _ Hp') as (Hpr&Hst&Hsu). split_and!; simpl.
  - destruct (ui_SalePriceFen command) as [v|]; simpl in *; [by apply Z.leb_le|lia].
  - lia.
  - by destruct (ui_Status command).
  - destruct (ui_SupplierID command) as [id'|] eqn:Hs; simpl; [by apply Hsup|done].
Qed.

Lemma Create_keeps_catalog input : preserves (X := X) catalog_ok (Create input).
Proof.
  intros s Hok. unfold Create. simpl. apply guard_then; [done|]. intros Hargs.
  apply guard_then; [done|]. intros Hprice. apply guard_then; [done|]. intros Hstatus.
  apply preserves_then; [|intros []; [apply preserves_ret|apply preserves_throw]].
  rewrite db_from_repository. unfold Create_row, Update_row. apply preserves_run_tx_body; [|done].
  apply negb_true_iff in Hargs. rewrite !orb_false_iff, !Z.ltb_ge in Hargs. apply Z.leb_le in Hprice.
  intros s' Hs'. apply create_body_keeps; simpl; try done; lia.
Qed.

Lemma Update_keeps_catalog input : preserves (X := X) catalog_ok (Update input).
Proof.
  intros s Hok. unfold Update. simpl. apply guard_then; [done|]. intros _.
  apply guard_then; [done|]. intros [Hsale Horigin]%andb_true_iff. apply guard_then; [done|]. intros _.
  apply guard_then; [done|]. intros Hstatus. apply guard_then; [done|]. intros _.
  apply preserves_then; [|intros r; destruct (negb (Found r)), (Rejection r); first [apply preserves_ret|apply preserves_throw]].
  rewrite db_from_repository. unfold Create_row, Update_row. apply preserves_run_tx_body; [|done].
  intros s' Hs'. by apply update_body_keeps.
Qed.
End products.

(** * Suppliers *)

Lemma with_suppliers_ok d m n :
  catalog_ok d -> (forall id s, m !! id = Some s -> id < n /\ validStatus (su_status s) = true) ->
  (forall id, is_Some (suppliers d !! id) -> is_Some (m !! id)) -> catalog_ok (with_suppliers m n d).
Proof.
  intros [H1 H2 H3 H4] Hm Hsub. split; try done. intros id p Hp. destruct (H1 id p Hp) as (?&?&?).
  split_and!; try done; try lia. by apply Hsub.
Qed.

Section others.
Context {X : Type}.
Implicit Types s : env PDB X.

Lemma supplier_Create_keeps input : preserves (X := X) catalog_ok (supplier.Create input).
Proof.
  intros s Hok. unfold supplier.Create. simpl. apply guard_then; [done|]. intros _.
  apply guard_then; [done|]. intros Hstatus. rewrite db_from_repository. unfold supplier.Insert. apply sql_outcome; [done|].
  simpl. apply with_suppliers_ok; [done|..].
  - intros id r. rewrite lookup_insert_Some. intros [[<- <-]|[_ Hl]]; [simpl; split; [lia|done]|].
    destruct (co_suppliers _ Hok _ _ Hl). split; [lia|done].
  - intros id [r Hr]. destruct (decide (next_supplier (db s) = id)) as [->|Hne];
      [rewrite lookup_insert_eq; eauto|rewrite lookup_insert_ne by done; eauto].
Qed.

Lemma supplier_update_body_keeps id c :
  match supplier.ch_Status c with Some v => validStatus v | None => true end = true ->
  preserves (X := X) catalog_ok (supplier.update_body id c).
Proof.
  intros Hst. unfold supplier.update_body. preserve; try apply preserves_query.
  apply preserves_sql. intros d Hok. simpl. apply with_suppliers_ok; [done|..].
  - intros id' r (r0&Hr0&->)%lookup_upd_Some. destruct (co_suppliers _ Hok _ _ Hr0) as [Hlt Hv]. split; [done|].
    destruct (at_key _ _ _ _); [|done]. simpl. by destruct (supplier.ch_Status c).
  - intros id' [r Hr]. rewrite lookup_upd, Hr. simpl. eauto.
Qed.

Lemma supplier_Update_keeps input : preserves (X := X) catalog_ok (supplier.Update input).
Proof.
  intros s Hok. unfold supplier.Update. simpl. apply guard_then; [done|]. intros _. apply guard_then; [done|]. intros _.
  apply guard_then; [done|]. intros Hstatus. apply preserves_then; [|intros r; preserve].
  rewrite db_from_repository. unfold supplier.Update_row. apply preserves_run_tx_body; [|done].
  by apply supplier_update_body_keeps.
Qed.

(** * Inventory seeds *)

Lemma db_plain {A} (m : M PDB X error A) s : db (seed.plain m s).1 = db (m s).1.
Proof. unfold seed.plain. by destruct (m s). Qed.

Lemma preserves_plain {A} (P : PDB -> Prop) (m : M PDB X error A) : preserves P m -> preserves P (seed.plain m).
Proof. intros Hm s Hs. rewrite db_plain. by apply Hm. Qed.

Lemma update_seed_ok f id d :
  (forall r, seed_ok r -> seed_ok (f r)) -> catalog_ok d -> catalog_ok (seed.update_seed f id d).1.
Proof.
  intros Hf Hok. apply with_seeds_ok; [done|]. intros id' r (r0&Hr0&->)%lookup_upd_Some.
  pose proof (co_seeds _ Hok _ _ Hr0). destruct (at_key _ _ _ _); auto.
Qed.

Lemma publish_product_ok status id d :
  validStatus status = true -> catalog_ok d -> catalog_ok (seed.publish_product status id d).1.
Proof.
  intros Hst Hok. apply with_products_ok; [done|]. intros id' p (p0&Hp0&->)%lookup_upd_Some.
  destruct (co_products _ Hok _ _ Hp0) as (?&?&?). destruct (at_key _ _ _ _); split_and!; simpl; try done; lia.
Qed.

Lemma Initialize_keeps SeedStock id : preserves (X := X) catalog_ok (seed.Initialize SeedStock id).
Proof.
  intros s Hok. unfold seed.Initialize.
  eapply (observes_then _ _ _ _ (fun row => row = seeds (db s) !! id)); [done|..].
  { unfold observes. pose proof (observes_query (fun d => seeds d !! id) s (fun row => row = seeds (db s) !! id) eq_refl) as H.
    unfold observes, seed.plain in *. destruct (query _ s) as [s1 [a|e]]; simpl in *; destruct H as (?&?&H); split_and!; try done.
    intros b [= <-]. by apply H. }
  intros row s1 Hd1 ->. destruct (seeds (db s) !! id) as [task|] eqn:Htask; [|simpl; by rewrite Hd1].
  destruct (co_seeds _ Hok _ _ Htask) as (?&Hst&?&?). destruct (se_status task =? 1); [simpl; by rewrite Hd1|].
  apply preserves_then; [apply preserves_attempt; [apply preserves_plain, preserves_call|by rewrite Hd1]|].
  intros [[]|e].
  - apply preserves_bind; [|intros; apply preserves_ret]. apply preserves_plain, preserves_run_tx_body.
    apply preserves_bind; [apply preserves_sql; intros d; apply update_seed_ok|intros _].
    { intros r (?&?&?&?). split_and!; simpl; try done; lia. }
    apply preserves_bind; [apply preserves_sql; intros d; by apply publish_product_ok|intros _; apply preserves_ret].
  - apply preserves_bind; [|intros []; apply preserves_throw]. apply preserves_attempt, preserves_plain, preserves_sql.
    intros d. apply update_seed_ok. intros r (?&?&?&?). split_and!; simpl; try done; lia.
Qed.

(** * Showcase and snapshots *)

Lemma layout_lookup items slot id :
  layout items !! slot = Some id -> mkItem slot id ∈ items.
Proof.
  induction items as [|[sl p] items IH]; simpl; [by rewrite lookup_empty|].
  rewrite lookup_insert_Some. intros [[-> ->]|[_ Hl]]; [by left|right; auto].
Qed.

Lemma layout_slots_ok items : well_shaped items -> slots_ok (layout items).
Proof.
  intros (_&_&Hp&Hall). rewrite Forall_forall in Hall. split.
  - intros slot id Hl%layout_lookup. apply (Hall _ Hl).
  - intros s1 s2 id H1%layout_lookup H2%layout_lookup. clear Hall.
    assert (mkItem s1 id = mkItem s2 id) as [=]; [|done].
    induction items as [|i items IH]; [by apply elem_of_nil in H1|]. simpl in Hp. apply NoDup_cons in Hp as [Hnot Hp].
    assert (forall sl, mkItem sl id ∈ items -> ProductID i <> id) as Hni.
    { intros sl Hin He. apply Hnot. apply list_elem_of_fmap. exists (mkItem sl id). by split. }
    apply elem_of_cons in H1 as [H1|H1], H2 as [H2|H2]; [congruence| | |by apply IH].
    + exfalso. apply (Hni _ H2). by rewrite <- H1.
    + exfalso. apply (Hni _ H1). by rewrite <- H2.
Qed.

Lemma Publish_keeps operatorID input : preserves (X := X) catalog_ok (Publish operatorID input).
Proof.
  intros s Hok. destruct (Publish_all_or_nothing operatorID input s) as [[-> _]|((_&_&Hw&_)&->&_)]; [done|]. destruct Hok as [H1 H2 H3 H4].
  split; try done. by apply layout_slots_ok.
Qed.

Lemma RebuildCards_keeps productID limit : preserves (X := X) catalog_ok (RebuildCards productID limit).
Proof.
  unfold RebuildCards. preserve. apply preserves_sql. intros d. by apply catalog_ok_ext.
Qed.

Lemma RebuildStock_keeps productID limit : preserves (X := X) catalog_ok (RebuildStock productID limit).
Proof. apply preserves_sql. intros d. by apply catalog_ok_ext. Qed.

Lemma refreshOnce_keeps window limit : preserves (X := X) catalog_ok (refreshOnce window limit).
Proof.
  unfold refreshOnce, ensureProductCardSnapshotTables, productCardSnapshotPromotionProductIDs,
    Promotion.WindowAffectedProductIDs_row.
  apply preserves_bind; [apply preserves_attempt; preserve; by apply preserves_sql|]. intros [|]; [|apply preserves_ret].
  apply preserves_bind; [apply preserves_attempt; preserve; apply preserves_query|]. intros [ids|]; [|apply preserves_ret].
  apply preserves_for_each. intros id _. apply preserves_ignore. apply RebuildCards_keeps.
Qed.
End others.

(** * Runs *)

Inductive request :=
| CreateProduct (input : CreateInput)
| UpdateProduct (input : UpdateInput)
| CreateSupplier (input : supplier.CreateInput)
| UpdateSupplier (input : supplier.UpdateInput)
| SeedInventory (productID : Z)
| PublishShowcase (operatorID : Z) (input : PublishInput)
| RebuildSnapshots (productID limit : Z)
| RefreshCards (window limit : Z).

Section runs.
Context {X : Type}.
Variable SeedStock : Z -> Z -> Z -> X -> X * res error unit.

(** One request, at a time; its answer is dropped. *)
Definition handle (r : request) : M PDB X unit unit := fun s =>
  let done {E A} (m : M PDB X E A) := ((m s).1, Ok tt : res unit unit) in
  match r with
  | CreateProduct input => done (Create input)
  | UpdateProduct input => done (Update input)
  | CreateSupplier input => done (supplier.Create input)
  | UpdateSupplier input => done (supplier.Update input)
  | SeedInventory productID => done (seed.Initialize SeedStock productID)
  | PublishShowcase operatorID input => done (Publish operatorID input)
  | RebuildSnapshots productID limit => done (RebuildStock productID limit ;;; RebuildCards productID limit)
  | RefreshCards window limit => done (refreshOnce window limit)
  end.

Definition handle_at (tr : Z * request) : M PDB X unit unit := fun s =>
  handle tr.2 (mkEnv (db s) (ext s) tr.1 (faults s)).

Definition serve (requests : list (Z * request)) : M PDB X unit unit := for_each handle_at requests.

Lemma catalog_handle_keeps r : preserves catalog_ok (handle r).
Proof.
  intros s Hs. destruct r; simpl; [by apply Create_keeps_catalog|by apply Update_keeps_catalog|by apply supplier_Create_keeps
    |by apply supplier_Update_keeps|by apply Initialize_keeps|by apply Publish_keeps| |by apply refreshOnce_keeps].
  apply preserves_bind; [apply RebuildStock_keeps|intros; apply RebuildCards_keeps|done].
Qed.

(** C33 Whatever catalogue requests are served, in any order, and whatever calls fail:
    no product costs more than its original price or less than nothing, products
    and tasks have valid statuses, suppliers of products exist, and the showcase has
    distinct products in its twelve slots. *)
Theorem catalogue_stays_consistent requests (s : env PDB X) :
  catalog_ok (db s) -> catalog_ok (db (serve requests s).1).
Proof.
  apply preserves_for_each. intros [t r] _ s' Hs'. by apply catalog_handle_keeps.
Qed.
End runs.
