(* ===== verification/CatalogScenarios.v ===== *)
(** Runs of the product catalogue: the theorems at concrete inputs, and behaviours
    where its services do not fit together. *)

From S2P Require Import Prelude Effects Sql ProductStore Promotion PromotionRules ProductCards ProductCardRules ProductCommand Showcase ShowcaseRules Catalog.

(** * Promotions

    Runs of the promotion service. *)

(** A parser of three moments. *)
Definition moments (value : string) : option Z :=
  if str_eqb value "10:00" then Some 36000 else if str_eqb value "12:00" then Some 43200
  else if str_eqb value "14:00" then Some 50400 else None.

Definition phone : ProductRow := mkProduct 1 "phone" "" 0 0 2000 1500 1 3 0.

Definition catalog : PDB := mkPDB {[ 7 := phone ]} ∅ 1 ∅ ∅ ∅ [] ∅ ∅ 1 ∅ None ∅.

Definition at_start : env PDB unit := mkEnv catalog tt 0 [].

Definition sale (from to : string) (price : Z) : CreateInput := mkCreate 7 "limited_price" price 0 from to 0.

Lemma promotion_catalog_ok : promotions_ok catalog.
Proof. split; simpl; [split; [lia|]|..]; intros *; rewrite lookup_empty; discriminate. Qed.

(** The second rule overlaps the first and is refused; the third starts after it. *)
Example overlapping_rule_is_refused :
  let '(s1, r1) := Create moments (sale "10:00" "12:00" 900) at_start in
  let '(s2, r2) := Create moments (sale "12:00" "14:00" 800) s1 in
  let '(s3, r3) := Update moments (mkUpdate 1 None None None None (Some "10:00") None) s2 in
  let '(s4, r4) := Create moments (sale "12:00" "" 800) s3 in
  r1 = Ok (mkMutation 1 [7]) /\ r2 = Err window_conflict /\ r3 = Ok (mkMutation 1 [7]) /\ r4 = Ok (mkMutation 2 [7]).
Proof. vm_compute. done. Qed.

Definition two_rules : list (Z * PromotionRules.request) :=
  [(0, CreateRequest (sale "10:00" "10:00" 900)); (60, PromotionRules.CreateRequest (sale "12:00" "" 800))].

Lemma promotions_stay_consistent_witness :
  let d := db (PromotionRules.serve moments two_rules at_start).1 in
  let r := mkPromotion 7 "LIMITED_PRICE" 800 0 (Some 43200) None 1 in
  promotions d !! 2 = Some r /\
  ((exists p, products d !! 7 = Some p /\ 0 < 800 <= pd_sale_price p) /\
   (forall j r', promotions d !! j = Some r' -> pr_product r' = 7 -> applies 50000 r' = true -> j = 2)).
Proof.
  split; [by vm_compute|].
  apply (PromotionRules.promotions_stay_consistent moments two_rules at_start 50000 2 (mkPromotion 7 "LIMITED_PRICE" 800 0 (Some 43200) None 1));
    [apply promotion_catalog_ok|by vm_compute|by vm_compute].
Defined.

(** Two creations at once: both look for conflicts before either inserts. *)
Definition two_creations_at_once : env PDB unit :=
  let '(s1, r1) := create_checks moments (sale "10:00" "14:00" 900) at_start in
  let '(s2, r2) := create_checks moments (sale "12:00" "" 800) s1 in
  match r1, r2 with
  | Ok row1, Ok row2 => (Insert row2 (Insert row1 s2).1).1
  | _, _ => s2
  end.

(** Both rules are stored, and both lower the price of the product at 12:00. *)
Example concurrent_creations_overlap :
  let d := db two_creations_at_once in
  map (fun kr => (kr.1, applies 43200 kr.2, pr_product kr.2)) (map_to_list (promotions d)) =
    [(2, true, 7); (1, true, 7)].
Proof. vm_compute. done. Qed.

(** An inventory that accepts every seed and remembers its total. *)
Definition accept_seed (id total shards : Z) (x : gmap Z Z) : gmap Z Z * res error unit := (<[id := total]> x, Ok tt).

Definition market : PDB :=
  mkPDB ∅ ∅ 1 ∅ ∅ ∅ [] ∅ {[ 3 := mkSupplier "acme" 1 ]} 4 {[ 1000 := mkMerchant "shop" 1 ]}
    (Some (mkShowcase 1 0 None)) ∅.

Definition opening : env PDB (gmap Z Z) := mkEnv market ∅ 0 [].

Definition lamp : productcommand.CreateInput := productcommand.mkCreateInput " lamp " "" 1000 2000 1500 10 3 0.
Definition desk : productcommand.CreateInput := productcommand.mkCreateInput "desk" "" 1000 9000 9000 5 3 1.

Lemma market_ok : catalog_ok market.
Proof.
  split; simpl.
  - intros id p. by rewrite lookup_empty.
  - intros id s. by rewrite lookup_empty.
  - intros id s. rewrite lookup_singleton_Some. intros [<- <-]. split; [lia|done].
  - split; intros *; by rewrite lookup_empty.
Qed.

Definition first_days : list (Z * request) :=
  [(10, CreateProduct lamp); (11, SeedInventory 100); (12, CreateProduct desk); (13, SeedInventory 101);
   (14, UpdateSupplier (supplier.mkUpdateInput 3 "" (Some 2)));
   (15, PublishShowcase 9 (mkInput 1 [mkItem 1 100; mkItem 5 101]));
   (16, PublishShowcase 9 (mkInput 1 [mkItem 2 101]));
   (17, UpdateProduct (productcommand.mkUpdateInput 100 0 "" "" (Some 2500) None None None))].

Lemma catalogue_stays_consistent_witness :
  catalog_ok market /\ catalog_ok (db (serve accept_seed first_days opening).1).
Proof. split; [apply market_ok|]. apply (catalogue_stays_consistent accept_seed first_days opening). apply market_ok. Defined.

(** The second draft comes late, the price above the original one is refused, and so
    is the supplier of active products. *)
Example first_days_end :
  let d := db (serve accept_seed first_days opening).1 in
  version_of d = 2 /\ ordered (showcase_items d) = [(1, 100); (5, 101)] /\
  (pd_sale_price <$> products d !! 100) = Some 1500 /\ (su_status <$> suppliers d !! 3) = Some 1.
Proof. vm_compute. done. Qed.

Definition shop : env PDB (gmap Z Z) := (serve accept_seed (take 4 first_days) opening).1.

Lemma stale_draft_is_refused_witness :
  let s1 := (Publish 9 (mkInput 1 [mkItem 1 100]) shop).1 in
  let s2 := (publish_each [(8, mkInput 2 [])] s1).1 in
  db s1 <> db shop /\ db (Publish 7 (mkInput 1 [mkItem 2 101]) s2).1 = db s2 /\
  is_ok (Publish 7 (mkInput 1 [mkItem 2 101]) s2).2 = false.
Proof.
  split.
  - intros He. apply (f_equal version_of) in He. vm_compute in He. discriminate He.
  - apply (stale_draft_is_refused 9 (mkInput 1 [mkItem 1 100]) [(8, mkInput 2 [])] 7 (mkInput 1 [mkItem 2 101]) shop); [|done].
    intros He. apply (f_equal version_of) in He. vm_compute in He. discriminate He.
Defined.

(** * Cards *)

Definition lamp_row : ProductRow := mkProduct 1000 "lamp" "" 10 0 2000 1500 1 3 0.

(** A lamp whose snapshot was made before its promotion opened. *)
Definition before_sale : PDB :=
  mkPDB {[ 100 := lamp_row ]} {[ 1 := mkPromotion 100 "LIMITED_PRICE" 900 0 (Some 1000) (Some 5000) 1 ]} 2
    {[ 100 := mkCard "lamp" 2000 1500 "" "" 10 3 1 0 ]} {[ 100 := mkStockRow 10 0 10 0 ]} ∅ [] ∅
    {[ 3 := mkSupplier "acme" 1 ]} 4 {[ 1000 := mkMerchant "shop" 1 ]} None ∅.

Lemma before_sale_current : forall id, card_current before_sale 900 id.
Proof.
  intros id c p Hc Hp. simpl in Hc, Hp. apply lookup_singleton_Some in Hc as [<- <-], Hp as [_ <-]. by vm_compute.
Qed.


Lemma ListProducts_agrees_with_GetProductCard_witness :
  let s := mkEnv before_sale tt 900 [] in let req := mkListProductsReq [100; 7; 100] 0 0 in
  exists resp, ListProducts req s = (s, Ok resp) /\
    forall id c, (c ∈ ProductCards.Items resp /\ ProductId c = id) <->
                 (id ∈ ProductIds req /\ GetProductCard id s = (s, Ok c)).
Proof.
  apply (ListProducts_agrees_with_GetProductCard (mkListProductsReq [100; 7; 100] 0 0) (mkEnv before_sale tt 900 []));
    [done|done| |apply before_sale_current].
  intros id. split; vm_compute; discriminate.
Defined.

(** * Where the services do not fit together *)

Definition card_price (d : PDB) (t id : Z) : option Z :=
  match (GetProductCard id (mkEnv d tt t [])).2 with Ok c => Some (FinalPriceFen c) | Err _ => None end.

Definition lower_price (id price : Z) : productcommand.UpdateInput :=
  productcommand.mkUpdateInput id 0 "" "" (Some price) None None None.

(** The sale price is lowered below a running promotion: the promotion raises it. *)
Example promotion_above_lowered_price :
  let d := db (serve accept_seed [(2000, UpdateProduct (lower_price 100 500)); (2000, RebuildSnapshots 100 1)]
                 (mkEnv before_sale ∅ 2000 [])).1 in
  (pd_sale_price <$> products d !! 100) = Some 500 /\ card_price d 2000 100 = Some 900.
Proof. vm_compute. done. Qed.

(** A supplier is switched off between the creation of its product and the seed that
    puts the product online. *)
Example product_of_inactive_supplier :
  let d := db (serve accept_seed [(10, CreateProduct lamp); (11, UpdateSupplier (supplier.mkUpdateInput 3 "" (Some 2)));
                                  (12, SeedInventory 100)] opening).1 in
  (pd_status <$> products d !! 100) = Some 1 /\ (pd_supplier <$> products d !! 100) = Some 3 /\
  (su_status <$> suppliers d !! 3) = Some 2.
Proof. vm_compute. done. Qed.

(** A promotion without an end lowers the price, and does not count as one for the
    showcase. *)
Example open_promotion_is_not_recommended :
  let d := with_promotions {[ 1 := mkPromotion 100 "LIMITED_PRICE" 900 0 (Some 1000) None 1 ]} 2 (with_cards ∅ before_sale) in
  card_price d 2000 100 = Some 900 /\ has_promotion d 2000 100 = false.
Proof. vm_compute. done. Qed.

(** The product is taken offline and the refresh of its snapshot, whose error is
    dropped, fails: its card is answered as before. *)
Example offline_product_is_served :
  let offline := productcommand.mkUpdateInput 100 0 "" "" None None None (Some 2) in
  let d := db (serve accept_seed [(900, UpdateProduct offline); (900, RebuildSnapshots 100 1)]
                 (mkEnv before_sale ∅ 900 [NoFault; NoFault; NoFault; NoFault; FailBefore])).1 in
  (pd_status <$> products d !! 100) = Some 2 /\ card_price d 900 100 = Some 1500.
Proof. vm_compute. done. Qed.

(** The page number is not bounded: the product with the page size wraps around, and
    the slice expression panics. *)
Example huge_candidate_page_panics :
  candidates_page (2 ^ 62 + 1) 2 [] = None /\ candidates_page 3 2 [] = Some [].
Proof. vm_compute. done. Qed.
