(* ===== verification/ProductStock.v ===== *)
(** The stock mutations of the product service (app/product/rpc/internal/logic:
    deductLogic.go, deductRollbackLogic.go, revertstocklogic.go, stock_bucket.go,
    legacy_stock_mutation.go), which the inventory service has replaced, and the
    repair of stock at its start (internal/svc/serviceContext.go). *)

From S2P Require Import Prelude Effects Sql Shards GoText AuthSQL ProductStore ProductCards.

(** [DeductReq] and [RevertStockReq]. *)
Record DeductReq := mkDeductReq { Id : Z; Num : Z; OrderId : string }.

Definition requireLegacyStockMutation (enabled : bool) : res error unit :=
  if enabled then Ok tt
  else Err (StatusError FailedPrecondition "legacy product stock mutation is disabled; use inventory-kitex").

Definition stockBucketCount (configured : Z) : Z := if configured <=? 0 then 1 else configured.

Definition stockBucketIndex (orderId : string) (bucketCount : Z) : Z :=
  if bucketCount <=? 1 then 0 else ChecksumIEEE orderId mod (bucketCount mod 2 ^ 32).

(** The remainder goes to the first bucket. *)
Definition splitStockIntoBuckets (total bucketCount : Z) : list Z :=
  let total := if total <? 0 then 0 else total in
  let bucketCount := if bucketCount <=? 0 then 1 else bucketCount in
  map (fun i => total / bucketCount + (if (i =? 0)%nat then total mod bucketCount else 0)) (seq 0 (Z.to_nat bucketCount)).

Definition stockDeductBucketLogType (bucketIdx : Z) : string := "DEDUCT_BUCKET_" +:+ itoa bucketIdx.

(** An empty order id is replaced by the product id. *)
Definition order_or_product (req : DeductReq) : string :=
  if is_empty (OrderId req) then itoa (Id req) else OrderId req.

Section mutations.
Context {X : Type}.
Abbreviation M := (M PDB X error).

Definition product_buckets (id : Z) (d : PDB) : list ((Z * Z) * BucketRow) :=
  select_all (fun k _ => k.1 =? id) (buckets d).

Definition bucket_total (id : Z) (d : PDB) : Z := map_sumZ (fun k b => if k.1 =? id then bk_stock b else 0) (buckets d).

Definition insert_bucket (id bucketIdx stock : Z) (d : PDB) : PDB * bool :=
  match buckets d !! (id, bucketIdx) with
  | Some _ => (d, false)
  | None => (with_buckets (<[(id, bucketIdx) := mkBucket stock 0]> (buckets d)) d, true)
  end.

Fixpoint insert_buckets (id bucketIdx : Z) (values : list Z) : M unit :=
  match values with
  | [] => ret tt
  | value :: values =>
      inserted <- sql (insert_bucket id bucketIdx value) DbError ;;
      require inserted DbError ;;;
      insert_buckets id (bucketIdx + 1) values
  end.

Definition ensureProductStockBucketsFromSnapshotTx (id bucketCount : Z) : M unit :=
  rows <- query (fun d => length (product_buckets id d)) ;;
  if (0 <? rows)%nat then ret tt else
  total <- query (fun d => pd_stock <$> products d !! id) ;;
  match total with
  | None => throw (StatusError NotFound "product not found")
  | Some total => insert_buckets id 0 (splitStockIntoBuckets total (stockBucketCount bucketCount))
  end.

(** The product's stock becomes that of its buckets. *)
Definition sync_stock (id : Z) (d : PDB) : PDB * unit :=
  (with_products (upd (at_key id (fun _ => true))
     (fun p => mkProduct (pd_merchant p) (pd_name p) (pd_image p) (bucket_total id d) (pd_version p + 1)
                 (pd_origin_price p) (pd_sale_price p) (pd_status p) (pd_supplier p) (pd_created p))
     (products d)) d, tt).

Definition syncProductStockSnapshotTx (id : Z) : M unit := sql (sync_stock id) DbError.

(** The preferred bucket when it holds enough, else the first that does. *)
Definition deductible (id amount preferred : Z) (d : PDB) : option Z :=
  let enough := sorting.merge_sort Z.le (map (fun kb => kb.1.2)
    (filter (fun kb => amount <= bk_stock kb.2) (product_buckets id d))) in
  if bool_decide (preferred ∈ enough) then Some preferred else head enough.

Definition lockDeductibleStockBucket (id amount preferred : Z) : M Z :=
  bucketIdx <- query (deductible id amount preferred) ;;
  match bucketIdx with
  | Some bucketIdx => ret bucketIdx
  | None =>
      exists_ <- query (fun d => negb (bool_decide (product_buckets id d = []))) ;;
      if negb exists_ then throw (StatusError NotFound "stock bucket not found")
      else throw (StatusError Aborted "stock insufficient")
  end.

Definition take_stock (id bucketIdx amount : Z) (d : PDB) : PDB * unit :=
  (with_buckets (upd (at_key (id, bucketIdx) (fun b => amount <=? bk_stock b))
     (fun b => mkBucket (bk_stock b - amount) (bk_version b + 1)) (buckets d)) d, tt).

Definition insert_ignore_log (orderId type : string) (d : PDB) : PDB * unit :=
  (if bool_decide ((orderId, type) ∈ stock_log d) then d else with_stock_log (stock_log d ++ [(orderId, type)]) d, tt).

Definition insert_log (orderId type : string) (d : PDB) : PDB * bool :=
  if bool_decide ((orderId, type) ∈ stock_log d) then (d, false)
  else (with_stock_log (stock_log d ++ [(orderId, type)]) d, true).

Definition deduct_body (bucketCount : Z) (req : DeductReq) : M unit :=
  let bucketIdx := stockBucketIndex (order_or_product req) bucketCount in
  ensureProductStockBucketsFromSnapshotTx (Id req) bucketCount ;;;
  actualBucketIdx <- lockDeductibleStockBucket (Id req) (Num req) bucketIdx ;;
  sql (take_stock (Id req) actualBucketIdx (Num req)) DbError ;;;
  sql (insert_ignore_log (order_or_product req) (stockDeductBucketLogType actualBucketIdx)) DbError ;;;
  syncProductStockSnapshotTx (Id req).

(** [BarrierFromGrpc] and [barrier.CallWithDB]: without a barrier in the request the
    call fails; the barrier's transaction runs the branch unless it has run before. *)
Definition in_barrier (barrier : option bool) (body : M unit) : M unit :=
  match barrier with
  | None => throw (StatusError Internal "DTM barrier not found")
  | Some runs => run_tx DbError ((if runs then body else ret tt) ;;; ret (Commit DbError tt))
  end.

Definition Deduct (enabled : bool) (barrier : option bool) (configured : Z) (req : DeductReq) : M unit :=
  of_res (requireLegacyStockMutation enabled) ;;;
  in_barrier barrier (deduct_body (stockBucketCount configured) req).

(** The bucket of the last logged deduction of the order; errors count as none. *)
Definition deductBucketFromStockLog (orderId : string) : M (option Z) :=
  logType <- attempt (query (fun d => last (filter (fun row => row.1 = orderId /\ SQLStore.LIKE row.2 "DEDUCT_BUCKET_%" = true)
                                              (stock_log d)))) ;;
  ret (match logType with
       | Ok (Some row) => ParseInt (trim_prefix row.2 "DEDUCT_BUCKET_")
       | _ => None
       end).

(** [INSERT ... ON DUPLICATE KEY UPDATE stock = stock + VALUES(stock)]. *)
Definition give_stock (id bucketIdx amount : Z) (d : PDB) : PDB * unit :=
  (with_buckets (<[(id, bucketIdx) :=
     match buckets d !! (id, bucketIdx) with
     | Some b => mkBucket (bk_stock b + amount) (bk_version b + 1)
     | None => mkBucket amount 0
     end]> (buckets d)) d, tt).

Definition rollback_body (bucketCount : Z) (req : DeductReq) : M unit :=
  let bucketIdx := stockBucketIndex (order_or_product req) bucketCount in
  logged <- deductBucketFromStockLog (order_or_product req) ;;
  sql (give_stock (Id req) (default bucketIdx logged) (Num req)) DbError ;;;
  syncProductStockSnapshotTx (Id req).

Definition DeductRollback (enabled : bool) (barrier : option bool) (configured : Z) (req : DeductReq) : M unit :=
  of_res (requireLegacyStockMutation enabled) ;;;
  in_barrier barrier (rollback_body (stockBucketCount configured) req).

Definition revert_body (bucketCount : Z) (req : DeductReq) : M (txend error unit) :=
  let bucketIdx := stockBucketIndex (order_or_product req) bucketCount in
  inserted <- sql (insert_log (order_or_product req) "REVERT") DbError ;;
  if negb inserted then ret (Rollback tt) else
  sql (give_stock (Id req) bucketIdx (Num req)) DbError ;;;
  syncProductStockSnapshotTx (Id req) ;;;
  ret (Commit DbError tt).

Definition RevertStock (enabled : bool) (configured : Z) (req : DeductReq) : M unit :=
  of_res (requireLegacyStockMutation enabled) ;;;
  run_tx DbError (revert_body (stockBucketCount configured) req).

(** * Repair at the start *)

(** [ON DUPLICATE KEY UPDATE stock = VALUES(stock)]. *)
Definition put_bucket (id bucketIdx stock : Z) (d : PDB) : PDB * unit :=
  (with_buckets (<[(id, bucketIdx) := mkBucket stock
     match buckets d !! (id, bucketIdx) with Some b => bk_version b | None => 0 end]> (buckets d)) d, tt).

Fixpoint put_buckets (id bucketIdx : Z) (values : list Z) : M unit :=
  match values with
  | [] => ret tt
  | value :: values => sql (put_bucket id bucketIdx value) DbError ;;; put_buckets id (bucketIdx + 1) values
  end.

Definition insertProductStockBuckets (id total bucketCount : Z) : M unit :=
  put_buckets id 0 (splitStockIntoBuckets total bucketCount).

Definition unbucketed (d : PDB) : list (Z * Z) :=
  map (fun kp => (kp.1, pd_stock kp.2)) (filter (fun kp => product_buckets kp.1 d = []) (ordered (products d))).

(** [UPDATE product JOIN (sums of the buckets) SET stock = stock_total]. *)
Definition repair_snapshots (d : PDB) : PDB * unit :=
  (with_products (map_imap (fun id p => Some
     (if bool_decide (product_buckets id d = []) then p
      else mkProduct (pd_merchant p) (pd_name p) (pd_image p) (bucket_total id d) (pd_version p)
             (pd_origin_price p) (pd_sale_price p) (pd_status p) (pd_supplier p) (pd_created p))) (products d)) d, tt).

Definition repairProductStockState (bucketCount : Z) : M unit :=
  let bucketCount := if bucketCount <=? 0 then 1 else bucketCount in
  found <- attempt (query unbucketed) ;;
  match found with
  | Err _ => ret tt
  | Ok rows =>
      for_each (fun row => ignore (insertProductStockBuckets row.1 row.2 bucketCount)) rows ;;;
      ignore (sql repair_snapshots DbError)
  end.
End mutations.

(** * What it keeps, and where it goes wrong

    The stock mutations of the product service keep the stock of a product equal to
    the sum of its buckets, and no bucket negative; and where they go wrong. *)

(** * The invariant *)

Definition buckets_nonneg (d : PDB) : Prop := forall k b, buckets d !! k = Some b -> 0 <= bk_stock b.

Definition synced (id : Z) (d : PDB) : Prop :=
  forall p, products d !! id = Some p -> product_buckets id d <> [] -> pd_stock p = bucket_total id d.

(** In step but for one product, in the middle of its transaction. *)
Definition synced_but (id : Z) (d : PDB) : Prop := buckets_nonneg d /\ forall id', id' <> id -> synced id' d.

Definition stock_synced (d : PDB) : Prop := buckets_nonneg d /\ forall id, synced id d.

Lemma stock_synced_but id d : stock_synced d -> synced_but id d.
Proof. intros [H1 H2]. split; auto. Qed.

Lemma elem_of_product_buckets id d k b :
  (k, b) ∈ product_buckets id d <-> buckets d !! k = Some b /\ k.1 = id.
Proof. unfold product_buckets. rewrite elem_of_select_all. by rewrite Z.eqb_eq. Qed.

Lemma product_buckets_nil id d : product_buckets id d = [] <-> forall k b, buckets d !! k = Some b -> k.1 <> id.
Proof.
  split.
  - intros Hn k b Hk Hid. assert ((k, b) ∈ product_buckets id d) as Hin by (by apply elem_of_product_buckets).
    rewrite Hn in Hin. by apply elem_of_nil in Hin.
  - intros Hall. destruct (product_buckets id d) as [|[k b] l] eqn:Hl; [done|]. exfalso.
    assert ((k, b) ∈ product_buckets id d) as [Hk Hid]%elem_of_product_buckets by (rewrite Hl; by left). by eapply Hall.
Qed.

(** Another product sees nothing of a change of this product's bucket. *)
Lemma other_bucket id id' i b d :
  id' <> id ->
  bucket_total id' (with_buckets (<[(id, i) := b]> (buckets d)) d) = bucket_total id' d /\
  (product_buckets id' (with_buckets (<[(id, i) := b]> (buckets d)) d) <> [] -> product_buckets id' d <> []).
Proof.
  intros Hne. split.
  - unfold bucket_total. simpl. destruct (buckets d !! (id, i)) as [b0|] eqn:Hb.
    + erewrite map_sumZ_update by done. simpl. destruct (Z.eqb_spec id id'); [congruence|lia].
    + rewrite map_sumZ_insert by done. simpl. destruct (Z.eqb_spec id id'); [congruence|lia].
  - rewrite !product_buckets_nil. intros Hn Hall. apply Hn. intros k b'. simpl. rewrite lookup_insert_Some.
    intros [[<- _]|[_ Hl]]; [simpl; congruence|by eapply Hall].
Qed.

Lemma set_bucket_but id i b d : 0 <= bk_stock b -> synced_but id d -> synced_but id (with_buckets (<[(id, i) := b]> (buckets d)) d).
Proof.
  intros Hb [Hn Hs]. split.
  - intros k b'. simpl. rewrite lookup_insert_Some. intros [[_ <-]|[_ Hl]]; [done|by eapply Hn].
  - intros id' Hne p Hp Hbk. simpl in Hp. destruct (other_bucket id id' i b d Hne) as [-> Hbk']. apply Hs; auto.
Qed.

(** The last statement of each transaction puts the product in step again. *)
Lemma sync_stock_synced id d : synced_but id d -> stock_synced (sync_stock id d).1.
Proof.
  intros [Hn Hs]. split; [done|]. intros id' p Hp Hbk. unfold sync_stock in Hp. simpl in Hp.
  rewrite upd_at_key in Hp. destruct (products d !! id) as [q|] eqn:Hq; simpl in Hp.
  - apply lookup_insert_Some in Hp as [[<- <-]|[Hne Hp]]; [done|]. by apply (Hs id'); [congruence|..].
  - destruct (decide (id' = id)) as [->|Hne]; [congruence|by apply (Hs id')].
Qed.

Section mutations.
Context {X : Type}.
Implicit Types s : env PDB X.

Lemma insert_buckets_but id i values : Forall (fun v => 0 <= v) values -> preserves (X := X) (synced_but id) (insert_buckets id i values).
Proof.
  intros Hv. revert i. induction Hv as [|v values Hv _ IH]; intros i; simpl; [apply preserves_ret|].
  apply preserves_bind; [|intros; apply preserves_bind; [apply preserves_require|intros; apply IH]].
  apply preserves_sql. intros d Hd. unfold insert_bucket. destruct (buckets d !! (id, i)); [done|]. by apply set_bucket_but.
Qed.

Lemma split_nonneg total n : Forall (fun v => 0 <= v) (splitStockIntoBuckets total n).
Proof.
  unfold splitStockIntoBuckets. apply Forall_forall. intros v (i&->&_)%list_elem_of_fmap.
  destruct (Z.ltb_spec total 0), (Z.leb_spec n 0), (i =? 0)%nat;
    repeat match goal with |- context [?a / ?b] => pose proof (Z.div_pos a b); generalize dependent (a / b); intros end;
    repeat match goal with |- context [?a mod ?b] => pose proof (Z.mod_pos_bound a b); generalize dependent (a mod b); intros end; lia.
Qed.

Lemma ensure_but id n : preserves (X := X) (synced_but id) (ensureProductStockBucketsFromSnapshotTx id n).
Proof.
  unfold ensureProductStockBucketsFromSnapshotTx. preserve; try apply preserves_query.
  apply insert_buckets_but, split_nonneg.
Qed.

Lemma take_stock_but id i amount d : synced_but id d -> synced_but id (take_stock id i amount d).1.
Proof.
  intros Hd. unfold take_stock. simpl. rewrite upd_at_key. destruct (buckets d !! (id, i)) as [b|] eqn:Hb; [|by destruct d].
  destruct (Z.leb_spec amount (bk_stock b)); [|by destruct d]. apply set_bucket_but; [simpl; lia|done].
Qed.

Lemma give_stock_but id i amount d : 0 <= amount -> synced_but id d -> synced_but id (give_stock id i amount d).1.
Proof.
  intros Ha Hd. apply set_bucket_but; [|done]. destruct (buckets d !! (id, i)) as [b|] eqn:Hb; simpl; [|done].
  pose proof (proj1 Hd _ _ Hb). lia.
Qed.

Lemma log_but (id : Z) (l : list (string * string)) d : synced_but id d -> synced_but id (with_stock_log l d).
Proof. done. Qed.

(** A computation that puts the product in step before it returns a result of [Q]. *)
Definition settles {A} (id : Z) (Q : A -> Prop) (m : M PDB X error A) : Prop :=
  forall s s' a, synced_but id (db s) -> m s = (s', Ok a) -> Q a -> stock_synced (db s').

Lemma settles_bind {A B} id Q (m : M PDB X error A) (f : A -> M PDB X error B) :
  preserves (synced_but id) m -> (forall a, settles id Q (f a)) -> settles id Q (bind m f).
Proof.
  intros Hm Hf s s' b Hs. unfold bind. specialize (Hm s Hs). destruct (m s) as [s1 [a|e]]; [|done]. by apply Hf.
Qed.

Lemma settles_then {A B} id Q (m : M PDB X error A) (f : A -> M PDB X error B) :
  settles id (fun _ => True) m -> (forall a, preserves stock_synced (f a)) -> settles id Q (bind m f).
Proof.
  intros Hm Hf s s' b Hs. unfold bind. specialize (Hm s). destruct (m s) as [s1 [a|e]]; [|done].
  intros Hb _. specialize (Hm s1 a Hs eq_refl I). specialize (Hf a s1 Hm). by rewrite Hb in Hf.
Qed.

Lemma settles_sync id Q : settles id Q (syncProductStockSnapshotTx id).
Proof.
  intros s s' a Hs. unfold syncProductStockSnapshotTx, sql. pose proof (db_pop_fault s) as Hd.
  destruct (pop_fault s) as [[] s2]; simpl in *; [|done..]. intros [= <- <-] _. simpl. rewrite Hd. by apply sync_stock_synced.
Qed.

Lemma settles_never {A} id (Q : A -> Prop) a : ~ Q a -> settles id Q (ret a).
Proof. by intros Hq s s' a' _ [= _ <-]. Qed.

Lemma settled_tx {A} id (body : M PDB X error (txend error A)) :
  settles id (fun t => exists e a, t = Commit e a) body -> preserves stock_synced (run_tx DbError body).
Proof.
  intros Hb. apply preserves_run_tx. intros s e a Hs Hr. specialize (Hb s). destruct (body s) as [s' r]. simpl in *. subst r.
  eapply Hb; [by apply stock_synced_but|done|eauto].
Qed.

Lemma in_barrier_synced id barrier (body : M PDB X error unit) :
  settles id (fun _ => True) body -> preserves stock_synced (in_barrier barrier body).
Proof.
  intros Hb. destruct barrier as [[]|]; [|by apply preserves_run_tx_body; preserve|apply preserves_throw].
  apply (settled_tx id). apply settles_then; [done|]. intros; apply preserves_ret.
Qed.

Lemma Deduct_synced enabled barrier n req : preserves (X := X) stock_synced (Deduct enabled barrier n req).
Proof.
  apply preserves_bind; [apply preserves_of_res|]. intros []. apply (in_barrier_synced (Id req)). unfold deduct_body.
  apply settles_bind; [apply ensure_but|]. intros _.
  apply settles_bind; [unfold lockDeductibleStockBucket; preserve; apply preserves_query|]. intros i.
  apply settles_bind; [apply preserves_sql; intros d; apply take_stock_but|]. intros _.
  apply settles_bind; [|intros _; apply settles_sync].
  apply preserves_sql. intros d Hd. unfold insert_ignore_log. simpl. by case_bool_decide.
Qed.

Lemma DeductRollback_synced enabled barrier n req :
  0 <= Num req -> preserves (X := X) stock_synced (DeductRollback enabled barrier n req).
Proof.
  intros Hnum. apply preserves_bind; [apply preserves_of_res|]. intros []. apply (in_barrier_synced (Id req)). unfold rollback_body.
  apply settles_bind; [unfold deductBucketFromStockLog; preserve; apply preserves_query|]. intros logged.
  apply settles_bind; [apply preserves_sql; intros d; by apply give_stock_but|]. intros _. apply settles_sync.
Qed.

Lemma RevertStock_synced enabled n req : 0 <= Num req -> preserves (X := X) stock_synced (RevertStock enabled n req).
Proof.
  intros Hnum. apply preserves_bind; [apply preserves_of_res|]. intros []. apply (settled_tx (Id req)). unfold revert_body.
  apply settles_bind.
  { apply preserves_sql. intros d Hd. unfold insert_log. by case_bool_decide. }
  intros [|]; simpl; [|apply settles_never; by intros (?&?&?)].
  apply settles_bind; [apply preserves_sql; intros d; by apply give_stock_but|]. intros _.
  apply settles_then; [apply settles_sync|]. intros _. apply preserves_ret.
Qed.
End mutations.

(** * Runs *)

Inductive mutation :=
| Deducted (barrier : option bool) (req : DeductReq)
| RolledBack (barrier : option bool) (req : DeductReq)
| Reverted (req : DeductReq).

Definition mutate {X} (bucketCount : Z) (m : mutation) : M PDB X error unit :=
  match m with
  | Deducted barrier req => ignore (Deduct true barrier bucketCount req)
  | RolledBack barrier req => ignore (DeductRollback true barrier bucketCount req)
  | Reverted req => ignore (RevertStock true bucketCount req)
  end.

Definition amount_of (m : mutation) : Z :=
  match m with Deducted _ req | RolledBack _ req | Reverted req => Num req end.

(** Any sequence of deductions, rollbacks and reverts of non-negative amounts, with
    any calls failing, keeps every bucket non-negative and every product in step
    with its buckets. *)
Theorem legacy_mutations_keep_stock_synced {X} bucketCount ms (s : env PDB X) :
  Forall (fun m => 0 <= amount_of m) ms -> stock_synced (db s) ->
  stock_synced (db (for_each (mutate bucketCount) ms s).1).
Proof.
  intros Hms. apply preserves_for_each. intros m Hm. rewrite Forall_forall in Hms. specialize (Hms m Hm).
  destruct m; apply preserves_ignore; [apply Deduct_synced|by apply DeductRollback_synced|by apply RevertStock_synced].
Qed.

(** * Runs that go wrong *)

Definition two_products : PDB :=
  mkPDB {[ 1 := mkProduct 1 "a" "" 10 0 5 5 1 1 0; 2 := mkProduct 1 "b" "" 10 0 5 5 1 1 0 ]} ∅ 1 ∅ ∅ ∅ [] ∅ ∅ 1 ∅ None ∅.

Definition both_deducted : env PDB unit :=
  (for_each (mutate 2) [Deducted (Some true) (mkDeductReq 1 3 "o"); Deducted (Some true) (mkDeductReq 2 4 "o")]
     (mkEnv two_products tt 0 [])).1.

Lemma legacy_mutations_keep_stock_synced_witness :
  stock_synced two_products /\ stock_synced (db both_deducted) /\
  (fun p => pd_stock p) <$> (products (db both_deducted) !! 2) = Some 6.
Proof.
  assert (stock_synced two_products) as Hok.
  { split; [intros k b; simpl; by rewrite lookup_empty|]. intros id p _ Hb. exfalso. apply Hb.
    apply product_buckets_nil. intros k b. simpl. by rewrite lookup_empty. }
  split; [exact Hok|]. split; [|by vm_compute].
  apply (legacy_mutations_keep_stock_synced 2 [Deducted (Some true) (mkDeductReq 1 3 "o"); Deducted (Some true) (mkDeductReq 2 4 "o")]
           (mkEnv two_products tt 0 [])); [|exact Hok].
  apply Forall_forall. intros m Hm. rewrite !elem_of_cons, elem_of_nil in Hm. destruct Hm as [->|[->|[]]]; simpl; lia.
Defined.

(** The log of a reversal does not name the product: the second product of an order
    is answered as reverted, and its units are not returned. *)
Example second_product_is_not_reverted :
  let '(s1, r1) := RevertStock true 2 (mkDeductReq 1 3 "o") both_deducted in
  let '(s2, r2) := RevertStock true 2 (mkDeductReq 2 4 "o") s1 in
  r1 = Ok tt /\ r2 = Ok tt /\
  (pd_stock <$> products (db s2) !! 1) = Some 10 /\ (pd_stock <$> products (db s2) !! 2) = Some 6.
Proof. vm_compute. done. Qed.
