(* ===== verification/AuthRisk.v ===== *)
(** What the request logic of the auth service keeps besides its store
    (app/auth/api/internal): the counters of failed attempts (risk/limiter.go) and
    the log of security events (audit/events.go), each in memory or in Redis. *)

From S2P Require Import Prelude Effects Sql.

(** * Limiters

    Times and durations are in seconds. *)

Class Limiter (L : Type) := {
  Incr {X} : string -> Z -> M L X error unit;
  Blocked {X} : string -> Z -> M L X error (bool * Z);
  Reset {X} : string -> M L X error unit;
  (** The type switch of the callers on [*RedisLimiter]. *)
  is_redis_limiter : bool
}.

Definition default_minute (ttl : Z) : Z := if ttl <=? 0 then 60 else ttl.

Record limiterEntry := mkEntry { count : Z; expiresAt : Z }.

Definition modify {D X E} (f : D -> D) : M D X E unit := fun s => (set_db (f (db s)) s, Ok tt).
Definition look {D X E A} (f : D -> A) : M D X E A := fun s => (s, Ok (f (db s))).

(** ** In memory *)
Module memory.

Record MemoryLimiter := mkLimiter { counts : gmap string limiterEntry }.

Definition NewMemoryLimiter : MemoryLimiter := mkLimiter ∅.

Definition expired (t : Z) (entry : limiterEntry) : bool := expiresAt entry <? t.

Section limiter.
Context {X : Type}.
Abbreviation M := (M MemoryLimiter X error).

Definition incremented (key : string) (ttl t : Z) (l : MemoryLimiter) : MemoryLimiter :=
  let n := match counts l !! key with
           | Some entry => if expired t entry then 0 else count entry
           | None => 0
           end in
  mkLimiter (<[key := mkEntry (int64 (n + 1)) (t + ttl)]> (counts l)).

Definition Incr (key : string) (ttl : Z) : M unit :=
  if is_empty key then ret tt else
  t <- get_now ;; modify (incremented key (default_minute ttl) t).

Definition Blocked (key : string) (max : Z) : M (bool * Z) :=
  if is_empty key then ret (false, 0) else
  t <- get_now ;;
  entry <- look (fun l => counts l !! key) ;;
  match entry with
  | Some entry =>
      if expired t entry then modify (fun l => mkLimiter (delete key (counts l))) ;;; ret (false, 0)
      else ret ((max <=? count entry) && (0 <? max), count entry)
  | None => ret ((max <=? 0) && (0 <? max), 0)
  end.

Definition Reset (key : string) : M unit :=
  if is_empty key then ret tt else modify (fun l => mkLimiter (delete key (counts l))).
End limiter.
End memory.

(** ** In Redis: a number with a time to live *)
Module redis_risk.

Record RedisLimiter := mkLimiter { keys : gmap string limiterEntry }.

(** [GET]: nothing once the key has expired. *)
Definition get (key : string) (t : Z) (l : RedisLimiter) : option Z :=
  match keys l !! key with
  | Some entry => if t <? expiresAt entry then Some (count entry) else None
  | None => None
  end.

(** The pipeline of [INCRBY] and [EXPIRE]; [INCRBY] refuses to overflow. *)
Definition incremented (key : string) (ttl t : Z) (l : RedisLimiter) : RedisLimiter * bool :=
  let n := default 0 (get key t l) in
  if n =? int64_max then (l, false)
  else (mkLimiter (<[key := mkEntry (n + 1) (t + ttl)]> (keys l)), true).

Section limiter.
Context {X : Type}.
Abbreviation M := (M RedisLimiter X error).

Definition Incr (key : string) (ttl : Z) : M unit :=
  if is_empty key then ret tt else
  t <- get_now ;;
  done_ <- sql (incremented key (default_minute ttl) t) (OtherError "redis") ;;
  require done_ (OtherError "ERR increment or decrement would overflow").

Definition Blocked (key : string) (max : Z) : M (bool * Z) :=
  if is_empty key || (max <=? 0) then ret (false, 0) else
  t <- get_now ;;
  raw <- sql (fun l => (l, get key t l)) (OtherError "redis") ;;
  match raw with
  | None => ret (false, 0)
  | Some n => ret (max <=? n, n)
  end.

Definition Reset (key : string) : M unit :=
  if is_empty key then ret tt else
  sql (fun l => (mkLimiter (delete key (keys l)), tt)) (OtherError "redis").
End limiter.
End redis_risk.

#[export] Instance memory_limiter : Limiter memory.MemoryLimiter := {|
  Incr := @memory.Incr; Blocked := @memory.Blocked; Reset := @memory.Reset; is_redis_limiter := false
|}.

#[export] Instance redis_limiter : Limiter redis_risk.RedisLimiter := {|
  Incr := @redis_risk.Incr; Blocked := @redis_risk.Blocked; Reset := @redis_risk.Reset; is_redis_limiter := true
|}.

(** ** What both promise

    A key has a number of attempts and a deadline; from the deadline on (whether it
    counts itself differs) there are no attempts. *)
Class LimiterLaws (L : Type) `{Limiter L} := {
  entry_of : L -> string -> option limiterEntry;
  is_expired : Z -> limiterEntry -> bool;
  live_before t e : t < expiresAt e -> is_expired t e = false;
  expired_after t e : expiresAt e < t -> is_expired t e = true
}.

Definition attempts `{LimiterLaws L} (l : L) (t : Z) (key : string) : Z :=
  match entry_of l key with
  | Some e => if is_expired t e then 0 else count e
  | None => 0
  end.

Section laws.
Context `{LimiterLaws L}.

(** Apart from [key] nothing that matters from [t] on has changed. *)
Definition same_but (key : string) (t : Z) (l l' : L) : Prop :=
  forall k t', k <> key -> t <= t' -> attempts l' t' k = attempts l t' k.
Definition same_attempts (t : Z) (l l' : L) : Prop :=
  forall k t', t <= t' -> attempts l' t' k = attempts l t' k.

(** [key] was counted once more, until [t + ttl]. *)
Definition counted (key : string) (t ttl : Z) (l l' : L) : Prop :=
  forall t', t <= t' < t + ttl -> attempts l' t' key = attempts l t key + 1.

(** The rest of the environment; no failures come from nowhere. *)
Definition env_but {X} (s s' : env L X) : Prop := ext s' = ext s /\ now s' = now s /\ (faults s = [] -> faults s' = []).
End laws.

Class LimiterSpec (L : Type) `{LimiterLaws L} := {
  Incr_spec {X} key ttl (s : env L X) :
    let '(s', r) := Incr key ttl s in
    env_but s s' /\ same_but key (now s) (db s) (db s') /\
    (key <> "" -> in_int64 (attempts (db s) (now s) key + 1) ->
     counted key (now s) (default_minute ttl) (db s) (db s') \/
     is_ok r = false /\ same_attempts (now s) (db s) (db s'));
  Blocked_spec {X} key max (s : env L X) :
    let '(s', r) := Blocked key max s in
    env_but s s' /\ same_attempts (now s) (db s) (db s') /\
    (forall b n, r = Ok (b, n) -> key <> "" -> b = (0 <? max) && (max <=? attempts (db s) (now s) key));
  Reset_spec {X} key (s : env L X) :
    let '(s', r) := Reset key s in
    env_but s s' /\ same_but key (now s) (db s) (db s') /\
    (same_attempts (now s) (db s) (db s') \/ (forall t, now s <= t -> attempts (db s') t key = 0))
}.

#[export, refine] Instance memory_limiter_laws : LimiterLaws memory.MemoryLimiter := {|
  entry_of l key := memory.counts l !! key;
  is_expired := memory.expired
|}.
Proof.
  - intros t e Ht. unfold memory.expired. by apply Z.ltb_ge; lia.
  - intros t e Ht. unfold memory.expired. by apply Z.ltb_lt.
Defined.

#[export, refine] Instance redis_limiter_laws : LimiterLaws redis_risk.RedisLimiter := {|
  entry_of l key := redis_risk.keys l !! key;
  is_expired t e := negb (t <? expiresAt e)
|}.
Proof.
  - intros t e Ht. apply negb_false_iff. by apply Z.ltb_lt.
  - intros t e Ht. apply negb_true_iff. apply Z.ltb_ge. lia.
Defined.

Lemma memory_attempts_delete l t k key :
  attempts (memory.mkLimiter (delete key (memory.counts l))) t k =
  if decide (k = key) then 0 else attempts l t k.
Proof.
  unfold attempts. simpl. destruct (decide (k = key)) as [->|Hne].
  - by rewrite lookup_delete_eq.
  - by rewrite lookup_delete_ne.
Qed.

Lemma redis_attempts_delete l t k key :
  attempts (redis_risk.mkLimiter (delete key (redis_risk.keys l))) t k =
  if decide (k = key) then 0 else attempts l t k.
Proof.
  unfold attempts. simpl. destruct (decide (k = key)) as [->|Hne].
  - by rewrite lookup_delete_eq.
  - by rewrite lookup_delete_ne.
Qed.

Lemma redis_get_attempts l t key : default 0 (redis_risk.get key t l) = attempts l t key.
Proof.
  unfold redis_risk.get, attempts. simpl. destruct (redis_risk.keys l !! key) as [e|]; [|done].
  by destruct (t <? expiresAt e).
Qed.

Lemma attempts_same t l t' k key (e : limiterEntry) :
  memory.counts l !! key = Some e -> memory.expired t e = true -> t <= t' ->
  attempts (memory.mkLimiter (delete key (memory.counts l))) t' k = attempts l t' k.
Proof.
  intros He Hx Ht. rewrite memory_attempts_delete. destruct (decide (k = key)) as [->|]; [|done].
  unfold attempts. simpl. rewrite He. unfold memory.expired in *. apply Z.ltb_lt in Hx.
  by rewrite (proj2 (Z.ltb_lt _ _)) by lia.
Qed.

Lemma memory_Incr_spec {X} key ttl (s : env memory.MemoryLimiter X) :
  let '(s', r) := Incr key ttl s in
  env_but s s' /\ same_but key (now s) (db s) (db s') /\
  (key <> "" -> in_int64 (attempts (db s) (now s) key + 1) ->
   counted key (now s) (default_minute ttl) (db s) (db s') \/
   is_ok r = false /\ same_attempts (now s) (db s) (db s')).
Proof.
  simpl. unfold memory.Incr, bind. destruct s as [l x t fs]. destruct (is_empty key) eqn:He; simpl.
  { split_and!; try done. apply str_eqb_eq in He. by subst. }
  split; [done|]. split; [|intros _ Hmax; left].
  - intros k t' Hk _. unfold attempts. simpl. by rewrite lookup_insert_ne.
  - intros t' Ht'. unfold attempts at 1. simpl. rewrite lookup_insert_eq. unfold memory.expired at 1. simpl.
    destruct (Z.ltb_spec (t + default_minute ttl) t'); [lia|].
    unfold attempts in *. simpl in *. rewrite <- int64_id by done.
    destruct (memory.counts l !! key) as [e|]; [|done]. by destruct (memory.expired t e).
Qed.

Lemma memory_Blocked_spec {X} key max (s : env memory.MemoryLimiter X) :
  let '(s', r) := Blocked key max s in
  env_but s s' /\ same_attempts (now s) (db s) (db s') /\
  (forall b n, r = Ok (b, n) -> key <> "" -> b = (0 <? max) && (max <=? attempts (db s) (now s) key)).
Proof.
  simpl. unfold memory.Blocked, bind. destruct s as [l x t fs].
  destruct (is_empty key) eqn:Hk; simpl.
  { split_and!; try done. apply str_eqb_eq in Hk. by subst. }
  destruct (memory.counts l !! key) as [e|] eqn:He; simpl.
  - destruct (memory.expired t e) eqn:Hx; simpl; (split; [done|]; split; [|intros b n [= <- <-] _; unfold attempts; simpl; rewrite He, Hx]).
    + intros k t' Ht'. by eapply attempts_same.
    + destruct (Z.ltb_spec 0 max), (Z.leb_spec max 0); try done; lia.
    + done.
    + apply andb_comm.
  - split_and!; try done. intros b n [= <- <-] _. unfold attempts. simpl. rewrite He. apply andb_comm.
Qed.

Lemma memory_Reset_spec {X} key (s : env memory.MemoryLimiter X) :
  let '(s', r) := Reset key s in
  env_but s s' /\ same_but key (now s) (db s) (db s') /\
  (same_attempts (now s) (db s) (db s') \/ (forall t, now s <= t -> attempts (db s') t key = 0)).
Proof.
  simpl. unfold memory.Reset. destruct s as [l x t fs]. destruct (is_empty key); simpl.
  { split_and!; try done. by left. }
  split; [done|]. split; [|right].
  - intros k t' Hk _. rewrite memory_attempts_delete. by rewrite decide_False.
  - intros t' _. rewrite memory_attempts_delete. by rewrite decide_True.
Qed.

#[export] Instance memory_limiter_spec : LimiterSpec memory.MemoryLimiter := {|
  Incr_spec := @memory_Incr_spec; Blocked_spec := @memory_Blocked_spec; Reset_spec := @memory_Reset_spec
|}.

Lemma redis_incremented key ttl t l :
  let l' := (redis_risk.incremented key ttl t l).1 in
  same_but key t l l' /\ (in_int64 (attempts l t key + 1) -> counted key t ttl l l').
Proof.
  unfold redis_risk.incremented. rewrite redis_get_attempts.
  destruct (Z.eqb_spec (attempts l t key) int64_max) as [He|He]; simpl.
  { split; [done|]. intros [_ Hm]. exfalso. rewrite He in Hm. unfold int64_max in Hm. lia. }
  split.
  - intros k t' Hk _. unfold attempts. simpl. by rewrite lookup_insert_ne.
  - intros _ t' Ht'. unfold attempts at 1. simpl. rewrite lookup_insert_eq. simpl.
    by rewrite (proj2 (Z.ltb_lt t' (t + ttl))) by lia.
Qed.

Lemma redis_Incr_spec {X} key ttl (s : env redis_risk.RedisLimiter X) :
  let '(s', r) := Incr key ttl s in
  env_but s s' /\ same_but key (now s) (db s) (db s') /\
  (key <> "" -> in_int64 (attempts (db s) (now s) key + 1) ->
   counted key (now s) (default_minute ttl) (db s) (db s') \/
   is_ok r = false /\ same_attempts (now s) (db s) (db s')).
Proof.
  simpl. unfold redis_risk.Incr, bind. destruct s as [l x t fs]. destruct (is_empty key) eqn:He; simpl.
  { split_and!; try done. apply str_eqb_eq in He. by subst. }
  pose proof (redis_incremented key (default_minute ttl) t l) as [Hs Hc].
  unfold sql, pop_fault. simpl. destruct fs as [|[] fs]; simpl.
  - destruct (redis_risk.incremented _ _ _ _) as [l' []]; simpl in *; split_and!; auto; done.
  - destruct (redis_risk.incremented _ _ _ _) as [l' []]; simpl in *; split_and!; auto; done.
  - split_and!; try done. by right.
  - split_and!; auto; done.
Qed.

Lemma redis_Blocked_spec {X} key max (s : env redis_risk.RedisLimiter X) :
  let '(s', r) := Blocked key max s in
  env_but s s' /\ same_attempts (now s) (db s) (db s') /\
  (forall b n, r = Ok (b, n) -> key <> "" -> b = (0 <? max) && (max <=? attempts (db s) (now s) key)).
Proof.
  simpl. unfold redis_risk.Blocked, bind. destruct s as [l x t fs].
  destruct (is_empty key) eqn:Hk; simpl.
  { split_and!; try done. apply str_eqb_eq in Hk. by subst. }
  destruct (Z.leb_spec max 0) as [Hmax|Hmax]; simpl.
  { split_and!; try done. intros b n [= <- <-] _. by rewrite (proj2 (Z.ltb_ge _ _)). }
  rewrite <- redis_get_attempts.
  unfold sql, pop_fault. simpl. destruct fs as [|[] fs]; simpl; try done;
    (destruct (redis_risk.get key t l) as [v|]; simpl; split_and!; try done; intros b n [= <- <-] _;
     rewrite (proj2 (Z.ltb_lt 0 max)) by done; [done|]; symmetry; by apply Z.leb_gt).
Qed.

Lemma redis_Reset_spec {X} key (s : env redis_risk.RedisLimiter X) :
  let '(s', r) := Reset key s in
  env_but s s' /\ same_but key (now s) (db s) (db s') /\
  (same_attempts (now s) (db s) (db s') \/ (forall t, now s <= t -> attempts (db s') t key = 0)).
Proof.
  simpl. unfold redis_risk.Reset. destruct s as [l x t fs]. destruct (is_empty key); simpl.
  { split_and!; try done. by left. }
  assert (same_but key t l (redis_risk.mkLimiter (delete key (redis_risk.keys l))) /\
          forall t', t <= t' -> attempts (redis_risk.mkLimiter (delete key (redis_risk.keys l))) t' key = 0) as [H1 H2].
  { split.
    - intros k t' Hk _. rewrite redis_attempts_delete. by rewrite decide_False.
    - intros t' _. rewrite redis_attempts_delete. by rewrite decide_True. }
  unfold sql, pop_fault. simpl. destruct fs as [|[] fs]; simpl; split_and!; try done; auto. by left.
Qed.

#[export] Instance redis_limiter_spec : LimiterSpec redis_risk.RedisLimiter := {|
  Incr_spec := @redis_Incr_spec; Blocked_spec := @redis_Blocked_spec; Reset_spec := @redis_Reset_spec
|}.

(** * Security events *)

(** [CreatedAt] 0 is the zero time. *)
Record Event := mkEvent {
  EventType : string; Result : string; UserID : Z; IdentityValue : string; IP : string;
  UserAgent : string; CreatedAt : Z
}.

Class Recorder (R : Type) := {
  RecordEvent {X} : Event -> M R X error unit;
  ListRecent {X} : Z -> M R X error (list Event);
  is_redis_recorder : bool
}.

Definition stamped (t : Z) (e : Event) : Event :=
  if CreatedAt e =? 0
  then mkEvent (EventType e) (Result e) (UserID e) (IdentityValue e) (IP e) (UserAgent e) t
  else e.

Definition recorder_limit (limit : Z) : Z := if limit <=? 0 then 10 else limit.

(** A recorder leaves the rest of the environment alone. *)
Class RecorderSpec (R : Type) `{Recorder R} := {
  RecordEvent_faults {X} e (s : env R X) : faults s = [] -> faults (RecordEvent e s).1 = [];
  ListRecent_faults {X} n (s : env R X) : faults s = [] -> faults (ListRecent n s).1 = []
}.

Module memory_audit.
Record MemoryRecorder := mkRecorder { limit : Z; events : list Event }.

Definition NewMemoryRecorder (limit : Z) : MemoryRecorder := mkRecorder (recorder_limit limit) [].

(** The last [limit] events are kept. *)
Definition appended (e : Event) (r : MemoryRecorder) : MemoryRecorder :=
  let l := events r ++ [e] in
  mkRecorder (limit r)
    (if limit r <? Z.of_nat (length l) then drop (length l - Z.to_nat (limit r)) l else l).

Definition RecordEvent {X} (e : Event) : M MemoryRecorder X error unit :=
  t <- get_now ;; modify (appended (stamped t e)).

Definition ListRecent {X} (n : Z) : M MemoryRecorder X error (list Event) :=
  look (fun r =>
    let n := if (n <=? 0) || (Z.of_nat (length (events r)) <? n) then Z.of_nat (length (events r)) else n in
    take (Z.to_nat n) (reverse (events r))).
End memory_audit.

(** The list in Redis; its texts are read back as the events they were made from. *)
Module redis_audit.
Record RedisRecorder := mkRecorder { limit : Z; list_ : list Event }.

Definition NewRedisRecorder (limit : Z) (l : list Event) : RedisRecorder := mkRecorder (recorder_limit limit) l.

(** [LPUSH] and [LTRIM 0 limit-1] in one pipeline. *)
Definition pushed (e : Event) (r : RedisRecorder) : RedisRecorder :=
  mkRecorder (limit r) (take (Z.to_nat (limit r)) (e :: list_ r)).

Definition RecordEvent {X} (e : Event) : M RedisRecorder X error unit :=
  t <- get_now ;; sql (fun r => (pushed (stamped t e) r, tt)) (OtherError "redis").

Definition ListRecent {X} (n : Z) : M RedisRecorder X error (list Event) :=
  limit <- look limit ;;
  let n := if (n <=? 0) || (limit <? n) then limit else n in
  sql (fun r => (r, take (Z.to_nat n) (list_ r))) (OtherError "redis").
End redis_audit.

#[export] Instance memory_recorder : Recorder memory_audit.MemoryRecorder := {|
  RecordEvent := @memory_audit.RecordEvent; ListRecent := @memory_audit.ListRecent; is_redis_recorder := false
|}.
#[export] Instance redis_recorder : Recorder redis_audit.RedisRecorder := {|
  RecordEvent := @redis_audit.RecordEvent; ListRecent := @redis_audit.ListRecent; is_redis_recorder := true
|}.

#[export, refine] Instance memory_recorder_spec : RecorderSpec memory_audit.MemoryRecorder := {}.
Proof. all: by intros. Defined.
#[export, refine] Instance redis_recorder_spec : RecorderSpec redis_audit.RedisRecorder := {}.
Proof.
  all: intros X n s Hf; simpl; unfold redis_audit.RecordEvent, redis_audit.ListRecent, bind, sql, pop_fault; simpl; by rewrite Hf.
Defined.

(** The two recorders hold the same events. *)
Definition same_log (m : memory_audit.MemoryRecorder) (r : redis_audit.RedisRecorder) : Prop :=
  0 < memory_audit.limit m /\ redis_audit.limit r = memory_audit.limit m /\
  redis_audit.list_ r = reverse (memory_audit.events m) /\
  Z.of_nat (length (memory_audit.events m)) <= memory_audit.limit m.

Lemma same_log_recorded e m r :
  same_log m r -> same_log (memory_audit.appended e m) (redis_audit.pushed e r).
Proof.
  intros (Hpos&Hlim&Hl&Hlen). unfold same_log, memory_audit.appended, redis_audit.pushed. simpl.
  rewrite Hlim, Hl, length_app. simpl. destruct (Z.ltb_spec (memory_audit.limit m)
    (Z.of_nat (length (memory_audit.events m) + 1))) as [Hlt|Hge]; split_and!; try done.
  - replace (length (memory_audit.events m) + 1 - Z.to_nat (memory_audit.limit m))%nat with 1%nat by lia.
    replace (Z.to_nat (memory_audit.limit m)) with (length (memory_audit.events m)) by lia.
    destruct (memory_audit.events m) as [|x l] eqn:Hm; [simpl in Hlt; lia|]. simpl.
    rewrite drop_0, reverse_snoc, reverse_cons. f_equal.
    rewrite take_app_le by (rewrite length_reverse; lia). rewrite take_ge by (rewrite length_reverse; lia). done.
  - rewrite length_drop, length_app. simpl. lia.
  - rewrite reverse_snoc. rewrite take_ge; [done|]. simpl. rewrite length_reverse. lia.
  - rewrite length_app. simpl. lia.
Qed.

(** After the same events, without failures, both list the same. *)
Lemma recorders_agree {X} (es : list Event) n (x : X) t m r :
  same_log m r ->
  let sm := (for_each RecordEvent es (mkEnv m x t [])).1 in
  let sr := (for_each RecordEvent es (mkEnv r x t [])).1 in
  same_log (db sm) (db sr) /\
  exists l, (ListRecent n sm).2 = Ok l /\ (ListRecent n sr).2 = Ok l.
Proof.
  assert (forall es m r, same_log m r -> exists m' r', same_log m' r' /\
    for_each RecordEvent es (mkEnv m x t []) = (mkEnv m' x t [], Ok tt) /\
    for_each RecordEvent es (mkEnv r x t []) = (mkEnv r' x t [], Ok tt)) as Hrun.
  { clear. intros es. induction es as [|e es IH]; intros m r Hs; [by exists m, r|]. simpl. unfold bind. simpl.
    apply IH. by apply same_log_recorded. }
  intros Hs. destruct (Hrun es m r Hs) as (m'&r'&Hs'&->&->). simpl. split; [done|].
  destruct Hs' as (Hpos&Hlim&Hl&Hlen). eexists. split; [done|].
  unfold redis_audit.ListRecent, look, bind, sql, pop_fault. simpl. rewrite Hlim, Hl. f_equal.
  destruct (Z.leb_spec n 0); simpl; [|destruct (Z.ltb_spec (memory_audit.limit m') n),
    (Z.ltb_spec (Z.of_nat (length (memory_audit.events m'))) n)]; try lia; try done;
  rewrite !take_ge; try done; rewrite length_reverse; lia.
Qed.
