(* ===== verification/AuthRequests.v ===== *)
(** The request logic of the auth service (app/auth/api/internal/logic/auth), over
    any store, limiter and recorder; the handlers that decide something themselves
    (internal/handler/adminuserhandler.go) and the configuration
    (internal/svc/servicecontext.go). *)

From S2P Require Import Prelude Effects Sql GoText AuthData AuthRisk.

(** * Configuration (svc/servicecontext.go) *)

Record Config := mkConfig {
  Name : string; StorageMode : string; JwtAuthSecret : string; JwtExpireSeconds : Z;
  RefreshTokenTTLSeconds : Z; CodeTTLSeconds : Z; ExposeDebugCode : bool;
  LoginFailWindowSeconds : Z; LoginFailPhoneMaxAttempts : Z; LoginFailIPMaxAttempts : Z;
  CodeSendCooldownSeconds : Z; CodeSendPhoneWindowSeconds : Z; CodeSendPhoneMaxAttempts : Z;
  CodeSendIPWindowSeconds : Z; CodeSendIPMaxAttempts : Z; VerificationCodeMaxAttempts : Z;
  SecurityAuditRecentLimit : Z; SecurityAuditRetentionLimit : Z
}.

(** Nothing for a mode that panics. *)
Definition normalizeStorageMode (c : Config) : option string :=
  let mode := to_lower (trim_space (StorageMode c)) in
  if is_empty mode && is_empty (trim_space (Name c)) then Some "memory"
  else if negb (str_eqb mode "mysql") && negb (str_eqb mode "memory") then None
  else Some mode.

Definition auditRetentionLimit (c : Config) : Z :=
  let limit := if SecurityAuditRetentionLimit c <=? 0 then 200 else SecurityAuditRetentionLimit c in
  if limit <? SecurityAuditRecentLimit c then SecurityAuditRecentLimit c else limit.

Definition positive_or (n d : Z) : Z := if n <=? 0 then d else n.

(** The defaults of [NewServiceContextWithStore]; the limit of the log sees the
    defaulted number of recent events. *)
Definition with_defaults (c : Config) : Config :=
  let recent := positive_or (SecurityAuditRecentLimit c) 10 in
  let limit := if SecurityAuditRetentionLimit c <=? 0 then if 200 <? recent then recent else 200
               else SecurityAuditRetentionLimit c in
  mkConfig (Name c) (StorageMode c) (JwtAuthSecret c) (JwtExpireSeconds c)
    (positive_or (RefreshTokenTTLSeconds c) (7 * 24 * 60 * 60)) (positive_or (CodeTTLSeconds c) (5 * 60))
    (ExposeDebugCode c) (positive_or (LoginFailWindowSeconds c) (15 * 60))
    (positive_or (LoginFailPhoneMaxAttempts c) 5) (positive_or (LoginFailIPMaxAttempts c) 20)
    (positive_or (CodeSendCooldownSeconds c) 60) (positive_or (CodeSendPhoneWindowSeconds c) (10 * 60))
    (positive_or (CodeSendPhoneMaxAttempts c) 3) (positive_or (CodeSendIPWindowSeconds c) (10 * 60))
    (positive_or (CodeSendIPMaxAttempts c) 10) (positive_or (VerificationCodeMaxAttempts c) 5) recent limit.

(** * Requests and answers (types/types.go) *)

Record LoginReq := mkLoginReq {
  lr_UserId : Z; lr_Phone : string; lr_Password : string; lr_DeviceType : string;
  lr_ClientIP : string; lr_UserAgent : string
}.
Record LoginResp := mkLoginResp {
  AccessToken : string; TokenType : string; ExpiresAt : Z; UserId : Z; DisplayName : string;
  Phone : string; RefreshToken : string
}.
Record SendCodeReq := mkSendCodeReq { sc_Phone : string; sc_Scene : string; sc_ClientIP : string; sc_UserAgent : string }.
Record SendCodeResp := mkSendCodeResp { Sent : bool; sc_ExpiresAt : Z; DebugCode : string }.
Record RegisterReq := mkRegisterReq {
  rg_Phone : string; rg_Password : string; rg_Code : string; rg_DisplayName : string;
  rg_DeviceType : string; rg_ClientIP : string; rg_UserAgent : string
}.
Record LoginCodeReq := mkLoginCodeReq {
  lc_Phone : string; lc_Code : string; lc_DeviceType : string; lc_ClientIP : string; lc_UserAgent : string
}.
Record ResetPasswordReq := mkResetPasswordReq {
  rp_Phone : string; rp_Code : string; rp_NewPassword : string; rp_ClientIP : string; rp_UserAgent : string
}.
Record MeResp := mkMeResp { me_UserId : Z; me_DisplayName : string; me_Phone : string; me_Role : string }.
Record SecurityEventItem := mkItem {
  it_EventType : string; it_Result : string; it_UserId : Z; it_Subject : string; it_IP : string;
  it_UserAgent : string; it_CreatedAt : Z
}.
Record SecurityEventsRecentReq := mkRecentReq {
  rr_Limit : Z; rr_UserId : Z; rr_EventType : string; rr_Result : string; rr_Keyword : string
}.
Record AdminSecurityEventRecordReq := mkRecordReq { ar_EventType : string; ar_Result : string; ar_Subject : string }.
Record AdminUserStatusResp := mkStatusResp { as_UserId : Z; as_Status : Z; as_StatusText : string }.
Record AdminUserItem := mkUserItem {
  ui_UserId : Z; ui_DisplayName : string; ui_Phone : string; ui_Role : string; ui_Status : Z;
  ui_StatusText : string; ui_CreateTime : Z
}.

(** * The access token (tokenhelper.go)

    The claims that are signed; [SignedString] and the parser of the JWT package are
    parameters. *)
Record access_claims := mkAccess {
  ac_user_id : Z; ac_sub : string; ac_sid : string; ac_session_version : Z; ac_role : string;
  ac_iat : Z; ac_exp : Z
}.

Class JWT := { SignedString : string -> access_claims -> option string }.

(** A claim in the context of a request. *)
Inductive claim := ClaimInt (n : Z) | ClaimFloat (n : Z) | ClaimJSONNumber (text : string) | ClaimText (s : string) | ClaimNone.

Definition parseUserIDClaim (v : claim) : option Z :=
  match v with
  | ClaimInt n => Some n
  | ClaimFloat n => Some (int64 n)
  | ClaimJSONNumber text => ParseInt text
  | ClaimText s => ParseInt s
  | ClaimNone => None
  end.

Record request_ctx := mkCtx {
  cx_user_id : claim; cx_sub : claim; cx_sid : claim; cx_session_version : claim; cx_role : claim
}.

Definition claim_string (v : claim) : string := match v with ClaimText s => s | _ => "" end.

(** [user_id], else [sub]. *)
Definition subject (ctx : request_ctx) : option Z :=
  match parseUserIDClaim (cx_user_id ctx) with
  | Some id => Some id
  | None => parseUserIDClaim (cx_sub ctx)
  end.

(** * State

    The store, the limiter and the recorder, and what goroutines have still to do. *)
Inductive job := ResetRisk (key : string) | Recording (e : Event).

Record auth_state (D L R : Type) := mkState { st_store : D; st_risk : L; st_audit : R; st_jobs : list job }.
Arguments mkState {D L R} _ _ _ _.
Arguments st_store {D L R} _.
Arguments st_risk {D L R} _.
Arguments st_audit {D L R} _.
Arguments st_jobs {D L R} _.

Definition auditEventLoginCodeFail := "login_code_fail".
Definition auditEventLoginCodeSuccess := "login_code_success".
Definition auditEventLoginPasswordFail := "login_password_fail".
Definition auditEventLoginPasswordSuccess := "login_password_success".
Definition auditEventLogoutAllSuccess := "logout_all_success".
Definition auditEventLogoutSuccess := "logout_success".
Definition auditEventRefreshSuccess := "refresh_success".
Definition auditEventRegisterFail := "register_fail".
Definition auditEventRegisterSuccess := "register_success".
Definition auditEventResetPasswordFail := "reset_password_fail".
Definition auditEventResetPasswordSuccess := "reset_password_success".
Definition auditEventSendCodeBlocked := "send_code_blocked".
Definition auditEventSendCodeSuccess := "send_code_success".

Definition loginPhoneRiskKey (phone : string) : string := "auth:risk:login:phone:" +:+ phone.
Definition loginUserRiskKey (userID : Z) : string := "auth:risk:login:user:" +:+ itoa userID.
Definition loginIPRiskKey (clientIP : string) : string := "auth:risk:login:ip:" +:+ clientIP.

Definition loginAccountRiskKey (req : LoginReq) : string :=
  if negb (is_empty (lr_Phone req)) then loginPhoneRiskKey (lr_Phone req)
  else if 0 <? lr_UserId req then loginUserRiskKey (lr_UserId req)
  else "".

Definition loginFailWindow (n : Z) : Z := seconds (positive_or n 60).

Definition sendCodeCooldownKey (phone scene : string) : string :=
  "auth:risk:code:phone:" +:+ scene +:+ ":" +:+ phone +:+ ":cooldown".
Definition sendCodePhoneWindowKey (phone scene : string) : string :=
  "auth:risk:code:phone:" +:+ scene +:+ ":" +:+ phone +:+ ":window".
Definition sendCodeIPWindowKey (clientIP scene : string) : string :=
  "auth:risk:code:ip:" +:+ scene +:+ ":" +:+ clientIP.
Definition sendCodeCooldownTTL (n : Z) : Z := seconds (positive_or n 60).
Definition sendCodeWindowTTL (n : Z) : Z := seconds (positive_or n 60).

Definition adminUserStatus (status : Z) : Z := if status =? 0 then 1 else status.
Definition adminUserStatusText (status : Z) : string :=
  let status := adminUserStatus status in
  if status =? 1 then "active" else if status =? 2 then "disabled" else "unknown".
Definition adminUserStatusAuditEvent (status : Z) : string :=
  let status := adminUserStatus status in
  if status =? 1 then "admin_user_enabled" else if status =? 2 then "admin_user_disabled"
  else "admin_user_status_update_failed".

Definition adminUserItemFromStoreUser (u : User) : AdminUserItem :=
  mkUserItem (u_ID u) (u_DisplayName u) (u_Phone u) (u_Role u) (adminUserStatus (u_Status u))
    (adminUserStatusText (u_Status u)) (u_CreateTime u).

Definition auditIdentity (phone : string) (userID : Z) : string :=
  if negb (is_empty phone) then phone else if 0 <? userID then itoa userID else "".

Definition securityEventResultMatches (actual expected : string) : bool :=
  let actual := to_lower (trim_space actual) in
  let expected := to_lower (trim_space expected) in
  let failed s := str_eqb s "fail" || str_eqb s "failed" in
  str_eqb actual expected || failed actual && failed expected.

Definition securityEventKeywordMatches (item : Event) (keyword : string) : bool :=
  let value := to_lower (trim_space keyword) in
  is_empty value ||
  contains (to_lower (EventType item +:+ " " +:+ Result item +:+ " " +:+ itoa (UserID item) +:+ " " +:+
    IdentityValue item +:+ " " +:+ IP item +:+ " " +:+ UserAgent item)) value.

Definition mapSecurityEvent (item : Event) : SecurityEventItem :=
  mkItem (EventType item) (Result item) (UserID item) (IdentityValue item) (IP item) (UserAgent item) (CreatedAt item).

(** * Request logic *)

Section requests.
Context `{AuthStore D, Limiter L, Recorder R, JWT}.
Variable cfg : Config.
Abbreviation S := (auth_state D L R).
Abbreviation M := (M S auth_world error).

(** ** Calls on the parts of the state; nothing moves the clock *)

Definition store {A} (m : Effects.M D auth_world store_error A) : M (res store_error A) := fun s =>
  let '(s', r) := m (mkEnv (st_store (db s)) (ext s) (now s) (faults s)) in
  (mkEnv (mkState (db s') (st_risk (db s)) (st_audit (db s)) (st_jobs (db s))) (ext s') (now s) (faults s'), Ok r).

Definition on_part {P A} (get : S -> P) (put : P -> S -> S) (m : Effects.M P unit error A) : M (res error A) := fun s =>
  let '(s', r) := m (mkEnv (get (db s)) tt (now s) (faults s)) in
  (mkEnv (put (db s') (db s)) (ext s) (now s) (faults s'), Ok r).

Definition risk {A} (m : Effects.M L unit error A) : M (res error A) :=
  on_part st_risk (fun l s => mkState (st_store s) l (st_audit s) (st_jobs s)) m.
Definition audit {A} (m : Effects.M R unit error A) : M (res error A) :=
  on_part st_audit (fun r s => mkState (st_store s) (st_risk s) r (st_jobs s)) m.

(** [go func() { ... }()]. *)
Definition spawn (j : job) : M unit :=
  modify (fun s => mkState (st_store s) (st_risk s) (st_audit s) (st_jobs s ++ [j])).

Definition or_status {E A} (m : M (res E A)) (c : code) (message : string) : M A :=
  r <- m ;; match r with Ok a => ret a | Err _ => throw (StatusError c message) end.

(** ** Audit (audithelper.go) *)

Definition recordAuditEvent (event : Event) : M unit :=
  if is_redis_recorder (R := R) then spawn (Recording event)
  else ignore (audit (RecordEvent event)).

Definition auditUserIDByPhone (phone : string) : M Z :=
  if is_empty phone then ret 0 else
  user <- store (GetUserByPhone phone) ;;
  ret (match user with Ok user => u_ID user | Err _ => 0 end).

(** An event of a request; its time is that of its recording. *)
Definition event (type result : string) (userID : Z) (identity ip agent : string) : Event :=
  mkEvent type result userID identity ip agent 0.

(** ** Sessions *)

Definition issueLoginResp (user : User) (sessionVersion : Z) (sessionID refreshToken : string) : M LoginResp :=
  let accessTTLSeconds := if JwtExpireSeconds cfg <=? 0 then 2 * 60 * 60 else JwtExpireSeconds cfg in
  t <- get_now ;;
  let expiresAt := t + seconds accessTTLSeconds in
  match SignedString (JwtAuthSecret cfg)
          (mkAccess (u_ID user) (itoa (u_ID user)) sessionID sessionVersion (u_Role user) t expiresAt) with
  | None => throw (StatusError Internal "sign jwt failed")
  | Some accessToken =>
      ret (mkLoginResp accessToken "Bearer" expiresAt (u_ID user) (u_DisplayName user) (u_Phone user) refreshToken)
  end.

(** The end that the three ways to log in share. *)
Definition open_session (user : User) (deviceType : string) : M LoginResp :=
  created <- or_status (store (CreateSessionForDevice (u_ID user) deviceType (RefreshTokenTTLSeconds cfg)))
               Internal "create session failed" ;;
  let '(sessionID, refreshToken) := created in
  session <- or_status (store (GetActiveSession sessionID)) Internal "load session failed" ;;
  issueLoginResp user (s_SessionVersion session) sessionID refreshToken.

(** ** loginpasswordlogic.go *)

(** The keys that are checked, with their maxima. *)
Definition login_checks (req : LoginReq) : list (string * Z) :=
  (if is_empty (loginAccountRiskKey req) then [] else [(loginAccountRiskKey req, LoginFailPhoneMaxAttempts cfg)]) ++
  (if is_empty (lr_ClientIP req) then [] else [(loginIPRiskKey (lr_ClientIP req), LoginFailIPMaxAttempts cfg)]).

(** The checks run in parallel; the first error that arrives is returned. *)
Fixpoint run_checks (checks : list (string * Z)) : M (option error) :=
  match checks with
  | [] => ret None
  | (key, max) :: checks =>
      blocked <- risk (Blocked key max) ;;
      rest <- run_checks checks ;;
      ret (match blocked with
           | Err _ => Some (StatusError Internal "check login risk failed")
           | Ok (true, _) => Some (StatusError ResourceExhausted "too many login attempts, please try again later")
           | Ok (false, _) => rest
           end)
  end.

Definition checkLoginRisk (ip_first : bool) (req : LoginReq) : M unit :=
  failed <- run_checks (if ip_first then reverse (login_checks req) else login_checks req) ;;
  match failed with Some e => throw e | None => ret tt end.

Definition recordLoginFailure (req : LoginReq) : M unit :=
  (if is_empty (loginAccountRiskKey req) then ret tt
   else or_status (risk (Incr (loginAccountRiskKey req) (loginFailWindow (LoginFailWindowSeconds cfg))))
          Internal "record login risk failed") ;;;
  (if is_empty (lr_ClientIP req) then ret tt
   else or_status (risk (Incr (loginIPRiskKey (lr_ClientIP req)) (loginFailWindow (LoginFailWindowSeconds cfg))))
          Internal "record login risk failed").

Definition resetLoginRisk (req : LoginReq) : M unit :=
  if is_empty (loginAccountRiskKey req) then ret tt
  else if is_redis_limiter (L := L) then spawn (ResetRisk (loginAccountRiskKey req))
  else ignore (risk (Reset (loginAccountRiskKey req))).

Definition Login (ip_first : bool) (req : LoginReq) : M LoginResp :=
  require (negb (is_empty (lr_Password req))) (StatusError InvalidArgument "password required") ;;;
  require (negb ((lr_UserId req <=? 0) && is_empty (lr_Phone req)))
    (StatusError InvalidArgument "user_id or phone required") ;;;
  require (negb (is_empty (JwtAuthSecret cfg))) (StatusError Internal "jwt secret not configured") ;;;
  checkLoginRisk ip_first req ;;;
  user <- store (Authenticate (lr_UserId req) (lr_Phone req) (lr_Password req)) ;;
  match user with
  | Err ErrInvalidCredentials =>
      recordLoginFailure req ;;;
      userID <- auditUserIDByPhone (lr_Phone req) ;;
      recordAuditEvent (event auditEventLoginPasswordFail "fail" userID
        (auditIdentity (lr_Phone req) (lr_UserId req)) (lr_ClientIP req) (lr_UserAgent req)) ;;;
      throw (StatusError Unauthenticated "invalid credentials")
  | Err _ => throw (StatusError Internal "authenticate user failed")
  | Ok user =>
      resp <- open_session user (lr_DeviceType req) ;;
      resetLoginRisk req ;;;
      recordAuditEvent (event auditEventLoginPasswordSuccess "success" (u_ID user) (u_Phone user)
        (lr_ClientIP req) (lr_UserAgent req)) ;;;
      ret resp
  end.

(** ** sendcodelogic.go *)

Definition check_limit (key : string) (max : Z) (message : string) : M unit :=
  blocked <- or_status (risk (Blocked key max)) Internal "check code send risk failed" ;;
  if (blocked : bool * Z).1 then throw (StatusError ResourceExhausted message) else ret tt.

Definition checkSendCodeRisk (req : SendCodeReq) : M unit :=
  check_limit (sendCodeCooldownKey (sc_Phone req) (sc_Scene req)) 1 "verification code request too frequent" ;;;
  check_limit (sendCodePhoneWindowKey (sc_Phone req) (sc_Scene req)) (CodeSendPhoneMaxAttempts cfg)
    "too many verification code requests for this phone" ;;;
  if is_empty (sc_ClientIP req) then ret tt else
  check_limit (sendCodeIPWindowKey (sc_ClientIP req) (sc_Scene req)) (CodeSendIPMaxAttempts cfg)
    "too many verification code requests from this IP".

Definition recordSendCodeRisk (req : SendCodeReq) : M unit :=
  or_status (risk (Incr (sendCodeCooldownKey (sc_Phone req) (sc_Scene req))
                     (sendCodeCooldownTTL (CodeSendCooldownSeconds cfg)))) Internal "record code send risk failed" ;;;
  or_status (risk (Incr (sendCodePhoneWindowKey (sc_Phone req) (sc_Scene req))
                     (sendCodeWindowTTL (CodeSendPhoneWindowSeconds cfg)))) Internal "record code send risk failed" ;;;
  if is_empty (sc_ClientIP req) then ret tt else
  or_status (risk (Incr (sendCodeIPWindowKey (sc_ClientIP req) (sc_Scene req))
                     (sendCodeWindowTTL (CodeSendIPWindowSeconds cfg)))) Internal "record code send risk failed".

Definition Send (req : SendCodeReq) : M SendCodeResp :=
  require (negb (is_empty (sc_Phone req))) (StatusError InvalidArgument "phone required") ;;;
  require (negb (is_empty (sc_Scene req))) (StatusError InvalidArgument "scene required") ;;;
  checked <- attempt (checkSendCodeRisk req) ;;
  match checked with
  | Err e =>
      (match e with
       | StatusError ResourceExhausted _ =>
           userID <- auditUserIDByPhone (sc_Phone req) ;;
           recordAuditEvent (event auditEventSendCodeBlocked "blocked" userID (sc_Phone req)
             (sc_ClientIP req) (sc_UserAgent req))
       | _ => ret tt
       end) ;;;
      throw e
  | Ok _ =>
      issued <- or_status (store (IssueCode (sc_Phone req) (sc_Scene req) (CodeTTLSeconds cfg)))
                  Internal "issue verification code failed" ;;
      ignore (recordSendCodeRisk req) ;;;
      userID <- auditUserIDByPhone (sc_Phone req) ;;
      recordAuditEvent (event auditEventSendCodeSuccess "success" userID (sc_Phone req)
        (sc_ClientIP req) (sc_UserAgent req)) ;;;
      ret (mkSendCodeResp true (issued : string * Z).2 (if ExposeDebugCode cfg then issued.1 else ""))
  end.

(** ** logincodelogic.go, registerlogic.go, resetpasswordlogic.go *)

(** The check of a code, with what is recorded when it is wrong. *)
Definition consume_code (phone scene given : string) (on_wrong : M unit) : M unit :=
  consumed <- store (ConsumeCode phone scene given (VerificationCodeMaxAttempts cfg)) ;;
  match consumed with
  | Ok _ => ret tt
  | Err ErrInvalidCode => on_wrong ;;; throw (StatusError InvalidArgument "invalid verification code")
  | Err _ => throw (StatusError Internal "verify code failed")
  end.

Definition record_with_lookup (type phone ip agent : string) : M unit :=
  userID <- auditUserIDByPhone phone ;;
  recordAuditEvent (event type "fail" userID phone ip agent).

Definition LoginCode (req : LoginCodeReq) : M LoginResp :=
  require (negb (is_empty (lc_Phone req) || is_empty (lc_Code req)))
    (StatusError InvalidArgument "phone and code are required") ;;;
  consume_code (lc_Phone req) "login" (lc_Code req)
    (record_with_lookup auditEventLoginCodeFail (lc_Phone req) (lc_ClientIP req) (lc_UserAgent req)) ;;;
  user <- store (GetUserByPhone (lc_Phone req)) ;;
  match user with
  | Err ErrUserNotFound =>
      recordAuditEvent (event auditEventLoginCodeFail "fail" 0 (lc_Phone req) (lc_ClientIP req) (lc_UserAgent req)) ;;;
      throw (StatusError NotFound "user not found")
  | Err _ => throw (StatusError Internal "load user failed")
  | Ok user =>
      resp <- open_session user (lc_DeviceType req) ;;
      recordAuditEvent (event auditEventLoginCodeSuccess "success" (u_ID user) (u_Phone user)
        (lc_ClientIP req) (lc_UserAgent req)) ;;;
      ret resp
  end.

Definition Register (req : RegisterReq) : M LoginResp :=
  require (negb (is_empty (rg_Phone req) || is_empty (rg_Password req) || is_empty (rg_Code req)))
    (StatusError InvalidArgument "phone, password and code are required") ;;;
  consume_code (rg_Phone req) "register" (rg_Code req)
    (recordAuditEvent (event auditEventRegisterFail "fail" 0 (rg_Phone req) (rg_ClientIP req) (rg_UserAgent req))) ;;;
  user <- store (CreateUser (rg_Phone req) (rg_DisplayName req) (rg_Password req)) ;;
  match user with
  | Err ErrUserExists =>
      record_with_lookup auditEventRegisterFail (rg_Phone req) (rg_ClientIP req) (rg_UserAgent req) ;;;
      throw (StatusError AlreadyExists "phone already registered")
  | Err _ => throw (StatusError Internal "create user failed")
  | Ok user =>
      resp <- open_session user (rg_DeviceType req) ;;
      recordAuditEvent (event auditEventRegisterSuccess "success" (u_ID user) (u_Phone user)
        (rg_ClientIP req) (rg_UserAgent req)) ;;;
      ret resp
  end.

Definition ResetPassword (req : ResetPasswordReq) : M unit :=
  require (negb (is_empty (rp_Phone req) || is_empty (rp_Code req) || is_empty (rp_NewPassword req)))
    (StatusError InvalidArgument "phone, code and new_password are required") ;;;
  consume_code (rp_Phone req) "reset-password" (rp_Code req)
    (record_with_lookup auditEventResetPasswordFail (rp_Phone req) (rp_ClientIP req) (rp_UserAgent req)) ;;;
  user <- store (UpdatePassword (rp_Phone req) (rp_NewPassword req)) ;;
  match user with
  | Err ErrUserNotFound =>
      recordAuditEvent (event auditEventResetPasswordFail "fail" 0 (rp_Phone req) (rp_ClientIP req) (rp_UserAgent req)) ;;;
      throw (StatusError NotFound "user not found")
  | Err _ => throw (StatusError Internal "update password failed")
  | Ok user =>
      or_status (store (ResetCode (rp_Phone req) "reset-password")) Internal "reset verification code failed" ;;;
      recordAuditEvent (event auditEventResetPasswordSuccess "success" (u_ID user) (u_Phone user)
        (rp_ClientIP req) (rp_UserAgent req))
  end.

(** ** refreshlogic.go, logoutlogic.go, logoutalllogic.go *)

Definition token_error (e : store_error) (otherwise : string) : error :=
  match e with
  | ErrRefreshTokenInvalid => StatusError Unauthenticated "invalid refresh token"
  | ErrRefreshTokenReplayed => StatusError Unauthenticated "refresh token replayed"
  | _ => StatusError Internal otherwise
  end.

Definition Refresh (refreshToken : string) : M LoginResp :=
  require (negb (is_empty refreshToken)) (StatusError Unauthenticated "missing refresh token") ;;;
  refreshed <- store (RefreshSession refreshToken (RefreshTokenTTLSeconds cfg)) ;;
  match refreshed with
  | Err e => throw (token_error e "refresh session failed")
  | Ok (session, newRefreshToken) =>
      user <- store (GetUserByID (s_UserID session)) ;;
      match user with
      | Err ErrUserNotFound => throw (StatusError NotFound "user not found")
      | Err _ => throw (StatusError Internal "load user failed")
      | Ok user =>
          resp <- issueLoginResp user (s_SessionVersion session) (s_ID session) newRefreshToken ;;
          recordAuditEvent (event auditEventRefreshSuccess "success" (u_ID user) (u_Phone user) "" "") ;;;
          ret resp
      end
  end.

Definition Logout (ctx : request_ctx) (refreshToken : string) : M unit :=
  require (negb (is_empty refreshToken)) (StatusError Unauthenticated "missing refresh token") ;;;
  out <- store (AuthData.Logout refreshToken) ;;
  match out with
  | Err e => throw (token_error e "logout failed")
  | Ok _ =>
      match parseUserIDClaim (cx_user_id ctx) with
      | Some userID => recordAuditEvent (event auditEventLogoutSuccess "success" userID (auditIdentity "" userID) "" "")
      | None => ret tt
      end
  end.

Definition LogoutAll (ctx : request_ctx) : M unit :=
  match parseUserIDClaim (cx_user_id ctx) with
  | None => throw (StatusError Unauthenticated "missing user_id in jwt")
  | Some userID =>
      ignore (store (AuthData.LogoutAll userID)) ;;;
      recordAuditEvent (event auditEventLogoutAllSuccess "success" userID (auditIdentity "" userID) "" "")
  end.

(** ** melogic.go *)

Definition Me (ctx : request_ctx) : M MeResp :=
  match subject ctx with
  | None => throw (StatusError Unauthenticated "missing user subject in jwt")
  | Some userID =>
      let sessionID := claim_string (cx_sid ctx) in
      require (negb (is_empty sessionID)) (StatusError Unauthenticated "missing session id in jwt") ;;;
      session <- store (GetActiveSession sessionID) ;;
      match session with
      | Err ErrSessionNotFound => throw (StatusError Unauthenticated "session invalid or expired")
      | Err _ => throw (StatusError Internal "load session failed")
      | Ok session =>
          require (s_UserID session =? userID) (StatusError Unauthenticated "session invalid or expired") ;;;
          match parseUserIDClaim (cx_session_version ctx) with
          | None => throw (StatusError Unauthenticated "missing session version in jwt")
          | Some sessionVersion =>
              require (s_SessionVersion session =? sessionVersion)
                (StatusError Unauthenticated "session version mismatch") ;;;
              user <- store (GetUserByID userID) ;;
              match user with
              | Err ErrUserNotFound => throw (StatusError NotFound "user not found")
              | Err _ => throw (StatusError Internal "load user failed")
              | Ok user => ret (mkMeResp userID (u_DisplayName user) (u_Phone user) (u_Role user))
              end
          end
      end
  end.

(** ** adminuserstatuslogic.go, adminuserdetaillogic.go, adminuserlistlogic.go *)

Definition target_text (userID newStatus : Z) (reason : string) : string :=
  "target_user:" +:+ itoa userID +:+ " status:" +:+ adminUserStatusText newStatus +:+ " reason:" +:+ reason.

Definition RecordFailure (ctx : request_ctx) (userID newStatus : Z) (reason : string) : M unit :=
  match parseUserIDClaim (cx_user_id ctx) with
  | Some adminID =>
      recordAuditEvent (event (adminUserStatusAuditEvent newStatus) "fail" adminID
        (target_text userID newStatus reason) "" "")
  | None => ret tt
  end.

Definition AdminUserStatus (ctx : request_ctx) (userID newStatus : Z) : M AdminUserStatusResp :=
  if userID <=? 0 then
    RecordFailure ctx userID newStatus "invalid_user_id" ;;;
    throw (StatusError InvalidArgument "user_id is required")
  else
    user <- store (SetUserStatus userID newStatus) ;;
    match user with
    | Err ErrUserNotFound =>
        RecordFailure ctx userID newStatus "not_found" ;;; throw (StatusError NotFound "user not found")
    | Err ErrInvalidCredentials =>
        RecordFailure ctx userID newStatus "invalid_status" ;;;
        throw (StatusError InvalidArgument "status must be 1 or 2")
    | Err _ =>
        RecordFailure ctx userID newStatus "store_failed" ;;;
        throw (StatusError Internal "update user status failed")
    | Ok user =>
        match parseUserIDClaim (cx_user_id ctx) with
        | Some adminID =>
            recordAuditEvent (event (adminUserStatusAuditEvent (u_Status user)) "success" adminID
              ("target_user:" +:+ itoa (u_ID user) +:+ " phone:" +:+ u_Phone user +:+ " status:" +:+
               adminUserStatusText (u_Status user)) "" "")
        | None => ret tt
        end ;;;
        ret (mkStatusResp (u_ID user) (adminUserStatus (u_Status user)) (adminUserStatusText (u_Status user)))
    end.

Definition AdminUserDetail (userID : Z) : M AdminUserItem :=
  require (0 <? userID) (StatusError InvalidArgument "user_id is required") ;;;
  user <- store (GetUserByIDAnyStatus userID) ;;
  match user with
  | Err ErrUserNotFound => throw (StatusError NotFound "user not found")
  | Err _ => throw (StatusError Internal "get user detail failed")
  | Ok user => ret (adminUserItemFromStoreUser user)
  end.

Definition AdminUserList (ListUsers : Z -> Z -> Z -> string -> string -> Effects.M D auth_world store_error (list User * Z))
    (page pageSize statusFilter : Z) (role keyword : string) : M (list AdminUserItem * Z) :=
  let page := if page <=? 0 then 1 else page in
  let pageSize := if (pageSize <=? 0) || (100 <? pageSize) then 20 else pageSize in
  let statusFilter := if negb (statusFilter =? 1) && negb (statusFilter =? 2) then 0 else statusFilter in
  users <- or_status (store (ListUsers page pageSize statusFilter role keyword)) Internal "list users failed" ;;
  ret (map adminUserItemFromStoreUser users.1, users.2).

(** ** adminuserhandler.go *)

Inductive handler_answer (A : Type) := AdminDenied | SelfDisableConflict | Answered (a : A).

Definition isAdminRequest (ctx : request_ctx) : bool := str_eqb (claim_string (cx_role ctx)) "admin".

(** It knows fewer kinds of claims than [parseUserIDClaim]; a text that does not
    parse is 0. *)
Definition currentUserID (ctx : request_ctx) : Z :=
  match cx_user_id ctx with
  | ClaimInt n => n
  | ClaimFloat n => int64 n
  | ClaimText s => default 0 (ParseInt s)
  | ClaimJSONNumber _ | ClaimNone => 0
  end.

Definition AdminUserStatusHandler (ctx : request_ctx) (userID status : Z) : M (handler_answer AdminUserStatusResp) :=
  if negb (isAdminRequest ctx) then ret (AdminDenied _) else
  if (status =? 2) && (userID =? currentUserID ctx) then
    RecordFailure ctx userID status "self_disable_blocked" ;;;
    ret (SelfDisableConflict _)
  else resp <- AdminUserStatus ctx userID status ;; ret (Answered _ resp).

(** ** securityeventslogic.go *)

Definition recent (limit : Z) (keep : Event -> bool) (items : list Event) : list SecurityEventItem :=
  map mapSecurityEvent (take (Z.to_nat limit) (filter (fun e => keep e = true) items)).

Definition ListRecentEvents (ctx : request_ctx) : M (list SecurityEventItem) :=
  match subject ctx with
  | None => throw (StatusError Unauthenticated "missing user subject in jwt")
  | Some userID =>
      let limit := if SecurityAuditRecentLimit cfg <=? 0 then 10 else SecurityAuditRecentLimit cfg in
      items <- audit (ListRecent (int64 (limit * 5))) ;;
      match items with
      | Err e => throw e
      | Ok items => ret (recent limit (fun item => UserID item =? userID) items)
      end
  end.

Definition admin_limit (req : SecurityEventsRecentReq) : Z :=
  let limit := if rr_Limit req <=? 0
               then if SecurityAuditRecentLimit cfg <=? 0 then 20 else SecurityAuditRecentLimit cfg
               else rr_Limit req in
  if 100 <? limit then 100 else limit.

Definition event_selected (req : SecurityEventsRecentReq) (item : Event) : bool :=
  negb ((0 <? rr_UserId req) && negb (UserID item =? rr_UserId req)) &&
  negb (negb (is_empty (rr_EventType req)) && negb (str_eqb (EventType item) (rr_EventType req))) &&
  negb (negb (is_empty (rr_Result req)) && negb (securityEventResultMatches (Result item) (rr_Result req))) &&
  negb (negb (is_empty (rr_Keyword req)) && negb (securityEventKeywordMatches item (rr_Keyword req))).

Definition ListAdminRecent (req : SecurityEventsRecentReq) : M (list SecurityEventItem) :=
  let limit := admin_limit req in
  let fetchLimit := if limit * 5 <? 50 then 50 else limit * 5 in
  items <- audit (ListRecent fetchLimit) ;;
  match items with
  | Err e => throw e
  | Ok items => ret (recent limit (event_selected req) items)
  end.

Definition RecordAdmin (ctx : request_ctx) (req : AdminSecurityEventRecordReq) (ip userAgent : string) : M unit :=
  let eventType := trim_space (ar_EventType req) in
  require (negb (is_empty eventType)) (StatusError InvalidArgument "event_type is required") ;;;
  let result := to_lower (trim_space (ar_Result req)) in
  let result := if is_empty result then "success" else result in
  let result := if str_eqb result "failed" then "fail" else result in
  require (str_eqb result "success" || str_eqb result "fail")
    (StatusError InvalidArgument "result must be success or fail") ;;;
  match subject ctx with
  | None => throw (StatusError Unauthenticated "missing user subject in jwt")
  | Some adminID =>
      recordAuditEvent (event eventType result adminID (trim_space (ar_Subject req)) (trim_space ip) (trim_space userAgent))
  end.

(** ** Background work

    The [n]-th job that is still to do runs, whenever it comes to that. *)
Definition run_job (n : nat) : M unit := fun s =>
  match st_jobs (db s) !! n with
  | None => (s, Ok tt)
  | Some j =>
      let s := set_db (mkState (st_store (db s)) (st_risk (db s)) (st_audit (db s)) (delete n (st_jobs (db s)))) s in
      match j with
      | ResetRisk key => ignore (risk (Reset key)) s
      | Recording e => ignore (audit (RecordEvent e)) s
      end
  end.
End requests.
