(* ===== verification/AuthRequestRules.v ===== *)
(** Runs of the request logic of the auth service, and how often a password can be
    guessed. *)

From Stdlib Require Import Sorted.
From S2P Require Import Prelude Effects Sql GoText AuthData AuthRisk AuthRequests.

(** * Requests and runs *)

Inductive request :=
| RLogin (ip_first : bool) (req : LoginReq)
| RSend (req : SendCodeReq)
| RLoginCode (req : LoginCodeReq)
| RRegister (req : RegisterReq)
| RResetPassword (req : ResetPasswordReq)
| RRefresh (token : string)
| RLogout (ctx : request_ctx) (token : string)
| RLogoutAll (ctx : request_ctx)
| RMe (ctx : request_ctx)
| RAdminUserStatus (ctx : request_ctx) (userID status : Z)
| RAdminUserDetail (userID : Z)
| RListRecentEvents (ctx : request_ctx)
| RListAdminRecent (req : SecurityEventsRecentReq)
| RRecordAdmin (ctx : request_ctx) (req : AdminSecurityEventRecordReq) (ip agent : string)
| RBackground (n : nat).

(** What a request is answered: a session or an error, or else only whether it
    succeeded. *)
Inductive answer := SessionAnswer (r : res error LoginResp) | DoneAnswer (r : res error unit).

Section runs.
Context `{AuthStore D, Limiter L, Recorder R, JWT}.
Variable cfg : Config.
Abbreviation S := (auth_state D L R).
Abbreviation M := (M S auth_world error).

Definition session_answer (m : M LoginResp) : env S auth_world -> env S auth_world * answer := fun s =>
  let '(s', r) := m s in (s', SessionAnswer r).
Definition done_answer {A} (m : M A) : env S auth_world -> env S auth_world * answer := fun s =>
  let '(s', r) := m s in (s', DoneAnswer (match r with Ok _ => Ok tt | Err e => Err e end)).

Definition handle (r : request) : env S auth_world -> env S auth_world * answer :=
  match r with
  | RLogin ip_first req => session_answer (Login cfg ip_first req)
  | RSend req => done_answer (Send cfg req)
  | RLoginCode req => session_answer (LoginCode cfg req)
  | RRegister req => session_answer (Register cfg req)
  | RResetPassword req => done_answer (ResetPassword cfg req)
  | RRefresh token => session_answer (Refresh cfg token)
  | RLogout ctx token => done_answer (Logout ctx token)
  | RLogoutAll ctx => done_answer (LogoutAll ctx)
  | RMe ctx => done_answer (Me ctx)
  | RAdminUserStatus ctx userID status => done_answer (AdminUserStatusHandler ctx userID status)
  | RAdminUserDetail userID => done_answer (AdminUserDetail userID)
  | RListRecentEvents ctx => done_answer (ListRecentEvents cfg ctx)
  | RListAdminRecent req => done_answer (ListAdminRecent cfg req)
  | RRecordAdmin ctx req ip agent => done_answer (RecordAdmin ctx req ip agent)
  | RBackground n => done_answer (run_job n)
  end.

(** The requests are served one after another, each at its time. *)
Fixpoint serve (requests : list (Z * request)) (s : env S auth_world) : env S auth_world * list answer :=
  match requests with
  | [] => (s, [])
  | (t, r) :: requests =>
      let '(s1, a) := handle r (at_time t s) in
      let '(s2, l) := serve requests s1 in
      (s2, a :: l)
  end.

(** * Guessing a password

    The wrong guesses at the password of an account that were answered as wrong
    since its last login, or since the limit was lifted in the background. *)
Definition lifts (key : string) (s : env S auth_world) (r : request) : bool :=
  match r with
  | RBackground n => match st_jobs (db s) !! n with Some (ResetRisk k) => str_eqb k key | _ => false end
  | _ => false
  end.

Definition next_streak (key : string) (s : env S auth_world) (r : request) (a : answer) (n : Z) : Z :=
  if lifts key s r then 0 else
  match r, a with
  | RLogin _ req, SessionAnswer res =>
      if str_eqb (loginAccountRiskKey req) key then
        match res with
        | Ok _ => 0
        | Err (StatusError Unauthenticated _) => n + 1
        | Err _ => n
        end
      else n
  | _, _ => n
  end.

Fixpoint streak (key : string) (requests : list (Z * request)) (s : env S auth_world) (n : Z) : Z :=
  match requests with
  | [] => n
  | (t, r) :: requests =>
      let '(s1, a) := handle r (at_time t s) in
      streak key requests s1 (next_streak key s r a n)
  end.
End runs.

(** * What leaves a counter alone *)

Section spares.
Context `{AuthStore D, LimiterSpec L, Recorder R, JWT}.
Variable key : string.
Abbreviation S := (auth_state D L R).
Abbreviation M := (Effects.M S auth_world error).
Implicit Types s : env S auth_world.

Definition count_of (t : Z) s : Z := attempts (st_risk (db s)) t key.

(** Neither the clock nor the attempts at [key], from now on, are changed. *)
Definition kept s s' : Prop := now s' = now s /\ forall t, now s <= t -> count_of t s' = count_of t s.
Definition spares {A} (m : M A) : Prop := forall s, kept s (m s).1.

Lemma kept_refl s : kept s s.
Proof. done. Qed.

Lemma kept_trans s1 s2 s3 : kept s1 s2 -> kept s2 s3 -> kept s1 s3.
Proof. intros [Ha Ka] [Hb Kb]. split; [congruence|]. intros t Ht. rewrite Kb by lia. by apply Ka. Qed.

Lemma spares_ret {A} (a : A) : spares (ret a).
Proof. by intros s. Qed.
Lemma spares_throw {A} (e : error) : spares (throw (A := A) e).
Proof. by intros s. Qed.
Lemma spares_require b (e : error) : spares (require b e).
Proof. by destruct b; intros s. Qed.
Lemma spares_get_now : spares get_now.
Proof. by intros s. Qed.

Lemma spares_bind {A B} (m : M A) (f : A -> M B) : spares m -> (forall a, spares (f a)) -> spares (bind m f).
Proof.
  intros Hm Hf s. specialize (Hm s). unfold bind. destruct (m s) as [s' [a|e]]; simpl in *; [|done].
  eapply kept_trans; [done|apply Hf].
Qed.

Lemma spares_ignore {A} (m : M A) : spares m -> spares (ignore m).
Proof. intros Hm s. specialize (Hm s). unfold ignore. by destruct (m s). Qed.
Lemma spares_attempt {A} (m : M A) : spares m -> spares (attempt m).
Proof. intros Hm s. specialize (Hm s). unfold attempt. by destruct (m s). Qed.

Lemma spares_or_status {E A} (m : M (res E A)) c message : spares m -> spares (or_status m c message).
Proof. intros Hm. apply spares_bind; [done|]. intros [a|e]; [apply spares_ret|apply spares_throw]. Qed.

Lemma spares_store {A} (m : Effects.M D auth_world store_error A) : spares (store m).
Proof. intros s. unfold store. by destruct (m _) as [s' r]. Qed.
Lemma spares_audit {A} (m : Effects.M R unit error A) : spares (audit m).
Proof. intros s. unfold audit, on_part. by destruct (m _) as [s' r]. Qed.
Lemma spares_spawn j : spares (spawn j).
Proof. by intros s. Qed.

Lemma spares_Blocked k max : spares (risk (Blocked k max)).
Proof.
  intros s. unfold risk, on_part.
  pose proof (Blocked_spec k max (mkEnv (st_risk (db s)) tt (now s) (faults s))) as Hb.
  destruct (Blocked _ _ _) as [s' r]. destruct Hb as (_&Hs&_). split; [done|]. intros t Ht. by apply Hs.
Qed.

Lemma spares_Incr k ttl : k <> key -> spares (risk (Incr k ttl)).
Proof.
  intros Hne s. unfold risk, on_part.
  pose proof (Incr_spec k ttl (mkEnv (st_risk (db s)) tt (now s) (faults s))) as Hb.
  destruct (Incr _ _ _) as [s' r]. destruct Hb as (_&Hs&_). split; [done|]. intros t Ht. by apply Hs.
Qed.

Lemma spares_Reset k : k <> key -> spares (risk (Reset k)).
Proof.
  intros Hne s. unfold risk, on_part.
  pose proof (Reset_spec k (mkEnv (st_risk (db s)) tt (now s) (faults s))) as Hb.
  destruct (Reset _ _) as [s' r]. destruct Hb as (_&Hs&_). split; [done|]. intros t Ht. by apply Hs.
Qed.
End spares.

Create HintDb spares.
#[export] Hint Resolve spares_ret spares_throw spares_require spares_get_now spares_ignore spares_attempt
  spares_or_status spares_store spares_audit spares_spawn spares_Blocked spares_Incr spares_Reset : spares.

Ltac spare_step :=
  match goal with
  | |- spares _ (bind _ _) => apply spares_bind; [|intros ?]
  | |- spares _ (match ?x with _ => _ end) => destruct x
  | |- spares _ _ => first [solve [eauto with spares] | apply spares_or_status | apply spares_ignore | apply spares_attempt
                            | progress autounfold with spares]
  end.
Ltac spare := repeat spare_step.
#[export] Hint Unfold recordAuditEvent auditUserIDByPhone issueLoginResp open_session consume_code record_with_lookup
  RecordFailure check_limit : spares.

(** Keys of different kinds differ. *)
Definition account_key (k : string) : Prop := exists req, loginAccountRiskKey req = k /\ k <> "".

Lemma account_key_cases k : account_key k -> (exists phone, k = loginPhoneRiskKey phone) \/ (exists u, k = loginUserRiskKey u).
Proof.
  intros (req&<-&Hne). unfold loginAccountRiskKey in *.
  destruct (is_empty (lr_Phone req)); simpl in *; [|eauto]. destruct (0 <? lr_UserId req); [eauto|done].
Qed.

Lemma ip_key_not_account ip k : account_key k -> loginIPRiskKey ip <> k.
Proof. by intros [[phone ->]|[u ->]]%account_key_cases. Qed.

Lemma send_keys_not_account phone scene ip k : account_key k ->
  sendCodeCooldownKey phone scene <> k /\ sendCodePhoneWindowKey phone scene <> k /\ sendCodeIPWindowKey ip scene <> k.
Proof. by intros [[p ->]|[u ->]]%account_key_cases. Qed.

Section sparing.
Context `{AuthStore D, LimiterSpec L, Recorder R, JWT}.
Variable cfg : Config.
Variable key : string.
Hypothesis Hkey : account_key key.
Abbreviation S := (auth_state D L R).
Implicit Types s : env S auth_world.

Lemma spares_Send req : spares key (Send (D := D) (L := L) (R := R) cfg req).
Proof.
  destruct (send_keys_not_account (sc_Phone req) (sc_Scene req) (sc_ClientIP req) key Hkey) as (?&?&?).
  unfold Send, checkSendCodeRisk, recordSendCodeRisk. spare.
Qed.

Lemma spares_LoginCode req : spares key (LoginCode (D := D) (L := L) (R := R) cfg req).
Proof. unfold LoginCode. spare. Qed.

Lemma spares_Register req : spares key (Register (D := D) (L := L) (R := R) cfg req).
Proof. unfold Register. spare. Qed.

Lemma spares_ResetPassword req : spares key (ResetPassword (D := D) (L := L) (R := R) cfg req).
Proof. unfold ResetPassword. spare. Qed.

Lemma spares_Refresh token : spares key (Refresh (D := D) (L := L) (R := R) cfg token).
Proof. unfold Refresh. spare. Qed.

Lemma spares_Logout ctx token : spares key (Logout (D := D) (L := L) (R := R) ctx token).
Proof. unfold Logout. spare. Qed.

Lemma spares_LogoutAll ctx : spares key (LogoutAll (D := D) (L := L) (R := R) ctx).
Proof. unfold LogoutAll. spare. Qed.

Lemma spares_Me ctx : spares key (Me (D := D) (L := L) (R := R) ctx).
Proof. unfold Me. spare. Qed.

Lemma spares_AdminUserStatusHandler ctx u st : spares key (AdminUserStatusHandler (D := D) (L := L) (R := R) ctx u st).
Proof. unfold AdminUserStatusHandler, AdminUserStatus. spare. Qed.

Lemma spares_AdminUserDetail u : spares key (AdminUserDetail (D := D) (L := L) (R := R) u).
Proof. unfold AdminUserDetail. spare. Qed.

Lemma spares_ListRecentEvents ctx : spares key (ListRecentEvents (D := D) (L := L) (R := R) cfg ctx).
Proof. unfold ListRecentEvents. spare. Qed.

Lemma spares_ListAdminRecent req : spares key (ListAdminRecent (D := D) (L := L) (R := R) cfg req).
Proof. unfold ListAdminRecent. spare. Qed.

Lemma spares_RecordAdmin ctx req ip agent : spares key (RecordAdmin (D := D) (L := L) (R := R) ctx req ip agent).
Proof. unfold RecordAdmin. spare. Qed.

Lemma run_job_spares n s : (forall k, st_jobs (db s) !! n = Some (ResetRisk k) -> k <> key) -> kept key s (run_job n s).1.
Proof.
  intros Hne. unfold run_job. destruct (st_jobs (db s) !! n) as [[k|e]|] eqn:Hj; [| |apply kept_refl].
  - eapply kept_trans; [|apply spares_ignore, spares_Reset; by apply Hne]. done.
  - eapply kept_trans; [|apply spares_ignore, spares_audit]. done.
Qed.

(** Parallel checks and failures at other accounts. *)
Lemma spares_checks checks : spares key (run_checks (D := D) (L := L) (R := R) checks).
Proof. induction checks as [|[k max] checks IH]; simpl; spare. Qed.

Lemma spares_checkLoginRisk ip_first req : spares key (checkLoginRisk (D := D) (L := L) (R := R) cfg ip_first req).
Proof. unfold checkLoginRisk. apply spares_bind; [apply spares_checks|]. intros [e|]; spare. Qed.
End sparing.
#[export] Hint Resolve spares_Send spares_LoginCode spares_Register spares_ResetPassword spares_Refresh spares_Logout
  spares_LogoutAll spares_Me spares_AdminUserStatusHandler spares_AdminUserDetail spares_ListRecentEvents
  spares_ListAdminRecent spares_RecordAdmin : spares.

(** * Failed logins are counted *)

Section counting.
Context `{AuthStore D, LimiterSpec L, Recorder R, JWT}.
Variable cfg : Config.
Abbreviation S := (auth_state D L R).
Implicit Types s : env S auth_world.

Definition window : Z := default_minute (loginFailWindow (LoginFailWindowSeconds cfg)).

(** At least [n] attempts are counted from now until [T]. *)
Definition at_least (key : string) (n T : Z) s : Prop := forall t, now s <= t < T -> n <= count_of key t s.

Lemma at_least_kept key n T s s' : kept key s s' -> at_least key n T s -> at_least key n T s'.
Proof. intros [Hn Hk] Hl t Ht. rewrite Hk by lia. apply Hl. lia. Qed.

Lemma run_checks_none checks key max s :
  (run_checks (D := D) (R := R) checks s).2 = Ok None -> (key, max) ∈ checks -> key <> "" -> 0 < max ->
  count_of key (now s) s < max.
Proof.
  revert s. induction checks as [|[k m] checks IH]; intros s Hr Hin Hne Hmax; [by apply not_elem_of_nil in Hin|].
  simpl in Hr. unfold bind in Hr.
  pose proof (spares_Blocked (D := D) (R := R) key k m s) as Hk.
  unfold risk, on_part in Hr, Hk.
  pose proof (Blocked_spec k m (mkEnv (st_risk (db s)) tt (now s) (faults s))) as Hb.
  destruct (Blocked k m _) as [l' rb]. destruct Hb as (_&_&Hb). simpl in *.
  match type of Hr with context [run_checks checks ?s1] => set (s1' := s1) in * end.
  specialize (IH s1'). destruct (run_checks checks s1') as [s2 [rest|e]]; simpl in Hr; [|done].
  apply elem_of_cons in Hin as [[= -> ->]|Hin].
  - destruct rb as [[[] v]|e]; try done. specialize (Hb false v eq_refl Hne).
    rewrite (proj2 (Z.ltb_lt 0 m)) in Hb by done. symmetry in Hb. by apply Z.leb_gt in Hb.
  - destruct Hk as [Hn Hk]. rewrite <- Hk, <- Hn by (simpl; lia). apply IH; try done.
    simpl. by destruct rb as [[[] ?]|]; simplify_eq.
Qed.

Lemma check_passes ip_first req s :
  loginAccountRiskKey req <> "" -> 0 < LoginFailPhoneMaxAttempts cfg ->
  (checkLoginRisk (D := D) (R := R) cfg ip_first req s).2 = Ok tt ->
  count_of (loginAccountRiskKey req) (now s) s < LoginFailPhoneMaxAttempts cfg.
Proof.
  intros Hne Hmax Hr. unfold checkLoginRisk, bind in Hr.
  match type of Hr with context [run_checks ?l s] => set (checks := l) in *;
    assert ((loginAccountRiskKey req, LoginFailPhoneMaxAttempts cfg) ∈ checks) as Hin end.
  { unfold checks, login_checks, is_empty. rewrite (proj2 (str_eqb_neq _ _)) by done.
    destruct ip_first; [rewrite elem_of_reverse|]; apply elem_of_app; left; by apply list_elem_of_singleton. }
  pose proof (fun Hn => run_checks_none checks _ _ s Hn Hin Hne Hmax) as Hnone. destruct (run_checks checks s) as [s' [[e|]|e]]; try done.
  by apply Hnone.
Qed.

Lemma failure_is_counted req s n T :
  let key := loginAccountRiskKey req in
  key <> "" -> T <= now s + window -> in_int64 (count_of key (now s) s + 1) -> at_least key n T s ->
  let '(s', r) := recordLoginFailure (D := D) (R := R) cfg req s in
  now s' = now s /\ at_least key n T s' /\ (r = Ok tt -> at_least key (n + 1) T s').
Proof.
  intros key Hne HT Hint Hl. unfold recordLoginFailure, is_empty.
  rewrite (proj2 (str_eqb_neq _ _)) by done. fold key.
  match goal with |- context [bind _ (fun _ => ?k) s] => assert (forall s1, kept key s1 (k s1).1) as Hip end.
  { assert (spares (D := D) (R := R) key (if str_eqb (lr_ClientIP req) "" then ret tt
      else or_status (risk (Incr (loginIPRiskKey (lr_ClientIP req)) (loginFailWindow (LoginFailWindowSeconds cfg))))
             Internal "record login risk failed")) as Hs; [|by intros s1; apply Hs].
    assert (account_key key) as Hk by (by exists req). pose proof (ip_key_not_account (lr_ClientIP req) key Hk). spare. }
  unfold bind, or_status at 1. unfold bind, risk, on_part at 1.
  pose proof (Incr_spec key (loginFailWindow (LoginFailWindowSeconds cfg)) (mkEnv (st_risk (db s)) tt (now s) (faults s))) as Hi.
  fold window in Hi. destruct (Incr _ _ _) as [l' ri]. destruct Hi as (_&_&Hi).
  specialize (Hi Hne Hint). simpl in Hi.
  destruct ri as [[]|e]; simpl.
  - destruct Hi as [Hc|[? _]]; [|done].
    match goal with |- context [match ?r with (_, _) => _ end] =>
      match r with context [mkEnv ?d ?x ?t ?f] => set (s1 := mkEnv d x t f) in * end end.
    assert (at_least key (n + 1) T s1) as Hl1.
    { intros t Ht. unfold count_of. simpl in *. rewrite Hc by lia.
      assert (n <= count_of key (now s) s) as Hnow by (apply Hl; lia). unfold count_of in Hnow. simpl in *. lia. }
    specialize (Hip s1). destruct (_ s1) as [s2 r2]. simpl in Hip.
    split; [by destruct Hip as [-> _]|]. split; [|intros _].
    + intros t Ht. pose proof (at_least_kept key (n + 1) T s1 s2 Hip Hl1 t Ht). lia.
    + by eapply at_least_kept.
  - split; [done|]. split; [|done]. intros t Ht. destruct Hi as [Hc|[_ Hs]].
    + unfold count_of. simpl in *. rewrite Hc by lia.
      assert (n <= count_of key (now s) s) as Hnow by (apply Hl; lia). unfold count_of in Hnow. simpl in *. lia.
    + unfold count_of. simpl in *. rewrite Hs by lia. apply (Hl t Ht).
Qed.

(** One login at the account: what it is answered and what is counted then. *)
Definition counted_next (n : Z) (r : res error LoginResp) : Z :=
  match r with Ok _ => 0 | Err (StatusError Unauthenticated _) => n + 1 | Err _ => n end.

Definition login_counts (key : string) (n T max : Z) s (run : env S auth_world * res error LoginResp) : Prop :=
  now run.1 = now s /\ at_least key (counted_next n run.2) T run.1 /\ counted_next n run.2 <= Z.max n max.

Lemma reset_leaves req n T s : 0 <= n -> at_least (loginAccountRiskKey req) n T s ->
  let s' := (resetLoginRisk (D := D) (R := R) req s).1 in
  now s' = now s /\ at_least (loginAccountRiskKey req) 0 T s'.
Proof.
  intros Hn Hl. assert (at_least (loginAccountRiskKey req) 0 T s) as Hl0 by (intros t Ht; specialize (Hl t Ht); lia).
  unfold resetLoginRisk. destruct (is_empty _) eqn:He; [done|]. destruct is_redis_limiter; [done|].
  unfold ignore, risk, on_part.
  pose proof (Reset_spec (loginAccountRiskKey req) (mkEnv (st_risk (db s)) tt (now s) (faults s))) as Hr.
  destruct (Reset _ _) as [l' r]. destruct Hr as (_&_&Hr). simpl in *. split; [done|].
  intros t Ht. unfold count_of. simpl in *. destruct Hr as [Hr|Hr]; rewrite Hr by lia; [by apply Hl0|lia].
Qed.

(** The middle of a login keeps the counter; a generic step for its calls. *)
Lemma bind_spares {A} key n T max s s0 (m : Effects.M S auth_world error A) (f : A -> Effects.M S auth_world error LoginResp) :
  spares key m -> now s = now s0 -> at_least key n T s -> n <= Z.max n max ->
  (forall e, (m s).2 = Err e -> match e with StatusError Unauthenticated _ => False | _ => True end) ->
  (forall s1 a, m s = (s1, Ok a) -> kept key s s1 -> login_counts key n T max s0 (f a s1)) ->
  login_counts key n T max s0 (bind m f s).
Proof.
  intros Hm Hn Hl Hmax He Hf. unfold bind. specialize (Hm s). destruct (m s) as [s1 [a|e]] eqn:Hs; simpl in *.
  - by apply Hf.
  - specialize (He e eq_refl). unfold login_counts. cbn [fst snd]. destruct Hm as [Hnow Hk].
    assert (counted_next n (Err e) = n) as -> by (unfold counted_next; by destruct e as [[]| |]).
    split; [congruence|]. split; [|done]. by eapply at_least_kept.
Qed.

Definition not_unauthenticated (e : error) : Prop := match e with StatusError Unauthenticated _ => False | _ => True end.
Definition no_unauth {A} (m : Effects.M S auth_world error A) : Prop := forall s e, (m s).2 = Err e -> not_unauthenticated e.

Lemma no_unauth_ret {A} (a : A) : no_unauth (ret a).
Proof. by intros s e. Qed.
Lemma no_unauth_throw {A} e : not_unauthenticated e -> no_unauth (throw (A := A) e).
Proof. by intros He s e' [= <-]. Qed.
Lemma no_unauth_bind {A B} (m : Effects.M S auth_world error A) (f : A -> Effects.M S auth_world error B) :
  no_unauth m -> (forall a, no_unauth (f a)) -> no_unauth (bind m f).
Proof.
  intros Hm Hf s e. specialize (Hm s). unfold bind. destruct (m s) as [s' [a|e']]; simpl in *; [apply Hf|].
  intros [= <-]. by apply Hm.
Qed.
Lemma no_unauth_or_status {E A} (m : Effects.M S auth_world error (res E A)) c message :
  no_unauth m -> not_unauthenticated (StatusError c message) -> no_unauth (or_status m c message).
Proof. intros Hm Hc. apply no_unauth_bind; [done|]. intros [a|e]; [apply no_unauth_ret|by apply no_unauth_throw]. Qed.
Lemma no_unauth_store {A} (m : Effects.M D auth_world store_error A) : no_unauth (store m).
Proof. intros s e. unfold store. by destruct (m _). Qed.

Lemma no_unauth_checks ip_first req : no_unauth (checkLoginRisk (R := R) (D := D) cfg ip_first req).
Proof.
  unfold checkLoginRisk. generalize (if ip_first then reverse (login_checks cfg req) else login_checks cfg req). intros checks s e.
  assert (forall s, exists s' o, run_checks (D := D) (R := R) checks s = (s', Ok o) /\
            match o with Some e => not_unauthenticated e | None => True end) as Hc.
  { clear s. induction checks as [|[k m] checks IH]; intros s; simpl; [by eexists _, _|]. unfold bind, risk at 1, on_part at 1.
    destruct (Blocked _ _ _) as [l' r]. simpl. match goal with |- context [run_checks checks ?s1] => destruct (IH s1) as (s2&o&->&Ho) end.
    eexists _, _. split; [done|]. by destruct r as [[[] ?]|]. }
  destruct (Hc s) as (s'&o&Hs&Ho). unfold bind. rewrite Hs. destruct o as [e'|]; [|done]. by intros [= <-].
Qed.

Lemma no_unauth_open user dev : no_unauth (open_session (L := L) (R := R) cfg user dev).
Proof.
  unfold open_session. apply no_unauth_bind; [apply no_unauth_or_status; [|done]; apply no_unauth_store|].
  intros [sid tok]. apply no_unauth_bind; [apply no_unauth_or_status; [|done]; apply no_unauth_store|].
  intros x. unfold issueLoginResp. apply no_unauth_bind; [by intros ?|]. intros t.
  destruct (SignedString _ _); [apply no_unauth_ret|by apply no_unauth_throw].
Qed.

Lemma recordAuditEvent_ok e s : (recordAuditEvent (D := D) (L := L) e s).2 = Ok tt.
Proof.
  unfold recordAuditEvent. destruct is_redis_recorder; [done|]. unfold ignore, audit, on_part.
  by destruct (RecordEvent _ _).
Qed.

Lemma resetLoginRisk_ok req s : (resetLoginRisk (D := D) (R := R) req s).2 = Ok tt.
Proof.
  unfold resetLoginRisk. destruct (is_empty _); [done|]. destruct is_redis_limiter; [done|]. unfold ignore, risk, on_part.
  by destruct (Reset _ _).
Qed.

Lemma no_unauth_require b e : not_unauthenticated e -> no_unauth (require b e).
Proof. intros He. destruct b; [apply no_unauth_ret|by apply no_unauth_throw]. Qed.

Lemma no_unauth_failure req : no_unauth (recordLoginFailure (D := D) (R := R) cfg req).
Proof.
  assert (forall k ttl, no_unauth (or_status (E := error) (risk (D := D) (R := R) (Incr k ttl)) Internal "record login risk failed")) as Hi.
  { intros k ttl. apply no_unauth_or_status; [|done]. intros s e. unfold risk, on_part. by destruct (Incr _ _ _). }
  unfold recordLoginFailure. apply no_unauth_bind; [destruct (is_empty _); [apply no_unauth_ret|apply Hi]|].
  intros []. destruct (is_empty _); [apply no_unauth_ret|apply Hi].
Qed.

(** A wrong password, once the checks have passed. *)
Lemma wrong_password_counts req n T s s0 :
  let key := loginAccountRiskKey req in let max := LoginFailPhoneMaxAttempts cfg in
  key <> "" -> 0 <= n -> max <= int64_max -> now s = now s0 -> now s < T <= now s + window ->
  at_least key n T s -> count_of key (now s) s < max ->
  login_counts key n T max s0
    ((recordLoginFailure cfg req ;;;
      userID <- auditUserIDByPhone (D := D) (L := L) (R := R) (lr_Phone req) ;;
      recordAuditEvent (event auditEventLoginPasswordFail "fail" userID
        (auditIdentity (lr_Phone req) (lr_UserId req)) (lr_ClientIP req) (lr_UserAgent req)) ;;;
      throw (StatusError Unauthenticated "invalid credentials")) s).
Proof.
  intros key max Hne Hn Hmax Hnow HT Hl Hlt.
  assert (n <= count_of key (now s) s) as Hc by (apply Hl; lia).
  assert (in_int64 (count_of key (now s) s + 1)) as Hint by (unfold in_int64, int64_min, int64_max in *; lia).
  pose proof (failure_is_counted req s n T Hne ltac:(lia) Hint Hl) as Hf.
  pose proof (no_unauth_failure req s) as Hu.
  unfold bind at 1. destruct (recordLoginFailure cfg req s) as [s1 [[]|e]]; destruct Hf as (Hn1&Hl1&Hl1').
  - specialize (Hl1' eq_refl).
    match goal with |- login_counts _ _ _ _ _ (?m s1) => assert (spares key m) as Hs by spare; specialize (Hs s1);
      assert (exists s2, m s1 = (s2, Err (StatusError Unauthenticated "invalid credentials"))) as [s2 Hrun] end.
    { unfold bind. unfold auditUserIDByPhone, bind, store, ret.
      destruct (is_empty _); [|destruct (GetUserByPhone _ _)]; cbn beta iota;
        match goal with |- context [recordAuditEvent ?e ?s'] => pose proof (recordAuditEvent_ok e s') as Ha;
          destruct (recordAuditEvent e s') as [sa ra]; simpl in Ha; subst ra end; by eexists. }
    rewrite Hrun in *. unfold login_counts. cbn [fst snd counted_next].
    destruct Hs as [Hs1 Hs2]. cbn [fst] in *. split; [congruence|]. split; [|lia].
    by eapply at_least_kept.
  - specialize (Hu e eq_refl). unfold login_counts. cbn [fst snd].
    assert (counted_next n (Err e) = n) as -> by (unfold counted_next; by destruct e as [[]| |]).
    split; [congruence|]. split; [done|lia].
Qed.

(** A right password. *)
Lemma session_counts req user n T s s0 :
  let key := loginAccountRiskKey req in
  account_key key -> 0 <= n -> now s = now s0 -> at_least key n T s ->
  forall max, login_counts key n T max s0
    ((resp <- open_session cfg user (lr_DeviceType req) ;;
      resetLoginRisk (D := D) (R := R) req ;;;
      recordAuditEvent (event auditEventLoginPasswordSuccess "success" (u_ID user) (u_Phone user)
        (lr_ClientIP req) (lr_UserAgent req)) ;;;
      ret resp) s).
Proof.
  intros key Hkey Hn Hnow Hl max. apply bind_spares; [spare|done|done|lia|by intros e; apply no_unauth_open|].
  intros s1 resp _ Hk. pose proof (at_least_kept _ _ _ _ _ Hk Hl) as Hl1.
  destruct (reset_leaves req n T s1 Hn Hl1) as [Hn2 Hl2]. pose proof (resetLoginRisk_ok req s1) as Hok.
  unfold bind. destruct (resetLoginRisk req s1) as [s2 r2]. simpl in *. subst r2. destruct Hk as [Hk1 _].
  match goal with |- context [recordAuditEvent ?e s2] => pose proof (recordAuditEvent_ok e s2) as Ha;
    assert (spares (D := D) (L := L) (R := R) key (recordAuditEvent e)) as Hs by spare; specialize (Hs s2);
    destruct (recordAuditEvent e s2) as [s3 r3]; simpl in Ha; subst r3 end.
  unfold login_counts. cbn [fst snd ret counted_next]. cbn [fst] in Hs. split; [destruct Hs; congruence|]. split; [|lia].
  by eapply at_least_kept.
Qed.

Lemma Login_counts ip_first req n T s :
  let key := loginAccountRiskKey req in let max := LoginFailPhoneMaxAttempts cfg in
  account_key key -> 0 <= n -> 0 < max <= int64_max -> now s < T <= now s + window -> at_least key n T s ->
  login_counts key n T max s (Login (D := D) (R := R) cfg ip_first req s).
Proof.
  intros key max Hkey Hn Hmax HT Hl. unfold Login.
  apply bind_spares; [apply spares_require|done|done|lia|by intros e; apply no_unauth_require|]. intros s1 [] _ K1.
  pose proof (at_least_kept _ _ _ _ _ K1 Hl) as Hl1. destruct K1 as [N1 _].
  apply bind_spares; [apply spares_require|done|done|lia|by intros e; apply no_unauth_require|]. intros s2 [] _ K2.
  pose proof (at_least_kept _ _ _ _ _ K2 Hl1) as Hl2. destruct K2 as [N2 _].
  apply bind_spares; [apply spares_require|congruence|done|lia|by intros e; apply no_unauth_require|]. intros s3 [] _ K3.
  pose proof (at_least_kept _ _ _ _ _ K3 Hl2) as Hl3. destruct K3 as [N3 _].
  apply bind_spares; [apply spares_checkLoginRisk|congruence|done|lia|by intros e; apply no_unauth_checks|]. intros s4 [] Hcheck K4.
  assert (count_of key (now s4) s4 < max) as Hlt.
  { destruct K4 as [N4 C4]. rewrite N4, C4 by lia. apply (check_passes ip_first); [by destruct Hkey as (?&?&?)|lia|by rewrite Hcheck]. }
  pose proof (at_least_kept _ _ _ _ _ K4 Hl3) as Hl4. destruct K4 as [N4 _].
  apply bind_spares; [apply spares_store|congruence|done|lia|by intros e; apply no_unauth_store|]. intros s5 user _ K5.
  assert (count_of key (now s5) s5 < max) as Hlt5.
  { destruct K5 as [N5 C5]. rewrite N5, C5 by lia. done. }
  pose proof (at_least_kept _ _ _ _ _ K5 Hl4) as Hl5. destruct K5 as [N5 _].
  assert (now s5 = now s) as N by congruence.
  assert (forall s' e, now s' = now s -> at_least key n T s' -> not_unauthenticated e ->
            login_counts key n T max s (throw e s')) as Hthrow.
  { intros s' e Hn' Hl' He. unfold login_counts. cbn [fst snd throw].
    assert (counted_next n (Err e) = n) as -> by (unfold counted_next; by destruct e as [[]| |]). split_and!; [done|done|lia]. }
  destruct user as [user|[]]; try by apply Hthrow.
  - by apply session_counts.
  - apply wrong_password_counts; try done; [by destruct Hkey as (?&?&?)|lia|lia].
Qed.

Lemma spares_Login_other key ip_first req :
  account_key key -> loginAccountRiskKey req <> key -> spares key (Login (D := D) (R := R) cfg ip_first req).
Proof.
  intros Hkey Hne. pose proof (ip_key_not_account (lr_ClientIP req) key Hkey).
  pose proof (spares_checkLoginRisk (D := D) (R := R) cfg key ip_first req).
  assert (spares (D := D) (R := R) key (recordLoginFailure cfg req)) by (unfold recordLoginFailure; spare).
  assert (spares (D := D) (R := R) key (resetLoginRisk req)) by (unfold resetLoginRisk; spare).
  unfold Login. spare.
Qed.

Lemma session_answer_1 (m : Effects.M S auth_world error LoginResp) s : (session_answer m s).1 = (m s).1.
Proof. unfold session_answer. by destruct (m s). Qed.
Lemma done_answer_1 {A} (m : Effects.M S auth_world error A) s : (done_answer m s).1 = (m s).1.
Proof. unfold done_answer. by destruct (m s). Qed.

Lemma run_ResetRisk key n T k s :
  0 <= n -> st_jobs (db s) !! k = Some (ResetRisk key) -> at_least key n T s ->
  now (run_job (D := D) (R := R) k s).1 = now s /\ at_least key 0 T (run_job (D := D) (R := R) k s).1.
Proof.
  intros Hn Hj Hl. unfold run_job. rewrite Hj. unfold ignore, risk, on_part. simpl.
  pose proof (Reset_spec key (mkEnv (st_risk (db s)) tt (now s) (faults s))) as Hr.
  destruct (Reset _ _) as [l' r]. destruct Hr as (_&_&Hr). simpl in *. split; [done|].
  intros t Ht. unfold count_of. simpl in *. specialize (Hl t Ht). unfold count_of in Hl.
  destruct Hr as [Hr|Hr]; rewrite Hr; lia.
Qed.

(** Every request keeps the counter above the streak, and the streak below the
    maximum. *)
Lemma handle_counts key r n T s :
  let max := LoginFailPhoneMaxAttempts cfg in
  account_key key -> 0 <= n <= max -> 0 < max <= int64_max -> now s < T <= now s + window -> at_least key n T s ->
  let '(s', a) := handle cfg r s in
  now s' = now s /\ 0 <= next_streak key s r a n <= max /\ at_least key (next_streak key s r a n) T s'.
Proof.
  intros max Hkey Hn Hmax HT Hl.
  assert (forall A (m : Effects.M S auth_world error A), spares key m -> now (m s).1 = now s /\ 0 <= n <= max /\ at_least key n T (m s).1) as Hdone.
  { intros A m Hm. specialize (Hm s). destruct Hm as [Hnow Hk]. split_and!; [done|lia|lia|]. by eapply at_least_kept. }
  destruct r as [ip_first req| | | | | | | | | | | | | |k]; unfold handle, done_answer, session_answer.
  1: { destruct (str_eqb (loginAccountRiskKey req) key) eqn:Hk.
    - apply str_eqb_eq in Hk. pose proof (Login_counts ip_first req n T s) as Hlog. cbn zeta in Hlog. rewrite Hk in Hlog.
      specialize (Hlog Hkey (proj1 Hn) Hmax HT Hl). destruct (Login cfg ip_first req s) as [s' r].
      destruct Hlog as (Hnow&Hle&Hub). cbn [fst snd] in *. unfold next_streak, lifts. rewrite (proj2 (str_eqb_eq _ _) Hk).
      fold (counted_next n r). split_and!; [done|unfold counted_next; destruct r as [|[[]| |]]; lia|lia|done].
    - pose proof (Hdone _ _ (spares_Login_other key ip_first req Hkey (proj1 (str_eqb_neq _ _) Hk))) as Hd.
      destruct (Login cfg ip_first req s) as [s' r]. unfold next_streak, lifts. rewrite Hk. exact Hd. }
  1-13: match goal with H : forall A m, _ -> _, K : account_key _ |- context [match ?m ?s0 with (_, _) => _ end] =>
          let Hd := fresh in pose proof (H _ m ltac:(eauto with spares)) as Hd; by destruct (m s0) end.
  unfold next_streak, lifts. destruct (st_jobs (db s) !! k) as [[key'|e]|] eqn:Hj.
  2-3: assert (kept key s (run_job k s).1) as Hd by (apply run_job_spares; intros k'; rewrite Hj; congruence);
    destruct Hd as [Hnow Hk]; pose proof (at_least_kept key n T s (run_job k s).1 (conj Hnow Hk) Hl);
    destruct (run_job k s) as [s' r]; split_and!; try done; lia.
  destruct (str_eqb key' key) eqn:Hkk.
  - apply str_eqb_eq in Hkk as ->. destruct (run_ResetRisk key n T k s (proj1 Hn) Hj Hl) as [Hnow Hl0].
    destruct (run_job k s) as [s' r]. split_and!; try done; lia.
  - assert (kept key s (run_job k s).1) as Hd.
    { apply run_job_spares. intros k'. rewrite Hj. intros [= <-]. by apply str_eqb_neq. }
    destruct Hd as [Hnow Hk]. pose proof (at_least_kept key n T s (run_job k s).1 (conj Hnow Hk) Hl).
    destruct (run_job k s) as [s' r]. split_and!; try done; lia.
Qed.

Lemma streak_bounded key requests n T s :
  let max := LoginFailPhoneMaxAttempts cfg in
  account_key key -> 0 <= n <= max -> 0 < max <= int64_max ->
  Sorted Z.le (now s :: map fst requests) -> Forall (fun tr => tr.1 < T <= tr.1 + window) requests -> at_least key n T s ->
  streak cfg key requests s n <= max.
Proof.
  intros max Hkey. revert n s. induction requests as [|[t r] requests IH]; intros n s Hn Hmax Hs HT Hl; [simpl; lia|].
  apply Sorted_inv in Hs as [Hs Ht]. apply HdRel_inv in Ht. simpl in Ht.
  apply Forall_cons in HT as [HT HTs]. simpl in HT.
  assert (at_least key n T (at_time t s)) as Hl' by (intros t' Ht'; apply (Hl t'); simpl in *; lia).
  pose proof (handle_counts key r n T (at_time t s) Hkey Hn Hmax ltac:(simpl; lia) Hl') as Hstep.
  simpl. destruct (handle cfg r (at_time t s)) as [s1 a]. destruct Hstep as (Hnow&Hn1&Hl1).
  assert (next_streak key s r a n = next_streak key (at_time t s) r a n) as -> by done.
  apply IH; try done. simpl in *. by rewrite Hnow.
Qed.

(** C26 Whatever requests are served by whomever and whatever calls fail: within a
    window, at most [LoginFailPhoneMaxAttempts] wrong passwords are answered for one
    account before a right one is given, however many clients and addresses guess. *)
Theorem guessing_is_limited key requests s t0 :
  let max := LoginFailPhoneMaxAttempts cfg in
  account_key key -> 0 < max <= int64_max -> (forall t, 0 <= count_of key t s) ->
  Sorted Z.le (now s :: map fst requests) -> Forall (fun tr => t0 <= tr.1 < t0 + window) requests ->
  streak cfg key requests s 0 <= max.
Proof.
  intros max Hkey Hmax Hpos Hs HT. apply (streak_bounded key requests 0 (t0 + window)); try done; [lia| |].
  - eapply Forall_impl; [exact HT|]. intros [t r] Ht. simpl in *. lia.
  - intros t _. apply Hpos.
Qed.
End counting.
