(* ===== verification/AuthAccess.v ===== *)
(** From a login to the access check of the entry service: a token that the request
    logic of the auth service answers (app/auth/api/internal/logic/auth) is accepted by
    the validator (app/entry/api/internal/sessionstate/validator.go) until the account
    is logged out everywhere, disabled or given a new password. *)

From S2P Require Import AuthDivergence AuthSQL Prelude Effects Sql GoText AuthTokens AuthData.
From S2P Require Import AuthMemory AuthMemorySafety AuthSessions AuthRisk AuthRequests AuthRequestRules.

(** * The JWT package

    A signed token parses with its secret to its claims, from its issue until it
    expires; a number is exact up to 2^53. *)
Definition decoded (c : access_claims) : AuthDivergence.claims :=
  AuthDivergence.mkClaims (AuthDivergence.ClaimString (ac_sub c)) (AuthDivergence.ClaimNumber (ac_user_id c)) (ac_sid c)
    (AuthDivergence.ClaimNumber (ac_session_version c)).

Class JWTParser `{JWT} := {
  ParseAt : Z -> string -> string -> option AuthDivergence.claims;
  parse_signed secret c token t :
    SignedString secret c = Some token -> Z.abs (ac_session_version c) <= 2 ^ 53 ->
    ParseAt t secret token = if (ac_iat c <=? t) && (t <? ac_exp c) then Some (decoded c) else None;
  signed_text secret c token : SignedString secret c = Some token -> token <> "" /\ trim_space token = token
}.

(** * Runs without failures that leave Redis configured *)

Section calm.
Abbreviation M := (Effects.M Store auth_world store_error).
Implicit Types s : env Store auth_world.

Definition calm s : Prop := faults s = [] /\ has_state (ext s) = true.

(** A property of the environment that a computation keeps. *)
Definition stays (I : env Store auth_world -> Prop) {A} (m : M A) : Prop := forall s, I s -> I (m s).1.
Definition stays_calm {A} (m : M A) : Prop := stays calm m.

Section stays.
Variable I : env Store auth_world -> Prop.

Lemma stays_ret {A} (a : A) : stays I (ret a).
Proof. by intros s. Qed.
Lemma stays_throw {A} e : stays I (throw (A := A) e).
Proof. by intros s. Qed.
Lemma stays_bind {A B} (m : M A) (f : A -> M B) : stays I m -> (forall a, stays I (f a)) -> stays I (bind m f).
Proof.
  intros Hm Hf s Hs. specialize (Hm s Hs). unfold bind. destruct (m s) as [s' [a|e]]; simpl in *; [by apply Hf|done].
Qed.
Lemma stays_get : stays I get_store.
Proof. by intros s. Qed.
Lemma stays_now : stays I get_now.
Proof. by intros s. Qed.
Lemma stays_require b e : stays I (require b e).
Proof. by destruct b; intros s. Qed.
Lemma stays_each {A} (f : A -> M unit) l : (forall a, stays I (f a)) -> stays I (for_each f l).
Proof. intros Hf. induction l; simpl; [apply stays_ret|]. by apply stays_bind. Qed.
End stays.

Lemma stays_update f : stays calm (update_store f).
Proof. by intros s. Qed.

Lemma stays_publish (op : auth_world -> auth_world) e :
  (forall w, has_state (op w) = has_state w) -> stays calm (publish (call (fun w => (op w, Ok tt)) e)).
Proof.
  intros Hop s [Hf Hh]. unfold publish. rewrite Hh. unfold ignore, call, pop_fault. rewrite Hf. simpl.
  split; simpl; [done|]. by rewrite Hop.
Qed.

Lemma stays_save x ttl : stays calm (publish (SaveSession x ttl)).
Proof.
  intros s [Hf Hh]. unfold publish. rewrite Hh. unfold ignore, SaveSession, bind, get_now, call, pop_fault. by rewrite Hf.
Qed.

Lemma stays_rand : stays calm rand_read.
Proof. intros s Hs. unfold rand_read. destruct (random (ext s)); [done|]. by destruct Hs. Qed.
End calm.

Create HintDb calm.
#[export] Hint Resolve stays_ret stays_throw stays_get stays_now stays_update stays_require stays_save stays_rand : calm.
#[export] Hint Unfold stays_calm : calm.

Ltac calm_step :=
  match goal with
  | |- stays_calm _ => unfold stays_calm
  | |- stays _ (bind _ _) => apply stays_bind; [|intros ?]
  | |- stays _ (for_each _ _) => apply stays_each; intros ?
  | |- stays _ (match ?x with _ => _ end) => destruct x
  | |- stays calm (publish _) => apply stays_publish; by intros ?
  | |- stays _ _ => first [solve [eauto with calm] | progress autounfold with calm]
  end.
#[export] Hint Unfold syncUserVersionLocked syncSessionStateLocked deleteSessionStateLocked revokeSessionLocked
  revokeUserSessionsLocked revokeUserDeviceSessionsLocked bumpUserSessionVersionLocked SetUserVersion DeleteSession
  randomToken randomSecret use_token : calm.

Section store_calm.
Context `{Bcrypt}.

Lemma stays_GenerateFromPassword pw : stays calm (GenerateFromPassword (D := Store) pw).
Proof. unfold GenerateFromPassword. repeat calm_step. Qed.
Lemma stays_CreateSession u dev ttl : stays_calm (AuthMemory.CreateSessionForDevice u dev ttl).
Proof. unfold AuthMemory.CreateSessionForDevice. repeat calm_step. Qed.
Lemma stays_RefreshSession tok ttl : stays_calm (AuthMemory.RefreshSession tok ttl).
Proof. unfold AuthMemory.RefreshSession. repeat calm_step. Qed.
End store_calm.

(** * What is published of a session *)

Definition published (x : Session) (r : gmap string (state_value * option Z)) : Prop :=
  r !! sessionKey (s_ID x) = Some (SnapshotJSON (snapshot_of x), Some (s_ExpiresAt x)) /\
  r !! userVersionKey (s_UserID x) = Some (VersionText (s_SessionVersion x), None).

Lemma keys_differ sid u : sessionKey sid <> userVersionKey u.
Proof. done. Qed.

Section publishing.
Implicit Types s : env Store auth_world.

Lemma syncSession_publishes x s :
  calm s -> now s < s_ExpiresAt x ->
  published x (redis (ext (syncSessionStateLocked x s).1)) /\ calm (syncSessionStateLocked x s).1.
Proof.
  intros [Hf Hh] Hx. unfold syncSessionStateLocked, bind, get_now.
  destruct (Z.leb_spec (s_ExpiresAt x - now s) 0); [lia|].
  unfold publish. rewrite Hh. unfold ignore, SaveSession, bind, get_now, call, pop_fault. rewrite Hf. simpl.
  split; [|done]. unfold save_session, published. simpl. split.
  - rewrite lookup_insert_ne by (symmetry; apply keys_differ). rewrite lookup_insert_eq. do 2 f_equal. f_equal. lia.
  - by rewrite lookup_insert_eq.
Qed.
End publishing.

Section access.
Context `{Bcrypt}.
Implicit Types s : env Store auth_world.

Lemma create_publishes u dev ttl s s' sid tok :
  calm s -> 0 < seconds (default_to ttl week) ->
  AuthMemory.CreateSessionForDevice u dev ttl s = (s', Ok (sid, tok)) ->
  exists x, sessions (db s') !! sid = Some x /\ s_ID x = sid /\ s_UserID x = u /\ s_Revoked x = false /\
    s_ExpiresAt x = now s + seconds (default_to ttl week) /\ published x (redis (ext s')) /\ calm s'.
Proof.
  intros Hs Httl. unfold AuthMemory.CreateSessionForDevice, randomToken, randomSecret.
  unfold bind at 1. unfold bind at 1.
  destruct (rand_read_cases s) as [(r&rs&Hr&->)| ->]; [|done].
  cbn [ret]. unfold bind at 1. unfold bind at 1. set (s1 := drawn rs s).
  destruct (rand_read_cases s1) as [(q&qs&Hq&->)| ->]; [|done].
  cbn [ret]. unfold bind at 1, get_now, bind at 1, get_store. set (s2 := drawn qs s1).
  destruct (usersByID (db s2) !! u) as [v|] eqn:Hv; [|done].
  set (dev' := if is_empty dev then "web" else dev).
  assert (calm s2) as Hs2 by done.
  assert (stays_calm (revokeUserDeviceSessionsLocked u dev')) as Hstay by (repeat calm_step).
  unfold bind at 1. pose proof (Hstay s2 Hs2) as Hs3.
  destruct (updates_run _ _ s2 (updates_revokeUserDevice u dev')) as (s3&Hrun&Hd3&Hn3&Hr3). rewrite Hrun in *. cbn [fst] in Hs3.
  set (y := new_session _ _ _ _ _ _). unfold bind at 1, update_store.
  set (s4 := set_db (add_session y (db s3)) s3). unfold bind at 1.
  destruct (syncSession_publishes y s4) as [Hp Hc]; [done|simpl in *; rewrite Hn3; simpl; lia|].
  destruct (updates_run _ _ s4 (updates_syncSession y)) as (s5&Hrun5&Hd5&Hn5&Hr5). rewrite Hrun5 in *. cbn [fst] in *.
  intros [= <- <- <-]. exists y. rewrite Hd5. split_and!; try done. simpl. by rewrite lookup_insert_eq.
Qed.
End access.

(** * Requests that answer a session *)

Section grants.
Context `{Bcrypt, LimiterSpec L, RecorderSpec R, JWTParser}.
Variable cfg : Config.
Abbreviation S := (auth_state Store L R).
Abbreviation M := (Effects.M S auth_world error).
Implicit Types s : env S auth_world.

Definition calm_request s : Prop := faults s = [] /\ has_state (ext s) = true.

(** Calls that leave the store, Redis and the clock alone. *)
Definition quiet {A} (m : M A) : Prop := forall s, faults s = [] ->
  let s' := (m s).1 in
  faults s' = [] /\ st_store (db s') = st_store (db s) /\ ext s' = ext s /\ now s' = now s.
(** Calls that may change the store. *)
Definition calmly {A} (m : M A) : Prop := forall s, calm_request s ->
  let s' := (m s).1 in calm_request s' /\ now s' = now s.

Lemma quiet_calmly {A} (m : M A) : quiet m -> calmly m.
Proof. intros Hm s [Hf Hh]. destruct (Hm s Hf) as (Hf'&_&He&Hn). split; [|done]. split; [done|]. by rewrite He. Qed.

Lemma quiet_ret {A} (a : A) : quiet (ret a).
Proof. by intros s. Qed.
Lemma quiet_throw {A} e : quiet (throw (A := A) e).
Proof. by intros s. Qed.
Lemma quiet_require b e : quiet (require b e).
Proof. by destruct b; intros s. Qed.
Lemma quiet_bind {A B} (m : M A) (f : A -> M B) : quiet m -> (forall a, quiet (f a)) -> quiet (bind m f).
Proof.
  intros Hm Hf s Hs. specialize (Hm s Hs). unfold bind. destruct (m s) as [s1 [a|e]]; simpl in *; [|done].
  destruct Hm as (Hf1&Hst&He&Hn). destruct (Hf a s1 Hf1) as (?&Hst2&He2&Hn2). split_and!; [done|congruence..].
Qed.
Lemma quiet_ignore {A} (m : M A) : quiet m -> quiet (ignore m).
Proof. intros Hm s Hs. specialize (Hm s Hs). unfold ignore. by destruct (m s). Qed.
Lemma quiet_or_status {E A} (m : M (res E A)) c message : quiet m -> quiet (or_status m c message).
Proof. intros Hm. apply quiet_bind; [done|]. intros [a|e]; [apply quiet_ret|apply quiet_throw]. Qed.
Lemma quiet_spawn j : quiet (spawn j).
Proof. by intros s. Qed.

Lemma quiet_Blocked k m : quiet (risk (Blocked k m)).
Proof.
  intros s Hf. unfold risk, on_part. pose proof (Blocked_spec k m (mkEnv (st_risk (db s)) tt (now s) (faults s))) as Hb.
  destruct (Blocked _ _ _) as [s' r]. destruct Hb as ((_&_&Hf')&_). by split_and!; [apply Hf'|..].
Qed.
Lemma quiet_Incr k ttl : quiet (risk (Incr k ttl)).
Proof.
  intros s Hf. unfold risk, on_part. pose proof (Incr_spec k ttl (mkEnv (st_risk (db s)) tt (now s) (faults s))) as Hb.
  destruct (Incr _ _ _) as [s' r]. destruct Hb as ((_&_&Hf')&_). by split_and!; [apply Hf'|..].
Qed.
Lemma quiet_Reset k : quiet (risk (Reset k)).
Proof.
  intros s Hf. unfold risk, on_part. pose proof (Reset_spec k (mkEnv (st_risk (db s)) tt (now s) (faults s))) as Hb.
  destruct (Reset _ _) as [s' r]. destruct Hb as ((_&_&Hf')&_). by split_and!; [apply Hf'|..].
Qed.
Lemma quiet_RecordEvent e : quiet (audit (RecordEvent e)).
Proof.
  intros s Hf. unfold audit, on_part.
  pose proof (RecordEvent_faults e (mkEnv (st_audit (db s)) tt (now s) (faults s)) Hf) as Hb.
  destruct (RecordEvent _ _) as [s' r]. by split_and!.
Qed.

Lemma quiet_read {A} (m : Effects.M Store auth_world store_error A) : (forall e, (m e).1 = e) -> quiet (store m).
Proof.
  intros Hm s Hf. unfold store. specialize (Hm (mkEnv (st_store (db s)) (ext s) (now s) (faults s))).
  destruct (m _) as [s' r]. simpl in *. by subst.
Qed.

Lemma quiet_checks checks : quiet (run_checks checks).
Proof.
  induction checks as [|[k m] checks IH]; simpl; [apply quiet_ret|].
  apply quiet_bind; [apply quiet_Blocked|]. intros b. apply quiet_bind; [done|]. intros r. apply quiet_ret.
Qed.

Lemma quiet_record e : quiet (recordAuditEvent e).
Proof.
  unfold recordAuditEvent. destruct is_redis_recorder; [apply quiet_spawn|]. apply quiet_ignore, quiet_RecordEvent.
Qed.

Lemma quiet_reset req : quiet (resetLoginRisk req).
Proof.
  unfold resetLoginRisk. destruct (is_empty _); [apply quiet_ret|]. destruct is_redis_limiter; [apply quiet_spawn|].
  apply quiet_ignore, quiet_Reset.
Qed.

Lemma calmly_bind {A B} (m : M A) (f : A -> M B) : calmly m -> (forall a, calmly (f a)) -> calmly (bind m f).
Proof.
  intros Hm Hf s Hs. specialize (Hm s Hs). unfold bind. destruct (m s) as [s1 [a|e]]; simpl in *; [|done].
  destruct Hm as [Hc Hn]. destruct (Hf a s1 Hc). split; [done|congruence].
Qed.

Lemma calmly_store {A} (m : Effects.M Store auth_world store_error A) : stays_calm m -> calmly (store m).
Proof.
  intros Hm s [Hf Hh]. unfold store. specialize (Hm (mkEnv (st_store (db s)) (ext s) (now s) (faults s)) (conj Hf Hh)).
  by destruct (m _) as [s' r].
Qed.

(** ** The session that is answered *)

(** The token of an answer was signed for a session of the store that is published. *)
Definition grants (resp : LoginResp) s : Prop := exists x role,
  sessions (st_store (db s)) !! s_ID x = Some x /\ s_ID x <> "" /\ s_UserID x = UserId resp /\
  published x (redis (ext s)) /\ now s < s_ExpiresAt x /\
  SignedString (JwtAuthSecret cfg)
    (mkAccess (UserId resp) (itoa (UserId resp)) (s_ID x) (s_SessionVersion x) role (now s) (ExpiresAt resp)) =
    Some (AccessToken resp) /\
  ExpiresAt resp = now s + seconds (default_to (JwtExpireSeconds cfg) (2 * 60 * 60)) /\
  s_ExpiresAt x = now s + seconds (default_to (RefreshTokenTTLSeconds cfg) week).

Definition access_ttl_ok : Prop := 0 < seconds (default_to (RefreshTokenTTLSeconds cfg) week).

Lemma issue_answers user version sid tok s s' resp :
  issueLoginResp cfg user version sid tok s = (s', Ok resp) ->
  s' = s /\ UserId resp = u_ID user /\
  ExpiresAt resp = now s + seconds (default_to (JwtExpireSeconds cfg) (2 * 60 * 60)) /\
  SignedString (JwtAuthSecret cfg)
    (mkAccess (u_ID user) (itoa (u_ID user)) sid version (u_Role user) (now s) (ExpiresAt resp)) = Some (AccessToken resp).
Proof.
  unfold issueLoginResp, bind, get_now. destruct (SignedString _ _) as [a|] eqn:Ha; [|done].
  intros [= <- <-]. done.
Qed.

Lemma open_session_grants user dev s s' resp :
  calm_request s -> access_ttl_ok -> open_session cfg user dev s = (s', Ok resp) ->
  grants resp s' /\ calm_request s'.
Proof.
  intros [Hf Hh] Httl. unfold open_session, or_status, store, bind.
  destruct (AuthData.CreateSessionForDevice _ _ _ _) as [d1 [[sid tok]|e]] eqn:Hc; [|done].
  unfold AuthData.CreateSessionForDevice in Hc. simpl in Hc.
  apply create_publishes in Hc; [|done|done]. destruct Hc as (x&Hx&Hid&Hu&Hrev&Hexp&Hp&Hcalm). simpl in *.
  destruct (is_empty sid) eqn:Hne; simpl.
  { unfold AuthData.GetActiveSession. simpl. unfold AuthMemory.GetActiveSession. rewrite Hne. done. }
  unfold AuthData.GetActiveSession. simpl. unfold AuthMemory.GetActiveSession. rewrite Hne. unfold bind, get_now, get_store. simpl.
  rewrite Hx. unfold live_session. rewrite Hrev. simpl.
  unfold access_ttl_ok in Httl. rewrite (proj2 (Z.leb_le (now s) (s_ExpiresAt x))) by lia. simpl.
  intros Hi. apply issue_answers in Hi as (->&Huid&He&Hsig). simpl in *.
  split; [|done]. exists x, (u_Role user). rewrite Hid. unfold grants. simpl.
  split_and!; try done; [by apply str_eqb_neq in Hne|congruence|lia|by rewrite Huid].
Qed.

Lemma grants_quiet {A} (m : M A) resp s : calm_request s -> quiet m -> grants resp s -> grants resp (m s).1 /\ calm_request (m s).1.
Proof.
  intros [Hf Hh] Hm Hg. destruct (Hm s Hf) as (Hf'&Hst&He&Hn). split; [|split; [done|by rewrite He]].
  destruct Hg as (x&role&Hg). exists x, role. by rewrite Hst, He, Hn.
Qed.

(** A computation whose sessions are granted. *)
Definition grants_session (m : M LoginResp) : Prop := forall s s' resp,
  calm_request s -> m s = (s', Ok resp) -> grants resp s' /\ calm_request s'.

Lemma grants_throw e : grants_session (throw e).
Proof. by intros s s' resp. Qed.

Lemma grants_bind {A} (m : M A) f : calmly m -> (forall a, grants_session (f a)) -> grants_session (bind m f).
Proof.
  intros Hm Hf s s' resp Hs. specialize (Hm s Hs). unfold bind. destruct (m s) as [s1 [a|e]]; simpl in *; [|done].
  intros Hr. by apply (Hf a s1); [apply Hm|].
Qed.

(** A granted session, then quiet calls and the answer. *)
Definition returns (resp : LoginResp) (m : M LoginResp) : Prop := forall s, match (m s).2 with Ok r => r = resp | Err _ => True end.

Lemma returns_ret resp : returns resp (ret resp).
Proof. by intros s. Qed.
Lemma returns_bind {A} resp (m : M A) f : (forall a, returns resp (f a)) -> returns resp (bind m f).
Proof. intros Hf s. unfold bind. destruct (m s) as [s1 [a|e]]; [apply Hf|done]. Qed.

Lemma grants_after (m : M LoginResp) (f : LoginResp -> M LoginResp) :
  grants_session m -> (forall resp, quiet (f resp) /\ returns resp (f resp)) -> grants_session (bind m f).
Proof.
  intros Hm Hf s s' resp Hs. unfold bind. destruct (m s) as [s1 [r|e]] eqn:Hr; [|done].
  destruct (Hm s s1 r Hs Hr) as [Hg Hc]. destruct (Hf r) as [Hq Hret].
  destruct (grants_quiet (f r) r s1 Hc Hq Hg) as [Hg2 Hc2]. specialize (Hret s1).
  intros Hrun. rewrite Hrun in *. simpl in *. by subst.
Qed.

Lemma open_session_grants_session user dev : access_ttl_ok -> grants_session (open_session cfg user dev).
Proof. intros Httl s s' resp Hs Hr. by eapply open_session_grants. Qed.
End grants.

Create HintDb quiet.
#[export] Hint Resolve quiet_ret quiet_throw quiet_require quiet_spawn quiet_ignore quiet_or_status quiet_Blocked
  quiet_Incr quiet_Reset quiet_RecordEvent quiet_checks quiet_record quiet_reset : quiet.
Ltac quiet_step :=
  match goal with
  | |- quiet (bind _ _) => apply quiet_bind; [|intros ?]
  | |- quiet (match ?x with _ => _ end) => destruct x
  | |- quiet _ => solve [eauto with quiet]
  end.

Section handlers.
Context `{Bcrypt, LimiterSpec L, RecorderSpec R, JWTParser}.
Variable cfg : Config.
Hypothesis Httl : access_ttl_ok cfg.
Abbreviation S := (auth_state Store L R).
Abbreviation M := (Effects.M S auth_world error).
Implicit Types s : env S auth_world.

Lemma GetUserByPhone_1 phone (e : env Store auth_world) : (AuthData.GetUserByPhone phone e).1 = e.
Proof. simpl. unfold AuthMemory.GetUserByPhone, bind, get_store. apply found_1. Qed.
Lemma GetUserByID_1 u (e : env Store auth_world) : (AuthData.GetUserByID u e).1 = e.
Proof. simpl. unfold AuthMemory.GetUserByID, bind, get_store. apply found_1. Qed.

Lemma quiet_lookup phone : quiet (L := L) (R := R) (auditUserIDByPhone phone).
Proof. unfold auditUserIDByPhone. repeat quiet_step. apply quiet_read, GetUserByPhone_1. Qed.

Lemma quiet_failure req : quiet (R := R) (recordLoginFailure cfg req).
Proof. unfold recordLoginFailure. repeat quiet_step. Qed.

Lemma quiet_check ip_first req : quiet (R := R) (checkLoginRisk cfg ip_first req).
Proof. unfold checkLoginRisk. apply quiet_bind; [apply quiet_checks|]. intros [e|]; eauto with quiet. Qed.

Lemma calmly_ConsumeCode phone scene given on_wrong :
  calmly on_wrong -> calmly (L := L) (R := R) (consume_code cfg phone scene given on_wrong).
Proof.
  intros Hw. unfold consume_code. apply calmly_bind.
  - apply calmly_store. simpl. unfold AuthMemory.ConsumeCode. repeat calm_step.
  - intros [a|[]]; try (apply quiet_calmly; solve [eauto with quiet]).
    apply calmly_bind; [done|]. intros _. apply quiet_calmly; eauto with quiet.
Qed.

Lemma quiet_record_with_lookup type phone ip agent : quiet (L := L) (R := R) (record_with_lookup type phone ip agent).
Proof. unfold record_with_lookup. apply quiet_bind; [apply quiet_lookup|]. intros u. eauto with quiet. Qed.

Ltac grant :=
  repeat match goal with
  | |- grants_session _ (throw _) => apply grants_throw
  | |- grants_session _ (match ?x with _ => _ end) => destruct x
  | |- grants_session _ (bind (open_session _ _ _) _) => fail 1
  | |- grants_session _ (bind _ _) => apply grants_bind; [|intros ?]
  | |- calmly (consume_code _ _ _ _ _) => apply calmly_ConsumeCode
  | |- calmly (record_with_lookup _ _ _ _) => apply quiet_calmly, quiet_record_with_lookup
  | |- calmly _ => apply quiet_calmly; solve [eauto using quiet_lookup, quiet_failure, quiet_check with quiet]
  end.

Ltac granted :=
  grant; try (apply grants_after; [by apply open_session_grants_session|]; intros ?; split;
    [repeat quiet_step|repeat (apply returns_bind; intros ?); apply returns_ret]).

Lemma Login_grants ip_first req : grants_session (L := L) (R := R) cfg (Login cfg ip_first req).
Proof. unfold Login. granted. apply quiet_calmly, quiet_read, Authenticate_1. Qed.

Lemma LoginCode_grants req : grants_session (L := L) (R := R) cfg (LoginCode cfg req).
Proof. unfold LoginCode. granted. apply quiet_calmly, quiet_read, GetUserByPhone_1. Qed.

Lemma Register_grants req : grants_session (L := L) (R := R) cfg (Register cfg req).
Proof.
  unfold Register. granted. apply calmly_store. simpl. unfold AuthMemory.CreateUser.
  repeat (calm_step || apply stays_GenerateFromPassword).
Qed.

Lemma RefreshSession_publishes n token ttl (e e' : env Store auth_world) x token' :
  calm e -> store_inv n (db e) -> 0 < seconds (default_to ttl week) ->
  AuthMemory.RefreshSession token ttl e = (e', Ok (x, token')) ->
  sessions (db e') !! s_ID x = Some x /\ s_ID x <> "" /\ s_ExpiresAt x = now e + seconds (default_to ttl week) /\
  published x (redis (ext e')) /\ calm e' /\ usersByID (db e') = usersByID (db e).
Proof.
  intros Hc Hi Httl' Hr. destruct (use_token token e) as [e1 r] eqn:Hu. pose proof (use_token_spec _ _ _ _ Hu) as Hspec.
  destruct Hspec as [sid g sig y _ Hy _ _ _|sid g sig y e2|]; [|unfold AuthMemory.RefreshSession, bind in Hr; by rewrite Hu in Hr..].
  unfold AuthMemory.RefreshSession in Hr. unfold bind at 1 in Hr. rewrite Hu in Hr.
  unfold bind at 1, get_now, bind at 1, update_store in Hr.
  set (y' := rotate sid (now e + seconds (default_to ttl week)) y) in *.
  set (e3 := set_db (rotate_session sid y y' (db e)) e) in *. unfold bind in Hr.
  destruct (syncSession_publishes y' e3) as [Hp Hc3]; [done|simpl; lia|].
  destruct (updates_run _ _ e3 (updates_syncSession y')) as (e4&Hrun&Hd&_&_). rewrite Hrun in *. simpl in *.
  injection Hr as <- <- _. destruct (si_sessions _ _ Hi _ _ Hy) as [Hid [Hne _] _ _ _].
  assert (s_ID y' = sid) as Hid' by (unfold y', rotate; done).
  rewrite Hd, Hid'. split_and!; try done. simpl. by rewrite lookup_insert_eq.
Qed.

Lemma Refresh_grants n token s s' resp :
  calm_request s -> store_inv n (st_store (db s)) -> Refresh (L := L) (R := R) cfg token s = (s', Ok resp) ->
  grants cfg resp s' /\ calm_request s'.
Proof.
  intros [Hf Hh] Hi. unfold Refresh. unfold bind at 1. destruct (negb (is_empty token)); [|done]. cbn [require ret].
  unfold bind at 1, store at 1.
  destruct (AuthData.RefreshSession _ _ _) as [e' [[x token']|e]] eqn:Hr; [|done].
  destruct (RefreshSession_publishes n token _ (mkEnv (st_store (db s)) (ext s) (now s) (faults s)) e' x token'
              (conj Hf Hh) Hi Httl Hr) as (Hx&Hne&Hexp&Hp&[Hf' Hh']&Husers).
  simpl in Husers. unfold bind at 1, store at 1. unfold AuthData.GetUserByID. simpl. unfold AuthMemory.GetUserByID, bind at 1, get_store. simpl.
  unfold found. rewrite Husers. destruct (usersByID (st_store (db s)) !! s_UserID x) as [u|] eqn:Hu; [|done].
  destruct (u_Status u =? statusActive); [|done]. simpl. unfold bind at 1.
  destruct (issueLoginResp _ _ _ _ _ _) as [s1 [r|e]] eqn:Hissue; [|done].
  apply issue_answers in Hissue as (->&Huid&He&Hsig).
  destruct (si_users _ _ Hi _ _ Hu) as [Hid _].
  match goal with |- bind ?m _ ?s1 = _ -> _ => pose proof (grants_quiet cfg m r s1) as Hg end.
  unfold bind. match goal with |- context [recordAuditEvent ?ev ?s1] => destruct (recordAuditEvent ev s1) as [s2 [[]|e]] end; [|done].
  intros [= <- <-]. apply Hg; [done|apply quiet_record|]. exists x, (u_Role u). simpl in *.
  rewrite Huid in *. rewrite Hid in *. split_and!; try done; rewrite Hexp; unfold access_ttl_ok in Httl; lia.
Qed.
End handlers.

(** * The access check accepts what was granted *)

Lemma published_session_allowed x c t r :
  published x r -> cl_sid c = s_ID x -> s_ID x <> "" -> 0 < s_UserID x -> t < s_ExpiresAt x ->
  AuthDivergence.parseInt64Claim (cl_sub c) = Some (s_UserID x) ->
  AuthDivergence.parseInt64Claim (cl_session_version c) = Some (s_SessionVersion x) ->
  AuthDivergence.check_claims t c r = Allowed.
Proof.
  intros [Hs Hv] Hsid Hne Hpos Ht Hsub Hver. unfold AuthDivergence.check_claims. rewrite Hsub, Hsid, Hver.
  unfold is_empty. rewrite (proj2 (str_eqb_neq _ _)) by done. unfold AuthDivergence.LoadSession, is_empty.
  rewrite (proj2 (str_eqb_neq _ _)) by done. unfold AuthDivergence.redis_get. rewrite Hs. rewrite (proj2 (Z.ltb_lt _ _)) by done.
  simpl. rewrite !Z.eqb_refl. simpl. unfold AuthDivergence.LoadUserVersion. rewrite (proj2 (Z.leb_gt _ _)) by done.
  unfold AuthDivergence.redis_get. rewrite Hv. by rewrite Z.eqb_refl.
Qed.

Lemma string_reverse_snoc u c : string_reverse (string_snoc u c) = String c (string_reverse u).
Proof. induction u as [|d u IH]; simpl; [done|]. by rewrite IH. Qed.

Lemma trim_left_snoc u c : is_space c = false -> exists u', trim_left (string_snoc u c) = string_snoc u' c.
Proof.
  intros Hc. induction u as [|d u IH]; simpl; [exists ""; by rewrite Hc|].
  destruct (is_space d); [done|by exists (String d u)].
Qed.

Lemma trim_space_not_empty c u : is_space c = false -> trim_space (String c u) <> "".
Proof.
  intros Hc. unfold trim_space. simpl. rewrite Hc. simpl.
  destruct (trim_left_snoc (string_reverse u) c Hc) as [u' ->]. by rewrite string_reverse_snoc.
Qed.

Section accepted.
Context `{Bcrypt, LimiterSpec L, RecorderSpec R, JWTParser}.
Variable cfg : Config.
Abbreviation S := (auth_state Store L R).
Implicit Types s : env S auth_world.

Definition allowed (token : string) (t : Z) s : Prop :=
  AuthDivergence.Validate (ParseAt t) (JwtAuthSecret cfg) t ("Bearer " +:+ token) (redis (ext s)) = Allowed.

(** Versions that are exact as JSON numbers. *)
Definition exact_versions s : Prop := forall sid x, sessions (st_store (db s)) !! sid = Some x -> Z.abs (s_SessionVersion x) <= 2 ^ 53.

Lemma grants_allowed resp s t :
  grants cfg resp s -> exact_versions s -> JwtAuthSecret cfg <> "" -> 0 < UserId resp <= int64_max ->
  now s <= t < ExpiresAt resp -> t < now s + seconds (default_to (RefreshTokenTTLSeconds cfg) week) -> allowed (AccessToken resp) t s.
Proof.
  intros (x&role&Hx&Hne&Hu&Hp&_&Hsig&_&Hexp) Hver Hsec Hid Ht1 Ht2.
  destruct (signed_text _ _ _ Hsig) as [Hnt Htrim].
  unfold allowed, AuthDivergence.Validate. unfold is_empty.
  rewrite (proj2 (str_eqb_neq _ _)) by (by apply trim_space_not_empty).
  rewrite (proj2 (str_eqb_neq (JwtAuthSecret cfg) _)) by done. rewrite trim_prefix_app, Htrim.
  rewrite (proj2 (str_eqb_neq (AccessToken resp) _)) by done.
  erewrite parse_signed; [|exact Hsig|simpl; by eapply Hver]. simpl.
  rewrite (proj2 (Z.leb_le _ _)), (proj2 (Z.ltb_lt _ _)) by lia. simpl.
  assert (in_int64 (UserId resp)) as Hin by (unfold in_int64, int64_min, int64_max in *; lia).
  eapply published_session_allowed; [exact Hp|done|done|lia|lia|..].
  - simpl. rewrite Hu. by apply ParseInt_itoa.
  - simpl. f_equal. apply int64_id. specialize (Hver _ _ Hx). unfold in_int64, int64_min, int64_max. lia.
Qed.

End accepted.

(** * Ended access *)

Section ended.
Context `{Bcrypt}.
Implicit Types s : env Store auth_world.

(** The published version of a user. *)
Definition version_published (u w : Z) s : Prop :=
  calm s /\ redis (ext s) !! userVersionKey u = Some (VersionText w, None).

Lemma stays_update_published u w f : stays (version_published u w) (update_store f).
Proof. by intros s. Qed.
Lemma stays_DeleteSession u w sid : stays (version_published u w) (publish (DeleteSession sid)).
Proof.
  intros s [[Hf Hh] Hv]. unfold publish. rewrite Hh. unfold ignore, DeleteSession, call, pop_fault. rewrite Hf. simpl.
  split; [done|]. simpl. by rewrite lookup_delete_ne.
Qed.
Hint Resolve stays_update_published stays_DeleteSession : calm.

Lemma stays_revokeSession u w sid : stays (version_published u w) (revokeSessionLocked sid).
Proof. unfold revokeSessionLocked, deleteSessionStateLocked. repeat calm_step. Qed.
Hint Resolve stays_revokeSession : calm.

Lemma stays_revokeUser u w u' : stays (version_published u w) (revokeUserSessionsLocked u').
Proof. unfold revokeUserSessionsLocked. repeat calm_step. Qed.

Lemma syncUserVersion_publishes u v s :
  calm s -> usersByID (db s) !! u = Some v -> version_published u (u_SessionVersion v) (syncUserVersionLocked u s).1.
Proof.
  intros [Hf Hh] Hv. unfold syncUserVersionLocked, bind, get_store. rewrite Hv. unfold publish. rewrite Hh.
  unfold ignore, SetUserVersion, call, pop_fault. rewrite Hf. simpl. split; [done|]. simpl. by rewrite lookup_insert_eq.
Qed.

(** A bump, its publication and the revocations. *)
Lemma bump_publishes u v s :
  calm s -> usersByID (db s) !! u = Some v -> u_ID v = u ->
  version_published u (u_SessionVersion (bumped v))
    ((bumpUserSessionVersionLocked u ;;; syncUserVersionLocked u ;;; revokeUserSessionsLocked u) s).1.
Proof.
  intros Hc Hv Hid. unfold bind at 1, bumpUserSessionVersionLocked, update_store. rewrite Hv.
  set (s1 := set_db _ s). assert (calm s1) as Hc1 by done.
  assert (usersByID (db s1) !! u = Some (bumped v)) as Hv1.
  { simpl. unfold bumped, with_SessionVersion. simpl. rewrite Hid. by rewrite lookup_insert_eq. }
  pose proof (syncUserVersion_publishes u _ s1 Hc1 Hv1) as Hp. unfold bind.
  destruct (syncUserVersionLocked u s1) as [s2 [[]|e]]; simpl in Hp; [|done]. by apply stays_revokeUser.
Qed.

Lemma bumped_differs v w : 0 <= w <= u_SessionVersion v -> u_SessionVersion v < int64_max -> u_SessionVersion (bumped v) <> w.
Proof.
  intros Hw Hm. unfold bumped. simpl. rewrite int64_id by (unfold in_int64, int64_min, int64_max in *; lia).
  destruct (Z.leb_spec (u_SessionVersion v + 1) 0); simpl; lia.
Qed.

Lemma LogoutAll_publishes u v s :
  calm s -> usersByID (db s) !! u = Some v -> u_ID v = u ->
  version_published u (u_SessionVersion (bumped v)) (AuthMemory.LogoutAll u s).1.
Proof. apply bump_publishes. Qed.

Lemma UpdatePassword_publishes phone pw u v s s' x :
  calm s -> usersByPhone (db s) !! phone = Some u -> usersByID (db s) !! u = Some v -> u_ID v = u ->
  AuthMemory.UpdatePassword phone pw s = (s', Ok x) -> version_published u (u_SessionVersion (bumped v)) s'.
Proof.
  intros Hc Hph Hv Hid. unfold AuthMemory.UpdatePassword. destruct (is_empty phone || is_empty pw); [done|].
  unfold bind at 1. pose proof (GenerateFromPassword_run pw s) as (s1&r&Hrun&Hd&_).
  pose proof (stays_GenerateFromPassword pw s Hc) as Hc1. rewrite Hrun in *. simpl in Hc1.
  destruct r as [hash|e]; [|done]. unfold bind at 1, get_store. rewrite Hd, Hph.
  unfold bind at 1, update_store. rewrite Hd, Hv.
  set (s2 := set_db _ s1). assert (usersByID (db s2) !! u = Some (with_PasswordHash hash v)) as Hv2.
  { simpl. rewrite Hid. by rewrite lookup_insert_eq. }
  assert (calm s2) as Hc2 by done.
  pose proof (bump_publishes u (with_PasswordHash hash v) s2 Hc2 Hv2 Hid) as Hp.
  change (u_SessionVersion (bumped (with_PasswordHash hash v))) with (u_SessionVersion (bumped v)) in Hp.
  revert Hp. unfold bind. destruct (bumpUserSessionVersionLocked u s2) as [s3 [[]|]]; [|by intros ? [=]].
  destruct (syncUserVersionLocked u s3) as [s4 [[]|]]; [|by intros ? [=]].
  destruct (revokeUserSessionsLocked u s4) as [s5 [[]|]]; [|by intros ? [=]].
  unfold get_store. simpl. intros Hp. destruct (usersByID (db s5) !! u); [|done]. by intros [= <- _].
Qed.

Lemma SetUserStatus_publishes u v s s' x :
  calm s -> usersByID (db s) !! u = Some v -> u_ID v = u -> in_int64 (u_SessionVersion v + 1) ->
  AuthMemory.SetUserStatus u userStatusDisabled s = (s', Ok x) -> version_published u (u_SessionVersion v + 1) s'.
Proof.
  intros Hc Hv Hid Hin. unfold AuthMemory.SetUserStatus. simpl. unfold bind at 1, get_store. rewrite Hv.
  set (v' := with_Status userStatusDisabled _). unfold bind at 1, update_store.
  set (s1 := set_db _ s). assert (usersByID (db s1) !! u = Some v') as Hv1.
  { simpl. rewrite Hid. by rewrite lookup_insert_eq. }
  assert (stays_calm (for_each revokeSessionLocked (elements (ids_of u (db s))))) as Hstay by (repeat calm_step).
  pose proof (Hstay s1 Hc) as Hc2. unfold bind at 1.
  destruct (updates_run _ _ s1 (updates_revokeEach (elements (ids_of u (db s))))) as (s2&Hrun&Hd&_&_).
  rewrite Hrun in *. simpl in Hc2.
  assert (usersByID (db s2) !! u = Some v') as Hv2.
  { rewrite Hd. clear -Hv1. revert Hv1. generalize (db s1) as d. induction (elements _) as [|sid l IH]; intros d Hv; simpl; [done|].
    apply IH. unfold revoke1. by destruct (sessions d !! sid). }
  pose proof (syncUserVersion_publishes u v' s2 Hc2 Hv2) as Hp.
  assert (u_SessionVersion v' = u_SessionVersion v + 1) as Hw by (unfold v'; simpl; by apply int64_id).
  rewrite Hw in Hp. unfold bind. destruct (syncUserVersionLocked u s2) as [s3 [[]|]]; [|done]. by intros [= <- _].
Qed.
End ended.

Section ended_requests.
Context `{Bcrypt, LimiterSpec L, RecorderSpec R, JWTParser}.
Variable cfg : Config.
Abbreviation S := (auth_state Store L R).
Abbreviation M := (Effects.M S auth_world error).
Implicit Types s : env S auth_world.

(** Requests that end the sessions of a user, with the answer that they did. *)
Definition ends_access (u : Z) s (r : request) (a : answer) : Prop :=
  match r, a with
  | RLogoutAll ctx, DoneAnswer (Ok _) => parseUserIDClaim (cx_user_id ctx) = Some u
  | RResetPassword req, DoneAnswer (Ok _) => usersByPhone (st_store (db s)) !! rp_Phone req = Some u
  | RAdminUserStatus ctx userID status, DoneAnswer (Ok _) =>
      isAdminRequest ctx = true /\ userID = u /\ status = 2 /\ currentUserID ctx <> u
  | _, _ => False
  end.

(** The published version of a user, seen by the requests. *)
Definition user_version (u w : Z) s : Prop := redis (ext s) !! userVersionKey u = Some (VersionText w, None).

Lemma refused_by_version c token u w t s :
  SignedString (JwtAuthSecret cfg) c = Some token -> ac_sub c = itoa u -> in_int64 u -> Z.abs (ac_session_version c) <= 2 ^ 53 ->
  user_version u w s -> ac_session_version c <> w -> ~ allowed cfg token t s.
Proof.
  intros Hsig Hsub Hu Hver Hw Hne. unfold allowed, AuthDivergence.Validate. destruct (is_empty _); [done|].
  destruct (is_empty _); [done|]. destruct (signed_text _ _ _ Hsig) as [_ Htrim]. rewrite trim_prefix_app, Htrim.
  destruct (is_empty _); [done|]. rewrite (parse_signed _ _ _ t Hsig Hver).
  destruct ((ac_iat c <=? t) && (t <? ac_exp c)); [|done]. unfold AuthDivergence.check_claims, decoded. simpl.
  rewrite Hsub, ParseInt_itoa by done. destruct (is_empty _); [done|].
  assert (int64 (ac_session_version c) = ac_session_version c) as ->
    by (apply int64_id; unfold in_int64, int64_min, int64_max; lia).
  destruct (AuthDivergence.LoadSession _ _ _) as [[x|]|]; try done.
  destruct (negb _ || negb _); [done|]. unfold AuthDivergence.LoadUserVersion. destruct (u <=? 0); [done|].
  unfold AuthDivergence.redis_get, user_version in *. rewrite Hw.
  by rewrite (proj2 (Z.eqb_neq _ _)) by (intros Heq; by rewrite Heq in Hne).
Qed.

Lemma quiet_ext {A} (m : M A) s : faults s = [] -> quiet m -> ext (m s).1 = ext s.
Proof. intros Hf Hm. by destruct (Hm s Hf) as (_&_&?&_). Qed.

Lemma ConsumeCode_users phone scene given m (e : env Store auth_world) :
  let e' := (AuthMemory.ConsumeCode phone scene given m e).1 in
  usersByID (db e') = usersByID (db e) /\ usersByPhone (db e') = usersByPhone (db e).
Proof.
  unfold AuthMemory.ConsumeCode, bind, get_now, get_store, update_store. destruct (codes (db e) !! _) as [x|]; [|done].
  destruct (_ <? _); [done|]. destruct (str_eqb _ _); [done|]. by destruct (_ && _).
Qed.

Lemma consumed phone scene given on_wrong s s' :
  calm_request s -> consume_code (L := L) (R := R) cfg phone scene given on_wrong s = (s', Ok tt) ->
  calm_request s' /\ usersByID (st_store (db s')) = usersByID (st_store (db s)) /\
  usersByPhone (st_store (db s')) = usersByPhone (st_store (db s)).
Proof.
  intros Hc. unfold consume_code, bind at 1, store. simpl.
  assert (stays_calm (AuthMemory.ConsumeCode phone scene given (VerificationCodeMaxAttempts cfg))) as Hstay
    by (unfold AuthMemory.ConsumeCode; repeat calm_step).
  pose proof (ConsumeCode_users phone scene given (VerificationCodeMaxAttempts cfg)
                (mkEnv (st_store (db s)) (ext s) (now s) (faults s))) as Hu.
  specialize (Hstay (mkEnv (st_store (db s)) (ext s) (now s) (faults s)) Hc).
  destruct (AuthMemory.ConsumeCode _ _ _ _ _) as [e' [[]|err]]; simpl in *.
  - intros [= <-]. done.
  - destruct err; try done. unfold bind. by destruct (on_wrong _) as [s1 [[]|]].
Qed.

Lemma LogoutAll_ends_access u v ctx s :
  calm_request s -> usersByID (st_store (db s)) !! u = Some v -> u_ID v = u -> parseUserIDClaim (cx_user_id ctx) = Some u ->
  user_version u (u_SessionVersion (bumped v)) (LogoutAll (L := L) (R := R) ctx s).1.
Proof.
  intros [Hf Hh] Hv Hid Hu. unfold LogoutAll. rewrite Hu. unfold bind, ignore, store. simpl.
  pose proof (LogoutAll_publishes u v (mkEnv (st_store (db s)) (ext s) (now s) (faults s)) (conj Hf Hh) Hv Hid) as [[Hf' _] Hp].
  destruct (AuthMemory.LogoutAll u _) as [e' r]. simpl in *. unfold user_version. by rewrite quiet_ext by (done || apply quiet_record).
Qed.

Lemma AdminUserStatus_ends_access u v ctx s s' resp :
  calm_request s -> usersByID (st_store (db s)) !! u = Some v -> u_ID v = u -> in_int64 (u_SessionVersion v + 1) ->
  AdminUserStatus (L := L) (R := R) ctx u 2 s = (s', Ok resp) -> user_version u (u_SessionVersion v + 1) s'.
Proof.
  intros [Hf Hh] Hv Hid Hin. unfold AdminUserStatus. destruct (u <=? 0).
  { unfold bind. by destruct (RecordFailure _ _ _ _ _) as [? [[]|]]. }
  unfold bind at 1, store at 1. simpl. destruct (AuthMemory.SetUserStatus u 2 _) as [e' [x|err]] eqn:Hr.
  2: { destruct err; unfold bind; by destruct (RecordFailure _ _ _ _ _) as [? [[]|]]. }
  pose proof (SetUserStatus_publishes u v (mkEnv (st_store (db s)) (ext s) (now s) (faults s)) e' x (conj Hf Hh) Hv Hid Hin Hr) as [[Hf' _] Hp]. simpl in *.
  match goal with |- bind ?m _ ?s1 = _ -> _ => assert (quiet m) as Hq by (destruct (parseUserIDClaim _); eauto with quiet);
    pose proof (quiet_ext m s1 Hf' Hq) as Hext; unfold bind; destruct (m s1) as [s2 [[]|err]]; [|done] end.
  intros [= <- <-]. unfold user_version. simpl in Hext. by rewrite Hext.
Qed.

Lemma ResetPassword_ends_access u v req s s' :
  calm_request s -> usersByID (st_store (db s)) !! u = Some v -> u_ID v = u ->
  usersByPhone (st_store (db s)) !! rp_Phone req = Some u ->
  ResetPassword (L := L) (R := R) cfg req s = (s', Ok tt) -> user_version u (u_SessionVersion (bumped v)) s'.
Proof.
  intros Hc Hv Hid Hph. unfold ResetPassword. unfold bind at 1. destruct (negb _); [|done]. cbn [require ret].
  unfold bind at 1. destruct (consume_code _ _ _ _ _ s) as [s1 [[]|err]] eqn:Hcons; [|done].
  destruct (consumed _ _ _ _ _ _ Hc Hcons) as ([Hf1 Hh1]&Hid1&Hph1). rewrite <- Hid1 in Hv. rewrite <- Hph1 in Hph.
  unfold bind at 1, store at 1. simpl. destruct (AuthMemory.UpdatePassword _ _ _) as [e' [x|err]] eqn:Hr.
  2: { destruct err; try done. unfold bind. by destruct (recordAuditEvent _ _) as [? [[]|]]. }
  pose proof (UpdatePassword_publishes _ _ u v (mkEnv (st_store (db s1)) (ext s1) (now s1) (faults s1)) e' x (conj Hf1 Hh1) Hph Hv Hid Hr) as [[Hf' _] Hp]. simpl in *.
  unfold bind at 1, or_status, bind at 1, store. simpl. unfold AuthMemory.ResetCode, update_store. simpl.
  intros Hrun. unfold user_version. match type of Hrun with ?m ?s2 = _ =>
    pose proof (quiet_ext m s2 Hf' (quiet_record _)) as Hext; rewrite Hrun in Hext end.
  simpl in Hext. by rewrite Hext.
Qed.

(** C24 When a user has logged out everywhere, has a new password or is disabled, and no
    call failed meanwhile, the access tokens signed for the versions the user had
    until then are refused by the entry service at any time, as long as the version
    in Redis stays. *)
Theorem ended_access_is_refused n u v r s s' a c token t :
  calm_request s -> store_inv n (st_store (db s)) -> usersByID (st_store (db s)) !! u = Some v ->
  u_SessionVersion v < int64_max -> handle cfg r s = (s', a) -> ends_access u s r a ->
  SignedString (JwtAuthSecret cfg) c = Some token -> ac_sub c = itoa u -> in_int64 u ->
  0 <= ac_session_version c <= 2 ^ 53 -> ac_session_version c <= u_SessionVersion v ->
  ~ allowed cfg token t s'.
Proof.
  intros Hc Hi Hv Hmax Hr Hends Hsig Hsub Hu Hver Hle. destruct (si_users _ _ Hi _ _ Hv) as [Hid _].
  assert (in_int64 (u_SessionVersion v + 1)) as Hin by (unfold in_int64, int64_min, int64_max in *; lia).
  assert (exists w, user_version u w s' /\ ac_session_version c <> w) as (w&Hw&Hne);
    [|by eapply refused_by_version; [..|exact Hw|exact Hne]; try done; lia].
  destruct r; try done; simpl in Hr, Hends; unfold done_answer in Hr.
  - destruct (ResetPassword cfg req s) as [s1 [[]|e]] eqn:Hrun; simplify_eq; [|done].
    eexists. split; [by eapply ResetPassword_ends_access|]. symmetry. apply bumped_differs; lia.
  - pose proof (fun Hp => LogoutAll_ends_access u v ctx s Hc Hv Hid Hp) as Hlo.
    destruct (LogoutAll ctx s) as [s1 [[]|e]]; simplify_eq; [|done].
    eexists. split; [by apply Hlo|]. symmetry. apply bumped_differs; lia.
  - destruct (AdminUserStatusHandler ctx userID status s) as [s1 [x|e]] eqn:Hrun; injection Hr as <- <-; [|done].
    destruct Hends as (Hadmin&Huser&->&Hself). rewrite Huser in Hrun. exists (u_SessionVersion v + 1). split; [|lia].
    unfold AdminUserStatusHandler in Hrun. rewrite Hadmin in Hrun. simpl in Hrun.
    rewrite (proj2 (Z.eqb_neq u (currentUserID ctx))) in Hrun by congruence. unfold bind in Hrun.
    destruct (AdminUserStatus ctx u 2 s) as [s2 [y|e]] eqn:Hst; [|done]. injection Hrun as <- <-.
    by eapply AdminUserStatus_ends_access.
Qed.
End ended_requests.
