(* ===== verification/AuthRequestScenarios.v ===== *)
(** Concrete runs of the request logic of the auth service: the theorems about it at
    given inputs, and behaviours shown on an example. *)

From Stdlib Require Import Ascii.
From S2P Require Import AuthDivergence AuthSQL Prelude Effects Sql GoText AuthTokens AuthData AuthMemory AuthMemorySafety AuthSessions.
From S2P Require Import AuthSessions AuthRisk AuthRequests AuthRequestRules AuthAccess.
Close Scope char_scope.

(** * A signature

    The token spells the secret and the claims in binary. *)
Fixpoint spelled (p : positive) : string :=
  match p with xH => "." | xO p => String "0"%char (spelled p) | xI p => String "1"%char (spelled p) end.

Fixpoint unspelled (s : string) : option positive :=
  match s with
  | EmptyString => None
  | String c rest =>
      match unspelled rest with
      | Some p => if Ascii.eqb c "0"%char then Some (xO p) else if Ascii.eqb c "1"%char then Some (xI p) else None
      | None => if Ascii.eqb c "."%char then Some xH else None
      end
  end.

Lemma unspelled_spelled p : unspelled (spelled p) = Some p.
Proof. induction p as [p IH|p IH|]; simpl; by rewrite ?IH. Qed.

Definition packed (secret : string) (c : access_claims) : positive :=
  encode (secret, (ac_user_id c, ac_sub c, ac_sid c, ac_session_version c), (ac_role c, ac_iat c, ac_exp c)).

Definition unpacked (p : positive) : option (string * access_claims) :=
  match decode p with
  | Some (secret, (u, sub, sid, v), (role, i, e)) => Some (secret, mkAccess u sub sid v role i e)
  | None => None
  end.

Lemma unpacked_packed secret c : unpacked (packed secret c) = Some (secret, c).
Proof. unfold unpacked, packed. rewrite decode_encode. by destruct c. Qed.

#[export] Instance spelled_jwt : JWT := {|
  SignedString secret c :=
    let token := spelled (packed secret c) in
    if negb (is_empty token) && str_eqb (trim_space token) token then Some token else None
|}.

#[export, refine] Instance spelled_parser : JWTParser := {|
  ParseAt t secret token :=
    match unspelled token with
    | Some p =>
        match unpacked p with
        | Some (secret', c) =>
            if str_eqb secret' secret && (ac_iat c <=? t) && (t <? ac_exp c) then Some (decoded c) else None
        | None => None
        end
    | None => None
    end
|}.
Proof.
  - intros secret c token t. unfold SignedString, spelled_jwt. destruct (_ && _); [|done]. intros [= <-] _.
    by rewrite unspelled_spelled, unpacked_packed, str_eqb_refl.
  - intros secret c token. unfold SignedString, spelled_jwt. destruct (is_empty _) eqn:He; [done|]. simpl.
    destruct (str_eqb _ _) eqn:Ht; [|done]. intros [= <-]. split; [|by apply str_eqb_eq].
    by apply str_eqb_neq in He.
Defined.

(** * A service over the stores in memory *)

Abbreviation service := (auth_state Store memory.MemoryLimiter memory_audit.MemoryRecorder).

Definition demo_config : Config := with_defaults (mkConfig "auth" "memory" "secret" 0 0 0 true 0 0 0 0 0 0 0 0 0 0 0).

Definition calm_start : env Store auth_world :=
  mkEnv empty_store (mkAuthWorld ∅ [[1]; [2]; [3]; [4]; [5]; [6]; [7]; [8]] true) 0 [].

Definition calm_demo : env Store auth_world := (NewStoreWithState "" calm_start).1.

Definition started : env service auth_world :=
  mkEnv (mkState (db calm_demo) memory.NewMemoryLimiter (memory_audit.NewMemoryRecorder 200) []) (ext calm_demo) 0 [].

Lemma started_ok n : 1003 + n <= int64_max -> ok n calm_demo.
Proof. intros Hn. apply ok_seeded; [done|done|apply start_fresh]. Qed.

Definition password_request (password : string) : request :=
  RLogin false (mkLoginReq 0 "13800000001" password "web" "" "").

(** Five wrong guesses, then the right password: it is not looked at. *)
Definition guesses : list (Z * request) :=
  map (fun t => (t, password_request "guess")) [10; 20; 30; 40; 50] ++ [(60, password_request "flashmall123")].

Example guesses_answered :
  map (fun a => match a with SessionAnswer (Err (StatusError c _)) => Some c | _ => None end)
    (serve demo_config guesses started).2 =
  [Some Unauthenticated; Some Unauthenticated; Some Unauthenticated; Some Unauthenticated; Some Unauthenticated;
   Some ResourceExhausted].
Proof. vm_compute. reflexivity. Qed.

Lemma guessing_is_limited_witness :
  streak demo_config (loginPhoneRiskKey "13800000001") guesses started 0 <= 5.
Proof.
  apply (guessing_is_limited demo_config (loginPhoneRiskKey "13800000001") guesses started 0).
  - exists (mkLoginReq 0 "13800000001" "" "" "" ""). split; [reflexivity|discriminate].
  - vm_compute. split; [reflexivity|discriminate].
  - intros t. vm_compute. discriminate.
  - repeat constructor; vm_compute; discriminate.
  - repeat constructor; vm_compute; congruence.
Defined.

(** A session and its access token. *)
Definition served (r : request) (s : env service auth_world) : env service auth_world := (handle demo_config r s).1.

Definition opened : env service auth_world := served (password_request "flashmall123") (at_time 100 started).

Definition opened_answer : LoginResp :=
  match (handle demo_config (password_request "flashmall123") (at_time 100 started)).2 with
  | SessionAnswer (Ok resp) => resp
  | _ => mkLoginResp "" "" 0 0 "" "" ""
  end.

Lemma exact_versions_checked (s : env service auth_world) :
  map_fold (fun _ x b => (Z.abs (s_SessionVersion x) <=? 2 ^ 53) && b) true (sessions (st_store (db s))) = true ->
  exact_versions s.
Proof.
  unfold exact_versions. apply (map_fold_weak_ind (fun b m => b = true -> forall sid x, m !! sid = Some x -> Z.abs (s_SessionVersion x) <= 2 ^ 53)).
  - intros _ sid x. by rewrite lookup_empty.
  - intros i x m b Hi IH Hb sid y. apply andb_true_iff in Hb as [Hx Hb]. apply Z.leb_le in Hx.
    rewrite lookup_insert_Some. intros [[_ <-]|[_ Hy]]; [done|by eapply IH].
Qed.

Definition is_granted (a : answer) : bool := match a with SessionAnswer (Ok _) => true | _ => false end.

Lemma opened_run :
  handle demo_config (password_request "flashmall123") (at_time 100 started) = (opened, SessionAnswer (Ok opened_answer)).
Proof.
  unfold opened, served, opened_answer.
  assert (is_granted (handle demo_config (password_request "flashmall123") (at_time 100 started)).2 = true) as Hg
    by (vm_compute; reflexivity).
  destruct (handle _ _ _) as [s [[r|e]|r]]; simpl in *; done.
Qed.


(** The user logs out everywhere. *)
Definition user_ctx : request_ctx :=
  mkCtx (ClaimJSONNumber "1001") (ClaimText "1001") (ClaimText "Aw") (ClaimJSONNumber "1") (ClaimText "user").

Definition logged_out : env service auth_world := served (RLogoutAll user_ctx) (at_time 200 opened).

Lemma opened_inv : store_inv 0 (st_store (db opened)).
Proof.
  change (st_store (db opened)) with (db (run_ops [(100, OpCreateSession 1001 "web" 604800)] calm_demo)).
  apply (evolves_run 0 [(100, OpCreateSession 1001 "web" 604800)] calm_demo); [done|].
  apply started_ok. vm_compute. discriminate.
Qed.

Lemma ended_access_is_refused_witness :
  allowed demo_config (AccessToken opened_answer) 300 opened /\
  ~ allowed demo_config (AccessToken opened_answer) 300 logged_out.
Proof.
  split; [vm_compute; reflexivity|].
  destruct (usersByID (st_store (db opened)) !! 1001) as [v|] eqn:Hv; [|vm_compute in Hv; discriminate Hv].
  destruct (unspelled (AccessToken opened_answer)) as [p|] eqn:Hp; [|vm_compute in Hp; discriminate Hp].
  destruct (unpacked p) as [[secret c]|] eqn:Hc; [|vm_compute in Hp; injection Hp as <-; vm_compute in Hc; discriminate Hc].
  apply (ended_access_is_refused demo_config 0 1001 v (RLogoutAll user_ctx) (at_time 200 opened) logged_out (DoneAnswer (Ok tt)) c).
  - split; reflexivity.
  - exact opened_inv.
  - exact Hv.
  - vm_compute in Hv. injection Hv as <-. reflexivity.
  - vm_compute. reflexivity.
  - reflexivity.
  - vm_compute in Hp. injection Hp as <-. vm_compute in Hc. injection Hc as <- <-. vm_compute. reflexivity.
  - vm_compute in Hp. injection Hp as <-. vm_compute in Hc. injection Hc as <- <-. reflexivity.
  - vm_compute. split; discriminate.
  - vm_compute in Hp. injection Hp as <-. vm_compute in Hc. injection Hc as <- <-. vm_compute. split; discriminate.
  - vm_compute in Hp. injection Hp as <-. vm_compute in Hc. injection Hc as <- <-. vm_compute in Hv. injection Hv as <-.
    vm_compute. discriminate.
Defined.

(** * Limits of the checks *)

(** An account is counted under the phone number and, apart from that, under the
    user id: who alternates has twice the guesses. *)
Definition id_request (password : string) : request := RLogin false (mkLoginReq 1001 "" password "web" "" "").

Example two_counters :
  Forall (fun a => match a with SessionAnswer (Err (StatusError Unauthenticated _)) => true | _ => false end = true)
    (serve demo_config
       (map (fun t => (t, password_request "guess")) [10; 20; 30; 40; 50] ++
        map (fun t => (t, id_request "guess")) [11; 21; 31; 41; 51]) started).2.
Proof. vm_compute. repeat constructor. Qed.

(** An administrator whose [user_id] is a JSON number is 0 to [currentUserID], and
    can disable the own account; as a text it is refused. *)
Definition admin_ctx (id : claim) : request_ctx :=
  mkCtx id (ClaimText "1002") (ClaimText "Aw") (ClaimJSONNumber "1") (ClaimText "admin").

Definition status_of (u : Z) (s : env service auth_world) : option Z := u_Status <$> usersByID (st_store (db s)) !! u.

Example admin_disables_itself :
  parseUserIDClaim (ClaimJSONNumber "1002") = Some 1002 /\
  status_of 1002 (served (RAdminUserStatus (admin_ctx (ClaimJSONNumber "1002")) 1002 2) started) = Some userStatusDisabled /\
  status_of 1002 (served (RAdminUserStatus (admin_ctx (ClaimText "1002")) 1002 2) started) = Some statusActive.
Proof. vm_compute. repeat split. Qed.
