(* ===== verification/Cache.v ===== *)
(** The read cache of the gateway (app/gateway/hertz/internal/cache): its
    configuration, the local cache of an instance, what is written to Redis, the
    keys of the read views and which of them a change invalidates
    (handler/cache_helpers.go); and the cache at work (coordinator.go,
    invalidation.go): instances of the gateway that answer requests, refresh and
    invalidate, over one Redis and an origin that answers as it likes; each request
    is cut at its calls and at its uses of shared memory.  Times and durations are in
    nanoseconds. *)

From Stdlib Require Import Ascii.
From S2P Require Import Prelude Effects GoText ExistenceFilter.
Close Scope char_scope.

Definition second : Z := 10 ^ 9.
Definition millisecond : Z := 10 ^ 6.
Definition unix_milli (t : Z) : Z := t / millisecond.

(** * Configuration (coordinator.go, config.go) *)

Inductive Source := SourceL1 | SourceL2 | SourceStale | SourceOrigin.

Record Config := mkConfig {
  Prefix : string; EnableL1 : bool; EnableL2 : bool; StaleWhileRevalidate : bool; AllowStaleOnError : bool;
  L1TTL : Z; SoftTTL : Z; HardTTL : Z; OperationTimeout : Z; MaxEntries : Z
}.

Fixpoint trim_left_char (c : Ascii.ascii) (s : string) : string :=
  match s with
  | EmptyString => EmptyString
  | String a rest => if Ascii.eqb a c then trim_left_char c rest else s
  end.

(** [strings.Trim(s, ":")]. *)
Definition trim_colons (s : string) : string :=
  string_reverse (trim_left_char ":"%char (string_reverse (trim_left_char ":"%char s))).

(** The configuration that [New] makes; [client] says whether it is given one. *)
Definition New (config : Config) (client : bool) : Config :=
  let prefix := trim_colons (trim_space (Prefix config)) in
  let prefix := if is_empty prefix then "flashmall:cache" else prefix in
  let l1 := if L1TTL config <=? 0 then 2 * second else L1TTL config in
  let soft := if SoftTTL config <=? 0 then 30 * second else SoftTTL config in
  let hard := if HardTTL config <=? soft then int64 (2 * soft) else HardTTL config in
  let timeout := if OperationTimeout config <=? 0 then 200 * millisecond else OperationTimeout config in
  mkConfig prefix (EnableL1 config) (client && EnableL2 config) (StaleWhileRevalidate config)
    (AllowStaleOnError config) l1 soft hard timeout (MaxEntries config).

(** What the gateway configures. *)
Record CacheSettings := mkSettings {
  CachePrefix : string; CacheEnableL1 : bool; CacheEnableL2 : bool; CacheStaleWhileRevalidate : bool;
  CacheAllowStaleOnError : bool; CacheL1TTLMillis : Z; CacheSoftTTLSeconds : Z; CacheHardTTLSeconds : Z;
  CacheMaxEntries : Z
}.

Definition CacheConfig (c : CacheSettings) : Config :=
  let l1TTL := int64 (CacheL1TTLMillis c * millisecond) in
  let l1TTL := if l1TTL <=? 0 then 2 * second else l1TTL in
  let softTTL := int64 (CacheSoftTTLSeconds c * second) in
  let softTTL := if softTTL <=? 0 then 30 * second else softTTL in
  let hardTTL := int64 (CacheHardTTLSeconds c * second) in
  let hardTTL := if hardTTL <=? softTTL then 2 * 60 * second else hardTTL in
  let maxEntries := if CacheMaxEntries c <=? 0 then 512 else CacheMaxEntries c in
  mkConfig (CachePrefix c) (CacheEnableL1 c) (CacheEnableL2 c) (CacheStaleWhileRevalidate c)
    (CacheAllowStaleOnError c) l1TTL softTTL hardTTL 0 maxEntries.

(** * The local cache (l1.go) *)

Record l1Entry := mkL1 { l1_value : string; l1_expiresAt : Z; lastAccess : Z }.

#[export] Instance l1Entry_eq_dec : EqDecision l1Entry.
Proof. solve_decision. Defined.

Record localCache := mkLocal { entries : gmap string l1Entry; maxEntries : Z }.

Definition newLocalCache (n : Z) : localCache := mkLocal ∅ (if n <=? 0 then 512 else n).

Definition with_entries (m : gmap string l1Entry) (c : localCache) : localCache := mkLocal m (maxEntries c).

Definition get (key : string) (now : Z) (c : localCache) : localCache * option string :=
  match entries c !! key with
  | None => (c, None)
  | Some entry =>
      if negb (now <? l1_expiresAt entry) then (with_entries (delete key (entries c)) c, None)
      else (with_entries (<[key := mkL1 (l1_value entry) (l1_expiresAt entry) now]> (entries c)) c, Some (l1_value entry))
  end.

(** One round of the loop over the map. *)
Definition older (acc : string * Z) (e : string * l1Entry) : string * Z :=
  if is_empty acc.1 || (lastAccess e.2 <? acc.2) then (e.1, lastAccess e.2) else acc.

(** [iteration] lists the entries in the order in which the map is walked. *)
Definition evictOldestLocked (iteration : list (string * l1Entry)) (c : localCache) : localCache :=
  let oldestKey := (foldl older ("", 0) iteration).1 in
  if is_empty oldestKey then c else with_entries (delete oldestKey (entries c)) c.

Definition full (key : string) (c : localCache) : bool :=
  bool_decide (entries c !! key = None) && (maxEntries c <=? Z.of_nat (size (entries c))).

Definition set (iteration : list (string * l1Entry)) (key value : string) (expiresAt now : Z) (c : localCache) : localCache :=
  let c := if full key c then evictOldestLocked iteration c else c in
  with_entries (<[key := mkL1 value expiresAt now]> (entries c)) c.

Definition delete_keys (keys : list string) (c : localCache) : localCache :=
  with_entries (foldr delete (entries c) keys) c.

Definition matches (prefixes : list string) (key : string) : bool := existsb (has_prefix key) prefixes.

Definition deletePrefix (prefixes : list string) (c : localCache) : localCache :=
  with_entries (filter (fun e => matches prefixes e.1 = false) (entries c)) c.

(** * Redis (coordinator.go) *)

Record envelope := mkEnvelope { Value : string; SoftExpiresAt : Z; HardExpiresAt : Z }.

Section redis.
Variable config : Config.

Definition redisKey (key : string) : string := Prefix config +:+ ":" +:+ key.
Definition invalidationChannel : string := Prefix config +:+ ":invalidate".

Definition jitter (key : string) (max : Z) : Z :=
  if max <=? 0 then 0 else int64 (uint64 (uint64 max * (fnv32a key mod 100)) / 100).

Definition softTTL (key : string) : Z := int64 (SoftTTL config + jitter key (Z.quot (SoftTTL config) 10)).
Definition hardTTL (key : string) : Z := int64 (HardTTL config + jitter key (Z.quot (HardTTL config) 10)).

(** What [store] writes at [t]. *)
Definition sealed (key value : string) (t : Z) : envelope :=
  mkEnvelope value (unix_milli (t + softTTL key)) (unix_milli (t + hardTTL key)).

(** The client sends whole milliseconds, at least one. *)
Definition redis_ttl (d : Z) : Z := if d <? millisecond then millisecond else d / millisecond * millisecond.
End redis.

(** * The keys of the read views (cache_helpers.go) *)

Definition showcaseCatalogCacheKey : string := "showcase:catalog:v1".
Definition productDetailCacheKey (productID : Z) : string := "product:detail:" +:+ itoa productID +:+ ":v1".
Definition storeDetailCacheKey (merchantID : Z) : string := "store:detail:" +:+ itoa merchantID +:+ ":v1".

Definition keyword_digest (keyword : string) : string :=
  hex (take 6 (sha256_bytes (bytes_of_string (to_lower (trim_space keyword))))).

Definition storeProductsPrefix (merchantID : Z) : string := "store:products:" +:+ itoa merchantID +:+ ":".
Definition storeProductsCacheKey (merchantID page pageSize : Z) (keyword : string) : string :=
  storeProductsPrefix merchantID +:+ itoa page +:+ ":" +:+ itoa pageSize +:+ ":" +:+ keyword_digest keyword +:+ ":v1".

Definition showcaseCandidatesPrefix : string := "showcase:candidates:".
Definition showcaseCandidatesCacheKey (page pageSize merchantID : Z) (keyword : string) : string :=
  showcaseCandidatesPrefix +:+ itoa page +:+ ":" +:+ itoa pageSize +:+ ":" +:+ itoa merchantID +:+ ":" +:+
  keyword_digest keyword +:+ ":v1".

(** The calls a change makes, one after another; their errors are logged. *)
Inductive cache_call := CallInvalidate (keys : list string) | CallInvalidatePrefix (prefixes : list string).

Definition invalidateStoreReadCaches (merchantID : Z) : list cache_call :=
  if merchantID <=? 0 then [] else
  [CallInvalidate [showcaseCatalogCacheKey; storeDetailCacheKey merchantID];
   CallInvalidatePrefix [storeProductsPrefix merchantID];
   CallInvalidatePrefix [showcaseCandidatesPrefix]].

(** [metadata] is the merchant that the catalogue answers for the product. *)
Definition invalidateProductReadCaches (productID merchantID : Z) (metadata : option Z) : list cache_call :=
  if productID <=? 0 then [] else
  let merchantID := if merchantID <=? 0 then default merchantID metadata else merchantID in
  [CallInvalidate [showcaseCatalogCacheKey; productDetailCacheKey productID];
   CallInvalidatePrefix ["product:detail:"]] ++
  (if 0 <? merchantID then invalidateStoreReadCaches merchantID else []).

Definition invalidateShowcaseCaches : list cache_call :=
  [CallInvalidate [showcaseCatalogCacheKey]; CallInvalidatePrefix [showcaseCandidatesPrefix]].

(** * The cache at work *)

(** * State *)

(** What a call of the group does: the origin load of a request, which may hold a
    stale value, or of a refresh. *)
Inductive flight := ForRequest (stale : option string) | ForRefresh.

(** Where [GetOrLoad], or the goroutine of [refreshAsync], stands; [t] is its [now]. *)
Inductive phase :=
| ReadL1
| ReadL2 (t : Z)
| DropL2
| FillL1 (t : Z) (v : string)
| Join (stale : option string)
| Wait (stale : option string) (leader : nat)
| Load (f : flight)
| KeepL1 (f : flight) (v : string)
| KeepL2 (f : flight) (v : string) (t : Z)
| Land (f : flight) (r : option string)
| Answered (v : string) (source : Source)
| Failed
| JoinRefresh
| Refreshed.

Record request := mkRequest { rq_gateway : nat; rq_key : string; rq_start : Z; rq_phase : phase }.

Record message := mkMessage { msg_keys : list string; msg_prefixes : list string }.

(** An instance: its local cache, the calls in flight of its group by key, each with
    the request that leads it, and the messages to consume when it is subscribed. *)
Record gateway := mkGateway { gw_local : localCache; gw_group : gmap string nat; gw_inbox : option (list message) }.

(** A key of Redis: an envelope or other text, its expiry, and when it was made. *)
Record entry := mkEntry { e_text : option envelope; e_expires : Z; e_born : nat }.

(** Where a sequence of invalidations stands.  A scan knows the keys it has still to
    find: those that match since it began. *)
Inductive inv_phase :=
| Next (calls : list cache_call)
| DelKeys (keys : list string) (calls : list cache_call)
| Scan (all rest : list string) (todo : option (gmap string nat)) (calls : list cache_call)
| DelFound (all rest : list string) (todo : gmap string nat) (found : list string) (more : bool) (calls : list cache_call)
| Publish (m : message) (calls : list cache_call).

Record invalidation := mkInvalidation { iv_gateway : nat; iv_phase : inv_phase }.

(** An answer of the origin. *)
Record load := mkLoad { ld_key : string; ld_value : option string; ld_at : Z }.

Record system := mkSystem {
  sy_now : Z; sy_gateways : gmap nat gateway; sy_redis : gmap string entry; sy_births : nat;
  sy_requests : gmap nat request; sy_invalidations : gmap nat invalidation; sy_loads : list load
}.

Definition with_gateways v s := mkSystem (sy_now s) v (sy_redis s) (sy_births s) (sy_requests s) (sy_invalidations s) (sy_loads s).
Definition with_redis v n s := mkSystem (sy_now s) (sy_gateways s) v n (sy_requests s) (sy_invalidations s) (sy_loads s).
Definition with_requests v s := mkSystem (sy_now s) (sy_gateways s) (sy_redis s) (sy_births s) v (sy_invalidations s) (sy_loads s).
Definition with_invalidations v s := mkSystem (sy_now s) (sy_gateways s) (sy_redis s) (sy_births s) (sy_requests s) v (sy_loads s).
Definition with_loads v s := mkSystem (sy_now s) (sy_gateways s) (sy_redis s) (sy_births s) (sy_requests s) (sy_invalidations s) v.
Definition with_now v s := mkSystem v (sy_gateways s) (sy_redis s) (sy_births s) (sy_requests s) (sy_invalidations s) (sy_loads s).

Definition put_gateway (g : nat) (gw : gateway) (s : system) : system := with_gateways (<[g := gw]> (sy_gateways s)) s.
Definition goto (i : nat) (r : request) (ph : phase) (s : system) : system :=
  with_requests (<[i := mkRequest (rq_gateway r) (rq_key r) (rq_start r) ph]> (sy_requests s)) s.
Definition with_local (l : localCache) (gw : gateway) : gateway := mkGateway l (gw_group gw) (gw_inbox gw).
Definition with_group (m : gmap string nat) (gw : gateway) : gateway := mkGateway (gw_local gw) m (gw_inbox gw).
Definition with_inbox (q : option (list message)) (gw : gateway) : gateway := mkGateway (gw_local gw) (gw_group gw) q.

(** ** Redis *)

Definition visible (t : Z) (e : entry) : bool := t <? e_expires e.

Definition GET (k : string) (s : system) : option entry :=
  match sy_redis s !! k with Some e => if visible (sy_now s) e then Some e else None | None => None end.

Definition DEL (ks : list string) (s : system) : system := with_redis (foldr delete (sy_redis s) ks) (sy_births s) s.

Definition SET (k : string) (x : envelope) (ttl : Z) (s : system) : system :=
  match GET k s with
  | Some e => with_redis (<[k := mkEntry (Some x) (sy_now s + ttl) (e_born e)]> (sy_redis s)) (sy_births s) s
  | None => with_redis (<[k := mkEntry (Some x) (sy_now s + ttl) (sy_births s)]> (sy_redis s)) (S (sy_births s)) s
  end.

(** A call that fails has no effect, or takes effect while its caller sees an error. *)
Definition effect (f : fault) (op : system -> system) (s : system) : system :=
  match f with FailBefore => s | NoFault | FailAfter => op s end.
Definition succeeds (f : fault) : bool := match f with NoFault => true | _ => false end.

(** Keys of the scan: [SCAN] with [MATCH prefix*]; the prefixes hold no glob
    characters. *)
Definition matching (p : string) (s : system) : gmap string nat :=
  e_born <$> filter (fun e => visible (sy_now s) e.2 = true /\ has_prefix e.1 p = true) (sy_redis s).

(** Of the keys to find those that have existed since the scan began. *)
Definition still_there (todo : gmap string nat) (s : system) : Prop :=
  exists k n e, todo !! k = Some n /\ GET k s = Some e /\ e_born e = n.

#[export] Instance still_there_dec todo s : Decision (still_there todo s).
Proof.
  destruct (decide (map_Exists (fun k n => (e_born <$> GET k s) = Some n) todo)) as [Hm|Hm]; [left|right].
  - destruct Hm as (k&n&Hk&He). exists k, n.
    destruct (GET k s) as [e|]; [|discriminate He]. injection He as <-. exists e. split_and!; done.
  - intros (k&n&e&Hk&He&Hn). apply Hm. exists k, n. split; [done|]. rewrite He, <- Hn. done.
Defined.

(** * What is left open

    How a call goes, what the origin answers, in which order the local cache is
    walked, which number the goroutine of a refresh gets, what a scan answers. *)
Record choice := mkChoice {
  ch_fault : fault; ch_origin : option string; ch_iteration : list (string * l1Entry); ch_refresh : nat;
  ch_found : list string; ch_more : bool
}.

Definition walks (iteration : list (string * l1Entry)) (c : localCache) : bool :=
  bool_decide (NoDup iteration.*1) && bool_decide (list_to_map iteration = entries c).

(** Keys under which requests are made; [refreshAsync] puts "refresh:" before one. *)
Definition valid_key (key : string) : bool := negb (has_prefix key "refresh:") && negb (is_empty key).

(** * Requests *)

Section requests.
Variable config : Config.

(** [setL1]. *)
Definition setL1 (iteration : list (string * l1Entry)) (g : nat) (key value : string) (t : Z) (s : system) : option system :=
  if negb (EnableL1 config) then Some s else
  match sy_gateways s !! g with
  | Some gw =>
      if negb (full key (gw_local gw)) || walks iteration (gw_local gw)
      then Some (put_gateway g (with_local (set iteration key value (t + L1TTL config) (sy_now s) (gw_local gw)) gw) s)
      else None
  | None => None
  end.

(** The end of a request whose load has failed. *)
Definition fallback (stale : option string) : phase :=
  match stale with
  | Some v => if negb (is_empty v) && AllowStaleOnError config then Answered v SourceStale else Failed
  | None => Failed
  end.

Definition flight_key (f : flight) (key : string) : string :=
  match f with ForRequest _ => key | ForRefresh => "refresh:" +:+ key end.

Definition landed (f : flight) (r : option string) : phase :=
  match f with
  | ForRequest stale => match r with Some v => Answered v SourceOrigin | None => fallback stale end
  | ForRefresh => Refreshed
  end.

(** What [readL2] makes of the answer of Redis. *)
Definition after_read (t : Z) (answer : option entry) : phase :=
  match answer with
  | None => Join None
  | Some e =>
      match e_text e with
      | None => Join None
      | Some cached =>
          if HardExpiresAt cached <=? unix_milli t then DropL2
          else if unix_milli t <? SoftExpiresAt cached then FillL1 t (Value cached)
          else if StaleWhileRevalidate config then Answered (Value cached) SourceStale
          else Join (Some (Value cached))
      end
  end.

(** [refreshAsync] starts with a stale answer from Redis. *)
Definition refreshes (ph : phase) : bool := match ph with Answered _ SourceStale => true | _ => false end.

Definition start_flight (i : nat) (r : request) (f : flight) (s : system) : option system :=
  match sy_gateways s !! rq_gateway r with
  | Some gw =>
      match gw_group gw !! flight_key f (rq_key r) with
      | Some leader => Some (goto i r (match f with ForRequest stale => Wait stale leader | ForRefresh => Refreshed end) s)
      | None =>
          Some (goto i r (Load f) (put_gateway (rq_gateway r)
            (with_group (<[flight_key f (rq_key r) := i]> (gw_group gw)) gw) s))
      end
  | None => None
  end.

(** One step of request [i]. *)
Definition advance (i : nat) (r : request) (c : choice) (s : system) : option system :=
  match rq_phase r with
  | ReadL1 =>
      let next := if EnableL2 config then ReadL2 (sy_now s) else Join None in
      if EnableL1 config then
        match sy_gateways s !! rq_gateway r with
        | Some gw =>
            let '(l, v) := get (rq_key r) (sy_now s) (gw_local gw) in
            Some (goto i r (match v with Some v => Answered v SourceL1 | None => next end)
                    (put_gateway (rq_gateway r) (with_local l gw) s))
        | None => None
        end
      else Some (goto i r next s)
  | ReadL2 t =>
      let ph := if succeeds (ch_fault c) then after_read t (GET (redisKey config (rq_key r)) s) else Join None in
      if refreshes ph then
        match sy_requests s !! ch_refresh c with
        | Some _ => None
        | None => Some (goto i r ph (goto (ch_refresh c) (mkRequest (rq_gateway r) (rq_key r) (sy_now s) JoinRefresh) JoinRefresh s))
        end
      else Some (goto i r ph s)
  | DropL2 => Some (goto i r (Join None) (effect (ch_fault c) (DEL [redisKey config (rq_key r)]) s))
  | FillL1 t v => goto i r (Answered v SourceL2) <$> setL1 (ch_iteration c) (rq_gateway r) (rq_key r) v t s
  | Join stale => start_flight i r (ForRequest stale) s
  | JoinRefresh => start_flight i r ForRefresh s
  | Wait stale leader =>
      match sy_requests s !! leader with
      | Some r' =>
          match rq_phase r' with
          | Answered v SourceOrigin => Some (goto i r (Answered v SourceOrigin) s)
          | Answered _ SourceStale | Failed => Some (goto i r (fallback stale) s)
          | _ => None
          end
      | None => None
      end
  | Load f =>
      Some (goto i r (match ch_origin c with Some v => KeepL1 f v | None => Land f None end)
              (with_loads (mkLoad (rq_key r) (ch_origin c) (sy_now s) :: sy_loads s) s))
  | KeepL1 f v =>
      goto i r (if EnableL2 config then KeepL2 f v (sy_now s) else Land f (Some v)) <$>
        setL1 (ch_iteration c) (rq_gateway r) (rq_key r) v (sy_now s) s
  | KeepL2 f v t =>
      Some (goto i r (Land f (Some v))
        (effect (ch_fault c) (SET (redisKey config (rq_key r)) (sealed config (rq_key r) v t)
                                (redis_ttl (hardTTL config (rq_key r)))) s))
  | Land f a =>
      match sy_gateways s !! rq_gateway r with
      | Some gw => Some (goto i r (landed f a)
                     (put_gateway (rq_gateway r) (with_group (delete (flight_key f (rq_key r)) (gw_group gw)) gw) s))
      | None => None
      end
  | Answered _ _ | Failed | Refreshed => None
  end.
End requests.

(** * Invalidations and instances *)

Section system.
Variable config : Config.

Definition put_invalidation (j : nat) (g : nat) (ph : inv_phase) (s : system) : system :=
  with_invalidations (<[j := mkInvalidation g ph]> (sy_invalidations s)) s.

Definition on_local (g : nat) (f : localCache -> localCache) (s : system) : option system :=
  match sy_gateways s !! g with
  | Some gw => Some (put_gateway g (with_local (f (gw_local gw)) gw) s)
  | None => None
  end.

(** [PUBLISH] reaches every instance that is subscribed. *)
Definition PUBLISH (m : message) (s : system) : system :=
  with_gateways ((fun gw => with_inbox ((fun q => q ++ [m]) <$> gw_inbox gw) gw) <$> sy_gateways s) s.

(** After the answer of a scan: the next prefix, or the message. *)
Definition scanned (all rest : list string) (todo : gmap string nat) (more : bool) (calls : list cache_call) : inv_phase :=
  if more then Scan all rest (Some todo) calls
  else match rest with
       | [] | [_] => Publish (mkMessage [] all) calls
       | _ :: rest => Scan all rest None calls
       end.

(** One step of the invalidations [j] of instance [g]; an error ends a call, and the
    next one follows. *)
Definition inv_advance (j g : nat) (ph : inv_phase) (c : choice) (s : system) : option system :=
  match ph with
  | Next [] => None
  | Next (CallInvalidate keys :: calls) =>
      match keys with
      | [] => Some (put_invalidation j g (Next calls) s)
      | _ => put_invalidation j g (if EnableL2 config then DelKeys keys calls else Next calls) <$>
               on_local g (delete_keys keys) s
      end
  | Next (CallInvalidatePrefix prefixes :: calls) =>
      match prefixes with
      | [] => Some (put_invalidation j g (Next calls) s)
      | _ => put_invalidation j g (if EnableL2 config then Scan prefixes prefixes None calls else Next calls) <$>
               on_local g (deletePrefix prefixes) s
      end
  | DelKeys keys calls =>
      Some (put_invalidation j g (if succeeds (ch_fault c) then Publish (mkMessage keys []) calls else Next calls)
              (effect (ch_fault c) (DEL (redisKey config <$> keys)) s))
  | Scan all rest todo calls =>
      match rest with
      | [] => Some (put_invalidation j g (Publish (mkMessage [] all) calls) s)
      | p :: _ =>
          if negb (succeeds (ch_fault c)) then Some (put_invalidation j g (Next calls) s) else
          let todo := default (matching (redisKey config p) s) todo in
          let left := filter (fun e => e.1 ∉ ch_found c) todo in
          if bool_decide (Forall (fun k => is_Some (matching (redisKey config p) s !! k)) (ch_found c)) &&
             (ch_more c || bool_decide (~ still_there left s))
          then Some (put_invalidation j g
                 (match ch_found c with
                  | [] => scanned all rest left (ch_more c) calls
                  | found => DelFound all rest left found (ch_more c) calls
                  end) s)
          else None
      end
  | DelFound all rest todo found more calls =>
      Some (put_invalidation j g (if succeeds (ch_fault c) then scanned all rest todo more calls else Next calls)
              (effect (ch_fault c) (DEL found) s))
  | Publish m calls => Some (put_invalidation j g (Next calls) (effect (ch_fault c) (PUBLISH m) s))
  end.

(** [consumeInvalidations]. *)
Definition consume (m : message) (c : localCache) : localCache := deletePrefix (msg_prefixes m) (delete_keys (msg_keys m) c).

(** What may happen. *)
Inductive label :=
| LGet (i g : nat) (key : string)
| LStep (i : nat) (c : choice)
| LInvalidate (j g : nat) (calls : list cache_call)
| LInvStep (j : nat) (c : choice)
| LConsume (g : nat)
| LSubscribe (g : nat)
| LClose (g : nat)
| LCrash (g : nat)
| LTick (d : Z).

Definition exec (l : label) (s : system) : option system :=
  match l with
  | LGet i g key =>
      match sy_requests s !! i, sy_gateways s !! g with
      | None, Some _ =>
          if valid_key key then Some (goto i (mkRequest g key (sy_now s) ReadL1) ReadL1 s) else None
      | _, _ => None
      end
  | LStep i c => match sy_requests s !! i with Some r => advance config i r c s | None => None end
  | LInvalidate j g calls =>
      match sy_invalidations s !! j, sy_gateways s !! g with
      | None, Some _ => Some (put_invalidation j g (Next calls) s)
      | _, _ => None
      end
  | LInvStep j c =>
      match sy_invalidations s !! j with
      | Some iv => inv_advance j (iv_gateway iv) (iv_phase iv) c s
      | None => None
      end
  | LConsume g =>
      match sy_gateways s !! g with
      | Some gw =>
          match gw_inbox gw with
          | Some (m :: q) => Some (put_gateway g (with_local (consume m (gw_local gw)) (with_inbox (Some q) gw)) s)
          | _ => None
          end
      | None => None
      end
  | LSubscribe g =>
      match sy_gateways s !! g with
      | Some gw =>
          match gw_inbox gw with
          | None => if EnableL2 config then Some (put_gateway g (with_inbox (Some []) gw) s) else None
          | Some _ => None
          end
      | None => None
      end
  | LClose g =>
      match sy_gateways s !! g with Some gw => Some (put_gateway g (with_inbox None gw) s) | None => None end
  | LCrash g =>
      match sy_gateways s !! g with
      | Some gw =>
          Some (with_requests (filter (fun e => rq_gateway e.2 <> g) (sy_requests s))
                 (with_invalidations (filter (fun e => iv_gateway e.2 <> g) (sy_invalidations s))
                   (put_gateway g (mkGateway (newLocalCache (MaxEntries config)) ∅ None) s)))
      | None => None
      end
  | LTick d => if 0 <=? d then Some (with_now (sy_now s + d) s) else None
  end.

Definition step (s s' : system) : Prop := exists l, exec l s = Some s'.

Fixpoint run (ls : list label) (s : system) : option system :=
  match ls with
  | [] => Some s
  | l :: ls => match exec l s with Some s' => run ls s' | None => None end
  end.

(** Instances [0 .. n-1] that have just started, with whatever another programme has
    left in Redis: nothing. *)
Definition started (n : nat) (t : Z) : system :=
  mkSystem t (list_to_map ((fun g => (g, mkGateway (newLocalCache (MaxEntries config)) ∅ None)) <$> seq 0 n)) ∅ 0 ∅ ∅ [].
End system.
