(* ===== verification/CacheSafety.v ===== *)
(** Where the values of the read cache come from: the books of the calls in flight,
    and a scheme that follows every copy of a value through local caches, Redis and
    requests. *)

From S2P Require Import Prelude Effects GoText Cache.

(** * The local cache *)

(** The entries of [c'] are entries of [c], maybe used since. *)
Definition within (c' c : localCache) : Prop :=
  forall k x', entries c' !! k = Some x' ->
    exists x, entries c !! k = Some x /\ l1_value x = l1_value x' /\ l1_expiresAt x = l1_expiresAt x'.

Lemma within_refl c : within c c.
Proof. intros k x Hx. by exists x. Qed.

Lemma within_sub c m : m ⊆ entries c -> within (with_entries m c) c.
Proof. intros Hm k x Hx. exists x. split_and!; [|done..]. by eapply lookup_weaken. Qed.

Lemma get_within key t c : within (get key t c).1 c.
Proof.
  unfold get. destruct (entries c !! key) as [x|] eqn:Hx; [|apply within_refl].
  destruct (negb _); [apply within_sub, delete_subseteq|].
  intros k y. simpl. rewrite lookup_insert_Some. intros [[<- <-]|[_ Hy]]; [by exists x|by exists y].
Qed.

Lemma get_value key t c v :
  (get key t c).2 = Some v -> exists x, entries c !! key = Some x /\ l1_value x = v /\ t < l1_expiresAt x.
Proof.
  unfold get. destruct (entries c !! key) as [x|] eqn:Hx; [|done].
  destruct (Z.ltb_spec t (l1_expiresAt x)); [|done]. intros [= <-]. by exists x.
Qed.

Lemma evict_within it c : within (evictOldestLocked it c) c.
Proof.
  unfold evictOldestLocked. destruct (is_empty _); [apply within_refl|]. apply within_sub, delete_subseteq.
Qed.

Lemma delete_keys_sub ks (m : gmap string l1Entry) : foldr delete m ks ⊆ m.
Proof. induction ks; simpl; [done|]. etrans; [apply delete_subseteq|done]. Qed.

Lemma delete_keys_gone {A} ks (m : gmap string A) k : k ∈ ks -> foldr delete m ks !! k = None.
Proof.
  induction ks as [|k' ks IH]; intros Hk; [by apply elem_of_nil in Hk|]. simpl.
  apply elem_of_cons in Hk as [->|Hk]; [by rewrite lookup_delete_eq|].
  rewrite lookup_delete_None. right. by apply IH.
Qed.

Lemma delete_keys_other {A} ks (m : gmap string A) k : k ∉ ks -> foldr delete m ks !! k = m !! k.
Proof.
  induction ks as [|k' ks IH]; intros Hk; [done|]. simpl. apply not_elem_of_cons in Hk as [Hne Hk].
  rewrite lookup_delete_ne by done. by apply IH.
Qed.

Lemma delete_within ks c : within (delete_keys ks c) c.
Proof. apply within_sub, delete_keys_sub. Qed.
Lemma deletePrefix_within ps c : within (deletePrefix ps c) c.
Proof. apply within_sub, map_filter_subseteq. Qed.

Lemma within_trans c1 c2 c3 : within c1 c2 -> within c2 c3 -> within c1 c3.
Proof.
  intros H12 H23 k x Hx. destruct (H12 k x Hx) as (y&Hy&Hv&He). destruct (H23 k y Hy) as (z&Hz&Hv2&He2).
  exists z. split_and!; congruence.
Qed.

Lemma consume_within m c : within (consume m c) c.
Proof. unfold consume. eapply within_trans; [apply deletePrefix_within|apply delete_within]. Qed.

(** What a message names. *)
Definition names (m : message) (key : string) : bool :=
  bool_decide (key ∈ msg_keys m) || matches (msg_prefixes m) key.

Lemma consume_gone m c key : names m key = true -> entries (consume m c) !! key = None.
Proof.
  intros Hm. unfold consume, deletePrefix. simpl. apply map_lookup_filter_None. unfold names in Hm.
  apply orb_true_iff in Hm as [Hk|Hp].
  - left. unfold delete_keys. simpl. apply delete_keys_gone. by apply bool_decide_eq_true in Hk.
  - right. intros x _. simpl. by rewrite Hp.
Qed.

Lemma set_entry it key value e t c k x :
  entries (set it key value e t c) !! k = Some x ->
  (k = key /\ x = mkL1 value e t) \/ exists y, entries c !! k = Some y /\ l1_value y = l1_value x /\ l1_expiresAt y = l1_expiresAt x.
Proof.
  unfold set. simpl. rewrite lookup_insert_Some. intros [[<- <-]|[_ Hx]]; [by left|right].
  destruct (full key c); [|by exists x]. by apply evict_within in Hx.
Qed.

(** ** Its size

    The loop finds an oldest entry. *)
Lemma older_found it acc : is_empty acc.1 = false \/ it <> [] -> Forall (fun e => is_empty e.1 = false) it ->
  let r := foldl older acc it in
  is_empty r.1 = false /\ (r.1 = acc.1 \/ exists x, (r.1, x) ∈ it).
Proof.
  revert acc. induction it as [|e it IH]; intros acc Hn Hk; simpl.
  { destruct Hn as [Hn|]; [|done]. split; [done|by left]. }
  apply Forall_cons in Hk as [He Hk]. destruct (IH (older acc e)) as [H1 H2]; [|done|].
  - left. unfold older. destruct (is_empty acc.1) eqn:Ha; simpl; [done|]. by destruct (_ <? _).
  - split; [done|]. destruct H2 as [H2|[x Hx]]; [|right; exists x; by apply elem_of_cons; right].
    assert ((older acc e).1 = e.1 \/ (older acc e).1 = acc.1) as [Ho|Ho]
      by (unfold older; destruct (is_empty acc.1 || _); simpl; auto); rewrite Ho in H2.
    + right. exists e.2. rewrite H2. apply elem_of_cons. left. by destruct e.
    + by left.
Qed.

Lemma size_insert_le {A} (m : gmap string A) k x : (size (<[k := x]> m) <= S (size m))%nat.
Proof.
  destruct (m !! k) as [y|] eqn:Hk; [rewrite map_size_insert_Some by done|rewrite map_size_insert_None by done]; lia.
Qed.

Definition bounded (c : localCache) : Prop :=
  0 < maxEntries c /\ Z.of_nat (size (entries c)) <= maxEntries c /\ entries c !! "" = None.

Lemma walks_elem it c k x : walks it c = true -> (k, x) ∈ it -> entries c !! k = Some x.
Proof.
  unfold walks. intros [Hn Hl]%andb_true_iff Hx. apply bool_decide_eq_true in Hn, Hl. rewrite <- Hl.
  by apply elem_of_list_to_map.
Qed.

Lemma evict_shrinks it c :
  bounded c -> walks it c = true -> entries c <> ∅ -> (size (entries (evictOldestLocked it c)) < size (entries c))%nat.
Proof.
  intros (Hpos&Hsz&He) Hw Hne. unfold evictOldestLocked.
  assert (it <> []) as Hit.
  { intros ->. unfold walks in Hw. apply andb_true_iff in Hw as [_ Hl]. apply bool_decide_eq_true in Hl. by apply Hne. }
  assert (Forall (fun e => is_empty e.1 = false) it) as Hk.
  { apply Forall_forall. intros [k x] Hx. simpl. apply str_eqb_neq. intros ->. apply (walks_elem _ _ _ _ Hw) in Hx. congruence. }
  destruct (older_found it ("", 0) (or_intror Hit) Hk) as [H1 H2]. rewrite H1. simpl.
  destruct H2 as [H2|[x Hx]]; [by rewrite H2 in H1|]. apply (walks_elem _ _ _ _ Hw) in Hx.
  rewrite map_size_delete_Some by done. assert (size (entries c) <> 0%nat) by (by intros ?%map_size_empty_inv). lia.
Qed.

Lemma set_bounded it key value e t c :
  bounded c -> key <> "" -> full key c = true -> walks it c = true -> bounded (set it key value e t c).
Proof.
  intros Hb Hk Hf Hw. unfold set. rewrite Hf. pose proof Hf as Hfull. unfold full in Hf.
  apply andb_true_iff in Hf as [Hn Hs]. apply bool_decide_eq_true in Hn. apply Z.leb_le in Hs.
  assert (entries c <> ∅) as Hne.
  { intros He. rewrite He, map_size_empty in Hs. destruct Hb as (?&_). lia. }
  pose proof (evict_shrinks it c Hb Hw Hne) as Hlt. destruct Hb as (Hpos&Hsz&He).
  unfold bounded. simpl. assert (maxEntries (evictOldestLocked it c) = maxEntries c) as Hmax
    by (unfold evictOldestLocked; by destruct (is_empty _)).
  rewrite Hmax. split_and!; [done| |].
  - pose proof (size_insert_le (entries (evictOldestLocked it c)) key (mkL1 value e t)). lia.
  - rewrite lookup_insert_ne by done. apply eq_None_not_Some. intros [x Hx].
    apply evict_within in Hx as (y&Hy&_). congruence.
Qed.

Lemma set_bounded_room it key value e t c :
  bounded c -> key <> "" -> full key c = false -> bounded (set it key value e t c).
Proof.
  intros (Hpos&Hsz&He) Hk Hf. unfold set. rewrite Hf. unfold bounded. simpl. split_and!; [done| |by rewrite lookup_insert_ne].
  unfold full in Hf. apply andb_false_iff in Hf as [Hf|Hf].
  - apply bool_decide_eq_false in Hf. destruct (entries c !! key) as [x|] eqn:Hx; [|done].
    rewrite map_size_insert_Some by done. lia.
  - apply Z.leb_gt in Hf. pose proof (size_insert_le (entries c) key (mkL1 value e t)). lia.
Qed.

Lemma within_bounded c' c : maxEntries c' = maxEntries c -> within c' c -> bounded c -> bounded c'.
Proof.
  intros Hmax Hw (Hpos&Hsz&He). unfold bounded. rewrite Hmax. split_and!; [done| |].
  - enough (size (entries c') <= size (entries c))%nat by lia.
    rewrite <- !(size_dom (D := gset string)). apply subseteq_size. intros k [x Hx]%elem_of_dom.
    apply Hw in Hx as (y&Hy&_). apply elem_of_dom. by exists y.
  - apply eq_None_not_Some. intros [x Hx]. apply Hw in Hx as (y&Hy&_). congruence.
Qed.

(** * The calls in flight *)

Definition in_flight (ph : phase) : option flight :=
  match ph with Load f | KeepL1 f _ | KeepL2 f _ _ | Land f _ => Some f | _ => None end.

(** Phases of the leader of a load for requests, the last ones included. *)
Definition leads (ph : phase) : bool :=
  match ph with
  | Load (ForRequest _) | KeepL1 (ForRequest _) _ | KeepL2 (ForRequest _) _ _ | Land (ForRequest _) _
  | Answered _ SourceOrigin | Answered _ SourceStale | Failed => true
  | _ => false
  end.

Definition led_by (r rl : request) : Prop :=
  rq_key rl = rq_key r /\ rq_gateway rl = rq_gateway r /\ leads (rq_phase rl) = true.

Record wf (s : system) : Prop := {
  wf_group g gw k l : sy_gateways s !! g = Some gw -> gw_group gw !! k = Some l ->
    exists r f, sy_requests s !! l = Some r /\ rq_gateway r = g /\ in_flight (rq_phase r) = Some f /\ flight_key f (rq_key r) = k;
  wf_wait i r st l : sy_requests s !! i = Some r -> rq_phase r = Wait st l ->
    exists rl, sy_requests s !! l = Some rl /\ led_by r rl;
  wf_request i r : sy_requests s !! i = Some r ->
    valid_key (rq_key r) = true /\ is_Some (sy_gateways s !! rq_gateway r) /\ rq_start r <= sy_now s
}.

(** The next phase leads what the phase before led. *)
Definition goes_on (ph ph' : phase) : Prop :=
  (forall f, in_flight ph = Some f -> in_flight ph' = Some f) /\ (leads ph = true -> leads ph' = true).

Section books.
Variable config : Config.

Lemma wf_same s s' :
  sy_requests s' = sy_requests s -> sy_gateways s' = sy_gateways s -> sy_now s <= sy_now s' -> wf s -> wf s'.
Proof.
  intros Hr Hg Hn [H1 H2 H3]. constructor; rewrite ?Hr, ?Hg; try done.
  intros i r Hi. destruct (H3 i r Hi) as (?&?&?). split_and!; [done..|lia].
Qed.

Lemma wf_gateway g gw gw' s :
  sy_gateways s !! g = Some gw -> gw_group gw' ⊆ gw_group gw -> wf s -> wf (put_gateway g gw' s).
Proof.
  intros Hg Hsub [H1 H2 H3]. constructor; simpl.
  - intros g' gw1 k l. rewrite lookup_insert_Some. intros [[<- <-]|[_ Hg']] Hk; [|by eapply H1].
    eapply H1; [done|]. by eapply lookup_weaken.
  - done.
  - intros i r Hi. destruct (H3 i r Hi) as (?&Hgw&?). split_and!; [done| |done].
    apply lookup_insert_is_Some. destruct (decide (g = rq_gateway r)); auto.
Qed.

Lemma wf_goto i r ph s :
  sy_requests s !! i = Some r -> goes_on (rq_phase r) ph ->
  (forall st l, ph = Wait st l -> exists rl, sy_requests s !! l = Some rl /\ led_by r rl) ->
  wf s -> wf (goto i r ph s).
Proof.
  intros Hi [Hf Hl] Hw [H1 H2 H3]. constructor; simpl.
  - intros g gw k l Hg Hk. destruct (H1 g gw k l Hg Hk) as (rl&f&Hrl&Hgl&Hfl&Hkl).
    destruct (decide (l = i)) as [->|Hne]; [|exists rl, f; by rewrite lookup_insert_ne].
    exists (mkRequest (rq_gateway r) (rq_key r) (rq_start r) ph), f. rewrite lookup_insert_eq.
    simplify_eq. split_and!; try done. by apply Hf.
  - assert (forall r0 l rl, sy_requests s !! l = Some rl -> led_by r0 rl ->
      exists rl', <[i := mkRequest (rq_gateway r) (rq_key r) (rq_start r) ph]> (sy_requests s) !! l = Some rl' /\ led_by r0 rl') as Hkeep.
    { intros r0 l rl Hrl (Hk&Hg&Hlead). destruct (decide (l = i)) as [->|Hne]; [|exists rl; by rewrite lookup_insert_ne].
      rewrite lookup_insert_eq. simplify_eq. eexists. split; [done|]. unfold led_by. simpl. split_and!; auto. }
    intros j r' st l. rewrite lookup_insert_Some. intros [[<- <-]|[_ Hj]]; simpl; intros Hph.
    + destruct (Hw st l Hph) as (rl&Hrl&Hled). apply (Hkeep _ l rl Hrl). exact Hled.
    + destruct (H2 j r' st l Hj Hph) as (rl&Hrl&Hled). by eapply Hkeep.
  - intros j r'. rewrite lookup_insert_Some. intros [[<- <-]|[_ Hj]]; [|by eapply H3]. simpl. exact (H3 i r Hi).
Qed.

Lemma goes_on_waits ph ph' : in_flight ph = None -> leads ph = false -> goes_on ph ph'.
Proof. intros Hf Hl. split; [intros f Hf'; congruence|congruence]. Qed.

Lemma request_key_not_refresh key key' : valid_key key = true -> "refresh:" +:+ key' <> key.
Proof.
  intros Hv <-. unfold valid_key, has_prefix in Hv. rewrite strip_prefix_app in Hv.
  rewrite bool_decide_true in Hv by by eexists. done.
Qed.

(** A leader of the group has the key of the request that joins it. *)
Lemma wf_leader r stale gw l s :
  wf s -> (exists i, sy_requests s !! i = Some r) -> sy_gateways s !! rq_gateway r = Some gw ->
  gw_group gw !! flight_key (ForRequest stale) (rq_key r) = Some l -> exists rl, sy_requests s !! l = Some rl /\ led_by r rl.
Proof.
  intros Hwf [i Hi] Hg Hl. destruct (wf_group _ Hwf _ _ _ _ Hg Hl) as (rl&f&Hrl&Hgl&Hf&Hk).
  destruct (wf_request _ Hwf _ _ Hi) as (Hv&_&_). exists rl. split; [done|]. unfold led_by. simpl in Hk.
  destruct f as [st|]; simpl in Hk; [|by apply request_key_not_refresh in Hk].
  split_and!; [done..|]. destruct (rq_phase rl); simpl in *; simplify_eq; done.
Qed.

(** The group while a call starts or lands. *)
Lemma wf_start i r f gw s :
  wf s -> sy_requests s !! i = Some r -> in_flight (rq_phase r) = None -> leads (rq_phase r) = false ->
  sy_gateways s !! rq_gateway r = Some gw ->
  wf (goto i r (Load f) (put_gateway (rq_gateway r) (with_group (<[flight_key f (rq_key r) := i]> (gw_group gw)) gw) s)).
Proof.
  intros Hwf Hi Hfl Hle Hg. pose proof Hwf as [H1 H2 H3]. constructor; simpl.
  - intros g gw1 k l. rewrite lookup_insert_Some. intros [[<- <-]|[Hne Hg']]; simpl.
    + rewrite lookup_insert_Some. intros [[<- <-]|[Hk Hl]].
      * eexists _, f. rewrite lookup_insert_eq. by split_and!.
      * destruct (H1 _ _ _ _ Hg Hl) as (rl&f'&Hrl&Hgl&Hf&Hkl). exists rl, f'.
        rewrite lookup_insert_ne by (intros ->; congruence). by split_and!.
    + intros Hl. destruct (H1 _ _ _ _ Hg' Hl) as (rl&f'&Hrl&Hgl&Hf&Hkl). exists rl, f'.
      rewrite lookup_insert_ne by (intros ->; congruence). by split_and!.
  - intros j r' st l. rewrite lookup_insert_Some. intros [[<- <-]|[_ Hj]] Hph; [done|].
    destruct (H2 j r' st l Hj Hph) as (rl&Hrl&Hk&Hgw&Hled). exists rl.
    rewrite lookup_insert_ne by (intros ->; congruence). by split_and!.
  - intros j r'. rewrite lookup_insert_Some. intros Hj.
    assert (exists r0, sy_requests s !! j = Some r0 /\ rq_key r0 = rq_key r' /\ rq_gateway r0 = rq_gateway r' /\ rq_start r0 = rq_start r') as (r0&Hr0&Ek&Eg&Es).
    { destruct Hj as [[<- <-]|[_ Hj]]; [by exists r|by exists r']. }
    destruct (H3 j r0 Hr0) as (Hv&Hgw&Hs). rewrite Ek in Hv. rewrite Eg in Hgw. rewrite Es in Hs. split_and!; [done| |done].
    apply lookup_insert_is_Some. destruct (decide (rq_gateway r = rq_gateway r')); auto.
Qed.

Lemma wf_land i r f a gw s :
  wf s -> sy_requests s !! i = Some r -> rq_phase r = Land f a -> sy_gateways s !! rq_gateway r = Some gw ->
  wf (goto i r (landed config f a) (put_gateway (rq_gateway r) (with_group (delete (flight_key f (rq_key r)) (gw_group gw)) gw) s)).
Proof.
  intros Hwf Hi Hph Hg.
  assert (wf (put_gateway (rq_gateway r) (with_group (delete (flight_key f (rq_key r)) (gw_group gw)) gw) s)) as Hwf'.
  { eapply wf_gateway; [done| |done]. apply delete_subseteq. }
  pose proof Hwf' as [H1 H2 H3]. pose proof (wf_request _ Hwf i r Hi) as (Hval&_&_).
  constructor; simpl in *.
  - intros g gw1 k l Hg1 Hl. destruct (H1 g gw1 k l Hg1 Hl) as (rl&f'&Hrl&Hgl&Hf&Hkl).
    exists rl, f'. rewrite lookup_insert_ne; [by split_and!|]. intros ->. simplify_eq.
    rewrite Hph in Hf. simpl in Hf. injection Hf as <-. rewrite lookup_insert_eq in Hg1.
    injection Hg1 as <-. simpl in Hl. by rewrite lookup_delete_eq in Hl.
  - intros j r' st l. rewrite lookup_insert_Some. intros [[<- <-]|[_ Hj]] Hph'; simpl in *.
    { exfalso. destruct f as [[]|], a; simpl in Hph'; try done. by destruct (_ && _). }
    destruct (H2 j r' st l Hj Hph') as (rl&Hrl&Hk&Hgw&Hled).
    destruct (decide (l = i)) as [->|Hne]; [|exists rl; by rewrite lookup_insert_ne].
    rewrite lookup_insert_eq. simplify_eq. eexists. split; [done|]. unfold led_by. simpl. split_and!; [done..|].
    rewrite Hph in Hled. destruct f as [st'|]; [|done]. destruct a; simpl; [done|]. unfold fallback.
    destruct st'; [|done]. by destruct (_ && _).
  - intros j r'. rewrite lookup_insert_Some. intros [[<- <-]|[_ Hj]]; [|by eapply H3]. simpl. exact (H3 i r Hi).
Qed.
End books.

Section preserved.
Variable config : Config.

Lemma setL1_shape it g key v t s s' :
  setL1 config it g key v t s = Some s' ->
  (EnableL1 config = false /\ s' = s) \/
  exists gw, sy_gateways s !! g = Some gw /\ (full key (gw_local gw) = false \/ walks it (gw_local gw) = true) /\
    s' = put_gateway g (with_local (set it key v (t + L1TTL config) (sy_now s) (gw_local gw)) gw) s.
Proof.
  unfold setL1. destruct (EnableL1 config); simpl; [|intros [= <-]; by left].
  destruct (sy_gateways s !! g) as [gw|]; [|done]. destruct (negb _ || _) eqn:Hw; [|done]. intros [= <-].
  right. exists gw. split_and!; [done| |done]. destruct (full key (gw_local gw)); [right|by left]. by simpl in Hw.
Qed.

(** Steps on the local cache, the inbox and Redis keep the books. *)
Lemma wf_local g gw l q s :
  wf s -> sy_gateways s !! g = Some gw -> wf (put_gateway g (mkGateway l (gw_group gw) q) s).
Proof. intros Hwf Hg. by eapply wf_gateway. Qed.

Lemma wf_setL1 it g key v t s s' :
  setL1 config it g key v t s = Some s' -> wf s -> wf s' /\ sy_requests s' = sy_requests s.
Proof.
  intros Hs Hwf. apply setL1_shape in Hs as [[_ ->]|(gw&Hg&_&->)]; [done|]. split; [|done]. by apply wf_local.
Qed.

Lemma wf_effect f op s :
  (forall s0, sy_requests (op s0) = sy_requests s0 /\ sy_gateways (op s0) = sy_gateways s0 /\ sy_now (op s0) = sy_now s0) ->
  wf s -> wf (effect f op s).
Proof.
  intros Hop Hwf. unfold effect. destruct (Hop s) as (H1&H2&H3).
  destruct f; [|done|]; (apply (wf_same s); [done|done|lia|done]).
Qed.

Lemma DEL_same ks s : sy_requests (DEL ks s) = sy_requests s /\ sy_gateways (DEL ks s) = sy_gateways s /\ sy_now (DEL ks s) = sy_now s.
Proof. done. Qed.
Lemma SET_same k x ttl s :
  sy_requests (SET k x ttl s) = sy_requests s /\ sy_gateways (SET k x ttl s) = sy_gateways s /\ sy_now (SET k x ttl s) = sy_now s.
Proof. unfold SET. by destruct (GET k s). Qed.

Lemma wf_PUBLISH m s : wf s -> wf (PUBLISH m s).
Proof.
  intros [H1 H2 H3]. constructor; simpl; try done.
  - intros g gw k l. rewrite lookup_fmap_Some. intros (gw0&<-&Hg) Hl. by eapply H1.
  - intros i r Hi. rewrite lookup_fmap, fmap_is_Some. by eapply H3.
Qed.

Lemma effect_requests f op s :
  (forall s0, sy_requests (op s0) = sy_requests s0) -> sy_requests (effect f op s) = sy_requests s.
Proof. intros Hop. by destruct f; simpl. Qed.

Lemma not_leading_goes_on ph ph' : in_flight ph = None -> leads ph = false -> goes_on ph ph'.
Proof. apply goes_on_waits. Qed.

Lemma wf_spawn i r s :
  sy_requests s !! i = None -> valid_key (rq_key r) = true -> is_Some (sy_gateways s !! rq_gateway r) -> rq_start r <= sy_now s ->
  in_flight (rq_phase r) = None -> (forall st l, rq_phase r <> Wait st l) -> wf s -> wf (goto i r (rq_phase r) s).
Proof.
  intros Hi Hv Hg Hn Hf Hw [H1 H2 H3]. constructor; simpl.
  - intros g gw k l Hgw Hl. destruct (H1 _ _ _ _ Hgw Hl) as (rl&f&Hrl&?). exists rl, f.
    by rewrite lookup_insert_ne by (intros ->; congruence).
  - intros j r' st l. rewrite lookup_insert_Some. intros [[<- <-]|[_ Hj]] Hph; [by apply Hw in Hph|].
    destruct (H2 _ _ _ _ Hj Hph) as (rl&Hrl&?). exists rl. by rewrite lookup_insert_ne by (intros ->; congruence).
  - intros j r'. rewrite lookup_insert_Some. intros [[<- <-]|[_ Hj]]; [done|by eapply H3].
Qed.

Lemma wf_advance i r c s s' :
  wf s -> sy_requests s !! i = Some r -> advance config i r c s = Some s' -> wf s'.
Proof.
  intros Hwf Hi. destruct (wf_request _ Hwf i r Hi) as (Hv&[gw Hg]&Hst). unfold advance.
  destruct (rq_phase r) eqn:Hph.
  - destruct (EnableL1 config).
    + rewrite Hg. destruct (get _ _ _) as [l v]. intros [= <-].
      apply wf_goto; [done|by apply not_leading_goes_on; rewrite Hph| |by apply wf_local].
      by destruct v, (EnableL2 config).
    + intros [= <-]. apply wf_goto; [done|by apply not_leading_goes_on; rewrite Hph| |done]. by destruct (EnableL2 config).
  - set (ph := if succeeds _ then _ else _).
    assert (forall st l, ph <> Wait st l) as Hnw.
    { intros st l. unfold ph, after_read. repeat (case_match; try done). }
    destruct (refreshes ph).
    + destruct (sy_requests s !! ch_refresh c) eqn:Hc; [done|]. intros [= <-].
      apply wf_goto; [simpl; rewrite lookup_insert_ne by congruence; done
                     |by apply not_leading_goes_on; rewrite Hph|by intros st l ?%Hnw|].
      apply (wf_spawn (ch_refresh c) (mkRequest (rq_gateway r) (rq_key r) (sy_now s) JoinRefresh)); simpl; try done; by exists gw.
    + intros [= <-]. apply wf_goto; [done|by apply not_leading_goes_on; rewrite Hph|by intros st l ?%Hnw|done].
  - intros [= <-]. apply wf_goto; [by rewrite effect_requests|by apply not_leading_goes_on; rewrite Hph|done|].
    by apply wf_effect.
  - destruct (setL1 _ _ _ _ _ _ _) as [s1|] eqn:Hset; [|done]. intros [= <-].
    destruct (wf_setL1 _ _ _ _ _ _ _ Hset Hwf) as [Hwf1 Hr1].
    apply wf_goto; [by rewrite Hr1|by apply not_leading_goes_on; rewrite Hph|done|done].
  - unfold start_flight. rewrite Hg. destruct (gw_group gw !! _) as [l|] eqn:Hl; intros [= <-].
    + apply wf_goto; [done|by apply not_leading_goes_on; rewrite Hph| |done]. intros st l' [= <- <-].
      eapply wf_leader; [done|by exists i|done|done].
    + apply wf_start; try done; by rewrite Hph.
  - destruct (sy_requests s !! leader) as [r'|]; [|done].
    assert (forall ph, (forall st l, ph <> Wait st l) -> wf (goto i r ph s)) as Hend.
    { intros ph Hnw. apply wf_goto; [done|by apply not_leading_goes_on; rewrite Hph|by intros st l ?%Hnw|done]. }
    destruct (rq_phase r') as [| | | | | | | | | |? []| | |]; try done; intros [= <-]; apply Hend;
      intros st l; unfold fallback; repeat case_match; done.
  - intros [= <-]. apply wf_goto; [done| | |by eapply wf_same; [..|exact Hwf]].
    + rewrite Hph. split; [by intros f' [= <-]; destruct (ch_origin c)|by destruct (ch_origin c), f].
    + by destruct (ch_origin c).
  - destruct (setL1 _ _ _ _ _ _ _) as [s1|] eqn:Hset; [|done]. intros [= <-].
    destruct (wf_setL1 _ _ _ _ _ _ _ Hset Hwf) as [Hwf1 Hr1]. apply wf_goto; [by rewrite Hr1| | |done].
    + rewrite Hph. split; [by intros f' [= <-]; destruct (EnableL2 config)|by destruct (EnableL2 config), f].
    + by destruct (EnableL2 config).
  - intros [= <-]. assert (wf (effect (ch_fault c) (SET (redisKey config (rq_key r)) (sealed config (rq_key r) v t)
      (redis_ttl (hardTTL config (rq_key r)))) s)) as Hwf1 by (apply wf_effect; [apply SET_same|done]).
    apply wf_goto; [|rewrite Hph; split; [by intros f' [= <-]|by destruct f]|done|done].
    rewrite effect_requests; [done|]. intros s0. apply SET_same.
  - rewrite Hg. intros [= <-]. by apply wf_land.
  - done.
  - done.
  - unfold start_flight. rewrite Hg. destruct (gw_group gw !! _) as [l|] eqn:Hl; intros [= <-].
    + apply wf_goto; [done|by apply not_leading_goes_on; rewrite Hph|done|done].
    + apply wf_start; try done; by rewrite Hph.
  - done.
Qed.
End preserved.

Section system.
Variable config : Config.

Lemma on_local_shape g f s s' :
  on_local g f s = Some s' -> exists gw, sy_gateways s !! g = Some gw /\ s' = put_gateway g (with_local (f (gw_local gw)) gw) s.
Proof. unfold on_local. destruct (sy_gateways s !! g) as [gw|]; [|done]. intros [= <-]. by exists gw. Qed.

(** An invalidation changes a local cache of its instance, Redis or inboxes. *)
Inductive inv_effect (g : nat) (s : system) : system -> Prop :=
| inv_same : inv_effect g s s
| inv_local gw f : sy_gateways s !! g = Some gw -> (forall c, within (f c) c /\ maxEntries (f c) = maxEntries c) ->
    inv_effect g s (put_gateway g (with_local (f (gw_local gw)) gw) s)
| inv_del ks : inv_effect g s (DEL ks s)
| inv_publish m : inv_effect g s (PUBLISH m s).

Lemma inv_effect_call g f op s : inv_effect g s (op s) -> inv_effect g s (effect f op s).
Proof. intros Hop. destruct f; simpl; [done|apply inv_same|done]. Qed.

Lemma inv_advance_shape j g ph c s s' :
  inv_advance config j g ph c s = Some s' -> exists ph' s1, s' = put_invalidation j g ph' s1 /\ inv_effect g s s1.
Proof.
  unfold inv_advance. intros Hs. destruct ph as [[|[keys|prefixes] calls]|keys calls|all rest todo calls|all rest todo found more calls|m calls].
  - done.
  - destruct keys as [|k keys]; [injection Hs as <-; eexists _, s; split; [done|constructor]|].
    destruct (on_local _ _ _) as [s1|] eqn:Hl; [|done]. injection Hs as <-. apply on_local_shape in Hl as (gw&Hg&->).
    eexists _, _. split; [done|]. eapply (inv_local g s gw (delete_keys (k :: keys))); [done|].
    intros c'. split; [apply delete_within|done].
  - destruct prefixes as [|p ps]; [injection Hs as <-; eexists _, s; split; [done|constructor]|].
    destruct (on_local _ _ _) as [s1|] eqn:Hl; [|done]. injection Hs as <-. apply on_local_shape in Hl as (gw&Hg&->).
    eexists _, _. split; [done|]. eapply (inv_local g s gw (deletePrefix (p :: ps))); [done|].
    intros c'. split; [apply deletePrefix_within|done].
  - injection Hs as <-. eexists _, _. split; [done|]. apply inv_effect_call. constructor.
  - destruct rest as [|p rest]; [injection Hs as <-; eexists _, s; split; [done|constructor]|].
    destruct (negb _); [injection Hs as <-; eexists _, s; split; [done|constructor]|].
    destruct (_ && _); [|done]. injection Hs as <-. eexists _, s. split; [done|constructor].
  - injection Hs as <-. eexists _, _. split; [done|]. apply inv_effect_call. constructor.
  - injection Hs as <-. eexists _, _. split; [done|]. apply inv_effect_call. constructor.
Qed.

Lemma wf_inv_effect g s s' : inv_effect g s s' -> wf s -> wf s'.
Proof.
  intros [|gw f Hg _|ks|m] Hwf; [done|by apply wf_local|by apply (wf_same s); [..|simpl; lia|]|by apply wf_PUBLISH].
Qed.

Lemma wf_exec l s s' : wf s -> exec config l s = Some s' -> wf s'.
Proof.
  intros Hwf. destruct l as [i g key|i c|j g calls|j c|g|g|g|g|d]; simpl.
  - destruct (sy_requests s !! i) eqn:Hi; [done|]. destruct (sy_gateways s !! g) as [gw|] eqn:Hg; [|done].
    destruct (valid_key key) eqn:Hk; [|done]. intros [= <-].
    apply (wf_spawn i (mkRequest g key (sy_now s) ReadL1)); simpl; try done.
  - destruct (sy_requests s !! i) as [r|] eqn:Hi; [|done]. by apply wf_advance.
  - destruct (sy_invalidations s !! j); [done|]. destruct (sy_gateways s !! g); [|done]. intros [= <-].
    by apply (wf_same s); [..|simpl; lia|].
  - destruct (sy_invalidations s !! j) as [iv|]; [|done]. intros Hs.
    apply inv_advance_shape in Hs as (ph'&s1&->&He). apply (wf_same s1); [done..|simpl; lia|]. by eapply wf_inv_effect.
  - destruct (sy_gateways s !! g) as [gw|] eqn:Hg; [|done]. destruct (gw_inbox gw) as [[|m q]|]; [done| |done].
    intros [= <-]. exact (wf_local g gw _ _ s Hwf Hg).
  - destruct (sy_gateways s !! g) as [gw|] eqn:Hg; [|done]. destruct (gw_inbox gw); [done|].
    destruct (EnableL2 config); [|done]. intros [= <-]. exact (wf_local g gw _ _ s Hwf Hg).
  - destruct (sy_gateways s !! g) as [gw|] eqn:Hg; [|done]. intros [= <-]. exact (wf_local g gw _ _ s Hwf Hg).
  - destruct (sy_gateways s !! g) as [gw|] eqn:Hg; [|done]. intros [= <-]. pose proof Hwf as [H1 H2 H3]. constructor; simpl.
    + intros g' gw1 k l. rewrite lookup_insert_Some. intros [[<- <-]|[Hne Hg']] Hl; [done|].
      destruct (H1 _ _ _ _ Hg' Hl) as (r&f&Hr&Hgr&?). exists r, f. split; [|done].
      apply map_lookup_filter_Some. split; [done|]. simpl. congruence.
    + intros i r st l. rewrite map_lookup_filter_Some. intros [Hi Hgr] Hph.
      destruct (H2 _ _ _ _ Hi Hph) as (rl&Hrl&Hled). exists rl. split; [|done].
      apply map_lookup_filter_Some. split; [done|]. simpl in *. destruct Hled as (_&Hgl&_). congruence.
    + intros i r. rewrite map_lookup_filter_Some. intros [Hi Hgr]. destruct (H3 _ _ Hi) as (?&?&?).
      split_and!; [done| |done]. apply lookup_insert_is_Some. destruct (decide (g = rq_gateway r)); auto.
  - destruct (Z.leb_spec 0 d); [|done]. intros [= <-]. apply (wf_same s); [done..|simpl; lia|done].
Qed.

Lemma wf_started n t : wf (started config n t).
Proof.
  constructor; simpl; try by intros *; rewrite ?lookup_empty.
  intros g gw k l Hg. apply elem_of_list_to_map_2, list_elem_of_fmap in Hg as (?&[= -> ->]&_). simpl. by rewrite lookup_empty.
Qed.
End system.
