(* ===== verification/CacheFlow.v ===== *)
(** A scheme that follows every copy of a value through the read cache: what holds of
    the values the origin answers, and is kept by each move of a value between a local
    cache, Redis and a request, holds of every value that is answered. *)

From S2P Require Import Prelude Effects GoText Cache CacheSafety.

(** How a request has come by a value it holds. *)
Inductive holding := Fresh (t : Z) | Stale | Loaded | Kept (t : Z) | Given (source : Source).

Definition stale_of (stale : option string) : list (string * holding) :=
  match stale with Some v => [(v, Stale)] | None => [] end.
Definition flight_stale (f : flight) : list (string * holding) :=
  match f with ForRequest stale => stale_of stale | ForRefresh => [] end.

Definition held (ph : phase) : list (string * holding) :=
  match ph with
  | FillL1 t v => [(v, Fresh t)]
  | Join stale | Wait stale _ => stale_of stale
  | Load f | Land f None => flight_stale f
  | KeepL1 f v | Land f (Some v) => (v, Loaded) :: flight_stale f
  | KeepL2 f v t => (v, Kept t) :: flight_stale f
  | Answered v source => [(v, Given source)]
  | ReadL1 | ReadL2 _ | DropL2 | Failed | JoinRefresh | Refreshed => []
  end.

Record flow := mkFlow {
  (** Of a value that request [i] of an instance for a key holds. *)
  okr : Z -> list load -> nat -> nat -> string -> Z -> holding -> string -> Prop;
  (** Of an entry of the local cache of an instance with an inbox. *)
  ok1 : Z -> list load -> nat -> option (list message) -> string -> string -> Z -> Prop;
  (** Of an envelope in Redis. *)
  ok2 : Z -> list load -> string -> envelope -> Prop;
  (** Of a load that lasts since a request started; whether instances unsubscribe. *)
  prompt : Z -> Z -> Prop;
  closes : bool;
  (** The log of the origin when the scheme begins. *)
  base : list load
}.

Record laws (config : Config) (F : flow) : Prop := {
  okr_mono t t' ls ls' i g k st h v : t <= t' -> ls `suffix_of` ls' -> okr F t ls i g k st h v -> okr F t' ls' i g k st h v;
  ok1_mono t t' ls ls' g q k v e : t <= t' -> ls `suffix_of` ls' -> ok1 F t ls g q k v e -> ok1 F t' ls' g q k v e;
  ok2_mono t t' ls ls' k x : t <= t' -> ls `suffix_of` ls' -> ok2 F t ls k x -> ok2 F t' ls' k x;
  flow_hit t ls i g q k st v e : ok1 F t ls g q k v e -> t < e -> st <= t -> okr F t ls i g k st (Given SourceL1) v;
  flow_fresh t ls i g k st tr x :
    ok2 F t ls k x -> unix_milli tr < SoftExpiresAt x -> st <= tr <= t -> okr F t ls i g k st (Fresh tr) (Value x);
  flow_stale t ls i g k st tr x :
    ok2 F t ls k x -> unix_milli tr < HardExpiresAt x -> st <= tr <= t -> okr F t ls i g k st Stale (Value x);
  flow_fill t ls i g q k st tr v : okr F t ls i g k st (Fresh tr) v ->
    ok1 F t ls g q k v (tr + L1TTL config) /\ okr F t ls i g k st (Given SourceL2) v;
  flow_load t ls i g k st v : st <= t -> base F `suffix_of` ls -> okr F t (mkLoad k (Some v) t :: ls) i g k st Loaded v;
  flow_keep1 t ls i g q k st v : prompt F t st -> okr F t ls i g k st Loaded v ->
    ok1 F t ls g q k v (t + L1TTL config) /\ okr F t ls i g k st (Kept t) v;
  flow_keep2 t ls i g k st tk v : okr F t ls i g k st (Kept tk) v ->
    ok2 F t ls k (sealed config k v tk) /\ okr F t ls i g k st Loaded v;
  flow_land t ls i g k st v : okr F t ls i g k st Loaded v -> okr F t ls i g k st (Given SourceOrigin) v;
  flow_wait t ls i j g k st st' v : okr F t ls i g k st Loaded v -> prompt F t st -> st' <= t ->
    okr F t ls j g k st' (Given SourceOrigin) v;
  flow_give t ls i g k st v : okr F t ls i g k st Stale v -> okr F t ls i g k st (Given SourceStale) v;
  flow_publish t ls g q k v e m : ok1 F t ls g (Some q) k v e -> ok1 F t ls g (Some (q ++ [m])) k v e;
  flow_consume t ls g q k v e m : ok1 F t ls g (Some (m :: q)) k v e -> names m k = false -> ok1 F t ls g (Some q) k v e;
  flow_close t ls g q k v e : closes F = true -> ok1 F t ls g q k v e -> ok1 F t ls g None k v e;
  flow_subscribe t ls g k v e : ok1 F t ls g None k v e -> ok1 F t ls g (Some []) k v e
}.

Definition read_time (ph : phase) : option Z := match ph with ReadL2 t => Some t | _ => None end.

Record good (config : Config) (F : flow) (s : system) : Prop := {
  good_l1 g gw k x : sy_gateways s !! g = Some gw -> entries (gw_local gw) !! k = Some x ->
    ok1 F (sy_now s) (sy_loads s) g (gw_inbox gw) k (l1_value x) (l1_expiresAt x);
  good_l2 k e x : sy_redis s !! redisKey config k = Some e -> e_text e = Some x -> ok2 F (sy_now s) (sy_loads s) k x;
  good_held i r v h : sy_requests s !! i = Some r -> (v, h) ∈ held (rq_phase r) ->
    okr F (sy_now s) (sy_loads s) i (rq_gateway r) (rq_key r) (rq_start r) h v;
  good_wait i r st l rl v : sy_requests s !! i = Some r -> rq_phase r = Wait st l -> sy_requests s !! l = Some rl ->
    rq_phase rl = Answered v SourceOrigin ->
    okr F (sy_now s) (sy_loads s) i (rq_gateway r) (rq_key r) (rq_start r) (Given SourceOrigin) v;
  good_read i r t : sy_requests s !! i = Some r -> read_time (rq_phase r) = Some t -> rq_start r <= t <= sy_now s;
  good_base : base F `suffix_of` sy_loads s
}.

(** Loads are prompt: each call in flight has not lasted too long. *)
Definition all_prompt (F : flow) (s : system) : Prop :=
  forall i r f, sy_requests s !! i = Some r -> in_flight (rq_phase r) = Some f -> prompt F (sy_now s) (rq_start r).

Section flow.
Context (config : Config) (F : flow) (L : laws config F).

Lemma good_passes s s' :
  sy_requests s' = sy_requests s -> sy_gateways s' = sy_gateways s -> sy_redis s' = sy_redis s ->
  sy_now s <= sy_now s' -> sy_loads s `suffix_of` sy_loads s' -> good config F s -> good config F s'.
Proof.
  intros Hr Hg Hx Hn Hl [H1 H2 H3 H4 H5 H6]. constructor; rewrite ?Hr, ?Hg, ?Hx; intros.
  - eapply (ok1_mono _ _ L); [done|done|]. by eapply H1.
  - eapply (ok2_mono _ _ L); [done|done|]. by eapply H2.
  - eapply (okr_mono _ _ L); [done|done|]. by eapply H3.
  - eapply (okr_mono _ _ L); [done|done|]. by eapply H4.
  - assert (rq_start r <= t <= sy_now s) by by eapply H5. lia.
  - by etrans.
Qed.

(** Local caches of an instance; Redis. *)
Lemma good_gateway g gw' s :
  (forall k x, entries (gw_local gw') !! k = Some x ->
     ok1 F (sy_now s) (sy_loads s) g (gw_inbox gw') k (l1_value x) (l1_expiresAt x)) ->
  good config F s -> good config F (put_gateway g gw' s).
Proof.
  intros Hgw [H1 H2 H3 H4 H5 H6]. constructor; simpl; try done.
  intros g1 gw1 k x. rewrite lookup_insert_Some. intros [[<- <-]|[_ Hg1]] Hx; [by apply Hgw|by eapply H1].
Qed.

Lemma good_within g gw c' q s :
  sy_gateways s !! g = Some gw -> within c' (gw_local gw) ->
  (forall k v e, ok1 F (sy_now s) (sy_loads s) g (gw_inbox gw) k v e -> ok1 F (sy_now s) (sy_loads s) g q k v e) ->
  good config F s -> good config F (put_gateway g (mkGateway c' (gw_group gw) q) s).
Proof.
  intros Hg Hw Hq Hgood. apply good_gateway; [|done]. intros k x Hx. simpl in Hx.
  destruct (Hw k x Hx) as (y&Hy&<-&<-). apply Hq. by eapply (good_l1 _ _ _ Hgood).
Qed.

Lemma good_redis m n s :
  (forall k e x, m !! redisKey config k = Some e -> e_text e = Some x -> ok2 F (sy_now s) (sy_loads s) k x) ->
  good config F s -> good config F (with_redis m n s).
Proof. intros Hm [H1 H2 H3 H4 H5 H6]. by constructor. Qed.

Lemma good_effect f op s :
  (good config F s -> good config F (op s)) -> good config F s -> good config F (effect f op s).
Proof. intros Hop Hs. destruct f; simpl; auto. Qed.

Lemma good_DEL ks s : good config F s -> good config F (DEL ks s).
Proof.
  intros Hs. apply good_redis; [|done]. intros k e x Hk. eapply (good_l2 _ _ _ Hs).
  eapply lookup_weaken; [exact Hk|]. clear. induction ks; simpl; [done|]. etrans; [apply delete_subseteq|done].
Qed.

Lemma redisKey_inj k k' : redisKey config k = redisKey config k' -> k = k'.
Proof. unfold redisKey. intros Hk. apply (inj (String.app _)) in Hk. by apply (inj (String.app _)) in Hk. Qed.

Lemma good_SET k x ttl s :
  ok2 F (sy_now s) (sy_loads s) k x -> good config F s -> good config F (SET (redisKey config k) x ttl s).
Proof.
  intros Hx Hs. unfold SET. destruct (GET _ _); (apply good_redis; [|done]);
    intros k' e' y; rewrite lookup_insert_Some;
    (intros [[Hk%redisKey_inj <-]|[_ Hk]]; [subst; simpl; by intros [= <-]|by eapply (good_l2 _ _ _ Hs)]).
Qed.

Lemma good_PUBLISH m s : good config F s -> good config F (PUBLISH m s).
Proof.
  intros [H1 H2 H3 H4 H5 H6]. constructor; simpl; try done.
  intros g gw k x. rewrite lookup_fmap_Some. intros (gw0&<-&Hg) Hx. simpl in *.
  specialize (H1 _ _ _ _ Hg Hx). destruct (gw_inbox gw0) as [q|]; simpl; [|done]. by apply (flow_publish _ _ L).
Qed.

Lemma good_goto i r ph s :
  sy_requests s !! i = Some r ->
  (forall v h, (v, h) ∈ held ph -> okr F (sy_now s) (sy_loads s) i (rq_gateway r) (rq_key r) (rq_start r) h v) ->
  (forall t, read_time ph = Some t -> rq_start r <= t <= sy_now s) ->
  (forall st l, ph = Wait st l -> l <> i /\ exists rl f, sy_requests s !! l = Some rl /\ in_flight (rq_phase rl) = Some f) ->
  (forall v, ph = Answered v SourceOrigin -> forall j r' st, sy_requests s !! j = Some r' -> rq_phase r' = Wait st i ->
     okr F (sy_now s) (sy_loads s) j (rq_gateway r') (rq_key r') (rq_start r') (Given SourceOrigin) v) ->
  good config F s -> good config F (goto i r ph s).
Proof.
  intros Hi Hh Ht Hw Hl [H1 H2 H3 H4 H5 H6]. constructor; simpl; try done.
  - intros j r' v h. rewrite lookup_insert_Some. intros [[<- <-]|[_ Hj]] Hin; [by apply Hh|by eapply H3].
  - intros j r' st l rl v Hj Hph Hrl Hans. apply lookup_insert_Some in Hrl. apply lookup_insert_Some in Hj.
    destruct Hj as [[<- <-]|[Hne Hj]]; simpl in *.
    + destruct (Hw st l Hph) as (Hli&rl'&f&Hrl'&Hf). destruct Hrl as [[<- _]|[_ Hrl]]; [done|].
      simplify_eq. by rewrite Hans in Hf.
    + destruct Hrl as [[<- <-]|[_ Hrl]]; [|by eapply H4]. simpl in Hans. by eapply Hl.
  - intros j r' t. rewrite lookup_insert_Some. intros [[<- <-]|[_ Hj]] Hr; [by apply Ht|by eapply H5].
Qed.

(** A phase that waits for nobody and is no answer of the origin. *)
Lemma good_goto_plain i r ph s :
  sy_requests s !! i = Some r ->
  (forall v h, (v, h) ∈ held ph -> okr F (sy_now s) (sy_loads s) i (rq_gateway r) (rq_key r) (rq_start r) h v) ->
  read_time ph = None -> (forall st l, ph <> Wait st l) -> (forall v, ph <> Answered v SourceOrigin) ->
  good config F s -> good config F (goto i r ph s).
Proof.
  intros Hi Hh Ht Hw Ha. apply good_goto; try done.
  - intros t Hr. congruence.
  - by intros st l ?%Hw.
  - by intros v ?%Ha.
Qed.

Lemma held_one {A} (x : A) v h (P : string -> holding -> Prop) (w : string) (hw : holding) :
  P w hw -> (v, h) ∈ [(w, hw)] -> P v h.
Proof. by intros HP [[= -> ->]|?%elem_of_nil]%elem_of_cons. Qed.

Lemma good_setL1 it g k v t s s' :
  setL1 config it g k v t s = Some s' ->
  (forall gw, sy_gateways s !! g = Some gw -> ok1 F (sy_now s) (sy_loads s) g (gw_inbox gw) k v (t + L1TTL config)) ->
  good config F s -> good config F s' /\ sy_requests s' = sy_requests s /\ sy_now s' = sy_now s /\ sy_loads s' = sy_loads s.
Proof.
  intros Hs Hok Hgood. apply setL1_shape in Hs as [[_ ->]|(gw&Hg&_&->)]; [done|]. split_and!; try done.
  apply good_gateway; [|done]. intros k' x Hx. simpl in Hx. apply set_entry in Hx as [[-> ->]|(y&Hy&<-&<-)]; simpl.
  - by apply Hok.
  - by eapply (good_l1 _ _ _ Hgood).
Qed.

(** What a flight holds besides its value stays held. *)
Lemma good_flight_stale i r f s v h :
  good config F s -> sy_requests s !! i = Some r -> in_flight (rq_phase r) = Some f -> (v, h) ∈ flight_stale f ->
  okr F (sy_now s) (sy_loads s) i (rq_gateway r) (rq_key r) (rq_start r) h v.
Proof.
  intros Hg Hi Hf Hin. eapply (good_held _ _ _ Hg); [done|].
  destruct (rq_phase r) as [| | | | | |f'|f' w|f' w t|f' [w|]| | | |]; simpl in *; simplify_eq; try done; by apply elem_of_cons; right.
Qed.

Lemma good_fallback i r stale s :
  good config F s -> sy_requests s !! i = Some r -> (forall v h, (v, h) ∈ stale_of stale -> (v, h) ∈ held (rq_phase r)) ->
  good config F (goto i r (fallback config stale) s).
Proof.
  intros Hg Hi Hst. apply good_goto_plain; try done; unfold fallback.
  - intros v h Hin. destruct stale as [w|]; [|by apply elem_of_nil in Hin]. destruct (_ && _); [|by apply elem_of_nil in Hin].
    simpl in Hin. apply elem_of_cons in Hin as [[= -> ->]|?%elem_of_nil]; [|done]. apply (flow_give _ _ L).
    eapply (good_held _ _ _ Hg); [done|]. apply Hst. simpl. by apply elem_of_cons; left.
  - destruct stale; [|done]. by destruct (_ && _).
  - intros st l. destruct stale; [|done]. by destruct (_ && _).
  - intros v. destruct stale; [|done]. by destruct (_ && _).
Qed.

(** A value that is carried on. *)
Lemma held_same i r s v h :
  good config F s -> sy_requests s !! i = Some r -> (v, h) ∈ held (rq_phase r) ->
  okr F (sy_now s) (sy_loads s) i (rq_gateway r) (rq_key r) (rq_start r) h v.
Proof. intros Hg Hi. by apply (good_held _ _ _ Hg). Qed.

Lemma good_ReadL1 i r c s s' :
  wf s -> good config F s -> sy_requests s !! i = Some r -> rq_phase r = ReadL1 -> advance config i r c s = Some s' -> good config F s'.
Proof.
  intros Hwf Hg Hi Hph. unfold advance. rewrite Hph. destruct (wf_request _ Hwf i r Hi) as (_&[gw Hgw]&Hst).
  assert (forall s1, good config F s1 -> sy_requests s1 = sy_requests s -> sy_now s1 = sy_now s ->
            good config F (goto i r (if EnableL2 config then ReadL2 (sy_now s) else Join None) s1)) as Hnext.
  { intros s1 Hg1 Hr1 Hn1. apply good_goto; try done; [by rewrite Hr1| | | |].
    - intros v h Hin. destruct (EnableL2 config); by apply elem_of_nil in Hin.
    - intros t. destruct (EnableL2 config); [|done]. intros [= <-]. rewrite Hn1. lia.
    - by destruct (EnableL2 config).
    - by destruct (EnableL2 config). }
  destruct (EnableL1 config); [|intros [= <-]; by apply Hnext].
  rewrite Hgw. pose proof (get_within (rq_key r) (sy_now s) (gw_local gw)) as Hwi.
  pose proof (get_value (rq_key r) (sy_now s) (gw_local gw)) as Hval.
  destruct (get _ _ _) as [l v]. simpl in *. intros [= <-].
  assert (good config F (put_gateway (rq_gateway r) (with_local l gw) s)) as Hg1.
  { apply (good_within (rq_gateway r) gw l (gw_inbox gw) s); done. }
  destruct v as [v|]; [|by apply Hnext].
  apply good_goto_plain; try done. intros w h [[= -> ->]|?%elem_of_nil]%elem_of_cons; [|done]. simpl.
  destruct (Hval v eq_refl) as (x&Hx&<-&Ht). eapply (flow_hit _ _ L); [|exact Ht|done].
  by eapply (good_l1 _ _ _ Hg).
Qed.

Lemma GET_Some k s e : GET k s = Some e -> sy_redis s !! k = Some e.
Proof. unfold GET. destruct (sy_redis s !! k); [|done]. by destruct (visible _ _). Qed.

Lemma after_read_held i r t k s v h :
  good config F s -> rq_key r = k -> rq_start r <= t <= sy_now s ->
  (v, h) ∈ held (after_read config t (GET (redisKey config k) s)) ->
  okr F (sy_now s) (sy_loads s) i (rq_gateway r) (rq_key r) (rq_start r) h v.
Proof.
  intros Hg <- Ht Hin. destruct (GET _ s) as [e|] eqn:Hget; [|by apply elem_of_nil in Hin]. apply GET_Some in Hget.
  unfold after_read in Hin. destruct (e_text e) as [x|] eqn:Hx; [|by apply elem_of_nil in Hin].
  pose proof (good_l2 _ _ _ Hg _ _ _ Hget Hx) as Hok.
  destruct (Z.leb_spec (HardExpiresAt x) (unix_milli t)); [by apply elem_of_nil in Hin|].
  destruct (Z.ltb_spec (unix_milli t) (SoftExpiresAt x)).
  { apply elem_of_cons in Hin as [[= -> ->]|?%elem_of_nil]; [|done]. by apply (flow_fresh _ _ L). }
  assert (okr F (sy_now s) (sy_loads s) i (rq_gateway r) (rq_key r) (rq_start r) Stale (Value x)) as Hstale by by eapply (flow_stale _ _ L).
  destruct (StaleWhileRevalidate config); apply elem_of_cons in Hin as [[= -> ->]|?%elem_of_nil]; try done.
  by apply (flow_give _ _ L).
Qed.

Lemma good_ReadL2 i r t c s s' :
  wf s -> good config F s -> sy_requests s !! i = Some r -> rq_phase r = ReadL2 t -> advance config i r c s = Some s' -> good config F s'.
Proof.
  intros Hwf Hg Hi Hph. unfold advance. rewrite Hph. set (ph := if succeeds _ then _ else _).
  pose proof (good_read _ _ _ Hg i r t Hi) as Ht. rewrite Hph in Ht. specialize (Ht eq_refl).
  assert (forall v h, (v, h) ∈ held ph -> okr F (sy_now s) (sy_loads s) i (rq_gateway r) (rq_key r) (rq_start r) h v) as Hh.
  { intros v h Hin. unfold ph in Hin. destruct (succeeds _); [|by apply elem_of_nil in Hin]. by eapply after_read_held. }
  assert (read_time ph = None /\ (forall st l, ph <> Wait st l) /\ (forall v, ph <> Answered v SourceOrigin)) as (Hr&Hw&Ha).
  { unfold ph, after_read. repeat case_match; done. }
  destruct (refreshes ph); [|intros [= <-]; by apply good_goto_plain].
  destruct (sy_requests s !! ch_refresh c) eqn:Hc; [done|]. intros [= <-].
  assert (ch_refresh c <> i) as Hne by congruence.
  apply good_goto_plain; try done; [simpl; by rewrite lookup_insert_ne|].
  pose proof Hg as [H1 H2 H3 H4 H5 H6]. constructor; simpl; try done.
  - intros j r' v h. rewrite lookup_insert_Some. intros [[<- <-]|[_ Hj]] Hin; [by apply elem_of_nil in Hin|by eapply H3].
  - intros j r' st l rl v Hj Hpj Hl Hpl. apply lookup_insert_Some in Hj as [[<- <-]|[_ Hj]]; [done|].
    apply lookup_insert_Some in Hl as [[<- <-]|[_ Hl]]; [done|]. by eapply H4.
  - intros j r' t'. rewrite lookup_insert_Some. intros [[<- <-]|[_ Hj]] Hr'; [done|by eapply H5].
Qed.

Lemma good_group g gw m s :
  sy_gateways s !! g = Some gw -> good config F s -> good config F (put_gateway g (with_group m gw) s).
Proof. intros Hg Hgood. apply good_gateway; [|done]. intros k x Hx. exact (good_l1 _ _ _ Hgood g gw k x Hg Hx). Qed.

Lemma good_start_flight i r f s s' :
  wf s -> good config F s -> sy_requests s !! i = Some r -> in_flight (rq_phase r) = None ->
  (forall v h, (v, h) ∈ flight_stale f -> (v, h) ∈ held (rq_phase r)) ->
  start_flight i r f s = Some s' -> good config F s'.
Proof.
  intros Hwf Hg Hi Hfl Hst. unfold start_flight. destruct (sy_gateways s !! rq_gateway r) as [gw|] eqn:Hgw; [|done].
  destruct (gw_group gw !! _) as [l|] eqn:Hl; intros [= <-].
  - destruct f as [stale|].
    + apply good_goto; try done.
      * intros v h Hin. apply held_same; auto.
      * intros st l' [= <- <-]. destruct (wf_group _ Hwf _ _ _ _ Hgw Hl) as (rl&f&Hrl&_&Hf&_).
        split; [intros ->; congruence|]. by exists rl, f.
    + apply good_goto_plain; try done. by intros v h ?%elem_of_nil.
  - apply good_goto_plain; try done; [|by apply good_group].
    simpl. intros v h Hin. apply held_same; auto.
Qed.

Lemma flight_goes_on i r f ph s s1 :
  good config F s -> sy_requests s !! i = Some r -> in_flight (rq_phase r) = Some f ->
  good config F s1 -> sy_requests s1 = sy_requests s -> sy_now s1 = sy_now s -> sy_loads s1 = sy_loads s ->
  (forall v h, (v, h) ∈ held ph -> (v, h) ∈ flight_stale f \/
     okr F (sy_now s) (sy_loads s) i (rq_gateway r) (rq_key r) (rq_start r) h v) ->
  in_flight ph = Some f -> good config F (goto i r ph s1).
Proof.
  intros Hg Hi Hf Hg1 Hr Hn Hl Hh Hph. apply good_goto_plain; try done; [by rewrite Hr| | | |].
  - intros v h Hin. rewrite Hn, Hl. destruct (Hh v h Hin); [by eapply good_flight_stale|done].
  - by destruct ph.
  - intros st l ->. done.
  - intros v ->. done.
Qed.

Lemma good_Land i r f a s gw :
  wf s -> all_prompt F s -> good config F s -> sy_requests s !! i = Some r -> rq_phase r = Land f a ->
  sy_gateways s !! rq_gateway r = Some gw ->
  good config F (goto i r (landed config f a) (put_gateway (rq_gateway r) (with_group (delete (flight_key f (rq_key r)) (gw_group gw)) gw) s)).
Proof.
  intros Hwf Hp Hg Hi Hph Hgw. set (s1 := put_gateway _ _ s).
  assert (good config F s1) as Hg1 by by apply good_group.
  assert (forall v, a = Some v -> okr F (sy_now s) (sy_loads s) i (rq_gateway r) (rq_key r) (rq_start r) Loaded v) as Hv.
  { intros v ->. eapply held_same; [done..|]. rewrite Hph. simpl. by apply elem_of_cons; left. }
  destruct f as [stale|]; simpl; [|apply good_goto_plain; try done; by intros v h ?%elem_of_nil].
  destruct a as [v|].
  - apply good_goto; try done.
    + intros w h [[= -> ->]|?%elem_of_nil]%elem_of_cons; [|done]. simpl. apply (flow_land _ _ L). by apply Hv.
    + intros w [= <-] j r' st Hj Hpj. simpl in *.
      destruct (wf_wait _ Hwf _ _ _ _ Hj Hpj) as (rl&Hrl&Hk&Hgl&_). simplify_eq. rewrite <- Hk, <- Hgl.
      destruct (wf_request _ Hwf _ _ Hj) as (_&_&Hst). eapply (flow_wait _ _ L); [by apply Hv| |done].
      eapply Hp; [done|]. by rewrite Hph.
  - apply good_fallback; try done. intros v h Hin. by rewrite Hph.
Qed.

Lemma good_advance i r c s s' :
  wf s -> all_prompt F s -> good config F s -> sy_requests s !! i = Some r -> advance config i r c s = Some s' -> good config F s'.
Proof.
  intros Hwf Hp Hg Hi Hadv. destruct (rq_phase r) eqn:Hph;
    [by eapply good_ReadL1|by eapply good_ReadL2|unfold advance in Hadv; rewrite Hph in Hadv..]; try done.
  - injection Hadv as <-. apply good_goto_plain; try done; [by rewrite effect_requests|by intros v h ?%elem_of_nil|].
    apply good_effect; [|done]. apply good_DEL.
  - destruct (setL1 _ _ _ _ _ _ _) as [s1|] eqn:Hset; [|done]. injection Hadv as <-.
    assert (okr F (sy_now s) (sy_loads s) i (rq_gateway r) (rq_key r) (rq_start r) (Fresh t) v) as Hv.
    { eapply held_same; [done..|]. rewrite Hph. by apply elem_of_cons; left. }
    destruct (good_setL1 _ _ _ _ _ _ _ Hset) as (Hg1&Hr1&Hn1&Hl1); [|done|].
    { intros gw _. by eapply (flow_fill _ _ L). }
    apply good_goto_plain; try done; [by rewrite Hr1|]. rewrite Hn1, Hl1.
    intros w h [[= -> ->]|?%elem_of_nil]%elem_of_cons; [|done]. by eapply (flow_fill _ _ L _ _ _ _ None).
  - eapply good_start_flight; [done..| | |done]; rewrite Hph; done.
  - destruct (sy_requests s !! leader) as [rl|] eqn:Hl; [|done].
    assert (good config F (goto i r (fallback config stale) s)) as Hfall
      by (apply good_fallback; try done; by rewrite Hph).
    destruct (rq_phase rl) as [| | | | | | | | | |v []| | |] eqn:Hpl; try done; injection Hadv as <-; try done.
    apply good_goto; try done.
    + intros w h [[= -> ->]|?%elem_of_nil]%elem_of_cons; [|done]. by eapply (good_wait _ _ _ Hg).
    + intros w [= <-] j r' st Hj Hpj.
      destruct (wf_wait _ Hwf _ _ _ _ Hj Hpj) as (r0&Hr0&_&_&Hlead). simplify_eq. by rewrite Hph in Hlead.
  - injection Hadv as <-. destruct (wf_request _ Hwf _ _ Hi) as (_&_&Hst).
    assert (good config F (with_loads (mkLoad (rq_key r) (ch_origin c) (sy_now s) :: sy_loads s) s)) as Hg1.
    { apply (good_passes s); [done..|simpl; lia| |done]. by apply suffix_cons_r. }
    apply good_goto_plain; try done; [|by destruct (ch_origin c)..].
    intros v h Hin. simpl. assert ((v, h) ∈ flight_stale f \/ exists w, ch_origin c = Some w /\ (v, h) = (w, Loaded)) as [Hs|(w&Hw&[= -> ->])].
    { destruct (ch_origin c) as [w|]; [|by left]. apply elem_of_cons in Hin as [->|Hin]; [right; by exists w|by left]. }
    + apply (good_flight_stale i r f _ _ _ Hg1); [done| |done]. by rewrite Hph.
    + rewrite Hw. apply (flow_load _ _ L); [done|]. by apply (good_base _ _ _ Hg).
  - destruct (setL1 _ _ _ _ _ _ _) as [s1|] eqn:Hset; [|done]. injection Hadv as <-.
    assert (okr F (sy_now s) (sy_loads s) i (rq_gateway r) (rq_key r) (rq_start r) Loaded v) as Hv.
    { eapply held_same; [done..|]. rewrite Hph. by apply elem_of_cons; left. }
    assert (prompt F (sy_now s) (rq_start r)) as Hpr by (eapply Hp; [done|by rewrite Hph]).
    destruct (good_setL1 _ _ _ _ _ _ _ Hset) as (Hg1&Hr1&Hn1&Hl1); [|done|].
    { intros gw _. by eapply (flow_keep1 _ _ L). }
    apply (flight_goes_on i r f _ s s1); try done; [by rewrite Hph| |by destruct (EnableL2 config)].
    intros w h Hin. destruct (EnableL2 config); apply elem_of_cons in Hin as [[= -> ->]|Hin]; auto.
    right. by eapply (flow_keep1 _ _ L _ _ _ _ None).
  - injection Hadv as <-.
    assert (okr F (sy_now s) (sy_loads s) i (rq_gateway r) (rq_key r) (rq_start r) (Kept t) v) as Hv.
    { eapply held_same; [done..|]. rewrite Hph. by apply elem_of_cons; left. }
    destruct (flow_keep2 _ _ L _ _ _ _ _ _ _ _ Hv) as [H2 Hl].
    set (s1 := effect _ _ s).
    assert (sy_requests s1 = sy_requests s /\ sy_now s1 = sy_now s /\ sy_loads s1 = sy_loads s) as (Hr1&Hn1&Hl1).
    { unfold s1, effect, SET. destruct (ch_fault c); try done; by destruct (GET _ _). }
    apply (flight_goes_on i r f _ s s1); try done; [by rewrite Hph| |].
    + apply good_effect; [|done]. intros Hg'. by apply good_SET.
    + intros w h [[= -> ->]|Hin]%elem_of_cons; auto.
  - destruct (sy_gateways s !! rq_gateway r) as [gw|] eqn:Hgw; [|done]. injection Hadv as <-. by apply good_Land.
  - eapply good_start_flight; [done..| | |done]; [by rewrite Hph|]. by intros v h ?%elem_of_nil.
Qed.

Lemma good_inv_effect g s s1 : inv_effect g s s1 -> good config F s -> good config F s1.
Proof.
  intros [|gw f Hg Hf|ks|m] Hgood; [done| |by apply good_DEL|by apply good_PUBLISH].
  apply (good_within g gw _ (gw_inbox gw)); try done. apply Hf.
Qed.

Lemma good_subset (m : gmap nat request) s :
  m ⊆ sy_requests s -> good config F s -> good config F (with_requests m s).
Proof.
  intros Hm [H1 H2 H3 H4 H5 H6]. constructor; simpl; try done.
  - intros i r v h Hi. eapply H3. by eapply lookup_weaken.
  - intros i r st l rl v Hi Hph Hl. eapply H4; [|done|]; by eapply lookup_weaken.
  - intros i r t Hi. eapply H5. by eapply lookup_weaken.
Qed.

Definition permitted (l : label) : Prop := match l with LClose _ => closes F = true | _ => True end.

Lemma good_exec l s s' :
  permitted l -> wf s -> all_prompt F s -> good config F s -> exec config l s = Some s' -> good config F s'.
Proof.
  intros Hperm Hwf Hp Hg. destruct l as [i g key|i c|j g calls|j c|g|g|g|g|d]; simpl.
  - destruct (sy_requests s !! i) eqn:Hi; [done|]. destruct (sy_gateways s !! g) as [gw|]; [|done].
    destruct (valid_key key); [|done]. intros [= <-]. pose proof Hg as [H1 H2 H3 H4 H5 H6]. constructor; simpl; try done.
    + intros j r' v h. rewrite lookup_insert_Some. intros [[<- <-]|[_ Hj]] Hin; [by apply elem_of_nil in Hin|by eapply H3].
    + intros j r' st l rl v Hj Hpj Hl Hpl. apply lookup_insert_Some in Hj as [[<- <-]|[_ Hj]]; [done|].
      apply lookup_insert_Some in Hl as [[<- <-]|[_ Hl]]; [done|]. by eapply H4.
    + intros j r' t'. rewrite lookup_insert_Some. intros [[<- <-]|[_ Hj]] Hr'; [done|by eapply H5].
  - destruct (sy_requests s !! i) as [r|] eqn:Hi; [|done]. by apply good_advance.
  - destruct (sy_invalidations s !! j); [done|]. destruct (sy_gateways s !! g); [|done]. intros [= <-].
    by apply (good_passes s); [done..|simpl; lia|done|].
  - destruct (sy_invalidations s !! j) as [iv|]; [|done]. intros Hs.
    apply inv_advance_shape in Hs as (ph'&s1&->&He).
    apply (good_passes s1); [done..|simpl; lia|done|]. by eapply good_inv_effect.
  - destruct (sy_gateways s !! g) as [gw|] eqn:Hgw; [|done]. destruct (gw_inbox gw) as [[|m q]|] eqn:Hq; [done| |done].
    intros [= <-]. apply good_gateway; [|done]. simpl. intros k x Hx.
    assert (entries (consume m (gw_local gw)) !! k = Some x) as Hx' by exact Hx.
    destruct (consume_within m (gw_local gw) k x Hx) as (y&Hy&<-&<-). eapply (flow_consume _ _ L).
    + rewrite <- Hq. by eapply (good_l1 _ _ _ Hg).
    + destruct (names m k) eqn:Hn; [|done]. pose proof (consume_gone m (gw_local gw) k Hn) as Hgone. by rewrite Hgone in Hx'.
  - destruct (sy_gateways s !! g) as [gw|] eqn:Hgw; [|done]. destruct (gw_inbox gw) eqn:Hq; [done|].
    destruct (EnableL2 config); [|done]. intros [= <-]. apply good_gateway; [|done]. simpl. intros k x Hx.
    apply (flow_subscribe _ _ L). rewrite <- Hq. by eapply (good_l1 _ _ _ Hg).
  - destruct (sy_gateways s !! g) as [gw|] eqn:Hgw; [|done]. intros [= <-]. apply good_gateway; [|done]. simpl. intros k x Hx.
    eapply (flow_close _ _ L); [done|]. by eapply (good_l1 _ _ _ Hg).
  - destruct (sy_gateways s !! g) as [gw|] eqn:Hgw; [|done]. intros [= <-].
    apply (good_subset (filter _ _)); [apply map_filter_subseteq|].
    apply (good_passes (put_gateway g (mkGateway (newLocalCache (MaxEntries config)) ∅ None) s)); [done..|simpl; lia|done|].
    apply good_gateway; [|done]. simpl. intros k x Hx. by rewrite lookup_empty in Hx.
  - destruct (Z.leb_spec 0 d); [|done]. intros [= <-]. by apply (good_passes s); [done..|simpl; lia|done|].
Qed.

(** Along a run in which every load is prompt. *)
Fixpoint prompt_run (ls : list label) (s : system) : Prop :=
  all_prompt F s /\
  match ls with [] => True | l :: ls => match exec config l s with Some s' => prompt_run ls s' | None => True end end.

Lemma good_run ls s s' :
  Forall permitted ls -> prompt_run ls s -> wf s -> good config F s -> run config ls s = Some s' -> wf s' /\ good config F s'.
Proof.
  revert s. induction ls as [|l ls IH]; intros s Hls Hp Hwf Hg; simpl; [by intros [= <-]|].
  apply Forall_cons in Hls as [Hl Hls]. simpl in Hp. destruct Hp as [Hp Hrest].
  destruct (exec config l s) as [s1|] eqn:Hex; [|done]. intros Hrun.
  apply (IH s1); [done|done|by eapply wf_exec|by eapply good_exec|done].
Qed.
End flow.
