(* ===== verification/CacheGuarantees.v ===== *)
(** What the read cache of the gateway guarantees: how old an answer can be, when an
    invalidation has taken effect, that only the origin makes a request fail, that a
    local cache keeps its bound, and that every request can be answered. *)

From S2P Require Import Prelude Effects GoText ExistenceFilter Cache CacheSafety CacheFlow.

(** * Age *)

Lemma jitter_range key max : 0 <= max -> max <= int64_max -> 0 <= jitter key max <= max.
Proof.
  intros H0 H1. unfold jitter. destruct (Z.leb_spec max 0); [lia|].
  set (h := fnv32a key mod 100). assert (0 <= h < 100) as Hh by (apply Z.mod_pos_bound; lia).
  unfold uint64. rewrite (Z.mod_small max) by (unfold int64_max in *; lia).
  assert (0 <= max * h) by nia. assert (0 <= (max * h) mod 2 ^ 64 <= max * h).
  { split; [apply Z.mod_pos_bound; lia|]. apply Z.mod_le; lia. }
  assert (0 <= (max * h) mod 2 ^ 64 / 100 <= max).
  { split; [apply Z.div_pos; lia|]. apply Z.div_le_upper_bound; nia. }
  rewrite int64_id; [done|]. unfold in_int64, int64_min, int64_max in *. lia.
Qed.

Definition with_jitter (d : Z) : Z := d + d / 10.

Record sane (config : Config) : Prop := {
  sane_l1 : 0 <= L1TTL config; sane_soft : 0 < SoftTTL config; sane_hard : 0 < HardTTL config;
  sane_soft_max : with_jitter (SoftTTL config) <= int64_max; sane_hard_max : with_jitter (HardTTL config) <= int64_max
}.

Lemma ttl_range d key : 0 < d -> with_jitter d <= int64_max ->
  d <= int64 (d + jitter key (Z.quot d 10)) <= with_jitter d.
Proof.
  unfold with_jitter. intros Hd Hm. assert (Z.quot d 10 = d / 10) as -> by (apply Z.quot_div_nonneg; lia).
  assert (0 <= d / 10) by (apply Z.div_pos; lia).
  pose proof (jitter_range key (d / 10)) as Hj. rewrite int64_id; [lia|].
  unfold in_int64, int64_min, int64_max in *. lia.
Qed.

(** The answers of the origin to a key with a value. *)
Definition loaded (ls : list load) (k v : string) (P : Z -> Prop) : Prop :=
  exists ld, ld ∈ ls /\ ld_key ld = k /\ ld_value ld = Some v /\ P (ld_at ld).

Lemma loaded_mono ls ls' k v (P Q : Z -> Prop) :
  ls `suffix_of` ls' -> (forall t, P t -> Q t) -> loaded ls k v P -> loaded ls' k v Q.
Proof.
  intros [l ->] HPQ (ld&Hin&Hk&Hv&HP). exists ld. split_and!; [|done..|auto]. apply elem_of_app. by right.
Qed.

Lemma loaded_later ls ls' k v P : ls `suffix_of` ls' -> loaded ls k v P -> loaded ls' k v P.
Proof. intros Hl. by apply loaded_mono. Qed.

Lemma unix_milli_lt a b : unix_milli a < unix_milli b -> a < b.
Proof. unfold unix_milli, millisecond. intros H. destruct (Z.lt_ge_cases a b) as [|Hle]; [done|]. apply (Z.div_le_mono _ _ (10 ^ 6)) in Hle; lia. Qed.

Section age.
Context (config : Config) (Hsane : sane config) (D : Z).

(** The age that an answer can have besides the time its load took. *)
Definition age_limit : Z := Z.max (with_jitter (HardTTL config)) (with_jitter (SoftTTL config) + L1TTL config).

Lemma soft_range k : 0 < softTTL config k <= with_jitter (SoftTTL config).
Proof. pose proof (ttl_range (SoftTTL config) k). destruct Hsane. unfold softTTL. lia. Qed.
Lemma hard_range k : 0 < hardTTL config k <= with_jitter (HardTTL config).
Proof. pose proof (ttl_range (HardTTL config) k). destruct Hsane. unfold hardTTL. lia. Qed.

Definition timely : flow := {|
  okr t ls i g k st h v :=
    match h with
    | Loaded => loaded ls k v (fun t0 => st <= t0)
    | Kept tk => loaded ls k v (fun t0 => st <= t0 /\ tk <= st + D)
    | Fresh tr => st <= tr /\ loaded ls k v (fun t0 => tr < t0 + D + softTTL config k)
    | Stale | Given _ => loaded ls k v (fun t0 => st <= t0 + D + age_limit)
    end;
  ok1 t ls g q k v e := loaded ls k v (fun t0 => e <= t0 + D + softTTL config k + L1TTL config);
  ok2 t ls k x := loaded ls k (Value x) (fun t0 => forall tr,
    (unix_milli tr < SoftExpiresAt x -> tr < t0 + D + softTTL config k) /\
    (unix_milli tr < HardExpiresAt x -> tr < t0 + D + hardTTL config k));
  prompt t st := t <= st + D;
  closes := true;
  base := []
|}.

Hypothesis HD : 0 <= D.

Lemma timely_laws : laws config timely.
Proof.
  pose proof (sane_l1 _ Hsane) as Hl1.
  constructor; simpl; intros; pose proof (soft_range k); pose proof (hard_range k).
  all: repeat match goal with H : _ /\ loaded _ _ _ _ |- _ => destruct H end.
  - destruct h; try (by eapply loaded_later). match goal with H : _ /\ loaded _ _ _ _ |- _ => destruct H end.
    split; [done|by eapply loaded_later].
  - by eapply loaded_later.
  - by eapply loaded_later.
  - eapply loaded_mono; [done| |done]. simpl. unfold age_limit. lia.
  - split; [lia|]. eapply loaded_mono; [done| |done]. simpl. intros t0 Ht0. by apply (Ht0 tr).
  - eapply loaded_mono; [done| |done]. simpl. intros t0 Ht0. destruct (Ht0 tr) as [_ Hh].
    specialize (Hh ltac:(done)). unfold age_limit. lia.
  - split; (eapply loaded_mono; [done| |done]); simpl; unfold age_limit; lia.
  - eexists (mkLoad _ _ _). split; [by apply elem_of_cons; left|]. by split_and!.
  - split; (eapply loaded_mono; [done| |done]); simpl; lia.
  - split; [|eapply loaded_mono; [done| |done]; simpl; lia].
    eapply loaded_mono; [done| |done]. simpl. intros t0 Ht0 tr. split; intros Hm%unix_milli_lt; lia.
  - eapply loaded_mono; [done| |done]. simpl. unfold age_limit. lia.
  - eapply loaded_mono; [done| |done]. simpl. unfold age_limit. lia.
  - done.
  - done.
  - done.
  - done.
  - done.
Qed.
End age.

Lemma good_started config F n t : base F = [] -> good config F (started config n t).
Proof.
  intros Hb. constructor; simpl; rewrite ?Hb; try by intros *; rewrite ?lookup_empty.
  intros g gw k x Hg. apply elem_of_list_to_map_2, list_elem_of_fmap in Hg as (?&[= -> ->]&_). simpl. by rewrite lookup_empty.
Qed.

(** C38 Whatever instances ask, refresh, invalidate, crash and fail, and however they
    interleave, when every load is stored within [D] of the start of its request, an
    answer is a value that the origin gave for the key, at most [D] and the larger of
    the hard lifetime and the soft and local lifetimes before the request started. *)
Theorem answers_are_recent config D n t0 ls s i r v source :
  sane config -> 0 <= D -> run config ls (started config n t0) = Some s -> prompt_run config (timely config D) ls (started config n t0) ->
  sy_requests s !! i = Some r -> rq_phase r = Answered v source ->
  exists ld, ld ∈ sy_loads s /\ ld_key ld = rq_key r /\ ld_value ld = Some v /\
    rq_start r <= ld_at ld + D + Z.max (with_jitter (HardTTL config)) (with_jitter (SoftTTL config) + L1TTL config).
Proof.
  intros Hs HD Hrun Hp Hi Hph.
  destruct (good_run config (timely config D) (timely_laws config Hs D HD) ls (started config n t0) s) as [_ Hg]; try done.
  - by apply Forall_forall; intros [].
  - apply wf_started.
  - by apply good_started.
  - pose proof (good_held _ _ _ Hg i r v (Given source) Hi) as Hh. rewrite Hph in Hh. apply Hh. simpl. by apply elem_of_cons; left.
Qed.

(** * Invalidation *)

(** The origin has answered [v] for the key since the log was [ls0]. *)
Definition since (ls0 ls : list load) (k v : string) : Prop :=
  exists l ld, ls = l ++ ls0 /\ ld ∈ l /\ ld_key ld = k /\ ld_value ld = Some v.

Lemma since_later ls0 ls ls' k v : ls `suffix_of` ls' -> since ls0 ls k v -> since ls0 ls' k v.
Proof.
  intros [l' ->] (l&ld&->&Hin&?). exists (l' ++ l), ld. rewrite <- app_assoc. split_and!; try naive_solver.
  apply elem_of_app. by right.
Qed.

(** The stages of an invalidation of a key: it is gone from Redis; the message is on
    its way to every local cache that has the key; the message has arrived. *)
Inductive stage := Deleted | Announced | Arrived.

Definition pending (q : option (list message)) (k : string) : Prop :=
  match q with Some q => exists m, m ∈ q /\ names m k = true | None => False end.

Section invalidation.
Context (config : Config) (K : string) (ls0 : list load) (X : gset nat) (st0 : stage).

Definition renewed : flow := {|
  okr t ls i g k st h v := k = K ->
    (exists source, h = Given source /\ (i ∈ X \/ (st0 <> Arrived /\ source = SourceL1))) \/ since ls0 ls k v;
  ok1 t ls g q k v e := k = K ->
    match st0 with Deleted => True | Announced => pending q k \/ since ls0 ls k v | Arrived => since ls0 ls k v end;
  ok2 t ls k x := k = K -> since ls0 ls k (Value x);
  prompt t st := True;
  closes := match st0 with Announced => false | _ => true end;
  base := ls0
|}.

(** A value that was not given is a new one. *)
Lemma held_is_new {P : Prop} h (Q : Source -> Prop) :
  (forall source, h <> Given source) -> (exists source, h = Given source /\ Q source) \/ P -> P.
Proof. intros Hh [(source&->&_)|HP]; [by exfalso; eapply Hh|done]. Qed.

Lemma since_load ls v t : ls0 `suffix_of` ls -> since ls0 (mkLoad K (Some v) t :: ls) K v.
Proof.
  intros [l ->]. exists (mkLoad K (Some v) t :: l), (mkLoad K (Some v) t). split_and!; try done. by apply elem_of_cons; left.
Qed.

Lemma renewed_laws : laws config renewed.
Proof.
  constructor; simpl.
  - intros t t' ls ls' i g k st h v _ Hl Hok Hk. destruct (Hok Hk) as [|Hn]; [by left|right]. by eapply since_later.
  - intros t t' ls ls' g q k v e _ Hl Hok Hk. specialize (Hok Hk). destruct st0; [done| |by eapply since_later].
    destruct Hok as [|Hn]; [by left|right]. by eapply since_later.
  - intros t t' ls ls' k x _ Hl Hok Hk. eapply since_later; [done|]. by apply Hok.
  - intros t ls i g q k st v e Hok _ _ Hk. specialize (Hok Hk). destruct st0; [|destruct Hok as [Hok|]; [|by right]|by right];
      left; eexists; (split; [done|by right]).
  - intros t ls i g k st tr x Hok _ _ Hk. right. by apply Hok.
  - intros t ls i g k st tr x Hok _ _ Hk. right. by apply Hok.
  - intros t ls i g q k st tr v Hok. split; intros Hk; (eapply held_is_new in Hok; [|done|done]).
    + destruct st0; auto.
    + by right.
  - intros t ls i g k st v _ Hl ->. right. by apply since_load.
  - intros t ls i g q k st v _ Hok. split; intros Hk; specialize (Hok Hk); (eapply held_is_new in Hok; [|done]).
    + destruct st0; auto.
    + by right.
  - intros t ls i g k st tk v Hok. split; intros Hk; specialize (Hok Hk); (eapply held_is_new in Hok; [|done]); [done|by right].
  - intros t ls i g k st v Hok Hk. specialize (Hok Hk). eapply held_is_new in Hok; [by right|done].
  - intros t ls i j g k st st' v Hok _ _ Hk. specialize (Hok Hk). eapply held_is_new in Hok; [by right|done].
  - intros t ls i g k st v Hok Hk. specialize (Hok Hk). eapply held_is_new in Hok; [by right|done].
  - intros t ls g q k v e m Hok Hk. specialize (Hok Hk). destruct st0; [done| |done].
    destruct Hok as [(m'&Hm&Hn)|]; [left|by right]. exists m'. split; [|done]. apply elem_of_app. by left.
  - intros t ls g q k v e m Hok Hn Hk. specialize (Hok Hk). destruct st0; [done| |done].
    destruct Hok as [(m'&[->|Hm]%elem_of_cons&Hn')|]; [by subst; congruence| |by right]. left. by exists m'.
  - intros t ls g q k v e Hc Hok Hk. specialize (Hok Hk). by destruct st0.
  - intros t ls g k v e Hok Hk. specialize (Hok Hk). destruct st0; [done| |done]. by destruct Hok; [|right].
Qed.
End invalidation.

(** No request for the key holds a value of it or waits for one. *)
Definition empty_handed (K : string) (s : system) : Prop :=
  forall i r, sy_requests s !! i = Some r -> rq_key r = K ->
    match rq_phase r with Answered _ _ => True | Wait _ _ => False | ph => held ph = [] end.

(** Every state that a run reaches from the start of the instances. *)
Definition reachable (config : Config) (s : system) : Prop := exists n t ls, run config ls (started config n t) = Some s.

Definition anything : flow := {|
  okr _ _ _ _ _ _ _ _ := True; ok1 _ _ _ _ _ _ _ := True; ok2 _ _ _ _ := True; prompt _ _ := True; closes := true; base := []
|}.

Lemma anything_laws config : laws config anything.
Proof. by constructor. Qed.

Lemma prompt_run_any config F ls s : (forall t st, prompt F t st) -> prompt_run config F ls s.
Proof.
  intros HF. revert s. induction ls as [|l ls IH]; intros s; simpl; (split; [by intros ?|]); [done|].
  by destruct (exec config l s).
Qed.

Lemma reachable_good config s : reachable config s -> wf s /\ good config anything s.
Proof.
  intros (n&t&ls&Hrun). apply (good_run config anything (anything_laws config) ls (started config n t) s);
    [by apply Forall_forall; intros []|by apply prompt_run_any|apply wf_started|by apply good_started|done].
Qed.

Section stages.
Context (config : Config) (K : string).

Lemma good_deleted s :
  good config anything s -> sy_redis s !! redisKey config K = None -> empty_handed K s ->
  good config (renewed K (sy_loads s) (dom (sy_requests s)) Deleted) s.
Proof.
  intros Hg Hr He. constructor; simpl; try done.
  - intros k e x Hk _ ->. congruence.
  - intros i r v h Hi Hin Hk. specialize (He i r Hi Hk). left.
    destruct (rq_phase r); try done; try (rewrite He in Hin; by apply elem_of_nil in Hin).
    apply elem_of_cons in Hin as [[= -> ->]|?%elem_of_nil]; [|done]. exists source. split; [done|].
    left. by eapply elem_of_dom_2.
  - intros i r st l rl v Hi Hph _ _ Hk. specialize (He i r Hi Hk). by rewrite Hph in He.
  - apply (good_read _ _ _ Hg).
Qed.

Definition all_subscribed (s : system) : Prop := forall g gw, sy_gateways s !! g = Some gw -> gw_inbox gw <> None.
Definition inboxes_empty (s : system) : Prop := forall g gw q, sy_gateways s !! g = Some gw -> gw_inbox gw = Some q -> q = [].

Lemma good_announced ls0 X m s :
  good config (renewed K ls0 X Deleted) s -> names m K = true -> all_subscribed s ->
  good config (renewed K ls0 X Announced) (PUBLISH m s).
Proof.
  intros [H1 H2 H3 H4 H5 H6] Hm Hsub. constructor; simpl in *; try done.
  - intros g gw k x. rewrite lookup_fmap_Some. intros (gw0&<-&Hg) Hx ->. left. simpl.
    specialize (Hsub g gw0 Hg). destruct (gw_inbox gw0) as [q|]; [|done]. simpl. exists m.
    split; [|done]. apply elem_of_app. right. by apply elem_of_cons; left.
  - intros i r v h Hi Hin Hk. destruct (H3 i r v h Hi Hin Hk) as [(source&->&[Hx|[_ Hs]])|]; [left; eauto|left|by right].
    exists source. split; [done|]. by right.
  - intros i r st l rl v Hi Hph Hl Hpl Hk. destruct (H4 i r st l rl v Hi Hph Hl Hpl Hk) as [(source&->&[Hx|[_ Hs]])|]; [left; eauto|left|by right].
    exists source. split; [done|]. by right.
Qed.

Lemma good_arrived ls0 X s :
  good config (renewed K ls0 X Announced) s -> inboxes_empty s ->
  good config (renewed K ls0 (dom (sy_requests s)) Arrived) s.
Proof.
  intros [H1 H2 H3 H4 H5 H6] He. constructor; simpl in *; try done.
  - intros g gw k x Hg Hx Hk. destruct (H1 g gw k x Hg Hx Hk) as [Hp|]; [|done]. unfold pending in Hp.
    destruct (gw_inbox gw) as [q|] eqn:Hq; [|done]. destruct Hp as (m&Hm&_). by rewrite (He g gw q Hg Hq) in Hm; apply elem_of_nil in Hm.
  - intros i r v h Hi Hin Hk. destruct (H3 i r v h Hi Hin Hk) as [(source&->&_)|]; [left|by right].
    exists source. split; [done|]. left. by eapply elem_of_dom_2.
  - intros i r st l rl v Hi Hph Hl Hpl Hk. destruct (H4 i r st l rl v Hi Hph Hl Hpl Hk) as [(source&[= <-]&_)|]; [left|by right].
    exists SourceOrigin. split; [done|]. left. by eapply elem_of_dom_2.
Qed.
End stages.

(** A key is gone from Redis at [s0] while no request holds its value; then a message
    that names it is published to all instances; at [s3] the messages have been
    consumed, and no instance unsubscribed between. *)
Definition announced (config : Config) (K : string) (s0 s3 : system) : Prop :=
  exists j g m calls c ls1 s1 s2 ls2,
    sy_redis s0 !! redisKey config K = None /\ empty_handed K s0 /\ run config ls1 s0 = Some s1 /\
    sy_invalidations s1 !! j = Some (mkInvalidation g (Publish m calls)) /\ names m K = true /\ all_subscribed s1 /\
    ch_fault c = NoFault /\ exec config (LInvStep j c) s1 = Some s2 /\
    run config ls2 s2 = Some s3 /\ Forall (fun l => match l with LClose _ => False | _ => True end) ls2 /\ inboxes_empty s3.

