(* ===== verification/CacheProgress.v ===== *)
(** The read cache of the gateway: a request fails only when the origin does, a local
    cache keeps its bound, and no request is stuck. *)

From S2P Require Import Prelude Effects GoText Cache CacheSafety CacheFlow CacheGuarantees.

(** * Failures *)

(** The origin has failed for the key. *)
Definition refused (ls : list load) (k : string) : Prop := exists ld, ld ∈ ls /\ ld_key ld = k /\ ld_value ld = None.

Lemma refused_later ls ls' k : ls `suffix_of` ls' -> refused ls k -> refused ls' k.
Proof. intros [l ->] (ld&Hin&?). exists ld. split; [|done]. apply elem_of_app. by right. Qed.

(** A load that failed, or what became of it. *)
Definition broken (ph : phase) : bool := match ph with Land _ None | Failed => true | _ => false end.
Definition gave_up (ph : phase) : bool := match ph with Failed | Answered _ SourceStale => true | _ => false end.

Record blamed (s : system) : Prop := {
  blamed_broken i r : sy_requests s !! i = Some r -> broken (rq_phase r) = true -> refused (sy_loads s) (rq_key r);
  blamed_wait i r st l rl : sy_requests s !! i = Some r -> rq_phase r = Wait st l -> sy_requests s !! l = Some rl ->
    gave_up (rq_phase rl) = true -> refused (sy_loads s) (rq_key r)
}.

Section blame.
Variable config : Config.

Lemma blamed_later s s' :
  sy_requests s' = sy_requests s -> sy_loads s `suffix_of` sy_loads s' -> blamed s -> blamed s'.
Proof.
  intros Hr Hl [H1 H2]. constructor; rewrite Hr; intros; (eapply refused_later; [done|]); [by eapply H1|by eapply H2].
Qed.

Lemma blamed_same s s' : sy_requests s' = sy_requests s -> sy_loads s' = sy_loads s -> blamed s -> blamed s'.
Proof. intros Hr Hl. apply blamed_later; [done|by rewrite Hl]. Qed.

Lemma blamed_goto i r ph s :
  wf s -> blamed s -> sy_requests s !! i = Some r -> (broken ph = true -> refused (sy_loads s) (rq_key r)) ->
  (gave_up ph = true -> leads (rq_phase r) = true -> refused (sy_loads s) (rq_key r)) ->
  (forall st l, ph = Wait st l -> l <> i /\ exists rl f, sy_requests s !! l = Some rl /\ in_flight (rq_phase rl) = Some f) ->
  blamed (goto i r ph s).
Proof.
  intros Hwf [H1 H2] Hi Hb Hgive Hw. constructor; simpl.
  - intros j r'. rewrite lookup_insert_Some. intros [[<- <-]|[_ Hj]]; [done|by eapply H1].
  - intros j r' st l rl Hj Hph Hl Hg. apply lookup_insert_Some in Hj. apply lookup_insert_Some in Hl.
    destruct Hj as [[<- <-]|[_ Hj]]; simpl in *.
    + destruct (Hw st l Hph) as (Hne&rl'&f&Hrl'&Hf). destruct Hl as [[<- _]|[_ Hl]]; [done|]. simplify_eq.
      by destruct (rq_phase rl) as [| | | | | | | | | |? []| | |].
    + destruct Hl as [[<- <-]|[_ Hl]]; [|by eapply H2]. simpl in Hg.
      destruct (wf_wait _ Hwf _ _ _ _ Hj Hph) as (r0&Hr0&Hk&_&Hled). simplify_eq. rewrite <- Hk. by apply Hgive.
Qed.

(** Before a load no request gives up for others. *)
Lemma blamed_early i r ph s :
  wf s -> blamed s -> sy_requests s !! i = Some r -> leads (rq_phase r) = false -> broken ph = false ->
  (forall st l, ph <> Wait st l) -> blamed (goto i r ph s).
Proof.
  intros Hwf Hb Hi Hl Hph Hw. apply blamed_goto; try done; [congruence|congruence|]. by intros st l ?%Hw.
Qed.

Lemma blamed_start_flight i r f s s' :
  wf s -> blamed s -> sy_requests s !! i = Some r -> leads (rq_phase r) = false -> in_flight (rq_phase r) = None ->
  start_flight i r f s = Some s' -> blamed s'.
Proof.
  intros Hwf Hb Hi Hle Hfl. unfold start_flight. destruct (sy_gateways s !! rq_gateway r) as [gw|] eqn:Hg; [|done].
  destruct (gw_group gw !! _) as [l|] eqn:Hl; intros [= <-].
  - destruct f as [stale|]; [|by apply blamed_early]. apply blamed_goto; try done.
    intros st l' [= <- <-]. destruct (wf_group _ Hwf _ _ _ _ Hg Hl) as (rl&f&Hrl&_&Hf&_).
    split; [intros ->; congruence|]. by exists rl, f.
  - constructor; simpl.
    + intros j r'. rewrite lookup_insert_Some. intros [[<- <-]|[_ Hj]]; [done|by eapply (blamed_broken _ Hb)].
    + intros j r' st l rl. rewrite !lookup_insert_Some. intros [[<- <-]|[_ Hj]] Hph [[<- <-]|[_ Hrl]] Hgu; try done.
      by eapply (blamed_wait _ Hb).
Qed.

Lemma fallback_blamed stale ls k : refused ls k -> broken (fallback config stale) = true -> refused ls k.
Proof. done. Qed.

Lemma fallback_not_wait stale st l : fallback config stale <> Wait st l.
Proof. unfold fallback. by repeat case_match. Qed.

Lemma blamed_advance i r c s s' :
  wf s -> blamed s -> sy_requests s !! i = Some r -> advance config i r c s = Some s' -> blamed s'.
Proof.
  intros Hwf Hb Hi Hadv. pose proof (wf_advance config i r c s s' Hwf Hi Hadv) as _.
  unfold advance in Hadv. destruct (rq_phase r) eqn:Hph; try done.
  - destruct (EnableL1 config).
    + destruct (sy_gateways s !! rq_gateway r) as [gw|] eqn:Hg; [|done]. destruct (get _ _ _) as [l v]. injection Hadv as <-.
      apply blamed_early; [exact (wf_local (rq_gateway r) gw l (gw_inbox gw) s Hwf Hg)|by apply (blamed_same s)|done|by rewrite Hph| |];
        by destruct v, (EnableL2 config).
    + injection Hadv as <-. apply blamed_early; try done; [by rewrite Hph| |]; by destruct (EnableL2 config).
  - set (ph := if succeeds _ then _ else _) in *.
    assert (broken ph = false /\ forall st l, ph <> Wait st l) as [H1 H2] by (unfold ph, after_read; repeat case_match; done).
    destruct (refreshes ph); [|injection Hadv as <-; apply blamed_early; try done; by rewrite Hph].
    destruct (sy_requests s !! ch_refresh c) eqn:Hc; [done|]. injection Hadv as <-.
    assert (ch_refresh c <> i) as Hne by congruence. destruct (wf_request _ Hwf i r Hi) as (Hv&Hg&Hs).
    apply blamed_early; try done; [| |simpl; by rewrite lookup_insert_ne|by rewrite Hph].
    + by apply (wf_spawn (ch_refresh c) (mkRequest (rq_gateway r) (rq_key r) (sy_now s) JoinRefresh)).
    + constructor; simpl.
      * intros j r'. rewrite lookup_insert_Some. intros [[<- <-]|[_ Hj]]; [done|by eapply (blamed_broken _ Hb)].
      * intros j r' st l rl. rewrite !lookup_insert_Some. intros [[<- <-]|[_ Hj]] Hp [[<- <-]|[_ Hrl]] Hgu; try done.
        by eapply (blamed_wait _ Hb).
  - injection Hadv as <-. apply blamed_early; try done; [by apply wf_effect| |by rewrite effect_requests|by rewrite Hph].
    apply (blamed_same s); [by rewrite effect_requests|by destruct (ch_fault c)|done].
  - destruct (setL1 _ _ _ _ _ _ _) as [s1|] eqn:Hset; [|done]. injection Hadv as <-.
    destruct (wf_setL1 _ _ _ _ _ _ _ _ Hset Hwf) as [Hwf1 Hr1].
    apply blamed_early; [done| |by rewrite Hr1|by rewrite Hph|done|done].
    apply setL1_shape in Hset as [[_ ->]|(gw&_&_&->)]; [done|]. by apply (blamed_same s).
  - by eapply blamed_start_flight; [..|exact Hadv]; try done; rewrite Hph.
  - destruct (sy_requests s !! leader) as [rl|] eqn:Hl; [|done].
    assert (gave_up (rq_phase rl) = true -> blamed (goto i r (fallback config stale) s)) as Hfall.
    { intros Hgu. pose proof (blamed_wait _ Hb _ _ _ _ _ Hi Hph Hl Hgu) as Hrf.
      apply blamed_goto; try done. by intros st l ?%fallback_not_wait. }
    destruct (rq_phase rl) as [| | | | | | | | | |v []| | |]; try done; injection Hadv as <-; try by apply Hfall.
    apply blamed_goto; try done.
  - injection Hadv as <-. apply blamed_goto; [apply (wf_same s); [done|done|simpl; lia|done]| |done| | |by destruct (ch_origin c)].
    + apply (blamed_later s); [done| |done]. simpl. by apply suffix_cons_r.
    + simpl. destruct (ch_origin c) eqn:Ho; [done|]. intros _. eexists. split; [by apply elem_of_cons; left|done].
    + by destruct (ch_origin c).
  - destruct (setL1 _ _ _ _ _ _ _) as [s1|] eqn:Hset; [|done]. injection Hadv as <-.
    destruct (wf_setL1 _ _ _ _ _ _ _ _ Hset Hwf) as [Hwf1 Hr1].
    apply blamed_goto; [done| |by rewrite Hr1|by destruct (EnableL2 config)..].
    apply setL1_shape in Hset as [[_ ->]|(gw&_&_&->)]; [done|]. by apply (blamed_same s).
  - injection Hadv as <-. set (s1 := effect _ _ s).
    assert (sy_requests s1 = sy_requests s /\ sy_loads s1 = sy_loads s) as (Hr1&Hl1).
    { unfold s1, effect, SET. destruct (ch_fault c); try done; by destruct (GET _ _). }
    apply blamed_goto; [apply wf_effect; [apply SET_same|done]| |by rewrite Hr1|done|done|done].
    apply (blamed_same s); [done|by rewrite Hl1|done].
  - destruct (sy_gateways s !! rq_gateway r) as [gw|] eqn:Hg; [|done]. injection Hadv as <-.
    assert (r0 = None -> refused (sy_loads s) (rq_key r)) as Hrf.
    { intros ->. eapply (blamed_broken _ Hb); [done|]. by rewrite Hph. }
    apply blamed_goto; try done.
    + eapply wf_gateway; [done| |done]. apply delete_subseteq.
    + by apply (blamed_same s).
    + destruct f; simpl; [|done]. destruct r0; [done|]. intros _. by apply Hrf.
    + destruct f; simpl; [|done]. destruct r0; [done|]. intros _ _. by apply Hrf.
    + intros st l Hw. exfalso. destruct f; simpl in Hw; [|done]. destruct r0; [done|]. by apply fallback_not_wait in Hw.
  - by eapply blamed_start_flight; [..|exact Hadv]; try done; rewrite Hph.
Qed.

Lemma blamed_subset m s : m ⊆ sy_requests s -> blamed s -> blamed (with_requests m s).
Proof.
  intros Hm [H1 H2]. constructor; simpl.
  - intros i r Hi. eapply H1. by eapply lookup_weaken.
  - intros i r st l rl Hi Hph Hl. eapply H2; [|done|]; by eapply lookup_weaken.
Qed.

Lemma blamed_exec l s s' : wf s -> blamed s -> exec config l s = Some s' -> blamed s'.
Proof.
  intros Hwf Hb. destruct l as [i g key|i c|j g calls|j c|g|g|g|g|d]; simpl.
  - destruct (sy_requests s !! i) eqn:Hi; [done|]. destruct (sy_gateways s !! g); [|done]. destruct (valid_key key); [|done].
    intros [= <-]. constructor; simpl.
    + intros j r'. rewrite lookup_insert_Some. intros [[<- <-]|[_ Hj]]; [done|by eapply (blamed_broken _ Hb)].
    + intros j r' st l rl. rewrite !lookup_insert_Some. intros [[<- <-]|[_ Hj]] Hp [[<- <-]|[_ Hrl]] Hgu; try done.
      by eapply (blamed_wait _ Hb).
  - destruct (sy_requests s !! i) as [r|] eqn:Hi; [|done]. by apply blamed_advance.
  - destruct (sy_invalidations s !! j); [done|]. destruct (sy_gateways s !! g); [|done]. intros [= <-]. by apply (blamed_same s).
  - destruct (sy_invalidations s !! j) as [iv|]; [|done]. intros Hs.
    apply inv_advance_shape in Hs as (ph'&s1&->&He). apply (blamed_same s); [by destruct He|by destruct He|done].
  - destruct (sy_gateways s !! g) as [gw|]; [|done]. destruct (gw_inbox gw) as [[|m q]|]; [done| |done].
    intros [= <-]. by apply (blamed_same s).
  - destruct (sy_gateways s !! g) as [gw|]; [|done]. destruct (gw_inbox gw); [done|]. destruct (EnableL2 config); [|done].
    intros [= <-]. by apply (blamed_same s).
  - destruct (sy_gateways s !! g) as [gw|]; [|done]. intros [= <-]. by apply (blamed_same s).
  - destruct (sy_gateways s !! g) as [gw|]; [|done]. intros [= <-].
    apply (blamed_subset (filter _ _)); [apply map_filter_subseteq|]. by apply (blamed_same s).
  - destruct (Z.leb_spec 0 d); [|done]. intros [= <-]. by apply (blamed_same s).
Qed.

Lemma run_inv (I : system -> Prop) ls s s' :
  (forall l s s', wf s -> I s -> exec config l s = Some s' -> I s') -> wf s -> I s -> run config ls s = Some s' -> I s'.
Proof.
  intros Hstep. revert s. induction ls as [|l ls IH]; intros s Hwf Hs; simpl; [by intros [= <-]|].
  destruct (exec config l s) as [s1|] eqn:He; [|done]. apply IH; [by eapply wf_exec|by eapply Hstep].
Qed.
End blame.

(** C39 A request fails only for an error of the origin: whatever becomes of Redis, of
    other instances and of invalidations, when a request for a key has failed, the
    origin has failed for that key. *)
Theorem only_the_origin_fails_requests config s i r :
  reachable config s -> sy_requests s !! i = Some r -> rq_phase r = Failed ->
  exists ld, ld ∈ sy_loads s /\ ld_key ld = rq_key r /\ ld_value ld = None.
Proof.
  intros (n&t&ls&Hrun) Hi Hph. eapply (run_inv config blamed) in Hrun; [|apply blamed_exec|apply wf_started|].
  - eapply (blamed_broken _ Hrun); [done|]. by rewrite Hph.
  - constructor; simpl; intros *; by rewrite lookup_empty.
Qed.

(** * The bound of the local caches *)

Section bound.
Variable config : Config.

Definition limit : Z := if MaxEntries config <=? 0 then 512 else MaxEntries config.

Definition in_bounds (s : system) : Prop :=
  forall g gw, sy_gateways s !! g = Some gw -> bounded (gw_local gw) /\ maxEntries (gw_local gw) = limit.

Lemma in_bounds_put g gw s :
  bounded (gw_local gw) -> maxEntries (gw_local gw) = limit -> in_bounds s -> in_bounds (put_gateway g gw s).
Proof. intros Hb Hl Hs g' gw'. simpl. rewrite lookup_insert_Some. intros [[<- <-]|[_ Hg]]; [done|by eapply Hs]. Qed.

Lemma in_bounds_within g gw c q m s :
  sy_gateways s !! g = Some gw -> within c (gw_local gw) -> maxEntries c = maxEntries (gw_local gw) ->
  in_bounds s -> in_bounds (put_gateway g (mkGateway c m q) s).
Proof.
  intros Hg Hw Hm Hs. destruct (Hs g gw Hg) as [Hb Hl]. apply in_bounds_put; simpl; [|congruence|done].
  by eapply within_bounded.
Qed.

Lemma in_bounds_setL1 it g k v t s s' :
  setL1 config it g k v t s = Some s' -> valid_key k = true -> in_bounds s -> in_bounds s'.
Proof.
  intros Hs Hk Hb. apply setL1_shape in Hs as [[_ ->]|(gw&Hg&Hw&->)]; [done|]. destruct (Hb g gw Hg) as [Hbg Hl].
  assert (k <> "") as Hne by (intros ->; done).
  apply in_bounds_put; [| |done]; simpl.
  - destruct (full k (gw_local gw)) eqn:Hf; [destruct Hw; [done|by apply set_bounded]|by apply set_bounded_room].
  - rewrite <- Hl. unfold set, evictOldestLocked. destruct (full _ _); [|done]. by destruct (is_empty _).
Qed.

Lemma in_bounds_effect f op s : (forall s, sy_gateways (op s) = sy_gateways s) -> in_bounds s -> in_bounds (effect f op s).
Proof. intros Hop Hs g gw. unfold effect. destruct f; rewrite ?Hop; apply Hs. Qed.

Lemma get_max key t c : maxEntries (get key t c).1 = maxEntries c.
Proof. unfold get. destruct (entries c !! key); [|done]. by destruct (negb _). Qed.

Lemma in_bounds_advance i r c s s' :
  wf s -> in_bounds s -> sy_requests s !! i = Some r -> advance config i r c s = Some s' -> in_bounds s'.
Proof.
  intros Hwf Hb Hi. destruct (wf_request _ Hwf i r Hi) as (Hv&_&_). unfold advance. destruct (rq_phase r); try done.
  - destruct (EnableL1 config); [|by intros [= <-]]. destruct (sy_gateways s !! rq_gateway r) as [gw|] eqn:Hg; [|done].
    pose proof (get_within (rq_key r) (sy_now s) (gw_local gw)) as Hw. pose proof (get_max (rq_key r) (sy_now s) (gw_local gw)) as Hm.
    destruct (get _ _ _) as [l v]. simpl in *. intros [= <-].
    exact (in_bounds_within (rq_gateway r) gw l (gw_inbox gw) (gw_group gw) s Hg Hw Hm Hb).
  - destruct (refreshes _); [|by intros [= <-]]. destruct (sy_requests s !! ch_refresh c); [done|]. by intros [= <-].
  - intros [= <-]. by apply (in_bounds_effect (ch_fault c) (DEL _)).
  - destruct (setL1 _ _ _ _ _ _ _) as [s1|] eqn:Hset; [|done]. intros [= <-]. by apply (in_bounds_setL1 _ _ _ _ _ _ _ Hset).
  - unfold start_flight. destruct (sy_gateways s !! rq_gateway r) as [gw|] eqn:Hg; [|done].
    destruct (gw_group gw !! _); intros [= <-]; [done|].
    exact (in_bounds_within (rq_gateway r) gw _ (gw_inbox gw) _ s Hg (within_refl _) eq_refl Hb).
  - destruct (sy_requests s !! leader) as [rl|]; [|done].
    destruct (rq_phase rl) as [| | | | | | | | | |? []| | |]; try done; by intros [= <-].
  - by intros [= <-].
  - destruct (setL1 _ _ _ _ _ _ _) as [s1|] eqn:Hset; [|done]. intros [= <-]. by apply (in_bounds_setL1 _ _ _ _ _ _ _ Hset).
  - intros [= <-]. apply (in_bounds_effect (ch_fault c) (SET _ _ _)); [|done]. intros s0. apply SET_same.
  - destruct (sy_gateways s !! rq_gateway r) as [gw|] eqn:Hg; [|done]. intros [= <-].
    exact (in_bounds_within (rq_gateway r) gw _ (gw_inbox gw) _ s Hg (within_refl _) eq_refl Hb).
  - unfold start_flight. destruct (sy_gateways s !! rq_gateway r) as [gw|] eqn:Hg; [|done].
    destruct (gw_group gw !! _); intros [= <-]; [done|].
    exact (in_bounds_within (rq_gateway r) gw _ (gw_inbox gw) _ s Hg (within_refl _) eq_refl Hb).
Qed.

Lemma newLocalCache_bounded : bounded (newLocalCache (MaxEntries config)) /\ maxEntries (newLocalCache (MaxEntries config)) = limit.
Proof.
  unfold newLocalCache, bounded, limit. simpl. rewrite map_size_empty. destruct (Z.leb_spec (MaxEntries config) 0); split_and!; try done; lia.
Qed.

Lemma in_bounds_exec l s s' : wf s -> in_bounds s -> exec config l s = Some s' -> in_bounds s'.
Proof.
  intros Hwf Hb. destruct l as [i g key|i c|j g calls|j c|g|g|g|g|d]; simpl.
  - destruct (sy_requests s !! i); [done|]. destruct (sy_gateways s !! g); [|done]. destruct (valid_key key); [|done]. by intros [= <-].
  - destruct (sy_requests s !! i) as [r|] eqn:Hi; [|done]. by apply in_bounds_advance.
  - destruct (sy_invalidations s !! j); [done|]. destruct (sy_gateways s !! g); [|done]. by intros [= <-].
  - destruct (sy_invalidations s !! j) as [iv|]; [|done]. intros Hs. apply inv_advance_shape in Hs as (ph'&s1&->&He).
    destruct He as [|gw f Hg Hf|ks|m]; [done| |done|].
    + destruct (Hf (gw_local gw)). exact (in_bounds_within _ gw _ (gw_inbox gw) (gw_group gw) s Hg ltac:(done) ltac:(done) Hb).
    + intros g gw. simpl. rewrite lookup_fmap_Some. intros (gw0&<-&Hg). by apply (Hb g gw0).
  - destruct (sy_gateways s !! g) as [gw|] eqn:Hg; [|done]. destruct (gw_inbox gw) as [[|m q]|]; [done| |done]. intros [= <-].
    exact (in_bounds_within g gw _ (Some q) (gw_group gw) s Hg (consume_within m _) eq_refl Hb).
  - destruct (sy_gateways s !! g) as [gw|] eqn:Hg; [|done]. destruct (gw_inbox gw); [done|]. destruct (EnableL2 config); [|done].
    intros [= <-]. exact (in_bounds_within g gw _ (Some []) (gw_group gw) s Hg (within_refl _) eq_refl Hb).
  - destruct (sy_gateways s !! g) as [gw|] eqn:Hg; [|done]. intros [= <-].
    exact (in_bounds_within g gw _ None (gw_group gw) s Hg (within_refl _) eq_refl Hb).
  - destruct (sy_gateways s !! g) as [gw|] eqn:Hg; [|done]. intros [= <-]. destruct newLocalCache_bounded.
    by apply (in_bounds_put g (mkGateway (newLocalCache (MaxEntries config)) ∅ None) s).
  - destruct (0 <=? d); [|done]. by intros [= <-].
Qed.
End bound.

(** A local cache never holds more entries than it may. *)
Theorem local_caches_are_bounded config s g gw :
  reachable config s -> sy_gateways s !! g = Some gw ->
  Z.of_nat (size (entries (gw_local gw))) <= if MaxEntries config <=? 0 then 512 else MaxEntries config.
Proof.
  intros (n&t&ls&Hrun) Hg. eapply (run_inv config (in_bounds config)) in Hrun; [|apply in_bounds_exec|apply wf_started|].
  - destruct (Hrun g gw Hg) as [(_&Hs&_) Hl]. by rewrite Hl in Hs.
  - intros g' gw' Hg'. simpl in Hg'. apply elem_of_list_to_map_2, list_elem_of_fmap in Hg' as (?&[= -> ->]&_).
    apply newLocalCache_bounded.
Qed.

(** * No request is stuck *)

Definition rank (ph : phase) : nat :=
  match ph with
  | ReadL1 => 9 | ReadL2 _ => 8 | DropL2 => 7 | Join _ | JoinRefresh => 6 | Wait _ _ => 5 | Load _ => 4
  | KeepL1 _ _ => 3 | KeepL2 _ _ _ => 2 | FillL1 _ _ | Land _ _ => 1 | Answered _ _ | Failed | Refreshed => 0
  end%nat.

Definition finished (ph : phase) : Prop := rank ph = 0%nat.

Section progress.
Variable config : Config.
Implicit Types (s : system) (r : request).

(** The requests besides [i] that are there stay as they are. *)
Definition others_kept (i : nat) s s' : Prop := forall j r, j <> i -> sy_requests s !! j = Some r -> sy_requests s' !! j = Some r.

Definition moves (i : nat) r s s' : Prop :=
  exists ph, sy_requests s' !! i = Some (mkRequest (rq_gateway r) (rq_key r) (rq_start r) ph) /\ (rank ph < rank (rq_phase r))%nat /\
    others_kept i s s' /\ (in_flight (rq_phase r) <> None -> in_flight ph <> None \/ finished ph).

Lemma moves_goto i r ph s s1 :
  sy_requests s1 = sy_requests s -> (rank ph < rank (rq_phase r))%nat ->
  (in_flight (rq_phase r) <> None -> in_flight ph <> None \/ finished ph) -> moves i r s (goto i r ph s1).
Proof.
  intros Hr Hk Hf. exists ph. simpl. rewrite lookup_insert_eq. split_and!; try done.
  intros j r' Hj Hr'. simpl. by rewrite lookup_insert_ne, Hr.
Qed.

Lemma walks_map_to_list c : walks (map_to_list (entries c)) c = true.
Proof.
  unfold walks. rewrite !bool_decide_true; [done|by rewrite list_to_map_to_list|apply NoDup_fst_map_to_list].
Qed.

Lemma setL1_possible g gw k v t s :
  sy_gateways s !! g = Some gw ->
  exists s', setL1 config (map_to_list (entries (gw_local gw))) g k v t s = Some s' /\ sy_requests s' = sy_requests s.
Proof.
  intros Hg. unfold setL1. destruct (EnableL1 config); simpl; [|by exists s]. rewrite Hg, walks_map_to_list.
  destruct (negb _); simpl; by eexists.
Qed.

Lemma start_flight_moves i r f s gw :
  sy_gateways s !! rq_gateway r = Some gw -> rank (rq_phase r) = 6%nat -> in_flight (rq_phase r) = None ->
  exists s', start_flight i r f s = Some s' /\ moves i r s s'.
Proof.
  intros Hg Hk Hf. unfold start_flight. rewrite Hg. destruct (gw_group gw !! _); (eexists; split; [done|]);
    apply moves_goto; try done; rewrite Hk; [destruct f|]; simpl; lia.
Qed.

Lemma fallback_rank stale : rank (fallback config stale) = 0%nat.
Proof. unfold fallback. by repeat case_match. Qed.

Lemma advance_possible i r s :
  wf s -> sy_requests s !! i = Some r -> ~ finished (rq_phase r) ->
  (forall st l rl, rq_phase r = Wait st l -> sy_requests s !! l = Some rl -> in_flight (rq_phase rl) = None) ->
  exists c s', advance config i r c s = Some s' /\ moves i r s s'.
Proof.
  intros Hwf Hi Hn Hw. destruct (wf_request _ Hwf i r Hi) as (Hv&[gw Hg]&_).
  exists (mkChoice NoFault None (map_to_list (entries (gw_local gw))) (fresh (dom (sy_requests s))) [] false).
  unfold advance, finished in *. destruct (rq_phase r) eqn:Hph; simpl in *; try done.
  - destruct (EnableL1 config).
    + rewrite Hg. destruct (get _ _ _) as [l v]. eexists. split; [done|].
      apply moves_goto; [done| |by rewrite Hph]. rewrite Hph. destruct v; [simpl; lia|]. destruct (EnableL2 config); simpl; lia.
    + eexists. split; [done|]. apply moves_goto; [done| |by rewrite Hph]. rewrite Hph. destruct (EnableL2 config); simpl; lia.
  - set (ph := after_read _ _ _). assert (rank ph < 8)%nat as Hk by (unfold ph, after_read; repeat case_match; simpl; lia).
    assert (sy_requests s !! fresh (dom (sy_requests s)) = None) as Hfr.
    { apply not_elem_of_dom. apply is_fresh. }
    destruct (refreshes ph).
    + rewrite Hfr. eexists. split; [done|]. exists ph. simpl. rewrite lookup_insert_eq, Hph. split_and!; try done.
      intros j r' Hj Hr'. simpl. rewrite !lookup_insert_ne; [done|congruence|done].
    + eexists. split; [done|]. apply moves_goto; [done| |by rewrite Hph]. by rewrite Hph.
  - eexists. split; [done|]. apply moves_goto; [done| |by rewrite Hph]. rewrite Hph. simpl. lia.
  - destruct (setL1_possible (rq_gateway r) gw (rq_key r) v t s Hg) as (s1&->&Hr1). eexists. split; [done|].
    apply moves_goto; [done| |by rewrite Hph]. rewrite Hph. simpl. lia.
  - by eapply start_flight_moves; rewrite ?Hph.
  - destruct (wf_wait _ Hwf _ _ _ _ Hi Hph) as (rl&Hrl&_&_&Hled). specialize (Hw _ _ _ eq_refl Hrl). rewrite Hrl.
    destruct (rq_phase rl) as [| | | | | | | | | |v []| | |]; try done; (eexists; split; [done|]);
      (apply moves_goto; [done|rewrite Hph, ?fallback_rank; simpl; lia|by rewrite Hph]).
  - eexists. split; [done|]. apply moves_goto; [done|rewrite Hph; simpl; lia|by left].
  - destruct (setL1_possible (rq_gateway r) gw (rq_key r) v (sy_now s) s Hg) as (s1&->&Hr1). eexists. split; [done|].
    apply moves_goto; [done| |by destruct (EnableL2 config); left]. rewrite Hph. destruct (EnableL2 config); simpl; lia.
  - eexists. split; [done|]. apply moves_goto; [apply SET_same|rewrite Hph; simpl; lia|by left].
  - rewrite Hg. eexists. split; [done|].
    assert (rank (landed config f r0) = 0%nat) as Hl by (destruct f, r0; simpl; try done; apply fallback_rank).
    apply moves_goto; [done|rewrite Hph, Hl; simpl; lia|by right].
  - by eapply start_flight_moves; rewrite ?Hph.
Qed.

Lemma run_app ls1 ls2 s s1 : run config ls1 s = Some s1 -> run config (ls1 ++ ls2) s = run config ls2 s1.
Proof.
  revert s. induction ls1 as [|l ls1 IH]; intros s; simpl; [by intros [= ->]|]. destruct (exec config l s); [|done]. apply IH.
Qed.

Lemma one_step i r c s s' : sy_requests s !! i = Some r -> advance config i r c s = Some s' -> run config [LStep i c] s = Some s'.
Proof. intros Hi Ha. simpl. by rewrite Hi, Ha. Qed.

(** A call in flight lands, whatever the others wait for. *)
Lemma flight_lands n i r s :
  (rank (rq_phase r) <= n)%nat -> wf s -> sy_requests s !! i = Some r -> in_flight (rq_phase r) <> None ->
  exists ls s' ph, run config ls s = Some s' /\ wf s' /\
    sy_requests s' !! i = Some (mkRequest (rq_gateway r) (rq_key r) (rq_start r) ph) /\ finished ph /\ others_kept i s s'.
Proof.
  revert r s. induction n as [|n IH]; intros r s Hn Hwf Hi Hf.
  { destruct (rq_phase r); simpl in *; done || lia. }
  destruct (advance_possible i r s Hwf Hi) as (c&s1&Ha&ph&Hph&Hk&Ho&Hgo).
  { unfold finished. by destruct (rq_phase r). }
  { intros st l rl Hw. by rewrite Hw in Hf. }
  pose proof (wf_advance config i r c s s1 Hwf Hi Ha) as Hwf1. destruct (Hgo Hf) as [Hf1|Hfin].
  - destruct (IH (mkRequest (rq_gateway r) (rq_key r) (rq_start r) ph) s1) as (ls&s2&ph2&Hrun&Hwf2&Hph2&Hfin&Ho2); [simpl; lia|done..|].
    exists ([LStep i c] ++ ls), s2, ph2. split_and!; try done.
    + by rewrite (run_app _ _ _ _ (one_step i r c s s1 Hi Ha)).
    + intros j rj Hj Hr. by apply Ho2, Ho.
  - exists [LStep i c], s1, ph. split_and!; try done. by apply (one_step i r).
Qed.

Lemma request_finishes n i r s :
  (rank (rq_phase r) <= n)%nat -> wf s -> sy_requests s !! i = Some r ->
  exists ls s' r', run config ls s = Some s' /\ sy_requests s' !! i = Some r' /\ finished (rq_phase r').
Proof.
  revert r s. induction n as [|n IH]; intros r s Hn Hwf Hi; [exists [], s, r; split_and!; [done..|unfold finished; lia]|].
  destruct (decide (rank (rq_phase r) = 0%nat)) as [Hz|Hz]; [by exists [], s, r|].
  assert (exists ls s1, run config ls s = Some s1 /\ wf s1 /\ sy_requests s1 !! i = Some r /\
    (forall st l rl, rq_phase r = Wait st l -> sy_requests s1 !! l = Some rl -> in_flight (rq_phase rl) = None)) as (ls0&s1&Hrun1&Hwf1&Hi1&Hw).
  { assert ((exists l st, rq_phase r = Wait st l) \/ forall l st, rq_phase r <> Wait st l) as [(l&st&Hph)|Hno]
      by (destruct (rq_phase r); solve [right; done|left; by eexists _, _]).
    - destruct (wf_wait _ Hwf _ _ _ _ Hi Hph) as (rl&Hrl&_&_&Hled).
      destruct (in_flight (rq_phase rl)) as [f|] eqn:Hf; [|exists [], s; split_and!; try done; intros st' l' rl' Hph'; congruence].
      destruct (flight_lands _ l rl s (le_n _) Hwf Hrl) as (ls&s1&ph&Hrun&Hwf1&Hl1&Hfin&Ho); [by rewrite Hf|].
      assert (l <> i) as Hne by (intros ->; simplify_eq; by rewrite Hph in Hf).
      exists ls, s1. split_and!; [done|done|by apply Ho|]. intros st' l' rl' Hph' Hrl'.
      rewrite Hph in Hph'. injection Hph' as <- <-. rewrite Hl1 in Hrl'. injection Hrl' as <-. simpl. unfold finished in Hfin. by destruct ph.
    - exists [], s. split_and!; try done. intros st l rl Hph. by apply Hno in Hph. }
  destruct (advance_possible i r s1 Hwf1 Hi1 Hz Hw) as (c&s2&Ha&ph&Hph&Hk&_).
  pose proof (wf_advance config i r c s1 s2 Hwf1 Hi1 Ha) as Hwf2.
  destruct (IH (mkRequest (rq_gateway r) (rq_key r) (rq_start r) ph) s2) as (ls&s3&r'&Hrun&Hr'&Hfin); [simpl; lia|done..|].
  exists (ls0 ++ [LStep i c] ++ ls), s3, r'. split_and!; try done.
  by rewrite (run_app _ _ _ _ Hrun1), (run_app _ _ _ _ (one_step i r c s1 s2 Hi1 Ha)).
Qed.
End progress.

