(* ===== verification/CacheScan.v ===== *)
(** The read cache of the gateway: what an invalidation by prefix deletes, and which
    keys the invalidations of a change name. *)

From Stdlib Require Import Ascii.
From S2P Require Import Prelude Effects GoText Cache CacheSafety.
Close Scope char_scope.

(** * Scans *)

(** Keys of Redis are made anew with new numbers. *)
Definition renews (s s' : system) : Prop :=
  (forall k e', GET k s' = Some e' -> (exists e, GET k s = Some e /\ e_born e = e_born e') \/ (sy_births s <= e_born e' < sy_births s')%nat) /\
  (sy_births s <= sy_births s')%nat.

Lemma renews_same s s' :
  sy_redis s' = sy_redis s -> sy_births s' = sy_births s -> sy_now s <= sy_now s' -> renews s s'.
Proof.
  intros Hr Hb Hn. split; [|lia]. intros k e' Hk. left. exists e'. split; [|done]. unfold GET in *. rewrite Hr in Hk.
  destruct (sy_redis s !! k) as [e|]; [|done]. unfold visible in *.
  destruct (Z.ltb_spec (sy_now s') (e_expires e)); [|done]. by rewrite (proj2 (Z.ltb_lt _ _)) by lia.
Qed.

Lemma renews_refl s : renews s s.
Proof. apply renews_same; [done..|lia]. Qed.

Lemma GET_sub k s m n e : m ⊆ sy_redis s -> GET k (with_redis m n s) = Some e -> GET k s = Some e.
Proof.
  unfold GET. simpl. intros Hm. destruct (m !! k) as [x|] eqn:Hx; [|done]. by rewrite (lookup_weaken _ _ _ _ Hx Hm).
Qed.

Lemma renews_DEL ks s : renews s (DEL ks s).
Proof.
  split; [|done]. intros k e' Hk. left. exists e'. split; [|done]. eapply GET_sub; [|exact Hk].
  clear. induction ks; simpl; [done|]. etrans; [apply delete_subseteq|done].
Qed.

Lemma renews_SET k x ttl s : renews s (SET k x ttl s).
Proof.
  unfold SET. destruct (GET k s) as [e|] eqn:Hg; (split; [|simpl; lia]); intros k' e'; destruct (decide (k' = k)) as [->|Hne];
    unfold GET in *; simpl; rewrite ?lookup_insert_eq, ?lookup_insert_ne by done; try (intros Hk; left; by exists e');
    destruct (visible _ _); try done; intros [= <-]; simpl; [left; by exists e|right; lia].
Qed.

Lemma renews_effect f op s : renews s (op s) -> renews s (effect f op s).
Proof. intros Hop. destruct f; simpl; [done|apply renews_refl|done]. Qed.

Lemma renews_then s s1 s' :
  renews s s1 -> sy_redis s' = sy_redis s1 -> sy_births s' = sy_births s1 -> sy_now s' = sy_now s1 -> renews s s'.
Proof. intros [H1 H2] Hr Hb Hn. split; [|lia]. intros k e' Hk. rewrite Hb. apply H1. revert Hk. unfold GET. by rewrite Hr, Hn. Qed.

Section scans.
Variable config : Config.

Lemma renews_setL1 it g k v t s s' : setL1 config it g k v t s = Some s' -> renews s s'.
Proof. intros [[_ ->]|(gw&_&_&->)]%setL1_shape; [apply renews_refl|]. apply renews_same; [done..|simpl; lia]. Qed.

Ltac no_change := apply renews_same; [done..|simpl; lia].

Lemma renews_start_flight i r f s s' : start_flight i r f s = Some s' -> renews s s'.
Proof.
  unfold start_flight. destruct (sy_gateways s !! _) as [gw|]; [|done]. destruct (gw_group gw !! _); intros [= <-]; no_change.
Qed.

Lemma renews_advance i r c s s' : advance config i r c s = Some s' -> renews s s'.
Proof.
  unfold advance. destruct (rq_phase r); try done.
  - destruct (EnableL1 config); [|intros [= <-]; no_change]. destruct (sy_gateways s !! _); [|done].
    destruct (get _ _ _). intros [= <-]. no_change.
  - destruct (refreshes _); [|intros [= <-]; no_change]. destruct (sy_requests s !! ch_refresh c); [done|].
    intros [= <-]. no_change.
  - intros [= <-]. eapply renews_then; [apply (renews_effect (ch_fault c) (DEL [redisKey config (rq_key r)])), renews_DEL|done..].
  - destruct (setL1 _ _ _ _ _ _ _) as [s1|] eqn:Hs; [|done]. intros [= <-]. eapply renews_then; [by eapply renews_setL1|done..].
  - apply renews_start_flight.
  - destruct (sy_requests s !! leader) as [rl|]; [|done].
    destruct (rq_phase rl) as [| | | | | | | | | |? []| | |]; try done; intros [= <-]; no_change.
  - intros [= <-]. no_change.
  - destruct (setL1 _ _ _ _ _ _ _) as [s1|] eqn:Hs; [|done]. intros [= <-]. eapply renews_then; [by eapply renews_setL1|done..].
  - intros [= <-]. eapply renews_then; [eapply (renews_effect (ch_fault c)), renews_SET|done..].
  - destruct (sy_gateways s !! _); [|done]. intros [= <-]. no_change.
  - apply renews_start_flight.
Qed.

Lemma renews_inv_effect g s s' : inv_effect g s s' -> renews s s'.
Proof. intros [|gw f Hg Hf|ks|m]; [apply renews_refl|no_change|apply renews_DEL|no_change]. Qed.

Lemma renews_exec l s s' : exec config l s = Some s' -> renews s s'.
Proof.
  destruct l as [i g key|i c|j g calls|j c|g|g|g|g|d]; simpl.
  - destruct (sy_requests s !! i); [done|]. destruct (sy_gateways s !! g); [|done]. destruct (valid_key key); [|done]. intros [= <-]. no_change.
  - destruct (sy_requests s !! i) as [r|]; [|done]. apply renews_advance.
  - destruct (sy_invalidations s !! j); [done|]. destruct (sy_gateways s !! g); [|done]. intros [= <-]. no_change.
  - destruct (sy_invalidations s !! j) as [iv|]; [|done]. intros (ph'&s1&->&He)%inv_advance_shape.
    eapply renews_then; [by eapply renews_inv_effect|done..].
  - destruct (sy_gateways s !! g) as [gw|]; [|done]. destruct (gw_inbox gw) as [[|m q]|]; [done| |done]. intros [= <-]. no_change.
  - destruct (sy_gateways s !! g) as [gw|]; [|done]. destruct (gw_inbox gw); [done|]. destruct (EnableL2 config); [|done].
    intros [= <-]. no_change.
  - destruct (sy_gateways s !! g); [|done]. intros [= <-]. no_change.
  - destruct (sy_gateways s !! g); [|done]. intros [= <-]. no_change.
  - destruct (Z.leb_spec 0 d); [|done]. intros [= <-]. no_change.
Qed.

(** ** One scan *)

Section key.
Variables (j : nat) (k : string) (n : nat).

(** The key that was made with number [n] is there. *)
Definition there (s : system) : Prop := exists e, GET k s = Some e /\ e_born e = n.

Lemma there_before s s' : renews s s' -> (n < sy_births s)%nat -> there s' -> there s.
Proof. intros [H1 _] Hn (e'&Hk&He). destruct (H1 k e' Hk) as [(e&Hk'&He')|Hb]; [exists e; split; [done|congruence]|lia]. Qed.

(** Prefixes that a call has scanned. *)
Definition passed (all rest : list string) : list string := take (length all - length rest) all.
Definition gone_of (ps : list string) (s : system) : Prop :=
  Exists (fun p => has_prefix k (redisKey config p) = true) ps -> ~ there s.

(** What the phase of the scan knows of the key. *)
Definition knows (ph : inv_phase) (s : system) : Prop :=
  match ph with
  | Scan all rest todo _ =>
      rest `suffix_of` all /\ gone_of (passed all rest) s /\
      match rest, todo with
      | p :: _, Some todo => has_prefix k (redisKey config p) = true -> there s -> todo !! k = Some n
      | _, _ => True
      end
  | DelFound all rest todo found more _ =>
      rest `suffix_of` all /\ rest <> [] /\ gone_of (passed all rest) s /\
      match rest with
      | p :: _ => has_prefix k (redisKey config p) = true -> there s -> (more = true /\ todo !! k = Some n) \/ k ∈ found
      | [] => True
      end
  | Publish m _ => gone_of (msg_prefixes m) s
  | Next _ | DelKeys _ _ => True
  end.

Lemma knows_kept ph s s' : renews s s' -> (n < sy_births s)%nat -> knows ph s -> knows ph s'.
Proof.
  intros Hr Hn. pose proof (there_before s s' Hr Hn) as Ht.
  assert (forall ps, gone_of ps s -> gone_of ps s') as Hg by (unfold gone_of; auto).
  destruct ph as [calls|keys calls|all rest todo calls|all rest todo found more calls|m calls]; simpl; try done; auto.
  - intros (H1&H2&H3). split_and!; [done|auto|]. destruct rest as [|p rest], todo; auto.
  - intros (H1&H2&H3&H4). split_and!; [done|done|auto|]. destruct rest; auto.
Qed.

Lemma passed_next all p rest : p :: rest `suffix_of` all -> passed all rest = passed all (p :: rest) ++ [p].
Proof.
  intros [l ->]. unfold passed. rewrite !length_app. simpl.
  replace (length l + S (length rest) - S (length rest))%nat with (length l) by lia.
  replace (length l + S (length rest) - length rest)%nat with (length l + 1)%nat by lia.
  rewrite take_app_add, take_app_length. done.
Qed.

Lemma passed_all all : passed all [] = all.
Proof. unfold passed. simpl. rewrite Nat.sub_0_r. apply firstn_all. Qed.

(** The scan of a prefix ends with the key found, if it is still there. *)
Lemma knows_scanned all p rest todo more calls s :
  p :: rest `suffix_of` all -> gone_of (passed all (p :: rest)) s ->
  (has_prefix k (redisKey config p) = true -> there s -> more = true /\ todo !! k = Some n) ->
  knows (scanned all (p :: rest) todo more calls) s.
Proof.
  intros Hs Hg Hf. unfold scanned. destruct more; simpl.
  - split_and!; [done|done|]. intros Hp Ht. by apply Hf.
  - assert (gone_of (passed all rest) s) as Hg'.
    { rewrite (passed_next all p rest) by done. unfold gone_of in *. rewrite Exists_app, Exists_cons, Exists_nil. intros [He|[Hp|[]]]; [by apply Hg|].
      intros Ht. by destruct (Hf Hp Ht). }
    destruct rest as [|q rest]; simpl; [by rewrite passed_all in Hg'|].
    split_and!; [|done|done]. destruct Hs as [l ->]. exists (l ++ [p]). by rewrite <- app_assoc.
Qed.

Lemma matching_there p s : there s -> has_prefix k (redisKey config p) = true -> matching (redisKey config p) s !! k = Some n.
Proof.
  intros (e&Hk&He) Hp. unfold matching. rewrite lookup_fmap. unfold GET in Hk.
  destruct (sy_redis s !! k) as [x|] eqn:Hx; [|done]. destruct (visible (sy_now s) x) eqn:Hv; [|done]. injection Hk as ->.
  rewrite (proj2 (map_lookup_filter_Some _ _ _ e)) by done. simpl. by rewrite He.
Qed.

Lemma knows_inv_advance g ph c s s' :
  (n < sy_births s)%nat -> knows ph s -> inv_advance config j g ph c s = Some s' ->
  exists ph', sy_invalidations s' !! j = Some (mkInvalidation g ph') /\ knows ph' s'.
Proof.
  intros Hn Hk Hadv.
  assert (renews s s') as Hr.
  { apply inv_advance_shape in Hadv as (ph'&s1&->&He). eapply renews_then; [by eapply renews_inv_effect|done..]. }
  assert (forall ph s1, knows ph s1 -> exists ph', sy_invalidations (put_invalidation j g ph s1) !! j = Some (mkInvalidation g ph') /\
            knows ph' (put_invalidation j g ph s1)) as Hput.
  { intros ph0 s1 Hk1. exists ph0. simpl. by rewrite lookup_insert_eq. }
  unfold inv_advance in Hadv. destruct ph as [[|[keys|prefixes] calls]|keys calls|all rest todo calls|all rest todo found more calls|m calls].
  - done.
  - destruct keys as [|k0 keys]; [injection Hadv as <-; by apply Hput|].
    destruct (on_local _ _ _) as [s1|]; [|done]. injection Hadv as <-. apply Hput. by destruct (EnableL2 config).
  - destruct prefixes as [|p ps]; [injection Hadv as <-; by apply Hput|].
    destruct (on_local _ _ _) as [s1|]; [|done]. injection Hadv as <-. apply Hput. destruct (EnableL2 config); [|done].
    simpl. split_and!; [done| |done]. unfold gone_of, passed. rewrite Nat.sub_diag. simpl. by rewrite Exists_nil.
  - injection Hadv as <-. apply Hput. destruct (succeeds _); [|done]. simpl. unfold gone_of. by rewrite Exists_nil.
  - simpl in Hk. destruct Hk as (Hs&Hg&Hf). destruct rest as [|p rest]; [injection Hadv as <-; apply Hput; simpl; by rewrite passed_all in Hg|].
    destruct (negb _); [injection Hadv as <-; by apply Hput|]. destruct (_ && _) eqn:Hguard; [|done]. injection Hadv as <-. apply Hput.
    apply andb_true_iff in Hguard as [_ Hmore].
    set (todo0 := default _ todo) in *. set (left := filter _ todo0) in *.
    assert (has_prefix k (redisKey config p) = true -> there s -> todo0 !! k = Some n) as Hin.
    { intros Hp Ht. unfold todo0. destruct todo as [todo|]; simpl; [by apply Hf|by apply matching_there]. }
    assert (has_prefix k (redisKey config p) = true -> there s -> left !! k = Some n \/ k ∈ ch_found c) as Hleft.
    { intros Hp Ht. destruct (decide (k ∈ ch_found c)) as [|Hno]; [by right|left]. unfold left.
      apply map_lookup_filter_Some. split; [by apply Hin|done]. }
    assert (has_prefix k (redisKey config p) = true -> there s -> (ch_more c = true /\ left !! k = Some n) \/ k ∈ ch_found c) as Hnext.
    { intros Hp Ht. destruct (Hleft Hp Ht) as [Hl|]; [left|by right]. split; [|done].
      apply orb_true_iff in Hmore as [|Hno]; [done|]. apply bool_decide_eq_true in Hno. exfalso. apply Hno.
      destruct Ht as (e&He&Hb). by exists k, n, e. }
    destruct (ch_found c) as [|f fs]; [|by simpl; split_and!].
    apply knows_scanned; [done|done|]. intros Hp Ht. destruct (Hnext Hp Ht) as [|Hin0]; [done|by apply elem_of_nil in Hin0].
  - simpl in Hk. destruct Hk as (Hs&Hne&Hg&Hf). injection Hadv as <-. apply Hput. destruct rest as [|p rest]; [done|].
    destruct (ch_fault c); simpl; try done. assert (renews s (DEL found s)) as Hrd by apply renews_DEL.
    pose proof (there_before s (DEL found s) Hrd Hn) as Ht. apply knows_scanned; [done|intros Hex Ht0; by apply (Hg Hex), Ht|].
    intros Hp Ht'. destruct (Hf Hp (Ht Ht')) as [|Hin]; [done|]. destruct Ht' as (e&He&_). unfold GET in He. simpl in He.
    by rewrite delete_keys_gone in He.
  - injection Hadv as <-. by apply Hput.
Qed.

Definition informed (s : system) : Prop :=
  (n < sy_births s)%nat /\ forall g ph, sy_invalidations s !! j = Some (mkInvalidation g ph) -> knows ph s.

Lemma informed_same s s' : renews s s' -> sy_invalidations s' = sy_invalidations s -> informed s -> informed s'.
Proof.
  intros Hr Hi [Hn Hk]. split; [destruct Hr; lia|]. intros g ph Hj. rewrite Hi in Hj.
  apply (knows_kept ph s s' Hr Hn). by eapply Hk.
Qed.

Lemma advance_invalidations i r c s s' : advance config i r c s = Some s' -> sy_invalidations s' = sy_invalidations s.
Proof.
  unfold advance, start_flight. destruct (rq_phase r); try done.
  - destruct (EnableL1 config); [|by intros [= <-]]. destruct (sy_gateways s !! _); [|done]. destruct (get _ _ _). by intros [= <-].
  - destruct (refreshes _); [|by intros [= <-]]. destruct (sy_requests s !! ch_refresh c); [done|]. by intros [= <-].
  - intros [= <-]. by destruct (ch_fault c).
  - destruct (setL1 _ _ _ _ _ _ _) as [s1|] eqn:Hs; [|done]. intros [= <-]. by apply setL1_shape in Hs as [[_ ->]|(gw&_&_&->)].
  - destruct (sy_gateways s !! _); [|done]. destruct (gw_group _ !! _); by intros [= <-].
  - destruct (sy_requests s !! leader) as [rl|]; [|done].
    destruct (rq_phase rl) as [| | | | | | | | | |? []| | |]; try done; by intros [= <-].
  - by intros [= <-].
  - destruct (setL1 _ _ _ _ _ _ _) as [s1|] eqn:Hs; [|done]. intros [= <-]. by apply setL1_shape in Hs as [[_ ->]|(gw&_&_&->)].
  - intros [= <-]. unfold effect, SET. destruct (ch_fault c); try done; by destruct (GET _ _).
  - destruct (sy_gateways s !! _); [|done]. by intros [= <-].
  - destruct (sy_gateways s !! _); [|done]. destruct (gw_group _ !! _); by intros [= <-].
Qed.

Lemma informed_exec l s s' : informed s -> exec config l s = Some s' -> informed s'.
Proof.
  intros Hi He. pose proof (renews_exec _ _ _ He) as Hr.
  destruct l as [i g key|i c|j0 g calls|j0 c|g|g|g|g|d]; simpl in He.
  - apply (informed_same s); [done| |done]. destruct (sy_requests s !! i); [done|]. destruct (sy_gateways s !! g); [|done].
    destruct (valid_key key); [|done]. by injection He as <-.
  - apply (informed_same s); [done| |done]. destruct (sy_requests s !! i) as [r|]; [|done]. by eapply advance_invalidations.
  - destruct Hi as [Hn Hk]. split; [destruct Hr; lia|]. destruct (sy_invalidations s !! j0); [done|].
    destruct (sy_gateways s !! g); [|done]. injection He as <-. intros g' ph. simpl. rewrite lookup_insert_Some.
    intros [[-> [= <- <-]]|[_ Hj]]; [done|]. apply (knows_kept ph s _ Hr Hn). by eapply Hk.
  - destruct Hi as [Hn Hk]. split; [destruct Hr; lia|]. destruct (sy_invalidations s !! j0) as [[g ph]|] eqn:Hj0; [|done].
    destruct (decide (j0 = j)) as [->|Hne].
    + destruct (knows_inv_advance g ph c s s' Hn (Hk _ _ Hj0) He) as (ph'&Hj'&Hk'). intros g' ph2 Hj2. by simplify_eq.
    + apply inv_advance_shape in He as Hshape. destruct Hshape as (ph'&s1&->&Heff). intros g' ph2 Hj. simpl in Hj.
      rewrite lookup_insert_ne in Hj by done. apply (knows_kept ph2 s _ Hr Hn). eapply (Hk g').
      by destruct Heff.
  - apply (informed_same s); [done| |done]. destruct (sy_gateways s !! g) as [gw|]; [|done].
    destruct (gw_inbox gw) as [[|m q]|]; [done| |done]. by injection He as <-.
  - apply (informed_same s); [done| |done]. destruct (sy_gateways s !! g) as [gw|]; [|done].
    destruct (gw_inbox gw); [done|]. destruct (EnableL2 config); [|done]. by injection He as <-.
  - apply (informed_same s); [done| |done]. destruct (sy_gateways s !! g); [|done]. by injection He as <-.
  - destruct Hi as [Hn Hk]. split; [destruct Hr; lia|]. destruct (sy_gateways s !! g); [|done]. injection He as <-.
    intros g' ph Hj. simpl in Hj. apply map_lookup_filter_Some in Hj as [Hj _]. apply (knows_kept ph s _ Hr Hn). by eapply Hk.
  - apply (informed_same s); [done| |done]. destruct (0 <=? d); [|done]. by injection He as <-.
Qed.

Lemma informed_run ls s s' : informed s -> run config ls s = Some s' -> informed s'.
Proof.
  revert s. induction ls as [|l ls IH]; intros s Hi; simpl; [by intros [= <-]|].
  destruct (exec config l s) as [s1|] eqn:He; [|done]. apply IH. by eapply informed_exec.
Qed.
End key.

(** The numbers of the keys in Redis are below the next one. *)
Definition numbered (s : system) : Prop := forall k e, GET k s = Some e -> (e_born e < sy_births s)%nat.

Lemma numbered_run ls s s' : numbered s -> run config ls s = Some s' -> numbered s'.
Proof.
  revert s. induction ls as [|l ls IH]; intros s Hs; simpl; [by intros [= <-]|].
  destruct (exec config l s) as [s1|] eqn:He; [|done]. apply IH. destruct (renews_exec _ _ _ He) as [H1 H2].
  intros k e Hk. destruct (H1 k e Hk) as [(e0&Hk0&<-)|]; [|lia]. specialize (Hs k e0 Hk0). lia.
Qed.
End scans.

(** An invalidation by prefix that has come to its message has deleted every key with
    one of the prefixes that was there when it began, whatever others read, write and
    delete meanwhile and however the scan cuts its answers: if the key is there, it has
    been made anew since. *)
Theorem prefix_invalidation_deletes config n t ls0 s0 ls s j g g' prefixes calls calls' p k e e' :
  run config ls0 (started config n t) = Some s0 ->
  sy_invalidations s0 !! j = Some (mkInvalidation g (Next (CallInvalidatePrefix prefixes :: calls))) ->
  run config ls s0 = Some s ->
  sy_invalidations s !! j = Some (mkInvalidation g' (Publish (mkMessage [] prefixes) calls')) ->
  p ∈ prefixes -> has_prefix k (redisKey config p) = true -> GET k s0 = Some e -> GET k s = Some e' ->
  e_born e' <> e_born e.
Proof.
  intros Hrun0 Hj0 Hrun Hj Hp Hk Hget Hget' Heq.
  assert (numbered s0) as Hnum.
  { eapply numbered_run; [|exact Hrun0]. intros k' x. unfold GET. simpl. by rewrite lookup_empty. }
  assert (informed config j k (e_born e) s) as [_ Hi].
  { eapply informed_run; [|exact Hrun]. split; [by eapply Hnum|]. intros g1 ph1 Hj1. by simplify_eq. }
  specialize (Hi _ _ Hj). simpl in Hi. apply Hi; [|by exists e'].
  apply Exists_exists. by exists p.
Qed.

(** * The views of a change *)

Definition call_names (call : cache_call) (key : string) : bool :=
  match call with
  | CallInvalidate keys => bool_decide (key ∈ keys)
  | CallInvalidatePrefix prefixes => matches prefixes key
  end.
Definition names_key (calls : list cache_call) (key : string) : bool := existsb (fun call => call_names call key) calls.

(** The keys under which what depends on a product of a merchant is kept. *)
Inductive view_of (merchantID : Z) : string -> Prop :=
| view_catalog : view_of merchantID showcaseCatalogCacheKey
| view_detail p : view_of merchantID (productDetailCacheKey p)
| view_store : view_of merchantID (storeDetailCacheKey merchantID)
| view_products page size keyword : view_of merchantID (storeProductsCacheKey merchantID page size keyword)
| view_candidates page size m keyword : view_of merchantID (showcaseCandidatesCacheKey page size m keyword).

Lemma has_prefix_app p s : has_prefix (p +:+ s) p = true.
Proof. unfold has_prefix. rewrite strip_prefix_app. by apply bool_decide_eq_true. Qed.

Lemma matches_one p key : matches [p] key = has_prefix key p.
Proof. simpl. by rewrite orb_false_r. Qed.

Lemma strip_prefix_spec p s r : strip_prefix p s = Some r -> s = p +:+ r.
Proof.
  revert s. induction p as [|c p IH]; intros s; simpl; [by intros [= ->]|]. destruct s as [|d s]; [done|].
  case_bool_decide as Hc; [|done]. intros Hs. subst. rewrite (IH _ Hs). by rewrite string_app_cons.
Qed.

Lemma has_prefix_spec s p : has_prefix s p = true -> exists r, s = p +:+ r.
Proof. unfold has_prefix. intros [r Hr]%bool_decide_eq_true. exists r. by apply strip_prefix_spec. Qed.

Lemma itoa_no_colon z : free_of ":"%char (itoa z) = true.
Proof. apply free_of_itoa; [|done]. by refine (digit_cases _ _). Qed.

Lemma cut_itoa z s : cut ":"%char (itoa z +:+ ":" +:+ s) = Some (itoa z, s).
Proof. apply cut_app. apply itoa_no_colon. Qed.

Lemma string_app_assoc a b c : (a +:+ b) +:+ c = a +:+ (b +:+ c).
Proof. induction a as [|d a IH]; [done|]. rewrite !string_app_cons. by rewrite IH. Qed.

Lemma in_two {A} (x a b : A) : x ∈ [a; b] -> x = a \/ x = b.
Proof. intros [->|[->|?%elem_of_nil]%elem_of_cons]%elem_of_cons; auto. done. Qed.

(** The invalidations of a product name every view that depends on it, and of the
    pages of products of stores exactly those of its merchant. *)
Theorem change_reaches_its_views productID merchantID metadata key :
  0 < productID -> 0 < merchantID ->
  (view_of merchantID key -> names_key (invalidateProductReadCaches productID merchantID metadata) key = true) /\
  forall m page size keyword, key = storeProductsCacheKey m page size keyword ->
    (names_key (invalidateProductReadCaches productID merchantID metadata) key = true <-> m = merchantID).
Proof.
  intros Hp Hm.
  assert (invalidateProductReadCaches productID merchantID metadata =
    [CallInvalidate [showcaseCatalogCacheKey; productDetailCacheKey productID]; CallInvalidatePrefix ["product:detail:"];
     CallInvalidate [showcaseCatalogCacheKey; storeDetailCacheKey merchantID];
     CallInvalidatePrefix [storeProductsPrefix merchantID]; CallInvalidatePrefix [showcaseCandidatesPrefix]]) as ->.
  { unfold invalidateProductReadCaches, invalidateStoreReadCaches.
    destruct (Z.leb_spec productID 0); [lia|]. destruct (Z.leb_spec merchantID 0); [lia|].
    destruct (Z.ltb_spec 0 merchantID); [|lia]. by destruct (Z.leb_spec merchantID 0); [lia|]. }
  split.
  - intros Hv. unfold names_key. cbn [existsb call_names]. rewrite !orb_true_iff, !matches_one, !bool_decide_eq_true.
    destruct Hv as [|p| |page size kw|page size m kw].
    + left. by apply elem_of_cons; left.
    + right; left. apply has_prefix_app.
    + right; right; left. apply elem_of_cons; right. by apply elem_of_cons; left.
    + right; right; right; left. apply has_prefix_app.
    + right; right; right; right; left. apply has_prefix_app.
  - intros m page size kw ->. unfold names_key. cbn [existsb call_names]. rewrite !orb_true_iff, !matches_one, !bool_decide_eq_true. split.
    + intros [Hk|[Hk|[Hk|[Hk|[Hk|Hk]]]]].
      * by apply in_two in Hk as [Hk|Hk].
      * by apply has_prefix_spec in Hk as [r Hr].
      * by apply in_two in Hk as [Hk|Hk].
      * apply has_prefix_spec in Hk as [r Hr]. unfold storeProductsCacheKey, storeProductsPrefix in Hr.
        rewrite !string_app_assoc in Hr. apply (inj (String.app "store:products:")) in Hr.
        apply (f_equal (cut ":"%char)) in Hr. rewrite !cut_itoa in Hr. injection Hr as Hr _. by apply itoa_inj.
      * by apply has_prefix_spec in Hk as [r Hr].
      * done.
    + intros ->. right; right; right; left. apply has_prefix_app.
Qed.
