(* ===== verification/CacheScenarios.v ===== *)
(** Concrete runs of the read cache of the gateway: the theorems at given inputs, and
    behaviours shown on an example. *)

From S2P Require Import Prelude Effects GoText Cache CacheSafety CacheFlow CacheGuarantees CacheProgress CacheScan.

Definition demo : Config := New (CacheConfig (mkSettings "shop" true true false true 2000 30 120 2)) true.

Lemma demo_sane : sane demo.
Proof. constructor; vm_compute; congruence. Qed.

(** Choices: a call succeeds or fails, the origin answers or does not. *)
Definition fine : choice := mkChoice NoFault None [] 99 [] false.
Definition lost : choice := mkChoice FailBefore None [] 99 [] false.
Definition origin (v : string) : choice := mkChoice NoFault (Some v) [] 99 [] false.
Definition found (ks : list string) (more : bool) : choice := mkChoice NoFault None [] 99 ks more.

Definition key : string := productDetailCacheKey 7.

Definition boot : system := started demo 2 (1000 * second).

(** Request [i] of instance [g] is loaded from the origin, which answers [v]. *)
Definition load_from_origin (i g : nat) (k v : string) : list label :=
  [LGet i g k; LStep i fine; LStep i fine; LStep i fine; LStep i (origin v); LStep i fine; LStep i fine; LStep i fine].

(** Request [i] is answered from Redis, and from the local cache. *)
Definition from_redis (i g : nat) (k : string) : list label := [LGet i g k; LStep i fine; LStep i fine; LStep i fine].
Definition from_local (i g : nat) (k : string) : list label := [LGet i g k; LStep i fine].

Definition after (ls : list label) (s : system) : system := default s (run demo ls s).
Definition phase_of (i : nat) (s : system) : option phase := rq_phase <$> sy_requests s !! i.

(** The instances subscribe; both have the page of the product. *)
Definition warm_up : list label := [LSubscribe 0; LSubscribe 1] ++ load_from_origin 0 0 key "old" ++ from_redis 1 1 key.
Definition warm : system := after warm_up boot.

Example warm_answers :
  phase_of 0 warm = Some (Answered "old" SourceOrigin) /\ phase_of 1 warm = Some (Answered "old" SourceL2).
Proof. vm_compute. split; reflexivity. Qed.

Lemma after_run ls s : is_Some (run demo ls s) -> run demo ls s = Some (after ls s).
Proof. unfold after. by intros [s' ->]. Qed.

Lemma warm_run : run demo warm_up boot = Some warm.
Proof. apply after_run. vm_compute. eauto. Qed.

(** ** Age *)

Definition is_prompt (D : Z) (s : system) : bool :=
  forallb (fun e => match in_flight (rq_phase e.2) with Some _ => sy_now s <=? rq_start e.2 + D | None => true end)
    (map_to_list (sy_requests s)).

Fixpoint runs_promptly (D : Z) (ls : list label) (s : system) : bool :=
  is_prompt D s && match ls with [] => true | l :: ls => match exec demo l s with Some s' => runs_promptly D ls s' | None => true end end.

Lemma runs_promptly_ok D ls s : runs_promptly D ls s = true -> prompt_run demo (timely demo D) ls s.
Proof.
  assert (forall s, is_prompt D s = true -> all_prompt (timely demo D) s) as Hone.
  { intros s0 Hs i r f Hi Hf. unfold is_prompt in Hs. rewrite forallb_forall in Hs.
    specialize (Hs (i, r)). simpl in Hs. rewrite Hf in Hs. apply Z.leb_le, Hs.
    apply list_elem_of_In. by apply elem_of_map_to_list. }
  revert s. induction ls as [|l ls IH]; intros s; simpl; intros [H1 H2]%andb_true_iff; (split; [by apply Hone|]); [done|].
  destruct (exec demo l s); [by apply IH|done].
Qed.

(** A load of half a second; then time passes, and the page is read again. *)
Definition slow_load : list label :=
  [LGet 0 0 key; LStep 0 fine; LStep 0 fine; LStep 0 fine; LStep 0 (origin "page"); LTick (5 * 10 ^ 8);
   LStep 0 fine; LStep 0 fine; LStep 0 fine; LTick (31 * second)] ++ from_redis 1 1 key ++ [LTick second] ++ from_local 2 1 key.

Lemma answers_are_recent_witness :
  exists ld, ld ∈ sy_loads (after slow_load boot) /\ ld_key ld = key /\ ld_value ld = Some "page" /\
    1032 * second + 5 * 10 ^ 8 <= ld_at ld + second + Z.max (with_jitter (120 * second)) (with_jitter (30 * second) + 2 * second).
Proof.
  destruct (sy_requests (after slow_load boot) !! 2%nat) as [r|] eqn:Hr; [|vm_compute in Hr; discriminate Hr].
  destruct (answers_are_recent demo second 2 (1000 * second) slow_load (after slow_load boot) 2 r "page" SourceL1)
    as (ld&H1&H2&H3&H4).
  - exact demo_sane.
  - vm_compute. discriminate.
  - apply after_run. vm_compute. eauto.
  - apply runs_promptly_ok. vm_compute. reflexivity.
  - exact Hr.
  - vm_compute in Hr. injection Hr as <-. reflexivity.
  - exists ld. vm_compute in Hr. injection Hr as <-. split_and!; [exact H1|exact H2|exact H3|exact H4].
Defined.

(** ** Invalidation *)

(** A change of the product is announced by instance 0. *)
Definition deleting : list label := [LInvalidate 0 0 [CallInvalidate [key]]; LInvStep 0 fine; LInvStep 0 fine].
Definition deleted : system := after deleting warm.
Definition told : system := after [LInvStep 0 fine; LConsume 1; LConsume 0] deleted.
Definition asked_again : system := after (load_from_origin 5 1 key "new") told.

Lemma deleted_reachable : reachable demo deleted.
Proof.
  exists 2%nat, (1000 * second), (warm_up ++ deleting). rewrite (run_app _ _ _ _ _ warm_run). apply after_run. vm_compute. eauto.
Qed.

(** The requests and instances of a state, by computation. *)
Lemma empty_handed_ok s :
  forallb (fun e => negb (str_eqb (rq_key e.2) key) || match rq_phase e.2 with Answered _ _ => true | _ => false end)
    (map_to_list (sy_requests s)) = true -> empty_handed key s.
Proof.
  intros Hs i r Hi Hk. rewrite forallb_forall in Hs. specialize (Hs (i, r)). simpl in Hs. rewrite Hk, str_eqb_refl in Hs.
  assert (In (i, r) (map_to_list (sy_requests s))) as Hin by (apply list_elem_of_In; by apply elem_of_map_to_list).
  specialize (Hs Hin). by destruct (rq_phase r).
Qed.

Lemma gateways_ok (P : gateway -> bool) s :
  forallb (fun e => P e.2) (map_to_list (sy_gateways s)) = true -> forall g gw, sy_gateways s !! g = Some gw -> P gw = true.
Proof.
  intros Hs g gw Hg. rewrite forallb_forall in Hs. apply (Hs (g, gw)). apply list_elem_of_In. by apply elem_of_map_to_list.
Qed.

Lemma announced_key : announced demo key deleted told.
Proof.
  exists 0%nat, 0%nat, (mkMessage [key] []), [], fine, [], deleted, (after [LInvStep 0 fine] deleted), [LConsume 1; LConsume 0].
  split_and!.
  - vm_compute. reflexivity.
  - apply empty_handed_ok. vm_compute. reflexivity.
  - reflexivity.
  - vm_compute. reflexivity.
  - vm_compute. reflexivity.
  - intros g gw Hg. apply (gateways_ok (fun gw => match gw_inbox gw with Some _ => true | None => false end)) in Hg;
      [by destruct (gw_inbox gw)|vm_compute; reflexivity].
  - reflexivity.
  - vm_compute. reflexivity.
  - vm_compute. reflexivity.
  - repeat constructor.
  - intros g gw q Hg Hq. apply (gateways_ok (fun gw => match gw_inbox gw with Some (_ :: _) => false | _ => true end)) in Hg;
      [|vm_compute; reflexivity]. rewrite Hq in Hg. by destruct q.
Qed.


(** A load that is under way while the key is deleted puts the old value back, for all
    instances and until it expires. *)
Definition under_way : list label :=
  [LGet 2 0 "page"; LStep 2 fine; LStep 2 fine; LStep 2 fine; LStep 2 (origin "old");
   LInvalidate 0 0 [CallInvalidate ["page"]]; LInvStep 0 fine; LInvStep 0 fine; LInvStep 0 fine;
   LConsume 0; LConsume 1; LStep 2 fine; LStep 2 fine; LStep 2 fine; LTick (29 * second)] ++ from_redis 3 1 "page".

Example load_under_way_survives : phase_of 3 (after under_way warm) = Some (Answered "old" SourceL2).
Proof. vm_compute. reflexivity. Qed.

(** When Redis does not answer the deletion, the other instances are not told: they go
    on with their local copies, and Redis keeps its own. *)
Definition failed_deletion : list label :=
  [LInvalidate 0 0 [CallInvalidate [key]]; LInvStep 0 fine; LInvStep 0 lost] ++ from_redis 3 0 key ++ from_local 4 1 key.

Example failed_deletion_tells_nobody :
  sy_invalidations (after failed_deletion warm) !! 0%nat = Some (mkInvalidation 0 (Next [])) /\
  phase_of 3 (after failed_deletion warm) = Some (Answered "old" SourceL2) /\
  phase_of 4 (after failed_deletion warm) = Some (Answered "old" SourceL1).
Proof. vm_compute. repeat split. Qed.

(** When the merchant of a product is not given and the catalogue does not answer, the
    pages of its store are not invalidated. *)
Example unknown_merchant_keeps_store_pages :
  names_key (invalidateProductReadCaches 7 0 None) (storeProductsCacheKey 3 1 20 "") = false /\
  names_key (invalidateProductReadCaches 7 0 (Some 3)) (storeProductsCacheKey 3 1 20 "") = true.
Proof. vm_compute. split; reflexivity. Qed.

(** ** Scans *)

Definition two_pages : list label := load_from_origin 2 0 "store:a" "x" ++ load_from_origin 3 1 "store:b" "y".
Definition scan_start : list label := two_pages ++ [LInvalidate 0 0 [CallInvalidatePrefix ["store:"]]].
Definition scan_rest : list label :=
  [LInvStep 0 fine; LInvStep 0 (found ["shop:store:b"] true); LInvStep 0 fine; LInvStep 0 (found ["shop:store:a"] false)] ++
  [LInvStep 0 fine] ++ load_from_origin 4 0 "store:a" "z".

Lemma prefix_invalidation_deletes_witness :
  exists e e', GET "shop:store:a" (after (warm_up ++ scan_start) boot) = Some e /\
    GET "shop:store:a" (after scan_rest (after (warm_up ++ scan_start) boot)) = Some e' /\ e_born e' <> e_born e.
Proof.
  set (s0 := after (warm_up ++ scan_start) boot). set (s := after scan_rest s0).
  destruct (GET "shop:store:a" s0) as [e|] eqn:He; [|vm_compute in He; discriminate He].
  destruct (GET "shop:store:a" s) as [e'|] eqn:He'; [|vm_compute in He'; discriminate He'].
  exists e, e'. split; [reflexivity|]. split; [reflexivity|].
  apply (prefix_invalidation_deletes demo 2 (1000 * second) (warm_up ++ scan_start) s0 scan_rest s 0 0 0 ["store:"] [] [] "store:" "shop:store:a").
  - apply after_run. vm_compute. eauto.
  - vm_compute. reflexivity.
  - apply after_run. vm_compute. eauto.
  - vm_compute. reflexivity.
  - by apply elem_of_cons; left.
  - vm_compute. reflexivity.
  - exact He.
  - exact He'.
Defined.

Lemma change_reaches_its_views_witness :
  names_key (invalidateProductReadCaches 7 3 None) (storeProductsCacheKey 3 2 20 "tea") = true /\
  names_key (invalidateProductReadCaches 7 3 None) (storeProductsCacheKey 33 2 20 "tea") <> true.
Proof.
  split.
  - apply (change_reaches_its_views 7 3 None); [reflexivity|reflexivity|apply view_products].
  - intros Hn. destruct (change_reaches_its_views 7 3 None (storeProductsCacheKey 33 2 20 "tea") eq_refl eq_refl) as [_ H].
    pose proof (proj1 (H 33 2 20 "tea" eq_refl) Hn) as Hm. lia.
Defined.

(** ** Failures and progress *)

(** Redis is away and the origin fails while two requests ask for a page. *)
Definition outage : list label :=
  [LGet 2 0 "page"; LStep 2 fine; LStep 2 lost; LStep 2 fine; LGet 3 0 "page"; LStep 3 fine; LStep 3 lost; LStep 3 fine;
   LStep 2 fine].
Definition broken_down : system := after (warm_up ++ outage) boot.

Lemma only_the_origin_fails_requests_witness :
  exists ld, ld ∈ sy_loads (after [LStep 2 fine; LStep 3 fine] broken_down) /\ ld_key ld = "page" /\ ld_value ld = None.
Proof.
  set (s := after [LStep 2 fine; LStep 3 fine] broken_down).
  destruct (sy_requests s !! 3%nat) as [r|] eqn:Hr; [|vm_compute in Hr; discriminate Hr].
  destruct (only_the_origin_fails_requests demo s 3 r) as (ld&H1&H2&H3).
  - exists 2%nat, (1000 * second), ((warm_up ++ outage) ++ [LStep 2 fine; LStep 3 fine]).
    rewrite (run_app demo (warm_up ++ outage) _ _ broken_down).
    + apply after_run. vm_compute. eauto.
    + apply after_run. vm_compute. eauto.
  - exact Hr.
  - vm_compute in Hr. injection Hr as <-. reflexivity.
  - exists ld. vm_compute in Hr. injection Hr as <-. split_and!; [exact H1|exact H2|exact H3].
Defined.

