(* ===== verification/Programs.v ===== *)
(** Programs cut at their calls: a program is a tree of calls of the effects
    monad, so the same definition runs alone ([run_prog]) and as one of many
    processes that others interrupt between any two calls ([exec]).  With a logic
    for invariants of such systems, in which every process has a role. *)

From S2P Require Import Prelude Effects.

(** * Programs *)

Inductive prog (D X E A : Type) : Type :=
| Ret (a : A)
| Do (B : Type) (m : M D X E B) (k : res E B -> prog D X E A).
Arguments Ret {D X E A} a.
Arguments Do {D X E A} B m k.

Section programs.
Context {D X E : Type}.
Abbreviation prog := (prog D X E).

Fixpoint chain {A B} (p : prog A) (f : A -> prog B) : prog B :=
  match p with Ret a => f a | Do B m k => Do B m (fun r => chain (k r) f) end.

(** A call, and a call whose error the program looks at. *)
Definition tried {A} (m : M D X E A) : prog (res E A) := Do A m Ret.
Definition ret_ok {A} (a : A) : prog (res E A) := Ret (Ok a).
Definition ret_err {A} (e : E) : prog (res E A) := Ret (Err e).

(** Go on with the value, or return the error. *)
Definition andthen {A B} (p : prog (res E A)) (f : A -> prog (res E B)) : prog (res E B) :=
  chain p (fun r => match r with Ok a => f a | Err e => Ret (Err e) end).
(** Go on with the outcome, whatever it is. *)
Definition whatever {A B} (p : prog (res E A)) (f : res E A -> prog (res E B)) : prog (res E B) := chain p f.

Definition demand (b : bool) (e : E) : prog (res E unit) := if b then ret_ok tt else ret_err e.

(** All calls of a program in a row. *)
Fixpoint run_prog {A} (p : prog A) (s : env D X) : env D X * A :=
  match p with
  | Ret a => (s, a)
  | Do B m k => let '(s', r) := m s in run_prog (k r) s'
  end.

Lemma run_chain {A B} (p : prog A) (f : A -> prog B) s :
  run_prog (chain p f) s = let '(s', a) := run_prog p s in run_prog (f a) s'.
Proof. revert s. induction p as [a|C m k IH]; intros s; simpl; [done|]. destruct (m s). apply IH. Qed.

Lemma run_tried {A} (m : M D X E A) s : run_prog (tried m) s = m s.
Proof. unfold tried. simpl. by destruct (m s). Qed.

Lemma run_andthen {A B} (p : prog (res E A)) (f : A -> prog (res E B)) s :
  run_prog (andthen p f) s =
    let '(s', r) := run_prog p s in match r with Ok a => run_prog (f a) s' | Err e => (s', Err e) end.
Proof. unfold andthen. rewrite run_chain. by destruct (run_prog p s) as [s' [a|e]]. Qed.

Lemma run_whatever {A B} (p : prog (res E A)) (f : res E A -> prog (res E B)) s :
  run_prog (whatever p f) s = let '(s', r) := run_prog p s in run_prog (f r) s'.
Proof. apply run_chain. Qed.

(** Before and after all calls of a program in a row. *)
Definition goes {A} (Pre : D -> X -> Prop) (p : prog A) (Post : A -> D -> X -> Prop) : Prop :=
  forall s, Pre (db s) (ext s) -> let '(s', a) := run_prog p s in Post a (db s') (ext s').

Lemma goes_chain {A B} Pre (p : prog A) (f : A -> prog B) Mid Post :
  goes Pre p Mid -> (forall a, goes (Mid a) (f a) Post) -> goes Pre (chain p f) Post.
Proof.
  intros Hp Hf s Hs. rewrite run_chain. specialize (Hp s Hs). destruct (run_prog p s) as [s' a]. by apply Hf.
Qed.

Lemma goes_andthen {A B} Pre (p : prog (res E A)) (f : A -> prog (res E B)) Mid (Post : res E B -> D -> X -> Prop) :
  goes Pre p (fun r d x => match r with Ok a => Mid a d x | Err e => Post (Err e) d x end) ->
  (forall a, goes (Mid a) (f a) Post) -> goes Pre (andthen p f) Post.
Proof. intros Hp Hf. eapply goes_chain; [exact Hp|]. intros [a|e]; [apply Hf|]. by intros s Hs. Qed.

Lemma goes_whatever {A B} Pre (p : prog (res E A)) (f : res E A -> prog (res E B)) Mid Post :
  goes Pre p Mid -> (forall a, goes (Mid a) (f a) Post) -> goes Pre (whatever p f) Post.
Proof. apply goes_chain. Qed.

Lemma goes_ret {A} (Pre : D -> X -> Prop) (a : A) Post : (forall d x, Pre d x -> Post a d x) -> goes Pre (Ret a) Post.
Proof. intros HP s Hs. by apply HP. Qed.

Lemma goes_weaken {A} (Pre : D -> X -> Prop) (p : prog A) (Post Post' : A -> D -> X -> Prop) :
  goes Pre p Post -> (forall a d x, Post a d x -> Post' a d x) -> goes Pre p Post'.
Proof. intros Hp HQ s Hs. specialize (Hp s Hs). destruct (run_prog p s). auto. Qed.

Lemma goes_tried {A} (Pre : D -> X -> Prop) (m : M D X E A) Post :
  (forall s, Pre (db s) (ext s) -> Post (m s).2 (db (m s).1) (ext (m s).1)) -> goes Pre (tried m) Post.
Proof. intros Hm s Hs. rewrite run_tried. specialize (Hm s Hs). by destruct (m s). Qed.

(** Every call of a program satisfies [Q]. *)
Fixpoint every {A} (Q : forall B, M D X E B -> Prop) (p : prog A) : Prop :=
  match p with Ret _ => True | Do B m k => Q B m /\ forall r, every Q (k r) end.

Lemma every_chain {A B} Q (p : prog A) (f : A -> prog B) :
  every Q p -> (forall a, every Q (f a)) -> every Q (chain p f).
Proof. induction p as [a|C m k IH]; simpl; [auto|]. intros [Hm Hk] Hf. split; auto. Qed.

Lemma every_tried {A} Q (m : M D X E A) : Q A m -> every Q (tried m).
Proof. done. Qed.

Lemma every_andthen {A B} Q (p : prog (res E A)) (f : A -> prog (res E B)) :
  every Q p -> (forall a, every Q (f a)) -> every Q (andthen p f).
Proof. intros Hp Hf. apply every_chain; [done|]. by intros [a|e]. Qed.

Lemma every_whatever {A B} Q (p : prog (res E A)) (f : res E A -> prog (res E B)) :
  every Q p -> (forall a, every Q (f a)) -> every Q (whatever p f).
Proof. apply every_chain. Qed.

Lemma every_demand Q b e : every Q (demand b e).
Proof. by destruct b. Qed.

(** A relation between the states before and after every call. *)
Lemma run_related {A} (R : D -> X -> D -> X -> Prop) (p : prog A) s :
  (forall d x, R d x d x) -> (forall d x d1 x1 d2 x2, R d x d1 x1 -> R d1 x1 d2 x2 -> R d x d2 x2) ->
  every (fun B m => forall s, R (db s) (ext s) (db (m s).1) (ext (m s).1)) p ->
  R (db s) (ext s) (db (run_prog p s).1) (ext (run_prog p s).1).
Proof.
  intros Hrefl Htrans. revert s. induction p as [a|C m k IH]; intros s; simpl; [auto|]. intros [Hm Hk].
  specialize (Hm s). destruct (m s) as [s' r]. eapply Htrans; [exact Hm|]. by apply IH.
Qed.

Lemma run_every {A} P (p : prog A) s :
  every (fun B m => preserves P m) p -> P (db s) -> P (db (run_prog p s).1).
Proof.
  revert s. induction p as [a|C m k IH]; intros s; simpl; [done|]. intros [Hm Hk] Hs.
  specialize (Hm s Hs). destruct (m s) as [s' r]. by apply IH.
Qed.
End programs.

Declare Scope prog_scope.
Delimit Scope prog_scope with prog.
Notation "x <~ p ;; k" := (andthen p (fun x => k))
  (at level 20, p at level 99, k at level 200, only parsing) : prog_scope.
Notation "p ~;; k" := (andthen p (fun _ => k))
  (at level 100, k at level 200, right associativity, only parsing) : prog_scope.
Notation "x <~? p ;; k" := (whatever p (fun x => k))
  (at level 20, p at level 99, k at level 200, only parsing) : prog_scope.
(** [_ = p()]: the outcome is dropped. *)
Notation "p ~? k" := (whatever p (fun _ => k))
  (at level 100, k at level 200, right associativity, only parsing) : prog_scope.
Open Scope prog_scope.

(** A call to a service whose own calls are those of [m]; its reply may be lost. *)
Definition remote {D X E A} (m : M D X E A) (e : E) : M D X E A := fun s =>
  match pop_fault s with
  | (NoFault, s') => m s'
  | (FailBefore, s') => (s', Err e)
  | (FailAfter, s') => ((m s').1, Err e)
  end.

Lemma preserves_remote {D X E A} P (m : M D X E A) e : preserves P m -> preserves P (remote m e).
Proof.
  intros Hm s Hs. unfold remote. pose proof (db_pop_fault s) as Hdb.
  destruct (pop_fault s) as [[] s']; simpl in *; rewrite ?Hdb; [|done|]; apply Hm; by rewrite Hdb.
Qed.

(** * Systems of processes *)

Section system.
Context {D X E R O : Type}.
(** What a request runs, how long it may take, and what other services do. *)
Context (body : R -> prog D X E unit) (limit : R -> option Z) (others : O -> M D X E unit).

Record process := mkProcess { pc_request : R; pc_started : Z; pc_code : prog D X E unit }.

Record pool := mkPool { po_db : D; po_ext : X; po_now : Z; processes : gmap nat process }.

Inductive label :=
| LStart (i : nat) (r : R)
| LStep (i : nat) (fs : list fault)
| LCrash (i : nat)
| LOther (o : O) (fs : list fault)
| LTick (d : Z).

Definition pool_env (s : pool) (fs : list fault) : env D X := mkEnv (po_db s) (po_ext s) (po_now s) fs.
(** No call sets the clock. *)
Definition after_env (t : Z) (s : env D X) (ps : gmap nat process) : pool := mkPool (db s) (ext s) t ps.

Definition exec (l : label) (s : pool) : option pool :=
  match l with
  | LStart i r =>
      match processes s !! i with
      | None => Some (mkPool (po_db s) (po_ext s) (po_now s)
                  (<[i := mkProcess r (po_now s) (body r)]> (processes s)))
      | Some _ => None
      end
  | LStep i fs =>
      match processes s !! i with
      | Some p =>
          match pc_code p with
          | Ret _ => Some (mkPool (po_db s) (po_ext s) (po_now s) (delete i (processes s)))
          | Do B m k =>
              let '(s', r) := m (pool_env s fs) in
              Some (after_env (po_now s) s' (<[i := mkProcess (pc_request p) (pc_started p) (k r)]> (processes s)))
          end
      | None => None
      end
  | LCrash i => Some (mkPool (po_db s) (po_ext s) (po_now s) (delete i (processes s)))
  | LOther o fs => Some (after_env (po_now s) (others o (pool_env s fs)).1 (processes s))
  | LTick d => if 0 <=? d then Some (mkPool (po_db s) (po_ext s) (po_now s + d) (processes s)) else None
  end.

Fixpoint run (ls : list label) (s : pool) : option pool :=
  match ls with
  | [] => Some s
  | l :: ls => match exec l s with Some s' => run ls s' | None => None end
  end.

Lemma pool_run_app ls1 ls2 s s1 : run ls1 s = Some s1 -> run (ls1 ++ ls2) s = run ls2 s1.
Proof.
  revert s. induction ls1 as [|l ls1 IH]; intros s; simpl; [by intros [= ->]|].
  destruct (exec l s); [apply IH|done].
Qed.

(** Time passes only while no process outlives its limit. *)
Definition in_time (t : Z) (p : process) : Prop :=
  match limit (pc_request p) with Some n => t < pc_started p + n | None => True end.

(** A condition on the steps of a run. *)
Fixpoint along (Q : label -> pool -> pool -> Prop) (ls : list label) (s : pool) : Prop :=
  match ls with
  | [] => True
  | l :: ls => match exec l s with Some s' => Q l s s' /\ along Q ls s' | None => True end
  end.

Definition prompt (l : label) (s s' : pool) : Prop :=
  match l with LTick d => map_Forall (fun _ => in_time (po_now s + d)) (processes s) | _ => True end.

(** * A logic of roles

    Every process has a role; the invariant speaks of the state and of the roles
    of all processes, and each call takes the process to a role with which the
    invariant holds again. *)
Section roles.
Context {G L : Type} (J : G -> D -> X -> Z -> gmap nat L -> Prop) (due : L -> option Z).
Context (Q : G -> label -> pool -> pool -> Prop).

(** [fin]: what holds of result and role at the end. *)
Fixpoint ok {A} (fin : A -> L -> Prop) (p : prog D X E A) (l : L) : Prop :=
  match p with
  | Ret a => fin a l
  | Do B m k => forall g d x t ls i fs, J g d x t ls -> ls !! i = Some l ->
      let '(s', r) := m (mkEnv d x t fs) in
      exists l', due l' = due l /\ J g (db s') (ext s') t (<[i := l']> ls) /\ ok fin (k r) l'
  end.

Lemma ok_chain {A B} (fin : B -> L -> Prop) (p : prog D X E A) (f : A -> prog D X E B) l :
  ok (fun a l' => ok fin (f a) l') p l -> ok fin (chain p f) l.
Proof.
  revert l. induction p as [a|C m k IH]; intros l; simpl; [done|].
  intros Hp g d x t ls i fs HJ Hi. specialize (Hp g d x t ls i fs HJ Hi).
  destruct (m (mkEnv d x t fs)) as [s' r]. destruct Hp as (l'&H1&H2&H3). exists l'. split_and!; try done. by apply IH.
Qed.

Lemma allowed_weaken {A} (fin fin' : A -> L -> Prop) (p : prog D X E A) l :
  (forall a l', fin a l' -> fin' a l') -> ok fin p l -> ok fin' p l.
Proof.
  intros Hf. revert l. induction p as [a|C m k IH]; intros l; simpl; [apply Hf|].
  intros Hp g d x t ls i fs HJ Hi. specialize (Hp g d x t ls i fs HJ Hi).
  destruct (m (mkEnv d x t fs)) as [s' r]. destruct Hp as (l'&H1&H2&H3). exists l'. split_and!; try done. by apply IH.
Qed.

Lemma ok_do {A B} (fin : A -> L -> Prop) (m : M D X E B) (k : res E B -> prog D X E A) l :
  (forall g d x t ls i fs, J g d x t ls -> ls !! i = Some l ->
     let '(s', r) := m (mkEnv d x t fs) in
     exists l', due l' = due l /\ J g (db s') (ext s') t (<[i := l']> ls) /\ ok fin (k r) l') ->
  ok fin (Do B m k) l.
Proof. done. Qed.

Lemma ok_andthen {A B} (fin : res E B -> L -> Prop) (p : prog D X E (res E A)) f l :
  ok (fun r l' => match r with Ok a => ok fin (f a) l' | Err e => fin (Err e) l' end) p l -> ok fin (andthen p f) l.
Proof. intros Hp. apply ok_chain. eapply allowed_weaken; [|exact Hp]. by intros [a|e] l'. Qed.

Lemma ok_whatever {A B} (fin : res E B -> L -> Prop) (p : prog D X E (res E A)) f l :
  ok (fun r l' => ok fin (f r) l') p l -> ok fin (whatever p f) l.
Proof. apply ok_chain. Qed.

(** Calls that leave the invariant alone, whatever the role. *)
Definition quiet {A} (m : M D X E A) : Prop := forall g d x t ls fs,
  J g d x t ls -> J g (db (m (mkEnv d x t fs)).1) (ext (m (mkEnv d x t fs)).1) t ls.

Lemma ok_quiet {A B} (fin : A -> L -> Prop) (m : M D X E B) (k : res E B -> prog D X E A) l :
  quiet m -> (forall r, ok fin (k r) l) -> ok fin (Do B m k) l.
Proof.
  intros Hm Hk g d x t ls i fs HJ Hi. pose proof (Hm g d x t ls fs HJ) as HJ'.
  destruct (m (mkEnv d x t fs)) as [s' r]. exists l. split_and!; [done| |apply Hk].
  by rewrite insert_id.
Qed.

Lemma ok_tried_quiet {A} (fin : res E A -> L -> Prop) (m : M D X E A) l :
  quiet m -> (forall r, fin r l) -> ok fin (tried m) l.
Proof. intros Hm Hf. by apply ok_quiet. Qed.

(** A program of such calls keeps its role. *)
Lemma ok_every {A} (fin : A -> L -> Prop) (p : prog D X E A) l :
  every (fun B m => quiet m) p -> (forall a, fin a l) -> ok fin p l.
Proof.
  induction p as [a|C m k IH]; intros Hp Hf; [apply Hf|]. destruct Hp as [Hm Hk].
  apply ok_quiet; [done|]. intros r. by apply IH.
Qed.

(** The invariant of a system: the roles fit, and every process goes on well. *)
Definition pool_ok (g : G) (s : pool) : Prop := exists ls : gmap nat L,
  (forall i, is_Some (ls !! i) <-> is_Some (processes s !! i)) /\
  J g (po_db s) (po_ext s) (po_now s) ls /\
  forall i p l, processes s !! i = Some p -> ls !! i = Some l ->
    ok (fun _ _ => True) (pc_code p) l /\ due l = (fun n => pc_started p + n) <$> limit (pc_request p).

Context (J_drop : forall g d x t ls i, J g d x t ls -> J g d x t (delete i ls)).
Context (J_start : forall g d x t ls i r, J g d x t ls -> ls !! i = None ->
  exists l, J g d x t (<[i := l]> ls) /\ ok (fun _ _ => True) (body r) l /\ due l = (fun n => t + n) <$> limit r).
Context (J_tick : forall g d x t t' ls, J g d x t ls -> t <= t' ->
  (forall i l e, ls !! i = Some l -> due l = Some e -> t' < e) -> J g d x t' ls).
Context (J_other : forall g o fs s, Q g (LOther o fs) s (after_env (po_now s) (others o (pool_env s fs)).1 (processes s)) ->
  forall ls, J g (po_db s) (po_ext s) (po_now s) ls ->
  J g (db (others o (pool_env s fs)).1) (ext (others o (pool_env s fs)).1) (po_now s) ls).

Lemma dom_insert (ls : gmap nat L) (ps : gmap nat process) i l p :
  (forall j, is_Some (ls !! j) <-> is_Some (ps !! j)) ->
  forall j, is_Some (<[i := l]> ls !! j) <-> is_Some (<[i := p]> ps !! j).
Proof.
  intros Hd j. destruct (decide (i = j)) as [->|Hne]; [by rewrite !lookup_insert_eq; split; eauto|].
  by rewrite !lookup_insert_ne by done.
Qed.

Lemma dom_delete (ls : gmap nat L) (ps : gmap nat process) i :
  (forall j, is_Some (ls !! j) <-> is_Some (ps !! j)) ->
  forall j, is_Some (delete i ls !! j) <-> is_Some (delete i ps !! j).
Proof.
  intros Hd j. destruct (decide (i = j)) as [->|Hne]; [by rewrite !lookup_delete_eq; split; intros [? ?]|].
  by rewrite !lookup_delete_ne by done.
Qed.

Lemma pool_ok_delete g s i :
  pool_ok g s -> pool_ok g (mkPool (po_db s) (po_ext s) (po_now s) (delete i (processes s))).
Proof.
  intros (ls&Hd&HJ&Hp). exists (delete i ls). split_and!; [by apply dom_delete|by apply J_drop|].
  simpl. intros j p l. rewrite !lookup_delete_Some. intros [_ Hj] [_ Hl]. by apply (Hp j).
Qed.

Lemma pool_ok_exec g l s s' :
  pool_ok g s -> exec l s = Some s' -> prompt l s s' -> Q g l s s' -> pool_ok g s'.
Proof.
  intros Hok. pose proof Hok as (ls&Hd&HJ&Hp). destruct l as [i r|i fs|i|o fs|dt]; simpl.
  - destruct (processes s !! i) eqn:Hi; [done|]. intros [= <-] _ _.
    assert (ls !! i = None) as Hli by (apply eq_None_not_Some; rewrite Hd, Hi; by intros [? ?]).
    destruct (J_start _ _ _ _ _ i r HJ Hli) as (l&HJ'&Ho&Hdue).
    exists (<[i := l]> ls). split_and!; [by apply dom_insert|done|]. simpl.
    intros j p l'. destruct (decide (i = j)) as [<-|Hne].
    + rewrite !lookup_insert_eq. by intros [= <-] [= <-].
    + rewrite !lookup_insert_ne by done. apply Hp.
  - destruct (processes s !! i) as [p|] eqn:Hi; [|done].
    destruct (proj2 (Hd i) (ex_intro _ _ Hi)) as [l Hl]. destruct (Hp i p l Hi Hl) as [Ho Hdue].
    destruct (pc_code p) as [u|B m k].
    + intros [= <-] _ _. by apply pool_ok_delete.
    + specialize (Ho g (po_db s) (po_ext s) (po_now s) ls i fs HJ Hl). unfold pool_env.
      destruct (m _) as [s1 r]. destruct Ho as (l'&Hdl&HJ'&Hk). intros [= <-] _ _.
      exists (<[i := l']> ls). split_and!; [by apply dom_insert|done|]. simpl.
      intros j q l2. destruct (decide (i = j)) as [<-|Hne].
      * rewrite !lookup_insert_eq. intros [= <-] [= <-]. simpl. by rewrite Hdl.
      * rewrite !lookup_insert_ne by done. apply Hp.
  - intros [= <-] _ _. by apply pool_ok_delete.
  - intros [= <-] _ HQ. pose proof (J_other g o fs s HQ ls HJ) as HJ'.
    exists ls. split_and!; [exact Hd|exact HJ'|exact Hp].
  - destruct (0 <=? dt) eqn:Hdt; [|done]. intros [= <-] Hpr _. bools.
    exists ls. split_and!; [exact Hd| |exact Hp]. simpl. apply (J_tick _ _ _ (po_now s)); [done|lia|].
    intros i l e Hl He. destruct (proj1 (Hd i) (ex_intro _ _ Hl)) as [p Hi].
    destruct (Hp i p l Hi Hl) as [_ Hdue]. specialize (Hpr i p Hi). unfold in_time in Hpr.
    rewrite Hdue in He. destruct (limit (pc_request p)); [|done]. injection He as <-. done.
Qed.

Lemma pool_ok_run g ls s s' :
  pool_ok g s -> run ls s = Some s' -> along prompt ls s -> along (Q g) ls s -> pool_ok g s'.
Proof.
  revert s. induction ls as [|l ls IH]; intros s Hok; simpl; [by intros [= <-]|].
  destruct (exec l s) as [s1|] eqn:He; [|done]. intros Hrun [Hp Hps] [HQ HQs].
  apply (IH s1); [by apply (pool_ok_exec g l s)|done..].
Qed.
End roles.
End system.

Arguments process D X E R : clear implicits.
Arguments pool D X E R : clear implicits.
Arguments label R O : clear implicits.
Arguments LStart {R O} i r.
Arguments LStep {R O} i fs.
Arguments LCrash {R O} i.
Arguments LOther {R O} o fs.
Arguments LTick {R O} d.
