(* ===== verification/EntryOrders.v ===== *)
(** The orders of the entry API (app/entry/api): creating an order through the
    transaction manager (internal/logic/createorderlogic.go) and polling for it
    (orderstatuspolllogic.go), paying, shipping, receiving and refunding
    (payorderlogic.go, shiporderlogic.go, confirmreceiptlogic.go,
    refundorderlogic.go), the cancellation of the buyer (cancelorderhandler.go) and
    the commands of administrators and merchants (adminorderhandler.go,
    admintradehandler.go, merchanthandler.go).  The close job is in CloseOrder.v.

    A handler is a program whose calls others may interrupt; a transaction is one
    call.  The identity of the caller is an argument; metrics, traces, the audit
    trail in the auth service and the cache of the catalogue are left out. *)

From S2P Require Import Prelude Effects Sql Common OrderStore OrderCreate PreDeduct Programs.

(** * Redis *)

(** The keys of the entry API: locks and answers of requests with their expiry,
    the three sorted sets of the close job, its counters with their expiry. *)
Record EntryRedis := mkEntry {
  request_lock : gmap string Z;
  request_result : gmap string (string * Z);
  request_order : gmap string (string * Z);
  delay_queue : gmap string Z;
  processing_queue : gmap string Z;
  dead_letters : gmap string Z;
  retry_count : gmap string (Z * option Z)
}.

Definition empty_redis : EntryRedis := mkEntry ∅ ∅ ∅ ∅ ∅ ∅ ∅.

Definition with_lock m r := mkEntry m (request_result r) (request_order r) (delay_queue r) (processing_queue r) (dead_letters r) (retry_count r).
Definition with_result m r := mkEntry (request_lock r) m (request_order r) (delay_queue r) (processing_queue r) (dead_letters r) (retry_count r).
Definition with_request_order m r := mkEntry (request_lock r) (request_result r) m (delay_queue r) (processing_queue r) (dead_letters r) (retry_count r).
Definition with_delay m r := mkEntry (request_lock r) (request_result r) (request_order r) m (processing_queue r) (dead_letters r) (retry_count r).
Definition with_processing m r := mkEntry (request_lock r) (request_result r) (request_order r) (delay_queue r) m (dead_letters r) (retry_count r).
Definition with_dead m r := mkEntry (request_lock r) (request_result r) (request_order r) (delay_queue r) (processing_queue r) m (retry_count r).
Definition with_retry m r := mkEntry (request_lock r) (request_result r) (request_order r) (delay_queue r) (processing_queue r) (dead_letters r) m.

Class HasEntry (X : Type) := {
  get_entry : X -> EntryRedis;
  put_entry : EntryRedis -> X -> X
}.

(** * Other services *)

(** [dtmgrpc.SagaGrpc]: the branches in order, each with its compensation. *)
Record DeductReq := mkDeduct { dr_Id : Z; dr_Num : Z; dr_OrderId : string }.

Inductive branch :=
| BranchPreDeduct (r : PreDeductReq)
| BranchCreateOrder (r : CreateOrderReq)
| BranchDeduct (r : DeductReq).

Record saga := mkSaga { sg_gid : string; sg_steps : list branch }.

(** The transaction manager: its numbers, and a submission that is waited for. *)
Class Dtm (X : Type) := {
  dtm_NewGid : X -> X * res error string;
  dtm_Submit : saga -> M DB X error unit
}.

(** [sqlc.CachedConn]: a read of the cache finds a row, the note that there is
    none ([Some None]), or nothing; what was read from the table is kept. *)
Class OrdersCache (X : Type) := {
  cache_take : string -> Z -> X -> X * res error (option (option (string * Order)));
  cache_keep : string -> option (string * Order) -> Z -> X -> X * res error unit
}.

(** [snowflake.Node]. *)
Class OrderIdGen (X : Type) := { NextID : X -> X * string }.

(** [productclient.Product]: the stock of the product service. *)
Class StockClient (X : Type) := {
  prod_Deduct : DeductReq -> X -> X * res error unit;
  prod_DeductRollback : DeductReq -> X -> X * res error unit;
  prod_RevertStock : DeductReq -> X -> X * res error unit
}.

(** The configuration, the clients that are there, and the order service behind
    [OrderRpc]. *)
Record EntryConfig := mkEntryConfig {
  RequestIdTTLSeconds : Z; DtmServer : string; OrderRpcTarget : string; ProductRpcTarget : string;
  InventoryOwnsFinalDeduct : bool; OrderTimeoutSeconds : Z; has_inventory_client : bool; has_sql_conn : bool;
  order_service : ServiceContext
}.

(** [writeJSONError]. *)
Definition bad_request (msg : string) : error := OtherError ("400 " +:+ msg).
Definition not_found (msg : string) : error := OtherError ("404 " +:+ msg).
Definition conflict (msg : string) : error := OtherError ("409 " +:+ msg).

Section entry.
Context {X : Type} `{HasEntry X, Dtm X, OrdersCache X, OrderIdGen X, StockClient X}.
Context `{InventoryClient X, PaymentProvider X, ProductClient X, HasRedis X}.
Context (cfg : EntryConfig).
Abbreviation M := (M DB X error).
Abbreviation P A := (prog DB X error (res error A)).

(** A command of Redis at the current time. *)
Definition redis {A} (op : Z -> EntryRedis -> EntryRedis * A) : P A :=
  tried (t <- get_now ;;
         call (fun x => let '(r, a) := op t (get_entry x) in (put_entry r x, Ok a)) call_failed).

Definition live (t : Z) (e : string * Z) : bool := t <? e.2.

Definition SetnxEx_lock (key : string) (ttl : Z) : P bool :=
  redis (fun t r => match request_lock r !! key with
                    | Some e => if t <? e then (r, false) else (with_lock (<[key := t + ttl]> (request_lock r)) r, true)
                    | None => (with_lock (<[key := t + ttl]> (request_lock r)) r, true)
                    end).
Definition Del_lock (key : string) : P unit :=
  redis (fun _ r => (with_lock (delete key (request_lock r)) r, tt)).
Definition Get_lock (key : string) : P string :=
  redis (fun t r => (r, match request_lock r !! key with Some e => if t <? e then "processing" else "" | None => "" end)).
Definition Get_result (key : string) : P string :=
  redis (fun t r => (r, match request_result r !! key with Some e => if live t e then e.1 else "" | None => "" end)).
Definition Setex_result (key orderID : string) (ttl : Z) : P unit :=
  redis (fun t r => (with_result (<[key := (orderID, t + ttl)]> (request_result r)) r, tt)).

(** [ZREM order:delay:queue]. *)
Definition Zrem_delay (orderID : string) : P unit :=
  redis (fun _ r => (with_delay (delete orderID (delay_queue r)) r, tt)).

(** * The orders model (internal/model) *)

Definition QueryRow (key : string) (select_row : DB -> option (string * Order)) : P (option (string * Order)) :=
  t <~ tried get_now ;;
  hit <~ tried (call (cache_take key t) call_failed) ;;
  match hit with
  | Some row => ret_ok row
  | None =>
      row <~ tried (query select_row DbError) ;;
      tried (call (cache_keep key row t) call_failed) ~? ret_ok row
  end.

Definition by_id (id : string) (d : DB) : option (string * Order) := (fun o => (id, o)) <$> orders d !! id.
Definition by_request (requestId : string) (d : DB) : option (string * Order) :=
  select (fun _ o => str_eqb (o_request_id o) requestId) (orders d).

Definition FindOne (id : string) : P (option (string * Order)) :=
  QueryRow ("cache:orders:id:" +:+ id) (by_id id).

Definition FindOneByRequestId (requestId : string) : P (option (string * Order)) :=
  if is_empty requestId then ret_ok None
  else QueryRow ("cache:orders:request_id:" +:+ requestId) (by_request requestId).

(** * Creating an order *)

Record EntryCreateReq := mkEntryCreate {
  ec_RequestId : string; ec_UserId : Z; ec_ProductId : Z; ec_Amount : Z; ec_ExpectedPriceFen : Z
}.
Record EntryCreateResp := mkEntryResp {
  er_OrderId : string; er_Status : string; er_PayableAmountFen : Z; er_PaymentOrderId : string
}.

(** [loadSnapshotResult]. *)
Definition snapshot_row (orderID : string) (d : DB) : option EntryCreateResp :=
  match orders d !! orderID, snapshots d !! orderID, select (for_order orderID) (payments d) with
  | Some o, Some sn, Some (pid, _) =>
      Some (mkEntryResp orderID (orderstatus.Text (o_status o)) (s_payable_amount_fen sn) pid)
  | _, _, _ => None
  end.

Definition queryCreateOrderResp (orderID : string) : P EntryCreateResp :=
  if is_empty (trim_space orderID) then ret_err (StatusError InvalidArgument "order_id is required") else
  if negb (has_sql_conn cfg) then
    ret_ok (mkEntryResp orderID (orderstatus.Text 0) 0 (paymentOrderIDFor orderID))
  else
    row <~ tried (query (snapshot_row orderID) DbError) ;;
    match row with
    | Some resp => ret_ok resp
    | None => ret_err (StatusError NotFound "order snapshot not found")
    end.

Definition requestTTLSeconds : Z :=
  if RequestIdTTLSeconds cfg <=? 0 then 24 * 60 * 60 else RequestIdTTLSeconds cfg.
Definition delaySeconds : Z := if OrderTimeoutSeconds cfg <=? 0 then 60 else OrderTimeoutSeconds cfg.

Definition next_id : P string := tried (call (fun x => let '(x', id) := NextID x in (x', Ok id)) call_failed).

(** The branches of the saga. *)
Definition checkout_saga (gid orderID requestId : string) (req : EntryCreateReq) : saga :=
  mkSaga gid
    ([BranchPreDeduct (mkPreDeduct orderID (ec_ProductId req) (ec_Amount req));
      BranchCreateOrder (mkCreate orderID requestId (ec_UserId req) (ec_ProductId req) (ec_Amount req)
                           (ec_ExpectedPriceFen req))] ++
     (if InventoryOwnsFinalDeduct cfg then []
      else [BranchDeduct (mkDeduct (ec_ProductId req) (ec_Amount req) orderID)])).

(** What the transaction manager calls for a branch, and to compensate it; [runs] is
    the answer of the barrier of the order service. *)
Definition branch_call (b : branch) (compensate : bool) (runs : option bool) : M unit :=
  let svcCtx := order_service cfg in
  match b, compensate with
  | BranchPreDeduct r, false => PreDeduct svcCtx r
  | BranchPreDeduct r, true => PreDeductRollback svcCtx r
  | BranchCreateOrder r, false => OrderCreate.CreateOrder svcCtx runs r ;;; ret tt
  | BranchCreateOrder r, true => CreateOrderRollback runs r
  | BranchDeduct r, false => call (prod_Deduct r) call_failed
  | BranchDeduct r, true => call (prod_DeductRollback r) call_failed
  end.

(** The delay queue and the reverse mapping, in one pipeline. *)
Definition schedule (orderID requestId : string) (executionTime : Z) : P unit :=
  redis (fun t r =>
    (with_request_order (<[orderID := (requestId, t + requestTTLSeconds)]> (request_order r))
       (with_delay (<[orderID := executionTime]> (delay_queue r)) r), tt)).

(** With the lock taken. *)
Definition submit_order (orderID requestId : string) (req : EntryCreateReq) : P EntryCreateResp :=
  gid <~ tried (call dtm_NewGid (OtherError "panic")) ;;
  submitted <~? tried (dtm_Submit (checkout_saga gid orderID requestId req)) ;;
  match submitted with
  | Err _ => Del_lock requestId ~? ret_err (StatusError Unavailable "order system busy")
  | Ok _ =>
      set <~? Setex_result requestId orderID requestTTLSeconds ;;
      (match set with Ok _ => Del_lock requestId | Err _ => ret_ok tt end) ~?
      t <~ tried get_now ;;
      schedule orderID requestId (t + delaySeconds) ~?
      queryCreateOrderResp orderID
  end.

(** The lock, and what else decides whether a saga is submitted. *)
Definition lock_and_submit (requestId : string) (req : EntryCreateReq) : P EntryCreateResp :=
  demand (negb (is_empty (DtmServer cfg))) (StatusError Internal "DTM server not configured") ~;;
  demand (negb (is_empty (OrderRpcTarget cfg))) (StatusError Internal "Order RPC target not configured") ~;;
  demand (InventoryOwnsFinalDeduct cfg || negb (is_empty (ProductRpcTarget cfg)))
    (StatusError Internal "Product RPC target not configured") ~;;
  orderID <~ (if is_empty requestId then next_id else ret_ok "") ;;
  let requestId := if is_empty requestId then orderID else requestId in
  setOk <~? SetnxEx_lock requestId requestTTLSeconds ;;
  match setOk with
  | Err _ => ret_err (StatusError Internal "request_id lock failed")
  | Ok false =>
      cached <~? Get_result requestId ;;
      match cached with
      | Ok cachedOrderId =>
          if is_empty cachedOrderId then ret_err (StatusError Aborted "duplicate request in progress")
          else queryCreateOrderResp cachedOrderId
      | Err _ => ret_err (StatusError Aborted "duplicate request in progress")
      end
  | Ok true =>
      orderID <~ (if is_empty orderID then next_id else ret_ok orderID) ;;
      submit_order orderID requestId req
  end.

Definition CreateOrder (req : EntryCreateReq) : P EntryCreateResp :=
  let requestId := trim_space (ec_RequestId req) in
  if is_empty requestId then lock_and_submit requestId req else
  found <~ FindOneByRequestId requestId ;;
  match found with
  | Some (id, _) =>
      Setex_result requestId id requestTTLSeconds ~?
      Del_lock requestId ~?
      queryCreateOrderResp id
  | None =>
      cached <~? Get_result requestId ;;
      match cached with
      | Ok cachedOrderId =>
          if is_empty cachedOrderId then lock_and_submit requestId req else queryCreateOrderResp cachedOrderId
      | Err _ => lock_and_submit requestId req
      end
  end.

(** * Polling *)

Record OrderStatusPollResp := mkPollResp { po_RequestId : string; po_OrderId : string; po_Status : string }.

Definition OrderStatusPoll (RequestId : string) : P OrderStatusPollResp :=
  let requestId := trim_space RequestId in
  if is_empty requestId then ret_ok (mkPollResp "" "" "missing_request_id") else
  found <~? Get_result requestId ;;
  match found with
  | Err _ => ret_ok (mkPollResp requestId "" "error")
  | Ok orderId =>
      if negb (is_empty orderId) then ret_ok (mkPollResp requestId orderId "created") else
      lock <~? Get_lock requestId ;;
      match lock with
      | Ok v => ret_ok (mkPollResp requestId "" (if is_empty v then "not_found" else "processing"))
      | Err _ => ret_ok (mkPollResp requestId "" "not_found")
      end
  end.

(** * Paying *)

Definition begin_failed : error := StatusError Internal "begin tx failed".
Definition commit_failed : error := StatusError Internal "commit failed".
Definition changed_concurrently : error := StatusError FailedPrecondition "order status changed concurrently".
Definition db_failed : error := StatusError Internal "db connection failed".

(** The order of a request, if it is the caller's. *)
Definition owned_order (orderID : string) (userID : Z) : P Order :=
  demand (negb (is_empty orderID)) (StatusError InvalidArgument "order_id is required") ~;;
  tried (raw_db db_failed) ~;;
  row <~? tried (query (fun d => orders d !! orderID) DbError) ;;
  match row with
  | Ok (Some o) =>
      demand (o_user_id o =? userID) (StatusError PermissionDenied "order does not belong to user") ~;; ret_ok o
  | _ => ret_err (StatusError NotFound "order not found")
  end.

(** [UPDATE payment_order SET status = 1 WHERE order_id = ?]; the time of the row
    changes with it. *)
Definition payment_succeeds (t : Z) (p : PaymentOrder) : PaymentOrder :=
  if p_status p =? paymentstatus.Success then p
  else set_p_status paymentstatus.Success (with_channel (p_channel p) t p).

(** [UPDATE orders SET status ... WHERE id = ? AND status = ?]; no row is an error. *)
Definition move_order (orderID : string) (c : Order -> bool) (from : Z) (f : Z -> Order -> Order) (none : error) : M unit :=
  rows <- exec_orders (at_key orderID (fun o => c o && (o_status o =? from))) f
            (StatusError Internal "update order status failed") ;;
  require (negb (rows =? 0)) none.

Definition any_order (o : Order) : bool := true.
Definition log_failed : error := StatusError Internal "insert order status log failed".

Definition pay_body (orderID : string) (userID : Z) : M (txend error unit) :=
  move_order orderID any_order orderstatus.PendingPayment (set_status orderstatus.Paid) changed_concurrently ;;;
  exec_payments (for_order orderID) payment_succeeds (StatusError Internal "update payment status failed") ;;;
  insert_log (mkLog orderID orderstatus.PendingPayment orderstatus.Paid userID "buyer paid") log_failed ;;;
  ret (Commit commit_failed tt).

Definition confirmInventoryDeduct (orderID : string) : P unit :=
  if has_inventory_client cfg then
    r <~? tried (call (inv_ConfirmDeduct orderID) call_failed) ;;
    match r with
    | Err _ => if InventoryOwnsFinalDeduct cfg then ret_err (StatusError Internal "inventory confirm deduct failed")
               else ret_ok tt
    | Ok _ => ret_ok tt
    end
  else if InventoryOwnsFinalDeduct cfg then ret_err (StatusError Internal "inventory client not configured")
  else ret_ok tt.

(** Confirm, and take the order off the delay queue. *)
Definition paid (orderID : string) : P unit :=
  confirmInventoryDeduct orderID ~;;
  Zrem_delay orderID ~?
  ret_ok tt.

Definition PayOrder (orderID : string) (userID : Z) : P unit :=
  o <~ owned_order orderID userID ;;
  if o_status o =? orderstatus.Paid then paid orderID else
  demand (o_status o =? orderstatus.PendingPayment) (StatusError FailedPrecondition "order is not pending payment") ~;;
  tried (run_tx begin_failed (pay_body orderID userID)) ~;;
  paid orderID.

(** * Shipping and receiving *)

Definition ship_columns (t : Z) (o : Order) : Order :=
  mkOrder (o_request_id o) (o_user_id o) (o_merchant_id o) (o_product_id o) (o_amount o) orderstatus.Shipped
    (Some t) (completed_at o) (refund_requested_at o) (refunded_at o) t.
Definition complete_columns (t : Z) (o : Order) : Order :=
  mkOrder (o_request_id o) (o_user_id o) (o_merchant_id o) (o_product_id o) (o_amount o) orderstatus.Completed
    (shipped_at o) (Some t) (refund_requested_at o) (refunded_at o) t.

Definition ship_body (orderID : string) (operatorID : Z) (remark : string) (none : error) : M (txend error unit) :=
  move_order orderID any_order orderstatus.Paid ship_columns none ;;;
  insert_log (mkLog orderID orderstatus.Paid orderstatus.Shipped operatorID remark) log_failed ;;;
  ret (Commit commit_failed tt).

Definition ShipOrder (orderID : string) (userID : Z) : P unit :=
  o <~ owned_order orderID userID ;;
  demand (o_status o =? orderstatus.Paid) (StatusError FailedPrecondition "order is not in paid status") ~;;
  tried (run_tx begin_failed (ship_body orderID userID "seller shipped" changed_concurrently)).

Definition receive_body (orderID : string) (userID : Z) : M (txend error unit) :=
  move_order orderID any_order orderstatus.Shipped complete_columns changed_concurrently ;;;
  insert_log (mkLog orderID orderstatus.Shipped orderstatus.Completed userID "buyer confirmed receipt") log_failed ;;;
  ret (Commit commit_failed tt).

Definition ConfirmReceipt (orderID : string) (userID : Z) : P unit :=
  o <~ owned_order orderID userID ;;
  demand (o_status o =? orderstatus.Shipped) (StatusError FailedPrecondition "order is not in shipped status") ~;;
  tried (run_tx begin_failed (receive_body orderID userID)).

(** [AdminShipOrderHandler]. *)
Definition AdminShipOrder (orderID : string) (operatorID : Z) : P unit :=
  tried (raw_db DbError) ~;;
  tried (run_tx DbError (ship_body orderID operatorID "admin shipped" (conflict "order not in paid status"))).

(** [MerchantShipOrderHandler]: two statements, and the error of the second is
    dropped. *)
Definition MerchantShipOrder (orderID : string) (merchantID : Z) : P unit :=
  let orderID := trim_space orderID in
  demand (negb (is_empty orderID)) (bad_request "order_id required") ~;;
  tried (move_order orderID (fun o => o_merchant_id o =? merchantID) orderstatus.Paid ship_columns
           (conflict "order not found for merchant or not in paid status")) ~;;
  tried (insert_log (mkLog orderID orderstatus.Paid orderstatus.Shipped merchantID "merchant ship order") DbError) ~?
  ret_ok tt.

(** * Closing *)

(** [compensateClosedOrderInventory]. *)
Definition revert_stock (productID amount : Z) (orderID : string) : M unit :=
  call (prod_RevertStock (mkDeduct productID amount orderID)) call_failed.
Definition roll_back_deduction (productID amount : Z) (orderID : string) : M unit :=
  remote (PreDeductRollback (order_service cfg) (mkPreDeduct orderID productID amount)) call_failed.

Definition compensateClosedOrderInventory (productID amount : Z) (orderID : string) : M unit :=
  (if InventoryOwnsFinalDeduct cfg then ret tt else revert_stock productID amount orderID) ;;;
  roll_back_deduction productID amount orderID.

Definition or_default (reason dflt : string) : string :=
  if is_empty (trim_space reason) then dflt else trim_space reason.

(** [CancelOrderHandler]: the rows of the UPDATE are not counted. *)
Definition cancel_body (orderID : string) (userID : Z) (reason : string) : M (txend error unit) :=
  row <- query (fun d => select (at_key orderID (fun o => o_user_id o =? userID)) (orders d)) DbError ;;
  match row with
  | None => throw (not_found "order not found")
  | Some (_, o) =>
      require (orderstatus.CanPay (o_status o)) (conflict "order cannot be cancelled") ;;;
      exec_orders (at_key orderID (fun o => o_status o =? orderstatus.PendingPayment)) (set_status orderstatus.Closed) DbError ;;;
      insert_log (mkLog orderID orderstatus.PendingPayment orderstatus.Closed userID
                    ("user cancelled: " +:+ or_default reason "user cancel")) DbError ;;;
      compensateClosedOrderInventory (o_product_id o) (o_amount o) orderID ;;;
      ret (Commit DbError tt)
  end.

Definition CancelOrder (OrderId : string) (userID : Z) (reason : string) : P unit :=
  let orderID := trim_space OrderId in
  demand (negb (is_empty orderID)) (bad_request "order_id required") ~;;
  tried (raw_db DbError) ~;;
  tried (run_tx DbError (cancel_body orderID userID reason)).

(** [AdminCloseOrderHandler]. *)
Definition admin_close_body (orderID : string) (operatorID : Z) (reason : string) : M (txend error unit) :=
  row <- query (fun d => orders d !! orderID) DbError ;;
  match row with
  | None => throw (not_found "order not found")
  | Some o =>
      require (orderstatus.CanPay (o_status o)) (conflict "order cannot be closed") ;;;
      move_order orderID any_order orderstatus.PendingPayment (set_status orderstatus.Closed)
        (conflict "order cannot be closed") ;;;
      insert_log (mkLog orderID orderstatus.PendingPayment orderstatus.Closed operatorID
                    ("admin closed: " +:+ or_default reason "admin close")) DbError ;;;
      compensateClosedOrderInventory (o_product_id o) (o_amount o) orderID ;;;
      ret (Commit DbError tt)
  end.

Definition AdminCloseOrder (OrderId : string) (operatorID : Z) (reason : string) : P unit :=
  let orderID := trim_space OrderId in
  demand (negb (is_empty orderID)) (bad_request "order_id required") ~;;
  tried (raw_db DbError) ~;;
  tried (run_tx DbError (admin_close_body orderID operatorID reason)).

(** * Refunding *)

Definition request_refund_columns (t : Z) (o : Order) : Order :=
  set_refund_requested_at (Some t) (set_status orderstatus.RefundRequested t o).

(** The payment of the order; an error of the query counts as no payment. *)
Definition payment_of (orderID : string) (d : DB) : string * Z :=
  match select (for_order orderID) (payments d) with
  | Some (id, p) => (id, p_payable_amount_fen p)
  | None => ("", 0)
  end.

(** A plain [INSERT] into [refund_order] and [order_outbox]. *)
Definition insert_refund_row (id : string) (r : RefundOrder) (e : error) : M unit :=
  done <- sql (fun d => match insert_row (fun r' => str_eqb (r_order_id r') (r_order_id r)) id r (refunds d) with
                        | Some t => (with_refunds t d, true)
                        | None => (d, false)
                        end) e ;;
  require done e.
Definition insert_outbox_row (r : OutboxRow) (e : error) : M unit :=
  done <- sql (fun d => if existsb (fun r' => str_eqb (event_id r') (event_id r)) (outbox d) then (d, false)
                        else (with_outbox (outbox d ++ [r]) d, true)) e ;;
  require done e.

Definition refund_body (o : Order) (orderID : string) (userID nanos : Z) (reason : string) : M (txend error unit) :=
  let currentStatus := o_status o in
  move_order orderID any_order currentStatus request_refund_columns changed_concurrently ;;;
  found <- attempt (query (payment_of orderID) DbError) ;;
  let '(paymentOrderID, refundAmountFen) := match found with Ok v => v | Err _ => ("", 0) end in
  let refundID := "rf_" +:+ orderID +:+ "_" +:+ itoa nanos in
  insert_refund_row refundID
    (mkRefund orderID paymentOrderID userID (o_merchant_id o) (o_product_id o) refundAmountFen 0 (trim_space reason)
       "" 0 "local_sandbox" "" "" "" None None) (StatusError Internal "insert refund order failed") ;;;
  insert_log (mkLog orderID currentStatus orderstatus.RefundRequested userID ("refund requested: " +:+ trim_space reason))
    log_failed ;;;
  t <- get_now ;;
  insert_outbox_row
    (mkOutbox ("evt_" +:+ refundID) "refund.requested" orderID
       (list_to_map [("refund_id", JString refundID); ("order_id", JString orderID); ("user_id", JNumber userID);
                     ("merchant_id", JNumber (o_merchant_id o)); ("amount_fen", JNumber refundAmountFen)])
       0 0 t None "" t) (StatusError Internal "insert refund outbox failed") ;;;
  ret (Commit commit_failed tt).

(** [nanos] is what [time.Now().UnixNano()] answers. *)
Definition RefundOrder (orderID : string) (userID nanos : Z) (reason : string) : P unit :=
  o <~ owned_order orderID userID ;;
  demand (orderstatus.CanRequestRefund (o_status o))
    (StatusError FailedPrecondition "order cannot be refunded in current status") ~;;
  tried (run_tx begin_failed (refund_body o orderID userID nanos reason)).

(** [AdminRefundOrderHandler]: refunded at once, without a refund order. *)
Definition refunded_columns (t : Z) (o : Order) : Order :=
  set_refunded_at (Some t) (set_refund_requested_at (Some t) (set_status orderstatus.Refunded t o)).

Definition admin_refund_body (o : Order) (orderID : string) (operatorID : Z) (reason : string) : M (txend error unit) :=
  move_order orderID any_order (o_status o) refunded_columns (conflict "status changed concurrently") ;;;
  insert_log (mkLog orderID (o_status o) orderstatus.Refunded operatorID ("admin refund: " +:+ reason)) DbError ;;;
  compensateClosedOrderInventory (o_product_id o) (o_amount o) orderID ;;;
  ret (Commit DbError tt).

Definition AdminRefundOrder (orderID : string) (operatorID : Z) (reason : string) : P unit :=
  tried (raw_db DbError) ~;;
  row <~? tried (query (fun d => orders d !! orderID) DbError) ;;
  match row with
  | Ok (Some o) =>
      demand (orderstatus.CanRequestRefund (o_status o)) (conflict "order cannot be refunded") ~;;
      tried (run_tx DbError (admin_refund_body o orderID operatorID reason))
  | _ => ret_err (not_found "order not found")
  end.

(** ** [AdminRefundAuditHandler] *)

Definition audit_columns (st : Z) (remark : string) (operatorID : Z) (finish : bool) (t : Z) (r : OrderStore.RefundOrder) : OrderStore.RefundOrder :=
  mkRefund (r_order_id r) (r_payment_order_id r) (r_user_id r) (r_merchant_id r) (r_product_id r)
    (r_refund_amount_fen r) st (r_reason r) (trim_space remark) operatorID (r_provider r) (r_provider_refund_id r)
    (r_provider_status r) (r_provider_error r) (Some t) (if finish then Some t else None).

(** The status before the last refund request in the log. *)
Definition status_before_refund (orderID : string) (d : DB) : Z :=
  let st := match last (filter (fun l => l_order_id l = orderID /\ l_to_status l = orderstatus.RefundRequested) (status_log d)) with
            | Some l => l_from_status l
            | None => orderstatus.Paid
            end in
  if negb (st =? orderstatus.Paid) && negb (st =? orderstatus.Shipped) then orderstatus.Paid else st.

Definition approve_columns (t : Z) (o : Order) : Order := set_refunded_at (Some t) (set_status orderstatus.Refunded t o).
Definition reject_columns (st t : Z) (o : Order) : Order := set_refund_requested_at None (set_status st t o).

Definition audit_body (refundID : string) (approve : bool) (operatorID : Z) (remark : string) : M (txend error unit) :=
  row <- attempt (query (fun d => match refunds d !! refundID with
                                  | Some r => match orders d !! r_order_id r with Some o => Some (r, o) | None => None end
                                  | None => None
                                  end) DbError) ;;
  match row with
  | Ok (Some (r, o)) =>
      let orderID := r_order_id r in
      require ((r_status r =? 0) || (r_status r =? 1)) (conflict "refund order already audited") ;;;
      exec_refunds (at_key refundID (fun _ => true))
        (audit_columns (if approve then 2 else 3) remark operatorID approve) DbError ;;;
      (if approve then
         move_order orderID any_order orderstatus.RefundRequested approve_columns (conflict "order status changed concurrently") ;;;
         insert_log (mkLog orderID orderstatus.RefundRequested orderstatus.Refunded operatorID ("refund approved: " +:+ remark)) DbError ;;;
         compensateClosedOrderInventory (r_product_id r) (o_amount o) orderID
       else
         restoreStatus <- query (status_before_refund orderID) DbError ;;
         move_order orderID any_order orderstatus.RefundRequested (reject_columns restoreStatus)
           (conflict "order status changed concurrently") ;;;
         insert_log (mkLog orderID orderstatus.RefundRequested restoreStatus operatorID ("refund rejected: " +:+ remark)) DbError) ;;;
      let eventType := if approve then "refund.succeeded" else "refund.rejected" in
      t <- get_now ;;
      sql (fun d => (upsert_outbox
             (mkOutbox ("evt_" +:+ refundID +:+ "_" +:+ eventType) eventType orderID
                (list_to_map [("refund_id", JString refundID); ("order_id", JString orderID); ("operator_id", JNumber operatorID)])
                0 0 t None "" t) d, tt)) DbError ;;;
      ret (Commit DbError tt)
  | _ => throw (not_found "refund order not found")
  end.

Definition AdminRefundAudit (RefundId : string) (approve : bool) (operatorID : Z) (remark : string) : P unit :=
  let refundID := trim_space RefundId in
  demand (negb (is_empty refundID)) (bad_request "refund_id required") ~;;
  tried (raw_db DbError) ~;;
  tried (run_tx DbError (audit_body refundID approve operatorID remark)).
End entry.
