(* ===== verification/CloseOrder.v ===== *)
(** The close job of the entry API (app/entry/api/job/closeorder.go), the delay queue
    it works on, and the system it is part of: any number of handlers and jobs of the
    entry API, interrupted between any two calls, beside the order service. *)

From stdpp Require Import sorting.
From S2P Require Import Prelude Effects Sql Common OrderStore OrderCreate PreDeduct OrderSystem OrderSteps EndToEnd Programs EntryOrders.

(** * The sorted sets *)

(** By score, and bytewise among equals. *)
Definition sooner (a b : string * Z) : Prop := ((a.2 <? b.2) || ((a.2 =? b.2) && String.leb a.1 b.1)) = true.
#[export] Instance sooner_dec : RelDecision sooner.
Proof. intros a b. unfold sooner. apply _. Defined.

(** [ZRANGEBYSCORE queue 0 now]. *)
Definition due_members (now : Z) (q : gmap string Z) : list string :=
  (merge_sort sooner (filter (fun e => 0 <= e.2 <= now) (map_to_list q))).*1.

Definition claimLua (now visibilityAt : Z) (r : EntryRedis) : EntryRedis * string :=
  match due_members now (delay_queue r) with
  | [] => (r, "")
  | orderId :: _ =>
      (with_processing (<[orderId := visibilityAt]> (processing_queue r))
         (with_delay (delete orderId (delay_queue r)) r), orderId)
  end.

Definition reclaimLua (now limit : Z) (r : EntryRedis) : EntryRedis :=
  let items := take (Z.to_nat limit) (due_members now (processing_queue r)) in
  with_delay (foldr (fun v q => <[v := now]> q) (delay_queue r) items)
    (with_processing (foldr delete (processing_queue r) items) r).

Definition visibilityTimeoutSeconds : Z := 30.
Definition maxRetries : Z := 5.
Definition retryBackoffSeconds : Z := 5.

Section job.
Context {X : Type} `{HasEntry X, Dtm X, OrdersCache X, OrderIdGen X, StockClient X}.
Context `{InventoryClient X, PaymentProvider X, ProductClient X, HasRedis X}.
Context (cfg : EntryConfig).
Abbreviation P A := (prog DB X error (res error A)).

Definition claimDueOrder (now : Z) : P string :=
  redis (fun _ r => claimLua now (now + visibilityTimeoutSeconds) r).

Definition reclaimExpired (now : Z) : P unit := redis (fun _ r => (reclaimLua now 10 r, tt)).

Definition Zrem_processing (orderId : string) : P unit :=
  redis (fun _ r => (with_processing (delete orderId (processing_queue r)) r, tt)).
Definition Del_retry (orderId : string) : P unit :=
  redis (fun _ r => (with_retry (delete orderId (retry_count r)) r, tt)).
Definition Incr_retry (orderId : string) : P Z :=
  redis (fun t r =>
    let '(n, expiry) := match retry_count r !! orderId with
                        | Some (n, Some e) => if t <? e then (n, Some e) else (0, None)
                        | Some (n, None) => (n, None)
                        | None => (0, None)
                        end in
    (with_retry (<[orderId := (n + 1, expiry)]> (retry_count r)) r, n + 1)).
Definition Expire_retry (orderId : string) (seconds : Z) : P unit :=
  redis (fun t r =>
    (match retry_count r !! orderId with
     | Some (n, _) => with_retry (<[orderId := (n, Some (t + seconds))]> (retry_count r)) r
     | None => r
     end, tt)).
Definition Zadd_dead (orderId : string) (score : Z) : P unit :=
  redis (fun _ r => (with_dead (<[orderId := score]> (dead_letters r)) r, tt)).
Definition Zadd_delay (orderId : string) (score : Z) : P unit :=
  redis (fun _ r => (with_delay (<[orderId := score]> (delay_queue r)) r, tt)).

Definition ack (orderId : string) : P unit :=
  Zrem_processing orderId ~?
  Del_retry orderId ~?
  ret_ok tt.

Definition onFailure (orderId : string) : P unit :=
  retryCount <~ Incr_retry orderId ;;
  Expire_retry orderId (24 * 60 * 60) ~?
  if maxRetries <? retryCount then
    t <~ tried get_now ;;
    Zadd_dead orderId t ~;;
    ack orderId
  else
    t <~ tried get_now ;;
    Zadd_delay orderId (t + retryBackoffSeconds) ~;;
    ack orderId.

(** The stock of a closed order goes back. *)
Definition give_back (orderId : string) (o : Order) : P unit :=
  (if InventoryOwnsFinalDeduct cfg then ret_ok tt
   else tried (revert_stock (o_product_id o) (o_amount o) orderId)) ~;;
  tried (roll_back_deduction cfg (o_product_id o) (o_amount o) orderId) ~;;
  ret_ok tt.

Definition handleCloseOrder (orderId : string) : P unit :=
  found <~ FindOne orderId ;;
  match found with
  | None => ret_ok tt
  | Some (_, o) =>
      if o_status o =? orderstatus.Paid then ret_ok tt else
      if negb (o_status o =? orderstatus.PendingPayment) && negb (o_status o =? orderstatus.Closed) then ret_ok tt else
      if o_status o =? orderstatus.PendingPayment then
        affected <~ tried (exec_orders (at_key orderId (fun o => o_status o =? orderstatus.PendingPayment))
                             (set_status orderstatus.Closed) DbError) ;;
        if affected =? 0 then ret_ok tt else give_back orderId o
      else give_back orderId o
  end.

(** One turn of the loop of [Start]. *)
Definition consume : P unit :=
  now <~ tried get_now ;;
  reclaimExpired now ~?
  claimed <~? claimDueOrder now ;;
  match claimed with
  | Err _ => ret_ok tt
  | Ok orderId =>
      if is_empty orderId then ret_ok tt else
      handled <~? handleCloseOrder orderId ;;
      match handled with
      | Err _ => onFailure orderId
      | Ok _ => ack orderId
      end
  end.

(** * The system *)

Inductive entry_request :=
| ReqCreateOrder (req : EntryCreateReq)
| ReqPoll (requestId : string)
| ReqPay (orderID : string) (userID : Z)
| ReqShip (orderID : string) (userID : Z)
| ReqReceive (orderID : string) (userID : Z)
| ReqCancel (orderID : string) (userID : Z) (reason : string)
| ReqRefund (orderID : string) (userID nanos : Z) (reason : string)
| ReqAdminShip (orderID : string) (operatorID : Z)
| ReqMerchantShip (orderID : string) (merchantID : Z)
| ReqAdminClose (orderID : string) (operatorID : Z) (reason : string)
| ReqAdminRefund (orderID : string) (operatorID : Z) (reason : string)
| ReqAdminAudit (refundID : string) (approve : bool) (operatorID : Z) (remark : string)
| ReqConsume.

Definition finish {A} (p : P A) : prog DB X error unit := chain p (fun _ => Ret tt).

Definition entry_body (r : entry_request) : prog DB X error unit :=
  match r with
  | ReqCreateOrder req => finish (CreateOrder cfg req)
  | ReqPoll q => finish (OrderStatusPoll q)
  | ReqPay o u => finish (PayOrder cfg o u)
  | ReqShip o u => finish (ShipOrder o u)
  | ReqReceive o u => finish (ConfirmReceipt o u)
  | ReqCancel o u reason => finish (CancelOrder cfg o u reason)
  | ReqRefund o u nanos reason => finish (RefundOrder o u nanos reason)
  | ReqAdminShip o u => finish (AdminShipOrder o u)
  | ReqMerchantShip o m => finish (MerchantShipOrder o m)
  | ReqAdminClose o u reason => finish (AdminCloseOrder cfg o u reason)
  | ReqAdminRefund o u reason => finish (AdminRefundOrder cfg o u reason)
  | ReqAdminAudit r approve u remark => finish (AdminRefundAudit cfg r approve u remark)
  | ReqConsume => finish consume
  end.

(** The close job is expected to take less than the backoff. *)
Definition entry_limit (r : entry_request) : option Z :=
  match r with ReqConsume => Some retryBackoffSeconds | _ => None end.

(** The order service serves its own requests, one at a time. *)
Definition order_calls (r : saga_request) : M DB X error unit := saga_handle (order_service cfg) r.
End job.

(** * Where the status of an order may go *)

(** The life cycle, and the refund of an administrator in one step. *)
Inductive arrow (s t : Z) : Prop :=
| arrow_move : orderstatus.move s t -> arrow s t
| arrow_refund : orderstatus.CanRequestRefund s = true -> t = orderstatus.Refunded -> arrow s t.

(** The same without closing. *)
Definition open_arrow (s t : Z) : Prop := arrow s t /\ t <> orderstatus.Closed.

#[export] Hint Constructors arrow : mall.

Lemma arrow_final s t : arrow s t -> s <> orderstatus.Closed /\ s <> orderstatus.Completed /\ s <> orderstatus.Refunded.
Proof.
  intros [Hm|Hr _]; [by apply orderstatus.move_not_from_final in Hm|].
  unfold orderstatus.CanRequestRefund in Hr. apply orb_true_iff in Hr as [Hr|Hr]; bools; by subst s.
Qed.

Lemma arrow_not_pending s t : arrow s t -> t <> orderstatus.PendingPayment.
Proof. intros [Hm|_ ->]; [|done]. by destruct Hm. Qed.

Lemma rtc_impl {A} (R S : A -> A -> Prop) x y : (forall a b, R a b -> S a b) -> rtc R x y -> rtc S x y.
Proof. intros HRS. induction 1; [done|]. eapply rtc_l; eauto. Qed.

Lemma arrows_final s t :
  rtc arrow s t -> s = orderstatus.Closed \/ s = orderstatus.Completed \/ s = orderstatus.Refunded -> t = s.
Proof. intros Hr. inversion Hr as [|? u ? Ha _]; [done|]. apply arrow_final in Ha. naive_solver. Qed.

Lemma arrows_not_pending s t : rtc arrow s t -> s <> orderstatus.PendingPayment -> t <> orderstatus.PendingPayment.
Proof. induction 1 as [|s u t Ha _ IH]; [done|]. intros _. by apply IH, (arrow_not_pending s). Qed.

(** Once it is neither pending nor closed it never is again. *)
Definition settled_status (s : Z) : Prop := s <> orderstatus.PendingPayment /\ s <> orderstatus.Closed.

Lemma arrow_settled s t : arrow s t -> s <> orderstatus.PendingPayment -> settled_status t.
Proof.
  intros Ha Hs. split; [by eapply arrow_not_pending|]. destruct Ha as [Hm|_ ->]; [|done]. destruct Hm; done.
Qed.

Lemma arrows_settled s t : rtc arrow s t -> settled_status s -> settled_status t.
Proof. induction 1 as [|s u t Ha _ IH]; [done|]. intros [Hs _]. apply IH. by eapply arrow_settled. Qed.

Lemma open_arrows s t : rtc open_arrow s t -> rtc arrow s t.
Proof. apply rtc_impl. by intros a b [? _]. Qed.

Lemma open_arrows_open s t : rtc open_arrow s t -> s <> orderstatus.Closed -> t <> orderstatus.Closed.
Proof. induction 1 as [|s u t [_ Hu] _ IH]; auto. Qed.

(** ** Changes of the database *)

(** Orders stay, keep what they are, and their status follows the arrows of [R]. *)
Definition evolves (R : string -> Z -> Z -> Prop) (d d' : DB) : Prop :=
  forall id o, orders d !! id = Some o ->
    exists o', orders d' !! id = Some o' /\ order_identity o' = order_identity o /\ rtc (R id) (o_status o) (o_status o').

Lemma db_evolves_refl R d : evolves R d d.
Proof. intros id o Ho. exists o. by split_and!. Qed.

Lemma db_evolves_trans R d1 d2 d3 : evolves R d1 d2 -> evolves R d2 d3 -> evolves R d1 d3.
Proof.
  intros H1 H2 id o Ho. destruct (H1 id o Ho) as (o2&Ho2&Hi2&Hr2). destruct (H2 id o2 Ho2) as (o3&Ho3&Hi3&Hr3).
  exists o3. split_and!; [done|congruence|by etrans].
Qed.

Lemma evolves_same R d d' : orders d' = orders d -> evolves R d d'.
Proof. intros Heq. intros id o Ho. exists o. rewrite Heq. by split_and!. Qed.

Lemma evolves_impl (R S : string -> Z -> Z -> Prop) d d' :
  (forall id s t, R id s t -> S id s t) -> evolves R d d' -> evolves S d d'.
Proof.
  intros HRS He id o Ho. destruct (He id o Ho) as (o'&H1&H2&H3). exists o'. split_and!; [done|done|].
  eapply rtc_impl; [|exact H3]. apply HRS.
Qed.

Lemma evolves_set (R : string -> Z -> Z -> Prop) d id o o' :
  orders d !! id = Some o -> order_identity o' = order_identity o -> rtc (R id) (o_status o) (o_status o') ->
  evolves R d (with_orders (<[id := o']> (orders d)) d).
Proof.
  intros Ho Hi Hr k x Hx. simpl. destruct (decide (id = k)) as [<-|Hne].
  - assert (x = o) as -> by congruence. exists o'. rewrite lookup_insert_eq. done.
  - exists x. rewrite lookup_insert_ne by done. done.
Qed.

Definition any_arrow (id : string) : Z -> Z -> Prop := arrow.

Lemma step_evolves d d' : step d d' -> evolves any_arrow d d'.
Proof.
  assert (forall d id o o' s t, orders d !! id = Some o -> o_status o = s -> o_status o' = t ->
    order_identity o' = order_identity o -> arrow s t -> evolves any_arrow d (with_orders (<[id := o']> (orders d)) d)) as Hset.
  { intros d1 id o o' s t Ho <- <- Hi Ha. apply (evolves_set _ _ _ o); [exact Ho|exact Hi|]. by apply rtc_once. }
  intros Hs. destruct Hs as [id o Hn Hp| | | | | | |id o' (o&Ho&Hf&Ht&Hi)|id o' f l (o&Ho&Hf&Ht&Hi)|id o' l (o&Ho&Hf&Ht&Hi)
    |id o' l (o&Ho&Hf&Ht&Hi)|id o' k p p' l t (o&Ho&Hf&Ht&Hi)|id s o' k p rk r l (o&Ho&Hf&Ht&Hi) Hc
    |id t o' rk r r' l (o&Ho&Hf&Ht&Hi) Hr1 Hr2 Hr3 Hr4 Hor]; try by apply evolves_same.
  - intros k x Hx. exists x. simpl. rewrite lookup_insert_ne by congruence. done.
  - apply (Hset d id o o' _ _ Ho Hf Ht Hi). auto with mall.
  - apply (db_evolves_trans _ _ (set_order id o' d)); [|by apply evolves_same].
    apply (Hset d id o o' _ _ Ho Hf Ht Hi). auto with mall.
  - apply (db_evolves_trans _ _ (set_order id o' d)); [|by apply evolves_same].
    apply (Hset d id o o' _ _ Ho Hf Ht Hi). auto with mall.
  - apply (db_evolves_trans _ _ (set_order id o' d)); [|by apply evolves_same].
    apply (Hset d id o o' _ _ Ho Hf Ht Hi). auto with mall.
  - apply (db_evolves_trans _ _ (set_order id o' d)); [|by apply evolves_same].
    apply (Hset d id o o' _ _ Ho Hf Ht Hi). auto with mall.
  - apply (db_evolves_trans _ _ (set_order id o' d)); [|by apply evolves_same].
    apply (Hset d id o o' _ _ Ho Hf Ht Hi).
    unfold orderstatus.CanRequestRefund in Hc. apply orb_true_iff in Hc as [Hc|Hc]; bools; rewrite Hc; auto with mall.
  - apply (db_evolves_trans _ _ (set_order id o' d)); [|by apply evolves_same].
    apply (Hset d id o o' _ _ Ho Hf Ht Hi).
    destruct Hor as [[-> _]|[[->| ->] _]]; auto with mall.
Qed.

Lemma steps_evolve d d' : steps d d' -> evolves any_arrow d d'.
Proof. induction 1 as [|d1 d2 d3 Hs _ IH]; [apply db_evolves_refl|]. eapply db_evolves_trans; [by apply step_evolves|done]. Qed.

(** ** The scripts *)

Lemma elem_of_due now q v : v ∈ due_members now q -> exists sc, q !! v = Some sc /\ 0 <= sc <= now.
Proof.
  unfold due_members. rewrite list_elem_of_fmap. intros ([k sc]&->&Hin). rewrite merge_sort_Permutation in Hin.
  apply list_elem_of_filter in Hin as [Hs Hin]. exists sc. split; [by apply elem_of_map_to_list|done].
Qed.

Lemma lookup_foldr_insert (m : gmap string Z) (l : list string) (n : Z) k :
  foldr (fun v q => <[v := n]> q) m l !! k = if decide (k ∈ l) then Some n else m !! k.
Proof.
  induction l as [|v l IH]; simpl; [done|]. destruct (decide (v = k)) as [->|Hne].
  - rewrite lookup_insert_eq. destruct (decide (k ∈ k :: l)) as [?|Hn]; [done|]. destruct Hn. by left.
  - rewrite lookup_insert_ne by done. rewrite IH.
    destruct (decide (k ∈ l)), (decide (k ∈ v :: l)); try done; set_solver.
Qed.

Lemma lookup_foldr_delete (m : gmap string Z) (l : list string) k :
  foldr delete m l !! k = if decide (k ∈ l) then None else m !! k.
Proof.
  induction l as [|v l IH]; simpl; [done|]. destruct (decide (v = k)) as [->|Hne].
  - rewrite lookup_delete_eq. destruct (decide (k ∈ k :: l)) as [?|Hn]; [done|]. destruct Hn. by left.
  - rewrite lookup_delete_ne by done. rewrite IH.
    destruct (decide (k ∈ l)), (decide (k ∈ v :: l)); try done; set_solver.
Qed.
