(* ===== verification/CloseSafety.v ===== *)
(** What the system of the entry API keeps whatever happens in between: orders only
    move forward, and an order that has been put on the delay queue is not lost
    before it has been dealt with. *)

From S2P Require Import Prelude Effects Sql Common OrderStore InventoryKitex OrderCreate PreDeduct OrderSystem OrderSteps EndToEnd Programs EntryOrders CloseOrder.

(** * What the handlers rely on *)

Section laws.
Context {X : Type} `{HasEntry X, Dtm X, OrdersCache X, OrderIdGen X, StockClient X}.
Context `{InventoryClient X, PaymentProvider X, ProductClient X, HasRedis X}.
Context (cfg : EntryConfig).
(** The ids that the generator has given; that the deduction of an order has been
    rolled back, and its stock reverted. *)
Context (issued : X -> gset string) (rolled_back reverted : string -> X -> Prop).

Definition queues (r : EntryRedis) : gmap string Z * gmap string Z * gmap string Z :=
  (delay_queue r, processing_queue r, dead_letters r).

Definition given_back (o : string) (x : X) : Prop :=
  rolled_back o x /\ (InventoryOwnsFinalDeduct cfg = true \/ reverted o x).

(** What has been returned stays returned. *)
Definition returns_stay (x0 x : X) : Prop :=
  forall o, (rolled_back o x0 -> rolled_back o x) /\ (reverted o x0 -> reverted o x).

(** The queues of the close job and the ids are left alone. *)
Definition apart (x0 x : X) : Prop :=
  queues (get_entry x) = queues (get_entry x0) /\ issued x = issued x0 /\ returns_stay x0 x.

(** The keys of the entry API are its own; no id is given twice; a rollback and a
    revert do what they answer, for good; the transaction manager calls the branches
    of a saga and nothing else. *)
Class EntryLaws := {
  law_get_put r x : get_entry (put_entry r x) = r;
  law_put r x : issued (put_entry r x) = issued x /\ returns_stay x (put_entry r x);
  law_next x : let '(x', id) := NextID x in
    queues (get_entry x') = queues (get_entry x) /\ returns_stay x x' /\
    (id ∉ issued x) /\ id <> "" /\ issued x' = {[id]} ∪ issued x;
  law_reserve o p q x : apart x (inv_ReserveStock o p q x).1;
  law_confirm o x : apart x (inv_ConfirmDeduct o x).1;
  law_release o r x : apart x (inv_ReleaseStock o r x).1;
  law_precreate q x : apart x (pp_Precreate q x).1;
  law_query o x : apart x (pp_Query o x).1;
  law_close o x : apart x (pp_Close o x).1;
  law_refund q x : apart x (pp_Refund q x).1;
  law_card p x : apart x (prod_GetProductCard p x).1;
  law_pre_deduct x0 r : keeps (apart x0) (PreDeduct (order_service cfg) r);
  law_rollback x0 r : keeps (apart x0) (PreDeductRollback (order_service cfg) r);
  law_rolled_back r s s' : PreDeductRollback (order_service cfg) r s = (s', Ok tt) -> rolled_back (pd_OrderId r) (ext s');
  law_revert r x : apart x (prod_RevertStock r x).1;
  law_reverted r x x' : prod_RevertStock r x = (x', Ok tt) -> reverted (dr_OrderId r) x';
  law_deduct r x : apart x (prod_Deduct r x).1;
  law_deduct_rollback r x : apart x (prod_DeductRollback r x).1;
  law_gid x : apart x (dtm_NewGid x).1;
  law_take key t x : apart x (cache_take key t x).1;
  law_keep key v t x : apart x (cache_keep key v t x).1;
  law_submit_db (P : DB -> Prop) sg :
    (forall b c runs, b ∈ sg_steps sg -> preserves P (branch_call cfg b c runs)) -> preserves P (dtm_Submit sg);
  law_submit_ext (I : X -> Prop) sg :
    (forall b c runs, b ∈ sg_steps sg -> keeps I (branch_call cfg b c runs)) -> keeps I (dtm_Submit sg)
}.

Context `{EntryLaws}.

Lemma apart_refl x : apart x x.
Proof. done. Qed.

Lemma apart_trans x1 x2 x3 : apart x1 x2 -> apart x2 x3 -> apart x1 x3.
Proof.
  intros (Hq&Hi&Hr) (Hq'&Hi'&Hr'). split_and!; [congruence|congruence|].
  intros o. destruct (Hr o), (Hr' o). auto.
Qed.

Lemma given_back_stays x0 x o : returns_stay x0 x -> given_back o x0 -> given_back o x.
Proof. intros Hr [Hrb Hrv]. destruct (Hr o). split; [auto|]. destruct Hrv; auto. Qed.

#[local] Instance apart_inventory x0 : InventoryClientLaws X (apart x0).
Proof. split; intros; (eapply apart_trans; [done|]); first [apply law_reserve|apply law_confirm|apply law_release]. Qed.
#[local] Instance apart_others x0 : OtherClientsLaws X (apart x0).
Proof.
  split; intros; (eapply apart_trans; [done|]);
    first [apply law_precreate|apply law_query|apply law_close|apply law_refund|apply law_card].
Qed.

Lemma keeps_apart_call {A E} x0 (op : X -> X * res E A) (e : E) :
  (forall x, apart x (op x).1) -> keeps (D := DB) (apart x0) (call op e).
Proof. intros Hop. apply keeps_call. intros x Hx. by eapply apart_trans. Qed.

Lemma keeps_remote {D E A} (I : X -> Prop) (m : M D X E A) e : keeps I m -> keeps I (remote m e).
Proof.
  intros Hm s Hs. unfold remote. pose proof (ext_pop_fault s) as Hx.
  destruct (pop_fault s) as [[] s']; simpl in *; rewrite ?Hx; [|done|]; apply Hm; by rewrite Hx.
Qed.

(** * Calls that change no queue *)

(** Orders follow the arrows of [R], and the queues are left alone. *)
Definition tame (R : string -> Z -> Z -> Prop) (B : Type) (m : M DB X error B) : Prop :=
  (forall d0, preserves (evolves R d0) m) /\ (forall x0, keeps (apart x0) m).

Definition lets_open (R : string -> Z -> Z -> Prop) : Prop := forall id s t, open_arrow s t -> R id s t.

Lemma evolves_still R d0 d d' : evolves R d0 d -> orders d' = orders d -> evolves R d0 d'.
Proof. intros He Ho. eapply db_evolves_trans; [exact He|]. by apply evolves_same. Qed.

Lemma preserves_still {A} R d0 (op : DB -> DB * A) (e : error) :
  (forall d, orders (op d).1 = orders d) -> preserves (X := X) (evolves R d0) (sql op e).
Proof. intros Hop. apply preserves_sql. intros d Hd. by eapply evolves_still. Qed.

Lemma preserves_exec_orders R d0 id (c : Order -> bool) from to (f : Z -> Order -> Order) e :
  (forall t o, order_identity (f t o) = order_identity o) -> (forall t o, o_status (f t o) = to) ->
  R id from to ->
  preserves (X := X) (evolves R d0) (exec_orders (at_key id (fun o => c o && (o_status o =? from))) f e).
Proof.
  intros Hi Hs HR. unfold exec_orders. apply preserves_bind; [apply preserves_get_now|]. intros t.
  apply preserves_sql. intros d Hd. eapply db_evolves_trans; [exact Hd|]. simpl. rewrite upd_at_key.
  destruct (orders d !! id) as [o|] eqn:Ho; [|by apply evolves_same].
  destruct (c o && (o_status o =? from)) eqn:Hc; [|by apply evolves_same]. bools.
  eapply evolves_set; [exact Ho|apply Hi|]. rewrite Hs. apply rtc_once. congruence.
Qed.

Lemma preserves_move R d0 id c from to f none :
  (forall t o, order_identity (f t o) = order_identity o) -> (forall t o, o_status (f t o) = to) ->
  R id from to -> preserves (X := X) (evolves R d0) (move_order id c from f none).
Proof.
  intros. unfold move_order. apply preserves_bind; [by eapply preserves_exec_orders|]. intros n. apply preserves_require.
Qed.

Lemma keeps_move x0 id c from f none : keeps (apart x0) (move_order id c from f none).
Proof. unfold move_order, exec_orders. keep. Qed.

Lemma preserves_query_bind {A B} (P : DB -> Prop) (f : DB -> A) e (k : A -> M DB X error B) :
  (forall d, preserves P (k (f d))) -> preserves P (bind (query f e) k).
Proof.
  intros Hk [d x t fs] Hs. unfold bind, query, sql, pop_fault. simpl.
  destruct fs as [|[] fs]; simpl; [apply Hk|apply Hk| |]; done.
Qed.

Lemma preserves_require_bind {B} (P : DB -> Prop) b (e : error) (k : M DB X error B) :
  (b = true -> preserves P k) -> preserves P (bind (require b e) (fun _ => k)).
Proof. intros Hk. destruct b; [|by intros s]. by apply Hk. Qed.

(** ** The programs *)

Ltac orders_move := first
  [ by apply preserves_still
  | eapply preserves_move; [by intros|intros; cbn; reflexivity|]
  | eapply preserves_exec_orders; [by intros|intros; cbn; reflexivity|] ].

Ltac unfold_statements := unfold raw_db, insert_log, exec_payments, exec_refunds, insert_refund_row, insert_outbox_row, query.

Ltac keep_apart := unfold_statements; unfold move_order, exec_orders; keep;
  try (apply keeps_apart_call; intros; first
    [ apply law_confirm | apply law_take | apply law_keep | apply law_revert | apply law_gid
    | apply law_deduct | apply law_deduct_rollback ]).

(** Calls that touch the orders nowhere. *)
Lemma tame_ext R {A} (op : X -> X * res error A) (e : error) : (forall x, apart x (op x).1) -> tame R A (call op e).
Proof. intros Hop. split; intros; [apply preserves_call|by apply keeps_apart_call]. Qed.

Lemma tame_now R : tame R Z get_now.
Proof. split; intros; [apply preserves_get_now|apply keeps_get_now]. Qed.

Lemma tame_query R {A} (f : DB -> A) e : tame R A (query f e).
Proof. split; intros; [by apply preserves_still|apply keeps_sql]. Qed.

Lemma tame_raw_db R e : tame R unit (raw_db e).
Proof. split; intros; [by apply preserves_still|apply keeps_sql]. Qed.

Lemma every_redis R {A} (op : Z -> EntryRedis -> EntryRedis * A) :
  (forall t r, queues (op t r).1 = queues r) -> every (tame R) (redis op).
Proof.
  intros Hop. apply every_tried. split; intros; [preserve|]. apply keeps_bind; [apply keeps_get_now|]. intros t.
  apply keeps_call. intros x Hx. specialize (Hop t (get_entry x)). destruct (op t (get_entry x)) as [r a]. simpl in *.
  eapply apart_trans; [exact Hx|]. destruct (law_put r x) as [Hi Hr]. split_and!; [|done|done]. by rewrite law_get_put.
Qed.

Lemma every_QueryRow R key f : every (tame R) (QueryRow key f).
Proof.
  unfold QueryRow. apply every_andthen; [apply every_tried, tame_now|]. intros t.
  apply every_andthen; [apply every_tried, tame_ext; intros; apply law_take|]. intros [row|]; [done|].
  apply every_andthen; [apply every_tried, tame_query|]. intros row.
  apply every_whatever; [apply every_tried, tame_ext; intros; apply law_keep|done].
Qed.

Lemma every_queryCreateOrderResp R id : every (tame R) (queryCreateOrderResp cfg id).
Proof.
  unfold queryCreateOrderResp. destruct (is_empty _); [done|]. destruct (negb _); [done|].
  apply every_andthen; [apply every_tried, tame_query|]. by intros [?|].
Qed.

Lemma every_finish R {A} (p : prog DB X error (res error A)) : every (tame R) p -> every (tame R) (finish p).
Proof. intros Hp. by apply every_chain. Qed.

Lemma every_owned R id u : every (tame R) (owned_order id u).
Proof.
  unfold owned_order. apply every_andthen; [apply every_demand|]. intros _.
  apply every_andthen; [apply every_tried, tame_raw_db|]. intros _.
  apply every_whatever; [apply every_tried, tame_query|]. intros [[o|]|]; try done.
  apply every_andthen; [apply every_demand|done].
Qed.

Lemma every_demand_then {A} Q b (e : error) (k : unit -> prog DB X error (res error A)) :
  (b = true -> every Q (k tt)) -> every Q (andthen (demand b e) k).
Proof. intros Hk. destruct b; [|done]. by apply Hk. Qed.

Lemma owned_then {A} R id u (k : Order -> prog DB X error (res error A)) :
  (forall o, every (tame R) (k o)) -> every (tame R) (andthen (owned_order id u) k).
Proof. intros Hk. apply every_andthen; [apply every_owned|done]. Qed.

Lemma every_tx R {A} e (body : M DB X error (txend error A)) :
  (forall d0, preserves (evolves R d0) body) -> (forall x0, keeps (apart x0) body) -> every (tame R) (tried (run_tx e body)).
Proof. intros Hd Hx. apply every_tried. split; intros; [by apply preserves_run_tx_body|by apply keeps_run_tx]. Qed.

Section open.
Context (R : string -> Z -> Z -> Prop) (HR : lets_open R).

Ltac arrow_ok := apply HR; split; [auto with mall|done].

Lemma preserves_ship id op remark none d0 : preserves (X := X) (evolves R d0) (ship_body id op remark none).
Proof. unfold ship_body. preserve; [orders_move; arrow_ok|orders_move]. Qed.

Lemma keeps_ship id op remark none x0 : keeps (apart x0) (ship_body id op remark none).
Proof. unfold ship_body. keep_apart. Qed.

Lemma every_ship id u : every (tame R) (ShipOrder id u).
Proof. apply owned_then. intros o. apply every_andthen; [apply every_demand|]. intros _. apply every_tx; intros; [apply preserves_ship|apply keeps_ship]. Qed.

Lemma every_admin_ship id u : every (tame R) (AdminShipOrder id u).
Proof. apply every_andthen; [apply every_tried, tame_raw_db|]. intros _. apply every_tx; intros; [apply preserves_ship|apply keeps_ship]. Qed.

Lemma every_merchant_ship id m : every (tame R) (MerchantShipOrder id m).
Proof.
  unfold MerchantShipOrder. cbv zeta. apply every_andthen; [apply every_demand|]. intros _.
  apply every_andthen; [|intros _; apply every_whatever; [|done]]; apply every_tried; split; intros.
  - orders_move. arrow_ok.
  - apply keeps_move.
  - by apply preserves_still.
  - apply keeps_sql.
Qed.

Lemma every_receive id u : every (tame R) (ConfirmReceipt id u).
Proof.
  apply owned_then. intros o. apply every_andthen; [apply every_demand|]. intros _.
  apply every_tx; intros; unfold receive_body; [preserve; [orders_move; arrow_ok|orders_move]|keep_apart].
Qed.

Lemma tame_pay e id u : tame R unit (run_tx e (pay_body id u)).
Proof.
  apply (every_tx R e (pay_body id u)); intros; unfold pay_body, exec_payments; [preserve; try orders_move; arrow_ok|keep_apart].
Qed.

Lemma every_confirm id : every (tame R) (confirmInventoryDeduct cfg id).
Proof.
  unfold confirmInventoryDeduct. destruct (has_inventory_client cfg); [|by destruct (InventoryOwnsFinalDeduct cfg)].
  apply every_whatever; [apply every_tried, tame_ext; intros; apply law_confirm|].
  intros [?|?]; [done|]. by destruct (InventoryOwnsFinalDeduct cfg).
Qed.

Lemma refundable_arrow id s : orderstatus.CanRequestRefund s = true -> R id s orderstatus.RefundRequested.
Proof.
  intros Hc. apply HR. split; [|done]. unfold orderstatus.CanRequestRefund in Hc.
  apply orb_true_iff in Hc as [Hc|Hc]; bools; subst s; auto with mall.
Qed.

Lemma every_refund id u nanos reason : every (tame R) (RefundOrder id u nanos reason).
Proof.
  apply owned_then. intros o. apply every_demand_then. intros Hc.
  apply every_tx; intros; unfold refund_body; cbv zeta; [|keep_apart].
  preserve; try (unfold insert_refund_row, insert_outbox_row; preserve); try orders_move.
  - by apply refundable_arrow.
  - apply preserves_still. intros d. simpl. by destruct (insert_row _ _ _ _).
  - apply preserves_still. intros d. simpl. by destruct (existsb _ _).
Qed.

(** The stock of a closed order. *)
Lemma preserves_roll_back P p a id : preserves (X := X) P (roll_back_deduction cfg p a id).
Proof.
  apply preserves_remote. unfold PreDeductRollback, PreDeduct.eval. cbv zeta. preserve.
Qed.

Lemma keeps_roll_back x0 p a id : keeps (D := DB) (apart x0) (roll_back_deduction cfg p a id).
Proof. apply keeps_remote, law_rollback. Qed.

Lemma preserves_compensate P p a id : preserves (X := X) P (compensateClosedOrderInventory cfg p a id).
Proof. unfold compensateClosedOrderInventory, revert_stock. preserve. apply preserves_roll_back. Qed.

Lemma keeps_compensate x0 p a id : keeps (D := DB) (apart x0) (compensateClosedOrderInventory cfg p a id).
Proof.
  unfold compensateClosedOrderInventory, revert_stock. keep; [|apply keeps_roll_back].
  apply keeps_apart_call. intros. apply law_revert.
Qed.

Lemma every_admin_refund id u reason : every (tame R) (AdminRefundOrder cfg id u reason).
Proof.
  unfold AdminRefundOrder. apply every_andthen; [apply every_tried, tame_raw_db|]. intros _.
  apply every_whatever; [apply every_tried, tame_query|]. intros [[o|]|]; try done.
  apply every_demand_then. intros Hc. apply every_tx; intros; unfold admin_refund_body.
  - preserve; try orders_move; [|apply preserves_compensate]. apply HR. split; [by apply arrow_refund|done].
  - keep_apart. apply keeps_compensate.
Qed.

Lemma restored d id : let st := status_before_refund id d in st = orderstatus.Paid \/ st = orderstatus.Shipped.
Proof.
  unfold status_before_refund. cbv zeta. set (v := match last _ with Some l => _ | None => _ end).
  destruct (v =? orderstatus.Paid) eqn:Hv; [left; simpl; by bools|].
  destruct (v =? orderstatus.Shipped) eqn:Hv2; [right; simpl; by bools|by left].
Qed.

Lemma upsert_orders row d : orders (upsert_outbox row d) = orders d.
Proof. unfold upsert_outbox. by destruct (existsb _ _). Qed.

Lemma preserves_audit id approve u remark d0 : preserves (X := X) (evolves R d0) (audit_body cfg id approve u remark).
Proof.
  unfold audit_body, exec_refunds. cbv zeta. apply preserves_bind; [apply preserves_attempt; orders_move|].
  intros [[[r o]|]|]; try apply preserves_throw. apply preserves_bind; [apply preserves_require|]. intros _.
  apply preserves_bind; [preserve; orders_move|]. intros _. apply preserves_bind; [|intros _; preserve].
  - destruct approve.
    + preserve; try orders_move; [arrow_ok|apply preserves_compensate].
    + apply preserves_query_bind. intros d. preserve; try orders_move. apply HR.
      destruct (restored d (r_order_id r)) as [->| ->]; (split; [auto with mall|done]).
  - apply preserves_still. intros d. apply upsert_orders.
Qed.

Lemma keeps_audit id approve u remark x0 : keeps (apart x0) (audit_body cfg id approve u remark).
Proof. unfold audit_body. cbv zeta. keep_apart. apply keeps_compensate. Qed.

Lemma every_audit id approve u remark : every (tame R) (AdminRefundAudit cfg id approve u remark).
Proof.
  unfold AdminRefundAudit. cbv zeta. apply every_andthen; [apply every_demand|]. intros _.
  apply every_andthen; [apply every_tried, tame_raw_db|]. intros _.
  apply every_tx; intros; [apply preserves_audit|apply keeps_audit].
Qed.

Lemma every_poll q : every (tame R) (OrderStatusPoll q).
Proof.
  unfold OrderStatusPoll. cbv zeta. destruct (is_empty _); [done|].
  apply every_whatever; [by apply every_redis|]. intros [v|?]; [|done]. destruct (negb _); [done|].
  apply every_whatever; [by apply every_redis|]. by intros [?|?].
Qed.
End open.

(** ** Calls that close one order *)

(** Of all orders only [id] may be closed. *)
Definition only_closes (id k : string) (s t : Z) : Prop := arrow s t /\ (k <> id -> t <> orderstatus.Closed).

Lemma only_closes_open id : lets_open (only_closes id).
Proof. intros k s t [Ha Hn]. by split. Qed.

Lemma only_closes_forward id k s t : only_closes id k s t -> any_arrow k s t.
Proof. by intros [Ha _]. Qed.

Ltac closes := split; [auto with mall|done].

Lemma preserves_close d0 id e :
  preserves (X := X) (evolves (only_closes id) d0)
    (exec_orders (at_key id (fun o => o_status o =? orderstatus.PendingPayment)) (set_status orderstatus.Closed) e).
Proof.
  apply (preserves_exec_orders _ d0 id any_order _ orderstatus.Closed); [by intros|by intros|closes].
Qed.

Definition branch_order (b : branch) : string :=
  match b with BranchPreDeduct r => pd_OrderId r | BranchCreateOrder r => co_OrderId r | BranchDeduct r => dr_OrderId r end.

Lemma insert_order_evolves R d id o : evolves R d (insert_order id o d).
Proof.
  intros k x Hx. exists x. split; [|done]. simpl.
  destruct (insert_ignore_lookup (fun o' => str_eqb (o_request_id o') (o_request_id o)) id o (orders d) k)
    as [->|(->&Hn&_)]; [done|congruence].
Qed.

Lemma preserves_branch d0 b c runs :
  preserves (X := X) (evolves (only_closes (branch_order b)) d0) (branch_call cfg b c runs).
Proof.
  destruct b as [r|r|r], c; cbn [branch_call branch_order]; cbv zeta.
  - unfold PreDeductRollback, PreDeduct.eval. cbv zeta. preserve.
  - unfold PreDeduct.PreDeduct, evalPreDeduct, ensureRedisStockInitialized, PreDeduct.eval. cbv zeta. preserve.
  - unfold CreateOrderRollback, CallWithDB, rollback_body. preserve; try orders_move;
      apply preserves_run_tx_body; destruct runs as [[]|]; preserve; apply preserves_close.
  - apply preserves_bind; [|intros _; apply preserves_ret].
    unfold OrderCreate.CreateOrder, loadProductMerchantID, CallWithDB, create_order_body, InsertOrderCreatedOutbox.
    cbv zeta. preserve; try orders_move; apply preserves_run_tx_body; destruct runs as [[]|]; preserve; try orders_move;
      (apply preserves_sql; intros d Hd; eapply db_evolves_trans; [exact Hd|]);
      first [apply insert_order_evolves|by apply evolves_same|apply evolves_same; simpl; unfold insert_outbox_ignore; done].
  - apply preserves_call.
  - apply preserves_call.
Qed.

Lemma keeps_branch x0 b c runs : keeps (apart x0) (branch_call cfg b c runs).
Proof.
  destruct b as [r|r|r], c; cbn [branch_call]; cbv zeta.
  - apply law_rollback.
  - apply law_pre_deduct.
  - unfold CreateOrderRollback, CallWithDB, rollback_body, raw_db, exec_orders. keep.
  - unfold OrderCreate.CreateOrder, loadProductMerchantID, CallWithDB, create_order_body, InsertOrderCreatedOutbox, raw_db, query.
    keep; try apply keeps_ret. apply keeps_apart_call. intros. apply law_card.
  - apply keeps_apart_call. intros. apply law_deduct_rollback.
  - apply keeps_apart_call. intros. apply law_deduct.
Qed.

Lemma tame_submit gid orderID requestId req :
  tame (only_closes orderID) unit (dtm_Submit (checkout_saga cfg gid orderID requestId req)).
Proof.
  assert (forall b, b ∈ sg_steps (checkout_saga cfg gid orderID requestId req) -> branch_order b = orderID) as Hb.
  { intros b. unfold checkout_saga. simpl. destruct (InventoryOwnsFinalDeduct cfg); simpl; rewrite ?elem_of_cons, elem_of_nil;
      intros Hb; repeat destruct Hb as [->|Hb]; done. }
  split; intros.
  - apply law_submit_db. intros b c runs Hin. rewrite <- (Hb b Hin). apply preserves_branch.
  - apply law_submit_ext. intros. apply keeps_branch.
Qed.

Lemma tame_cancel e id u reason : tame (only_closes id) unit (run_tx e (cancel_body cfg id u reason)).
Proof.
  apply (every_tx (only_closes id) e (cancel_body cfg id u reason)); intros; unfold cancel_body.
  - preserve; [orders_move|apply preserves_close|orders_move|apply preserves_compensate].
  - keep_apart. apply keeps_compensate.
Qed.

Lemma tame_admin_close e id u reason : tame (only_closes id) unit (run_tx e (admin_close_body cfg id u reason)).
Proof.
  apply (every_tx (only_closes id) e (admin_close_body cfg id u reason)); intros; unfold admin_close_body.
  - preserve; [orders_move|orders_move; closes|orders_move|apply preserves_compensate].
  - keep_apart. apply keeps_compensate.
Qed.

Lemma keeps_order_calls x0 r : keeps (apart x0) (order_calls cfg r).
Proof.
  unfold order_calls, saga_handle. destruct r as [r|r|r].
  - apply keeps_handle; [apply apart_inventory|apply apart_others].
  - apply keeps_ignore, law_pre_deduct.
  - apply keeps_ignore, law_rollback.
Qed.

Lemma steps_order_calls r s : steps (db s) (db (order_calls cfg r s).1).
Proof.
  unfold order_calls. replace (saga_handle (order_service cfg) r s).1 with (serve_saga (order_service cfg) [r] s).1.
  - apply steps_serve_saga.
  - unfold serve_saga. simpl. unfold bind. by destruct (saga_handle (order_service cfg) r s) as [s' [[]|]].
Qed.

(** * Orders only move forward *)

Definition forward (B : Type) (m : M DB X error B) : Prop := forall d0, preserves (evolves any_arrow d0) m.

Lemma every_impl {D Y E A} (Q Q' : forall B, M D Y E B -> Prop) (p : prog D Y E A) :
  (forall B m, Q B m -> Q' B m) -> every Q p -> every Q' p.
Proof. intros HQ. induction p as [a|B m k IH]; simpl; [done|]. intros [Hm Hk]. auto. Qed.

Lemma tame_forward R B m : (forall id s t, R id s t -> arrow s t) -> tame R B m -> forward B m.
Proof.
  intros HR [Hd _] d0 s Hs. eapply db_evolves_trans; [exact Hs|]. eapply evolves_impl; [exact HR|].
  apply Hd. apply db_evolves_refl.
Qed.

Lemma open_forward id s t : open_arrow s t -> any_arrow id s t.
Proof. by intros [Ha _]. Qed.

Lemma every_forward {A} (p : prog DB X error A) : every (tame any_arrow) p -> every forward p.
Proof. apply every_impl. intros B m. by apply tame_forward. Qed.

Lemma redis_forward {A} (op : Z -> EntryRedis -> EntryRedis * A) : every forward (redis op).
Proof. apply every_tried. intros d0. preserve. Qed.

(** A call in a program. *)
Ltac call_of lem := apply every_tried; eapply tame_forward; [|lem]; done.

Lemma forward_tried {A} R (m : M DB X error A) : (forall id s t, R id s t -> arrow s t) -> tame R A m -> every forward (tried m).
Proof. intros HR Hm. apply every_tried. by eapply tame_forward. Qed.

Lemma forward_snapshot id : every forward (queryCreateOrderResp cfg id).
Proof. apply every_forward, every_queryCreateOrderResp. Qed.

Lemma forward_next : every forward next_id.
Proof. apply every_tried. intros d0. apply preserves_call. Qed.

Lemma forward_submit id q req : every forward (submit_order cfg id q req).
Proof.
  unfold submit_order. apply every_andthen; [apply every_tried; intros ?; apply preserves_call|]. intros gid.
  apply every_whatever.
  { apply (forward_tried (only_closes id)); [by intros ??? [??]|apply tame_submit]. }
  intros [?|?]; [|apply every_whatever; [apply redis_forward|done]].
  apply every_whatever; [apply redis_forward|]. intros set.
  apply every_whatever; [destruct set; [apply redis_forward|done]|]. intros _.
  apply every_andthen; [apply every_tried; intros ?; apply preserves_get_now|]. intros t.
  apply every_whatever; [apply redis_forward|]. intros _. apply forward_snapshot.
Qed.

Lemma forward_lock q req : every forward (lock_and_submit cfg q req).
Proof.
  unfold lock_and_submit. do 3 (apply every_andthen; [apply every_demand|intros _]).
  apply every_andthen; [destruct (is_empty q); [apply forward_next|done]|]. intros id. cbv zeta.
  apply every_whatever; [apply redis_forward|]. intros [[]|]; [| |done].
  - apply every_andthen; [destruct (is_empty id); [apply forward_next|done]|]. intros id'. apply forward_submit.
  - apply every_whatever; [apply redis_forward|]. intros [c|]; [|done]. destruct (is_empty c); [done|apply forward_snapshot].
Qed.

Lemma forward_create req : every forward (CreateOrder cfg req).
Proof.
  unfold CreateOrder. cbv zeta. destruct (is_empty _); [apply forward_lock|].
  apply every_andthen.
  { unfold FindOneByRequestId. destruct (is_empty _); [done|]. apply every_forward, every_QueryRow. }
  intros [[id o]|]; (apply every_whatever; [apply redis_forward|]).
  - intros _. apply every_whatever; [apply redis_forward|]. intros _. apply forward_snapshot.
  - intros [c|]; [|apply forward_lock]. destruct (is_empty c); [apply forward_lock|apply forward_snapshot].
Qed.

Lemma forward_pay id u : every forward (PayOrder cfg id u).
Proof.
  assert (every forward (paid cfg id)) as Hpaid.
  { apply every_andthen; [apply every_forward, every_confirm|]. intros _. apply every_whatever; [apply redis_forward|done]. }
  unfold PayOrder. apply every_andthen; [apply every_forward, every_owned|]. intros o.
  destruct (o_status o =? orderstatus.Paid); [done|]. apply every_andthen; [apply every_demand|]. intros _.
  apply every_andthen; [|done]. apply (forward_tried any_arrow); [done|]. apply tame_pay. exact open_forward.
Qed.

Lemma forward_close id o : every forward (give_back cfg id o).
Proof.
  unfold give_back. apply every_andthen.
  { destruct (InventoryOwnsFinalDeduct cfg); [done|]. apply every_tried. intros ?. apply preserves_call. }
  intros _. apply every_andthen; [|done]. apply every_tried. intros ?. apply preserves_roll_back.
Qed.

Lemma forward_handle id : every forward (handleCloseOrder cfg id).
Proof.
  unfold handleCloseOrder. apply every_andthen; [apply every_forward, every_QueryRow|]. intros [[k o]|]; [|done].
  destruct (_ =? _); [done|]. destruct (_ && _); [done|]. destruct (_ =? _); [|apply forward_close].
  apply every_andthen.
  { apply every_tried. intros d0 s Hs. eapply db_evolves_trans; [exact Hs|].
    eapply evolves_impl; [apply (only_closes_forward id)|]. apply preserves_close. apply db_evolves_refl. }
  intros n. destruct (n =? 0); [done|apply forward_close].
Qed.

Lemma forward_ack id : every forward (ack id).
Proof. do 2 (apply every_whatever; [apply redis_forward|intros _]). done. Qed.

Lemma forward_consume : every forward (consume cfg).
Proof.
  unfold consume. apply every_andthen; [apply every_tried; intros ?; apply preserves_get_now|]. intros t.
  apply every_whatever; [apply redis_forward|]. intros _. apply every_whatever; [apply redis_forward|].
  intros [id|]; [|done]. destruct (is_empty id); [done|].
  apply every_whatever; [apply forward_handle|]. intros [?|?]; [apply forward_ack|].
  unfold onFailure. apply every_andthen; [apply redis_forward|]. intros n.
  apply every_whatever; [apply redis_forward|]. intros _.
  destruct (_ <? _); (apply every_andthen; [apply every_tried; intros ?; apply preserves_get_now|]; intros t';
    apply every_andthen; [apply redis_forward|]; intros _; apply forward_ack).
Qed.

Lemma forward_body r : every forward (entry_body cfg r).
Proof.
  destruct r; cbn [entry_body]; apply every_chain; try done;
    first [ apply forward_create | apply forward_pay | apply forward_consume | idtac ].
  all: try (apply every_forward;
    first [ apply every_poll | apply every_ship | apply every_receive | apply every_refund
          | apply every_admin_ship | apply every_merchant_ship | apply every_admin_refund | apply every_audit ]; exact open_forward).
  - unfold CancelOrder. cbv zeta. apply every_andthen; [apply every_demand|]. intros _.
    apply every_andthen; [apply every_forward, every_tried, tame_raw_db|]. intros _.
    eapply forward_tried; [|apply tame_cancel]. by intros ??? [??].
  - unfold AdminCloseOrder. cbv zeta. apply every_andthen; [apply every_demand|]. intros _.
    apply every_andthen; [apply every_forward, every_tried, tame_raw_db|]. intros _.
    eapply forward_tried; [|apply tame_admin_close]. by intros ??? [??].
Qed.

Lemma order_calls_forward r s : evolves any_arrow (db s) (db (order_calls cfg r s).1).
Proof. apply steps_evolve, steps_order_calls. Qed.

(** Every process has only such calls before it. *)
Definition forward_pool (s : pool DB X error entry_request) : Prop :=
  map_Forall (fun _ p => every forward (pc_code p)) (processes s).

Lemma forward_exec l (s s' : pool DB X error entry_request) :
  forward_pool s -> exec (entry_body cfg) (order_calls cfg) l s = Some s' ->
  forward_pool s' /\ evolves any_arrow (po_db s) (po_db s').
Proof.
  unfold forward_pool. intros Hs. destruct l as [i r|i fs|i|r fs|n]; simpl.
  - destruct (processes s !! i); [done|]. intros [= <-]. split; [|apply db_evolves_refl].
    apply map_Forall_insert_2; [apply forward_body|done].
  - destruct (processes s !! i) as [p|] eqn:Hi; [|done]. pose proof (Hs i p Hi) as Hp. simpl in Hp.
    destruct (pc_code p) as [u|B m k]; [intros [= <-]; split; [by apply map_Forall_delete|apply db_evolves_refl]|].
    destruct Hp as [Hm Hk]. pose proof (Hm (po_db s) (pool_env s fs) (db_evolves_refl _ _)) as He.
    destruct (m (pool_env s fs)) as [s1 a]. intros [= <-]. split; [|exact He].
    apply map_Forall_insert_2; [apply Hk|exact Hs].
  - intros [= <-]. split; [by apply map_Forall_delete|apply db_evolves_refl].
  - intros [= <-]. split; [exact Hs|]. apply (order_calls_forward r (pool_env s fs)).
  - destruct (0 <=? n); [|done]. intros [= <-]. split; [exact Hs|apply db_evolves_refl].
Qed.

Lemma forward_run ls (s s' : pool DB X error entry_request) :
  forward_pool s -> run (entry_body cfg) (order_calls cfg) ls s = Some s' -> evolves any_arrow (po_db s) (po_db s').
Proof.
  revert s. induction ls as [|l ls IH]; intros s Hs; simpl; [intros [= <-]; apply db_evolves_refl|].
  destruct (exec (entry_body cfg) (order_calls cfg) l s) as [s1|] eqn:He; [|done].
  destruct (forward_exec l s s1 Hs He) as [Hs1 Hev]. intros Hrun. eapply db_evolves_trans; [exact Hev|by apply IH].
Qed.

(** C6 Whatever the requests of the entry API and of the order service, however their
    calls interleave, crash or fail: an order stays in the table, keeps its request,
    user, merchant, product and amount, its status follows the arrows of the life
    cycle (and the one of the administrator, straight to refunded), and once closed,
    completed or refunded it stays that. *)
Theorem orders_move_forward ls (s s' : pool DB X error entry_request) id o :
  processes s = ∅ -> run (entry_body cfg) (order_calls cfg) ls s = Some s' ->
  orders (po_db s) !! id = Some o ->
  exists o', orders (po_db s') !! id = Some o' /\ order_identity o' = order_identity o /\
    rtc arrow (o_status o) (o_status o') /\
    (o_status o = orderstatus.Closed \/ o_status o = orderstatus.Completed \/ o_status o = orderstatus.Refunded ->
     o_status o' = o_status o).
Proof.
  intros Hp Hrun Ho. assert (forward_pool s) as Hs by (intros i p; by rewrite Hp, lookup_empty).
  destruct (forward_run ls s s' Hs Hrun id o Ho) as (o'&Ho'&Hi&Hr). exists o'. split_and!; [done|done|done|].
  by apply arrows_final.
Qed.
End laws.
