(* ===== verification/CloseQueue.v ===== *)
(** An order on the delay queue is not lost: whatever the handlers, close jobs and the
    order service do, and whatever fails, it stays in one of the queues until it is no
    longer pending, and until its stock is back if it was closed. *)

From S2P Require Import Prelude Effects Sql Common OrderStore InventoryKitex OrderCreate PreDeduct OrderSystem OrderSteps EndToEnd Programs EntryOrders CloseOrder CloseSafety.

Section laws.
Context {X : Type} `{HasEntry X, Dtm X, OrdersCache X, OrderIdGen X, StockClient X}.
Context `{InventoryClient X, PaymentProvider X, ProductClient X, HasRedis X}.
Context (cfg : EntryConfig).
Context (issued : X -> gset string) (rolled_back reverted : string -> X -> Prop).
Context `{Hlaws : !EntryLaws cfg issued rolled_back reverted}.
Abbreviation given_back := (given_back cfg rolled_back reverted).
Abbreviation returns_stay := (returns_stay rolled_back reverted).
Abbreviation apart := (apart issued rolled_back reverted).
Abbreviation tame := (tame issued rolled_back reverted).
Abbreviation P A := (prog DB X error (res error A)).

(** * Where an order stands *)

Section order.
Context (o : string).

Definition place (x : X) : option Z * option Z * option Z :=
  let r := get_entry x in (delay_queue r !! o, processing_queue r !! o, dead_letters r !! o).

Definition queued (p : option Z * option Z * option Z) : Prop :=
  is_Some p.1.1 \/ is_Some p.1.2 \/ is_Some p.2.

(** The status of the order satisfies [S]. *)
Definition status_is (S : Z -> Prop) (d : DB) : Prop := exists ord, orders d !! o = Some ord /\ S (o_status ord).

Definition closed : DB -> Prop := status_is (fun s => s = orderstatus.Closed).

(** Nothing is left to do. *)
Definition done_with (d : DB) (x : X) : Prop := status_is settled_status d \/ (closed d /\ given_back o x).

(** ** The processes *)

Inductive stage := Claimed | SawPending | SawClosed | Reverted | Handled | Requeued.

(** A process that works on the close job has until [e]; [n] is the time it has last
    read. *)
Inductive role :=
| Plain
| Paying
| Busy (e n : Z)
| Holding (e n : Z) (st : stage).

Definition role_due (r : role) : option Z :=
  match r with Busy e _ | Holding e _ _ => Some e | _ => None end.

Definition clock (t : Z) (r : role) : Prop :=
  match r with Busy e n | Holding e n _ => e - retryBackoffSeconds <= n /\ n <= t /\ t < e | _ => True end.

Definition holder (r : role) : bool := match r with Holding _ _ _ => true | _ => false end.

(** Nobody else gets the order before the time of its holder is over. *)
Definition held (p : option Z * option Z * option Z) (e : Z) : Prop :=
  p.1.1 = None /\ exists sc, p.1.2 = Some sc /\ e + 25 <= sc.

Definition requeued (d : DB) (x : X) (e : Z) : Prop :=
  (forall sc, (place x).1.1 = Some sc -> e <= sc) /\
  (forall sc, (place x).1.2 = Some sc -> e + 25 <= sc) /\
  (done_with d x \/ is_Some (place x).1.1 \/ is_Some (place x).2).

Definition claim (d : DB) (x : X) (r : role) : Prop :=
  match r with
  | Plain | Busy _ _ => True
  | Paying => status_is settled_status d
  | Holding e _ Claimed => held (place x) e
  | Holding e _ SawPending => held (place x) e /\ (status_is (fun s => s = orderstatus.PendingPayment) d \/ done_with d x)
  | Holding e _ SawClosed => held (place x) e /\ closed d
  | Holding e _ Reverted => held (place x) e /\ closed d /\ (InventoryOwnsFinalDeduct cfg = true \/ reverted o x)
  | Holding e _ Handled => held (place x) e /\ done_with d x
  | Holding e _ Requeued => requeued d x e
  end.

Definition watched (_ : unit) (d : DB) (x : X) (t : Z) (rs : gmap nat role) : Prop :=
  status_is (fun _ => True) d /\
  (done_with d x \/ queued (place x)) /\
  o ∈ issued x /\
  (forall i r, rs !! i = Some r -> claim d x r /\ clock t r) /\
  (forall i j ri rj, rs !! i = Some ri -> rs !! j = Some rj -> holder ri = true -> holder rj = true -> i = j).

(** ** Changes around it *)

(** The order is not closed, unless its stock goes back; its place stays. *)
Record calm (d : DB) (x : X) (d' : DB) (x' : X) : Prop := mkCalm {
  calm_evolves : evolves any_arrow d d';
  calm_open : closed d' -> closed d \/ given_back o x';
  calm_place : place x' = place x;
  calm_issued : issued x ⊆ issued x';
  calm_returns : returns_stay x x'
}.

Lemma status_arrows d d' (S T : Z -> Prop) :
  (forall s t, rtc arrow s t -> S s -> T t) -> evolves any_arrow d d' -> status_is S d -> status_is T d'.
Proof. intros HST He (ord&Ho&Hs). destruct (He o ord Ho) as (ord'&Ho'&_&Hr). exists ord'. split; [done|]. by eapply HST. Qed.

Lemma settled_stays d d' : evolves any_arrow d d' -> status_is settled_status d -> status_is settled_status d'.
Proof. apply status_arrows. apply arrows_settled. Qed.

Lemma closed_stays d d' : evolves any_arrow d d' -> closed d -> closed d'.
Proof. apply status_arrows. intros s t Hr ->. apply (arrows_final _ _ Hr). by left. Qed.

Lemma there_stays d d' : evolves any_arrow d d' -> status_is (fun _ => True) d -> status_is (fun _ => True) d'.
Proof. by apply status_arrows. Qed.

Lemma done_stays d x d' x' : evolves any_arrow d d' -> returns_stay x x' -> done_with d x -> done_with d' x'.
Proof.
  intros He Hr [Hs|[Hc Hg]]; [left; by eapply settled_stays|right].
  split; [by eapply closed_stays|by eapply given_back_stays].
Qed.

Lemma status_cases d : status_is (fun _ => True) d ->
  status_is (fun s => s = orderstatus.PendingPayment) d \/ closed d \/ status_is settled_status d.
Proof.
  intros (ord&Ho&_). destruct (decide (o_status ord = orderstatus.PendingPayment)) as [Hs|Hs]; [left; by exists ord|right].
  destruct (decide (o_status ord = orderstatus.Closed)) as [Hs'|Hs']; [left; by exists ord|right].
  by exists ord.
Qed.

(** Where a pending order gets to. *)
Lemma pending_calm d x d' x' : calm d x d' x' -> status_is (fun s => s = orderstatus.PendingPayment) d ->
  status_is (fun s => s = orderstatus.PendingPayment) d' \/ done_with d' x'.
Proof.
  intros [He Ho _ _ _] Hp.
  assert (status_is (fun _ => True) d') as Ht by (eapply there_stays; [done|]; by destruct Hp as (ord&?&?); exists ord).
  destruct (status_cases d' Ht) as [?|[Hc|?]]; [by left| |right; by left].
  destruct (Ho Hc) as [Hc'|Hg]; [|by right; right].
  destruct Hp as (ord&Ho1&Hs), Hc' as (ord'&Ho2&Hs'). simplify_eq. by rewrite Hs in Hs'.
Qed.

Lemma claim_calm d x d' x' r : calm d x d' x' -> claim d x r -> claim d' x' r.
Proof.
  intros Hc. pose proof Hc as [He Ho Hp Hi Hr].
  assert (done_with d x -> done_with d' x') as Hd by by apply done_stays.
  destruct r as [| |e n|e n []]; simpl; unfold requeued; rewrite ?Hp; try done.
  - by apply settled_stays.
  - intros [Hh [Hpd|Hdn]]; (split; [done|]); [by eapply pending_calm|auto].
  - intros [Hh Hcl]. split; [done|by eapply closed_stays].
  - intros (Hh&Hcl&Hrv). split_and!; [done|by eapply closed_stays|]. destruct (Hr o). destruct Hrv; auto.
  - intros [Hh Hdn]. auto.
  - intros (H1'&H2'&[Hdn|Hq]); split_and!; auto.
Qed.

Lemma watched_calm g d x t rs d' x' : watched g d x t rs -> calm d x d' x' -> watched g d' x' t rs.
Proof.
  intros (Ht&Hl&Hi&Hc&Hu) Hcalm. pose proof Hcalm as [He Ho Hp Hs Hr]. split_and!; [by eapply there_stays| |set_solver| |done].
  - destruct Hl as [Hd|Hq]; [left; by eapply done_stays|right]. by rewrite Hp.
  - intros i r Hir. destruct (Hc i r Hir). split; [by eapply claim_calm|done].
Qed.

(** A process takes a role that fits. *)
Lemma watched_role g d x t rs i l l' :
  watched g d x t rs -> rs !! i = Some l -> claim d x l' -> clock t l' -> (holder l' = true -> holder l = true) ->
  watched g d x t (<[i := l']> rs).
Proof.
  intros (Ht&Hl&Hi&Hc&Hu) Hil Hcl Hck Hh. split_and!; [done..| |].
  - intros j r. destruct (decide (i = j)) as [<-|Hne]; [rewrite lookup_insert_eq; by intros [= <-]|].
    rewrite lookup_insert_ne by done. apply Hc.
  - intros j k rj rk. rewrite !lookup_insert_Some.
    intros [[<- <-]|[Hj1 Hj]] [[<- <-]|[Hk1 Hk]] H1' H2'; [done|..|by eapply Hu].
    + eapply (Hu i k); eauto.
    + eapply (Hu j i); eauto.
Qed.

(** ** Calls that change nothing about it *)

Abbreviation J := watched.
Abbreviation okr := (ok watched role_due).

Lemma apart_calm R d d' x x' :
  (forall id s t, R id s t -> arrow s t) -> (forall s t, R o s t -> open_arrow s t) ->
  status_is (fun _ => True) d -> evolves R d d' -> apart x x' -> calm d x d' x'.
Proof.
  intros HR Hopen (ord&Ho&_) He (Hq&Hi&Hr). split; [by eapply evolves_impl| |unfold place; by injection Hq as -> -> ->|by rewrite Hi|done].
  intros (ord'&Ho'&Hc). destruct (He o ord Ho) as (ord2&Ho2&_&Hrt). assert (ord2 = ord') as -> by congruence.
  left. exists ord. split; [done|]. destruct (decide (o_status ord = orderstatus.Closed)) as [?|Hne]; [done|].
  exfalso. eapply open_arrows_open; [|exact Hne|exact Hc]. eapply rtc_impl; [|exact Hrt]. auto.
Qed.

Lemma quiet_tame R B m :
  (forall id s t, R id s t -> arrow s t) -> (forall s t, R o s t -> open_arrow s t) -> tame R B m -> quiet J m.
Proof.
  intros HR Ho [Hd Hx] g d x t rs fs HJ. eapply watched_calm; [exact HJ|].
  eapply (apart_calm R); [done|done|by destruct HJ|apply (Hd d (mkEnv d x t fs)), db_evolves_refl|].
  apply (Hx x (mkEnv d x t fs)), apart_refl.
Qed.

Lemma quiet_open B m : tame (fun _ => open_arrow) B m -> quiet J m.
Proof. apply quiet_tame; [by intros ??? [??]|done]. Qed.

Lemma quiet_only c B m : c <> o -> tame (only_closes c) B m -> quiet J m.
Proof. intros Hc. apply quiet_tame; [by intros ??? [??]|]. intros s t [Ha Hn]. split; [done|]. apply Hn. congruence. Qed.

Lemma lets_open_open : lets_open (fun _ => open_arrow).
Proof. by intros id s t. Qed.

Lemma every_quiet {A} (p : prog DB X error A) : every (tame (fun _ => open_arrow)) p -> every (fun B m => quiet J m) p.
Proof. apply every_impl. exact quiet_open. Qed.

Lemma ok_open {A} (fin : A -> role -> Prop) p l :
  every (tame (fun _ => open_arrow)) p -> (forall a, fin a l) -> okr fin p l.
Proof. intros Hp. by apply ok_every, every_quiet. Qed.

(** A command of Redis: done and answered, or done without an answer, or not done. *)
Lemma ok_redis {A} (fin : res error A -> role -> Prop) (op : Z -> EntryRedis -> EntryRedis * A) l :
  (forall g d x t rs i, J g d x t rs -> rs !! i = Some l ->
     let '(r, a) := op t (get_entry x) in
     (exists l', role_due l' = role_due l /\ J g d (put_entry r x) t (<[i := l']> rs) /\ fin (Ok a) l') /\
     (exists l', role_due l' = role_due l /\ J g d (put_entry r x) t (<[i := l']> rs) /\ fin (Err call_failed) l')) ->
  fin (Err call_failed) l -> okr fin (redis op) l.
Proof.
  intros Hop Hf. apply ok_do. intros g d x t rs i fs HJ Hi. specialize (Hop g d x t rs i HJ Hi).
  unfold bind, get_now, call, pop_fault. destruct (op t (get_entry x)) as [r a] eqn:Hra. destruct Hop as [Ha He].
  destruct fs as [|[] fs]; simpl; rewrite ?Hra; [exact Ha|exact Ha| |exact He]. exists l. rewrite insert_id by done. done.
Qed.

Lemma put_place r x : place (put_entry r x) = (delay_queue r !! o, processing_queue r !! o, dead_letters r !! o).
Proof. unfold place. by rewrite (law_get_put cfg issued rolled_back reverted). Qed.

Definition spot (r : EntryRedis) : option Z * option Z * option Z :=
  (delay_queue r !! o, processing_queue r !! o, dead_letters r !! o).

Lemma put_calm d r x : spot r = place x -> calm d x d (put_entry r x).
Proof.
  intros Hs. destruct (law_put cfg issued rolled_back reverted r x) as [Hi Hr]. split; [apply db_evolves_refl|auto|by rewrite put_place|by rewrite Hi|done].
Qed.

Lemma ok_redis_elsewhere {A} (fin : res error A -> role -> Prop) (op : Z -> EntryRedis -> EntryRedis * A) l :
  (forall t r, spot (op t r).1 = spot r) -> (forall r, fin r l) -> okr fin (redis op) l.
Proof.
  intros Hop Hf. apply ok_redis; [|done]. intros g d x t rs i HJ Hi. specialize (Hop t (get_entry x)).
  destruct (op t (get_entry x)) as [r a]. simpl in Hop.
  assert (J g d (put_entry r x) t (<[i := l]> rs)) as HJ'.
  { rewrite insert_id by done. eapply watched_calm; [exact HJ|]. by apply put_calm. }
  split; exists l; done.
Qed.

(** The time. *)
Definition at_time (r : role) (n : Z) : role :=
  match r with Busy e _ => Busy e n | Holding e _ st => Holding e n st | _ => r end.

Lemma ok_now (fin : res error Z -> role -> Prop) l :
  (forall n, (match l with Busy e _ | Holding e _ _ => e - retryBackoffSeconds <= n | _ => True end) -> fin (Ok n) (at_time l n)) ->
  okr fin (tried get_now) l.
Proof.
  intros Hf. apply ok_do. intros g d x t rs i fs HJ Hi. simpl.
  pose proof HJ as (_&_&_&Hc&_). destruct (Hc i l Hi) as [Hcl Hck].
  exists (at_time l t). split_and!; [by destruct l|eapply watched_role; [exact HJ|exact Hi|by destruct l as [| | |? ? []]|destruct l; simpl in *; lia|by destruct l]|].
  apply Hf. destruct l; simpl in *; lia.
Qed.

Lemma ok_demand (fin : res error unit -> role -> Prop) b e l : (b = true -> fin (Ok tt) l) -> fin (Err e) l -> okr fin (demand b e) l.
Proof. intros H1' H2'. destruct b; simpl; auto. Qed.

(** A call that finishes a role. *)
Lemma ok_step {A} (fin : res error A -> role -> Prop) (m : M DB X error A) l :
  quiet J m ->
  (forall g d x t rs i fs, J g d x t rs -> rs !! i = Some l ->
     let '(s', r) := m (mkEnv d x t fs) in
     exists l', role_due l' = role_due l /\ claim (db s') (ext s') l' /\ clock t l' /\ (holder l' = true -> holder l = true) /\ fin r l') ->
  okr fin (tried m) l.
Proof.
  intros Hq Hm. apply ok_do. intros g d x t rs i fs HJ Hi. specialize (Hm g d x t rs i fs HJ Hi).
  pose proof (Hq g d x t rs fs HJ) as HJ'. destruct (m (mkEnv d x t fs)) as [s' r].
  destruct Hm as (l'&Hdue&Hcl&Hck&Hh&Hfin). exists l'. split_and!; [done| |done]. by eapply watched_role.
Qed.

(** * The handlers *)

Lemma done_settled d x : status_is settled_status d -> done_with d x.
Proof. by left. Qed.

Lemma ok_true {A} (p : prog DB X error A) l : every (tame (fun _ => open_arrow)) p -> okr (fun _ _ => True) p l.
Proof. intros Hp. by apply ok_open. Qed.

(** ** Creating other orders *)

Lemma ok_next (fin : res error string -> role -> Prop) :
  (forall id, id <> o -> fin (Ok id) Plain) -> fin (Err call_failed) Plain -> okr fin next_id Plain.
Proof.
  intros Hf He. apply ok_do. intros g d x t rs i fs HJ Hi.
  pose proof (law_next cfg issued rolled_back reverted x) as Hn. pose proof HJ as (_&_&Hio&_).
  assert (forall x' id, NextID x = (x', id) -> J g d x' t (<[i := Plain]> rs) /\ id <> o) as Hnext.
  { intros x' id Hx. rewrite Hx in Hn. destruct Hn as (Hq&Hr&Hnew&_&Hiss). split; [|set_solver].
    rewrite insert_id by done. apply (watched_calm g d x); [done|].
    split; [apply db_evolves_refl|auto|unfold place; by injection Hq as -> -> ->|rewrite Hiss; set_solver|done]. }
  unfold call, pop_fault. destruct (NextID x) as [x' id] eqn:Hx. destruct (Hnext _ _ eq_refl) as [HJ' Hid].
  destruct fs as [|[] fs]; simpl; rewrite ?Hx; exists Plain; (split_and!; [done| |auto]); try done.
  by rewrite insert_id.
Qed.

Lemma ok_only {A} (fin : res error A -> role -> Prop) c (m : M DB X error A) l :
  c <> o -> tame (only_closes c) A m -> (forall r, fin r l) -> okr fin (tried m) l.
Proof. intros Hc Hm. apply ok_tried_quiet. by eapply quiet_only. Qed.

Lemma ok_snapshot id l : okr (fun _ _ => True) (queryCreateOrderResp cfg id) l.
Proof. by apply ok_true, every_queryCreateOrderResp. Qed.

Lemma ok_submit c q req : c <> o -> okr (fun _ _ => True) (submit_order cfg c q req) Plain.
Proof.
  intros Hc. unfold submit_order. apply ok_andthen. apply ok_tried_quiet.
  { apply quiet_open, tame_ext. intros x. apply (law_gid cfg issued rolled_back reverted). }
  intros [gid|?]; [|done]. apply ok_whatever. eapply ok_only; [exact Hc|by apply tame_submit|].
  intros [[]|?]; apply ok_whatever, ok_redis_elsewhere; [done| |done|intros ?; exact I].
  intros r. apply ok_whatever, allowed_weaken with (fin := fun _ l => l = Plain).
  { intros a l' ->. apply ok_andthen, ok_now. intros n _. apply ok_whatever, ok_redis_elsewhere.
    - intros t r'. unfold spot. simpl. by rewrite lookup_insert_ne.
    - intros _. apply ok_snapshot. }
  destruct r; [by apply ok_redis_elsewhere|done].
Qed.

Lemma ok_lock q req : okr (fun _ _ => True) (lock_and_submit cfg q req) Plain.
Proof.
  unfold lock_and_submit. do 3 (apply ok_andthen, ok_demand; [intros _|done]). cbv zeta.
  apply ok_andthen, allowed_weaken with (fin := fun r l => l = Plain /\ match r with Ok id => id <> o \/ is_empty id = true | Err _ => True end).
  2: { destruct (is_empty q); [apply ok_next; auto|]. simpl. auto. }
  intros [id|?] l; [|done]. intros [-> Hid]. apply ok_whatever, ok_redis_elsewhere.
  { intros t r. destruct (request_lock r !! _); [destruct (_ <? _)|]; done. }
  intros [[]|]; [|apply ok_whatever, ok_redis_elsewhere; [done|]|done].
  - apply ok_andthen, allowed_weaken with (fin := fun r l => l = Plain /\ match r with Ok id => id <> o | Err _ => True end).
    { intros [id'|?] l; [|done]. intros [-> Hid']. by apply ok_submit. }
    destruct (is_empty id) eqn:He; [apply ok_next; auto|]. simpl. destruct Hid; [auto|congruence].
  - intros [c|]; [|done]. destruct (is_empty c); [done|apply ok_snapshot].
Qed.

Lemma ok_create req : okr (fun _ _ => True) (CreateOrder cfg req) Plain.
Proof.
  unfold CreateOrder. cbv zeta. destruct (is_empty _); [apply ok_lock|].
  apply ok_andthen, ok_open.
  { unfold FindOneByRequestId. destruct (is_empty _); [done|]. eapply every_QueryRow; done. }
  intros [[[id ord]|]|?]; [| |done].
  - do 2 (apply ok_whatever, ok_redis_elsewhere; [done|intros _]). apply ok_snapshot.
  - apply ok_whatever, ok_redis_elsewhere; [done|]. intros [c|]; [|apply ok_lock].
    destruct (is_empty c); [apply ok_lock|apply ok_snapshot].
Qed.

(** ** Transactions *)

Lemma triple_any {A} Q0 (m : M DB X error A) : triple Q0 m (fun _ _ => True) (fun _ => True).
Proof. intros s _. by destruct (m s).2. Qed.

Lemma triple_preserves {A} Q (m : M DB X error A) :
  preserves Q m -> triple (fun s => Q (db s)) m (fun _ s => Q (db s)) (fun _ => True).
Proof. intros Hm s Hs. specialize (Hm s Hs). by destruct (m s).2. Qed.

Lemma triple_keeping {A B} Q (m : M DB X error A) (k : A -> M DB X error B) Qf :
  preserves Q m -> (forall a, triple (fun s => Q (db s)) (k a) Qf (fun _ => True)) ->
  triple (fun s => Q (db s)) (bind m k) Qf (fun _ => True).
Proof. intros Hm Hk. eapply triple_bind; [by apply triple_preserves|]. exact Hk. Qed.

Lemma preserves_exec_pay S p f e : preserves (X := X) (status_is S) (exec_payments p f e).
Proof. unfold exec_payments. apply preserves_bind; [apply preserves_get_now|]. intros t. by apply preserves_sql. Qed.

Definition commits {A} (Q : env DB X -> Prop) (r : txend error A) (s : env DB X) : Prop :=
  match r with Commit _ _ => Q s | Rollback _ => False end.

(** What holds of the body when it commits holds afterwards, if anything changed. *)
Lemma run_tx_commits {A} e (body : M DB X error (txend error A)) (Q : DB -> X -> Prop) s :
  triple (fun _ => True) body (commits (fun s => Q (db s) (ext s))) (fun _ => True) ->
  let '(s', r) := run_tx e body s in
  (db s' = db s \/ Q (db s') (ext s')) /\ (is_ok r = true -> Q (db s') (ext s')).
Proof.
  intros Hb. unfold run_tx. pose proof (db_pop_fault s) as Hdb. destruct (pop_fault s) as [[] s1]; simpl in *; [|by split; [left|]..].
  specialize (Hb s1 I). destruct (body s1) as [s2 [[ec a|a]|e']]; simpl in *; [|done|by split; [left|]].
  pose proof (db_pop_fault s2) as Hd2. pose proof (ext_pop_fault s2) as Hx2.
  destruct (pop_fault s2) as [[] s3]; simpl in *; rewrite ?Hd2, ?Hx2; (split; [auto|done]).
Qed.

Lemma moved_paid u : triple (fun _ => True) (pay_body o u) (commits (fun s => status_is settled_status (db s))) (fun _ => True).
Proof.
  unfold pay_body. apply triple_bind with (Q1 := fun _ s => status_is settled_status (db s)); [|intros _].
  - unfold move_order. apply triple_bind with (Q1 := fun n s => n <> 0 -> status_is settled_status (db s)).
    + unfold exec_orders. eapply triple_bind; [apply triple_get_now|]. intros t [d x t' fs] _. unfold sql, pop_fault. simpl.
      destruct fs as [|[] fs]; simpl; try done; rewrite affected_at_key, upd_at_key; cbv beta;
        (destruct (orders d !! o) as [ord|] eqn:Ho; [|by intros ?]);
        (destruct (o_status ord =? orderstatus.PendingPayment) eqn:Hc; simpl; [intros _|done]);
        exists (set_status orderstatus.Paid t ord); simpl; rewrite lookup_insert_eq; done.
    + intros n s Hs. destruct (n =? 0) eqn:Hn; simpl; [done|]. apply Hs. by bools.
  - apply triple_keeping; [apply preserves_exec_pay|]. intros _.
    apply triple_keeping; [by apply preserves_sql|]. intros _. by apply triple_ret.
Qed.

(** A transaction that closes the order gives its stock back. *)
Lemma triple_compensate Q0 p a :
  triple Q0 (compensateClosedOrderInventory cfg p a o) (fun _ s => given_back o (ext s)) (fun _ => True).
Proof.
  apply triple_bind with (Q1 := fun _ s => InventoryOwnsFinalDeduct cfg = true \/ reverted o (ext s)).
  - destruct (InventoryOwnsFinalDeduct cfg); [apply triple_ret; auto|].
    intros s _. unfold revert_stock, call. destruct (pop_fault s) as [[] s']; simpl; try done.
    destruct (prod_RevertStock _ _) as [x [[]|]] eqn:Hr; simpl; [|done].
    right. by apply (law_reverted cfg issued rolled_back reverted (mkDeduct p a o)) in Hr.
  - intros _ s Hs. unfold roll_back_deduction, remote. pose proof (ext_pop_fault s) as Hx.
    destruct (pop_fault s) as [[] s']; simpl in *; try done.
    pose proof (law_rollback cfg issued rolled_back reverted (ext s) (mkPreDeduct o p a) s') as Hk.
    destruct (PreDeductRollback (order_service cfg) (mkPreDeduct o p a) s') as [s2 [[]|]] eqn:Hr; simpl in *; [|done].
    rewrite Hx in Hk. destruct (Hk (apart_refl _ _ _ _)) as (_&_&Hst).
    split; [by apply (law_rolled_back cfg issued rolled_back reverted) in Hr|].
    destruct Hs as [?|Hs]; [by left|right]. by apply Hst.
Qed.

(** From a body: nothing, or the stock is back. *)
Definition gives_back (body : M DB X error (txend error unit)) : Prop :=
  triple (fun _ => True) body (commits (fun s => given_back o (ext s))) (fun _ => True).

Lemma compensated p a (e : error) :
  gives_back (compensateClosedOrderInventory cfg p a o ;;; ret (Commit e tt)).
Proof. eapply triple_bind; [apply triple_compensate|]. intros ?. by apply triple_ret. Qed.

Lemma after_anything {A} (m : M DB X error A) k : (forall a, gives_back (k a)) -> gives_back (bind m k).
Proof. intros Hk. eapply triple_bind; [apply triple_any|]. exact Hk. Qed.

Lemma cancel_gives_back u reason : gives_back (cancel_body cfg o u reason).
Proof.
  unfold cancel_body. apply after_anything. intros [[k ord]|]; [|by apply triple_throw].
  do 3 (apply after_anything; intros _). apply compensated.
Qed.

Lemma admin_close_gives_back u reason : gives_back (admin_close_body cfg o u reason).
Proof.
  unfold admin_close_body. apply after_anything. intros [ord|]; [|by apply triple_throw].
  do 3 (apply after_anything; intros _). apply compensated.
Qed.

Lemma quiet_closing e body : gives_back body -> tame (only_closes o) unit (run_tx e body) -> quiet J (run_tx e body).
Proof.
  intros Hb [Hd Hx] g d x t rs fs HJ. eapply watched_calm; [exact HJ|].
  pose proof (Hd d (mkEnv d x t fs) (db_evolves_refl _ _)) as He.
  destruct (Hx x (mkEnv d x t fs) (apart_refl _ _ _ _)) as (Hq&Hi&Hr).
  pose proof (run_tx_commits e body (fun _ x => given_back o x) (mkEnv d x t fs) Hb) as Hc.
  destruct (run_tx e body _) as [s' r]. simpl in *. destruct Hc as [Hc _]. split.
  - eapply evolves_impl; [|exact He]. apply only_closes_forward.
  - destruct Hc as [->|Hg]; auto.
  - unfold place. by injection Hq as -> -> ->.
  - by rewrite Hi.
  - done.
Qed.

(** ** Paying *)

Lemma ok_owned (fin : res error Order -> role -> Prop) id u l :
  (forall r, fin r l) -> okr fin (owned_order id u) l.
Proof. intros Hf. apply ok_open; [|done]. by apply every_owned. Qed.

(** The order as the payer reads it. *)
Lemma ok_owned_paying u (fin : res error Order -> role -> Prop) :
  (forall ord, o_status ord <> orderstatus.Paid -> fin (Ok ord) Plain) ->
  (forall ord, fin (Ok ord) Paying) -> (forall e l, fin (Err e) l) -> okr fin (owned_order o u) Plain.
Proof.
  intros Hf Hp He. unfold owned_order. apply ok_andthen, ok_demand; [intros _|auto].
  apply ok_andthen, ok_tried_quiet; [by apply quiet_open, tame_raw_db|]. intros [[]|?]; [|auto].
  apply ok_whatever, ok_step with (fin := fun r l => okr fin
    match r with
    | Ok (Some ord) => demand (o_user_id ord =? u) (StatusError PermissionDenied "order does not belong to user") ~;; ret_ok ord
    | _ => ret_err (StatusError NotFound "order not found")
    end l); [by apply quiet_open, tame_query|].
  intros g d x t rs i fs HJ Hi.
  assert (forall b l, role_due l = None -> claim d x l -> holder l = false -> clock t l ->
    (forall ord, orders d !! o = Some ord -> fin (Ok ord) l) ->
    exists l', role_due l' = role_due Plain /\ claim d x l' /\ clock t l' /\ (holder l' = true -> holder Plain = true) /\
      okr fin match (if b : bool then Ok (orders d !! o) else Err DbError) with
        | Ok (Some ord) => demand (o_user_id ord =? u) (StatusError PermissionDenied "order does not belong to user") ~;; ret_ok ord
        | _ => ret_err (StatusError NotFound "order not found")
        end l') as Hgo.
  { intros b l Hdue Hcl Hh Hck Hfin. exists l. split_and!; [done|done|done|by rewrite Hh|].
    destruct b; [|apply He]. destruct (orders d !! o) as [ord|]; [|apply He].
    apply ok_andthen, ok_demand; [intros _|auto]. simpl. auto. }
  assert (exists l, role_due l = None /\ claim d x l /\ holder l = false /\ clock t l /\
    (forall ord, orders d !! o = Some ord -> fin (Ok ord) l)) as (l&H1'&H2'&H3'&H4'&H5').
  { destruct (orders d !! o) as [ord|] eqn:Ho; [|by exists Plain].
    destruct (decide (o_status ord = orderstatus.Paid)) as [Hpd|Hpd].
    - exists Paying. split_and!; [done| |done|done|intros ? [= <-]; auto]. exists ord. split; [done|]. by rewrite Hpd.
    - exists Plain. split_and!; try done. intros ? [= <-]. auto. }
  unfold query, sql, pop_fault. simpl.
  destruct fs as [|[] fs]; simpl; [apply (Hgo true l)|apply (Hgo true l)|apply (Hgo false l)|apply (Hgo false l)]; done.
Qed.

Lemma every_confirm_open id : every (tame (fun _ => open_arrow)) (confirmInventoryDeduct cfg id).
Proof. by apply every_confirm. Qed.

Lemma paying_watched g d x x' t rs i : J g d x t rs -> rs !! i = Some Paying ->
  (place x').1.1 = None -> (place x').1.2 = (place x).1.2 -> (place x').2 = (place x).2 ->
  issued x' = issued x -> returns_stay x x' -> J g d x' t rs.
Proof.
  intros (Ht&Hl&Hi&Hc&Hu) Hpay H1' H2' H3' Hiss Hr. destruct (Hc i Paying Hpay) as [Hset _].
  assert (done_with d x') as Hdn by by left. split_and!; [done|by left|by rewrite Hiss| |done].
  intros j r Hj. destruct (Hc j r Hj) as [Hcl Hck]. split; [|done].
  assert (forall e, held (place x) e -> held (place x') e) as Hh by (intros e [_ Hsc]; by rewrite <- H2' in Hsc).
  destruct r as [| |e n|e n []]; cbn [claim] in *.
  - done.
  - done.
  - done.
  - auto.
  - destruct Hcl. auto.
  - destruct Hcl. auto.
  - destruct Hcl as (?&?&Hrv). split_and!; [auto|done|]. destruct (Hr o). destruct Hrv; auto.
  - destruct Hcl. auto.
  - destruct Hcl as (_&Hsc&_). unfold requeued. rewrite H1', H2'. split_and!; [by intros ?|done|by left].
Qed.

Lemma ok_Zrem_mine : okr (fun _ _ => True) (Zrem_delay o) Paying.
Proof.
  unfold Zrem_delay. apply ok_redis; [|done]. intros g d x t rs i HJ Hi.
  destruct (law_put cfg issued rolled_back reverted (with_delay (delete o (delay_queue (get_entry x))) (get_entry x)) x) as [Hiss Hr].
  assert (J g d (put_entry (with_delay (delete o (delay_queue (get_entry x))) (get_entry x)) x) t (<[i := Paying]> rs)) as HJ'.
  { rewrite insert_id by done. eapply paying_watched; [exact HJ|exact Hi|..]; rewrite ?put_place; simpl; [by rewrite lookup_delete_eq|done..]. }
  split; by exists Paying.
Qed.

Lemma ok_paid_mine : okr (fun _ _ => True) (paid cfg o) Paying.
Proof.
  unfold paid. apply ok_andthen, ok_open; [apply every_confirm_open|]. intros [[]|?]; [|done].
  apply ok_whatever. eapply allowed_weaken; [|apply ok_Zrem_mine]. done.
Qed.

Lemma ok_paid_other c l : c <> o -> okr (fun _ _ => True) (paid cfg c) l.
Proof.
  intros Hc. unfold paid. apply ok_andthen, ok_open; [apply every_confirm_open|]. intros [[]|?]; [|done].
  apply ok_whatever, ok_redis_elsewhere; [|done]. intros t r. unfold spot. simpl. by rewrite lookup_delete_ne.
Qed.

Lemma quiet_pay e id u : quiet J (run_tx e (pay_body id u)).
Proof. apply quiet_open, tame_pay, lets_open_open. Qed.

Lemma ok_pay id u : okr (fun _ _ => True) (PayOrder cfg id u) Plain.
Proof.
  unfold PayOrder. apply ok_andthen. destruct (decide (id = o)) as [->|Hid].
  - apply ok_owned_paying; [| |done].
    + intros ord Hst. destruct (o_status ord =? orderstatus.Paid) eqn:Hs; [by bools|].
      apply ok_andthen, ok_demand; [intros _|done]. apply ok_andthen, ok_step.
      { apply quiet_pay. }
      intros g d x t rs i fs HJ Hi.
      pose proof (run_tx_commits begin_failed (pay_body o u) (fun d _ => status_is settled_status d) (mkEnv d x t fs) (moved_paid u)) as Hc.
      destruct (run_tx begin_failed (pay_body o u) _) as [s' [[]|?]]; destruct Hc as [_ Hc].
      * exists Paying. split_and!; [done|by apply Hc|done|done|apply ok_paid_mine].
      * by exists Plain.
    + intros ord. destruct (_ =? _); [apply ok_paid_mine|]. apply ok_andthen, ok_demand; [intros _|done].
      apply ok_andthen, ok_tried_quiet; [apply quiet_pay|]. intros [[]|?]; [apply ok_paid_mine|done].
  - apply ok_owned. intros [ord|?]; [|done]. destruct (_ =? _); [by apply ok_paid_other|].
    apply ok_andthen, ok_demand; [intros _|done].
    apply ok_andthen, ok_tried_quiet; [apply quiet_pay|]. intros [[]|?]; [by apply ok_paid_other|done].
Qed.

(** ** Closing by hand *)

Lemma ok_cancel id u reason : okr (fun _ _ => True) (CancelOrder cfg id u reason) Plain.
Proof.
  unfold CancelOrder. cbv zeta. apply ok_andthen, ok_demand; [intros _|done].
  apply ok_andthen, ok_tried_quiet; [by apply quiet_open, tame_raw_db|]. intros [[]|?]; [|done].
  apply ok_tried_quiet; [|done]. destruct (decide (trim_space id = o)) as [->|Hid].
  - apply quiet_closing; [apply cancel_gives_back|by apply tame_cancel].
  - by eapply quiet_only; [exact Hid|apply tame_cancel].
Qed.

Lemma ok_admin_close id u reason : okr (fun _ _ => True) (AdminCloseOrder cfg id u reason) Plain.
Proof.
  unfold AdminCloseOrder. cbv zeta. apply ok_andthen, ok_demand; [intros _|done].
  apply ok_andthen, ok_tried_quiet; [by apply quiet_open, tame_raw_db|]. intros [[]|?]; [|done].
  apply ok_tried_quiet; [|done]. destruct (decide (trim_space id = o)) as [->|Hid].
  - apply quiet_closing; [apply admin_close_gives_back|by apply tame_admin_close].
  - by eapply quiet_only; [exact Hid|apply tame_admin_close].
Qed.

(** * The close job *)

(** ** The scripts *)

Lemma claimLua_cases now visibilityAt r :
  claimLua now visibilityAt r = (r, "") \/
  exists c sc, delay_queue r !! c = Some sc /\ sc <= now /\
    claimLua now visibilityAt r =
      (with_processing (<[c := visibilityAt]> (processing_queue r)) (with_delay (delete c (delay_queue r)) r), c).
Proof.
  unfold claimLua. destruct (due_members now (delay_queue r)) as [|c l] eqn:Hd; [by left|right].
  destruct (elem_of_due now (delay_queue r) c) as (sc&Hsc&Hle); [rewrite Hd; by left|]. exists c, sc. split_and!; [done|lia|done].
Qed.

Lemma reclaimLua_cases now limit r :
  spot (reclaimLua now limit r) = spot r \/
  exists sc, processing_queue r !! o = Some sc /\ sc <= now /\
    spot (reclaimLua now limit r) = (Some now, None, dead_letters r !! o).
Proof.
  unfold reclaimLua, spot. simpl. rewrite lookup_foldr_insert, lookup_foldr_delete.
  destruct (decide (o ∈ _)) as [Hin|Hin]; [right|by left].
  apply elem_of_take in Hin as (j&Hj&_). apply list_elem_of_lookup_2, elem_of_due in Hj as (sc&Hsc&Hle). exists sc. split_and!; [done|lia|done].
Qed.

(** ** Nobody holds it when it is due *)

Lemma nobody g d x t rs :
  J g d x t rs -> (exists sc, ((place x).1.1 = Some sc \/ (place x).1.2 = Some sc) /\ sc <= t) ->
  forall i r, rs !! i = Some r -> holder r = false.
Proof.
  intros (_&_&_&Hc&_) (sc&Hq&Hsc) i r Hi. destruct (holder r) eqn:Hh; [|done]. destruct (Hc i r Hi) as [Hcl Hck].
  destruct r as [| |e n|e n st]; try done. cbn [clock] in Hck.
  assert (forall p, held p e -> (p.1.1 = Some sc \/ p.1.2 = Some sc) -> False) as Hno.
  { intros p [Hd (sc'&Hp&Hle)] [Hs|Hs]; [congruence|]. rewrite Hp in Hs. injection Hs as ->. lia. }
  destruct st; cbn [claim] in Hcl; try (exfalso; destruct Hcl; by eapply Hno);
    try (exfalso; by eapply Hno).
  destruct Hcl as (Hd&Hp&_). destruct Hq as [Hq|Hq]; [specialize (Hd _ Hq)|specialize (Hp _ Hq)]; lia.
Qed.

Lemma claim_free d x d' x' r : holder r = false -> evolves any_arrow d d' -> claim d x r -> claim d' x' r.
Proof. destruct r; try done. intros _. apply settled_stays. Qed.

(** Moves while nobody holds it. *)
Lemma watched_free g d x t rs x' :
  J g d x t rs -> (forall i r, rs !! i = Some r -> holder r = false) ->
  queued (place x') -> issued x' = issued x -> J g d x' t rs.
Proof.
  intros (Ht&Hl&Hi&Hc&Hu) Hno Hq Hiss. split_and!; [done|by right|by rewrite Hiss| |done].
  intros i r Hir. destruct (Hc i r Hir) as [Hcl ?]. split; [|done]. eapply claim_free; [by eapply Hno|apply db_evolves_refl|exact Hcl].
Qed.

Lemma watched_take g d x t rs i l :
  J g d x t rs -> (forall j r, rs !! j = Some r -> holder r = false) ->
  claim d x l -> clock t l -> J g d x t (<[i := l]> rs).
Proof.
  intros (Ht&Hl&Hi&Hc&Hu) Hno Hcl Hck. split_and!; [done..| |].
  - intros j r. rewrite lookup_insert_Some. intros [[_ <-]|[_ Hj]]; [done|by apply (Hc j)].
  - intros j k rj rk. rewrite !lookup_insert_Some.
    intros [[<- <-]|[Hj1 Hj]] [[<- <-]|[Hk1 Hk]] H1' H2'; [done|..];
      [apply Hno in Hk|apply Hno in Hj|apply Hno in Hj]; congruence.
Qed.

(** ** Claiming *)

Lemma ok_reclaim (fin : res error unit -> role -> Prop) e n :
  (forall r, fin r (Busy e n)) -> okr fin (reclaimExpired n) (Busy e n).
Proof.
  intros Hf. unfold reclaimExpired. apply ok_redis; [|apply Hf]. intros g d x t rs i HJ Hi.
  assert (J g d (put_entry (reclaimLua n 10 (get_entry x)) x) t (<[i := Busy e n]> rs)) as HJ'.
  { rewrite insert_id by done. destruct (reclaimLua_cases n 10 (get_entry x)) as [Hs|(sc&Hsc&Hle&Hs)].
    - eapply watched_calm; [exact HJ|]. by apply put_calm.
    - assert (n <= t) as Hnt by (destruct HJ as (_&_&_&Hc&_); apply Hc in Hi as [_ ?]; simpl in *; lia).
      eapply watched_free; [exact HJ|eapply nobody; [exact HJ|]|rewrite put_place|by apply (law_put cfg issued rolled_back reverted)].
      + exists sc. split; [by right|lia].
      + change (queued (spot (reclaimLua n 10 (get_entry x)))). rewrite Hs. left. by eexists. }
  split; exists (Busy e n); done.
Qed.

Lemma ok_claim (fin : res error string -> role -> Prop) e n :
  o <> "" -> e - retryBackoffSeconds <= n ->
  (forall r, match r with Ok c => c <> o | Err _ => True end -> fin r (Busy e n)) -> fin (Ok o) (Holding e n Claimed) ->
  okr fin (claimDueOrder n) (Busy e n).
Proof.
  intros Hne Hen Hf Ho. unfold claimDueOrder. apply ok_redis; [|by apply Hf]. intros g d x t rs i HJ Hi.
  destruct (claimLua_cases n (n + visibilityTimeoutSeconds) (get_entry x)) as [->|(c&sc&Hsc&Hle&->)].
  - assert (J g d (put_entry (get_entry x) x) t (<[i := Busy e n]> rs)) as HJ'.
    { rewrite insert_id by done. eapply watched_calm; [exact HJ|]. by apply put_calm. }
    split; exists (Busy e n); split_and!; auto.
  - set (r' := with_processing _ _).
    assert (e - retryBackoffSeconds <= n /\ n <= t /\ t < e) as Hck
      by (destruct HJ as (_&_&_&Hc&_); by apply Hc in Hi as [_ ?]).
    destruct (decide (c = o)) as [->|Hc].
    + assert (place (put_entry r' x) = (None, Some (n + visibilityTimeoutSeconds), dead_letters (get_entry x) !! o)) as Hp.
      { rewrite put_place. simpl. by rewrite lookup_delete_eq, lookup_insert_eq. }
      assert (forall j r, rs !! j = Some r -> holder r = false) as Hno.
      { eapply nobody; [exact HJ|]. exists sc. split; [by left|lia]. }
      assert (J g d (put_entry r' x) t rs) as HJ'.
      { eapply watched_free; [exact HJ|exact Hno| |by apply (law_put cfg issued rolled_back reverted)]. rewrite Hp. right. left. by eexists. }
      split; [exists (Holding e n Claimed)|exists (Busy e n)]; (split_and!; [done| |auto]).
      * apply watched_take; [done|done| |done]. simpl. rewrite Hp. split; [done|]. eexists. split; [done|].
        unfold visibilityTimeoutSeconds, retryBackoffSeconds in *. lia.
      * by apply watched_take.
    + assert (J g d (put_entry r' x) t (<[i := Busy e n]> rs)) as HJ'.
      { rewrite insert_id by done. eapply watched_calm; [exact HJ|]. apply put_calm. unfold spot. simpl.
        rewrite lookup_delete_ne, lookup_insert_ne by done. done. }
      split; exists (Busy e n); (split_and!; [done|done|by apply Hf]).
Qed.

(** ** Handling *)

(** What the holder does: only its own claim is at stake. *)
Lemma watched_hold g d x t rs i e n st d' x' l' :
  J g d x t rs -> rs !! i = Some (Holding e n st) -> evolves any_arrow d d' -> issued x' = issued x ->
  done_with d' x' \/ queued (place x') -> claim d' x' l' -> clock t l' -> J g d' x' t (<[i := l']> rs).
Proof.
  intros (Ht&Hl&Hi&Hc&Hu) Hr He Hiss Hq Hcl Hck.
  assert (forall j r, rs !! j = Some r -> j <> i -> holder r = false) as Hno.
  { intros j r Hj Hne. destruct (holder r) eqn:Hh; [|done]. destruct Hne. by eapply (Hu j i). }
  split_and!; [by eapply there_stays|done|by rewrite Hiss| |].
  - intros j r. rewrite lookup_insert_Some. intros [[_ <-]|[Hne Hj]]; [done|]. destruct (Hc j r Hj).
    split; [|done]. eapply claim_free; [eapply Hno; [exact Hj|congruence]|exact He|done].
  - intros j k rj rk. rewrite !lookup_insert_Some.
    intros [[<- <-]|[Hj1 Hj]] [[<- <-]|[Hk1 Hk]] Hhj Hhk; [done|..];
      [apply Hno in Hk; [|congruence]|apply Hno in Hj; [|congruence]|apply Hno in Hj; [|congruence]]; congruence.
Qed.

Lemma tame_calm R {A} (m : M DB X error A) d x t fs :
  (forall id s t, R id s t -> arrow s t) -> (forall s t, R o s t -> open_arrow s t) -> tame R A m ->
  status_is (fun _ => True) d -> calm d x (db (m (mkEnv d x t fs)).1) (ext (m (mkEnv d x t fs)).1).
Proof.
  intros HR Ho [Hd Hx] Ht. eapply (apart_calm R); [done|done|done|apply (Hd d (mkEnv d x t fs)), db_evolves_refl|].
  apply (Hx x (mkEnv d x t fs)), apart_refl.
Qed.

Lemma ok_holding {A} (fin : res error A -> role -> Prop) (m : M DB X error A) e n st :
  tame (fun _ => open_arrow) A m ->
  (forall d x t fs, claim d x (Holding e n st) -> calm d x (db (m (mkEnv d x t fs)).1) (ext (m (mkEnv d x t fs)).1) ->
     status_is (fun _ => True) d ->
     let '(s', r) := m (mkEnv d x t fs) in
     exists st', claim (db s') (ext s') (Holding e n st') /\ fin r (Holding e n st')) ->
  okr fin (tried m) (Holding e n st).
Proof.
  intros Hm Hf. apply ok_step; [by apply quiet_open|]. intros g d x t rs i fs HJ Hi.
  pose proof HJ as (Ht&_&_&Hc&_). destruct (Hc i _ Hi) as [Hcl Hck].
  assert (calm d x (db (m (mkEnv d x t fs)).1) (ext (m (mkEnv d x t fs)).1)) as Hcalm.
  { apply (tame_calm (fun _ => open_arrow)); [by intros ??? [??]|by intros ??|exact Hm|exact Ht]. }
  specialize (Hf d x t fs Hcl Hcalm Ht). destruct (m (mkEnv d x t fs)) as [s' r]. destruct Hf as (st'&Hcl'&Hfin).
  exists (Holding e n st'). by split_and!.
Qed.

Lemma tame_take R key t e : tame R _ (call (cache_take key t) e).
Proof. apply tame_ext. intros x. apply (law_take cfg issued rolled_back reverted). Qed.

Lemma tame_keep R key v t e : tame R _ (call (cache_keep key v t) e).
Proof. apply tame_ext. intros x. apply (law_keep cfg issued rolled_back reverted). Qed.

Lemma tame_revert R p a id : tame R _ (revert_stock p a id).
Proof. apply tame_ext. intros x. apply (law_revert cfg issued rolled_back reverted). Qed.

Lemma tame_roll_back R p a id : tame R _ (roll_back_deduction cfg p a id).
Proof. split; intros; [apply preserves_roll_back|by apply keeps_roll_back]. Qed.

(** A read that the cache does not answer. *)
Context (fresh : forall key t x, match (cache_take key t x).2 with Ok (Some _) => False | _ => True end).
Context (named : o <> "").

Definition stage_of (s : Z) : stage :=
  if s =? orderstatus.PendingPayment then SawPending else if s =? orderstatus.Closed then SawClosed else Handled.

Lemma read_claim d x e n ord :
  claim d x (Holding e n Claimed) -> orders d !! o = Some ord -> claim d x (Holding e n (stage_of (o_status ord))).
Proof.
  intros Hh Ho. unfold stage_of. destruct (o_status ord =? orderstatus.PendingPayment) eqn:Hp; bools.
  - split; [done|]. left. by exists ord.
  - destruct (o_status ord =? orderstatus.Closed) eqn:Hc; bools; (split; [done|]); [by exists ord|left; by exists ord].
Qed.

Lemma ok_FindOne (fin : res error (option (string * Order)) -> role -> Prop) e n :
  (forall ord n, fin (Ok (Some (o, ord))) (Holding e n (stage_of (o_status ord)))) ->
  (forall err n, fin (Err err) (Holding e n Claimed)) ->
  okr fin (FindOne o) (Holding e n Claimed).
Proof.
  intros Hf He. unfold FindOne, QueryRow. apply ok_andthen, ok_now. intros n' _. cbn [at_time].
  apply ok_andthen, ok_holding; [apply tame_take|].
  intros d x t fs Hcl Hcalm _.
  pose proof (fresh ("cache:orders:id:" +:+ o) n' x) as Hfr.
  assert (match (call (cache_take ("cache:orders:id:" +:+ o) n') call_failed (mkEnv d x t fs)).2 with Ok (Some _) => False | _ => True end) as Hr.
  { unfold call, pop_fault. destruct fs as [|[] fs]; simpl; try done; by destruct (cache_take _ _ _). }
  destruct (call _ _ _) as [s' r]. exists Claimed. split; [by eapply (claim_calm _ _ _ _ (Holding e n' Claimed))|].
  destruct r as [[row|]|err]; [done| |apply He]. clear dependent d x fs s'.
  apply ok_andthen, ok_holding; [by apply tame_query|]. intros d x t' fs Hcl Hcalm (ord&Ho&_).
  assert (exists st', claim d x (Holding e n' st') /\
    okr fin (tried (call (cache_keep ("cache:orders:id:" +:+ o) (Some (o, ord)) n') call_failed) ~? ret_ok (Some (o, ord))) (Holding e n' st')) as Hok.
  { exists (stage_of (o_status ord)). split; [by apply read_claim|]. apply ok_whatever, ok_open; [|intros; simpl; auto].
    apply every_tried, tame_keep. }
  unfold query, sql, by_id, pop_fault.
  destruct fs as [|[] fs]; simpl; rewrite ?Ho; first [exact Hok|exists Claimed; auto].
Qed.

(** The UPDATE that closes it. *)
Lemma ok_closing (fin : res error Z -> role -> Prop) e n :
  (forall k, k <> 0 -> fin (Ok k) (Holding e n SawClosed)) -> fin (Ok 0) (Holding e n Handled) ->
  (forall err st, st <> Requeued -> fin (Err err) (Holding e n st)) ->
  okr fin (tried (exec_orders (at_key o (fun ord => o_status ord =? orderstatus.PendingPayment)) (set_status orderstatus.Closed) DbError))
    (Holding e n SawPending).
Proof.
  intros Hk H0' He. apply ok_do. intros g d x t rs i fs HJ Hi.
  pose proof HJ as ((ord&Ho&_)&_&_&Hc&_). destruct (Hc i _ Hi) as [[Hh Hpd] Hck].
  assert (forall d' st', evolves any_arrow d d' -> claim d' x (Holding e n st') -> J g d' x t (<[i := Holding e n st']> rs)) as Hgo.
  { intros d' st' Hev Hcl'. eapply watched_hold; [exact HJ|exact Hi|exact Hev|done| |exact Hcl'|exact Hck].
    right. destruct Hh as (_&sc&Hsc&_). right. left. by eexists. }
  assert (evolves any_arrow d d) as Hrefl by apply db_evolves_refl.
  assert (J g d x t (<[i := Holding e n SawPending]> rs)) as Hsame by by apply Hgo.
  unfold exec_orders, bind, get_now, sql, pop_fault.
  destruct (o_status ord =? orderstatus.PendingPayment) eqn:Hp.
  - set (d' := with_orders (<[o := set_status orderstatus.Closed t ord]> (orders d)) d).
    assert (J g d' x t (<[i := Holding e n SawClosed]> rs)) as Hclosed.
    { apply Hgo.
      - eapply evolves_set; [exact Ho|done|]. bools. rewrite Hp. apply rtc_once. unfold any_arrow. simpl. auto with mall.
      - split; [done|]. exists (set_status orderstatus.Closed t ord). split; [|done]. simpl. by rewrite lookup_insert_eq. }
    assert (set_status orderstatus.Closed t ord <> ord) as Hne by (intros Heq; bools; rewrite <- Heq in Hp; done).
    destruct fs as [|[] fs]; simpl; rewrite ?affected_at_key, ?upd_at_key, ?Ho, ?Hp, ?(bool_decide_eq_false_2 _ Hne); simpl;
      [exists (Holding e n SawClosed)|exists (Holding e n SawClosed)|exists (Holding e n SawPending)|exists (Holding e n SawClosed)];
      (split_and!; [done|done|]); first [by apply Hk|by apply He].
  - assert (J g d x t (<[i := Holding e n Handled]> rs)) as Hhandled.
    { apply Hgo; [done|]. split; [done|]. destruct Hpd as [(ord'&Ho'&Hs)|?]; [|done].
      simplify_eq. bools. done. }
    assert (with_orders (orders d) d = d) as Hd by by destruct d.
    destruct fs as [|[] fs]; simpl; rewrite ?affected_at_key, ?upd_at_key, ?Ho, ?Hp; simpl; rewrite ?Hd;
      [exists (Holding e n Handled)|exists (Holding e n Handled)|exists (Holding e n SawPending)|exists (Holding e n SawPending)];
      (split_and!; [done|done|]); first [exact H0'|by apply He].
Qed.

(** Ready for the last step. *)
Definition ready (l : role) (e n : Z) : Prop :=
  l = Holding e n Reverted \/ (l = Holding e n SawClosed /\ InventoryOwnsFinalDeduct cfg = true).

Lemma ok_roll_back (fin : res error unit -> role -> Prop) p a e n l :
  ready l e n -> fin (Ok tt) (Holding e n Handled) ->
  (forall err st, st <> Requeued -> fin (Err err) (Holding e n st)) ->
  okr fin (tried (roll_back_deduction cfg p a o)) l.
Proof.
  intros Hl Hok He.
  assert (exists st, l = Holding e n st /\ st <> Requeued /\ forall d x, claim d x l ->
    held (place x) e /\ closed d /\ (InventoryOwnsFinalDeduct cfg = true \/ reverted o x)) as (st&->&Hst&Hcl).
  { destruct Hl as [->|[-> Hown]]; [by exists Reverted|]. exists SawClosed. split_and!; [done|done|].
    intros d x [Hh Hc]. auto. }
  apply ok_holding; [apply tame_roll_back|]. intros d x t fs Hclaim Hcalm _.
  pose proof (claim_calm _ _ _ _ (Holding e n st) Hcalm Hclaim) as Hclaim'. destruct (Hcl _ _ Hclaim') as (Hh&Hc&Hrv).
  assert ((roll_back_deduction cfg p a o (mkEnv d x t fs)).2 = Ok tt ->
    rolled_back o (ext (roll_back_deduction cfg p a o (mkEnv d x t fs)).1)) as Hrb.
  { unfold roll_back_deduction, remote. destruct (pop_fault _) as [[] s']; simpl; [|done..].
    destruct (PreDeductRollback _ _ s') as [s2 r] eqn:Hpd; simpl; intros ->.
    by apply (law_rolled_back cfg issued rolled_back reverted) in Hpd. }
  destruct (roll_back_deduction cfg p a o (mkEnv d x t fs)) as [s' [[]|err]]; simpl in *.
  - exists Handled. split; [|done]. split; [done|]. right. split; [done|]. split; [by apply Hrb|done].
  - exists st. split; [done|]. by apply He.
Qed.

Lemma ok_give_back (fin : res error unit -> role -> Prop) ord e n :
  fin (Ok tt) (Holding e n Handled) -> (forall err st, st <> Requeued -> fin (Err err) (Holding e n st)) ->
  okr fin (give_back cfg o ord) (Holding e n SawClosed).
Proof.
  intros Hok He. unfold give_back.
  apply ok_andthen, allowed_weaken with (fin := fun r l => match r with Ok _ => ready l e n | Err _ => exists st, l = Holding e n st /\ st <> Requeued end).
  { intros [[]|err] l; [|by intros (st&->&?); apply He]. intros Hr.
    apply ok_andthen. by eapply ok_roll_back. }
  destruct (InventoryOwnsFinalDeduct cfg) eqn:Hown; [by right|].
  apply ok_holding; [apply tame_revert|]. intros d x t fs Hclaim Hcalm _.
  pose proof (claim_calm _ _ _ _ (Holding e n SawClosed) Hcalm Hclaim) as [Hh Hc].
  assert ((revert_stock (o_product_id ord) (o_amount ord) o (mkEnv d x t fs)).2 = Ok tt ->
    reverted o (ext (revert_stock (o_product_id ord) (o_amount ord) o (mkEnv d x t fs)).1)) as Hrv.
  { unfold revert_stock, call. destruct (pop_fault _) as [[] s']; simpl; [|done..].
    destruct (prod_RevertStock _ _) as [x' r] eqn:Hpr; simpl; intros ->.
    by apply (law_reverted cfg issued rolled_back reverted (mkDeduct _ _ o)) in Hpr. }
  destruct (revert_stock _ _ _ _) as [s' [[]|err]]; simpl in *.
  - exists Reverted. split; [|by left]. split_and!; auto.
  - exists SawClosed. split; [done|by eexists].
Qed.

Definition stays_held (r : res error unit) (l : role) : Prop :=
  exists e n st, l = Holding e n st /\ match r with Ok _ => st = Handled | Err _ => st <> Requeued end.

Lemma ok_handle_mine e n : okr stays_held (handleCloseOrder cfg o) (Holding e n Claimed).
Proof.
  unfold handleCloseOrder. apply ok_andthen, ok_FindOne; [|by intros err n'; exists e, n', Claimed].
  intros ord n'. unfold stage_of. destruct (o_status ord =? orderstatus.PendingPayment) eqn:Hp.
  - bools. rewrite Hp. change (orderstatus.PendingPayment =? orderstatus.Paid) with false.
    change (orderstatus.PendingPayment =? orderstatus.PendingPayment) with true. cbn [negb andb].
    apply ok_andthen, ok_closing.
    + intros k Hk. destruct (k =? 0) eqn:Hk0; [by bools|].
      apply ok_give_back; [by exists e, n', Handled|by intros err st ?; exists e, n', st].
    + by exists e, n', Handled.
    + by intros err st ?; exists e, n', st.
  - destruct (o_status ord =? orderstatus.Closed) eqn:Hc.
    + bools. rewrite Hc. change (orderstatus.Closed =? orderstatus.Paid) with false.
      change (orderstatus.Closed =? orderstatus.Closed) with true. cbn [negb andb]. rewrite Hc in Hp. rewrite ?Hp. cbn [negb andb].
      apply ok_give_back; [by exists e, n', Handled|by intros err st ?; exists e, n', st].
    + destruct (o_status ord =? orderstatus.Paid); simpl; by exists e, n', Handled.
Qed.

(** ** Acknowledging and putting back *)

Lemma claim_held d x e n st : st <> Requeued -> claim d x (Holding e n st) -> held (place x) e.
Proof. intros Hst Hcl. destruct st; cbn [claim] in Hcl; [exact Hcl|apply Hcl..|done]. Qed.

Lemma ok_del_retry (fin : res error unit -> role -> Prop) id l :
  (forall r, fin r l) -> okr fin (Del_retry id) l.
Proof. intros Hf. by apply ok_redis_elsewhere. Qed.

Lemma ok_ack_mine e n st : st = Handled \/ st = Requeued -> okr (fun _ _ => True) (ack o) (Holding e n st).
Proof.
  intros Hst. unfold ack.
  assert (forall l, okr (fun _ _ => True) (Del_retry o ~? ret_ok tt) l) as Hrest.
  { intros l. by apply ok_whatever, ok_del_retry. }
  apply ok_whatever, ok_redis; [|apply Hrest]. intros g d x t rs i HJ Hi.
  set (r' := with_processing _ _). pose proof HJ as (_&_&_&Hc&_). destruct (Hc i _ Hi) as [Hcl Hck].
  destruct (law_put cfg issued rolled_back reverted r' x) as [Hiss Hr].
  assert (J g d (put_entry r' x) t (<[i := Busy e n]> rs)) as HJ'.
  { eapply watched_hold; [exact HJ|exact Hi|apply db_evolves_refl|done| |done|exact Hck].
    assert (done_with d x \/ is_Some (place x).1.1 \/ is_Some (place x).2) as [Hdn|Hq].
    { destruct Hst as [->| ->]; [left; by destruct Hcl|by destruct Hcl as (_&_&?)]. }
    - left. eapply done_stays; [apply db_evolves_refl|exact Hr|exact Hdn].
    - right. rewrite put_place. destruct Hq as [?|?]; [by left|by right; right]. }
  split; by exists (Busy e n).
Qed.

(** Back on a queue, before it is off the other. *)
Lemma ok_put_back (fin : res error unit -> role -> Prop) (op : Z -> EntryRedis -> EntryRedis * unit) e n st :
  st <> Requeued ->
  (forall t r, (op t r).2 = tt /\ (spot (op t r).1).1.2 = processing_queue r !! o /\
     ((exists sc, delay_queue (op t r).1 !! o = Some sc /\ e <= sc) \/
      (delay_queue (op t r).1 !! o = delay_queue r !! o /\ is_Some (dead_letters (op t r).1 !! o)))) ->
  (forall l, fin (Err call_failed) l) -> fin (Ok tt) (Holding e n Requeued) -> okr fin (redis op) (Holding e n st).
Proof.
  intros Hst Hop He Hf. apply ok_redis; [|apply He]. intros g d x t rs i HJ Hi.
  pose proof HJ as (_&_&_&Hc&_). destruct (Hc i _ Hi) as [Hcl Hck].
  pose proof (claim_held _ _ _ _ _ Hst Hcl) as (Hd&sc&Hsc&Hle).
  destruct (Hop t (get_entry x)) as (Htt&Hp&Hq). destruct (op t (get_entry x)) as [r []]. simpl in *.
  assert (is_Some (delay_queue r !! o) \/ is_Some (dead_letters r !! o)) as Hin.
  { destruct Hq as [(s&Hs&_)|[_ ?]]; [left; by eexists|by right]. }
  assert (J g d (put_entry r x) t (<[i := Holding e n Requeued]> rs)) as HJ'.
  { eapply watched_hold; [exact HJ|exact Hi|apply db_evolves_refl|by apply (law_put cfg issued rolled_back reverted)| | |exact Hck].
    - right. rewrite put_place. destruct Hin; [by left|by right; right].
    - cbn [claim]. unfold requeued. rewrite put_place. simpl. rewrite Hp, Hsc. split_and!.
      + intros s Hs. destruct Hq as [(s'&Hs'&?)|[Heq _]]; [congruence|]. rewrite Heq, Hd in Hs. done.
      + by intros ? [= <-].
      + by right. }
  split; exists (Holding e n Requeued); done.
Qed.

Lemma ok_incr (fin : res error Z -> role -> Prop) id l : (forall r, fin r l) -> okr fin (Incr_retry id) l.
Proof. intros Hf. apply ok_redis_elsewhere; [|done]. intros t r. destruct (retry_count r !! id) as [[m [ex|]]|]; [destruct (t <? ex)|..]; done. Qed.

Lemma ok_expire (fin : res error unit -> role -> Prop) id n l : (forall r, fin r l) -> okr fin (Expire_retry id n) l.
Proof. intros Hf. apply ok_redis_elsewhere; [|done]. intros t r. by destruct (retry_count r !! id) as [[? ?]|]. Qed.

Lemma ok_onFailure_mine e n st : st <> Requeued -> okr (fun _ _ => True) (onFailure o) (Holding e n st).
Proof.
  intros Hst. unfold onFailure. apply ok_andthen, ok_incr. intros [k|?]; [|done].
  apply ok_whatever, ok_expire. intros _. destruct (maxRetries <? k); apply ok_andthen, ok_now; intros n' Hn'; cbn [at_time];
    apply ok_andthen, ok_put_back; try done; try (by apply ok_ack_mine; right).
  - intros t r. simpl. split_and!; [done|done|right]. split; [done|]. rewrite lookup_insert_eq. by eexists.
  - intros t r. simpl. split_and!; [done|done|left]. exists (n' + retryBackoffSeconds). rewrite lookup_insert_eq. split; [done|lia].
Qed.

(** ** Another order *)

Lemma ok_ack_other c l : c <> o -> okr (fun _ _ => True) (ack c) l.
Proof.
  intros Hc. unfold ack. apply ok_whatever, ok_redis_elsewhere; [|by intros _; apply ok_whatever, ok_del_retry].
  intros t r. unfold spot. simpl. by rewrite lookup_delete_ne.
Qed.

Lemma ok_onFailure_other c e n : c <> o -> okr (fun _ _ => True) (onFailure c) (Busy e n).
Proof.
  intros Hc. unfold onFailure. apply ok_andthen, ok_incr. intros [k|?]; [|done].
  apply ok_whatever, ok_expire. intros _. destruct (maxRetries <? k); apply ok_andthen, ok_now; intros n' _; cbn [at_time];
    (apply ok_andthen, ok_redis_elsewhere; [intros t r; unfold spot; simpl; by rewrite ?lookup_insert_ne|]);
    (intros [[]|?]; [by apply ok_ack_other|done]).
Qed.

Lemma ok_give_back_other (fin : res error unit -> role -> Prop) c ord l :
  (forall r, fin r l) -> okr fin (give_back cfg c ord) l.
Proof.
  intros Hf. apply ok_open; [|done]. unfold give_back. apply every_andthen.
  { destruct (InventoryOwnsFinalDeduct cfg); [done|]. apply every_tried, tame_revert. }
  intros _. apply every_andthen; [apply every_tried, tame_roll_back|done].
Qed.

Lemma ok_handle_other (fin : res error unit -> role -> Prop) c l : c <> o -> (forall r, fin r l) -> okr fin (handleCloseOrder cfg c) l.
Proof.
  intros Hc Hf. unfold handleCloseOrder. apply ok_andthen, ok_open; [by eapply every_QueryRow|].
  intros [[[k ord]|]|?]; [|apply Hf..]. destruct (_ =? _); [apply Hf|]. destruct (_ && _); [apply Hf|].
  destruct (_ =? _); [|by apply ok_give_back_other].
  apply ok_andthen, ok_tried_quiet.
  - apply (quiet_only c); [done|]. split; intros; [by apply preserves_close|]. unfold exec_orders. keep.
  - intros [n|?]; [|apply Hf]. destruct (n =? 0); [apply Hf|by apply ok_give_back_other].
Qed.

(** ** One turn *)

Lemma ok_consume e n : okr (fun _ _ => True) (consume cfg) (Busy e n).
Proof.
  unfold consume. apply ok_andthen, ok_now. intros n' Hn'. cbn [at_time].
  apply ok_whatever, ok_reclaim. intros _. apply ok_whatever, ok_claim; [done|done|..].
  - intros [c|?] Hc; [|done]. destruct (is_empty c); [done|]. apply ok_whatever.
    apply ok_handle_other; [done|]. intros [[]|err]; [by apply ok_ack_other|by apply ok_onFailure_other].
  - destruct (is_empty o) eqn:Ho; [by apply str_eqb_eq in Ho|]. apply ok_whatever.
    eapply allowed_weaken; [|apply ok_handle_mine]. intros r l (e'&n2&st&->&Hr).
    destruct r as [[]|err]; [apply ok_ack_mine; by left|by apply ok_onFailure_mine].
Qed.

(** * The system *)

Definition first_role (t : Z) (r : entry_request) : role :=
  match r with ReqConsume => Busy (t + retryBackoffSeconds) t | _ => Plain end.

Lemma ok_finish {A} (p : prog DB X error (res error A)) l : okr (fun _ _ => True) p l -> okr (fun _ _ => True) (finish p) l.
Proof. intros Hp. apply ok_chain. eapply allowed_weaken; [|exact Hp]. done. Qed.

Lemma ok_body t r : okr (fun _ _ => True) (entry_body cfg r) (first_role t r).
Proof.
  destruct r; apply ok_finish; cbn [first_role].
  - apply ok_create.
  - apply ok_true. by eapply every_poll.
  - apply ok_pay.
  - apply ok_true. by eapply every_ship, lets_open_open.
  - apply ok_true. by eapply every_receive, lets_open_open.
  - apply ok_cancel.
  - apply ok_true. by eapply every_refund, lets_open_open.
  - apply ok_true. by eapply every_admin_ship, lets_open_open.
  - apply ok_true. by eapply every_merchant_ship, lets_open_open.
  - apply ok_admin_close.
  - apply ok_true. by eapply every_admin_refund, lets_open_open.
  - apply ok_true. by eapply every_audit, lets_open_open.
  - apply ok_consume.
Qed.

Lemma watched_delete g d x t rs i : J g d x t rs -> J g d x t (delete i rs).
Proof.
  intros (Ht&Hl&Hi&Hc&Hu). split_and!; [done..| |].
  - intros j r [_ Hj]%lookup_delete_Some. by apply (Hc j).
  - intros j k rj rk [_ Hj]%lookup_delete_Some [_ Hk]%lookup_delete_Some. by apply Hu.
Qed.

Lemma watched_start g d x t rs i r : J g d x t rs -> rs !! i = None -> J g d x t (<[i := first_role t r]> rs).
Proof.
  intros (Ht&Hl&Hi&Hc&Hu) Hnone.
  assert (holder (first_role t r) = false) as Hh by by destruct r.
  split_and!; [done..| |].
  - intros j rj. rewrite lookup_insert_Some. intros [[_ <-]|[_ Hj]]; [|by apply (Hc j)].
    destruct r; split; simpl; try done. unfold retryBackoffSeconds. lia.
  - intros j k rj rk. rewrite !lookup_insert_Some.
    intros [[<- <-]|[Hj1 Hj]] [[<- <-]|[Hk1 Hk]] H1' H2'; [done|congruence|congruence|by eapply Hu].
Qed.

Lemma watched_tick g d x t t' rs :
  J g d x t rs -> t <= t' -> (forall i r e, rs !! i = Some r -> role_due r = Some e -> t' < e) -> J g d x t' rs.
Proof.
  intros (Ht&Hl&Hi&Hc&Hu) Hle Hdue. split_and!; [done..| |done].
  intros i r Hr. destruct (Hc i r Hr) as [Hcl Hck]. split; [done|]. specialize (Hdue i r).
  destruct r as [| |e n|e n st]; simpl in *; try done; specialize (Hdue e Hr eq_refl); lia.
Qed.

(** The order service does not close the order. *)
Definition left_open (_ : unit) (l : label entry_request saga_request) (s s' : pool DB X error entry_request) : Prop :=
  match l with LOther _ _ => closed (po_db s') -> closed (po_db s) | _ => True end.

Lemma watched_other g r fs (s : pool DB X error entry_request) :
  left_open g (LOther r fs) s (after_env (po_now s) (order_calls cfg r (pool_env s fs)).1 (processes s)) ->
  forall rs, J g (po_db s) (po_ext s) (po_now s) rs ->
  J g (db (order_calls cfg r (pool_env s fs)).1) (ext (order_calls cfg r (pool_env s fs)).1) (po_now s) rs.
Proof.
  intros Hq rs HJ. eapply watched_calm; [exact HJ|].
  assert (apart (po_ext s) (ext (order_calls cfg r (pool_env s fs)).1)) as (Hqs&Hi&Hr).
  { apply (keeps_order_calls cfg issued rolled_back reverted (po_ext s) r (pool_env s fs)), apart_refl. }
  split; [apply steps_evolve, (steps_order_calls cfg r (pool_env s fs))|left; by apply Hq|unfold place; by injection Hqs as -> -> ->|by rewrite Hi|done].
Qed.

Lemma watched_run ls s s' :
  processes s = ∅ -> o ∈ issued (po_ext s) -> status_is (fun _ => True) (po_db s) -> queued (place (po_ext s)) ->
  run (entry_body cfg) (order_calls cfg) ls s = Some s' ->
  along (entry_body cfg) (order_calls cfg) (prompt entry_limit) ls s ->
  along (entry_body cfg) (order_calls cfg) (left_open tt) ls s ->
  status_is (fun _ => True) (po_db s') /\ (done_with (po_db s') (po_ext s') \/ queued (place (po_ext s'))).
Proof.
  intros Hp Hi Ht Hq Hrun Hprompt Hopen.
  assert (pool_ok entry_limit watched role_due tt s) as Hs.
  { exists ∅. split_and!; [by intros i; rewrite Hp, !lookup_empty|split_and!; try done; [by right|by intros ? ?..]|].
    intros i p l. by rewrite lookup_empty. }
  destruct (pool_ok_run (entry_body cfg) entry_limit (order_calls cfg) watched role_due left_open) with (5 := Hs) (6 := Hrun)
    as (rs&_&(Ht'&Hl'&_)&_); try done.
  - intros. by apply watched_delete.
  - intros g d x t rs i r HJ Hn. exists (first_role t r). split_and!; [by apply watched_start|apply ok_body|by destruct r].
  - intros. by eapply watched_tick.
  - intros. by apply watched_other.
Qed.
End order.

(** * What holds of every run *)

Definition in_a_queue (o : string) (r : EntryRedis) : Prop :=
  is_Some (delay_queue r !! o) \/ is_Some (processing_queue r !! o) \/ is_Some (dead_letters r !! o).

(** C4 An order on the delay queue is not lost, whatever requests of the entry API, turns
    of close jobs and calls of the order service interleave, crash or fail: while it is
    pending it stays on one of the three queues, and once it is closed it is still on
    one of them or its stock has been given back.  The cache answers no read, a turn of
    a close job is over before the backoff, and the order service does not close the
    order itself. *)
Theorem scheduled_order_is_kept o ord ls (s s' : pool DB X error entry_request) :
  (forall key t x, match (cache_take key t x).2 with Ok (Some _) => False | _ => True end) ->
  o <> "" -> processes s = ∅ -> o ∈ issued (po_ext s) ->
  orders (po_db s) !! o = Some ord -> o_status ord = orderstatus.PendingPayment ->
  is_Some (delay_queue (get_entry (po_ext s)) !! o) ->
  run (entry_body cfg) (order_calls cfg) ls s = Some s' ->
  along (entry_body cfg) (order_calls cfg) (prompt entry_limit) ls s ->
  along (entry_body cfg) (order_calls cfg) (left_open o tt) ls s ->
  exists ord', orders (po_db s') !! o = Some ord' /\
    (o_status ord' = orderstatus.PendingPayment -> in_a_queue o (get_entry (po_ext s'))) /\
    (o_status ord' = orderstatus.Closed -> in_a_queue o (get_entry (po_ext s')) \/ given_back o (po_ext s')).
Proof.
  intros Hfresh Hne Hp Hi Ho Hst Hq Hrun Hprompt Hopen.
  destruct (watched_run o Hfresh Hne ls s s') as [(ord'&Ho'&_) Hdone]; [done|done|by exists ord|by left|done..|].
  exists ord'. split; [done|]. destruct Hdone as [[(o2&Ho2&Hset)|[(o2&Ho2&Hcl) Hg]]|Hqd]; [| |by split; auto].
  - assert (o2 = ord') as -> by congruence. destruct Hset. split; intros; congruence.
  - assert (o2 = ord') as -> by congruence. split; [intros Hs; by rewrite Hs in Hcl|by right].
Qed.
End laws.
