(* ===== verification/CloseProgress.v ===== *)
(** The close job gets on: without faults, and with services that answer, a turn deals
    with the first due order, and enough turns close every due order and give its
    stock back; and what [onFailure] does to the counter of retries. *)

From stdpp Require Import sorting.
From S2P Require Import Prelude Effects Sql Common OrderStore InventoryKitex OrderCreate PreDeduct OrderSystem OrderSteps EndToEnd Programs EntryOrders CloseOrder CloseSafety CloseQueue.

Section progress.
Context {X : Type} `{HasEntry X, Dtm X, OrdersCache X, OrderIdGen X, StockClient X}.
Context `{InventoryClient X, PaymentProvider X, ProductClient X, HasRedis X}.
Context (cfg : EntryConfig).
Context (issued : X -> gset string) (rolled_back reverted : string -> X -> Prop).
Context `{Hlaws : !EntryLaws cfg issued rolled_back reverted}.
Abbreviation given_back := (given_back cfg rolled_back reverted).
Abbreviation returns_stay := (returns_stay rolled_back reverted).
Abbreviation P A := (prog DB X error (res error A)).

(** * Programs without faults *)

Abbreviation calm_env d x t := (mkEnv (D := DB) (X := X) d x t []).

Lemma run_now d x t : run_prog (tried get_now : P Z) (calm_env d x t) = (calm_env d x t, Ok t).
Proof. done. Qed.

Lemma run_redis {A} (op : Z -> EntryRedis -> EntryRedis * A) d x t :
  run_prog (redis op) (calm_env d x t) =
    (calm_env d (put_entry (op t (get_entry x)).1 x) t, Ok (op t (get_entry x)).2).
Proof. unfold redis. rewrite run_tried. unfold bind, get_now, call, pop_fault. simpl. by destruct (op t (get_entry x)). Qed.

Lemma get_put r x : get_entry (put_entry r x) = r.
Proof. apply (law_get_put cfg issued rolled_back reverted). Qed.

Lemma put_returns r x : returns_stay x (put_entry r x).
Proof. apply (law_put cfg issued rolled_back reverted). Qed.

Lemma returns_refl x : returns_stay x x.
Proof. by intros o. Qed.

Lemma returns_trans x1 x2 x3 : returns_stay x1 x2 -> returns_stay x2 x3 -> returns_stay x1 x3.
Proof. intros H12 H23 o. destruct (H12 o), (H23 o). auto. Qed.

(** * A failed turn *)

(** What the counter of an order says now. *)
Definition counted (t : Z) (r : EntryRedis) (id : string) : Z :=
  match retry_count r !! id with
  | Some (n, Some e) => if t <? e then n else 0
  | Some (n, None) => n
  | None => 0
  end.

Ltac run_step := first [ rewrite run_whatever | rewrite run_andthen | rewrite run_redis | rewrite run_now ]; cbv beta iota.

Lemma run_ack id d x t : exists x',
  run_prog (ack id) (calm_env d x t) = (calm_env d x' t, Ok tt) /\ returns_stay x x' /\
  get_entry x' = with_retry (delete id (retry_count (get_entry x)))
                   (with_processing (delete id (processing_queue (get_entry x))) (get_entry x)).
Proof.
  unfold ack, Zrem_processing, Del_retry. repeat run_step. eexists. split_and!; [done| |by rewrite !get_put].
  eapply returns_trans; apply put_returns.
Qed.

(** The queues and nothing of the counters. *)
Definition same_queues (r r' : EntryRedis) : Prop := queues r' = queues r.

Lemma run_incr id d x t : exists x',
  run_prog (Incr_retry id) (calm_env d x t) = (calm_env d x' t, Ok (counted t (get_entry x) id + 1)) /\
  same_queues (get_entry x) (get_entry x') /\ returns_stay x x'.
Proof.
  unfold Incr_retry. rewrite run_redis. unfold counted.
  destruct (retry_count (get_entry x) !! id) as [[m [e|]]|]; [destruct (t <? e)|..]; simpl;
    eexists; (split_and!; [done|by rewrite get_put|apply put_returns]).
Qed.

Lemma run_expire id n d x t : exists x' a,
  run_prog (Expire_retry id n) (calm_env d x t) = (calm_env d x' t, Ok a) /\
  same_queues (get_entry x) (get_entry x') /\ returns_stay x x'.
Proof.
  unfold Expire_retry. rewrite run_redis.
  destruct (retry_count (get_entry x) !! id) as [[m e]|]; simpl;
    eexists _, _; (split_and!; [done|by rewrite get_put|apply put_returns]).
Qed.

(** Without faults a failed turn takes the order off the processing queue and puts it
    on the delay queue for five seconds later, or on the dead-letter queue after five
    failures; but in both cases the count of its failures is gone. *)
Theorem failure_forgets_its_count id d x t :
  exists x', run_prog (onFailure id) (calm_env d x t) = (calm_env d x' t, Ok tt) /\
    let r := get_entry x in let r' := get_entry x' in
    processing_queue r' = delete id (processing_queue r) /\
    counted t r' id = 0 /\
    (if maxRetries <=? counted t r id then
       dead_letters r' = <[id := t]> (dead_letters r) /\ delay_queue r' = delay_queue r
     else
       dead_letters r' = dead_letters r /\ delay_queue r' = <[id := t + retryBackoffSeconds]> (delay_queue r)).
Proof.
  unfold onFailure. rewrite run_andthen.
  destruct (run_incr id d x t) as (x1&->&Hq1&_). cbv beta iota. rewrite run_whatever.
  destruct (run_expire id (24 * 60 * 60) d x1 t) as (x2&a&->&Hq2&_). cbv beta iota.
  assert (queues (get_entry x2) = queues (get_entry x)) as Hq by (unfold same_queues in *; congruence).
  injection Hq as Hd Hp Hdead. set (n := counted t (get_entry x) id).
  replace (maxRetries <? n + 1) with (maxRetries <=? n) by (unfold maxRetries; lia).
  destruct (maxRetries <=? n); unfold Zadd_dead, Zadd_delay;
    rewrite run_andthen, run_now; cbv beta iota; rewrite run_andthen, run_redis; cbv beta iota;
    match goal with |- context [run_prog (ack id) (calm_env d ?y t)] => destruct (run_ack id d y t) as (x'&->&_&Hx') end;
    rewrite get_put in Hx'; (exists x'; split; [done|]); rewrite Hx'; simpl; unfold counted; simpl;
    rewrite lookup_delete_eq, Hd, Hp, Hdead; done.
Qed.

(** * A turn that succeeds *)

(** The cache has nothing, and the services answer. *)
Class Answering := {
  answer_take key t x : (cache_take key t x).2 = Ok None;
  answer_revert r x : (prod_RevertStock r x).2 = Ok tt;
  answer_release o reason x : (inv_ReleaseStock o reason x).2 = Ok tt
}.
Context `{!Answering}.

Lemma rollback_answers r d x t : pd_OrderId r <> "" -> exists x',
  PreDeductRollback (order_service cfg) r (calm_env d x t) = (calm_env d x' t, Ok tt).
Proof.
  intros Hr. unfold PreDeductRollback. destruct (is_empty (pd_OrderId r)) eqn:He; [by apply str_eqb_eq in He|].
  unfold bind, require. simpl. destruct (has_inventory (order_service cfg)).
  - unfold call, pop_fault. simpl. pose proof (answer_release (pd_OrderId r) "pre_deduct_rollback" x) as Ha.
    destruct (inv_ReleaseStock _ _ x) as [x' a]. simpl in Ha. subst a. by exists x'.
  - cbv zeta. unfold attempt, PreDeduct.eval, call, pop_fault. simpl.
    destruct (rollbackLuaScript _ _ _ _) as [r' a]. by eexists.
Qed.

(** What a call of a service leaves. *)
Definition left_alone (x x' : X) : Prop := same_queues (get_entry x) (get_entry x') /\ returns_stay x x'.

Lemma left_alone_trans x1 x2 x3 : left_alone x1 x2 -> left_alone x2 x3 -> left_alone x1 x3.
Proof. intros [Hq Hr] [Hq' Hr']. split; [unfold same_queues in *; congruence|by eapply returns_trans]. Qed.

Lemma apart_left_alone x x' : apart issued rolled_back reverted x x' -> left_alone x x'.
Proof. by intros (Hq&_&Hr). Qed.

Lemma run_give_back id o d x t : id <> "" -> exists x',
  run_prog (give_back cfg id o) (calm_env d x t) = (calm_env d x' t, Ok tt) /\ left_alone x x' /\ given_back id x'.
Proof.
  intros Hid. unfold give_back. rewrite run_andthen.
  assert (exists x1, run_prog (if InventoryOwnsFinalDeduct cfg then ret_ok tt
      else tried (revert_stock (o_product_id o) (o_amount o) id)) (calm_env d x t) = (calm_env d x1 t, Ok tt) /\
    left_alone x x1 /\ (InventoryOwnsFinalDeduct cfg = true \/ reverted id x1)) as (x1&->&Hl1&Hrv).
  { destruct (InventoryOwnsFinalDeduct cfg); [exists x; split_and!; [done|split; [done|apply returns_refl]|by left]|].
    set (q := mkDeduct (o_product_id o) (o_amount o) id). rewrite run_tried. unfold revert_stock, call, pop_fault. simpl. fold q.
    pose proof (answer_revert q x) as Ha. pose proof (law_revert cfg issued rolled_back reverted q x) as Hl.
    destruct (prod_RevertStock q x) as [x1 a] eqn:Hq. simpl in Ha. subst a. exists x1.
    split_and!; [done|by apply apart_left_alone|right]. by apply (law_reverted cfg issued rolled_back reverted q) in Hq. }
  cbv beta iota. rewrite run_andthen, run_tried. unfold roll_back_deduction, remote.
  set (q := mkPreDeduct id (o_product_id o) (o_amount o)). cbn [pop_fault faults].
  destruct (rollback_answers q d x1 t Hid) as [x2 Hq].
  pose proof (law_rollback cfg issued rolled_back reverted x1 q (calm_env d x1 t) (apart_refl _ _ _ _)) as Hl.
  pose proof (law_rolled_back cfg issued rolled_back reverted q _ _ Hq) as Hrb.
  change (pop_fault (calm_env d x1 t)) with (NoFault, calm_env d x1 t). cbv beta iota.
  rewrite Hq in *. simpl in *. exists x2. split_and!; [done|eapply left_alone_trans; [exact Hl1|by apply apart_left_alone]|].
  split; [exact Hrb|]. destruct Hrv as [?|Hrv]; [by left|right]. destruct Hl as (_&_&Hst). by apply Hst.
Qed.

Lemma run_FindOne id d x t : exists x',
  run_prog (FindOne id) (calm_env d x t) = (calm_env d x' t, Ok (by_id id d)) /\ left_alone x x'.
Proof.
  unfold FindOne, QueryRow. rewrite run_andthen, run_now. cbv beta iota. set (key := "cache:orders:id:" +:+ id).
  rewrite run_andthen, run_tried. unfold call at 1, pop_fault. cbn [faults db ext now].
  pose proof (answer_take key t x) as Ha. pose proof (law_take cfg issued rolled_back reverted key t x) as Hl.
  destruct (cache_take key t x) as [x1 a]. simpl in Ha. subst a. unfold set_ext. cbn [faults db ext now].
  rewrite run_andthen, run_tried. unfold query, sql, pop_fault. cbn [faults db ext now]. unfold set_db. cbn [faults db ext now].
  rewrite run_whatever, run_tried. unfold call, pop_fault. cbn [faults db ext now].
  pose proof (law_keep cfg issued rolled_back reverted key (by_id id d) t x1) as Hl2.
  destruct (cache_keep key (by_id id d) t x1) as [x2 a]. exists x2. split; [done|].
  eapply left_alone_trans; by apply apart_left_alone.
Qed.

(** The order [id] is closed if it is pending. *)
Definition close_pending (id : string) (t : Z) (d : DB) : DB :=
  match orders d !! id with
  | Some o => if o_status o =? orderstatus.PendingPayment
              then with_orders (<[id := set_status orderstatus.Closed t o]> (orders d)) d else d
  | None => d
  end.

Definition to_close (id : string) (d : DB) : Prop :=
  exists o, orders d !! id = Some o /\ (o_status o = orderstatus.PendingPayment \/ o_status o = orderstatus.Closed).

Lemma run_handle id d x t : id <> "" -> exists x',
  run_prog (handleCloseOrder cfg id) (calm_env d x t) = (calm_env (close_pending id t d) x' t, Ok tt) /\
  left_alone x x' /\ (to_close id d -> given_back id x').
Proof.
  intros Hid. unfold handleCloseOrder. rewrite run_andthen. destruct (run_FindOne id d x t) as (x1&->&Hl1). cbv beta iota.
  unfold by_id, close_pending, to_close. destruct (orders d !! id) as [o|] eqn:Ho; cbn [fmap option_fmap option_map]; cbv beta iota.
  2: { exists x1. split_and!; [done|done|]. by intros (?&?&_). }
  destruct (o_status o =? orderstatus.Paid) eqn:Hpaid.
  { bools. rewrite Hpaid. exists x1. split_and!; [done|done|]. intros (o'&[= <-]&[Hs|Hs]); by rewrite Hpaid in Hs. }
  destruct (o_status o =? orderstatus.PendingPayment) eqn:Hp; cbn [negb andb].
  - unfold exec_orders. rewrite run_andthen, run_tried.
    assert (set_status orderstatus.Closed t o <> o) as Hne by (intros Heq; bools; rewrite <- Heq in Hp; done).
    unfold bind, get_now, sql, pop_fault, set_db. cbn [faults db ext now].
    rewrite upd_at_key, affected_at_key, Ho, Hp, (bool_decide_eq_false_2 _ Hne). cbn [negb andb]. cbv beta iota. change (1 =? 0) with false. cbv iota.
    destruct (run_give_back id o (with_orders (<[id := set_status orderstatus.Closed t o]> (orders d)) d) x1 t Hid) as (x2&->&Hl2&Hg).
    exists x2. split_and!; [done|by eapply left_alone_trans|done].
  - destruct (o_status o =? orderstatus.Closed) eqn:Hc; cbn [negb andb].
    + destruct (run_give_back id o d x1 t Hid) as (x2&->&Hl2&Hg).
      exists x2. split_and!; [done|by eapply left_alone_trans|done].
    + exists x1. split_and!; [done|done|]. intros (o'&[= <-]&[Hs|Hs]); by bools.
Qed.

(** * Enough turns *)

Definition due_at (t : Z) (q : gmap string Z) (id : string) : bool :=
  match q !! id with Some sc => (0 <=? sc) && (sc <=? t) | None => false end.

(** The orders to look at: due on the delay queue, or given up on the other. *)
Definition due_set (t : Z) (r : EntryRedis) : gset string :=
  filter (fun id => due_at t (delay_queue r) id || due_at t (processing_queue r) id = true)
    (dom (delay_queue r) ∪ dom (processing_queue r)).

Lemma elem_of_due_set t r id :
  id ∈ due_set t r <-> due_at t (delay_queue r) id = true \/ due_at t (processing_queue r) id = true.
Proof.
  unfold due_set. rewrite elem_of_filter, orb_true_iff, elem_of_union, !elem_of_dom. split; [by intros [? _]|].
  intros Hd. split; [done|]. unfold due_at in Hd.
  destruct Hd as [Hd|Hd]; [left; destruct (delay_queue r !! id)|right; destruct (processing_queue r !! id)]; done.
Qed.

Lemma due_at_members t q id : id ∈ due_members t q <-> due_at t q id = true.
Proof.
  unfold due_members, due_at. rewrite list_elem_of_fmap. split.
  - intros ([k sc]&->&Hin). rewrite merge_sort_Permutation, list_elem_of_filter, elem_of_map_to_list in Hin.
    destruct Hin as [Hs Hk]. simpl in *. rewrite Hk. lia.
  - destruct (q !! id) as [sc|] eqn:Hq; [|done]. intros Hs. exists (id, sc). split; [done|].
    rewrite merge_sort_Permutation, list_elem_of_filter, elem_of_map_to_list. simpl. split; [lia|done].
Qed.

(** Giving up changes where an order is due, not whether. *)
Lemma due_set_reclaim t r : 0 <= t -> due_set t (reclaimLua t 10 r) = due_set t r.
Proof.
  intros Ht. apply set_eq. intros id. rewrite !elem_of_due_set.
  destruct (decide (id ∈ take (Z.to_nat 10) (due_members t (processing_queue r)))) as [Hin|Hin].
  - assert (due_at t (processing_queue r) id = true) as Hdue.
    { apply due_at_members. apply elem_of_take in Hin as (j&Hj&_). by eapply list_elem_of_lookup_2. }
    split; [by right|]. intros _. left. unfold due_at, reclaimLua. simpl.
    rewrite lookup_foldr_insert. rewrite decide_True by done. lia.
  - unfold due_at, reclaimLua. cbn [delay_queue processing_queue with_delay with_processing].
    rewrite lookup_foldr_insert, lookup_foldr_delete, !decide_False by done. done.
Qed.

(** Something due is then on the delay queue. *)
Lemma due_after_reclaim t r : due_set t r <> ∅ -> 0 <= t -> due_members t (delay_queue (reclaimLua t 10 r)) <> [].
Proof.
  intros Hne Ht Hnil. apply set_choose_L in Hne as [id Hid]. apply elem_of_due_set in Hid.
  assert (forall k, due_at t (delay_queue (reclaimLua t 10 r)) k = true -> False) as Hno.
  { intros k Hk. apply due_at_members in Hk. rewrite Hnil in Hk. by apply not_elem_of_nil in Hk. }
  destruct (due_members t (processing_queue r)) as [|k l] eqn:Hp.
  - assert (reclaimLua t 10 r = r) as Hr by (unfold reclaimLua; rewrite Hp; by destruct r).
    destruct Hid as [Hid|Hid]; [apply (Hno id); by rewrite Hr|].
    apply due_at_members in Hid. rewrite Hp in Hid. by apply not_elem_of_nil in Hid.
  - apply (Hno k). unfold reclaimLua, due_at. cbn [delay_queue with_delay with_processing].
    rewrite Hp, lookup_foldr_insert, decide_True by (simpl; by left). lia.
Qed.

(** What one turn does. *)
Record turned (t : Z) (d : DB) (x : X) (d' : DB) (x' : X) (id : string) : Prop := mkTurned {
  turned_db : d' = close_pending id t d;
  turned_due : due_set t (get_entry x') = due_set t (get_entry x) ∖ {[id]};
  turned_out k : (k = id \/ (delay_queue (get_entry x) !! k = None /\ processing_queue (get_entry x) !! k = None)) ->
    delay_queue (get_entry x') !! k = None /\ processing_queue (get_entry x') !! k = None;
  turned_returns : returns_stay x x';
  turned_back : to_close id d -> given_back id x'
}.

Lemma reclaim_none t r k : delay_queue r !! k = None -> processing_queue r !! k = None ->
  delay_queue (reclaimLua t 10 r) !! k = None /\ processing_queue (reclaimLua t 10 r) !! k = None.
Proof.
  intros Hd Hp. unfold reclaimLua. cbn [delay_queue processing_queue with_delay with_processing].
  rewrite lookup_foldr_insert, lookup_foldr_delete.
  destruct (decide (k ∈ _)) as [Hin|Hin]; [|done].
  apply elem_of_take in Hin as (j&Hj&_). apply list_elem_of_lookup_2, due_at_members in Hj. unfold due_at in Hj. by rewrite Hp in Hj.
Qed.

Lemma run_consume d x t : 0 <= t -> "" ∉ due_set t (get_entry x) -> due_set t (get_entry x) <> ∅ ->
  exists d' x' id, run_prog (consume cfg) (calm_env d x t) = (calm_env d' x' t, Ok tt) /\
    id ∈ due_set t (get_entry x) /\ turned t d x d' x' id.
Proof.
  intros Ht Hno Hne. unfold consume, reclaimExpired, claimDueOrder.
  rewrite run_andthen, run_now. cbv beta iota. rewrite run_whatever, run_redis. cbv beta iota.
  cbn [fst snd]. rewrite run_whatever, run_redis, get_put. cbv beta iota. set (r1 := reclaimLua t 10 (get_entry x)).
  pose proof (due_after_reclaim t (get_entry x) Hne Ht) as Hdue. fold r1 in Hdue.
  destruct (due_members t (delay_queue r1)) as [|id l] eqn:Hm; [done|].
  assert (id ∈ due_set t (get_entry x)) as Hid.
  { rewrite <- due_set_reclaim by done. apply elem_of_due_set. left. apply due_at_members. fold r1. rewrite Hm. by left. }
  assert (id <> "") as Hide by (intros ->; done).
  set (r2 := with_processing (<[id := t + visibilityTimeoutSeconds]> (processing_queue r1)) (with_delay (delete id (delay_queue r1)) r1)).
  assert (claimLua t (t + visibilityTimeoutSeconds) r1 = (r2, id)) as -> by (unfold claimLua; by rewrite Hm).
  cbn [fst snd]. destruct (is_empty id) eqn:He; [by apply str_eqb_eq in He|]. set (x2 := put_entry r2 _).
  rewrite run_whatever. destruct (run_handle id d x2 t Hide) as (x3&->&[Hq3 Hr3]&Hg). cbv beta iota.
  destruct (run_ack id (close_pending id t d) x3 t) as (x4&->&Hr4&Hx4).
  exists (close_pending id t d), x4, id. split_and!; [done|done|].
  unfold same_queues in Hq3. unfold x2 in Hq3. rewrite get_put in Hq3. injection Hq3 as Hd3 Hp3 _.
  assert (returns_stay x x2) as Hr2 by (eapply returns_trans; apply put_returns).
  assert (delay_queue (get_entry x4) = delete id (delay_queue r1)) as Hd4 by by rewrite Hx4.
  assert (processing_queue (get_entry x4) = delete id (processing_queue r1)) as Hp4.
  { rewrite Hx4. simpl. rewrite Hp3. simpl. by rewrite delete_insert_eq. }
  split.
  - done.
  - rewrite <- (due_set_reclaim t (get_entry x)) by done. fold r1. apply set_eq. intros k.
    rewrite elem_of_difference, !elem_of_due_set, elem_of_singleton. unfold due_at. rewrite Hd4, Hp4.
    destruct (decide (k = id)) as [->|Hk]; [rewrite !lookup_delete_eq; naive_solver|].
    rewrite !lookup_delete_ne by congruence. naive_solver.
  - intros k Hk. rewrite Hd4, Hp4. destruct (decide (k = id)) as [->|Hne']; [by rewrite !lookup_delete_eq|].
    rewrite !lookup_delete_ne by congruence. destruct Hk as [?|[? ?]]; [done|]. by apply reclaim_none.
  - eapply returns_trans; [exact Hr2|]. by eapply returns_trans.
  - intros Hc. eapply given_back_stays; [exact Hr4|auto].
Qed.

Lemma run_idle d x t : 0 <= t -> due_set t (get_entry x) = ∅ -> exists x',
  run_prog (consume cfg) (calm_env d x t) = (calm_env d x' t, Ok tt) /\ left_alone x x'.
Proof.
  intros Ht Hnil. unfold consume, reclaimExpired, claimDueOrder.
  rewrite run_andthen, run_now. cbv beta iota. rewrite run_whatever, run_redis. cbv beta iota.
  cbn [fst snd]. rewrite run_whatever, run_redis, get_put. cbv beta iota.
  assert (forall q, (forall k, due_at t q k = true -> False) -> due_members t q = []) as Hno.
  { intros q Hq. destruct (due_members t q) as [|k l] eqn:Hm; [done|]. destruct (Hq k).
    apply due_at_members. rewrite Hm. by left. }
  assert (forall k, k ∈ due_set t (get_entry x) -> False) as Hk by (intros k; rewrite Hnil; set_solver).
  assert (reclaimLua t 10 (get_entry x) = get_entry x) as ->.
  { unfold reclaimLua. rewrite (Hno (processing_queue (get_entry x))); [by destruct (get_entry x)|].
    intros k Hd. apply (Hk k), elem_of_due_set. by right. }
  unfold claimLua. rewrite (Hno (delay_queue (get_entry x))); [|intros k Hd; apply (Hk k), elem_of_due_set; by left].
  cbn [fst snd is_empty]. eexists. split; [done|]. split; [unfold same_queues; by rewrite get_put|].
  eapply returns_trans; apply put_returns.
Qed.

Fixpoint turns (n : nat) (s : env DB X) : env DB X :=
  match n with O => s | S n => turns n (run_prog (consume cfg) s).1 end.

(** What [n] turns do from a state: [outcome] says it of the states before and after. *)
Record outcome (t : Z) (d : DB) (x : X) (d' : DB) (x' : X) : Prop := mkOutcome {
  outcome_due : due_set t (get_entry x') = ∅;
  outcome_others k : k ∉ due_set t (get_entry x) -> orders d' !! k = orders d !! k;
  outcome_out k : k ∈ due_set t (get_entry x) \/ (delay_queue (get_entry x) !! k = None /\ processing_queue (get_entry x) !! k = None) ->
    delay_queue (get_entry x') !! k = None /\ processing_queue (get_entry x') !! k = None;
  outcome_returns : returns_stay x x';
  outcome_closed k o : k ∈ due_set t (get_entry x) -> orders d !! k = Some o ->
    o_status o = orderstatus.PendingPayment \/ o_status o = orderstatus.Closed ->
    given_back k x' /\ exists o', orders d' !! k = Some o' /\ order_identity o' = order_identity o /\ o_status o' = orderstatus.Closed
}.

Lemma close_pending_other id t d k : k <> id -> orders (close_pending id t d) !! k = orders d !! k.
Proof.
  intros Hk. unfold close_pending. destruct (orders d !! id) as [o|]; [|done]. destruct (_ =? _); [|done].
  simpl. by rewrite lookup_insert_ne.
Qed.

Lemma close_pending_same id t d o : orders d !! id = Some o ->
  o_status o = orderstatus.PendingPayment \/ o_status o = orderstatus.Closed ->
  exists o', orders (close_pending id t d) !! id = Some o' /\ order_identity o' = order_identity o /\ o_status o' = orderstatus.Closed.
Proof.
  intros Ho Hs. unfold close_pending. rewrite Ho. destruct (o_status o =? orderstatus.PendingPayment) eqn:Hp.
  - exists (set_status orderstatus.Closed t o). simpl. by rewrite lookup_insert_eq.
  - exists o. bools. destruct Hs as [Hs|Hs]; [by rewrite Hs in Hp|]. done.
Qed.

Lemma outcome_turn t d x d1 x1 id d' x' :
  id ∈ due_set t (get_entry x) -> turned t d x d1 x1 id -> outcome t d1 x1 d' x' -> outcome t d x d' x'.
Proof.
  intros Hid [-> Hdue Hout Hret Hback] [Ho1 Ho2 Ho3 Ho4 Ho5].
  assert (id ∉ due_set t (get_entry x1)) as Hid1 by (rewrite Hdue; set_solver). split; [done| | | |].
  - intros k Hk. rewrite Ho2 by (rewrite Hdue; set_solver). apply close_pending_other. set_solver.
  - intros k Hk. apply Ho3. destruct (decide (k = id)) as [->|Hne]; [right; apply Hout; by left|].
    destruct Hk as [Hk|Hk]; [left; rewrite Hdue; set_solver|right; apply Hout; by right].
  - by eapply returns_trans.
  - intros k o Hk Ho Hs. destruct (decide (k = id)) as [->|Hne].
    + rewrite (Ho2 id Hid1). split; [|by apply close_pending_same].
      eapply given_back_stays; [exact Ho4|]. apply Hback. by exists o.
    + apply Ho5; [rewrite Hdue; set_solver|by rewrite close_pending_other|done].
Qed.

Lemma outcome_idle t d x d' x1 x' :
  due_set t (get_entry x) = ∅ -> left_alone x x1 -> outcome t d x1 d' x' -> outcome t d x d' x'.
Proof.
  intros Hnil [Hq Hr] [Ho1 Ho2 Ho3 Ho4 Ho5]. unfold same_queues in Hq. injection Hq as Hd Hp _.
  assert (due_set t (get_entry x1) = due_set t (get_entry x)) as Hdue by (unfold due_set; by rewrite Hd, Hp).
  rewrite Hdue in *. rewrite Hd, Hp in Ho3. split; try done. by eapply returns_trans.
Qed.

Lemma turns_outcome n d x t :
  0 <= t -> "" ∉ due_set t (get_entry x) -> (size (due_set t (get_entry x)) <= n)%nat ->
  exists d' x', turns n (calm_env d x t) = calm_env d' x' t /\ outcome t d x d' x'.
Proof.
  intros Ht. revert d x. induction n as [|n IH]; intros d x Hno Hn.
  - assert (due_set t (get_entry x) = ∅) as Hnil by (apply leibniz_equiv, size_empty_inv; lia).
    exists d, x. split; [done|]. split; [done|done|by rewrite Hnil; intros k [?%not_elem_of_empty|?]|apply returns_refl|].
    intros k o. rewrite Hnil. by intros ?%not_elem_of_empty.
  - cbn [turns]. destruct (decide (due_set t (get_entry x) = ∅)) as [Hnil|Hne].
    + destruct (run_idle d x t Ht Hnil) as (x1&->&Hl). cbn [fst]. pose proof Hl as [Hq _]. unfold same_queues in Hq. injection Hq as Hd Hp _.
      assert (due_set t (get_entry x1) = ∅) as Hnil1 by (rewrite <- Hnil; unfold due_set; by rewrite Hd, Hp).
      destruct (IH d x1) as (d'&x'&Heq&Hout); [by rewrite Hnil1|rewrite Hnil1, size_empty; lia|].
      exists d', x'. split; [done|]. by eapply outcome_idle.
    + destruct (run_consume d x t Ht Hno Hne) as (d1&x1&id&->&Hid&Htu). cbn [fst]. pose proof (turned_due _ _ _ _ _ _ Htu) as Hdue.
      destruct (IH d1 x1) as (d'&x'&Heq&Hout).
      * rewrite Hdue. set_solver.
      * rewrite Hdue, size_difference by (by apply singleton_subseteq_l). rewrite size_singleton. lia.
      * exists d', x'. split; [done|]. by eapply outcome_turn.
Qed.

End progress.
