(* ===== verification/EntryRetries.v ===== *)
(** One request, one order: whatever fails, the successful answers to one request id
    of [CreateOrder] name the one order in the table that has it. *)

From S2P Require Import Prelude Effects Sql Common OrderStore InventoryKitex OrderCreate PreDeduct OrderSystem OrderSteps EndToEnd Programs EntryOrders CloseOrder CloseSafety.

Section retries.
Context {X : Type} `{HasEntry X, Dtm X, OrdersCache X, OrderIdGen X, StockClient X}.
Context `{InventoryClient X, PaymentProvider X, ProductClient X, HasRedis X}.
Context (cfg : EntryConfig).
Context (issued : X -> gset string) (rolled_back reverted : string -> X -> Prop).
Context `{Hlaws : !EntryLaws cfg issued rolled_back reverted}.
Abbreviation P A := (prog DB X error (res error A)).

Definition results (x : X) : gmap string (string * Z) := request_result (get_entry x).

(** The other services leave the answers of requests alone, and the cache holds no
    row of the table. *)
Class RequestLaws := {
  results_next x : results (NextID x).1 = results x;
  results_gid x : results (dtm_NewGid x).1 = results x;
  results_take key t x : results (cache_take key t x).1 = results x;
  results_keep key v t x : results (cache_keep key v t x).1 = results x;
  results_submit v sg : keeps (fun x => results x = v) (dtm_Submit sg);
  no_row key t x : match (cache_take key t x).2 with Ok (Some (Some _)) => False | _ => True end
}.
Context `{!RequestLaws}.

(** * What holds between requests *)

(** If the order is there, it is that of request [q]. *)
Definition names (q : string) (d : DB) (id : string) : Prop :=
  forall o, orders d !! id = Some o -> o_request_id o = q.

Record sound (d : DB) (x : X) : Prop := mkSound {
  sound_ids k : is_Some (orders d !! k) -> k ∈ issued x;
  sound_unique k1 k2 o1 o2 : orders d !! k1 = Some o1 -> orders d !! k2 = Some o2 ->
    o_request_id o1 = o_request_id o2 -> k1 = k2;
  sound_results q e : results x !! q = Some e -> e.1 ∈ issued x /\ names q d e.1
}.

(** ** Calls around it *)

Definition hushed (d : DB) (x : X) (d' : DB) (x' : X) : Prop :=
  orders d' = orders d /\ results x' = results x /\ issued x ⊆ issued x'.

Definition hushed_call (B : Type) (m : M DB X error B) : Prop :=
  forall s, hushed (db s) (ext s) (db (m s).1) (ext (m s).1).

Definition stable (Pre : DB -> X -> Prop) : Prop := forall d x d' x', Pre d x -> hushed d x d' x' -> Pre d' x'.

Lemma stable_sound : stable sound.
Proof.
  intros d x d' x' [Hi Hu Hr] (Ho&Hres&Hs). split; unfold names; rewrite ?Ho, ?Hres; [set_solver|done|].
  intros q e Hq. destruct (Hr q e Hq). split; [set_solver|done].
Qed.

Definition sound_and (q id : string) (d : DB) (x : X) : Prop := sound d x /\ id ∈ issued x /\ names q d id.

Lemma stable_sound_and q id : stable (sound_and q id).
Proof.
  intros d x d' x' (Hs&Hi&Hn) Hh. split; [by eapply stable_sound|]. destruct Hh as (Ho&_&Hsub).
  unfold names. rewrite Ho. split; [set_solver|done].
Qed.

(** The number that was just given. *)
Definition unused (id : string) (d : DB) (x : X) : Prop :=
  sound d x /\ id ∈ issued x /\ id <> "" /\ orders d !! id = None /\ forall q e, results x !! q = Some e -> e.1 <> id.

Lemma stable_unused id : stable (unused id).
Proof.
  intros d x d' x' (Hs&Hi&Hne&Ho&Hr) Hh. split; [by eapply stable_sound|]. destruct Hh as (Ho'&Hr'&Hsub).
  rewrite Ho', Hr'. split_and!; [set_solver|done..].
Qed.

Lemma goes_hushed {A} (Pre : DB -> X -> Prop) (p : prog DB X error A) :
  stable Pre -> every hushed_call p -> goes Pre p (fun _ => Pre).
Proof.
  intros Hst Hp s Hs.
  assert (hushed (db s) (ext s) (db (run_prog p s).1) (ext (run_prog p s).1)) as Hh.
  { apply (run_related hushed); [|intros ?????? (?&?&?) (?&?&?)|exact Hp].
    - intros d x. by split_and!.
    - split_and!; [congruence|congruence|set_solver]. }
  destruct (run_prog p s) as [s' a]. by eapply Hst.
Qed.

Lemma hushed_pop (s : env DB X) : hushed (db s) (ext s) (db (pop_fault s).2) (ext (pop_fault s).2).
Proof. rewrite db_pop_fault, ext_pop_fault. by split_and!. Qed.

Lemma hushed_ext {A} (op : X -> X * res error A) e :
  (forall x, results (op x).1 = results x /\ issued x ⊆ issued (op x).1) -> hushed_call A (call op e).
Proof.
  intros Hop s. unfold call. pose proof (hushed_pop s) as Hp. pose proof (ext_pop_fault s) as Hx. pose proof (db_pop_fault s) as Hd.
  specialize (Hop (ext s)). destruct (pop_fault s) as [[] s']; simpl in *; rewrite ?Hx in *; [|exact Hp|].
  - destruct (op (ext s)) as [x' a]. simpl in *. rewrite Hd. by destruct Hop.
  - simpl. rewrite Hd. by destruct Hop.
Qed.

Lemma hushed_query {A} (f : DB -> A) e : hushed_call A (query f e).
Proof.
  intros s. unfold query, sql. pose proof (hushed_pop s) as Hp. pose proof (ext_pop_fault s) as Hx. pose proof (db_pop_fault s) as Hd.
  destruct (pop_fault s) as [[] s']; simpl in *; [|exact Hp|]; rewrite Hx, Hd; by split_and!.
Qed.

Lemma hushed_now : hushed_call Z get_now.
Proof. intros s. by split_and!. Qed.

Lemma results_put r x : results (put_entry r x) = request_result r.
Proof. unfold results. by rewrite (law_get_put cfg issued rolled_back reverted). Qed.

Lemma issued_put r x : issued (put_entry r x) = issued x.
Proof. apply (law_put cfg issued rolled_back reverted). Qed.

Lemma every_hushed_redis {A} (op : Z -> EntryRedis -> EntryRedis * A) :
  (forall t r, request_result (op t r).1 = request_result r) -> every hushed_call (redis op).
Proof.
  intros Hop. apply every_tried. intros s. unfold bind, get_now. apply hushed_ext. intros x. specialize (Hop (now s) (get_entry x)).
  destruct (op (now s) (get_entry x)) as [r a]. simpl in *. rewrite results_put, issued_put. done.
Qed.

Lemma every_hushed_row key f : every hushed_call (QueryRow key f).
Proof.
  unfold QueryRow. apply every_andthen; [apply every_tried, hushed_now|]. intros t.
  assert (forall x, issued (cache_take key t x).1 = issued x) as Hi by (intros; apply (law_take cfg issued rolled_back reverted)).
  apply every_andthen; [apply every_tried, hushed_ext; intros; rewrite results_take, Hi; done|]. intros [row|]; [done|].
  apply every_andthen; [apply every_tried, hushed_query|]. intros row.
  assert (forall x, issued (cache_keep key row t x).1 = issued x) as Hk by (intros; apply (law_keep cfg issued rolled_back reverted)).
  apply every_whatever; [apply every_tried, hushed_ext; intros; rewrite results_keep, Hk; done|done].
Qed.

Lemma every_hushed_snapshot id : every hushed_call (queryCreateOrderResp cfg id).
Proof.
  unfold queryCreateOrderResp. destruct (is_empty _); [done|]. destruct (negb _); [done|].
  apply every_andthen; [apply every_tried, hushed_query|]. by intros [?|].
Qed.

(** * The saga *)

(** Of all orders only [c] is new, and it is that of request [q]. *)
Record fits (c q : string) (S : gset string) (d : DB) : Prop := mkFits {
  fits_ids k : is_Some (orders d !! k) -> k = c \/ k ∈ S;
  fits_unique k1 k2 o1 o2 : orders d !! k1 = Some o1 -> orders d !! k2 = Some o2 ->
    o_request_id o1 = o_request_id o2 -> k1 = k2;
  fits_names : names q d c
}.

Lemma fits_same c q S d d' :
  (forall k o', orders d' !! k = Some o' -> exists o, orders d !! k = Some o /\ o_request_id o' = o_request_id o) ->
  fits c q S d -> fits c q S d'.
Proof.
  intros Hs [Hi Hu Hn]. split.
  - intros k [o' Ho']. destruct (Hs k o' Ho') as (o&Ho&_). by apply Hi; exists o.
  - intros k1 k2 o1 o2 H1' H2' Heq. destruct (Hs k1 o1 H1') as (p1&Hp1&He1), (Hs k2 o2 H2') as (p2&Hp2&He2).
    apply (Hu k1 k2 p1 p2); [done|done|congruence].
  - intros o' Ho'. destruct (Hs c o' Ho') as (o&Ho&->). by apply Hn.
Qed.

Lemma preserves_fits_still {A} c q S (op : DB -> DB * A) (e : error) :
  (forall d, orders (op d).1 = orders d) -> preserves (X := X) (fits c q S) (sql op e).
Proof. intros Hop. apply preserves_sql. intros d. apply fits_same. intros k o'. rewrite Hop. by exists o'. Qed.

Lemma fits_insert c q S o d : o_request_id o = q -> fits c q S d -> fits c q S (insert_order c o d).
Proof.
  intros Ho [Hi Hu Hn].
  assert (forall k o', orders (insert_order c o d) !! k = Some o' ->
    orders d !! k = Some o' \/ (k = c /\ o' = o /\ forall k0 r0, orders d !! k0 = Some r0 -> o_request_id r0 <> q)) as Hl.
  { intros k o' Hk. unfold insert_order in Hk. simpl in Hk.
    destruct (insert_ignore_lookup (fun o' => str_eqb (o_request_id o') (o_request_id o)) c o (orders d) k)
      as [Heq|(->&_&Heq&Hc)]; rewrite Heq in Hk; [by left|right]. injection Hk as <-. split_and!; [done|done|].
    intros k0 r0 Hr. apply Hc in Hr. bools. congruence. }
  split.
  - intros k [o' Hk]. destruct (Hl k o' Hk) as [Hd|(->&_)]; [apply Hi; by exists o'|by left].
  - intros k1 k2 o1 o2 H1' H2' Heq.
    destruct (Hl k1 o1 H1') as [Hd1|(->&->&Hc1)], (Hl k2 o2 H2') as [Hd2|(->&->&Hc2)]; [by eapply Hu|..|done].
    + destruct (Hc2 k1 o1 Hd1). congruence.
    + destruct (Hc1 k2 o2 Hd2). congruence.
  - intros o' Ho'. destruct (Hl c o' Ho') as [Hd|(_&->&_)]; [by apply Hn|done].
Qed.

Definition branch_fits (c q : string) (b : branch) : Prop :=
  match b with
  | BranchCreateOrder r => co_OrderId r = c /\ co_RequestId r = q
  | _ => True
  end.

Lemma preserves_fits_close c q S id e :
  preserves (X := X) (fits c q S) (exec_orders (at_key id (fun o => o_status o =? orderstatus.PendingPayment)) (set_status orderstatus.Closed) e).
Proof.
  unfold exec_orders. apply preserves_bind; [apply preserves_get_now|]. intros t. apply preserves_sql. intros d.
  apply fits_same. intros k o'. simpl. rewrite upd_at_key. destruct (orders d !! id) as [o|] eqn:Ho; [|by exists o'].
  destruct (_ =? _); [|by exists o']. rewrite lookup_insert_Some. intros [[<- <-]|[_ Hk]]; [by exists o|by exists o'].
Qed.

Lemma preserves_fits_create c q S in_ m card quote :
  co_OrderId in_ = c -> q <> "" -> preserves (X := X) (fits c q S) (create_order_body in_ q m card quote).
Proof.
  intros Hc Hq. unfold create_order_body, InsertOrderCreatedOutbox. cbv zeta.
  apply preserves_bind; [apply preserves_get_now|]. intros t.
  apply preserves_bind; [apply preserves_sql; intros d; rewrite Hc; by apply fits_insert|]. intros _.
  apply preserves_bind; [by apply preserves_fits_still|]. intros _.
  apply preserves_bind; [by apply preserves_fits_still|]. intros _.
  preserve; by apply preserves_fits_still.
Qed.

Lemma preserves_fits_call c q S runs (body : M DB X error unit) :
  preserves (fits c q S) body -> preserves (X := X) (fits c q S) (CallWithDB runs body).
Proof. intros Hb. unfold CallWithDB. apply preserves_run_tx_body. destruct runs; preserve; done. Qed.

Lemma preserves_fits_branch c q S b compensate runs :
  branch_fits c q b -> q <> "" -> preserves (X := X) (fits c q S) (branch_call cfg b compensate runs).
Proof.
  intros Hb Hq. destruct b as [r|r|r], compensate; cbn [branch_call]; cbv zeta.
  - unfold PreDeductRollback, PreDeduct.eval. cbv zeta. preserve.
  - unfold PreDeduct.PreDeduct, evalPreDeduct, ensureRedisStockInitialized, PreDeduct.eval. cbv zeta. preserve.
  - unfold CreateOrderRollback. preserve; try by apply preserves_fits_still.
    apply preserves_fits_call. unfold rollback_body. apply preserves_bind; [apply preserves_fits_close|intros ?; apply preserves_ret].
  - apply preserves_bind; [|intros _; apply preserves_ret]. destruct Hb as [Hc Hr].
    unfold OrderCreate.CreateOrder. cbv zeta. rewrite Hr. destruct (is_empty q) eqn:He; [by apply str_eqb_eq in He|].
    unfold loadProductMerchantID, raw_db, query. preserve; try by apply preserves_fits_still.
    by apply preserves_fits_call, preserves_fits_create.
  - apply preserves_call.
  - apply preserves_call.
Qed.

Lemma checkout_branches c q req gid b :
  b ∈ sg_steps (checkout_saga cfg gid c q req) -> branch_fits c q b.
Proof.
  unfold checkout_saga. simpl. destruct (InventoryOwnsFinalDeduct cfg); simpl; rewrite ?elem_of_cons, elem_of_nil;
    intros Hb; repeat destruct Hb as [->|Hb]; done.
Qed.

(** A submission, successful or not, makes the order of the request or none. *)
Lemma goes_submit gid c q req :
  q <> "" -> goes (unused c) (tried (dtm_Submit (checkout_saga cfg gid c q req))) (fun _ => sound_and q c).
Proof.
  intros Hq. apply goes_tried. intros s ([Hids Huniq Hres]&Hi&Hne&Hnone&Hother).
  assert (fits c q (dom (orders (db s))) (db (dtm_Submit (checkout_saga cfg gid c q req) s).1)) as [Hf1 Hf2 Hf3].
  { apply (law_submit_db cfg issued rolled_back reverted (fits c q (dom (orders (db s))))).
    - intros b comp runs Hb. apply preserves_fits_branch; [by eapply checkout_branches|done].
    - split; [intros k Hk; right; by apply elem_of_dom|done|]. intros o. by rewrite Hnone. }
  destruct (tame_submit cfg issued rolled_back reverted gid c q req) as [Hd Hx].
  pose proof (Hd (db s) s (db_evolves_refl _ _)) as He.
  destruct (Hx (ext s) s (apart_refl _ _ _ _)) as (_&Hiss&_).
  pose proof (results_submit (results (ext s)) (checkout_saga cfg gid c q req) s eq_refl) as Hr. cbv beta in Hr.
  split; [|by rewrite Hiss]. split; rewrite ?Hiss, ?Hr.
  - intros k Hk. destruct (Hf1 k Hk) as [->|Hin]; [done|]. apply Hids. by apply elem_of_dom.
  - exact Hf2.
  - intros q' e Hq'. destruct (Hres q' e Hq') as [Hin Hn]. split; [done|]. intros o' Ho'.
    destruct (Hf1 e.1) as [Hc|Hdom]; [by exists o'|by destruct (Hother q' e Hq')|].
    apply elem_of_dom in Hdom as [o Ho]. destruct (He e.1 o Ho) as (o2&Ho2&Hid&_).
    assert (o2 = o') as -> by congruence. unfold order_identity in Hid. injection Hid as -> _ _ _ _. by apply Hn.
Qed.

(** * The answers *)

(** A successful answer names the order of the request. *)
Definition answers (q : string) (r : res error EntryCreateResp) (d : DB) (x : X) : Prop :=
  sound d x /\ match r with
    | Ok resp => q <> "" -> exists o, orders d !! er_OrderId resp = Some o /\ o_request_id o = q
    | Err _ => True
    end.

Context (has_conn : has_sql_conn cfg = true).

Lemma goes_snapshot q id : goes (sound_and q id) (queryCreateOrderResp cfg id) (answers q).
Proof.
  unfold queryCreateOrderResp. destruct (is_empty (trim_space id)); [apply goes_ret; by intros d x [Hs _]|].
  rewrite has_conn. cbn [negb].
  eapply goes_andthen with (Mid := fun row d x => sound_and q id d x /\ row = snapshot_row id d).
  - apply goes_tried. intros s Hs. unfold query, sql. pose proof (hushed_pop s) as Hp.
    pose proof (db_pop_fault s) as Hd. pose proof (ext_pop_fault s) as Hx.
    destruct (pop_fault s) as [[] s']; simpl in *; rewrite ?Hd, ?Hx; [done|split; [by destruct Hs|done]..].
  - intros [resp|]; apply goes_ret; [|by intros d x [[Hs _] _]].
    intros d x [(Hs&Hi&Hn) Hrow]. split; [done|]. intros _. unfold snapshot_row in Hrow.
    destruct (orders d !! id) as [o|] eqn:Ho; [|done]. destruct (snapshots d !! id); [|done].
    destruct (select _ _) as [[pid pay]|]; [|done]. injection Hrow as ->. simpl. exists o. split; [done|by apply Hn].
Qed.

Lemma goes_redis_other {A} (Pre : DB -> X -> Prop) (op : Z -> EntryRedis -> EntryRedis * A) :
  stable Pre -> (forall t r, request_result (op t r).1 = request_result r) -> goes Pre (redis op) (fun _ => Pre).
Proof. intros Hst Hop. apply goes_hushed; [done|]. by apply every_hushed_redis. Qed.

(** What is remembered of an answer. *)
Lemma goes_remember q id ttl : goes (sound_and q id) (Setex_result q id ttl) (fun _ => sound_and q id).
Proof.
  unfold Setex_result, redis. apply goes_tried. intros s Hs. unfold bind, get_now, call. simpl.
  pose proof (db_pop_fault s) as Hd. pose proof (ext_pop_fault s) as Hx.
  assert (sound_and q id (db s) (put_entry (with_result (<[q := (id, now s + ttl)]> (request_result (get_entry (ext s)))) (get_entry (ext s))) (ext s))) as Hput.
  { destruct Hs as ([Hids Hu Hr]&Hi&Hn). split; [|by rewrite issued_put]. split; rewrite ?issued_put, ?results_put; [done|done|].
    intros q' e. simpl. rewrite lookup_insert_Some. intros [[<- <-]|[_ Hq']]; [done|by apply Hr]. }
  destruct (pop_fault s) as [[] s']; simpl in *; rewrite ?Hd, ?Hx; done.
Qed.

Lemma goes_forget q id k : goes (sound_and q id) (Del_lock k) (fun _ => sound_and q id).
Proof. apply goes_redis_other; [apply stable_sound_and|done]. Qed.

(** What is remembered names the order of the request. *)
Lemma goes_recall (Pre : DB -> X -> Prop) q :
  stable Pre -> (forall d x, Pre d x -> sound d x) ->
  goes Pre (Get_result q) (fun r d x => Pre d x /\ match r with Ok id => is_empty id = false -> sound_and q id d x | Err _ => True end).
Proof.
  intros Hst Hsound. unfold Get_result, redis. apply goes_tried. intros s Hs. unfold bind, get_now, call. simpl.
  pose proof (db_pop_fault s) as Hd. pose proof (ext_pop_fault s) as Hx.
  assert (Pre (db s) (put_entry (get_entry (ext s)) (ext s))) as Hput.
  { eapply Hst; [exact Hs|]. split; [done|]. rewrite results_put, issued_put. done. }
  destruct (pop_fault s) as [[] s']; simpl in *; rewrite ?Hd, ?Hx; try (by split).
  split; [done|]. pose proof (Hsound _ _ Hput) as [Hids Hu Hr]. rewrite issued_put in *.
  destruct (request_result (get_entry (ext s)) !! q) as [e|] eqn:He; [|done].
  destruct (live (now s) e); [|done]. intros _. destruct (Hr q e) as [Hi Hn]; [by rewrite results_put|].
  split; [by apply Hsound|]. by rewrite issued_put.
Qed.

Lemma goes_next : goes sound next_id (fun r d x => match r with Ok id => unused id d x | Err _ => sound d x end).
Proof.
  unfold next_id. apply goes_tried. intros s Hs. unfold call.
  pose proof (db_pop_fault s) as Hd. pose proof (ext_pop_fault s) as Hx.
  pose proof (law_next cfg issued rolled_back reverted (ext s)) as Hn. pose proof (results_next (ext s)) as Hres.
  destruct (NextID (ext s)) as [x' id] eqn:Hnext. destruct Hn as (_&_&Hnew&Hne&Hiss). simpl in Hres.
  assert (sound (db s) x') as Hs'.
  { eapply stable_sound; [exact Hs|]. split_and!; [done|done|rewrite Hiss; set_solver]. }
  assert (unused id (db s) x') as Hun.
  { split_and!; [done|rewrite Hiss; set_solver|done| |].
    - apply eq_None_not_Some. intros Hk. by apply Hnew, Hs.
    - rewrite Hres. intros q e Hq Heq. destruct (sound_results _ _ Hs q e Hq) as [Hi _]. by rewrite Heq in Hi. }
  destruct (pop_fault s) as [[] s']; simpl in *; rewrite ?Hx, ?Hnext; simpl; rewrite ?Hd, ?Hx; done.
Qed.

Lemma answers_err q (e : error) d x : sound d x -> answers q (Err e) d x.
Proof. done. Qed.

Lemma goes_submit_order c q req : q <> "" -> goes (unused c) (submit_order cfg c q req) (answers q).
Proof.
  intros Hq. unfold submit_order. eapply goes_andthen with (Mid := fun _ => unused c).
  { eapply goes_weaken; [apply goes_hushed; [apply stable_unused|]|].
    - apply every_tried, hushed_ext. intros x. rewrite results_gid. split; [done|].
      by destruct (law_gid cfg issued rolled_back reverted x) as (_&->&_).
    - intros [gid|e] d x Hu; [done|]. by destruct Hu. }
  intros gid. eapply goes_whatever; [by apply goes_submit|]. intros [[]|e].
  2: { eapply goes_whatever; [apply goes_forget|]. intros ?. apply goes_ret. by intros d x [Hs _]. }
  eapply goes_whatever; [apply goes_remember|]. intros set.
  eapply goes_whatever with (Mid := fun _ => sound_and q c).
  { destruct set; [apply goes_forget|by apply goes_ret]. }
  intros _. eapply goes_andthen with (Mid := fun _ => sound_and q c).
  { eapply goes_weaken; [apply goes_hushed; [apply (stable_sound_and q c)|apply every_tried, hushed_now]|].
    intros [t|e] d x Hs; [done|]. by destruct Hs. }
  intros t. eapply goes_whatever; [apply goes_redis_other; [apply (stable_sound_and q c)|done]|]. intros ?. apply goes_snapshot.
Qed.

Lemma goes_demand b e q (k : unit -> P EntryCreateResp) :
  goes sound (k tt) (answers q) -> goes sound (andthen (demand b e) k) (answers q).
Proof. intros Hk. destruct b; [exact Hk|]. by apply goes_ret. Qed.

Lemma goes_lock q req : goes sound (lock_and_submit cfg q req) (answers q).
Proof.
  unfold lock_and_submit. do 3 apply goes_demand. cbv zeta.
  assert (forall Pre q' (k : res error bool -> P EntryCreateResp), stable Pre ->
    (forall r, goes Pre (k r) (answers q)) -> goes Pre (whatever (SetnxEx_lock q' (requestTTLSeconds cfg)) k) (answers q)) as Hlock.
  { intros Pre q' k Hst Hk. eapply goes_whatever; [|exact Hk]. apply goes_redis_other; [done|].
    intros t r. destruct (request_lock r !! q'); [destruct (_ <? _)|]; done. }
  assert (forall Pre q' (e1 e2 : error), stable Pre -> (forall d x, Pre d x -> sound d x) -> (q <> "" -> q' = q) ->
    goes Pre (cached <~? Get_result q' ;;
              match cached with
              | Ok cachedOrderId => if is_empty cachedOrderId then ret_err e1 else queryCreateOrderResp cfg cachedOrderId
              | Err _ => ret_err e2
              end) (answers q)) as Hbusy.
  { intros Pre q' e1 e2 Hst Hso Hqq. eapply goes_whatever; [by apply goes_recall|]. intros [id|e]; [|apply goes_ret; intros d x [Hp _]; by apply Hso in Hp].
    destruct (is_empty id); [apply goes_ret; intros d x [Hp _]; by apply Hso in Hp|].
    intros s [_ Hs]. pose proof (goes_snapshot q' id s (Hs eq_refl)) as Hg.
    destruct (run_prog (queryCreateOrderResp cfg id) s) as [s' [resp|e]]; destruct Hg as [Hg Hr]; split; try done.
    intros Hqe. rewrite <- (Hqq Hqe). apply Hr. by rewrite (Hqq Hqe). }
  destruct (is_empty q) eqn:Hq.
  - apply str_eqb_eq in Hq. subst q. eapply goes_andthen; [eapply goes_weaken; [apply goes_next|]|].
    { intros [id|e] d x Hp; [exact Hp|done]. }
    intros id. apply Hlock; [apply stable_unused|]. intros [[]|e].
    + intros s Hs. pose proof Hs as (_&_&Hne&_). destruct (is_empty id) eqn:Hid; [by apply str_eqb_eq in Hid|].
      pose proof (goes_submit_order id id req Hne s Hs) as Hg.
      change (run_prog (andthen (ret_ok id) (fun orderID => submit_order cfg orderID id req)) s)
        with (run_prog (submit_order cfg id id req) s).
      destruct (run_prog (submit_order cfg id id req) s) as [s' [resp|e]]; destruct Hg as [Hg _]; by split.
    + apply Hbusy; [apply stable_unused|by intros d x [Hs _]|done].
    + apply goes_ret. by intros d x [Hs _].
  - assert (q <> "") as Hne by (intros ->; done). eapply goes_andthen with (Mid := fun id d x => sound d x /\ id = "").
    { by apply goes_ret. }
    intros id. apply Hlock; [intros d x d' x' [Hs ->] Hh; split; [by eapply stable_sound|done]|]. intros [[]|e].
    + intros s [Hs ->]. change (is_empty "") with true. cbv iota.
      assert (goes sound (andthen next_id (fun orderID => submit_order cfg orderID q req)) (answers q)) as Hg; [|exact (Hg s Hs)].
      eapply goes_andthen; [eapply goes_weaken; [apply goes_next|]|intros c; by apply goes_submit_order].
      intros [c|e] d x Hp; [exact Hp|done].
    + apply Hbusy; [|by intros d x [Hs _]|done]. intros d x d' x' [Hs ->] Hh. split; [by eapply stable_sound|done].
    + apply goes_ret. by intros d x [Hs _].
Qed.

Lemma goes_find q :
  goes sound (FindOneByRequestId q) (fun r d x => match r with Ok (Some (id, _)) => sound_and q id d x | _ => sound d x end).
Proof.
  unfold FindOneByRequestId. destruct (is_empty q); [by apply goes_ret|]. unfold QueryRow. set (key := "cache:orders:request_id:" +:+ q).
  eapply goes_andthen with (Mid := fun _ => sound).
  { eapply goes_weaken; [apply goes_hushed; [apply stable_sound|apply every_tried, hushed_now]|]. by intros [t|e] d x Hs. }
  intros t. eapply goes_andthen with (Mid := fun hit d x => sound d x /\ match hit with Some (Some _) => False | _ => True end).
  { apply goes_tried. intros s Hs. assert (hushed_call _ (call (cache_take key t) call_failed)) as Hh.
    { apply hushed_ext. intros x. rewrite results_take. by destruct (law_take cfg issued rolled_back reverted key t x) as (_&->&_). }
    pose proof (stable_sound _ _ _ _ Hs (Hh s)) as Hs'. unfold call in *. pose proof (no_row key t (ext (pop_fault s).2)) as Hn.
    destruct (pop_fault s) as [[] s']; simpl in *; [|done|done]. destruct (cache_take key t (ext s')) as [x' [hit|e]]; done. }
  intros [[row|]|].
  - intros s [_ []].
  - apply goes_ret. by intros d x [Hs _].
  - eapply goes_andthen with (Mid := fun row d x => sound d x /\ match row with Some (id, _) => sound_and q id d x | None => True end).
    + apply goes_tried. intros s [Hs _]. unfold query, sql. pose proof (db_pop_fault s) as Hd. pose proof (ext_pop_fault s) as Hx.
      destruct (pop_fault s) as [[] s']; simpl in *; rewrite ?Hd, ?Hx; [|done|done]. split; [done|].
      destruct (by_request q (db s)) as [[id o]|] eqn:Hrow; [|done]. unfold by_request in Hrow. apply select_Some in Hrow as [Ho Hq].
      split; [done|]. split; [apply (sound_ids _ _ Hs); by exists o|]. intros o' Ho'. simplify_eq. by bools.
    + intros row. eapply goes_whatever with (Mid := fun _ d x => sound d x /\ match row with Some (id, _) => sound_and q id d x | None => True end).
      * apply goes_hushed.
        -- intros d x d' x' [Hs Hrow] Hh. split; [by eapply stable_sound|]. destruct row as [[id o]|]; [|done]. by eapply stable_sound_and.
        -- apply every_tried, hushed_ext. intros x. rewrite results_keep. by destruct (law_keep cfg issued rolled_back reverted key row t x) as (_&->&_).
      * intros ?. apply goes_ret. intros d x [Hs Hrow]. by destruct row as [[id o]|].
Qed.

Lemma goes_create req : goes sound (CreateOrder cfg req) (answers (trim_space (ec_RequestId req))).
Proof.
  unfold CreateOrder. cbv zeta. set (q := trim_space (ec_RequestId req)). destruct (is_empty q); [apply goes_lock|].
  eapply goes_andthen with (Mid := fun found d x => match found with Some (id, _) => sound_and q id d x | None => sound d x end).
  { eapply goes_weaken; [apply goes_find|]. by intros [[[id o]|]|e] d x Hp. }
  intros [[id o]|].
  - eapply goes_whatever; [apply goes_remember|]. intros ?. eapply goes_whatever; [apply goes_forget|]. intros ?. apply goes_snapshot.
  - eapply goes_whatever; [apply (goes_recall sound); [apply stable_sound|done]|]. intros [c|e].
    + destruct (is_empty c).
      * intros s [Hs _]. by apply goes_lock.
      * intros s [_ Hs]. by apply goes_snapshot, Hs.
    + intros s [Hs _]. by apply goes_lock.
Qed.

(** * One order *)

(** Requests one after the other, at their times and with their faults. *)
Fixpoint create_all (l : list (Z * list fault * EntryCreateReq)) (d : DB) (x : X)
  : DB * X * list (string * res error EntryCreateResp) :=
  match l with
  | [] => (d, x, [])
  | (t, fs, req) :: l =>
      let '(s, r) := run_prog (CreateOrder cfg req) (mkEnv d x t fs) in
      let '(d', x', rs) := create_all l (db s) (ext s) in
      (d', x', (trim_space (ec_RequestId req), r) :: rs)
  end.

Lemma create_all_answers l d x :
  sound d x -> let '(d', x', rs) := create_all l d x in
  sound d' x' /\ evolves any_arrow d d' /\
  forall q r, (q, Ok r) ∈ rs -> q <> "" -> exists o, orders d' !! er_OrderId r = Some o /\ o_request_id o = q.
Proof.
  revert d x. induction l as [|[[t fs] req] l IH]; intros d x Hs; simpl.
  - split_and!; [done|apply db_evolves_refl|]. by intros q r ?%not_elem_of_nil.
  - pose proof (goes_create req (mkEnv d x t fs) Hs) as Hg.
    pose proof (run_every (evolves any_arrow d) (CreateOrder cfg req) (mkEnv d x t fs)) as He.
    destruct (run_prog (CreateOrder cfg req) (mkEnv d x t fs)) as [s r] eqn:Hrun. destruct Hg as [Hs' Ha].
    assert (evolves any_arrow d (db s)) as He1.
    { apply He; [|apply db_evolves_refl]. eapply every_impl; [|apply (forward_create cfg issued rolled_back reverted)]. intros B m Hm. apply Hm. }
    specialize (IH (db s) (ext s) Hs'). destruct (create_all l (db s) (ext s)) as [[d' x'] rs]. destruct IH as (Hs2&He2&Hrs).
    split_and!; [done|by eapply db_evolves_trans|]. intros q r' [Hin|Hin]%elem_of_cons Hq; [|by apply Hrs].
    injection Hin as -> <-. destruct (Ha Hq) as (o&Ho&Hreq). destruct (He2 _ o Ho) as (o'&Ho'&Hid&_).
    exists o'. split; [done|]. unfold order_identity in Hid. injection Hid as -> _ _ _ _. done.
Qed.

End retries.
