(* ===== verification/EntryScenarios.v ===== *)
(** A shop with one product on which the theorems on the entry API apply, and runs
    that show where the code departs from what it means to do. *)

From S2P Require Import Prelude Effects Sql Common OrderStore InventoryKitex OrderCreate PreDeduct OrderSystem OrderSteps EndToEnd Programs EntryOrders CloseOrder CloseSafety CloseQueue CloseProgress EntryRetries.

(** * The shop

    The keys of the entry API, the inventory service, the stock of the product
    service, the numbers given so far, and the cached rows if [caching]. *)
Record shop (caching : bool) := mkShop {
  sh_entry : EntryRedis;
  sh_stock : Z;
  sh_reserved : gmap string Z;
  sh_released : gset string;
  sh_sold : gmap string Z;
  sh_reverted : gset string;
  sh_next : nat;
  sh_cache : gmap string (option (string * Order))
}.
Arguments mkShop {caching} _ _ _ _ _ _ _ _.
Arguments sh_entry {caching} _.
Arguments sh_stock {caching} _.
Arguments sh_reserved {caching} _.
Arguments sh_released {caching} _.
Arguments sh_sold {caching} _.
Arguments sh_reverted {caching} _.
Arguments sh_next {caching} _.
Arguments sh_cache {caching} _.

(** The final deduction is made by the product service when the saga runs. *)
Definition shop_config : EntryConfig :=
  mkEntryConfig 0 "dtm" "order" "product" false 60 true true (mkSvc true true true true true 15 200 1).

Definition order_number (n : nat) : string := "o" +:+ itoa (Z.of_nat n).

Section shop.
Context {caching : bool}.
Abbreviation shop := (shop caching).

#[export] Instance shop_entry : HasEntry shop := {|
  get_entry := sh_entry;
  put_entry r x := mkShop r (sh_stock x) (sh_reserved x) (sh_released x) (sh_sold x) (sh_reverted x) (sh_next x) (sh_cache x)
|}.

#[export] Instance shop_inventory : InventoryClient shop := {|
  inv_ReserveStock o p q x :=
    if bool_decide (is_Some (sh_reserved x !! o)) then (x, Ok tt)
    else if sh_stock x <? q then (x, Err (OtherError "insufficient stock"))
    else (mkShop (sh_entry x) (sh_stock x - q) (<[o := q]> (sh_reserved x)) (sh_released x) (sh_sold x) (sh_reverted x) (sh_next x) (sh_cache x), Ok tt);
  inv_ConfirmDeduct o x := (x, Ok tt);
  inv_ReleaseStock o r x :=
    (mkShop (sh_entry x) (sh_stock x + default 0 (sh_reserved x !! o)) (delete o (sh_reserved x)) ({[o]} ∪ sh_released x)
       (sh_sold x) (sh_reverted x) (sh_next x) (sh_cache x), Ok tt)
|}.

#[export] Instance shop_product : ProductClient shop := {|
  prod_GetProductCard p x := (x, if p =? 100 then Ok (Some sandbox_card) else Err (StatusError NotFound "no product"))
|}.

#[export] Instance shop_redis : HasRedis shop := {| get_redis x := ∅; put_redis r x := x |}.

#[export] Instance shop_sales : StockClient shop := {|
  prod_Deduct r x :=
    (mkShop (sh_entry x) (sh_stock x) (sh_reserved x) (sh_released x) (<[dr_OrderId r := dr_Num r]> (sh_sold x)) (sh_reverted x)
       (sh_next x) (sh_cache x), Ok tt);
  prod_DeductRollback r x :=
    (mkShop (sh_entry x) (sh_stock x) (sh_reserved x) (sh_released x) (delete (dr_OrderId r) (sh_sold x)) (sh_reverted x)
       (sh_next x) (sh_cache x), Ok tt);
  prod_RevertStock r x :=
    (mkShop (sh_entry x) (sh_stock x) (sh_reserved x) (sh_released x) (delete (dr_OrderId r) (sh_sold x)) ({[dr_OrderId r]} ∪ sh_reverted x)
       (sh_next x) (sh_cache x), Ok tt)
|}.

#[export] Instance shop_provider : PaymentProvider shop := {|
  pp_Name := NameLocalSandbox;
  pp_Precreate q x := (x, Ok "");
  pp_Query o x := (x, Ok (mkQuery "" "WAIT_BUYER_PAY" 0));
  pp_Close o x := (x, Ok tt);
  pp_Refund r x := (x, Ok "SUCCESS");
  pp_VerifyNotification values := Err (OtherError "bad signature")
|}.

#[export] Instance shop_numbers : OrderIdGen shop := {|
  NextID x := (mkShop (sh_entry x) (sh_stock x) (sh_reserved x) (sh_released x) (sh_sold x) (sh_reverted x) (S (sh_next x)) (sh_cache x),
               order_number (sh_next x))
|}.

#[export] Instance shop_cached : OrdersCache shop := {|
  cache_take key t x := (x, Ok (if caching then sh_cache x !! key else None));
  cache_keep key v t x :=
    (mkShop (sh_entry x) (sh_stock x) (sh_reserved x) (sh_released x) (sh_sold x) (sh_reverted x) (sh_next x)
       (<[key := v]> (sh_cache x)), Ok tt)
|}.

(** The branches in order; when one fails, it and those before it are undone. *)
Fixpoint run_saga (before todo : list branch) : M DB shop error unit :=
  match todo with
  | [] => ret tt
  | b :: todo =>
      r <- attempt (branch_call shop_config b false (Some true)) ;;
      match r with
      | Ok _ => run_saga (b :: before) todo
      | Err e => for_each (fun b => ignore (branch_call shop_config b true (Some true))) (b :: before) ;;; throw e
      end
  end.

#[export] Instance shop_dtm : Dtm shop := {|
  dtm_NewGid x := (x, Ok "gid");
  dtm_Submit sg := run_saga [] (sg_steps sg)
|}.

Definition numbered (x : shop) : gset string := list_to_set (order_number <$> seq 0 (sh_next x)).

Lemma order_number_inj i j : order_number i = order_number j -> i = j.
Proof. unfold order_number. intros Hij%string_app_inj_l%itoa_inj. lia. Qed.

Lemma run_saga_preserves P before todo :
  (forall b c runs, b ∈ before ++ todo -> preserves (X := shop) P (branch_call shop_config b c runs)) -> preserves P (run_saga before todo).
Proof.
  revert before. induction todo as [|b todo IH]; intros before Hb; cbn [run_saga]; [apply preserves_ret|].
  apply preserves_bind; [apply preserves_attempt, Hb; set_solver|]. intros [u|e].
  - apply IH. intros b' c runs Hin. apply Hb. set_solver.
  - apply preserves_bind; [|intros _; apply preserves_throw].
    apply (preserves_for_each P _ (b :: before)). intros b' Hin. apply preserves_ignore, Hb. set_solver.
Qed.

Lemma run_saga_keeps I before todo :
  (forall b c runs, b ∈ before ++ todo -> keeps (D := DB) I (branch_call shop_config b c runs)) -> keeps I (run_saga before todo).
Proof.
  revert before. induction todo as [|b todo IH]; intros before Hb; cbn [run_saga]; [apply keeps_ret|].
  apply keeps_bind; [apply keeps_attempt, Hb; set_solver|]. intros [u|e].
  - apply IH. intros b' c runs Hin. apply Hb. set_solver.
  - apply keeps_bind; [|intros _; apply keeps_throw].
    apply (keeps_for_each I _ (b :: before)). intros b' Hin. apply keeps_ignore, Hb. set_solver.
Qed.

Definition shop_released (o : string) (x : shop) : Prop := o ∈ sh_released x.
Definition shop_reverted (o : string) (x : shop) : Prop := o ∈ sh_reverted x.

Lemma apart_step (x0 x : shop) :
  sh_entry x = sh_entry x0 -> sh_next x = sh_next x0 -> sh_released x0 ⊆ sh_released x -> sh_reverted x0 ⊆ sh_reverted x ->
  apart numbered shop_released shop_reverted x0 x.
Proof.
  intros He Hn Hr Hv. split_and!; [simpl; by rewrite He|unfold numbered; by rewrite Hn|].
  intros o. unfold shop_released, shop_reverted. set_solver.
Qed.

#[export] Instance shop_laws : EntryLaws (X := shop) shop_config numbered shop_released shop_reverted.
Proof.
  split; intros; try (by apply apart_step).
  - done.
  - split; [done|]. by intros o.
  - simpl. split_and!; [done|by intros o|..|done|].
    + unfold numbered. rewrite elem_of_list_to_set, list_elem_of_fmap. intros (n&Hn%order_number_inj&Hin).
      apply elem_of_seq in Hin. lia.
    + unfold numbered. cbn [sh_next]. rewrite seq_S, fmap_app, list_to_set_app_L. simpl. set_solver.
  - simpl. destruct (bool_decide _); [by apply apart_step|]. destruct (_ <? _); by apply apart_step.
  - apply apart_step; simpl; set_solver.
  - unfold PreDeduct. apply keeps_bind; [apply keeps_require|]. intros _.
    cbn [order_service shop_config has_inventory]. apply keeps_call. intros x Hx. eapply apart_trans; [exact Hx|].
    simpl. destruct (bool_decide _); [by apply apart_step|]. destruct (_ <? _); by apply apart_step.
  - unfold PreDeductRollback. apply keeps_bind; [apply keeps_require|]. intros _.
    cbn [order_service shop_config has_inventory]. apply keeps_call. intros x Hx. eapply apart_trans; [exact Hx|].
    apply apart_step; simpl; set_solver.
  - revert H. unfold PreDeductRollback, bind, require. destruct (negb _); simpl; [|done].
    unfold call. destruct (pop_fault s) as [[] s1]; simpl; intros [= <-]; [|done..]. simpl. unfold shop_released. simpl. set_solver.
  - apply apart_step; simpl; set_solver.
  - simpl in *. simplify_eq. unfold shop_reverted. simpl. set_solver.
  - apply run_saga_preserves. intros b c runs Hin. by apply H.
  - apply run_saga_keeps. intros b c runs Hin. by apply H.
Qed.
End shop.

(** * Checking runs *)

Abbreviation floor c := (pool DB (shop c) error entry_request).
Abbreviation labels := (list (label entry_request saga_request)).

Definition go {c} (ls : labels) (s : floor c) : option (floor c) := run (entry_body shop_config) (order_calls shop_config) ls s.

Definition in_time_b (t : Z) (p : process DB (shop false) error entry_request) : bool :=
  match entry_limit (pc_request p) with Some n => t <? pc_started p + n | None => true end.

Definition orderly_b (l : label entry_request saga_request) (s : floor false) : bool :=
  match l with
  | LTick d => forallb (fun e => in_time_b (po_now s + d) e.2) (map_to_list (processes s))
  | LOther _ _ => false
  | _ => true
  end.

Fixpoint orderly (ls : labels) (s : floor false) : bool :=
  match ls with
  | [] => true
  | l :: ls => match exec (entry_body shop_config) (order_calls shop_config) l s with
               | Some s' => orderly_b l s && orderly ls s'
               | None => true
               end
  end.

Lemma orderly_along (Q : label entry_request saga_request -> floor false -> floor false -> Prop) ls s :
  (forall l s s', orderly_b l s = true -> Q l s s') -> orderly ls s = true ->
  along (entry_body shop_config) (order_calls shop_config) Q ls s.
Proof.
  intros HQ. revert s. induction ls as [|l ls IH]; intros s; simpl; [done|].
  destruct (exec _ _ l s) as [s'|]; [|done]. intros [Hl Hls]%andb_true_iff. auto.
Qed.

Lemma orderly_prompt l s s' : orderly_b l s = true -> prompt entry_limit l s s'.
Proof.
  destruct l; simpl; try done. intros Hf. apply map_Forall_to_list, Forall_forall. intros [i p] Hin.
  rewrite List.forallb_forall in Hf. apply list_elem_of_In in Hin. specialize (Hf _ Hin).
  unfold in_time, in_time_b in *. simpl in *. destruct (entry_limit _); [|done]. by bools.
Qed.

Lemma orderly_left_open o l s s' : orderly_b l s = true -> left_open o tt l s s'.
Proof. by destruct l. Qed.

(** * One order *)

Definition tea : EntryCreateReq := mkEntryCreate "r1" 7 100 2 2000.
Definition opening (c : bool) : env DB (shop c) := mkEnv empty_db (mkShop empty_redis 10 ∅ ∅ ∅ ∅ 0 ∅) 1000 [].
Definition created (c : bool) : env DB (shop c) * res error EntryCreateResp := run_prog (CreateOrder shop_config tea) (opening c).
Definition ordered (c : bool) : floor c := mkPool (db (created c).1) (ext (created c).1) 1000 ∅.

Example created_answer : (created false).2 = Ok (mkEntryResp "o0" "pending_payment" 2000 "pay:o0").
Proof. vm_compute. reflexivity. Qed.

(** The calls of a request with the faults of each. *)
Definition request (i : nat) (r : entry_request) (fss : list (list fault)) : labels := LStart i r :: (LStep i <$> fss).
Definition fine (n : nat) : list (list fault) := replicate n [].

(** A turn in which the rollback of the deduction is not answered. *)
Definition failing : list (list fault) := fine 9 ++ [[FailBefore]] ++ fine 7.
Definition closing : labels := [LTick 60] ++ request 1 ReqConsume failing ++ [LTick 10] ++ request 1 ReqConsume (fine 12).

Definition view {c} (s : option (floor c)) :=
  match s with
  | None => None
  | Some s =>
      let x := po_ext s in
      Some ((fun e => (e.1, o_status e.2)) <$> map_to_list (orders (po_db s)),
            map_to_list (delay_queue (sh_entry x)), map_to_list (processing_queue (sh_entry x)),
            map_to_list (dead_letters (sh_entry x)), elements (sh_released x), elements (sh_reverted x),
            (map_to_list (processes s)).*1)
  end.

(** Closed by the first turn, its stock given back by the second. *)
Example closing_view :
  view (go closing (ordered false)) = Some ([("o0", orderstatus.Closed)], [], [], [], ["o0"], ["o0"], []).
Proof. vm_compute. reflexivity. Qed.

Definition state_after {c} (ls : labels) (s : floor c) : floor c := default s (go ls s).

Lemma go_state {c} (ls : labels) (s : floor c) : match go ls s with Some _ => true | None => false end = true -> go ls s = Some (state_after ls s).
Proof. unfold state_after. by destruct (go ls s). Qed.

Lemma scheduled_order_is_kept_witness :
  (exists ord, orders (po_db (ordered false)) !! "o0" = Some ord /\ o_status ord = orderstatus.PendingPayment) /\
  exists ord', orders (po_db (state_after closing (ordered false))) !! "o0" = Some ord' /\
    (o_status ord' = orderstatus.PendingPayment -> in_a_queue "o0" (get_entry (po_ext (state_after closing (ordered false))))) /\
    (o_status ord' = orderstatus.Closed -> in_a_queue "o0" (get_entry (po_ext (state_after closing (ordered false)))) \/
       given_back shop_config shop_released shop_reverted "o0" (po_ext (state_after closing (ordered false)))).
Proof.
  destruct (orders (po_db (ordered false)) !! "o0") as [ord|] eqn:Ho; [|vm_compute in Ho; discriminate].
  assert (o_status ord = orderstatus.PendingPayment) as Hst.
  { assert (o_status <$> orders (po_db (ordered false)) !! "o0" = Some orderstatus.PendingPayment) as Hs by (vm_compute; reflexivity).
    rewrite Ho in Hs. by injection Hs. }
  split; [exists ord; split; [reflexivity|exact Hst]|].
  apply (scheduled_order_is_kept shop_config numbered shop_released shop_reverted "o0" ord closing (ordered false)).
  - intros key t x. exact I.
  - discriminate.
  - vm_compute. reflexivity.
  - apply (bool_decide_unpack _). vm_compute. exact I.
  - exact Ho.
  - exact Hst.
  - apply (bool_decide_unpack _). vm_compute. exact I.
  - apply go_state. vm_compute. reflexivity.
  - apply orderly_along; [apply orderly_prompt|vm_compute; reflexivity].
  - apply orderly_along; [apply orderly_left_open|vm_compute; reflexivity].
Defined.

Lemma orders_move_forward_witness :
  exists ord, orders (po_db (ordered false)) !! "o0" = Some ord /\
  exists ord', orders (po_db (state_after closing (ordered false))) !! "o0" = Some ord' /\
    order_identity ord' = order_identity ord /\ rtc arrow (o_status ord) (o_status ord') /\
    (o_status ord = orderstatus.Closed \/ o_status ord = orderstatus.Completed \/ o_status ord = orderstatus.Refunded ->
     o_status ord' = o_status ord).
Proof.
  destruct (orders (po_db (ordered false)) !! "o0") as [ord|] eqn:Ho; [|vm_compute in Ho; discriminate].
  exists ord. split; [reflexivity|].
  apply (orders_move_forward shop_config numbered shop_released shop_reverted closing (ordered false)).
  - vm_compute. reflexivity.
  - apply go_state. vm_compute. reflexivity.
  - exact Ho.
Defined.

(** ** Turns without faults *)

#[export] Instance shop_answering : Answering (X := shop false).
Proof. split; done. Qed.

(** A minute after the order. *)
Definition later : env DB (shop false) := mkEnv (po_db (ordered false)) (po_ext (ordered false)) 1060 [].


Lemma failure_forgets_its_count_witness :
  exists x', run_prog (onFailure "o0") (mkEnv (po_db (ordered false)) (po_ext (ordered false)) 1060 []) =
      (mkEnv (po_db (ordered false)) x' 1060 [], Ok tt) /\
    delay_queue (get_entry x') !! "o0" = Some 1065 /\ counted 1060 (get_entry x') "o0" = 0.
Proof.
  destruct (failure_forgets_its_count shop_config numbered shop_released shop_reverted "o0"
    (po_db (ordered false)) (po_ext (ordered false)) 1060) as (x'&Hrun&_&Hc&Hq).
  exists x'. split; [exact Hrun|]. split; [|exact Hc].
  replace (maxRetries <=? counted 1060 (get_entry (po_ext (ordered false))) "o0") with false in Hq by (vm_compute; reflexivity).
  destruct Hq as [_ ->]. rewrite lookup_insert_eq. reflexivity.
Defined.

(** ** Requests that are repeated *)

Lemma branch_keeps_keys v b c runs : keeps (X := shop false) (D := DB) (fun x => results x = v) (branch_call shop_config b c runs).
Proof.
  destruct b as [r|r|r], c; cbn [branch_call]; cbv zeta.
  - unfold PreDeductRollback. apply keeps_bind; [apply keeps_require|]. intros _. by apply keeps_call.
  - unfold PreDeduct. apply keeps_bind; [apply keeps_require|]. intros _. apply keeps_call. intros x Hx. simpl.
    destruct (bool_decide _); [done|]. by destruct (_ <? _).
  - unfold CreateOrderRollback, CallWithDB, rollback_body, raw_db, exec_orders. keep.
  - unfold OrderCreate.CreateOrder, loadProductMerchantID, CallWithDB, create_order_body, InsertOrderCreatedOutbox, raw_db, query.
    keep. by apply keeps_call.
  - by apply keeps_call.
  - by apply keeps_call.
Qed.

#[export] Instance shop_requests : RequestLaws (X := shop false).
Proof. split; try done. intros v sg. apply run_saga_keeps. intros b c runs _. apply branch_keeps_keys. Qed.

Lemma opening_sound : sound numbered (db (opening false)) (ext (opening false)).
Proof.
  split.
  - intros k [o Ho]. done.
  - intros k1 k2 o1 o2 Ho. done.
  - intros q e He. done.
Qed.

(** The reply to the first is lost after the order is made; the others find it. *)
Definition repeated : list (Z * list fault * EntryCreateReq) :=
  [(1000, replicate 20 NoFault ++ [FailBefore], tea); (1005, [], tea); (90000, [], tea)].

Definition repeated_answers : list (string * res error EntryCreateResp) :=
  (create_all shop_config repeated (db (opening false)) (ext (opening false))).2.

Definition answered : EntryCreateResp := mkEntryResp "o0" "pending_payment" 2000 "pay:o0".

Example repeated_once : repeated_answers = [("r1", Err DbError); ("r1", Ok answered); ("r1", Ok answered)].
Proof. vm_compute. reflexivity. Qed.


(** * Where the code departs from what it means to do *)

(** ** Retries are never counted up to the dead-letter queue

    [onFailure] puts the order back and acknowledges it, and acknowledging deletes
    the counter: after nine failures in a row the order is retried again. *)
Definition failing_retry : list (list fault) := fine 8 ++ [[FailBefore]] ++ fine 7.
Definition nine_failures : labels :=
  LTick 60 :: request 1 ReqConsume failing ++ concat (replicate 8 (LTick 10 :: request 1 ReqConsume failing_retry)).

Example failures_are_not_counted :
  (fun s => (dead_letters (sh_entry (po_ext s)), retry_count (sh_entry (po_ext s)))) <$> go nine_failures (ordered false) =
    Some (∅, ∅) /\
  view (go nine_failures (ordered false)) = Some ([("o0", orderstatus.Closed)], [("o0", 1145)], [], [], [], ["o0"], []).
Proof. split; vm_compute; reflexivity. Qed.

(** ** A cached row loses the stock of an order

    The first turn closes the order and fails before its deduction is rolled back.
    The second reads the row cached by the first, still pending, changes no row and
    takes that for the work of another: the order leaves the queues. *)
Example cached_row_loses_stock :
  view (go ([LTick 60] ++ request 1 ReqConsume failing ++ [LTick 10] ++ request 1 ReqConsume (fine 9)) (ordered true)) =
    Some ([("o0", orderstatus.Closed)], [], [], [], [], ["o0"], []).
Proof. vm_compute. reflexivity. Qed.

(** ** Two sagas for one request

    The second of two equal requests runs between the lookup of the first and its
    lock, and has released the lock by then: the first submits a saga of its own,
    whose order is not inserted but whose stock is deducted. *)
Definition shut (c : bool) : floor c := mkPool (db (opening c)) (ext (opening c)) 1000 ∅.
Definition stock_view {c} (s : option (floor c)) :=
  (fun s => (sh_stock (po_ext s), map_to_list (sh_sold (po_ext s)), (map_to_list (orders (po_db s))).*1)) <$> s.

Example one_request_two_sagas :
  stock_view (go (request 1 (ReqCreateOrder tea) (fine 5) ++ request 2 (ReqCreateOrder tea) (fine 15) ++
                  (LStep 1 <$> fine 10)) (shut false)) =
    Some (6, [("o1", 2); ("o0", 2)], ["o0"]).
Proof. vm_compute. reflexivity. Qed.

(** ** An order that is not scheduled

    When the pipeline of [schedule] fails, the order is there, the answer is a success,
    and no queue knows the order. *)
Example unscheduled_order :
  view (go (request 1 (ReqCreateOrder tea) (fine 12 ++ [[FailBefore]] ++ fine 2)) (shut false)) =
    Some ([("o0", orderstatus.PendingPayment)], [], [], [], [], [], []).
Proof. vm_compute. reflexivity. Qed.

(** ** A cancellation that is not committed

    The stock goes back inside the transaction; when the commit fails the order is
    pending again, and can still be paid. *)
Example uncommitted_cancellation :
  view (go (request 1 (ReqCancel "o0" 7 "") [[]; replicate 7 NoFault ++ [FailBefore]; []] ++
            request 1 (ReqPay "o0" 7) (fine 6)) (ordered false)) =
    Some ([("o0", orderstatus.Paid)], [], [], [], ["o0"], ["o0"], []).
Proof. vm_compute. reflexivity. Qed.

(** ** A refund without a refund order, a payment without its event

    The administrator's refund marks the order refunded; the payment stays
    successful, there is no refund order, and paying wrote no [order.paid]. *)
Example refund_without_refund_order :
  (fun s => ((fun e => o_status e.2) <$> map_to_list (orders (po_db s)), map_to_list (refunds (po_db s)),
             (fun e => p_status e.2) <$> map_to_list (payments (po_db s)), event_type <$> outbox (po_db s))) <$>
    go (request 1 (ReqPay "o0" 7) (fine 6) ++ request 1 (ReqAdminRefund "o0" 1 "") (fine 4)) (ordered false) =
    Some ([orderstatus.Refunded], [], [paymentstatus.Success], ["order.created"]).
Proof. vm_compute. reflexivity. Qed.
